(* ===== verification/_CoqProject ===== *)
-Q . S2P
Prelude.v
Hashing.v
MerkleSpec.v
MerkleProof.v
MerkleRead.v
AppendMerkle.v
MerkleAppend.v
MerkleInclusion.v
MerkleRange.v
MerkleHistory.v
MerklePartial.v
MerkleFill.v
MerkleTheorems.v
Bytes.v
IonianSpec.v
SharedTypes.v
ChunkData.v
ChunkRuns.v
SealCodec.v
SealInfo.v
EntryBatch.v
EntryBatchProofs.v
StorageTheorems.v
MerkleLight.v
LightSpec.v
SegmentProof.v
FileTheorems.v
FlowStore.v
FlowReads.v
FlowWrites.v
TxStore.v
LogManager.v
FlowTree.v
LogInvariant.v
LogPadding.v
LogSteps.v
LogTx.v
LogProofs.v
LogRefinement.v
LogTheorems.v
ChunkPool.v
ChunkPoolProofs.v
ChunkPoolTheorems.v
SyncStore.v
SyncStoreProofs.v
SyncController.v
SyncControllerProofs.v
AutoSync.v
AutoSyncProofs.v
SyncService.v
SyncServiceProofs.v
SyncTheorems.v
KBucket.v
KBucketProofs.v
KBuckets.v
KBucketsProofs.v
KBucketsInvariant.v
KBucketsSearch.v
KBucketTheorems.v
PeerScore.v
PeerDB.v
PeerDBProofs.v
PeerTrust.v
PeerManager.v
PeerManagerProofs.v
PeerPruning.v
PeerTheorems.v
Ssz.v
SszProofs.v
SszLaws.v
SszTypes.v
RpcTypes.v
RateLimiter.v
RateLimiterProofs.v
RpcCodec.v
RpcCodecProofs.v
RpcTheorems.v
LogSync.v
LogSyncProofs.v
LogSyncTheorems.v
