(* ===== verification/Prelude.v ===== *)
(** * Verification of the ionian-rust storage node

    The program is a node of a decentralised storage network.  Users submit
    files to a contract on a blockchain; the contract appends the digests of
    their chunks to one append-only log, the _flow_.  A node follows the log,
    stores chunks of 256 bytes, proves to others that a chunk is in the flow,
    and downloads from its peers the files that it misses.  This library models
    the parts of the node that decide what is stored, proved, accepted and
    sent, and proves what they promise.  Paths below are relative to [src/].

    ** The parts and the files that model them

    - _Foundations._  [Prelude] has the results [res] (a value, an [Err] or a
      panic), the state monad [st] with its notations and tactics, and the
      shared lemmas on lists and maps.  [Bytes] has machine integers with their
      wrap-around, and slices.  [IonianSpec] and [SharedTypes] are
      [common/spec] and [node/shared_types]: constants, transactions, sizes,
      padding, chunk arrays.

    - _Append-only Merkle tree_ ([common/append_merkle]).  [Hashing] has the
      traits of elements and hashes; [MerkleRead], [AppendMerkle] and
      [MerkleProof] the live tree, its versions, the view of an old version,
      and proofs.  [MerkleSpec] is the reference tree of a list of leaves;
      [MerkleAppend], [MerkleInclusion], [MerkleRange], [MerkleHistory],
      [MerklePartial] and [MerkleFill] hold the proofs.

    - _File Merkle tree_ ([common/merkle_light], [node/shared_types/src/proof.rs]).
      [MerkleLight], [LightSpec] and [SegmentProof].

    - _Load chunks_ ([node/storage/src/log_store/load_chunk],
      [common/ionian_seal]).  [ChunkData] and [ChunkRuns], [SealCodec],
      [SealInfo], [EntryBatch] and [EntryBatchProofs].

    - _Log store_ ([node/storage/src/log_store]).  [FlowStore] ([FlowReads],
      [FlowWrites]) keeps the entries, [TxStore] the transactions, and
      [LogManager] the two-level flow tree over both; [FlowTree],
      [LogInvariant], [LogPadding], [LogSteps], [LogTx], [LogProofs] and
      [LogRefinement] hold the proofs, the last one the abstract log and the
      transfer of a range from one node to another.

    - _Chunk pool_ ([node/chunk_pool]).  [ChunkPool] and [ChunkPoolProofs]: the
      cache of uploads and the sliding window of writes.  The methods are
      [async]; the sections under a lock are the atomic steps, and theorems
      about interleavings are about sequences of these steps.

    - _Log synchronisation_ ([node/log_entry_sync]).  [LogSync] and
      [LogSyncProofs]: the queue of unconfirmed logs, and the manager that
      stores and reverts transactions.

    - _File synchronisation_ ([node/sync]).  [SyncStore] and [SyncStoreProofs]
      (the queues in the database), [SyncController] and
      [SyncControllerProofs] (the download of one file), [SyncService] and
      [SyncServiceProofs] (all downloads, and the answers to peers), [AutoSync]
      and [AutoSyncProofs] (the choice of the files).

    - _Network._  [KBucket], [KBucketProofs], [KBuckets], [KBucketsProofs],
      [KBucketsInvariant] and [KBucketsSearch] are the routing table
      ([version-meld/discv5/src/kbucket]).  [PeerScore], [PeerDB],
      [PeerManager] and their proofs in [PeerDBProofs], [PeerTrust],
      [PeerManagerProofs] and [PeerPruning] are
      [node/network/src/peer_manager].  [Ssz], [SszProofs], [SszLaws] and
      [SszTypes] are the SSZ codec ([version-meld/eth2_ssz]) and the derived
      codecs of the node.  [RpcTypes], [RpcCodec] and [RpcCodecProofs] are the
      messages and the wire format ([node/network/src/rpc]), [RateLimiter] and
      [RateLimiterProofs] the limiters of requests and of UDP packets.

    Each group ends in a file of main theorems: [MerkleTheorems],
    [FileTheorems], [StorageTheorems], [LogTheorems], [ChunkPoolTheorems],
    [LogSyncTheorems], [SyncTheorems], [KBucketTheorems], [PeerTheorems] and
    [RpcTheorems]; the theorems on rate limiters are in [RateLimiterProofs].

    ** How the models correspond to the code

    A struct is a record with the fields of the source, an enum an inductive
    type, a method a definition of the same name where the name is free.
    [&mut self] is state passing through [st], which keeps the changes made
    before an error or a panic.  An [Err] and a panic ([unwrap], [assert!],
    an index out of range, an overflow) are values of [res], so that the
    absence of panics is a theorem.  [HashMap], [BTreeMap] and the columns of
    the database are finite maps [gmap].  Sizes and sequence numbers are
    integers in [Z] with the width written out where arithmetic can overflow;
    indices into layers of trees are [nat].

    Code outside the repository is a type class or an argument: Keccak-256,
    the [bitmaps], [hashlink] and [arrayvec] crates, Snappy frames, the
    exponential function, the decoding of contract logs, the clock and random
    choices.  What the proofs need of it is a class of laws, such as
    [BitmapLaws], [LinkedHashMapLaws], [ArrayVecLaws], [WireLaws] and
    [CollisionFree]; the concrete instances of the theorems use an instance
    of the class.  Collision resistance is injectivity of the node hash, which
    the symbolic hash of [Hashing] satisfies.  The components meet through
    such classes too: [LogStoreWrite], [LogStoreRead], [RangeProofStore],
    [LogSyncStore] and [FileSync].

    ** What the theorems show

    - [MerkleTheorems]: any sequence of operations on the tree, commits and
      reverts included, gives the reference tree of the leaves; a tree with
      unknown subtrees is a partial view of it that fills up; accepted proofs
      are about the leaves of the tree; reverting undoes what followed a
      commit.

    - [FileTheorems]: the file tree has the reference root and its proofs are
      complete and sound.

    - [StorageTheorems]: a load chunk is a partial function from offsets to
      bytes, sealed or not, and unsealing inverts sealing.

    - [LogTheorems]: the log manager refines an append-only flow; reads return
      what was put, and the proofs of entries validate; a write to the flow store
      is exact or refused as a whole; where [revert_to] cuts the data.

    - [ChunkPoolTheorems]: the write path stores an admitted segment and refuses
      any other, the window advances over the longest written prefix, and the
      writers are counted, in every interleaving, those that a removal, a panic or
      an abandoned task loses included.

    - [LogSyncTheorems]: through any reorganisations of the chain the messages
      of the watcher give the confirmed transactions of the current chain; while
      the chain only grows, the manager stores them in the log manager.

    - [SyncTheorems]: the queues refine two lists, a download asks for and
      stores consecutive validated ranges, it completes with a peer that
      answers, and no transaction is forgotten by the manager.

    - [KBucketTheorems], [PeerTheorems]: the bucket is two queues, nodes are in
      the bucket of their distance and searches are ordered; the counters of
      the peer database, bans, trust, and the targets of pruning.

    - [RpcTheorems], [RateLimiterProofs]: encoded values are decoded, decoding
      is canonical and never panics, a message is delivered however its bytes
      are split and with bounded buffering; a limiter is one leaky bucket for
      each key and bounds what it grants.

    Some lemmas exhibit runs in which the code does not do what it means to,
    for example data that survive the revert of their transaction
    ([LogTheorems]), or logs of a young chain that are confirmed at once
    ([LogSyncTheorems]).

    ** Fuel

    Loops that are not structural take fuel, computed from the data by the
    caller: the number of layers or nodes for the loops of the Merkle trees,
    the length of the data or of the range for [chunks], padding and splitting,
    the number of slots or cached entries for the chunk pool, the counter
    that each iteration of [shrink_banned] and [shrink_disconnected] decrements.
    [transition] has [TRANSITION_FUEL] = 10 turns, which [SyncTheorems] shows
    to be enough from any state; the search of the routing table has
    [CLOSEST_FUEL], four turns for each of the 256 buckets and four more, which
    [KBucketTheorems] shows to be enough for every table.  The refinement
    theorems state that the operations return [Ok], which covers the fuel of
    the operations they are about.

    ** Not modelled

    - Sockets, timers, tasks and channels, and the state machines of libp2p and
      tokio that drive them: [rpc/handler.rs], [behaviour], [discovery] and
      [service.rs] of [node/network], the discv5 service, sessions and sockets,
      [node/router], the message loop of [node/sync].  Their handlers are
      modelled where they change the state of a modelled component.
    - Cryptography and the formats of third-party crates: packets and
      handshakes of discv5, node records ([version-meld/enr]), signed gossip
      messages.
    - The bytes of stored values ([load_chunk/serde.rs] and the derived codecs
      of load chunks): the columns of the database keep decoded values, except
      for the configuration column, whose integers are encoded.
    - [node/miner], [node/rpc], [node/src] and [common/contract-interface]:
      calls of contracts, an HTTP server that delegates, the start of the
      process, and generated code.
    - [node/file_location_cache] and the queries of discv5 ([query_pool]), which
      are pure enough to be modelled and are not covered.
    - Logging, metrics, display code and tests. *)

From Stdlib Require Import ZifyNat.
From stdpp Require Export base tactics strings gmap numbers list.

(** ** Results and panics

    A Rust call returns normally, returns an [Err] of [anyhow::Result], or
    panics.  The payloads are the messages of the source, without their
    formatted arguments. *)

Inductive res (A : Type) : Type :=
| Ok (a : A)
| Err (msg : string)
| Panic (msg : string).
Arguments Ok {A} a.
Arguments Err {A} msg.
Arguments Panic {A} msg.

Declare Scope rust_scope.
Delimit Scope rust_scope with rust.
#[global] Open Scope rust_scope.

Definition res_bind {A B} (m : res A) (k : A → res B) : res B :=
  match m with
  | Ok a => k a
  | Err e => Err e
  | Panic e => Panic e
  end.

(** [let x = m?; k], a panic of [m] propagating as well. *)
Notation "'let?' x := m 'in' k" := (res_bind m (λ x, k))
  (at level 10, x binder, m at level 100, k at level 200,
   format "'[v' 'let?'  x  :=  m  'in' '/' k ']'") : rust_scope.

Definition is_ok {A} (r : res A) : bool :=
  match r with Ok _ => true | _ => false end.

(** [bail!] / [ensure!] and [assert!]. *)
Definition ensure (b : bool) (msg : string) : res unit :=
  if b then Ok tt else Err msg.
Definition assert (b : bool) (msg : string) : res unit :=
  if b then Ok tt else Panic msg.

(** [Option::ok_or], [Option::expect] and [Option::unwrap]. *)
Definition ok_or {A} (o : option A) (msg : string) : res A :=
  match o with Some a => Ok a | None => Err msg end.
Definition expect {A} (o : option A) (msg : string) : res A :=
  match o with Some a => Ok a | None => Panic msg end.

(** [v[i]] on a slice or [Vec]: out of range panics. *)
Definition index {A} (v : list A) (i : nat) : res A :=
  expect (v !! i) "index out of bounds".

(** [v[i..j]]: panics when [i > j] or [j > v.len()]. *)
Definition slice {A} (v : list A) (i j : nat) : res (list A) :=
  if decide (i ≤ j ∧ j ≤ length v) then Ok (take (j - i) (drop i v))
  else Panic "slice index out of range".

(** [v[i] = x]. *)
Definition index_set {A} (v : list A) (i : nat) (x : A) : res (list A) :=
  if decide (i < length v) then Ok (<[i := x]> v)
  else Panic "index out of bounds".

(** [a - b] on [usize]/[u64]: an underflow panics (overflow checks on). *)
Definition checked_sub (a b : nat) : res nat :=
  if decide (b ≤ a) then Ok (a - b) else Panic "attempt to subtract with overflow".

(** [a + b] and [1 << n] on [usize]: 64 bits, overflow panics. *)
Definition checked_add (a b : nat) : res nat :=
  if (Z.of_nat a + Z.of_nat b <? 2 ^ 64)%Z then Ok (a + b)
  else Panic "attempt to add with overflow".
Definition shl1 (n : nat) : res nat :=
  if n <? 64 then Ok (2 ^ n) else Panic "attempt to shift left with overflow".

(** [a + b] on [u64]. *)
Definition u64_add (a b : Z) : res Z :=
  if (a + b <? 2 ^ 64)%Z then Ok (a + b)%Z else Panic "attempt to add with overflow".

(** [for x in l { acc = f(acc, x)?; }] *)
Fixpoint res_foldl {A B} (f : B → A → res B) (acc : B) (l : list A) : res B :=
  match l with
  | [] => Ok acc
  | x :: l => let? acc := f acc x in res_foldl f acc l
  end.

(** [l.into_iter().map(f).collect::<Result<Vec<_>>>()] *)
Fixpoint res_map {A B} (f : A → res B) (l : list A) : res (list B) :=
  match l with
  | [] => Ok []
  | x :: l =>
      let? y := f x in
      let? ys := res_map f l in
      Ok (y :: ys)
  end.

(** ** Stateful code

    A method taking [&mut self] is a function of the state; an [Err] keeps the
    mutations done so far, as in Rust. *)

Definition st (S A : Type) : Type := S → res A * S.

Definition st_ret {S A} (a : A) : st S A := λ s, (Ok a, s).
Definition st_bind {S A B} (m : st S A) (k : A → st S B) : st S B := λ s,
  match m s with
  | (Ok a, s') => k a s'
  | (Err e, s') => (Err e, s')
  | (Panic e, s') => (Panic e, s')
  end.

Notation "'let!' x := m 'in' k" := (st_bind m (λ x, k))
  (at level 10, x binder, m at level 100, k at level 200,
   format "'[v' 'let!'  x  :=  m  'in' '/' k ']'") : rust_scope.
Notation "m ;; k" := (st_bind m (λ _, k)) : rust_scope.

Definition st_get {S} : st S S := λ s, (Ok s, s).
Definition st_put {S} (s' : S) : st S unit := λ _, (Ok tt, s').
Definition st_modify {S} (f : S → S) : st S unit := λ s, (Ok tt, f s).
Definition st_lift {S A} (r : res A) : st S A := λ s, (r, s).
Definition st_reads {S A} (f : S → res A) : st S A := λ s, (f s, s).

(** Runs a method on an owned value, as a constructor does before returning it. *)
Definition st_exec {S A} (m : st S A) (s : S) : res S :=
  match m s with
  | (Ok _, s') => Ok s'
  | (Err e, _) => Err e
  | (Panic e, _) => Panic e
  end.

(** A method call on a field of the state. *)
Definition st_zoom {S T A} (get : S → T) (set : T → S → S) (m : st T A) : st S A :=
  λ s, let '(r, t) := m (get s) in (r, set t s).

(** [for x in l { f(x)?; }] *)
Fixpoint st_for {S A} (l : list A) (f : A → st S unit) : st S unit :=
  match l with
  | [] => st_ret tt
  | x :: l => let! _ := f x in st_for l f
  end.

(** ** Tactics *)

#[global] Arguments Nat.div : simpl never.
#[global] Arguments Nat.modulo : simpl never.
#[global] Arguments Nat.pow : simpl never.
#[global] Arguments Nat.mul : simpl never.
#[global] Arguments Nat.max : simpl never.

(** [lia] with division and modulo by constants. *)
Ltac dlia := zify; Z.to_euclidean_division_equations; lia.

(** Case analysis on the scrutinee of a [match] or [if] in the goal or in [H]. *)
Ltac case_goal :=
  match goal with
  | |- context [match ?x with _ => _ end] => destruct x eqn:?
  end.
Ltac case_in H :=
  match type of H with
  | context [match ?x with _ => _ end] => destruct x eqn:?
  end.

(** ** Lemmas on the combinators *)

Lemma res_foldl_app {A B} (f : B → A → res B) acc l1 l2 :
  res_foldl f acc (l1 ++ l2) = let? acc := res_foldl f acc l1 in res_foldl f acc l2.
Proof.
  revert acc. induction l1 as [|x l1 IH]; intros acc; simpl; [done|].
  by destruct (f acc x); simpl.
Qed.

Lemma st_bind_ok {S A B} (m : st S A) (k : A → st S B) s a s' :
  m s = (Ok a, s') → st_bind m k s = k a s'.
Proof. intros Hm. unfold st_bind. by rewrite Hm. Qed.

(** ** Computations that maintain a property of the state *)

Definition maintains {S} (I : S → Prop) {A} (m : st S A) : Prop := ∀ s, I s → I (m s).2.

Section Maintains.
Context {S : Type} (I : S → Prop).

Lemma maintains_ret {A} (a : A) : maintains I (st_ret a).
Proof. by intros s. Qed.

Lemma maintains_lift {A} (r : res A) : maintains I (st_lift r).
Proof. by intros s. Qed.

Lemma maintains_bind {A B} (m : st S A) (f : A → st S B) :
  maintains I m → (∀ a, maintains I (f a)) → maintains I (st_bind m f).
Proof.
  intros Hm Hf s Hs. unfold st_bind. specialize (Hm s Hs).
  destruct (m s) as [[a| |] s']; cbn in *; [by apply Hf|done..].
Qed.

Lemma maintains_get {A} (f : S → st S A) : (∀ s, I s → I (f s s).2) → maintains I (st_bind st_get f).
Proof. intros Hf s Hs. by apply Hf. Qed.

Lemma maintains_modify (f : S → S) : (∀ s, I s → I (f s)) → maintains I (st_modify f).
Proof. intros Hf s Hs. by apply Hf. Qed.

Lemma maintains_for {A} (l : list A) (f : A → st S unit) : (∀ a, maintains I (f a)) → maintains I (st_for l f).
Proof. intros Hf. induction l; cbn [st_for]; [apply maintains_ret|]. by apply maintains_bind. Qed.

Lemma maintains_reads {A} (f : S → res A) : maintains I (st_reads f).
Proof. by intros s. Qed.

Lemma maintains_zoom {T A} (get : S → T) (set : T → S → S) (m : st T A) :
  (∀ s t, I s → I (set t s)) → maintains I (st_zoom get set m).
Proof. intros Hset s Hs. unfold st_zoom. destruct (m (get s)) as [r t]. by apply Hset. Qed.
End Maintains.

(** A list is empty or ends with an element. *)
Lemma exists_last_or_nil {A} (l : list A) : l = [] ∨ ∃ l' x, l = l' ++ [x].
Proof. induction l using rev_ind; eauto. Qed.

(** A filter that every element passes. *)
Lemma filter_all {A} (P : A → Prop) `{∀ x, Decision (P x)} l : Forall P l → filter P l = l.
Proof. induction 1 as [|x l Hx _ IH]; [done|]. rewrite filter_cons, decide_True by done. by rewrite IH. Qed.
