(* ===== verification/Hashing.v ===== *)
(** * Hash elements and hash algorithms

    The traits [HashElement] and [Algorithm] of
    [common/append_merkle/src/merkle_tree.rs] as type classes, and their
    implementations for [H256] with Keccak-256 ([sha3.rs]).  Keccak itself
    ([tiny_keccak]) is a parameter of the implementations. *)

From S2P Require Import Prelude.

(** ** The traits *)

(** [trait HashElement]: [end_pad] is the hash of an all-zero subtree of a given
    height, [null] marks a node whose hash is not known yet. *)
Class HashElement (E : Type) := {
  HashElement_eq_dec :: EqDecision E;
  HashElement_countable :: Countable E;
  end_pad : nat → E;
  null : E;
}.

Definition is_null `{HashElement E} (e : E) : bool := bool_decide (e = null).

(** [trait Algorithm]. *)
Class Algorithm (E : Type) := {
  parent : E → E → E;
  leaf_hash : list Z → E;
}.

(** The default method [Algorithm::parent_single]. *)
Definition parent_single `{HashElement E, Algorithm E} (r : E) (height : nat) : E :=
  parent r (end_pad height).

(** What the tree code relies on: no hash collides with the [null] marker. *)
Class NeverNull (E : Type) `{HashElement E, Algorithm E} :=
  parent_not_null : ∀ l r : E, parent l r ≠ null.

(** Collision resistance of the node hash, idealised as injectivity. *)
Class CollisionFree (E : Type) `{Algorithm E} :=
  parent_inj : ∀ l r l' r' : E, parent l r = parent l' r' → l = l' ∧ r = r'.

(** [end_pad] is the root of the tree of [end_pad 0] leaves. *)
Class PadTower (E : Type) `{HashElement E, Algorithm E} :=
  end_pad_succ : ∀ h, end_pad (S h) = parent (end_pad h) (end_pad h) :> E.

(** ** [H256] and [Sha3Algorithm] *)

(** A byte is an integer in [0, 256); an [H256] is its list of bytes. *)
Abbreviation byte := Z (only parsing).
Abbreviation H256 := (list Z) (only parsing).

Definition H256_zero : H256 := replicate 32 0%Z.
Definition H256_repeat_byte (b : byte) : H256 := replicate 32 b.

Section Sha3.
Context (keccak : list byte → H256).

(** [Sha3Algorithm::parent] and [Sha3Algorithm::leaf]. *)
Definition sha3_parent (left right : H256) : H256 := keccak (left ++ right).
Definition sha3_leaf (data : list byte) : H256 := keccak data.

(** [ZERO_HASHES]: each entry is the parent of the previous one twice. *)
Fixpoint zero_hashes_from (n : nat) (h : H256) : list H256 :=
  match n with
  | O => []
  | S n => h :: zero_hashes_from n (sha3_parent h h)
  end.
Definition ZERO_HASHES : list H256 :=
  zero_hashes_from 64 (sha3_leaf (replicate 256 0%Z)).

(** [HashElement for H256].  The table has 64 entries, one per height of a tree
    with at most 2^63 leaves; the index is in range for every tree in memory. *)
Definition H256_end_pad (height : nat) : H256 :=
  default H256_zero (ZERO_HASHES !! height).

Definition H256_hash_element : HashElement H256 := {|
  end_pad := H256_end_pad;
  null := H256_repeat_byte 1;
|}.

Definition sha3_algorithm : Algorithm H256 := {|
  parent := sha3_parent;
  leaf_hash := sha3_leaf;
|}.

Lemma zero_hashes_from_lookup n h i x :
  zero_hashes_from n h !! i = Some x →
  zero_hashes_from n h !! S i = Some (sha3_parent x x) ∨ S i = n.
Proof.
  revert h i. induction n as [|n IH]; intros h i; simpl; [done|].
  destruct i as [|i]; simpl.
  - intros [= ->]. destruct n; [by right|]. left. done.
  - intros Hi. destruct (IH _ _ Hi) as [->| <-]; auto.
Qed.

End Sha3.

(** ** A free hash algebra

    The symbolic hash: distinct inputs have distinct hashes.  It satisfies every
    law above and is executable, so the witnesses use it. *)

Inductive term : Type :=
| TNull
| TPad (height : nat)
| TLeaf (data : list Z)
| TNode (l r : term).

#[export] Instance term_eq_dec : EqDecision term.
Proof. solve_decision. Defined.

Fixpoint term_encode (t : term) : gen_tree (nat + list Z) :=
  match t with
  | TNull => GenNode 0 []
  | TPad h => GenLeaf (inl h)
  | TLeaf d => GenLeaf (inr d)
  | TNode l r => GenNode 1 [term_encode l; term_encode r]
  end.
Fixpoint term_decode (t : gen_tree (nat + list Z)) : term :=
  match t with
  | GenLeaf (inl h) => TPad h
  | GenLeaf (inr d) => TLeaf d
  | GenNode _ [l; r] => TNode (term_decode l) (term_decode r)
  | GenNode _ _ => TNull
  end.
#[export] Instance term_countable : Countable term.
Proof.
  apply (inj_countable' term_encode term_decode).
  intros t. induction t as [|h|d|l IHl r IHr]; simpl; congruence.
Defined.

(** The padding of height [h] is the complete tree over [TPad 0]. *)
Fixpoint term_pad (h : nat) : term :=
  match h with
  | O => TPad 0
  | S h => TNode (term_pad h) (term_pad h)
  end.

#[export] Instance term_hash_element : HashElement term := {|
  end_pad := term_pad;
  null := TNull;
|}.
#[export] Instance term_algorithm : Algorithm term := {|
  parent := TNode;
  leaf_hash := TLeaf;
|}.
#[export] Instance term_never_null : NeverNull term.
Proof. done. Qed.
#[export] Instance term_collision_free : CollisionFree term.
Proof. intros l r l' r' [= -> ->]. done. Qed.
#[export] Instance term_pad_tower : PadTower term.
Proof. done. Qed.

(** ** Leaves of the flow

    What the storage of the flow relies on besides [NeverNull]: a hash differs
    from the [null] marker and from [H256::zero()], the leaf of the first entry
    of the flow and the null node of the file trees. *)
Class FlowHashes (E : Type) `{HashElement E, Algorithm E} (zero : E) := {
  leaf_not_null : ∀ d : list Z, leaf_hash d ≠ (null : E);
  leaf_not_zero : ∀ d : list Z, leaf_hash d ≠ zero;
  parent_not_zero : ∀ l r : E, parent l r ≠ zero;
  zero_not_null : zero ≠ null;
}.

#[export] Instance term_flow_hashes : FlowHashes term (TPad 1).
Proof. by split. Qed.
