(* ===== verification/MerkleSpec.v ===== *)
(** * Reference Merkle trees

    What a tree over a list of leaves is, independently of how it is maintained:
    each layer is the layer of parents of the one below, an odd last node being
    paired with the padding of its height.  The operations of [AppendMerkle] are
    proved against these definitions. *)

From S2P Require Import Prelude Hashing.

Section Reference.
Context {E : Type} `{HashElement E} `{!Algorithm E}.

(** The layer of parents of a layer at height [h]. *)
Fixpoint up (h : nat) (F : list E) : list E :=
  match F with
  | l :: r :: F => parent l r :: up h F
  | [r] => [parent_single r h]
  | [] => []
  end.

(** The [n] layers over [F], the first being [F] at height [h]. *)
Fixpoint build (h n : nat) (F : list E) : list (list E) :=
  match n with
  | O => []
  | S n => F :: build (S h) n (up h F)
  end.

(** The layer [d] above [F]. *)
Fixpoint layer_at (h d : nat) (F : list E) : list E :=
  match d with
  | O => F
  | S d => layer_at (S h) d (up h F)
  end.

(** The number of layers of the tree over [m] leaves. *)
Definition depth (m : nat) : nat := S (Nat.log2_up m).

(** The sibling of the node [i] of a layer at height [h]. *)
Definition sibling (h : nat) (F : list E) (i : nat) : E :=
  if i mod 2 =? 0 then default (end_pad h) (F !! S i)
  else default (end_pad h) (F !! (i - 1)).

(** The siblings on the way up from leaf [i] through [d] layers, and the sides. *)
Fixpoint siblings (h d : nat) (F : list E) (i : nat) : list E :=
  match d with
  | O => []
  | S d => sibling h F i :: siblings (S h) d (up h F) (i / 2)
  end.

Fixpoint sides (d i : nat) : list bool :=
  match d with
  | O => []
  | S d => (i mod 2 =? 0) :: sides d (i / 2)
  end.

(** The root computed from a node, its siblings and its sides. *)
Definition climb_step (x : E) (bs : bool * E) : E :=
  if bs.1 then parent x bs.2 else parent bs.2 x.
Definition climb (x : E) (path : list bool) (sibs : list E) : E :=
  foldl climb_step x (zip path sibs).

(** The root of the [n]-layer tree over [F]. *)
Definition root_of (h n : nat) (F : list E) : option E :=
  build h n F !! (n - 1) ≫= head.

(** ** Layers *)

Lemma list_pair_ind {A} (P : list A → Prop) :
  P [] → (∀ x, P [x]) → (∀ x y l, P l → P (x :: y :: l)) → ∀ l, P l.
Proof.
  intros P0 P1 P2 l. enough (P l ∧ ∀ x, P (x :: l)) by tauto.
  induction l as [|y l [IHl IHx]]; eauto.
Qed.

Lemma length_up h F : length (up h F) = (length F + 1) / 2.
Proof.
  induction F as [| |x y F IH] using list_pair_ind; [done..|]. simpl.
  rewrite IH. dlia.
Qed.

Lemma up_take h k F : take k (up h F) = up h (take (2 * k) F).
Proof.
  revert k. induction F as [|x|x y F IH] using list_pair_ind; intros k.
  - simpl. by rewrite !take_nil.
  - destruct k as [|k]; [done|]. replace (2 * S k) with (S (S (2 * k))) by lia.
    simpl. by rewrite !take_nil.
  - destruct k as [|k]; [done|]. replace (2 * S k) with (S (S (2 * k))) by lia.
    simpl. by rewrite IH.
Qed.

Lemma up_drop h k F : drop k (up h F) = up h (drop (2 * k) F).
Proof.
  revert k. induction F as [|x|x y F IH] using list_pair_ind; intros k.
  - simpl. by rewrite !drop_nil.
  - destruct k as [|k]; [done|]. replace (2 * S k) with (S (S (2 * k))) by lia.
    simpl. by rewrite !drop_nil.
  - destruct k as [|k]; [done|]. replace (2 * S k) with (S (S (2 * k))) by lia.
    simpl. by rewrite IH.
Qed.

(** The parent of a node, from its value and its sibling. *)
Lemma up_lookup h F i x :
  F !! i = Some x →
  up h F !! (i / 2) = Some (climb_step x (i mod 2 =? 0, sibling h F i)).
Proof.
  revert i. induction F as [|y|y z F IH] using list_pair_ind; intros i Hi; [done|..].
  - destruct i as [|i]; [|done]. simplify_eq/=. done.
  - destruct i as [|[|i]]; [by simplify_eq/=..|]. simpl in Hi.
    replace (S (S i) / 2) with (S (i / 2)) by dlia. simpl. rewrite (IH _ Hi).
    unfold sibling. replace (S (S i) mod 2) with (i mod 2) by dlia.
    destruct (i mod 2 =? 0) eqn:Hpar; [done|]. destruct i as [|i]; [done|].
    simpl. by rewrite Nat.sub_0_r.
Qed.

Lemma up_not_null `{!NeverNull E} h F : Forall (λ x, x ≠ null) (up h F).
Proof.
  induction F as [| |x y F IH] using list_pair_ind; simpl; [constructor|..];
    repeat constructor; auto; apply parent_not_null.
Qed.

(** Two layers that agree below [k] have parents that agree below [k / 2]. *)
Lemma up_take_agree h k F F' :
  take k F = take k F' → take (k / 2) (up h F) = take (k / 2) (up h F').
Proof.
  intros Heq. rewrite !up_take. f_equal.
  apply (f_equal (take (2 * (k / 2)))) in Heq.
  rewrite !take_take in Heq. by rewrite Nat.min_l in Heq by dlia.
Qed.

(** ** Depth *)

Lemma depth_small m : m ≤ 1 → depth m = 1.
Proof. intros ?. by destruct m as [|[|]]; [..|lia]. Qed.

Lemma depth_up m : 2 ≤ m → depth m = S (depth ((m + 1) / 2)).
Proof.
  intros Hm. unfold depth. f_equal.
  pose proof (Nat.log2_up_pos m ltac:(lia)).
  destruct (Nat.log2_up m) as [|k] eqn:Hk; [lia|]. f_equal. symmetry.
  pose proof (Nat.log2_up_spec m ltac:(lia)) as [Hlo Hhi]. rewrite Hk in Hlo, Hhi.
  simpl in Hlo. rewrite Nat.pow_succ_r' in Hhi.
  destruct k as [|k].
  - replace ((m + 1) / 2) with 1 by (change (2 ^ 0) with 1 in *; dlia). done.
  - rewrite Nat.pow_succ_r' in Hlo, Hhi. apply Nat.log2_up_unique; [lia|].
    simpl. rewrite Nat.pow_succ_r'. dlia.
Qed.

Lemma depth_pos m : 1 ≤ depth m.
Proof. unfold depth. lia. Qed.

Lemma depth_le_pow m : m ≤ 2 ^ (depth m - 1).
Proof.
  unfold depth. replace (S (Nat.log2_up m) - 1) with (Nat.log2_up m) by lia.
  destruct (decide (m ≤ 1)) as [Hm|Hm].
  - pose proof (Nat.pow_nonzero 2 (Nat.log2_up m)). lia.
  - apply Nat.log2_up_spec. lia.
Qed.

Lemma depth_mono m m' : m ≤ m' → depth m ≤ depth m'.
Proof. intros ?. unfold depth. pose proof (Nat.log2_up_le_mono m m'). lia. Qed.

Lemma depth_le m : depth m ≤ S m.
Proof. unfold depth. pose proof (Nat.log2_up_le_lin m). lia. Qed.

(** ** Built trees *)

Lemma length_build h n F : length (build h n F) = n.
Proof. revert h F. induction n; intros; simpl; auto. Qed.

Lemma build_lookup h n F d :
  d < n → build h n F !! d = Some (layer_at h d F).
Proof.
  revert h n F. induction d as [|d IH]; intros h [|n] F ?; simpl; try lia; [done|].
  apply IH. lia.
Qed.

Lemma layer_at_S h d F : layer_at h (S d) F = up (h + d) (layer_at h d F).
Proof.
  revert h F. induction d as [|d IH]; intros h F; simpl; [by rewrite Nat.add_0_r|].
  rewrite <- Nat.add_succ_comm. apply IH.
Qed.

Lemma layer_at_not_null `{!NeverNull E} h d F :
  Forall (λ x, x ≠ null) F → Forall (λ x, x ≠ null) (layer_at h d F).
Proof. intros. destruct d; [done|]. rewrite layer_at_S. apply up_not_null. Qed.

(** The layer [d] above [m] nodes has [⌈m / 2^d⌉] nodes. *)
Lemma length_layer_at h d F : length (layer_at h d F) = (length F + 2 ^ d - 1) / 2 ^ d.
Proof.
  induction d as [|d IH].
  - change (2 ^ 0) with 1. simpl. rewrite Nat.div_1_r. lia.
  - rewrite layer_at_S, length_up, IH, Nat.pow_succ_r', (Nat.mul_comm 2 (2 ^ d)).
    pose proof (Nat.pow_nonzero 2 d ltac:(lia)).
    rewrite <- Nat.Div0.div_div. f_equal.
    rewrite <- (Nat.div_add (length F + 2 ^ d - 1) 1 (2 ^ d)) by done.
    f_equal. lia.
Qed.

Lemma length_layer_at_top h d F :
  1 ≤ length F → length F ≤ 2 ^ d → length (layer_at h d F) = 1.
Proof.
  intros. rewrite length_layer_at. symmetry. apply (Nat.div_unique _ _ _ (length F - 1)); lia.
Qed.

Lemma root_of_layer_at h n F : 1 ≤ n → root_of h n F = head (layer_at h (n - 1) F).
Proof. intros. unfold root_of. by rewrite build_lookup by lia. Qed.

(** A nonempty tree with enough layers has one node at the top: its root. *)
Lemma build_top h n F :
  F ≠ [] → depth (length F) ≤ n → ∃ r, layer_at h (n - 1) F = [r] ∧ root_of h n F = Some r.
Proof.
  intros HF Hn. pose proof (depth_pos (length F)). pose proof (depth_le_pow (length F)).
  pose proof (Nat.pow_le_mono_r 2 (depth (length F) - 1) (n - 1) ltac:(lia) ltac:(lia)).
  rewrite root_of_layer_at by lia.
  destruct F as [|x F]; [done|]. pose proof (length_layer_at_top h (n - 1) (x :: F)) as Hl.
  simpl in *. destruct (layer_at _ _ _) as [|r [|]]; simpl in Hl; [lia| |lia].
  by exists r.
Qed.

(** ** Climbing *)

Lemma length_sides d i : length (sides d i) = d.
Proof. revert i. induction d; intros; simpl; auto. Qed.

Lemma length_siblings h d F i : length (siblings h d F i) = d.
Proof. revert h F i. induction d; intros; simpl; auto. Qed.

Lemma sides_snoc d i : sides (S d) i = sides d i ++ [i / 2 ^ d mod 2 =? 0].
Proof.
  revert i. induction d as [|d IH]; intros i.
  - change (2 ^ 0) with 1. simpl. by rewrite Nat.div_1_r.
  - change (sides (S (S d)) i) with ((i mod 2 =? 0) :: sides (S d) (i / 2)).
    rewrite IH, Nat.pow_succ_r', Nat.Div0.div_div. done.
Qed.

Lemma siblings_snoc h d F i :
  siblings h (S d) F i =
  siblings h d F i ++ [sibling (h + d) (layer_at h d F) (i / 2 ^ d)].
Proof.
  revert h F i. induction d as [|d IH]; intros h F i.
  - change (2 ^ 0) with 1. simpl. by rewrite Nat.div_1_r, Nat.add_0_r.
  - change (siblings h (S (S d)) F i)
      with (sibling h F i :: siblings (S h) (S d) (up h F) (i / 2)).
    rewrite IH, Nat.pow_succ_r', Nat.Div0.div_div, <- Nat.add_succ_comm. done.
Qed.

Lemma sides_lookup d i k : k < d → sides d i !! k = Some (i / 2 ^ k mod 2 =? 0).
Proof.
  revert i k. induction d as [|d IH]; intros i k Hk; [lia|]. destruct k as [|k]; simpl.
  - change (2 ^ 0) with 1. by rewrite Nat.div_1_r.
  - rewrite IH by lia. by rewrite Nat.pow_succ_r', Nat.Div0.div_div.
Qed.

Lemma siblings_lookup h d F i k :
  k < d → siblings h d F i !! k = Some (sibling (h + k) (layer_at h k F) (i / 2 ^ k)).
Proof.
  revert h F i k. induction d as [|d IH]; intros h F i k Hk; [lia|].
  destruct k as [|k]; simpl.
  - change (2 ^ 0) with 1. by rewrite Nat.div_1_r, Nat.add_0_r.
  - rewrite IH by lia. by rewrite Nat.pow_succ_r', Nat.Div0.div_div, <- Nat.add_succ_comm.
Qed.

Lemma climb_cons x b bs y ys :
  climb x (b :: bs) (y :: ys) = climb (climb_step x (b, y)) bs ys.
Proof. done. Qed.

(** Climbing [d] layers from a node reaches its ancestor. *)
Lemma climb_layer_at h d F i x :
  F !! i = Some x →
  layer_at h d F !! (i / 2 ^ d) = Some (climb x (sides d i) (siblings h d F i)).
Proof.
  revert h F i x. induction d as [|d IH]; intros h F i x Hi.
  - change (2 ^ 0) with 1. by rewrite Nat.div_1_r.
  - rewrite Nat.pow_succ_r', <- Nat.Div0.div_div. simpl. rewrite climb_cons.
    apply IH. by apply up_lookup.
Qed.

(** Without collisions the root determines the leaf and the siblings. *)
Lemma climb_inj `{!CollisionFree E} x x' path sibs sibs' :
  length sibs = length path → length sibs' = length path →
  climb x path sibs = climb x' path sibs' → x = x' ∧ sibs = sibs'.
Proof.
  revert x x' sibs sibs'. induction path as [|b path IH];
    intros x x' [|y sibs] [|y' sibs'] Hl Hl' Heq; simplify_eq/=; [done|].
  rewrite !climb_cons in Heq. destruct (IH _ _ _ _ Hl Hl' Heq) as [Hstep ->].
  unfold climb_step in Hstep. destruct b; simpl in *;
    apply parent_inj in Hstep as [-> ->]; done.
Qed.

End Reference.

#[global] Arguments depth : simpl never.
