(* ===== verification/MerkleRead.v ===== *)
(** * The reading interface of Merkle trees

    [trait MerkleTreeRead] of [common/append_merkle/src/merkle_tree.rs]: four
    accessors and the default methods built on them.  The live tree and the
    historic trees of [AppendMerkle] are its two implementations; proof
    generation is written, and verified, once against the interface. *)

From S2P Require Import Prelude Hashing MerkleProof.

Class MerkleTreeRead (T E : Type) := {
  node : T → nat → nat → res E;
  height : T → nat;
  layer_len : T → nat → res nat;
  padding_node : T → nat → E;
}.

Section Read.
Context {T E : Type} `{HashElement E} `{!Algorithm E} `{!MerkleTreeRead T E}.

Definition leaves (t : T) : res nat := layer_len t 0.

Definition tree_root (t : T) : res E :=
  let? top := checked_sub (height t) 1 in
  node t top 0.

(** One iteration of the loop of [gen_proof]; the accumulator is
    [(lemma, path, index_in_layer)]. *)
Definition gen_proof_step (t : T) (acc : list E * list bool * nat) (height : nat)
    : res (list E * list bool * nat) :=
  let '(lemma, path, index_in_layer) := acc in
  if index_in_layer mod 2 =? 0 then
    let? len := layer_len t height in
    let? sibling := (if index_in_layer + 1 =? len then Ok (padding_node t height)
               else node t height (index_in_layer + 1)) in
    Ok (lemma ++ [sibling], path ++ [true], index_in_layer / 2)
  else
    let? sibling := node t height (index_in_layer - 1) in
    Ok (lemma ++ [sibling], path ++ [false], index_in_layer / 2).

Definition gen_proof (t : T) (leaf_index : nat) : res (MProof E) :=
  let? n := leaves t in
  let? _ := ensure (leaf_index <? n) "leaf index out of bound" in
  let? leaf := node t 0 leaf_index in
  let? _ := ensure (negb (is_null leaf)) "Not ready to generate proof" in
  if height t =? 1 then
    let? r := tree_root t in
    Proof_new [r; r] []
  else
    let? '(lemma, path, _) :=
      res_foldl (gen_proof_step t) ([leaf], [], leaf_index) (seq 0 (height t - 1)) in
    let? r := tree_root t in
    Proof_new (lemma ++ [r]) path.

End Read.
