(* ===== verification/AppendMerkle.v ===== *)
(** * The append-only Merkle tree: [common/append_merkle/src/lib.rs]

    [AppendMerkleTree], its versions ([DeltaNodes]) and the read-only view of an
    old version ([HistoryTree]).  Indices into the layers are [nat]; transaction
    sequence numbers are [u64] in [Z]. *)

From S2P Require Import Prelude Hashing MerkleProof MerkleRead.

Section Tree.
Context {E : Type} `{HashElement E} `{!Algorithm E}.

(** ** State *)

Record DeltaNodes : Type := MkDeltaNodes { right_most_nodes : list (nat * E) }.

Record AppendMerkleTree : Type := MkTree {
  layers : list (list E);
  delta_nodes_map : gmap Z DeltaNodes;
  root_to_tx_seq_map : gmap E Z;
  min_depth : option nat;
  leaf_height : nat;
}.

Definition set_layers (ls : list (list E)) (t : AppendMerkleTree) : AppendMerkleTree :=
  MkTree ls (delta_nodes_map t) (root_to_tx_seq_map t) (min_depth t) (leaf_height t).
Definition set_versions (d : gmap Z DeltaNodes) (r : gmap E Z) (t : AppendMerkleTree)
    : AppendMerkleTree :=
  MkTree (layers t) d r (min_depth t) (leaf_height t).

(** ** [impl MerkleTreeRead for AppendMerkleTree] *)

#[export] Instance AppendMerkleTree_read : MerkleTreeRead AppendMerkleTree E := {|
  node t layer i := let? l := index (layers t) layer in index l i;
  height t := length (layers t);
  layer_len t layer_height := let? l := index (layers t) layer_height in Ok (length l);
  padding_node t height := end_pad (height + leaf_height t);
|}.

(** ** [recompute] *)

(** [if *left == null || *right == null { null } else { A::parent(left, right) }] *)
Definition pair_parent (l r : E) : E :=
  if is_null l || is_null r then null else parent l r.
Definition single_parent (r : E) (height : nat) : E :=
  if is_null r then null else parent_single r height.

(** The [parent_update] list: the pairs of [chunks_exact(2)] and the remainder,
    [k] being [next_layer_start_index + i]. *)
Fixpoint parent_update (k : nat) (height : nat) (children : list E) : list (nat * E) :=
  match children with
  | l :: r :: children => (k, pair_parent l r) :: parent_update (S k) height children
  | [r] => [(k, single_parent r height)]
  | [] => []
  end.

(** The loop that stores [parent_update] into the parent layer; the second
    component is [last_changed_parent_index]. *)
Definition store_parent (acc : list E * option nat) (u : nat * E)
    : res (list E * option nat) :=
  let '(layer, last_changed) := acc in
  let '(parent_index, p) := u in
  match parent_index ?= length layer with
  | Lt =>
      if is_null p then Ok (layer, last_changed)
      else
        let? old := index layer parent_index in
        if negb (is_null old) && negb (bool_decide (old = p))
           && negb (parent_index =? length layer - 1)
        then Panic "Invalid append merkle tree!"
        else Ok (<[parent_index := p]> layer, Some parent_index)
  | Eq => Ok (layer ++ [p], Some parent_index)
  | Gt => Panic "internal error: entered unreachable code"
  end.

(** [before_extend_layer] on the vector of layers. *)
Definition before_extend_layer (height : nat) (ls : list (list E)) : list (list E) :=
  if height =? length ls then ls ++ [[]] else ls.

(** The body of the [while] loop at one height: the new layers, the start index
    and the end index of the next height. *)
Definition recompute_layer (leaf_height height : nat) (ls : list (list E))
    (start_index : nat) (maybe_end_index : option nat)
    : res (list (list E) * option nat) :=
  let? layer := index ls height in
  let next_layer_start_index := start_index / 2 in
  let start_index := if start_index mod 2 =? 1 then start_index - 1 else start_index in
  let end_index := default (length layer) maybe_end_index in
  let end_index :=
    if (end_index mod 2 =? 1) && negb (end_index =? length layer)
    then end_index + 1 else end_index in
  let? children := slice layer start_index end_index in
  let ups := parent_update next_layer_start_index (height + leaf_height) children in
  match ups with
  | [] => Ok (ls, None)
  | _ =>
      let ls := before_extend_layer (height + 1) ls in
      let? parents := index ls (height + 1) in
      let? '(parents, last_changed) := res_foldl store_parent (parents, None) ups in
      Ok (<[height + 1 := parents]> ls, option_map S last_changed)
  end.

(** The [while] loop.  Every iteration goes up one height, and above the layers
    that exist the width halves, so the number of nodes bounds the iterations. *)
Fixpoint recompute_loop (fuel leaf_height height : nat) (ls : list (list E))
    (start_index : nat) (maybe_end_index : option nat) : res (list (list E)) :=
  match fuel with
  | O => Panic "recompute: out of fuel"
  | S fuel =>
      let? layer := index ls height in
      if (1 <? length layer) || (height <? length ls - 1) then
        let? '(ls, maybe_end_index) :=
          recompute_layer leaf_height height ls start_index maybe_end_index in
        recompute_loop fuel leaf_height (height + 1) ls (start_index / 2) maybe_end_index
      else Ok ls
  end.

Definition recompute_fuel (ls : list (list E)) : nat :=
  S (length ls + length (default [] (ls !! 0))).

Definition recompute (start_index : nat) (maybe_end_index : option nat)
    : st AppendMerkleTree unit :=
  let! t := st_get in
  let! ls := st_lift (recompute_loop (recompute_fuel (layers t)) (leaf_height t) 0
                  (layers t) start_index maybe_end_index) in
  st_put (set_layers ls t).

Definition recompute_after_append (start_index : nat) : st AppendMerkleTree unit :=
  recompute start_index None.
Definition recompute_after_fill_leaves (start_index end_index : nat)
    : st AppendMerkleTree unit :=
  recompute start_index (Some end_index).

(** ** Versions *)

Definition DeltaNodes_get (d : DeltaNodes) (height position : nat) : res (option E) :=
  match right_most_nodes d !! height with
  | None => Err "position out of tree range"
  | Some (last_index, x) =>
      if last_index <? position then Err "position out of tree range"
      else if position =? last_index then Ok (Some x)
      else Ok None
  end.

Definition DeltaNodes_layer_len (d : DeltaNodes) (height : nat) : res nat :=
  let? '(last_index, _) := index (right_most_nodes d) height in
  Ok (last_index + 1).

Definition DeltaNodes_height (d : DeltaNodes) : nat := length (right_most_nodes d).

Definition DeltaNodes_root (d : DeltaNodes) : res E :=
  let? '(_, x) := expect (last (right_most_nodes d)) "unwrap on None" in
  Ok x.

(** [(layer.len() - 1, layer.last().unwrap().clone())] *)
Definition right_most_node (layer : list E) : res (nat * E) :=
  let? i := checked_sub (length layer) 1 in
  let? x := expect (last layer) "unwrap on None" in
  Ok (i, x).

Fixpoint right_most_path (ls : list (list E)) : res (list (nat * E)) :=
  match ls with
  | [] => Ok []
  | layer :: ls =>
      let? x := right_most_node layer in
      let? xs := right_most_path ls in
      Ok (x :: xs)
  end.

Definition insert_delta (tx_seq : Z) (nodes : list (nat * E)) (t : AppendMerkleTree)
    : AppendMerkleTree :=
  set_versions (<[tx_seq := MkDeltaNodes nodes]> (delta_nodes_map t))
    (root_to_tx_seq_map t) t.

Definition commit (tx_seq : option Z) : st AppendMerkleTree unit :=
  match tx_seq with
  | None => st_ret tt
  | Some tx_seq =>
      let! n := st_reads leaves in
      if n =? 0 then st_modify (insert_delta tx_seq [])
      else
        let! nodes := st_reads (λ t, right_most_path (layers t)) in
        let! r := st_reads tree_root in
        let! lst := st_lift (expect (last nodes) "unwrap on None") in
        let! _ := st_lift (assert (bool_decide (r = lst.2)) "assertion failed: root == last") in
        st_modify (λ t, set_versions (<[tx_seq := MkDeltaNodes nodes]> (delta_nodes_map t))
                          (<[r := tx_seq]> (root_to_tx_seq_map t)) t)
  end.

(** ** Constructors *)

Definition empty_tree (ls : list (list E)) (min_depth : option nat) (leaf_height : nat)
    : AppendMerkleTree := MkTree ls ∅ ∅ min_depth leaf_height.

(** [if let Some(seq) = start_tx_seq { delta_nodes_map.insert(seq, ..[]) }] *)
Definition start_empty (start_tx_seq : option Z) (t : AppendMerkleTree) : AppendMerkleTree :=
  match start_tx_seq with
  | Some seq => insert_delta seq [] t
  | None => t
  end.

Definition new (lvs : list E) (leaf_height : nat) (start_tx_seq : option Z)
    : res AppendMerkleTree :=
  let merkle := empty_tree [lvs] None leaf_height in
  let? n := leaves merkle in
  if n =? 0 then Ok (start_empty start_tx_seq merkle)
  else st_exec (recompute 0 None;; commit start_tx_seq) merkle.

(** ** Mutators *)

Definition push_layer0 (xs : list E) : st AppendMerkleTree unit :=
  let! t := st_get in
  let! layer := st_lift (index (layers t) 0) in
  st_put (set_layers (<[0 := layer ++ xs]> (layers t)) t).

Definition append (new_leaf : E) : st AppendMerkleTree unit :=
  push_layer0 [new_leaf];;
  let! n := st_reads leaves in
  let! start_index := st_lift (checked_sub n 1) in
  recompute_after_append start_index.

Definition append_list (leaf_list : list E) : st AppendMerkleTree unit :=
  let! start_index := st_reads leaves in
  push_layer0 leaf_list;;
  recompute_after_append start_index.

(** One iteration of the loop of [append_subtree_inner]. *)
Definition push_null_layer (subtree_depth : nat) (height : nat) : st AppendMerkleTree unit :=
  let! t := st_get in
  let ls := before_extend_layer height (layers t) in
  let! size := st_lift (shl1 (subtree_depth - 1 - height)) in
  let! layer := st_lift (index ls height) in
  st_put (set_layers (<[height := layer ++ replicate size null]> ls) t).

Definition append_subtree_inner (subtree_depth : nat) (subtree_root : E)
    : st AppendMerkleTree unit :=
  if subtree_depth =? 0 then st_lift (Err "Subtree depth should not be zero!")
  else
    let! n := st_reads leaves in
    let! size := st_lift (shl1 (subtree_depth - 1)) in
    if negb (n mod size =? 0)
    then st_lift (Err "The current leaves count is aligned with the merged subtree")
    else
      st_for (seq 0 (subtree_depth - 1)) (push_null_layer subtree_depth);;
      let! t := st_get in
      let ls := before_extend_layer (subtree_depth - 1) (layers t) in
      let! layer := st_lift (index ls (subtree_depth - 1)) in
      st_put (set_layers (<[subtree_depth - 1 := layer ++ [subtree_root]]> ls) t).

Definition append_subtree (subtree_depth : nat) (subtree_root : E)
    : st AppendMerkleTree unit :=
  let! start_index := st_reads leaves in
  append_subtree_inner subtree_depth subtree_root;;
  recompute_after_append start_index.

Definition append_subtree_list (subtree_list : list (nat * E)) : st AppendMerkleTree unit :=
  let! start_index := st_reads leaves in
  st_for subtree_list (λ '(subtree_depth, subtree_root),
    append_subtree_inner subtree_depth subtree_root);;
  recompute_after_append start_index.

Definition update_last (updated_leaf : E) : st AppendMerkleTree unit :=
  let! t := st_get in
  let! layer := st_lift (index (layers t) 0) in
  let layer := match layer with
               | [] => [updated_leaf]
               | _ => <[length layer - 1 := updated_leaf]> layer
               end in
  st_put (set_layers (<[0 := layer]> (layers t)) t);;
  let! n := st_reads leaves in
  let! start_index := st_lift (checked_sub n 1) in
  recompute_after_append start_index.

Definition fill_leaf (i : nat) (leaf : E) : st AppendMerkleTree unit :=
  let! t := st_get in
  let! layer := st_lift (index (layers t) 0) in
  let! old := st_lift (index layer i) in
  if is_null old then
    st_put (set_layers (<[0 := <[i := leaf]> layer]> (layers t)) t);;
    recompute_after_fill_leaves i (i + 1)
  else if bool_decide (old = leaf) then st_ret tt
  else st_lift (Panic "Fill with invalid leaf").

Definition new_with_subtrees (subtree_root_list : list (nat * E)) (leaf_height : nat)
    (start_tx_seq : option Z) : res AppendMerkleTree :=
  let merkle := empty_tree [[]] None leaf_height in
  match subtree_root_list with
  | [] => Ok (start_empty start_tx_seq merkle)
  | _ => st_exec (append_subtree_list subtree_root_list;; commit start_tx_seq) merkle
  end.

Definition new_with_depth (lvs : list E) (depth : nat) (start_tx_seq : option Z)
    : res AppendMerkleTree :=
  match lvs with
  | [] => Ok (start_empty start_tx_seq (empty_tree (replicate depth []) (Some depth) 0))
  | _ =>
      let? ls := index_set (replicate depth []) 0 lvs in
      st_exec (recompute 0 None;; commit start_tx_seq) (empty_tree ls (Some depth) 0)
  end.

(** ** Queries *)

Definition gen_range_proof (t : AppendMerkleTree) (start_index end_index : nat)
    : res (RangeProof E) :=
  if end_index <=? start_index then Err "invalid proof range"
  else
    let? left_proof := gen_proof t start_index in
    let? right_proof := gen_proof t (end_index - 1) in
    Ok (MkRangeProof left_proof right_proof).

Definition check_root (t : AppendMerkleTree) (r : E) : bool :=
  bool_decide (is_Some (root_to_tx_seq_map t !! r)).

Definition leaf_at (t : AppendMerkleTree) (position : nat) : res (option E) :=
  let? n := leaves t in
  if n <=? position then Err "Out of bound"
  else
    let? x := node t 0 position in
    Ok (if is_null x then None else Some x).

(** ** Reverting *)

(** The [while] loop of [clear_after]; each iteration removes a key, so the size
    of the map bounds the iterations. *)
Fixpoint clear_after_loop (fuel : nat) (tx_seq : Z) (t : AppendMerkleTree)
    : res AppendMerkleTree :=
  match fuel with
  | O => Ok t
  | S fuel =>
      match delta_nodes_map t !! tx_seq with
      | None => Ok t
      | Some nodes =>
          let? roots := (if DeltaNodes_height nodes =? 0 then Ok (root_to_tx_seq_map t)
                   else let? r := DeltaNodes_root nodes in Ok (delete r (root_to_tx_seq_map t))) in
          let? next := u64_add tx_seq 1 in
          clear_after_loop fuel next
            (set_versions (delete tx_seq (delta_nodes_map t)) roots t)
      end
  end.

Definition clear_after (tx_seq : Z) (t : AppendMerkleTree) : res AppendMerkleTree :=
  let? first := u64_add tx_seq 1 in
  clear_after_loop (size (delta_nodes_map t)) first t.

(** [layers[height].truncate(last_index + 1); layers[height][last_index] = node] *)
Definition restore_layer (ls : list (list E)) (hn : nat * (nat * E)) : res (list (list E)) :=
  let '(height, (last_index, x)) := hn in
  let? layer := index ls height in
  let? layer := index_set (take (last_index + 1) layer) last_index x in
  Ok (<[height := layer]> ls).

Definition revert_to (tx_seq : Z) : st AppendMerkleTree unit :=
  let! t := st_get in
  let! layer0 := st_lift (index (layers t) 0) in
  match layer0 with
  | [] => st_ret tt
  | _ =>
      let! delta_nodes := st_lift (ok_or (delta_nodes_map t !! tx_seq) "tx_seq unavailable") in
      let! ls := st_lift (res_foldl restore_layer
                      (take (length (right_most_nodes delta_nodes)) (layers t))
                      (imap pair (right_most_nodes delta_nodes))) in
      let! t' := st_lift (clear_after tx_seq (set_layers ls t)) in
      st_put t'
  end.

Definition reset : st AppendMerkleTree unit :=
  st_modify (λ t,
    set_layers (match min_depth t with None => [[]] | Some depth => replicate depth [] end) t).

(** ** [struct HistoryTree] *)

Record HistoryTree : Type := MkHistoryTree {
  h_layers : list (list E);
  h_delta_nodes : DeltaNodes;
  h_leaf_height : nat;
}.

Definition at_root_version (t : AppendMerkleTree) (root_hash : E) : res HistoryTree :=
  let? tx_seq := ok_or (root_to_tx_seq_map t !! root_hash) "old root unavailable" in
  let? delta_nodes := ok_or (delta_nodes_map t !! tx_seq) "tx_seq unavailable" in
  if DeltaNodes_height delta_nodes =? 0 then Err "empty tree"
  else Ok (MkHistoryTree (layers t) delta_nodes (leaf_height t)).

(** [impl MerkleTreeRead for HistoryTree]; [expect("range checked")] turns the
    [Err] of [DeltaNodes::get] into a panic. *)
#[export] Instance HistoryTree_read : MerkleTreeRead HistoryTree E := {|
  node t layer i :=
    match DeltaNodes_get (h_delta_nodes t) layer i with
    | Ok (Some x) => Ok x
    | Ok None => let? l := index (h_layers t) layer in index l i
    | Err _ => Panic "range checked"
    | Panic e => Panic e
    end;
  height t := DeltaNodes_height (h_delta_nodes t);
  layer_len t layer_height := DeltaNodes_layer_len (h_delta_nodes t) layer_height;
  padding_node t height := end_pad (height + h_leaf_height t);
|}.

End Tree.

Arguments DeltaNodes E : clear implicits.
Arguments AppendMerkleTree E {_}.
Arguments HistoryTree E : clear implicits.
