(* ===== verification/MerkleAppend.v ===== *)
(** * Correctness of the maintenance of [AppendMerkleTree]

    The operations that grow a tree of known leaves compute the reference tree
    of [MerkleSpec]: [recompute] after a change at the right edge rebuilds every
    layer, never panics, and stops. *)

From S2P Require Import Prelude Hashing MerkleProof MerkleRead AppendMerkle MerkleSpec.

Abbreviation known := (Forall (λ x, x ≠ null)).

Section Maintenance.
Context {E : Type} `{HashElement E} `{!Algorithm E} `{!NeverNull E}.
Implicit Types (X U F L : list E) (t : AppendMerkleTree E).

(** ** One layer *)

Lemma is_null_false (x : E) : x ≠ null → is_null x = false.
Proof. intros. by apply bool_decide_eq_false. Qed.

Lemma parent_update_known k h X :
  known X → parent_update k h X = zip (seq k (length (up h X))) (up h X).
Proof.
  revert k. induction X as [|x|x y X IH] using list_pair_ind; intros k HX; [done|..].
  - rewrite Forall_singleton in HX. simpl. unfold single_parent.
    by rewrite is_null_false.
  - rewrite !Forall_cons in HX. destruct HX as (Hx & Hy & HX). simpl.
    unfold pair_parent. rewrite !is_null_false by done. simpl. by rewrite IH.
Qed.

(** Storing known parents from index [k] on, over a layer that reaches at most
    one past [k], replaces the rest of the layer. *)
Lemma store_parents_push U P last_changed :
  res_foldl store_parent (U, last_changed) (zip (seq (length U) (length P)) P) =
  Ok (U ++ P, if P is [] then last_changed else Some (length U + length P - 1)).
Proof.
  revert U last_changed. induction P as [|p P IH]; intros U last_changed; simpl.
  - by rewrite app_nil_r.
  - rewrite Nat.compare_refl. simpl.
    replace (S (length U)) with (length (U ++ [p])) by (rewrite length_app; simpl; lia).
    rewrite IH, <- app_assoc. simpl. do 3 f_equal.
    destruct P; simpl; rewrite ?length_app; simpl; f_equal; lia.
Qed.

Lemma store_parents k U P :
  known P → k ≤ length U ≤ k + 1 → P ≠ [] →
  res_foldl store_parent (U, None) (zip (seq k (length P)) P) =
  Ok (take k U ++ P, Some (k + length P - 1)).
Proof.
  intros HP HU HP0. destruct (decide (length U = k)) as [<-|Hk].
  - rewrite store_parents_push, firstn_all. by destruct P.
  - destruct P as [|p P]; [done|]. apply Forall_cons in HP as [Hp HP]. simpl.
    replace (k ?= length U) with Lt by (symmetry; apply Nat.compare_lt_iff; lia).
    rewrite is_null_false by done. unfold index.
    destruct (U !! k) as [u|] eqn:Hu; [|apply lookup_ge_None in Hu; lia]. simpl.
    replace (k =? length U - 1) with true by (symmetry; apply Nat.eqb_eq; lia).
    rewrite !andb_false_r. simpl.
    assert (<[k := p]> U = take k U ++ [p]) as ->.
    { rewrite <- (take_drop (S k) U), (take_S_r _ _ _ Hu), drop_ge by lia.
      rewrite app_nil_r. rewrite insert_app_r_alt by (rewrite length_take; lia).
      rewrite length_take, Nat.min_l, Nat.sub_diag by lia. simpl.
      rewrite take_app_length' by (rewrite length_take; lia). done. }
    replace (S k) with (length (take k U ++ [p]))
      by (rewrite length_app, length_take; simpl; lia).
    rewrite store_parents_push, <- app_assoc. do 2 f_equal.
    rewrite length_app, length_take. destruct P; simpl; f_equal; lia.
Qed.

(** The layers [rest] above [X] hold the parents of [X] up to the ancestors of
    the leaf [s] from which the leaves changed. *)
Fixpoint compat (h s : nat) (X : list E) (rest : list (list E)) : Prop :=
  match rest with
  | [] => s ≤ 1
  | U :: rest =>
      take (s / 2) U = take (s / 2) (up h X) ∧
      s / 2 ≤ length U ≤ s / 2 + 1 ∧ length U ≤ length (up h X) ∧
      compat (S h) (s / 2) (up h X) rest
  end.

Lemma compat_tail h s X rest :
  compat h s X rest → compat (S h) (s / 2) (up h X) (tail rest).
Proof. destruct rest as [|U rest]; simpl; [intros; dlia|tauto]. Qed.

Lemma parents_replaced h s X U :
  take (s / 2) U = take (s / 2) (up h X) →
  take (s / 2) U ++ up h (drop (2 * (s / 2)) X) = up h X.
Proof. intros ->. by rewrite <- up_drop, take_drop. Qed.

(** The next layer once the nodes from [2 * (s / 2)] on are known: it is kept
    below [s / 2] and recomputed from there. *)
Definition next_layer (h s : nat) (X : list E) (rest : list (list E)) : list E :=
  take (s / 2) (default [] (head rest)) ++ up h (drop (2 * (s / 2)) X).

Definition next_fits (s : nat) (X : list E) (rest : list (list E)) : Prop :=
  match rest with
  | [] => s ≤ 1
  | U :: _ => s / 2 ≤ length U ≤ s / 2 + 1 ∧ length U ≤ (length X + 1) / 2
  end.

Lemma length_next_layer h s X rest :
  s ≤ length X → next_fits s X rest → length (next_layer h s X rest) = (length X + 1) / 2.
Proof.
  intros Hs Hf. unfold next_layer. rewrite length_app, length_take, length_up, length_drop.
  destruct rest as [|U rest]; simpl in *; dlia.
Qed.

(** Without parents to store, the next layer is already complete. *)
Lemma next_layer_done h s X rest :
  s ≤ length X → next_fits s X rest → 1 < length X ∨ rest ≠ [] →
  up h (drop (2 * (s / 2)) X) = [] → rest = next_layer h s X rest :: tail rest.
Proof.
  intros Hs Hf Hgo Hnil. unfold next_layer. rewrite Hnil, app_nil_r.
  apply (f_equal length) in Hnil. rewrite length_up, length_drop in Hnil. simpl in Hnil.
  destruct rest as [|U rest]; simpl in *; [destruct Hgo; [dlia|done]|].
  by rewrite firstn_all2 by dlia.
Qed.

Lemma recompute_layer_suffix lh below X rest s e :
  known (drop (2 * (s / 2)) X) → s ≤ length X → e = None ∨ e = Some (length X) →
  next_fits s X rest → 1 < length X ∨ rest ≠ [] →
  let Y := next_layer (length below + lh) s X rest in
  ∃ e', recompute_layer lh (length below) (below ++ X :: rest) s e =
        Ok (below ++ X :: Y :: tail rest, e') ∧ (e' = None ∨ e' = Some (length Y)).
Proof.
  intros HD Hs He Hf Hgo Y. set (h := length below + lh) in *.
  unfold recompute_layer, index. rewrite list_lookup_middle by done. simpl.
  replace (default (length X) e) with (length X) by (destruct He as [-> | ->]; done).
  rewrite Nat.eqb_refl, andb_false_r.
  replace (if s mod 2 =? 1 then s - 1 else s) with (2 * (s / 2))
    by (destruct (Nat.eqb_spec (s mod 2) 1); dlia).
  unfold slice. rewrite decide_True by dlia. simpl. rewrite firstn_all2
    by (rewrite length_drop; lia). fold h. rewrite parent_update_known by done.
  destruct (decide (up h (drop (2 * (s / 2)) X) = [])) as [Hnil|Hne].
  { pose proof (next_layer_done h s X rest Hs Hf Hgo Hnil) as Hrest. rewrite Hnil. simpl.
    exists None. split; [|by left]. rewrite Hrest at 1. done. }
  destruct (zip _ _) as [|u us] eqn:Hz.
  { destruct (up h (drop (2 * (s / 2)) X)); [done|]. discriminate Hz. }
  rewrite <- Hz. unfold before_extend_layer. rewrite length_app. simpl.
  pose proof (up_not_null h (drop (2 * (s / 2)) X)) as HP.
  assert (∀ (ls : list (list E)) (U : list E), U = default [] (head rest) →
    s / 2 ≤ length U ≤ s / 2 + 1 →
    (let? '(parents, last_changed) := res_foldl store_parent (U, None)
       (zip (seq (s / 2) (length (up h (drop (2 * (s / 2)) X)))) (up h (drop (2 * (s / 2)) X))) in
     Ok (<[length below + 1 := parents]> ls, option_map S last_changed)) =
    Ok (<[length below + 1 := Y]> ls, Some (length Y))) as Hstore.
  { intros ls U -> HU. rewrite store_parents by done. simpl. do 3 f_equal. unfold Y, next_layer.
    rewrite length_app, length_take. destruct (up h _); [done|]. simpl. lia. }
  exists (Some (length Y)). split; [|by right].
  assert (length below + 1 - length below = 1) as H1 by lia.
  destruct rest as [|U rest]; simpl in *.
  - rewrite (proj2 (Nat.eqb_eq _ _)) by lia. simpl. rewrite <- app_assoc. simpl.
    rewrite lookup_app_r, H1 by lia. simpl. rewrite Hstore by (simpl; dlia || done). do 2 f_equal.
    by rewrite insert_app_r_alt, H1 by lia.
  - rewrite (proj2 (Nat.eqb_neq _ _)) by lia. simpl.
    rewrite lookup_app_r, H1 by lia. simpl. rewrite Hstore by (simpl; lia || done). do 2 f_equal.
    by rewrite insert_app_r_alt, H1 by lia.
Qed.

Lemma recompute_layer_spec lh below X rest s e :
  known X → s ≤ length X → e = None ∨ e = Some (length X) →
  compat (length below + lh) s X rest → 1 < length X ∨ rest ≠ [] →
  ∃ e', recompute_layer lh (length below) (below ++ X :: rest) s e =
        Ok (below ++ X :: up (length below + lh) X :: tail rest, e') ∧
        (e' = None ∨ e' = Some (length (up (length below + lh) X))).
Proof.
  intros HX Hs He Hc Hgo. set (h := length below + lh) in *.
  assert (next_layer h s X rest = up h X) as <-.
  { unfold next_layer. destruct rest as [|U rest]; simpl in *.
    - replace (s / 2) with 0 by dlia. done.
    - destruct Hc as [Hc _]. by apply parents_replaced. }
  apply recompute_layer_suffix; auto; [by apply Forall_drop|].
  destruct rest as [|U rest]; simpl in *; [done|]. rewrite length_up in Hc. lia.
Qed.

(** ** The loop *)

(** The number of layers after the loop, seen from one height to the next. *)
Lemma layers_step (X : list E) h (rest : list (list E)) :
  1 < length X ∨ rest ≠ [] →
  max (S (length rest)) (depth (length X)) =
  S (max (S (length (tail rest))) (depth (length (up h X)))).
Proof.
  intros Hgo. rewrite length_up. pose proof (depth_pos ((length X + 1) / 2)).
  destruct (decide (2 ≤ length X)).
  - rewrite (depth_up (length X)) by done. destruct rest; cbn [length tail]; lia.
  - rewrite !depth_small by dlia. destruct rest; cbn [length tail]; [|lia].
    destruct Hgo; [lia|done].
Qed.

Lemma recompute_loop_spec fuel lh below X rest s e m :
  known X → s ≤ length X → e = None ∨ e = Some (length X) →
  compat (length below + lh) s X rest →
  m = max (S (length rest)) (depth (length X)) → m ≤ fuel →
  recompute_loop fuel lh (length below) (below ++ X :: rest) s e =
  Ok (below ++ build (length below + lh) m X).
Proof.
  revert below X rest s e m. induction fuel as [|fuel IH];
    intros below X rest s e m HX Hs He Hc Hm Hfuel; [lia|]. simpl.
  unfold index. rewrite list_lookup_middle by done. simpl. rewrite length_app. simpl.
  destruct (_ || _) eqn:Hgo.
  - assert (1 < length X ∨ rest ≠ []) as Hgo'.
    { rewrite orb_true_iff, !Nat.ltb_lt in Hgo. destruct Hgo; [by left|right].
      intros ->. simpl in *. lia. }
    destruct (recompute_layer_spec lh below X rest s e) as (e' & -> & He'); auto.
    rewrite (layers_step X (length below + lh) rest) in Hm by done. simpl.
    destruct m as [|m]; [lia|]. injection Hm as Hm. simpl.
    replace (below ++ X :: up (length below + lh) X :: tail rest)
      with ((below ++ [X]) ++ up (length below + lh) X :: tail rest)
      by by rewrite <- app_assoc.
    replace (length below + 1) with (length (below ++ [X])) by by rewrite length_app.
    assert (length (below ++ [X]) + lh = S (length below + lh)) as Hlen
      by (rewrite length_app; simpl; lia).
    rewrite (IH _ _ _ _ _ m); rewrite ?Hlen, <- ?app_assoc; auto using up_not_null, compat_tail;
      [rewrite length_up; dlia|lia].
  - rewrite orb_false_iff, !Nat.ltb_ge in Hgo. destruct rest; simpl in *; [|lia].
    rewrite depth_small in Hm by lia. by subst m.
Qed.

(** ** The operations *)

(** [t] is the tree of the known leaves [L], with [n] layers. *)
Definition represents (n : nat) (L : list E) (t : AppendMerkleTree E) : Prop :=
  layers t = build (leaf_height t) n L ∧ known L ∧ depth (length L) ≤ n.

(** The layers of the tree over [L], at least [n] of them. *)
Definition tree_layers (lh n : nat) (L : list E) : list (list E) :=
  build lh (max n (depth (length L))) L.

Lemma compat_build h n s L X :
  s ≤ length L ≤ s + 1 → length L ≤ length X → take s L = take s X →
  depth (length L) ≤ S n → compat h s X (build (S h) n (up h L)).
Proof.
  revert h s L X. induction n as [|n IH]; intros h s L X Hs HLX Ht Hd; simpl.
  - destruct (decide (length L ≤ 1)); [lia|]. rewrite depth_up in Hd by lia.
    pose proof (depth_pos ((length L + 1) / 2)). lia.
  - rewrite !length_up. split; [by apply up_take_agree|]. split; [dlia|]. split; [dlia|].
    apply IH; rewrite ?length_up; [dlia|dlia|by apply up_take_agree|].
    destruct (decide (length L ≤ 1)).
    + rewrite depth_small by dlia. lia.
    + rewrite (depth_up (length L)) in Hd by lia. lia.
Qed.

Lemma recompute_run s e t ls :
  recompute_loop (recompute_fuel (layers t)) (leaf_height t) 0 (layers t) s e = Ok ls →
  recompute s e t = (Ok tt, set_layers ls t).
Proof. intros Hr. unfold recompute, st_bind, st_get, st_lift, st_put. by rewrite Hr. Qed.

(** [recompute] after the leaves of a tree changed from index [s] on. *)
Lemma recompute_spec n L X s t :
  represents n L t → known X → s ≤ length L ≤ s + 1 → length L ≤ length X →
  take s L = take s X →
  recompute s None (set_layers (<[0 := X]> (layers t)) t) =
  (Ok tt, set_layers (tree_layers (leaf_height t) n X) t).
Proof.
  intros (Hl & HL & Hd) HX Hs HLX Ht. pose proof (depth_pos (length L)).
  destruct n as [|n]; [lia|].
  rewrite (recompute_run _ _ _ (tree_layers (leaf_height t) (S n) X)); [done|].
  cbn [layers leaf_height set_layers]. rewrite Hl.
  change (<[0:=X]> (build (leaf_height t) (S n) L))
    with ([] ++ X :: build (S (leaf_height t)) n (up (leaf_height t) L)).
  apply (recompute_loop_spec _ _ []); rewrite ?length_build; auto; [lia|..].
  - by apply compat_build.
  - unfold recompute_fuel. cbn. rewrite length_build. pose proof (depth_le (length X)). lia.
Qed.

Lemma layers_0 n L t : represents n L t → layers t !! 0 = Some L.
Proof.
  intros (-> & _ & Hd). pose proof (depth_pos (length L)). by destruct n; [lia|].
Qed.

Lemma leaves_represents n L t : represents n L t → leaves t = Ok (length L).
Proof. intros Hr. cbn. unfold index. by rewrite (layers_0 _ _ _ Hr). Qed.

Lemma push_layer0_run xs L t :
  layers t !! 0 = Some L →
  push_layer0 xs t = (Ok tt, set_layers (<[0 := L ++ xs]> (layers t)) t).
Proof.
  intros Hl. unfold push_layer0, st_bind, st_get, st_lift, index. by rewrite Hl.
Qed.

Lemma leaves_set_layer0 L t :
  layers t ≠ [] → leaves (set_layers (<[0 := L]> (layers t)) t) = Ok (length L).
Proof. intros. cbn. by destruct (layers t). Qed.

Lemma represents_nonempty n L t : represents n L t → layers t ≠ [].
Proof. intros Hr%layers_0. by destruct (layers t). Qed.

Lemma tree_layers_represents n L t :
  known L → represents (max n (depth (length L))) L (set_layers (tree_layers (leaf_height t) n L) t).
Proof. intros. unfold represents. simpl. repeat split; auto. lia. Qed.

Lemma append_list_run n L xs t :
  represents n L t → known xs →
  append_list xs t = (Ok tt, set_layers (tree_layers (leaf_height t) n (L ++ xs)) t).
Proof.
  intros Hr Hxs. unfold append_list, st_bind at 1, st_reads.
  rewrite (leaves_represents _ _ _ Hr). unfold st_bind.
  rewrite (push_layer0_run _ L) by by eapply layers_0.
  unfold recompute_after_append. eapply recompute_spec; eauto.
  - destruct Hr as (_ & ? & _). by apply Forall_app.
  - lia.
  - rewrite length_app. lia.
  - by rewrite take_app_le, firstn_all by lia.
Qed.

Lemma append_run n L x t :
  represents n L t → x ≠ null →
  append x t = (Ok tt, set_layers (tree_layers (leaf_height t) n (L ++ [x])) t).
Proof.
  intros Hr Hx. rewrite <- (append_list_run n L [x]); [|done|by apply Forall_singleton].
  unfold append, append_list, st_bind, st_reads, st_lift.
  rewrite (push_layer0_run _ L) by by eapply layers_0.
  rewrite leaves_set_layer0 by by eapply represents_nonempty.
  rewrite (leaves_represents _ _ _ Hr).
  unfold checked_sub. rewrite length_app, decide_True by (simpl; lia).
  by rewrite Nat.add_sub.
Qed.

(** The leaves after [update_last]. *)
Definition replace_last (x : E) (L : list E) : list E :=
  match L with [] => [x] | _ => <[length L - 1 := x]> L end.

Lemma length_replace_last x L : length (replace_last x L) = max 1 (length L).
Proof. destruct L; [done|]. unfold replace_last. rewrite length_insert. simpl. lia. Qed.

Lemma update_last_run n L x t :
  represents n L t → x ≠ null →
  update_last x t = (Ok tt, set_layers (tree_layers (leaf_height t) n (replace_last x L)) t).
Proof.
  intros Hr Hx. pose proof (layers_0 _ _ _ Hr) as H0.
  pose proof (represents_nonempty _ _ _ Hr).
  unfold update_last, st_bind, st_get, st_lift, st_put, st_reads, index. rewrite H0. cbn [expect].
  fold (replace_last x L). rewrite leaves_set_layer0 by done.
  rewrite length_replace_last. unfold checked_sub. rewrite decide_True by lia.
  unfold recompute_after_append. eapply recompute_spec; eauto.
  - destruct Hr as (_ & HL & _). destruct L; [by apply Forall_singleton|].
    by apply Forall_insert.
  - lia.
  - rewrite length_replace_last. lia.
  - destruct L as [|y L]; [done|]. unfold replace_last.
    rewrite take_insert_ge by lia. done.
Qed.
End Maintenance.
