(* ===== verification/MerkleInclusion.v ===== *)
(** * Inclusion proofs: completeness and soundness

    Every proof generated by a reader of the reference tree validates, and a
    proof that validates against the root of a tree is about a leaf of it. *)

From S2P Require Import Prelude Hashing MerkleSpec MerkleProof MerkleRead.

(** ** Positions *)

(** The number whose binary digits, lowest first, are the right turns. *)
Fixpoint turns (bs : list bool) : nat :=
  match bs with
  | [] => 0
  | b :: bs => (if b : bool then 0 else 1) + 2 * turns bs
  end.

Lemma turns_sides d i : turns (sides d i) = i mod 2 ^ d.
Proof.
  revert i. induction d as [|d IH]; intros i; simpl.
  - change (2 ^ 0) with 1. by rewrite Nat.mod_1_r.
  - rewrite IH, Nat.pow_succ_r', Nat.Div0.mod_mul_r.
    destruct (Nat.eqb_spec (i mod 2) 0); dlia.
Qed.

Lemma sides_turns bs : sides (length bs) (turns bs) = bs.
Proof.
  induction bs as [|b bs IH]; simpl; [done|].
  set (x := if b then 0 else 1).
  replace ((x + 2 * turns bs) / 2) with (turns bs) by (subst x; destruct b; dlia).
  rewrite IH. f_equal. subst x. destruct b; [apply Nat.eqb_eq|apply Nat.eqb_neq]; dlia.
Qed.

Section Inclusion.
Context {E : Type} `{HashElement E} `{!Algorithm E}.
Implicit Types (L F cs : list E) (p : MProof E).

Lemma position_loop_ok k acc bs :
  (Z.of_nat (acc + 2 ^ k * turns bs) < 2 ^ 64)%Z →
  res_foldl position_step acc (imap (λ i b, (k + i, b)) bs) = Ok (acc + 2 ^ k * turns bs).
Proof.
  revert k acc. induction bs as [|b bs IH]; intros k acc Hlt; simpl.
  - f_equal. lia.
  - rewrite (imap_ext _ (λ i b, (S k + i, b))) by (intros; simpl; f_equal; lia).
    rewrite Nat.add_0_r. simpl turns in *.
    destruct b; cbn [res_foldl position_step res_bind].
    + rewrite IH; rewrite Nat.pow_succ_r' in *; [f_equal|]; lia.
    + assert (k < 64) as Hk.
      { apply Nat.nle_gt. intros Hk.
        pose proof (Nat.pow_le_mono_r 2 64 k ltac:(lia) Hk) as Hp.
        apply inj_le in Hp. rewrite (Nat2Z.inj_pow 2 64) in Hp.
        change (Z.of_nat 2 ^ Z.of_nat 64)%Z with (2 ^ 64)%Z in Hp. lia. }
      unfold shl1. rewrite (proj2 (Nat.ltb_lt _ _) Hk). cbn [res_bind]. unfold checked_add.
      rewrite (proj2 (Z.ltb_lt _ _)) by lia. cbn [res_bind].
      rewrite IH; rewrite Nat.pow_succ_r' in *; [f_equal|]; lia.
Qed.

Lemma position_loop_inv k acc bs pos :
  res_foldl position_step acc (imap (λ i b, (k + i, b)) bs) = Ok pos →
  pos = acc + 2 ^ k * turns bs.
Proof.
  revert k acc. induction bs as [|b bs IH]; intros k acc; simpl.
  - intros [= ->]. lia.
  - rewrite (imap_ext _ (λ i b, (S k + i, b))) by (intros; simpl; f_equal; lia).
    rewrite Nat.add_0_r.
    destruct b; cbn [res_foldl position_step res_bind].
    + intros ->%IH. rewrite Nat.pow_succ_r'. lia.
    + unfold shl1, checked_add. destruct (k <? 64); cbn [res_bind]; [|done].
      destruct (_ <? _)%Z; cbn [res_bind]; [|done]. intros ->%IH. rewrite Nat.pow_succ_r'. lia.
Qed.

Lemma imap_pair_0 {A} (l : list A) : imap pair l = imap (λ i x, (0 + i, x)) l.
Proof. done. Qed.

Lemma position_ok p :
  (Z.of_nat (turns (path p)) < 2 ^ 64)%Z → position p = Ok (turns (path p)).
Proof.
  intros Hlt. unfold position. rewrite imap_pair_0, position_loop_ok;
    change (2 ^ 0) with 1; [f_equal|]; lia.
Qed.

Lemma position_inv p pos : position p = Ok pos → pos = turns (path p).
Proof.
  unfold position. rewrite imap_pair_0. intros ->%position_loop_inv.
  change (2 ^ 0) with 1. lia.
Qed.

(** The sides are determined by the position and the length of the path. *)
Lemma position_path p pos :
  position p = Ok pos → path p = sides (length (path p)) pos.
Proof. intros ->%position_inv. by rewrite sides_turns. Qed.

(** ** Validation in closed form *)

Lemma integrity_loop x sibs rest bs h k m :
  k + m ≤ length sibs → k + m ≤ length bs →
  res_foldl (integrity_step (MkProof (x :: sibs ++ rest) bs)) h (seq (S k) m) =
  Ok (climb h (take m (drop k bs)) (take m (drop k sibs))).
Proof.
  revert h k. induction m as [|m IH]; intros h k Hs Hb; [done|]. simpl.
  destruct (lookup_lt_is_Some_2 sibs k) as [s Hsk]; [lia|].
  destruct (lookup_lt_is_Some_2 bs k) as [b Hbk]; [lia|].
  unfold integrity_step at 1, index. simpl. rewrite Nat.sub_0_r.
  rewrite Hbk, lookup_app_l, Hsk by lia. simpl.
  rewrite (drop_S bs _ _ Hbk), (drop_S sibs _ _ Hsk). simpl. rewrite climb_cons.
  apply (IH _ (S k)); lia.
Qed.

Lemma validate_integrity_form x sibs r bs :
  length sibs = length bs →
  validate_integrity (MkProof (x :: sibs ++ [r]) bs) = Ok (bool_decide (climb x bs sibs = r)).
Proof.
  intros Hl. unfold validate_integrity, item, root. simpl.
  rewrite length_app. simpl.
  rewrite (proj2 (Nat.ltb_ge _ _)) by lia. simpl.
  replace (S (length sibs + 1) - 2) with (length sibs) by lia.
  rewrite integrity_loop, !drop_0, !firstn_all2 by lia. simpl.
  rewrite last_cons, last_snoc. done.
Qed.

(** The shape of a proof that validates: the item, the siblings, the root. *)
Lemma validate_integrity_inv p :
  validate_integrity p = Ok true →
  ∃ x sibs r, lemma p = x :: sibs ++ [r] ∧ length sibs ≤ length (path p) ∧
    climb x (take (length sibs) (path p)) sibs = r.
Proof.
  destruct p as [lem bs]. unfold validate_integrity. simpl.
  destruct (Nat.ltb_spec (length lem) 2) as [|Hlen]; [done|].
  destruct lem as [|x lem]; [simpl in *; lia|].
  destruct (exists_last_or_nil lem) as [->|(sibs & r & ->)]; [simpl in *; lia|].
  unfold item, root. cbn [lemma path]. rewrite last_cons, last_snoc. simpl.
  rewrite length_app. simpl.
  rewrite Nat.add_sub. intros Hv.
  destruct (decide (length sibs ≤ length bs)) as [Hle|Hgt].
  - exists x, sibs, r. split_and!; [done..|].
    rewrite integrity_loop, !drop_0 in Hv by lia. simpl in Hv.
    rewrite (firstn_all2 sibs) in Hv by lia. injection Hv as Hv%bool_decide_eq_true. done.
  - exfalso. replace (length sibs) with (length bs + S (length sibs - length bs - 1)) in Hv by lia.
    rewrite seq_app, res_foldl_app, integrity_loop in Hv by lia. simpl in Hv.
    unfold integrity_step at 1, index in Hv. simpl in Hv.
    rewrite Nat.sub_0_r, lookup_ge_None_2 in Hv by lia. done.
Qed.

(** ** Soundness of one proof *)

(** Two accepted proofs of one position, with paths of one length and one root,
    have the same item. *)
Lemma validate_inv p x pos :
  validate p x pos = Ok tt →
  ∃ sibs r, lemma p = x :: sibs ++ [r] ∧ length sibs ≤ length (path p) ∧
    climb x (take (length sibs) (path p)) sibs = r ∧ pos = turns (path p).
Proof.
  unfold validate. destruct (validate_integrity p) as [[]| |] eqn:Hv; simpl; try done.
  destruct (validate_integrity_inv _ Hv) as (y & sibs & r & Hp & Hl & Hc).
  unfold item. rewrite Hp. simpl. unfold ensure at 1.
  destruct (bool_decide_reflect (x = y)) as [<-|]; simpl; [|done].
  destruct (position p) as [q| |] eqn:Hq; simpl; try done.
  unfold ensure. destruct (Nat.eqb_spec pos q) as [->|]; [|done]. intros _.
  apply position_inv in Hq as ->. by exists sibs, r.
Qed.

Lemma climb_root_unique `{!CollisionFree E} h d L i x sibs :
  i < length L → length sibs = d →
  layer_at h d L = [climb x (sides d i) sibs] → L !! i = Some x.
Proof.
  intros Hi Hl Htop. destruct (lookup_lt_is_Some_2 L i Hi) as [y Hy].
  pose proof (climb_layer_at h d L i y Hy) as Hc. rewrite Htop in Hc.
  destruct (i / 2 ^ d); [|done]. simpl in Hc. injection Hc as Hc.
  apply climb_inj in Hc as [-> _];
    rewrite ?length_sides, ?length_siblings; done.
Qed.

(** ** Completeness of [gen_proof] *)

(** A reader that shows the [n]-layer tree over [L]. *)
Record reads_as {T} `{!MerkleTreeRead T E} (t : T) (h n : nat) (L : list E) : Prop := {
  reads_height : height t = n;
  reads_len d : d < n → layer_len t d = Ok (length (layer_at h d L));
  reads_node d i x : d < n → layer_at h d L !! i = Some x → node t d i = Ok x;
  reads_pad d : padding_node t d = end_pad (h + d);
}.

Section Reader.
Context {T : Type} `{!MerkleTreeRead T E} (t : T) (h n : nat) (L : list E).
Context (Hr : reads_as t h n L) (Hn : depth (length L) ≤ n).

Lemma index_in_layer d i : i < length L → i / 2 ^ d < length (layer_at h d L).
Proof.
  intros Hi. destruct (lookup_lt_is_Some_2 L i Hi) as [x Hx].
  eapply lookup_lt_Some. by apply climb_layer_at.
Qed.

Lemma gen_proof_step_reads d i ss bs :
  d < n → i < length (layer_at h d L) →
  gen_proof_step t (ss, bs, i) d =
  Ok (ss ++ [sibling (h + d) (layer_at h d L) i], bs ++ [i mod 2 =? 0], i / 2).
Proof.
  intros Hd Hi. unfold gen_proof_step, sibling.
  destruct (Nat.eqb_spec (i mod 2) 0) as [|Hodd].
  - rewrite (reads_len _ _ _ _ Hr) by done. simpl.
    destruct (Nat.eqb_spec (i + 1) (length (layer_at h d L))) as [Hl|Hl].
    + simpl. rewrite (reads_pad _ _ _ _ Hr), lookup_ge_None_2 by lia. done.
    + destruct (lookup_lt_is_Some_2 (layer_at h d L) (S i)) as [y Hy]; [lia|].
      rewrite Hy, Nat.add_1_r, (reads_node _ _ _ _ Hr _ _ y) by done. done.
  - destruct (lookup_lt_is_Some_2 (layer_at h d L) (i - 1)) as [y Hy]; [lia|].
    rewrite Hy, (reads_node _ _ _ _ Hr _ _ y) by done. done.
Qed.

Lemma gen_proof_loop i x d :
  i < length L → d ≤ n →
  res_foldl (gen_proof_step t) ([x], [], i) (seq 0 d) =
  Ok (x :: siblings h d L i, sides d i, i / 2 ^ d).
Proof.
  intros Hi. induction d as [|d IH]; intros Hd.
  - change (2 ^ 0) with 1. by rewrite Nat.div_1_r.
  - rewrite seq_S, res_foldl_app, IH by lia. cbn [res_bind res_foldl].
    rewrite Nat.add_0_l, gen_proof_step_reads by (auto using index_in_layer with lia).
    cbn [res_bind]. rewrite siblings_snoc, sides_snoc, Nat.pow_succ_r'.
    by rewrite (Nat.mul_comm 2), Nat.Div0.div_div.
Qed.

Lemma tree_root_reads r :
  layer_at h (n - 1) L = [r] → tree_root t = Ok r.
Proof.
  intros Htop. pose proof (depth_pos (length L)).
  unfold tree_root, checked_sub. rewrite (reads_height _ _ _ _ Hr), decide_True by lia.
  simpl. apply (reads_node _ _ _ _ Hr); [lia|]. by rewrite Htop.
Qed.

Lemma gen_proof_reads i x r :
  L !! i = Some x → x ≠ null → layer_at h (n - 1) L = [r] →
  gen_proof t i = Ok (MkProof (x :: siblings h (n - 1) L i ++ [r]) (sides (n - 1) i)).
Proof.
  intros Hx Hnn Htop. pose proof (lookup_lt_Some _ _ _ Hx) as Hi.
  pose proof (depth_pos (length L)). unfold gen_proof, leaves.
  rewrite (reads_len _ _ _ _ Hr) by lia. simpl.
  rewrite (proj2 (Nat.ltb_lt _ _) Hi). simpl.
  rewrite (reads_node _ _ _ _ Hr _ _ x) by (done || lia). simpl.
  unfold is_null. rewrite bool_decide_false by done. simpl.
  rewrite (tree_root_reads r Htop), (reads_height _ _ _ _ Hr).
  destruct (Nat.eqb_spec n 1) as [->|Hn1].
  - simpl in *. subst L. destruct i; [|done]. by simplify_eq/=.
  - rewrite gen_proof_loop by (done || lia). cbn [res_bind].
    unfold Proof_new, checked_sub.
    rewrite decide_True by (rewrite length_app; simpl; lia). cbn [res_bind].
    replace (_ =? _) with true; [done|]. symmetry. apply Nat.eqb_eq.
    rewrite length_app, length_sides. simpl. rewrite length_siblings. lia.
Qed.

(** The generated proof is accepted for its leaf at its position. *)
Lemma gen_proof_validates i x r :
  L !! i = Some x → layer_at h (n - 1) L = [r] → (Z.of_nat i < 2 ^ 64)%Z →
  validate (MkProof (x :: siblings h (n - 1) L i ++ [r]) (sides (n - 1) i)) x i = Ok tt.
Proof.
  intros Hx Htop Hi64. pose proof (lookup_lt_Some _ _ _ Hx) as Hi.
  unfold validate. rewrite validate_integrity_form
    by by rewrite length_siblings, length_sides.
  pose proof (climb_layer_at h (n - 1) L i x Hx) as Hc. rewrite Htop in Hc.
  pose proof (depth_pos (length L)). pose proof (depth_le_pow (length L)).
  pose proof (Nat.pow_le_mono_r 2 (depth (length L) - 1) (n - 1) ltac:(lia) ltac:(lia)).
  rewrite Nat.div_small in Hc by lia. injection Hc as Hc.
  rewrite bool_decide_true by done. simpl.
  rewrite bool_decide_true by done. simpl.
  assert (turns (sides (n - 1) i) = i) as Ht
    by (rewrite turns_sides; apply Nat.mod_small; lia).
  rewrite position_ok; simpl; rewrite Ht; [|done]. unfold ensure. by rewrite Nat.eqb_refl.
Qed.
End Reader.
End Inclusion.
