(* ===== verification/MerkleRange.v ===== *)
(** * Range proofs: completeness and soundness

    [RangeProof::validate] recomputes the root from the leaves of a range and
    the siblings on its two edges.  It accepts the proofs generated for a range
    of a tree, and accepts for that range of positions nothing but the leaves of
    the tree. *)

From S2P Require Import Prelude Hashing MerkleSpec MerkleProof MerkleRead MerkleInclusion.

Section Range.
Context {E : Type} `{HashElement E} `{!Algorithm E}.
Implicit Types (L F cs : list E) (p : MProof E) (rp : RangeProof E).

(** The nodes [a ..= b] of a layer. *)
Definition segment (a b : nat) (F : list E) : list E := drop a (take (S b) F).

(** The parents of a run of nodes starting at an even index, [s] being the
    sibling of the last node when it has no right neighbour in the run. *)
Fixpoint up_with (s : E) (cs : list E) : list E :=
  match cs with
  | l :: r :: cs => parent l r :: up_with s cs
  | [x] => [parent x s]
  | [] => []
  end.

(** ** One layer *)

Lemma length_up_with s cs : length (up_with s cs) = (length cs + 1) / 2.
Proof. induction cs as [| |x y cs IH] using list_pair_ind; [done..|]. simpl. rewrite IH. dlia. Qed.

Lemma up_with_drop s a cs : up_with s (drop (2 * a) cs) = drop a (up_with s cs).
Proof.
  revert a. induction cs as [|x|x y cs IH] using list_pair_ind; intros a.
  - simpl. by rewrite !drop_nil.
  - destruct a as [|a]; [done|]. replace (2 * S a) with (S (S (2 * a))) by lia.
    simpl. by rewrite !drop_nil.
  - destruct a as [|a]; [done|]. replace (2 * S a) with (S (S (2 * a))) by lia.
    simpl. apply IH.
Qed.

Lemma up_with_take h F b s :
  b < length F → (b mod 2 = 0 → s = sibling h F b) →
  up_with s (take (S b) F) = take (S (b / 2)) (up h F).
Proof.
  revert b. induction F as [|x|x y F IH] using list_pair_ind; intros b Hb Hs; simpl in Hb; [lia|..].
  - destruct b; [|lia]. simpl. by rewrite Hs.
  - destruct b as [|[|b]]; [simpl; by rewrite Hs|done|].
    replace (S (S b) / 2) with (S (b / 2)) by dlia. simpl. f_equal. apply IH; [lia|].
    intros He. rewrite Hs by dlia. unfold sibling.
    replace (S (S b) mod 2) with (b mod 2) by dlia. by rewrite He.
Qed.

Lemma up_with_inj `{!CollisionFree E} s s' cs cs' :
  length cs = length cs' → up_with s cs = up_with s' cs' → cs = cs'.
Proof.
  revert cs'. induction cs as [|x|x y cs IH] using list_pair_ind;
    intros [|x' [|y' cs']] Hl Heq; simplify_eq/=; try done.
  - by apply parent_inj in H0 as [-> _].
  - apply parent_inj in H0 as [-> ->]. do 2 f_equal. by apply IH.
Qed.

Lemma range_pairs_ok right k cs s :
  (length cs mod 2 = 1 → path right !! k = Some true ∧ lemma right !! (k + 1) = Some s) →
  range_pairs right k cs = Ok (up_with s cs).
Proof.
  induction cs as [|x|x y cs IH] using list_pair_ind; intros Hs; [done|..].
  - destruct Hs as [Hp Hl]; [done|]. simpl. unfold index. by rewrite Hp, Hl.
  - simpl. rewrite IH; [done|]. intros. apply Hs. simpl. dlia.
Qed.

Lemma range_pairs_inv right k cs ps :
  range_pairs right k cs = Ok ps → ∃ s, ps = up_with s cs.
Proof.
  revert ps. induction cs as [|x|x y cs IH] using list_pair_ind; intros ps; simpl.
  - intros [= <-]. by exists null.
  - destruct (index (path right) k) as [[]| |]; simpl; try done.
    destruct (index (lemma right) (k + 1)) as [s| |]; simpl; try done.
    intros [= <-]. by exists s.
  - destruct (range_pairs right k cs) as [ps'| |]; simpl; try done. intros [= <-].
    destruct (IH _ eq_refl) as [s ->]. by exists s.
Qed.

Lemma segment_cons a b x F :
  a ≤ b → F !! a = Some x → segment a b F = x :: segment (S a) b F.
Proof.
  intros Hab Hx. unfold segment. apply drop_S. rewrite lookup_take_lt by lia. done.
Qed.

Lemma length_segment a b F : b < length F → length (segment a b F) = S b - a.
Proof. intros. unfold segment. rewrite length_drop, length_take. lia. Qed.

(** The parents of the segment, computed from its even start. *)
Lemma last_segment a b y F : a ≤ b → F !! b = Some y → last (segment a b F) = Some y.
Proof.
  intros Hab Hy. pose proof (lookup_lt_Some _ _ _ Hy). rewrite last_lookup, length_segment by done.
  unfold segment. rewrite lookup_drop, lookup_take_lt by lia. rewrite <- Hy. f_equal. lia.
Qed.

Lemma up_with_segment h F a b s :
  b < length F → (b mod 2 = 0 → s = sibling h F b) →
  up_with s (segment (2 * a) b F) = segment a (b / 2) (up h F).
Proof. intros. unfold segment. by rewrite up_with_drop, (up_with_take h). Qed.

Lemma range_layer_complete h F rp k a b :
  a ≤ b → b < length F →
  path (left_proof rp) !! k = Some (a mod 2 =? 0) →
  lemma (left_proof rp) !! (k + 1) = Some (sibling h F a) →
  path (right_proof rp) !! k = Some (b mod 2 =? 0) →
  lemma (right_proof rp) !! (k + 1) = Some (sibling h F b) →
  range_layer rp (segment a b F) k = Ok (segment (a / 2) (b / 2) (up h F)).
Proof.
  intros Hab Hb Hlp Hll Hrp Hrl. unfold range_layer, index. rewrite Hlp. simpl.
  assert (∀ a', length (segment a' b F) mod 2 = 1 → a' mod 2 = 0 → a' ≤ b + 1 →
    path (right_proof rp) !! k = Some true ∧
    lemma (right_proof rp) !! (k + 1) = Some (sibling h F b)) as Hright.
  { intros a' Hodd Ha' Hle. rewrite length_segment in Hodd by done. split; [|done].
    rewrite Hrp. f_equal. apply Nat.eqb_eq. dlia. }
  destruct (Nat.eqb_spec (a mod 2) 0) as [Heven|Hodd].
  - rewrite (range_pairs_ok _ _ _ (sibling h F b)) by (intros; apply (Hright a); lia).
    f_equal. replace a with (2 * (a / 2)) at 1 by dlia. by apply up_with_segment.
  - rewrite Hll. simpl.
    destruct (lookup_lt_is_Some_2 F a) as [x Hx]; [lia|].
    destruct (lookup_lt_is_Some_2 F (a - 1)) as [y Hy]; [lia|].
    rewrite (segment_cons _ _ _ _ Hab Hx). simpl. rewrite drop_0.
    rewrite (range_pairs_ok _ _ _ (sibling h F b)) by (intros; apply (Hright (S a)); dlia).
    simpl. rewrite <- (up_with_segment h F (a / 2) b (sibling h F b)) by done.
    replace (2 * (a / 2)) with (a - 1) by dlia.
    rewrite (segment_cons (a - 1) b y) by (done || lia).
    replace (S (a - 1)) with a by lia. rewrite (segment_cons _ _ _ _ Hab Hx). simpl.
    do 3 f_equal. unfold sibling. rewrite (proj2 (Nat.eqb_neq _ _) Hodd). by rewrite Hy.
Qed.

Lemma range_layer_sound `{!CollisionFree E} h F rp k a b cs :
  a ≤ b → b < length F → length cs = S b - a →
  path (left_proof rp) !! k = Some (a mod 2 =? 0) →
  range_layer rp cs k = Ok (segment (a / 2) (b / 2) (up h F)) →
  cs = segment a b F.
Proof.
  intros Hab Hb Hl Hlp. unfold range_layer, index. rewrite Hlp. simpl.
  rewrite <- (up_with_segment h F (a / 2) b (sibling h F b)) by done.
  destruct (Nat.eqb_spec (a mod 2) 0) as [Heven|Hodd].
  - replace (2 * (a / 2)) with a by dlia. intros Hr.
    destruct (range_pairs_inv _ _ _ _ Hr) as [s Hs].
    apply up_with_inj in Hs; [done|]. by rewrite length_segment.
  - replace (2 * (a / 2)) with (a - 1) by dlia.
    destruct (lemma _ !! (k + 1)) as [sib|]; simpl; [|done].
    destruct cs as [|c cs]; simpl; [done|]. rewrite drop_0.
    destruct (range_pairs _ _ cs) as [ps| |] eqn:Hr; simpl; try done. intros [= Heq].
    destruct (range_pairs_inv _ _ _ _ Hr) as [s ->].
    change (parent sib c :: up_with s cs) with (up_with s (sib :: c :: cs)) in Heq.
    apply up_with_inj in Heq.
    + destruct (lookup_lt_is_Some_2 F (a - 1)) as [y Hy]; [lia|].
      rewrite (segment_cons _ _ y) in Heq by (done || lia).
      replace (S (a - 1)) with a in Heq by lia. by injection Heq as _ ->.
    + rewrite length_segment by done. simpl in *. lia.
Qed.

Lemma range_layer_length rp cs ps k a b :
  a ≤ b → length cs = S b - a →
  path (left_proof rp) !! k = Some (a mod 2 =? 0) →
  range_layer rp cs k = Ok ps → length ps = S (b / 2) - a / 2.
Proof.
  intros Hab Hl Hlp. unfold range_layer, index. rewrite Hlp. simpl.
  destruct (Nat.eqb_spec (a mod 2) 0) as [Heven|Hodd].
  - intros [s ->]%range_pairs_inv. rewrite length_up_with, Hl. dlia.
  - destruct (lemma _ !! (k + 1)) as [sib|]; simpl; [|done].
    destruct cs as [|c cs]; simpl; [done|]. rewrite drop_0.
    destruct (range_pairs _ _ cs) as [ps'| |] eqn:Hr; simpl; try done. intros [= <-].
    apply range_pairs_inv in Hr as [s ->]. simpl in *. rewrite length_up_with. dlia.
Qed.

(** ** All layers *)

Section Tree.
Context (h : nat) (L : list E) (rp : RangeProof E) (a b d : nat).
Context (Hab : a ≤ b) (Hb : b < length L).
Context (Hleft : path (left_proof rp) = sides d a).

Lemma ancestor_le k : a / 2 ^ k ≤ b / 2 ^ k.
Proof. by apply Nat.Div0.div_le_mono. Qed.

Lemma ancestor_lt k : b / 2 ^ k < length (layer_at h k L).
Proof. by apply index_in_layer. Qed.

Lemma div_pow_S i k : i / 2 ^ S k = i / 2 ^ k / 2.
Proof. by rewrite Nat.pow_succ_r', (Nat.mul_comm 2), Nat.Div0.div_div. Qed.

Lemma range_loop_sound `{!CollisionFree E} m k cs r :
  k + m = d → layer_at h d L = [r] → length cs = S (b / 2 ^ k) - a / 2 ^ k →
  res_foldl (range_layer rp) cs (seq k m) = Ok [r] →
  cs = segment (a / 2 ^ k) (b / 2 ^ k) (layer_at h k L).
Proof.
  revert k cs. induction m as [|m IH]; intros k cs Hk Htop Hl; simpl.
  - intros [= ->]. rewrite Nat.add_0_r in Hk. subst k.
    pose proof (ancestor_lt d) as Hlt. pose proof (ancestor_le d).
    rewrite Htop in *. simpl in *. replace (b / 2 ^ d) with 0 by lia.
    by replace (a / 2 ^ d) with 0 by lia.
  - destruct (range_layer rp cs k) as [ps| |] eqn:Hps; simpl; try done. intros Hloop.
    assert (path (left_proof rp) !! k = Some (a / 2 ^ k mod 2 =? 0)) as Hpk
      by (rewrite Hleft; apply sides_lookup; lia).
    pose proof (range_layer_length _ _ _ _ _ _ (ancestor_le k) Hl Hpk Hps) as Hlen.
    rewrite <- !div_pow_S in Hlen.
    apply IH in Hloop; [|lia|done|done]. subst ps. rewrite !div_pow_S, layer_at_S in Hps.
    by apply (range_layer_sound (h + k) _ rp k);
      [apply ancestor_le|apply ancestor_lt|..].
Qed.

Context (Hsl : ∀ k, k < d → lemma (left_proof rp) !! (k + 1) =
                            Some (sibling (h + k) (layer_at h k L) (a / 2 ^ k))).
Context (Hright : path (right_proof rp) = sides d b).
Context (Hsr : ∀ k, k < d → lemma (right_proof rp) !! (k + 1) =
                            Some (sibling (h + k) (layer_at h k L) (b / 2 ^ k))).

Lemma range_loop_complete m :
  m ≤ d →
  res_foldl (range_layer rp) (segment a b L) (seq 0 m) =
  Ok (segment (a / 2 ^ m) (b / 2 ^ m) (layer_at h m L)).
Proof.
  induction m as [|m IH]; intros Hm.
  - change (2 ^ 0) with 1. by rewrite !Nat.div_1_r.
  - rewrite seq_S, res_foldl_app, IH by lia. cbn [res_bind res_foldl]. rewrite Nat.add_0_l.
    rewrite (range_layer_complete (h + m)); rewrite ?Hleft, ?Hright;
      auto using ancestor_le, ancestor_lt, sides_lookup with lia.
    cbn [res_bind]. by rewrite <- !div_pow_S, layer_at_S.
Qed.
End Tree.

(** ** [RangeProof::validate] *)

Lemma range_validate_inv rp ls start :
  range_validate rp ls start = Ok tt →
  ls ≠ [] ∧ position (left_proof rp) = Ok start ∧
  ∃ r, range_root rp = Ok r ∧
    res_foldl (range_layer rp) ls (seq 0 (length (path (left_proof rp)))) = Ok [r].
Proof.
  unfold range_validate. destruct (range_validate_integrity rp) as [[]| |]; simpl; try done.
  destruct (Nat.eqb_spec (length ls) 0) as [|Hne]; simpl; [done|].
  destruct (checked_add _ _) as [e1| |]; simpl; try done.
  destruct (checked_sub _ _) as [e2| |]; simpl; try done.
  destruct (item (left_proof rp)) as [li| |]; simpl; try done.
  destruct (index ls 0) as [l0| |]; simpl; try done.
  destruct (bool_decide (li = l0)); simpl; [|done].
  destruct (item (right_proof rp)) as [ri| |]; simpl; try done.
  destruct (expect (last ls) _) as [ll| |]; simpl; try done.
  destruct (bool_decide (ri = ll)); simpl; [|done].
  destruct (position (left_proof rp)) as [lp| |]; simpl; try done.
  destruct (Nat.eqb_spec lp start) as [->|]; simpl; [|done].
  destruct (position (right_proof rp)) as [q| |]; simpl; try done.
  destruct (q =? e2); simpl; [|done]. rewrite Nat.add_sub.
  destruct (res_foldl _ _ _) as [top| |]; simpl; try done.
  destruct top as [|r [|]]; simpl; try done.
  destruct (range_root rp) as [r'| |]; simpl; try done.
  unfold ensure. destruct (bool_decide_reflect (r = r')) as [<-|]; simpl; [|done].
  intros _. split_and!; [by intros ->|done|]. by exists r.
Qed.

(** The proof generated for leaf [i] leads to the root from position [i]. *)
Lemma generated_climbs h L n i z r :
  depth (length L) ≤ n → layer_at h (n - 1) L = [r] → L !! i = Some z →
  climb z (sides (n - 1) i) (siblings h (n - 1) L i) = r ∧ turns (sides (n - 1) i) = i.
Proof.
  intros Hn Htop Hz. pose proof (climb_layer_at h (n - 1) L i z Hz) as Hc.
  pose proof (lookup_lt_Some _ _ _ Hz).
  rewrite Htop in Hc. pose proof (depth_pos (length L)).
  pose proof (depth_le_pow (length L)).
  pose proof (Nat.pow_le_mono_r 2 (depth (length L) - 1) (n - 1) ltac:(lia) ltac:(lia)).
  rewrite Nat.div_small in Hc by lia. injection Hc as ->. split; [done|].
  rewrite turns_sides. apply Nat.mod_small. lia.
Qed.

Lemma range_integrity_complete x sx bx y sy by' r :
  length sx = length bx → length sy = length by' → length bx = length by' →
  climb x bx sx = r → climb y by' sy = r →
  range_validate_integrity
    (MkRangeProof (MkProof (x :: sx ++ [r]) bx) (MkProof (y :: sy ++ [r]) by')) = Ok true.
Proof.
  intros Hx Hy Hxy Hcx Hcy. unfold range_validate_integrity. simpl.
  rewrite !validate_integrity_form by done.
  rewrite Hcx, Hcy, !bool_decide_true by done. simpl. unfold root. cbn [lemma].
  rewrite !last_cons, !last_snoc. simpl. rewrite bool_decide_true by done.
  by rewrite Hxy, Nat.eqb_refl.
Qed.

(** The proofs generated for the two ends of a range make an accepted proof. *)
Lemma range_validate_complete h L n a b r x y :
  depth (length L) ≤ n → a ≤ b → (Z.of_nat (length L) < 2 ^ 64)%Z →
  layer_at h (n - 1) L = [r] → L !! a = Some x → L !! b = Some y →
  range_validate
    (MkRangeProof (MkProof (x :: siblings h (n - 1) L a ++ [r]) (sides (n - 1) a))
                  (MkProof (y :: siblings h (n - 1) L b ++ [r]) (sides (n - 1) b)))
    (segment a b L) a = Ok tt.
Proof.
  intros Hn Hab H64 Htop Hx Hy. pose proof (lookup_lt_Some _ _ _ Hy) as Hb.
  destruct (generated_climbs h L n a x r) as [Hcx Htx]; [done..|].
  destruct (generated_climbs h L n b y r) as [Hcy Hty]; [done..|].
  pose proof (length_segment a b L Hb) as Hlen. unfold range_validate.
  rewrite range_integrity_complete by (rewrite ?length_siblings, ?length_sides; done). simpl.
  rewrite Hlen, (proj2 (Nat.eqb_neq _ _)) by lia. simpl.
  unfold checked_add, checked_sub. rewrite (proj2 (Z.ltb_lt _ _)) by lia. simpl.
  rewrite decide_True by lia. simpl.
  rewrite (segment_cons a b x) at 1 by done. simpl. rewrite bool_decide_true by done. simpl.
  rewrite (last_segment a b y) by done. simpl. rewrite bool_decide_true by done. simpl.
  rewrite !position_ok; simpl; rewrite ?Htx, ?Hty; try lia.
  simpl. rewrite !(proj2 (Nat.eqb_eq _ _)) by lia. simpl. rewrite length_sides, Nat.add_sub.
  rewrite (range_loop_complete h L _ a b (n - 1)); try done; simpl.
  - rewrite Htop. pose proof (ancestor_lt h L b Hb (n - 1)) as Hlt. rewrite Htop in Hlt.
    pose proof (ancestor_le a b Hab (n - 1)). simpl in Hlt.
    replace (b / 2 ^ (n - 1)) with 0 by lia. replace (a / 2 ^ (n - 1)) with 0 by lia.
    simpl. unfold range_root, root. cbn [left_proof lemma].
    rewrite last_cons, last_snoc. simpl. by rewrite bool_decide_true.
  - intros k Hk. rewrite Nat.add_1_r. simpl.
    rewrite lookup_app_l by by rewrite length_siblings. by apply siblings_lookup.
  - intros k Hk. rewrite Nat.add_1_r. simpl.
    rewrite lookup_app_l by by rewrite length_siblings. by apply siblings_lookup.
Qed.
End Range.
