(* ===== verification/MerkleHistory.v ===== *)
(** * Versions of the append-only Merkle tree

    [commit] records the right-most node of every layer.  Together with the
    current layers these are enough to rebuild any committed version
    ([revert_to]) and to read it without rebuilding it ([HistoryTree]), as long
    as the tree only grew at its right edge in between.  The abstract tree keeps
    the leaves of every version; the operations refine it. *)

From stdpp Require Import sorting.
From S2P Require Import Prelude Hashing MerkleProof MerkleRead AppendMerkle MerkleSpec MerkleAppend.
From S2P Require Import MerkleInclusion.

Section History.
Context {E : Type} `{HashElement E} `{!Algorithm E}.
Implicit Types (F L : list E) (ls : list (list E)) (nodes : list (nat * E)).

(** ** Growth at the right edge *)

(** [F] continues [F0]; only the last element of [F0] may have changed. *)
Definition grows F0 F : Prop :=
  length F0 ≤ length F ∧ take (length F0 - 1) F = take (length F0 - 1) F0.

Lemma grows_refl F : grows F F.
Proof. done. Qed.

Lemma grows_trans F0 F1 F2 : grows F0 F1 → grows F1 F2 → grows F0 F2.
Proof.
  intros [Hl1 Ht1] [Hl2 Ht2]. split; [lia|]. rewrite <- Ht1.
  apply (f_equal (take (length F0 - 1))) in Ht2.
  by rewrite !take_take, !Nat.min_l in Ht2 by lia.
Qed.

Lemma grows_app F0 F : grows F0 (F0 ++ F).
Proof. split; [rewrite length_app; lia|]. by rewrite take_app_le by lia. Qed.

Lemma grows_replace_last x F : grows F (replace_last x F).
Proof.
  split; [rewrite length_replace_last; lia|]. destruct F; [done|].
  unfold replace_last. by rewrite take_insert_ge by lia.
Qed.

Lemma grows_up h F0 F : grows F0 F → grows (up h F0) (up h F).
Proof.
  intros [Hl Ht]. split; rewrite !length_up; [dlia|].
  replace ((length F0 + 1) / 2 - 1) with ((length F0 - 1) / 2) by dlia.
  symmetry. by apply up_take_agree.
Qed.

Lemma grows_build h n F0 F : grows F0 F → Forall2 grows (build h n F0) (build h n F).
Proof. revert h F0 F. induction n; intros; simpl; auto using grows_up. Qed.

Lemma grows_lookup F0 F i x :
  grows F0 F → F0 !! i = Some x → i + 1 ≠ length F0 → F !! i = Some x.
Proof.
  intros [_ Ht] Hi Hne. pose proof (lookup_lt_Some _ _ _ Hi).
  by rewrite <- (lookup_take_lt _ (length F0 - 1)), Ht, lookup_take_lt by lia.
Qed.

(** ** The recorded right edge *)

Definition is_right_edge (layer : list E) (p : nat * E) : Prop :=
  length layer = S p.1 ∧ last layer = Some p.2.

(** [nodes] is what [commit] records of the layers [ls]. *)
Definition right_edge : list (list E) → list (nat * E) → Prop := Forall2 is_right_edge.

Lemma right_most_path_run ls :
  Forall (λ l, l ≠ []) ls → ∃ nodes, right_most_path ls = Ok nodes ∧ right_edge ls nodes.
Proof.
  induction 1 as [|l ls Hl _ (nodes & Hr & He)]; simpl; [by exists []; split; [|constructor]|].
  destruct (exists_last_or_nil l) as [->|(l' & x & ->)]; [done|].
  exists ((length l', x) :: nodes). unfold right_most_node, checked_sub.
  rewrite length_app, last_snoc, decide_True by (simpl; lia). simpl. rewrite Hr. simpl.
  rewrite Nat.add_sub. split; [done|]. constructor; [|done].
  split; simpl; [rewrite length_app; simpl; lia|apply last_snoc].
Qed.

(** Truncating a grown layer and writing the recorded node back. *)
Lemma restore_one F0 F p :
  is_right_edge F0 p → grows F0 F → index_set (take (p.1 + 1) F) p.1 p.2 = Ok F0.
Proof.
  intros [Hl Hlast] [Hle Ht]. unfold index_set. rewrite length_take, decide_True by lia.
  destruct (exists_last_or_nil F0) as [->|(l & x & ->)]; [done|].
  rewrite last_snoc in Hlast. injection Hlast as <-. rewrite length_app in *. simpl in *.
  replace (length l + 1 - 1) with (length l) in Ht by lia.
  rewrite take_app_length in Ht. replace p.1 with (length l) by lia.
  destruct (lookup_lt_is_Some_2 F (length l)) as [y Hy]; [lia|].
  rewrite Nat.add_1_r, (take_S_r _ _ _ Hy), Ht. f_equal.
  by rewrite insert_app_r_alt, Nat.sub_diag by lia.
Qed.

Lemma restore_layers below old cur nodes :
  right_edge old nodes → Forall2 grows old cur →
  res_foldl restore_layer (below ++ cur)
    (imap (λ i p, (length below + i, p)) nodes) = Ok (below ++ old).
Proof.
  intros He. revert below cur. induction He as [|F0 p old nodes Hp He IH]; intros below cur Hg.
  - by apply Forall2_nil_inv_l in Hg as ->.
  - apply Forall2_cons_inv_l in Hg as (F & cur' & HF & Hg & ->).
    destruct p as [li x]. cbn [imap res_foldl]. rewrite Nat.add_0_r. unfold restore_layer at 1.
    unfold index. rewrite list_lookup_middle by done. cbn [expect res_bind].
    pose proof (restore_one F0 F (li, x) Hp HF) as Hone. cbn [fst snd] in Hone.
    rewrite Hone. cbn [res_bind].
    rewrite insert_app_r_alt, Nat.sub_diag by lia. simpl.
    rewrite (imap_ext _ (λ i p, (length (below ++ [F0]) + i, p)))
      by (intros; simpl; rewrite length_app; simpl; f_equal; lia).
    rewrite (cons_middle F0 below), app_assoc, IH by done. by rewrite <- app_assoc.
Qed.

(** ** [clear_after] *)

(** Every entry of [root_to_tx_seq_map] points to the version with that root. *)
Definition roots_sound (t : AppendMerkleTree E) : Prop :=
  map_Forall (λ r s, ∃ d, delta_nodes_map t !! s = Some d ∧ DeltaNodes_root d = Ok r)
    (root_to_tx_seq_map t).

(** Removing a version together with its root. *)
Lemma roots_sound_delete t s d :
  roots_sound t → delta_nodes_map t !! s = Some d →
  ∃ roots,
    (if DeltaNodes_height d =? 0 then Ok (root_to_tx_seq_map t)
     else let? r := DeltaNodes_root d in Ok (delete r (root_to_tx_seq_map t))) = Ok roots ∧
    roots_sound (set_versions (delete s (delta_nodes_map t)) roots t).
Proof.
  intros Hsound Hd. destruct d as [nodes].
  destruct (exists_last_or_nil nodes) as [->|(nodes' & [i r] & ->)].
  - exists (root_to_tx_seq_map t). split; [done|]. intros r s' Hr. simpl.
    destruct (Hsound _ _ Hr) as (d & Hd' & Hroot). exists d. split; [|done].
    apply lookup_delete_Some. split; [|done]. intros <-. by simplify_eq.
  - exists (delete r (root_to_tx_seq_map t)). split.
    { unfold DeltaNodes_height, DeltaNodes_root. simpl.
      rewrite length_app, (proj2 (Nat.eqb_neq _ _)) by (simpl; lia). by rewrite last_snoc. }
    intros r' s' Hr. simpl in *. apply lookup_delete_Some in Hr as [Hne Hr].
    destruct (Hsound _ _ Hr) as (d & Hd' & Hroot). exists d. split; [|done].
    apply lookup_delete_Some. split; [|done]. intros <-. simplify_eq.
    unfold DeltaNodes_root in Hroot. simpl in Hroot. rewrite last_snoc in Hroot.
    by simplify_eq/=.
Qed.

(** The loop removes the contiguous versions [k .. hi) and their roots. *)
Lemma clear_after_loop_run fuel k hi t :
  size (delta_nodes_map t) ≤ fuel → (k ≤ hi < 2 ^ 64)%Z →
  (∀ s, (k ≤ s < hi)%Z → is_Some (delta_nodes_map t !! s)) →
  delta_nodes_map t !! hi = None → roots_sound t →
  ∃ d r, clear_after_loop fuel k t = Ok (set_versions d r t) ∧
    (∀ s, d !! s = if decide (k ≤ s < hi)%Z then None else delta_nodes_map t !! s) ∧
    roots_sound (set_versions d r t).
Proof.
  revert k t. induction fuel as [|fuel IH]; intros k t Hsize Hk Hin Hout Hsound; simpl.
  - assert (delta_nodes_map t = ∅) as Hemp by (apply map_size_empty_inv; lia).
    exists ∅, (root_to_tx_seq_map t). rewrite <- Hemp. split; [by destruct t|].
    split; [|done]. intros s. case_decide; [|done]. by rewrite Hemp, lookup_empty.
  - destruct (decide (k = hi)) as [->|Hne].
    { rewrite Hout. exists (delta_nodes_map t), (root_to_tx_seq_map t).
      split; [by destruct t|]. split; [|done]. intros s. rewrite decide_False by lia. done. }
    destruct (Hin k) as [d Hd]; [lia|]. rewrite Hd.
    destruct (roots_sound_delete t k d Hsound Hd) as (roots & -> & Hsound'). simpl.
    unfold u64_add. rewrite (proj2 (Z.ltb_lt _ _)) by lia. simpl.
    edestruct (IH (k + 1)%Z (set_versions (delete k (delta_nodes_map t)) roots t))
      as (d' & r' & -> & Hd' & Hs'); simpl; [..|done|].
    + rewrite map_size_delete_Some by done. lia.
    + lia.
    + intros s Hs. rewrite lookup_delete_ne by lia. apply Hin. lia.
    + by rewrite lookup_delete_ne.
    + exists d', r'. split; [done|]. split; [|done]. intros s. rewrite Hd'. simpl.
      destruct (decide (s = k)) as [->|Hsk].
      * rewrite lookup_delete_eq. rewrite (decide_True (P := (k ≤ k < hi)%Z)) by lia.
        by case_decide.
      * rewrite lookup_delete_ne by done. repeat case_decide; try done; lia.
Qed.

(** ** The abstract tree *)

(** A version: the number of layers and the leaves. *)
Record version : Type := MkVersion { v_height : nat; v_leaves : list E }.

(** The committed versions have consecutive sequence numbers from [a_first]. *)
Record abstract : Type := MkAbstract {
  a_first : Z;
  a_versions : list version;
  a_now : version;
}.

Definition version_at (a : abstract) (s : Z) : option version :=
  if decide (a_first a ≤ s)%Z then a_versions a !! Z.to_nat (s - a_first a) else None.

Inductive op : Type :=
| OAppend (x : E)
| OAppendList (xs : list E)
| OUpdateLast (x : E)
| OCommit (tx_seq : Z)
| ORevert (tx_seq : Z).

Definition exec_op (o : op) : st (AppendMerkleTree E) unit :=
  match o with
  | OAppend x => append x
  | OAppendList xs => append_list xs
  | OUpdateLast x => update_last x
  | OCommit s => commit (Some s)
  | ORevert s => revert_to s
  end.

(** The tree now has the leaves [L]; it never loses a layer. *)
Definition grow (L : list E) (a : abstract) : abstract :=
  MkAbstract (a_first a) (a_versions a)
    (MkVersion (max (v_height (a_now a)) (depth (length L))) L).

Definition spec_op (o : op) (a : abstract) : abstract :=
  match o with
  | OAppend x => grow (v_leaves (a_now a) ++ [x]) a
  | OAppendList xs => grow (v_leaves (a_now a) ++ xs) a
  | OUpdateLast x => grow (replace_last x (v_leaves (a_now a))) a
  | OCommit s =>
      MkAbstract (match a_versions a with [] => s | _ => a_first a end)
        (a_versions a ++ [a_now a]) (a_now a)
  | ORevert s =>
      match v_leaves (a_now a), version_at a s with
      | _ :: _, Some v =>
          MkAbstract (a_first a) (take (S (Z.to_nat (s - a_first a))) (a_versions a)) v
      | _, _ => a
      end
  end.

(** When an operation may be called: the leaves are known, the sequence numbers
    of the commits are consecutive, and a non-empty tree is only reverted to a
    committed non-empty version. *)
Definition op_ok (o : op) (a : abstract) : Prop :=
  match o with
  | OAppend x | OUpdateLast x => x ≠ null
  | OAppendList xs => known xs
  | OCommit s =>
      (0 ≤ s ∧ s + 1 < 2 ^ 64)%Z ∧
      (a_versions a = [] ∨ s = a_first a + Z.of_nat (length (a_versions a)))%Z
  | ORevert s =>
      v_leaves (a_now a) = [] ∨
      match version_at a s with Some v => v_leaves v ≠ [] | None => False end
  end.

Fixpoint spec_ops (os : list op) (a : abstract) : abstract :=
  match os with [] => a | o :: os => spec_ops os (spec_op o a) end.
Fixpoint ops_ok (os : list op) (a : abstract) : Prop :=
  match os with [] => True | o :: os => op_ok o a ∧ ops_ok os (spec_op o a) end.

(** ** The refinement relation *)

Definition version_layers (lh : nat) (v : version) : list (list E) :=
  match v_leaves v with [] => [] | _ => build lh (v_height v) (v_leaves v) end.

Definition version_wf (v : version) : Prop :=
  known (v_leaves v) ∧ depth (length (v_leaves v)) ≤ v_height v.

(** [v] can come after [v0]. *)
Definition follows (v0 v : version) : Prop :=
  v_height v0 ≤ v_height v ∧ grows (v_leaves v0) (v_leaves v).

Record refines (a : abstract) (t : AppendMerkleTree E) : Prop := {
  r_now : represents (v_height (a_now a)) (v_leaves (a_now a)) t;
  r_wf : Forall version_wf (a_versions a);
  r_chain : StronglySorted follows (a_versions a);
  r_follows : Forall (λ v, follows v (a_now a)) (a_versions a);
  r_deltas s :
    option_Forall2 (λ v d, right_edge (version_layers (leaf_height t) v) (right_most_nodes d))
      (version_at a s) (delta_nodes_map t !! s);
  r_roots : roots_sound t;
  r_first : (0 ≤ a_first a)%Z;
  r_bound : a_versions a = [] ∨ (a_first a + Z.of_nat (length (a_versions a)) < 2 ^ 64)%Z;
}.

Lemma follows_refl v : follows v v.
Proof. split; [done|apply grows_refl]. Qed.

Lemma follows_trans v0 v1 v2 : follows v0 v1 → follows v1 v2 → follows v0 v2.
Proof. intros [??] [??]. split; [lia|by eapply grows_trans]. Qed.

Lemma refines_grow `{!NeverNull E} a t L :
  refines a t → known L → grows (v_leaves (a_now a)) L →
  refines (grow L a) (set_layers (tree_layers (leaf_height t) (v_height (a_now a)) L) t).
Proof.
  intros [Hnow Hwf Hch Hf Hd Hro Hz Hb] HL Hg. split; simpl; try done.
  - by apply tree_layers_represents.
  - eapply Forall_impl; [exact Hf|]. intros v Hv. eapply follows_trans; [exact Hv|].
    split; simpl; [lia|done].
Qed.

(** ** [commit] *)

Lemma build_nonempty h n L : L ≠ [] → Forall (λ l, l ≠ []) (build h n L).
Proof.
  revert h L. induction n; intros h L HL; simpl; constructor; auto.
  apply IHn. intros Hnil%(f_equal length). rewrite length_up in Hnil. simpl in Hnil.
  destruct L; [done|]. simpl in Hnil. dlia.
Qed.

Lemma right_edge_root ls nodes top :
  right_edge ls nodes → last ls = Some [top] →
  DeltaNodes_root (MkDeltaNodes nodes) = Ok top ∧ ∃ i, last nodes = Some (i, top).
Proof.
  intros He Hlast. destruct (exists_last_or_nil ls) as [->|(ls' & l & ->)]; [done|].
  rewrite last_snoc in Hlast. injection Hlast as ->.
  apply Forall2_app_inv_l in He as (n1 & n2 & _ & H2 & ->).
  apply Forall2_cons_inv_l in H2 as ([i x] & ? & [_ Hx] & Hnil & ->).
  apply Forall2_nil_inv_l in Hnil as ->. simpl in Hx. injection Hx as <-.
  unfold DeltaNodes_root. simpl. rewrite last_snoc. eauto.
Qed.

Lemma reads_as_represents n L t :
  represents n L t → reads_as t (leaf_height t) n L.
Proof.
  intros (Hl & HL & Hd). split.
  - cbn. by rewrite Hl, length_build.
  - intros d Hlt. cbn. unfold index. by rewrite Hl, build_lookup.
  - intros d i x Hlt Hx. cbn. unfold index. rewrite Hl, build_lookup by done. cbn.
    by rewrite Hx.
  - intros d. cbn. f_equal. lia.
Qed.

Lemma represents_reads n L t :
  represents n L t → reads_as t (leaf_height t) n L ∧ known L ∧ depth (length L) ≤ n.
Proof. intros Hr. split; [by apply reads_as_represents|apply Hr]. Qed.

(** The top layer of a non-empty tree is its root. *)
Lemma top_layer h n L :
  L ≠ [] → depth (length L) ≤ n →
  ∃ r, last (build h n L) = Some [r] ∧ layer_at h (n - 1) L = [r] ∧ root_of h n L = Some r.
Proof.
  intros HL Hd. pose proof (depth_pos (length L)).
  destruct (build_top h n L HL Hd) as (r & Htop & Hr). exists r. split_and!; [|done..].
  rewrite last_lookup, length_build. replace (pred n) with (n - 1) by lia.
  by rewrite build_lookup, Htop by lia.
Qed.

(** Proof generation through the reading interface, for both implementations. *)
Lemma reader_proof_complete {T} `{!MerkleTreeRead T E} (t : T) h n L i x :
  reads_as t h n L ∧ known L ∧ depth (length L) ≤ n → L !! i = Some x →
  (Z.of_nat i < 2 ^ 64)%Z →
  ∃ p r, gen_proof t i = Ok p ∧ root p = Ok r ∧ tree_root t = Ok r ∧ validate p x i = Ok tt.
Proof.
  intros (Hr & HL & Hd) Hx Hi. assert (L ≠ []) as Hne by (by intros ->).
  destruct (top_layer h n L Hne Hd) as (r & _ & Htop & _).
  assert (x ≠ null) as Hnn by (rewrite Forall_lookup in HL; eauto).
  eexists _, r. split_and!; [by eapply gen_proof_reads|..].
  - unfold root. simpl. by rewrite last_cons, last_snoc.
  - by eapply tree_root_reads.
  - by eapply gen_proof_validates.
Qed.

(** What [commit] adds to the two maps. *)
Lemma commit_run n L s t :
  represents n L t →
  ∃ nodes roots,
    commit (Some s) t =
      (Ok tt, set_versions (<[s := MkDeltaNodes nodes]> (delta_nodes_map t)) roots t) ∧
    right_edge (version_layers (leaf_height t) (MkVersion n L)) nodes ∧
    (roots = root_to_tx_seq_map t ∧ L = [] ∨
     ∃ r, roots = <[r := s]> (root_to_tx_seq_map t) ∧ root_of (leaf_height t) n L = Some r ∧
          DeltaNodes_root (MkDeltaNodes nodes) = Ok r).
Proof.
  intros Hr. pose proof (leaves_represents _ _ _ Hr) as Hlv.
  unfold commit, st_bind, st_reads, st_lift, st_modify. rewrite Hlv.
  destruct L as [|x L].
  { exists [], (root_to_tx_seq_map t). split_and!; [done|constructor|by left]. }
  cbn [length Nat.eqb]. destruct Hr as (Hl & HL & Hd). rewrite Hl.
  destruct (right_most_path_run (build (leaf_height t) n (x :: L))) as (nodes & -> & He);
    [by apply build_nonempty|].
  destruct (top_layer (leaf_height t) n (x :: L)) as (r & Hlast & Htop & Hroot); [done..|].
  rewrite (tree_root_reads t (leaf_height t) n (x :: L)) with (r := r);
    [|by apply reads_as_represents|done..].
  destruct (right_edge_root _ _ _ He Hlast) as [Hdr [i Hi]]. rewrite Hi. cbn.
  rewrite bool_decide_true by done. cbn.
  exists nodes, (<[r := s]> (root_to_tx_seq_map t)). split_and!; [done|done|]. right. eauto.
Qed.

Lemma version_at_snoc a s v s' :
  a_versions a = [] ∨ s = (a_first a + Z.of_nat (length (a_versions a)))%Z →
  version_at (MkAbstract (match a_versions a with [] => s | _ => a_first a end)
                (a_versions a ++ [v]) v) s' =
  if decide (s' = s) then Some v else version_at a s'.
Proof.
  intros Hs. unfold version_at. simpl. destruct (a_versions a) as [|w vs] eqn:Hvs; simpl.
  - repeat case_decide; subst; try lia; rewrite ?Z.sub_diag; try done.
    all: destruct (Z.to_nat (s' - s)) eqn:?; [lia|]; simpl; by rewrite ?lookup_nil.
  - destruct Hs as [?| ->]; [done|].
    rewrite <- !Hvs. change (w :: vs ++ [v]) with ((w :: vs) ++ [v]). rewrite <- !Hvs.
    repeat case_decide; subst; try lia.
    + rewrite lookup_app_r by lia.
      by replace (_ - _) with 0 by lia.
    + destruct (decide (Z.to_nat (s' - a_first a) < length (a_versions a))).
      * by rewrite lookup_app_l.
      * rewrite !lookup_ge_None_2 by (rewrite ?length_app; simpl; lia). done.
    + done.
Qed.

Lemma next_fresh a t s :
  refines a t →
  a_versions a = [] ∨ s = (a_first a + Z.of_nat (length (a_versions a)))%Z →
  delta_nodes_map t !! s = None.
Proof.
  intros Hr Hs. pose proof (r_deltas _ _ Hr s) as Hd.
  assert (version_at a s = None) as Hnone.
  { unfold version_at. case_decide; [|done]. apply lookup_ge_None_2.
    destruct Hs as [-> | ->]; simpl; lia. }
  rewrite Hnone in Hd. by inversion Hd.
Qed.

Lemma roots_sound_insert t s d roots :
  roots_sound t → delta_nodes_map t !! s = None →
  roots = root_to_tx_seq_map t ∨
  (∃ r, roots = <[r := s]> (root_to_tx_seq_map t) ∧ DeltaNodes_root d = Ok r) →
  roots_sound (set_versions (<[s := d]> (delta_nodes_map t)) roots t).
Proof.
  intros Hro Hs Hroots r s' Hr. simpl in *.
  assert (root_to_tx_seq_map t !! r = Some s' ∨ s' = s ∧ DeltaNodes_root d = Ok r) as [Hold|[-> ?]].
  { destruct Hroots as [-> |(r0 & -> & Hd)]; [by left|].
    apply lookup_insert_Some in Hr as [[<- <-]|[_ Hr]]; auto. }
  - destruct (Hro _ _ Hold) as (d' & Hd' & ?). exists d'. split; [|done].
    rewrite lookup_insert_ne; [done|]. intros <-. by rewrite Hs in Hd'.
  - exists d. by rewrite lookup_insert_eq.
Qed.

Lemma refines_commit a t s :
  refines a t → op_ok (OCommit s) a →
  ∃ t', commit (Some s) t = (Ok tt, t') ∧ leaf_height t' = leaf_height t ∧
    refines (spec_op (OCommit s) a) t'.
Proof.
  intros [Hnow Hwf Hch Hf Hd Hro Hz Hb] [Hs Hnext].
  destruct (commit_run _ _ s _ Hnow) as (nodes & roots & -> & He & Hroots).
  eexists. split; [done|]. split; [done|]. split; simpl; try done.
  - apply Forall_app. split; [done|]. apply Forall_singleton. by destruct Hnow as (_ & ? & ?).
  - apply StronglySorted_app. split_and!; [|done|by repeat constructor].
    intros v v' Hv Hv'%list_elem_of_singleton. subst v'. rewrite Forall_forall in Hf. auto.
  - apply Forall_app. split; [done|]. apply Forall_singleton, follows_refl.
  - intros s'. rewrite version_at_snoc by done. case_decide as Hss.
    + subst s'. rewrite lookup_insert_eq. constructor. by destruct (a_now a).
    + rewrite lookup_insert_ne by done. apply Hd.
  - eapply roots_sound_insert; [done|by eapply next_fresh; [split|]|].
    destruct Hroots as [[-> _]|(r & -> & _ & Hr)]; eauto.
  - by destruct (a_versions a); simpl; lia.
  - right. rewrite length_app. simpl. destruct (a_versions a) as [|w vs]; simpl in *; [lia|].
    destruct Hnext as [?| ->]; [done|]. lia.
Qed.

(** ** [revert_to] *)

Lemma take_build h n m L : m ≤ n → take m (build h n L) = build h m L.
Proof.
  revert h m L. induction n as [|n IH]; intros h m L Hm; simpl.
  - by destruct m; [|lia].
  - destruct m; [done|]. simpl. by rewrite IH by lia.
Qed.

Lemma version_at_revert a s i v s' :
  a_versions a !! i = Some v → s = (a_first a + Z.of_nat i)%Z →
  version_at (MkAbstract (a_first a) (take (S i) (a_versions a)) v) s' =
  if decide (s < s')%Z then None else version_at a s'.
Proof.
  intros Hi ->. unfold version_at. simpl. repeat case_decide; try done; try lia.
  - apply lookup_take_ge. lia.
  - apply lookup_take_lt. lia.
Qed.

(** The layers of an old version from the current ones. *)
Lemma restore_version lh n L v nodes :
  follows v (MkVersion n L) → v_leaves v ≠ [] →
  right_edge (version_layers lh v) nodes →
  res_foldl restore_layer (take (length nodes) (build lh n L)) (imap pair nodes) =
  Ok (build lh (v_height v) (v_leaves v)).
Proof.
  intros [Hh Hg] Hne He. unfold version_layers in He.
  destruct (v_leaves v) as [|x L0] eqn:HL0; [done|]. simpl in Hh.
  pose proof (Forall2_length _ _ _ He) as Hlen. rewrite length_build in Hlen.
  rewrite <- Hlen, take_build by done. rewrite imap_pair_0.
  apply (restore_layers [] _ (build lh (v_height v) L) nodes He). by apply grows_build.
Qed.

(** [clear_after] on the maps of a refined tree. *)
Lemma clear_after_run a t s i v ls :
  refines a t → a_versions a !! i = Some v → s = (a_first a + Z.of_nat i)%Z →
  ∃ d r, clear_after s (set_layers ls t) = Ok (set_versions d r (set_layers ls t)) ∧
    (∀ s', d !! s' = if decide (s < s')%Z then None else delta_nodes_map t !! s') ∧
    roots_sound (set_versions d r (set_layers ls t)).
Proof.
  intros Hr Hi Hs. pose proof (lookup_lt_Some _ _ _ Hi) as Hlt.
  pose proof (r_first _ _ Hr). destruct (r_bound _ _ Hr) as [Hnil|Hb]; [by rewrite Hnil in Hi|].
  set (hi := (a_first a + Z.of_nat (length (a_versions a)))%Z) in *.
  unfold clear_after, u64_add. rewrite (proj2 (Z.ltb_lt _ _)) by lia. simpl.
  pose proof (r_deltas _ _ Hr) as Hd. unfold version_at in Hd.
  edestruct (clear_after_loop_run (size (delta_nodes_map t)) (s + 1) hi (set_layers ls t))
    as (d & r & -> & Hds & Hro); simpl.
  - lia.
  - lia.
  - intros s' Hs'. specialize (Hd s'). rewrite decide_True in Hd by lia.
    destruct (lookup_lt_is_Some_2 (a_versions a) (Z.to_nat (s' - a_first a))) as [w Hw]; [lia|].
    rewrite Hw in Hd. inversion Hd. by eexists.
  - eapply next_fresh; [done|by right].
  - exact (r_roots _ _ Hr).
  - exists d, r. split_and!; [done| |done]. intros s'. rewrite Hds. simpl.
    repeat case_decide; try done; try lia. specialize (Hd s').
    rewrite decide_True, lookup_ge_None_2 in Hd by lia. by inversion Hd.
Qed.

Lemma refines_revert a t s :
  refines a t → op_ok (ORevert s) a →
  ∃ t', revert_to s t = (Ok tt, t') ∧ leaf_height t' = leaf_height t ∧
    refines (spec_op (ORevert s) a) t'.
Proof.
  intros Hr Hok. pose proof (layers_0 _ _ _ (r_now _ _ Hr)) as H0.
  unfold revert_to, st_bind, st_get, st_lift, st_put, st_ret, index. rewrite H0. simpl.
  destruct (v_leaves (a_now a)) as [|x L] eqn:HL; [by exists t|].
  destruct Hok as [?|Hok]; [congruence|].
  destruct (version_at a s) as [v|] eqn:Hv; [|done].
  pose proof (r_deltas _ _ Hr s) as Hds. rewrite Hv in Hds. inversion Hds as [? [nodes] He Ha Hb|].
  subst. simpl in He. unfold version_at in Hv. case_decide; [|done].
  assert (v ∈ a_versions a) as Hin by by eapply list_elem_of_lookup_2.
  assert (follows v (a_now a)) as Hfol by (pose proof (r_follows _ _ Hr) as Hf;
    rewrite Forall_forall in Hf; auto).
  destruct (r_now _ _ Hr) as (Hl & _ & _). rewrite Hl, HL. simpl.
  rewrite (restore_version _ _ _ v) by (rewrite <- ?HL; try destruct (a_now a); done). simpl.
  edestruct (clear_after_run a t s) as (d & r & -> & Hd & Hro); [done|exact Hv|lia|].
  eexists. split; [done|]. split; [done|].
  pose proof (take_S_r _ _ _ Hv) as Htake.
  pose proof (r_chain _ _ Hr) as Hch.
  rewrite <- (take_drop (S (Z.to_nat (s - a_first a))) (a_versions a)) in Hch.
  apply StronglySorted_app_1_l in Hch.
  pose proof (r_wf _ _ Hr) as Hwf. rewrite Forall_forall in Hwf.
  split; simpl; try done.
  - destruct (Hwf v Hin). by repeat split.
  - apply Forall_take. by apply Forall_forall.
  - rewrite Htake in *. apply Forall_app. split.
    + apply Forall_forall. intros w Hw. eapply StronglySorted_app_1_elem_of; [done..|].
      by apply list_elem_of_singleton.
    + apply Forall_singleton, follows_refl.
  - intros s'. rewrite (version_at_revert _ s _ _ _ Hv), Hd by lia.
    case_decide; [constructor|]. apply (r_deltas _ _ Hr).
  - exact (r_first _ _ Hr).
  - right. rewrite length_take. pose proof (lookup_lt_Some _ _ _ Hv).
    destruct (r_bound _ _ Hr) as [Hnil|?]; [by rewrite Hnil in Hv|lia].
Qed.

(** ** Sequences of operations *)

Lemma exec_op_refines `{!NeverNull E} a t o :
  refines a t → op_ok o a →
  ∃ t', exec_op o t = (Ok tt, t') ∧ leaf_height t' = leaf_height t ∧ refines (spec_op o a) t'.
Proof.
  intros Hr Hok. pose proof (r_now _ _ Hr) as Hnow.
  assert (known (v_leaves (a_now a))) as HL by by destruct Hnow as (_ & ? & _).
  destruct o as [x|xs|x|s|s]; simpl exec_op.
  - eexists. split; [by eapply append_run|]. split; [done|]. apply refines_grow; auto using grows_app.
    apply Forall_app. by rewrite Forall_singleton.
  - eexists. split; [by eapply append_list_run|]. split; [done|]. apply refines_grow; auto using grows_app.
    by apply Forall_app.
  - eexists. split; [by eapply update_last_run|]. split; [done|].
    apply refines_grow; auto using grows_replace_last.
    unfold replace_last. destruct (v_leaves (a_now a)); [by apply Forall_singleton|].
    by apply Forall_insert.
  - by apply refines_commit.
  - by apply refines_revert.
Qed.

Lemma exec_ops_refines `{!NeverNull E} os a t :
  refines a t → ops_ok os a →
  ∃ t', st_for os exec_op t = (Ok tt, t') ∧ leaf_height t' = leaf_height t ∧
    refines (spec_ops os a) t'.
Proof.
  revert a t. induction os as [|o os IH]; intros a t Hr Hok; simpl; [by exists t|].
  destruct Hok as [Ho Hos]. destruct (exec_op_refines _ _ _ Hr Ho) as (t1 & Ht1 & <- & Hr1).
  unfold st_bind. rewrite Ht1. by apply IH.
Qed.

Lemma spec_ops_app os1 os2 a : spec_ops (os1 ++ os2) a = spec_ops os2 (spec_ops os1 a).
Proof. revert a. by induction os1 as [|o os1 IH]; intros a; simpl. Qed.

Lemma ops_ok_app os1 os2 a :
  ops_ok (os1 ++ os2) a ↔ ops_ok os1 a ∧ ops_ok os2 (spec_ops os1 a).
Proof.
  revert a. induction os1 as [|o os1 IH]; intros a; simpl; [tauto|]. rewrite IH. tauto.
Qed.

Definition is_revert (o : op) : bool := match o with ORevert _ => true | _ => false end.

(** Without reverts, versions stay and leaves are not lost. *)
Lemma growing_ops os a s v :
  Forall (λ o, is_revert o = false) os → ops_ok os a →
  version_at a s = Some v → v_leaves (a_now a) ≠ [] →
  version_at (spec_ops os a) s = Some v ∧ v_leaves (a_now (spec_ops os a)) ≠ [].
Proof.
  intros Hos. revert a. induction Hos as [|o os Ho Hos IH]; intros a Hok Hv Hne; [done|].
  destruct Hok as [Hok Hoks]. apply IH; [done|..]; destruct o; try done; simpl in *.
  - rewrite version_at_snoc by apply Hok. case_decide as Hs; [|done].
    unfold version_at in Hv. case_decide; [|done]. destruct Hok as [_ [Hnil|Heq]].
    + by rewrite Hnil in Hv.
    + rewrite lookup_ge_None_2 in Hv by lia. done.
  - by intros [??]%app_nil.
  - by intros [??]%app_nil.
  - intros Hnil%(f_equal length). rewrite length_replace_last in Hnil. simpl in Hnil. lia.
Qed.

(** ** Constructors *)

(** The abstract tree of a constructor that starts with [n] layers. *)
Definition abstract_new (n : nat) (L : list E) (start_tx_seq : option Z) : abstract :=
  let v := MkVersion (max n (depth (length L))) L in
  match start_tx_seq with
  | None => MkAbstract 0 [] v
  | Some s => MkAbstract s [v] v
  end.

Definition seq_ok (start_tx_seq : option Z) : Prop :=
  match start_tx_seq with None => True | Some s => (0 ≤ s ∧ s + 1 < 2 ^ 64)%Z end.

Lemma build_nil h n : build h n [] = replicate n ([] : list E).
Proof. revert h. induction n as [|n IH]; intros h; simpl; [done|]. by rewrite IH. Qed.

(** A tree without versions, and its first commit. *)
Lemma refines_start n L md lh start_tx_seq :
  known L → seq_ok start_tx_seq →
  ∃ t, st_exec (commit start_tx_seq) (empty_tree (tree_layers lh n L) md lh) = Ok t ∧
    leaf_height t = lh ∧ refines (abstract_new n L start_tx_seq) t.
Proof.
  intros HL Hs. set (t0 := empty_tree _ _ _).
  assert (refines (abstract_new n L None) t0) as Hr.
  { split; simpl; [split_and!; simpl; [done..|lia]|constructor..| |done|lia|by left].
    intros s. unfold version_at. simpl. rewrite lookup_nil, lookup_empty.
    case_decide; constructor. }
  destruct start_tx_seq as [s|]; [|by exists t0].
  destruct (refines_commit _ _ s Hr) as (t & Ht & Hlh & Hr'); [by split; [|left]|].
  exists t. unfold st_exec. by rewrite Ht.
Qed.

Lemma recompute_new `{!NeverNull E} n L md lh :
  known L → 1 ≤ n →
  recompute 0 None (empty_tree (<[0 := L]> (replicate n [])) md lh) =
  (Ok tt, empty_tree (tree_layers lh n L) md lh).
Proof.
  intros HL Hn. pose proof (recompute_spec n [] L 0 (empty_tree (replicate n []) md lh)) as Hr.
  apply Hr; auto; simpl; try lia.
  split_and!; simpl; [by rewrite build_nil|done|]. by rewrite depth_small by lia.
Qed.

(** [new] without a first version. *)
Lemma new_run `{!NeverNull E} L lh :
  known L → ∃ t, new L lh None = Ok t ∧ t = empty_tree (tree_layers lh 1 L) None lh.
Proof.
  intros HL. eexists. split; [|done]. unfold new. destruct L as [|x L]; [done|].
  cbn [leaves layer_len AppendMerkleTree_read layers empty_tree index expect lookup
       list_lookup length res_bind Nat.eqb].
  unfold st_exec, st_bind. pose proof (recompute_new 1 (x :: L) None lh HL) as Hrc.
  cbn [replicate] in Hrc. change (<[0 := x :: L]> [[]]) with [x :: L] in Hrc.
  by rewrite Hrc by lia.
Qed.

Lemma new_refines `{!NeverNull E} L lh start_tx_seq :
  known L → seq_ok start_tx_seq →
  ∃ t, new L lh start_tx_seq = Ok t ∧ leaf_height t = lh ∧
    refines (abstract_new 1 L start_tx_seq) t.
Proof.
  intros HL Hs. destruct (refines_start 1 L None lh start_tx_seq HL Hs) as (t & Ht & Hr).
  exists t. split; [|done]. rewrite <- Ht. unfold new. destruct L as [|x L].
  - cbn [leaves layer_len AppendMerkleTree_read layers empty_tree index expect lookup
         list_lookup length res_bind Nat.eqb]. by destruct start_tx_seq.
  - cbn [leaves layer_len AppendMerkleTree_read layers empty_tree index expect lookup
         list_lookup length res_bind Nat.eqb].
    unfold st_exec, st_bind. pose proof (recompute_new 1 (x :: L) None lh HL) as Hrc.
    cbn [replicate] in Hrc. change (<[0 := x :: L]> [[]]) with [x :: L] in Hrc.
    by rewrite Hrc by lia.
Qed.

Lemma new_with_depth_refines `{!NeverNull E} L n start_tx_seq :
  known L → seq_ok start_tx_seq → 1 ≤ n →
  ∃ t, new_with_depth L n start_tx_seq = Ok t ∧ leaf_height t = 0 ∧
    refines (abstract_new n L start_tx_seq) t.
Proof.
  intros HL Hs Hn. destruct (refines_start n L (Some n) 0 start_tx_seq HL Hs) as (t & Ht & Hr).
  exists t. split; [|done]. rewrite <- Ht. unfold new_with_depth. destruct L as [|x L].
  - unfold tree_layers. rewrite depth_small by (simpl; lia).
    rewrite Nat.max_l, build_nil by lia. destruct n as [|n]; [lia|]. by destruct start_tx_seq.
  - unfold index_set. rewrite length_replicate, decide_True by lia. simpl res_bind.
    unfold st_exec, st_bind. by rewrite recompute_new.
Qed.

(** ** [HistoryTree] *)

Lemma history_reads_as lh n L v nodes layers :
  follows v (MkVersion n L) → v_leaves v ≠ [] → layers = build lh n L →
  right_edge (version_layers lh v) nodes →
  reads_as (MkHistoryTree layers (MkDeltaNodes nodes) lh) lh (v_height v) (v_leaves v).
Proof.
  intros [Hh Hg] Hne -> He. unfold version_layers in He.
  destruct (v_leaves v) as [|x0 L0] eqn:HL0; [done|]. simpl in Hh, Hg.
  pose proof (Forall2_length _ _ _ He) as Hlen. rewrite length_build in Hlen.
  assert (∀ d, d < v_height v → ∃ p, nodes !! d = Some p ∧
    is_right_edge (layer_at lh d (x0 :: L0)) p) as Hnode.
  { intros d Hd. destruct (lookup_lt_is_Some_2 nodes d) as [p Hp]; [lia|].
    exists p. split; [done|]. eapply Forall2_lookup_lr; [exact He| |exact Hp].
    by apply build_lookup. }
  split.
  - cbn. unfold DeltaNodes_height. simpl. lia.
  - intros d Hd. destruct (Hnode d Hd) as ([i x] & Hp & Hlen' & _).
    cbn. unfold DeltaNodes_layer_len, index. simpl. rewrite Hp. simpl. rewrite Hlen'.
    simpl. f_equal. lia.
  - intros d i x Hd Hx. destruct (Hnode d Hd) as ([j y] & Hp & Hlen' & Hlast). simpl in *.
    unfold DeltaNodes_get. simpl. rewrite Hp. pose proof (lookup_lt_Some _ _ _ Hx).
    rewrite (proj2 (Nat.ltb_ge _ _)) by lia. destruct (Nat.eqb_spec i j) as [->|Hij].
    + rewrite last_lookup, Hlen' in Hlast. simpl in Hlast. by rewrite Hx in Hlast; simplify_eq.
    + unfold index. rewrite build_lookup by lia. simpl.
      rewrite (grows_lookup (layer_at lh d (x0 :: L0)) _ i x); [done| |done|lia].
      eapply Forall2_lookup_lr; [apply (grows_build lh n); exact Hg|..]; apply build_lookup; lia.
  - intros d. cbn. f_equal. lia.
Qed.

(** A tree returned by [at_root_version] reads as the committed version that has
    this root. *)
Lemma at_root_version_reads a t r ht :
  refines a t → at_root_version t r = Ok ht →
  ∃ s v, version_at a s = Some v ∧ v_leaves v ≠ [] ∧ version_wf v ∧
    root_of (leaf_height t) (v_height v) (v_leaves v) = Some r ∧
    reads_as ht (leaf_height t) (v_height v) (v_leaves v).
Proof.
  intros Hr. unfold at_root_version.
  destruct (root_to_tx_seq_map t !! r) as [s|] eqn:Hs; simpl; [|done].
  destruct (r_roots _ _ Hr _ _ Hs) as ([nodes] & Hd & Hroot). rewrite Hd. simpl.
  pose proof (r_deltas _ _ Hr s) as Hds. rewrite Hd in Hds.
  inversion Hds as [v ? He Hv|]. subst. simpl in He.
  unfold DeltaNodes_height. simpl. destruct (Nat.eqb_spec (length nodes) 0); [done|].
  intros [= <-]. exists s, v.
  assert (v ∈ a_versions a) as Hin.
  { unfold version_at in Hv. case_decide; [|done]. by eapply list_elem_of_lookup_2. }
  assert (v_leaves v ≠ []) as Hne.
  { intros Hnil. unfold version_layers in He. rewrite Hnil in He.
    apply Forall2_nil_inv_l in He. by subst. }
  pose proof (r_wf _ _ Hr) as Hwf. rewrite Forall_forall in Hwf. specialize (Hwf v Hin).
  pose proof (r_follows _ _ Hr) as Hf. rewrite Forall_forall in Hf. specialize (Hf v Hin).
  split_and!; [done..| |].
  - destruct (top_layer (leaf_height t) _ _ Hne (proj2 Hwf)) as (r' & Hlast & _ & ->).
    assert (version_layers (leaf_height t) v = build (leaf_height t) (v_height v) (v_leaves v))
      as Hvl by (unfold version_layers; by destruct (v_leaves v)).
    rewrite Hvl in He. destruct (right_edge_root _ _ _ He Hlast) as [Hr' _].
    rewrite Hr' in Hroot. by simplify_eq.
  - destruct (r_now _ _ Hr) as (Hl & _ & _).
    eapply history_reads_as; [|done|exact Hl|done]. by destruct (a_now a).
Qed.
End History.
