(* ===== verification/MerklePartial.v ===== *)
(** * Trees with unknown nodes

    The flow tree of a node that has not downloaded the data: [append_subtree]
    adds the root of a subtree whose inner nodes are [null], and [fill_leaf]
    supplies a leaf later.  Such a tree is a partial view of the reference tree
    over the real leaves: every node is [null] or the reference node, and the
    nodes that the next change at the right edge needs are known. *)

From S2P Require Import Prelude Hashing MerkleProof MerkleRead AppendMerkle MerkleSpec MerkleAppend.

Section Partial.
Context {E : Type} `{HashElement E} `{!Algorithm E} `{!NeverNull E}.
Implicit Types (X U F L : list E) (t : AppendMerkleTree E).

(** ** Partial views *)

(** A node that is known is right. *)
Definition approx_node (f x : E) : Prop := x = null ∨ x = f.
Definition approx (F X : list E) : Prop := Forall2 approx_node F X.

Lemma approx_length F X : approx F X → length X = length F.
Proof. intros HF%Forall2_length. done. Qed.

Lemma approx_refl F : approx F F.
Proof. apply Forall_Forall2_diag, Forall_true. by right. Qed.

Lemma approx_known F X : approx F X → known X → X = F.
Proof.
  induction 1 as [|f x F X [Hx|Hx] _ IH]; intros HX; [done|..];
    apply Forall_cons in HX as [? ?]; [done|]. subst. f_equal. auto.
Qed.

Lemma approx_take k F X : approx F X → approx (take k F) (take k X).
Proof. apply Forall2_take. Qed.
Lemma approx_drop k F X : approx F X → approx (drop k F) (drop k X).
Proof. apply Forall2_drop. Qed.

(** The nodes of a layer that a change from leaf [s] on reads. *)
Definition edge (s : nat) (X : list E) : Prop := known (drop (2 * (s / 2)) X).

Lemma edge_mono s s' X : s ≤ s' → edge s X → edge s' X.
Proof.
  intros Hs HX. unfold edge. replace (2 * (s' / 2)) with (2 * (s / 2) + (2 * (s' / 2) - 2 * (s / 2)))
    by dlia. rewrite <- drop_drop. by apply Forall_drop.
Qed.

(** The layers [rest] are a partial view of the layers over [F], complete at
    the right edge of a change from leaf [s] on. *)
Fixpoint compatp (h s : nat) (F : list E) (rest : list (list E)) : Prop :=
  match rest with
  | [] => s ≤ 1
  | U :: rest =>
      approx (take (s / 2) (up h F)) (take (s / 2) U) ∧
      s / 2 ≤ length U ≤ s / 2 + 1 ∧ length U ≤ length (up h F) ∧
      edge (s / 2) (take (s / 2) U) ∧
      compatp (S h) (s / 2) (up h F) rest
  end.

Lemma compatp_tail h s F rest :
  compatp h s F rest → compatp (S h) (s / 2) (up h F) (tail rest).
Proof. destruct rest; simpl; [dlia|tauto]. Qed.

Lemma compatp_fits h s F X rest :
  approx F X → compatp h s F rest → next_fits s X rest.
Proof.
  intros HX%approx_length. destruct rest; simpl; [done|]. rewrite length_up, HX. tauto.
Qed.

Lemma next_layer_approx h s F X rest :
  approx F X → edge s X → compatp h s F rest →
  approx (up h F) (next_layer h s X rest) ∧ edge (s / 2) (next_layer h s X rest).
Proof.
  intros HX He Hc. unfold next_layer.
  rewrite (approx_known _ _ (approx_drop (2 * (s / 2)) _ _ HX) He), <- up_drop.
  pose proof (up_not_null h F) as HF.
  destruct rest as [|U rest]; simpl in *.
  - replace (s / 2) with 0 by dlia. simpl. split; [apply approx_refl|]. apply HF.
  - destruct Hc as (HU & Hl & Hl' & HUe & _). split.
    + rewrite <- (take_drop (s / 2) (up h F)) at 1. apply Forall2_app; [done|apply approx_refl].
    + unfold edge in *. rewrite drop_app_le by (rewrite length_take; dlia).
      apply Forall_app. split; [done|]. by apply Forall_drop.
Qed.

(** The layers of [ls] are views, and their right edge from leaf [s] is known. *)
Fixpoint edges (s : nat) (ls : list (list E)) : Prop :=
  match ls with
  | [] => True
  | X :: ls => edge s X ∧ edges (s / 2) ls
  end.

Lemma edges_mono s s' ls : s ≤ s' → edges s ls → edges s' ls.
Proof.
  revert s s'. induction ls as [|X ls IH]; intros s s' Hs; simpl; [done|].
  intros [HX Hls]. split; [by eapply edge_mono|]. eapply IH; [|done]. dlia.
Qed.

(** A node is known once its children are: the nodes of [U] are over those of
    [X]. *)
Definition sat_at (X U : list E) (j : nat) : Prop :=
  U !! j = Some null → X !! (2 * j) = Some null ∨ X !! (2 * j + 1) = Some null.

(** Every node over the leaves below [s] is known if its children are. *)
Fixpoint sat_below (s : nat) (ls : list (list E)) : Prop :=
  match ls with
  | X :: (U :: _) as rest => (∀ j, j < s / 2 → sat_at X U j) ∧ sat_below (s / 2) rest
  | _ => True
  end.
Fixpoint saturated (ls : list (list E)) : Prop :=
  match ls with
  | X :: (U :: _) as rest => (∀ j, sat_at X U j) ∧ saturated rest
  | _ => True
  end.

Lemma saturated_below s ls : saturated ls → sat_below s ls.
Proof.
  revert s. induction ls as [|X [|U ls] IH]; intros s; [done..|].
  intros [HX Hls]. split; [auto|]. by apply IH.
Qed.

Lemma sat_at_agree X X' U j :
  take (2 * j + 2) X = take (2 * j + 2) X' → sat_at X U j → sat_at X' U j.
Proof.
  intros Ht. unfold sat_at.
  assert (∀ i, i < 2 * j + 2 → X !! i = X' !! i) as Hi.
  { intros i Hi. rewrite <- (lookup_take_lt X (2 * j + 2)), Ht by done.
    by rewrite lookup_take_lt. }
  by rewrite !Hi by lia.
Qed.

Lemma sat_below_head s X X' rest :
  take s X = take s X' → sat_below s (X :: rest) → sat_below s (X' :: rest).
Proof.
  intros Ht. destruct rest as [|U rest]; [done|]. intros [HX Hr]. split; [|done].
  intros j Hj. eapply sat_at_agree; [|by apply HX].
  apply (f_equal (take (2 * j + 2))) in Ht. rewrite !take_take in Ht.
  by rewrite Nat.min_l in Ht by dlia.
Qed.

Lemma next_layer_sat h s X rest :
  s / 2 ≤ length (default [] (head rest)) → sat_below s (X :: rest) →
  (∀ j, sat_at X (next_layer h s X rest) j) ∧
  sat_below (s / 2) (next_layer h s X rest :: tail rest).
Proof.
  intros Hl Hs. unfold next_layer.
  assert (take (s / 2) (default [] (head rest)) =
    take (s / 2) (take (s / 2) (default [] (head rest)) ++ up h (drop (2 * (s / 2)) X))) as Ht.
  { by rewrite take_app_le, take_take, Nat.min_id by (rewrite length_take; lia). }
  split.
  - intros j Hj. destruct (decide (j < s / 2)) as [Hlt|Hge].
    + rewrite <- (lookup_take_lt _ (s / 2)), <- Ht, lookup_take_lt in Hj by done.
      destruct rest as [|U rest]; [done|]. by apply Hs.
    + rewrite lookup_app_r in Hj by (rewrite length_take; lia).
      pose proof (up_not_null h (drop (2 * (s / 2)) X)) as Hn. rewrite Forall_lookup in Hn.
      by apply Hn in Hj.
  - destruct rest as [|U rest]; simpl in *; [done|].
    destruct Hs as [_ Hs]. by eapply sat_below_head.
Qed.

Lemma recompute_loop_partial fuel lh below F X rest s e m :
  approx F X → edge s X → s ≤ length X → e = None ∨ e = Some (length X) →
  compatp (length below + lh) s F rest →
  m = max (S (length rest)) (depth (length X)) → m ≤ fuel → sat_below s (X :: rest) →
  ∃ ls, recompute_loop fuel lh (length below) (below ++ X :: rest) s e = Ok (below ++ X :: ls) ∧
    Forall2 approx (build (length below + lh) m F) (X :: ls) ∧ edges s (X :: ls) ∧
    saturated (X :: ls).
Proof.
  revert below F X rest s e m. induction fuel as [|fuel IH];
    intros below F X rest s e m HX HeX Hs He Hc Hm Hfuel Hsat; [lia|].
  cbn [recompute_loop]. unfold index. rewrite list_lookup_middle by done. simpl. rewrite length_app. simpl.
  destruct (_ || _) eqn:Hgo.
  - assert (1 < length X ∨ rest ≠ []) as Hgo'.
    { rewrite orb_true_iff, !Nat.ltb_lt in Hgo. destruct Hgo; [by left|right].
      intros ->. simpl in *. lia. }
    pose proof (compatp_fits _ _ _ _ _ HX Hc) as Hf.
    destruct (next_layer_approx _ _ _ _ _ HX HeX Hc) as [HY HeY].
    destruct (next_layer_sat (length below + lh) s X rest) as [HsY HsY'];
      [destruct rest; simpl in *; dlia|done|].
    pose proof (length_next_layer (length below + lh) s X rest Hs Hf) as HYl.
    destruct (recompute_layer_suffix lh below X rest s e) as (e' & -> & He'); auto.
    rewrite (layers_step X (length below + lh) rest) in Hm by done. simpl.
    destruct m as [|m]; [lia|]. injection Hm as Hm. rewrite length_up, <- HYl in Hm.
    set (Y := next_layer _ _ _ _) in *. clearbody Y.
    replace (below ++ X :: Y :: tail rest) with ((below ++ [X]) ++ Y :: tail rest)
      by by rewrite <- app_assoc.
    replace (length below + 1) with (length (below ++ [X])) by by rewrite length_app.
    assert (length (below ++ [X]) + lh = S (length below + lh)) as Hlen
      by (rewrite length_app; simpl; lia).
    destruct (IH (below ++ [X]) (up (length below + lh) F) Y (tail rest) (s / 2) e' m)
      as (ls & -> & Hls & Hed & Hsls); rewrite ?Hlen; auto using compatp_tail; [dlia|lia|].
    exists (Y :: ls). rewrite <- app_assoc. split; [done|]. rewrite Hlen in Hls.
    split; [by constructor|done].
  - rewrite orb_false_iff, !Nat.ltb_ge in Hgo. destruct rest; simpl in *; [|lia].
    rewrite depth_small in Hm by lia. subst m. exists []. split; [done|].
    split; [by repeat constructor|done].
Qed.

(** ** Changes at the right edge *)

(** [t] is a partial view, with [n] layers, of the tree over [L]; what a change
    from leaf [s] on reads is known. *)
Definition views (n : nat) (L : list E) (s : nat) (t : AppendMerkleTree E) : Prop :=
  Forall2 approx (build (leaf_height t) n L) (layers t) ∧ known L ∧
  depth (length L) ≤ n ∧ edges s (layers t) ∧ saturated (layers t).

Lemma views_later n L s s' t : s ≤ s' → views n L s t → views n L s' t.
Proof. intros ? (?&?&?&?&?). repeat split; auto. by eapply edges_mono. Qed.

Lemma views_0 n L s t :
  views n L s t → ∃ X rest, layers t = X :: rest ∧ approx L X ∧ edge s X.
Proof.
  intros (Hl & _ & Hd & He & _). pose proof (depth_pos (length L)).
  destruct n as [|n]; [lia|]. simpl in Hl. inversion Hl as [|F X Fs rest HX Hrest HF Heq].
  subst. exists X, rest. rewrite <- Heq in He. simpl in He. tauto.
Qed.

Lemma leaves_views n L s t : views n L s t → leaves t = Ok (length L).
Proof.
  intros (X & rest & Hl & HX%approx_length & _)%views_0. cbn. rewrite Hl. cbn. by rewrite HX.
Qed.

Lemma compatp_views h n s L F rest :
  s ≤ length L ≤ s + 1 → length L ≤ length F → take s L = take s F →
  depth (length L) ≤ S n → Forall2 approx (build (S h) n (up h L)) rest →
  edges (s / 2) rest → compatp h s F rest.
Proof.
  revert h s L F rest. induction n as [|n IH]; intros h s L F rest Hs HLF Ht Hd Ha He.
  - inversion Ha; subst. simpl.
    destruct (decide (length L ≤ 1)); [lia|]. rewrite depth_up in Hd by lia.
    pose proof (depth_pos ((length L + 1) / 2)). lia.
  - simpl in Ha. inversion Ha as [|? U ? rest' HU Hrest']; subst. simpl in *.
    pose proof (approx_length _ _ HU) as HUl. rewrite length_up in HUl. destruct He as [He He'].
    assert (take (s / 2) (up h L) = take (s / 2) (up h F)) as Hup by by apply up_take_agree.
    rewrite <- Hup, length_up. split; [by apply approx_take|]. split; [dlia|]. split; [dlia|].
    split.
    { unfold edge in *. rewrite skipn_firstn_comm. by apply Forall_take. }
    apply (IH _ _ (up h L)); rewrite ?length_up; auto; [dlia|dlia|].
    destruct (decide (length L ≤ 1)).
    + rewrite depth_small by dlia. lia.
    + rewrite (depth_up (length L)) in Hd by lia. lia.
Qed.

Lemma recompute_views n L s t F X X0 rest :
  views n L s t → layers t = X0 :: rest →
  s ≤ length L ≤ s + 1 → length L ≤ length F → take s L = take s F →
  approx F X → edge s X → known F → take s X0 = take s X →
  ∃ t', recompute s None (set_layers (<[0 := X]> (layers t)) t) = (Ok tt, t') ∧
    views (max n (depth (length F))) F s t'.
Proof.
  intros (Ha & HL & Hd & He & Hsat) Hl Hs HLF Ht HX HeX HF Ht0. rewrite Hl in Ha, He, Hsat |- *.
  pose proof (depth_pos (length L)). pose proof (approx_length _ _ HX) as HXl.
  destruct n as [|n]; [lia|]. simpl in Ha. inversion Ha as [|? ? ? ? HX0 Hrest]; subst.
  pose proof (Forall2_length _ _ _ Hrest) as Hlen. rewrite length_build in Hlen.
  destruct (recompute_loop_partial (recompute_fuel (X :: rest)) (leaf_height t) [] F X rest s None
    (max (S n) (depth (length F)))) as (ls & Hrun & Hls & Hed & Hsls); auto; [lia|..].
  - eapply (compatp_views _ n); eauto. by destruct He.
  - unfold recompute_fuel. simpl. pose proof (depth_le (length F)). lia.
  - eapply sat_below_head; [done|]. by apply saturated_below.
  - exists (set_layers (X :: ls) t). split; [by rewrite (recompute_run _ _ _ (X :: ls))|].
    split; [done|]. split; [done|]. split; [lia|done].
Qed.

Lemma append_list_views n L xs t :
  views n L (length L) t → known xs →
  ∃ t', append_list xs t = (Ok tt, t') ∧
    views (max n (depth (length (L ++ xs)))) (L ++ xs) (length L) t'.
Proof.
  intros Hv Hxs. destruct (views_0 _ _ _ _ Hv) as (X & rest & Hl & HX & He).
  pose proof (approx_length _ _ HX) as HXl.
  assert (layers t !! 0 = Some X) as H0 by by rewrite Hl.
  unfold append_list, st_bind at 1, st_reads. rewrite (leaves_views _ _ _ _ Hv).
  unfold st_bind. rewrite (push_layer0_run _ X) by done. unfold recompute_after_append.
  eapply recompute_views; eauto; rewrite ?length_app; try lia.
  - by rewrite take_app_le, firstn_all by lia.
  - apply Forall2_app; [done|apply approx_refl].
  - unfold edge in *. rewrite drop_app_le by dlia. by apply Forall_app.
  - destruct Hv as (_ & ? & _). by apply Forall_app.
  - by rewrite take_app_le by lia.
Qed.

Lemma update_last_views n L x t :
  views n L (length L - 1) t → x ≠ null →
  ∃ t', update_last x t = (Ok tt, t') ∧
    views (max n (depth (length (replace_last x L)))) (replace_last x L) (length L - 1) t'.
Proof.
  intros Hv Hx. destruct (views_0 _ _ _ _ Hv) as (X & rest & Hl & HX & He).
  pose proof (approx_length _ _ HX) as HXl. pose proof Hv as (_ & HL & _).
  unfold update_last, st_bind, st_get, st_lift, st_put, st_reads, index. rewrite Hl. cbn [expect lookup list_lookup].
  fold (replace_last x X). rewrite <- Hl, leaves_set_layer0 by by rewrite Hl.
  rewrite length_replace_last. unfold checked_sub. rewrite decide_True by lia.
  replace (max 1 (length X) - 1) with (length L - 1) by lia.
  unfold recompute_after_append. eapply recompute_views; eauto;
    rewrite ?length_replace_last; try lia.
  - destruct L as [|y L]; [done|]. unfold replace_last. by rewrite take_insert_ge by lia.
  - destruct HX as [|f y L X Hy HX]; simpl; [repeat constructor; by right|].
    rewrite Nat.sub_0_r. replace (length X) with (length L) by (symmetry; by eapply approx_length).
    destruct (length L); simpl; constructor; auto; [by right|].
    apply Forall2_insert; [done|by right].
  - unfold edge, replace_last in *. destruct X as [|y X].
    + simpl. rewrite <- HXl. by apply Forall_singleton.
    + rewrite drop_insert_ge by (rewrite <- HXl; dlia). by apply Forall_insert.
  - destruct L; [by apply Forall_singleton|]. by apply Forall_insert.
  - destruct X as [|y X]; [by rewrite <- HXl|]. unfold replace_last.
    by rewrite take_insert_ge by lia.
Qed.

Lemma append_views n L x t :
  views n L (length L) t → x ≠ null →
  ∃ t', append x t = (Ok tt, t') ∧
    views (max n (depth (length (L ++ [x])))) (L ++ [x]) (length L) t'.
Proof.
  intros Hv Hx. destruct (append_list_views n L [x] t Hv) as (t' & Hrun & Hv');
    [by apply Forall_singleton|].
  exists t'. split; [|done]. rewrite <- Hrun.
  destruct (views_0 _ _ _ _ Hv) as (X & rest & Hl & HX & _).
  unfold append, append_list, st_bind, st_reads, st_lift.
  rewrite (push_layer0_run _ X) by by rewrite Hl.
  rewrite leaves_set_layer0 by by rewrite Hl. rewrite (leaves_views _ _ _ _ Hv).
  unfold checked_sub. rewrite length_app, (approx_length _ _ HX), decide_True by (simpl; lia).
  by rewrite Nat.add_sub.
Qed.

(** ** [append_subtree] *)

(** The layers after [append_subtree_inner] of a subtree with [k + 1] layers. *)
Fixpoint push_sub (k : nat) (r : E) (ls : list (list E)) : list (list E) :=
  let X := default [] (head ls) in
  match k with
  | O => (X ++ [r]) :: tail ls
  | S k' => (X ++ replicate (2 ^ k) null) :: push_sub k' r (tail ls)
  end.

Definition push_subtree_root (d : nat) (r : E) : st (AppendMerkleTree E) unit :=
  let! t := st_get in
  let ls := before_extend_layer (d - 1) (layers t) in
  let! layer := st_lift (index ls (d - 1)) in
  st_put (set_layers (<[d - 1 := layer ++ [r]]> ls) t).

Lemma before_extend_middle below (ls : list (list E)) :
  before_extend_layer (length below) (below ++ ls) =
  below ++ default [] (head ls) :: tail ls.
Proof.
  unfold before_extend_layer. rewrite length_app.
  destruct ls as [|X ls]; simpl.
  - rewrite (proj2 (Nat.eqb_eq _ _)) by lia. by rewrite app_nil_r.
  - by rewrite (proj2 (Nat.eqb_neq _ _)) by lia.
Qed.

Lemma push_layers_run k below ls r t :
  layers t = below ++ ls → k < 64 →
  (st_for (seq (length below) k) (push_null_layer (length below + k + 1));;
   push_subtree_root (length below + k + 1) r) t =
  (Ok tt, set_layers (below ++ push_sub k r ls) t).
Proof.
  revert below ls t. induction k as [|k IH]; intros below ls t Hl Hk; simpl.
  - unfold push_subtree_root, st_bind, st_ret, st_get, st_lift, st_put.
    rewrite Nat.add_0_r, Nat.add_sub, Hl, before_extend_middle. unfold index.
    rewrite list_lookup_middle by done. simpl.
    by rewrite insert_app_r_alt, Nat.sub_diag by done.
  - set (X := default [] (head ls) ++ replicate (2 ^ S k) null).
    pose proof (IH (below ++ [X]) (tail ls) (set_layers (below ++ X :: tail ls) t)) as HIH.
    rewrite <- !app_assoc, length_app in HIH. simpl in HIH.
    replace (length below + 1 + k + 1) with (length below + S k + 1) in HIH by lia.
    rewrite Nat.add_1_r in HIH. etransitivity; [|apply HIH; [done|lia]].
    unfold st_bind at 1 2. unfold push_null_layer at 1. unfold st_bind at 1 2 3, st_get at 1, st_lift at 1 2, st_put at 1.
    replace (length below + S k + 1 - 1 - length below) with (S k) by lia.
    unfold shl1. rewrite (proj2 (Nat.ltb_lt _ _)) by lia.
    rewrite Hl, before_extend_middle. unfold index. rewrite list_lookup_middle by done. simpl.
    by rewrite insert_app_r_alt, Nat.sub_diag by done.
Qed.

Lemma parent_update_nulls k h m :
  parent_update k h (replicate (2 * m) (null : E)) = (λ i, (i, null)) <$> seq k m.
Proof.
  revert k. induction m as [|m IH]; intros k; [done|].
  replace (2 * S m) with (S (S (2 * m))) by lia. simpl. rewrite IH.
  unfold pair_parent, is_null. by rewrite bool_decide_true.
Qed.

Lemma store_nulls U idxs last_changed :
  Forall (λ i, i < length U) idxs →
  res_foldl store_parent (U, last_changed) ((λ i, (i, null)) <$> idxs) = Ok (U, last_changed).
Proof.
  induction 1 as [|i idxs Hi _ IH]; simpl; [done|].
  rewrite (proj2 (Nat.compare_lt_iff _ _)) by done.
  unfold is_null. rewrite bool_decide_true by done. apply IH.
Qed.

(** The unknown nodes of a subtree leave the layer above as it is. *)
Lemma recompute_layer_nulls lh below X k U rest :
  length X mod 2 = 0 → length X / 2 + 2 ^ k ≤ length U →
  let ls := below ++ (X ++ replicate (2 ^ S k) null) :: U :: rest in
  recompute_layer lh (length below) ls (length X) None = Ok (ls, None).
Proof.
  intros Hx HU. cbv zeta. unfold recompute_layer, index. rewrite list_lookup_middle by done.
  cbn [expect res_bind default]. rewrite Hx. cbn [Nat.eqb]. rewrite Nat.eqb_refl, andb_false_r.
  unfold slice. rewrite length_app, decide_True by lia. cbn [res_bind].
  rewrite drop_app_length, length_replicate, firstn_all2 by (rewrite length_replicate; lia).
  rewrite Nat.pow_succ_r', parent_update_nulls.
  pose proof (Nat.pow_nonzero 2 k ltac:(lia)).
  destruct (2 ^ k) as [|m] eqn:Hm; [done|]. rewrite <- Hm in *. clear Hm m.
  destruct ((λ i, (i, null)) <$> seq (length X / 2) (2 ^ k)) eqn:Hups.
  { apply (f_equal length) in Hups. rewrite length_fmap, length_seq in Hups. simpl in Hups. lia. }
  rewrite <- Hups. unfold before_extend_layer.
  rewrite length_app, (proj2 (Nat.eqb_neq _ _)) by (simpl; lia).
  rewrite lookup_app_r by lia. replace (length below + 1 - length below) with 1 by lia. simpl.
  rewrite store_nulls by (apply Forall_forall; intros i Hi%elem_of_seq; lia). simpl.
  rewrite list_insert_id; [done|]. rewrite lookup_app_r by lia.
  by replace (length below + 1 - length below) with 1 by lia.
Qed.

Lemma up_app h F G : length F mod 2 = 0 → up h (F ++ G) = up h F ++ up h G.
Proof.
  induction F as [|x|x y F IH] using list_pair_ind; intros HF; [done|done|].
  simpl. rewrite IH; [done|]. simpl in HF. dlia.
Qed.

Lemma head_view h n F ls :
  Forall2 approx (build h n F) ls → depth (length F) ≤ n ∨ F = [] →
  approx F (default [] (head ls)).
Proof.
  intros Ha Hd. pose proof (depth_pos (length F)).
  destruct n as [|n]; inversion Ha; subst; simpl; [|done].
  destruct Hd as [?| ->]; [lia|constructor].
Qed.

Lemma push_sub_head k r ls :
  push_sub k r ls =
  (default [] (head ls) ++ if k is O then [r] else replicate (2 ^ k) null) ::
  (if k is S k' then push_sub k' r (tail ls) else tail ls).
Proof. by destruct k. Qed.

Lemma tail_view h n F ls :
  Forall2 approx (build h n F) ls → Forall2 approx (build (S h) (n - 1) (up h F)) (tail ls).
Proof.
  intros Ha. destruct n as [|n]; inversion Ha; subst; simpl; [done|]. by rewrite Nat.sub_0_r.
Qed.

Lemma depth_tail h n F :
  length F ≠ 1 → depth (length F) ≤ n ∨ F = [] →
  depth (length (up h F)) ≤ n - 1 ∨ up h F = [].
Proof.
  intros H1 Hd. destruct F as [|x [|y F]]; [by right|done|]. left.
  destruct Hd as [Hd|]; [|done]. rewrite length_up.
  rewrite depth_up in Hd by (simpl; lia). lia.
Qed.

Lemma edges_tail s ls : edges s ls → edges (s / 2) (tail ls).
Proof. by destruct ls; simpl; [|intros [_ ?]]. Qed.
Lemma saturated_tail ls : saturated ls → saturated (tail ls).
Proof. by destruct ls as [|X [|U ls]]; simpl; [..|intros [_ ?]]. Qed.

(** The case of a single leaf. *)
Lemma recompute_subtree_leaf fuel lh below F r ls n :
  r ≠ null → Forall2 approx (build (length below + lh) n F) ls → edges (length F) ls →
  saturated ls → depth (length F) ≤ n ∨ F = [] →
  max (max n 1) (depth (length F + 1)) ≤ fuel →
  ∃ tl, recompute_loop fuel lh (length below) (below ++ push_sub 0 r ls) (length F) None =
      Ok (below ++ default [] (head (push_sub 0 r ls)) :: tl) ∧
    let ls' := default [] (head (push_sub 0 r ls)) :: tl in
    Forall2 approx (build (length below + lh) (max (max n 1) (depth (length F + 1))) (F ++ [r])) ls' ∧
    edges (length F + 1) ls' ∧ saturated ls'.
Proof.
  intros Hr Ha He Hs Hd Hf. pose proof (head_view _ _ _ _ Ha Hd) as HX. simpl.
  pose proof (Forall2_length _ _ _ Ha) as Hn. rewrite length_build in Hn.
  pose proof (approx_length _ _ HX) as HXl. pose proof (depth_pos (length F)).
  set (X := default [] (head ls)) in *.
  destruct (recompute_loop_partial fuel lh below (F ++ [r]) (X ++ [r]) (tail ls) (length F) None
    (max (max n 1) (depth (length F + 1)))) as (tl & Hrun & Ha' & He' & Hs'); auto.
  - apply Forall2_app; [done|apply approx_refl].
  - unfold edge. rewrite drop_app_le by dlia. apply Forall_app.
    split; [|by apply Forall_singleton].
    subst X. destruct ls; simpl in *; [by rewrite drop_nil|apply He].
  - rewrite length_app. lia.
  - destruct (decide (n = 0)) as [->|Hn0].
    + inversion Ha; subst. simpl. destruct Hd as [?| ->]; [lia|done || simpl; lia].
    + eapply (compatp_views _ (n - 1) _ F); [lia|rewrite length_app; lia| | |by apply tail_view|by apply edges_tail].
      * by rewrite take_app_le, firstn_all by lia.
      * destruct Hd as [?| ->]; [lia|]. simpl. rewrite depth_small; lia.
  - rewrite length_app, HXl. simpl. destruct ls; simpl in *; lia.
  - subst X. destruct ls as [|X ls]; [done|]. simpl in *.
    apply (sat_below_head _ X); [by rewrite take_app_le by lia|]. by apply saturated_below.
  - exists tl. split; [done|]. split; [done|]. split; [|done]. apply (edges_mono (length F) _ ((X ++ [r]) :: tl)); [lia|done].
Qed.

Lemma recompute_loop_nulls fuel lh below X k r ls :
  length X mod 2 = 0 → length (default [] (head ls)) = length X / 2 →
  let ls' := below ++ (X ++ replicate (2 ^ S k) null) :: push_sub k r ls in
  recompute_loop (S fuel) lh (length below) ls' (length X) None =
  recompute_loop fuel lh (S (length below)) ls' (length X / 2) None.
Proof.
  intros Hx Hl. cbv zeta. cbn [recompute_loop].
  assert (push_sub k r ls = default [] (head (push_sub k r ls)) :: tail (push_sub k r ls)) as ->
    by by destruct k.
  unfold index. rewrite list_lookup_middle by done. cbn [expect res_bind].
  rewrite !length_app. cbn [length].
  rewrite (proj2 (Nat.ltb_lt (length below) _)), orb_true_r by lia.
  rewrite recompute_layer_nulls; [|done|].
  - cbn [res_bind]. by rewrite Nat.add_1_r.
  - pose proof (Nat.pow_nonzero 2 k ltac:(lia)). rewrite push_sub_head. simpl.
    rewrite length_app, Hl. destruct k; simpl; [change (2 ^ 0) with 1|rewrite length_replicate]; lia.
Qed.

(** Nothing is missing over the unknown nodes of a subtree. *)
Lemma sat_nulls X U V m :
  length X mod 2 = 0 → length U = length X / 2 → length V ≤ m →
  (∀ j, j < length X / 2 → sat_at X U j) →
  ∀ j, sat_at (X ++ replicate (2 * m) null) (U ++ V) j.
Proof.
  intros Hx HU HV Hs j Hj. destruct (decide (j < length X / 2)) as [Hlt|Hge].
  - rewrite lookup_app_l in Hj by lia. rewrite !lookup_app_l by dlia. by apply Hs.
  - left. pose proof (lookup_lt_Some _ _ _ Hj) as Hlen. rewrite length_app in Hlen.
    rewrite lookup_app_r by dlia. apply lookup_replicate_2. dlia.
Qed.

Lemma approx_nulls F : approx F (replicate (length F) null).
Proof. induction F; simpl; constructor; [by left|done]. Qed.

Lemma recompute_subtree k fuel lh below F G r ls n :
  length F mod 2 ^ k = 0 → length G = 2 ^ k → layer_at (length below + lh) k G = [r] → r ≠ null →
  Forall2 approx (build (length below + lh) n F) ls → edges (length F) ls → saturated ls →
  depth (length F) ≤ n ∨ F = [] → max (max n (S k)) (depth (length F + 2 ^ k)) ≤ fuel →
  ∃ tl, recompute_loop fuel lh (length below) (below ++ push_sub k r ls) (length F) None =
      Ok (below ++ default [] (head (push_sub k r ls)) :: tl) ∧
    let ls' := default [] (head (push_sub k r ls)) :: tl in
    Forall2 approx (build (length below + lh) (max (max n (S k)) (depth (length F + 2 ^ k)))
      (F ++ G)) ls' ∧
    edges (length F + 2 ^ k) ls' ∧ saturated ls'.
Proof.
  revert fuel below F G ls n.
  induction k as [|k IH]; intros fuel below F G ls n HF HG Hr Hr0 Ha He Hs Hd Hfuel.
  { simpl in Hr. subst G. change (2 ^ 0) with 1. by apply recompute_subtree_leaf. }
  set (h := length below + lh) in *.
  pose proof (head_view _ _ _ _ Ha Hd) as HX. pose proof (approx_length _ _ HX) as HXl.
  pose proof (Nat.pow_nonzero 2 k ltac:(lia)) as Hpow. rewrite Nat.pow_succ_r' in HF, HG, Hfuel |- *.
  assert (length F mod 2 = 0 ∧ (length F / 2) mod 2 ^ k = 0) as [HF2 HF'].
  { apply Nat.Div0.mod_divides in HF as [c Hc]. rewrite Hc, <- Nat.mul_assoc. split; [dlia|].
    rewrite Nat.mul_comm, Nat.div_mul, Nat.mul_comm by lia. apply Nat.Div0.mod_mul. }
  assert (depth (length F + 2 * 2 ^ k) = S (depth (length F / 2 + 2 ^ k))) as Hdep
    by (rewrite depth_up by lia; do 2 f_equal; dlia).
  pose proof (depth_tail h n F ltac:(dlia) Hd) as Hd'.
  pose proof (head_view _ _ _ _ (tail_view _ _ _ _ Ha) Hd') as HU.
  assert (length (up h F) = length F / 2) as HFup by (rewrite length_up; dlia).
  pose proof (approx_length _ _ HU) as HUl. rewrite HFup in HUl.
  destruct fuel as [|fuel]; [lia|].
  set (X' := default [] (head ls) ++ replicate (2 ^ S k) null).
  assert (length (below ++ [X']) + lh = S h) as Hlen by (rewrite length_app; simpl; lia).
  destruct (IH fuel (below ++ [X']) (up h F) (up h G) (tail ls) (n - 1))
    as (tl & Hrun & Ha' & He' & Hs'); rewrite ?Hlen, ?HFup; auto using tail_view, edges_tail, saturated_tail.
  { rewrite length_up. dlia. }
  { by rewrite <- HFup. }
  { lia. }
  rewrite Hlen, HFup, <- up_app in * by done.
  rewrite <- !app_assoc, length_app, Nat.add_1_r in Hrun. simpl in Hrun.
  exists (default [] (head (push_sub k r (tail ls))) :: tl). split.
  { change (push_sub (S k) r ls) with (X' :: push_sub k r (tail ls)).
    rewrite <- HXl. subst X'. rewrite recompute_loop_nulls by (rewrite HXl; lia || done).
    rewrite HXl. apply Hrun. }
  change (default [] (head (push_sub (S k) r ls))) with X'. cbv zeta.
  replace (max (max n (S (S k))) (depth (length F + 2 * 2 ^ k)))
    with (S (max (max (n - 1) (S k)) (depth (length F / 2 + 2 ^ k)))) by lia.
  split; [|split].
  - constructor; [|apply Ha']. apply Forall2_app; [done|].
    rewrite Nat.pow_succ_r', <- HG. apply approx_nulls.
  - split; [|replace ((length F + 2 * 2 ^ k) / 2) with (length F / 2 + 2 ^ k) by dlia; apply He'].
    unfold edge. rewrite drop_ge; [done|]. subst X'.
    rewrite length_app, length_replicate, Nat.pow_succ_r'. dlia.
  - split; [|apply Hs']. subst X'. rewrite Nat.pow_succ_r', push_sub_head. simpl.
    apply sat_nulls; rewrite ?HXl; auto; [destruct k; rewrite ?length_replicate; simpl; lia|].
    intros j Hj. destruct ls as [|X [|U ls]]; simpl in *; [lia|lia|]. apply Hs.
Qed.

Lemma length_push_sub k r ls : length (push_sub k r ls) = max (length ls) (S k).
Proof.
  revert ls. induction k as [|k IH]; intros ls; simpl; [destruct ls; simpl; lia|].
  rewrite IH. destruct ls; simpl; lia.
Qed.

Lemma append_subtree_inner_run n L s d r t :
  views n L s t → 1 ≤ d ≤ 64 → length L mod 2 ^ (d - 1) = 0 →
  append_subtree_inner d r t = (Ok tt, set_layers (push_sub (d - 1) r (layers t)) t).
Proof.
  intros Hv Hd Hal.
  pose proof (push_layers_run (d - 1) [] (layers t) r t eq_refl ltac:(lia)) as Hpush.
  cbn [length] in Hpush. replace (0 + (d - 1) + 1) with d in Hpush by lia.
  unfold append_subtree_inner. rewrite (proj2 (Nat.eqb_neq d 0)) by lia.
  unfold st_bind at 1, st_reads. rewrite (leaves_views _ _ _ _ Hv).
  unfold st_bind at 1, st_lift at 1, shl1. rewrite (proj2 (Nat.ltb_lt (d - 1) 64)), Hal by lia.
  etransitivity; [|exact Hpush]. reflexivity.
Qed.

Lemma append_subtree_views n L d G r t :
  views n L (length L) t → 1 ≤ d ≤ 64 → length L mod 2 ^ (d - 1) = 0 →
  length G = 2 ^ (d - 1) → known G → layer_at (leaf_height t) (d - 1) G = [r] →
  ∃ t', append_subtree d r t = (Ok tt, t') ∧
    views (max (max n d) (depth (length (L ++ G)))) (L ++ G) (length (L ++ G)) t'.
Proof.
  intros Hv Hd Hal HG HGk Hr. pose proof Hv as (Ha & HL & Hn & He & Hs).
  assert (r ≠ null) as Hr0.
  { pose proof (layer_at_not_null (leaf_height t) (d - 1) G HGk) as Hk. rewrite Hr in Hk.
    by rewrite Forall_singleton in Hk. }
  destruct (recompute_subtree (d - 1) (recompute_fuel (push_sub (d - 1) r (layers t)))
    (leaf_height t) [] L G r (layers t) n) as (tl & Hrun & Ha' & He' & Hs'); auto.
  { pose proof (Forall2_length _ _ _ Ha) as Hlen. rewrite length_build in Hlen.
    unfold recompute_fuel. rewrite length_push_sub.
    destruct (views_0 _ _ _ _ Hv) as (X & rest & Hl & HX%approx_length & _).
    assert (length (default [] (push_sub (d - 1) r (layers t) !! 0)) = length L + 2 ^ (d - 1)) as ->.
    { rewrite push_sub_head, Hl. simpl. rewrite length_app, HX. f_equal.
      destruct (d - 1); simpl; [done|]. by rewrite length_replicate. }
    pose proof (depth_le (length L + 2 ^ (d - 1))). lia. }
  replace (S (d - 1)) with d in * by lia. rewrite length_app, HG.
  exists (set_layers (default [] (head (push_sub (d - 1) r (layers t))) :: tl) t).
  split; [|repeat split; try done; [by apply Forall_app|rewrite length_app, HG; lia|apply He'..]].
  unfold append_subtree, st_bind at 1, st_reads. rewrite (leaves_views _ _ _ _ Hv).
  unfold st_bind. rewrite (append_subtree_inner_run n L (length L)) by done.
  unfold recompute_after_append. erewrite recompute_run; [done|]. apply Hrun.
Qed.

(** A subtree that does not fit the leaf count is refused. *)
Lemma append_subtree_misaligned n L s d r t :
  views n L s t → d ≤ 64 → d = 0 ∨ length L mod 2 ^ (d - 1) ≠ 0 →
  ∃ msg, append_subtree d r t = (Err msg, t).
Proof.
  intros Hv Hd Hbad. unfold append_subtree, st_bind at 1, st_reads.
  rewrite (leaves_views _ _ _ _ Hv). unfold append_subtree_inner.
  destruct (Nat.eqb_spec d 0) as [->|Hd0]; [by eexists|].
  unfold st_bind at 1 2, st_reads. rewrite (leaves_views _ _ _ _ Hv).
  unfold st_bind at 1, st_lift at 1, shl1.
  rewrite (proj2 (Nat.ltb_lt (d - 1) 64)), (proj2 (Nat.eqb_neq _ 0)) by (tauto || lia).
  by eexists.
Qed.

End Partial.
