(* ===== verification/MerkleFill.v ===== *)
(** * Filling in the leaves of a partial tree

    [fill_leaf] supplies a leaf of a subtree whose root was appended before.  It
    keeps the partial view, adds knowledge only, and computes every node whose
    children became known; when all the leaves are filled the tree is the
    reference tree. *)

From S2P Require Import Prelude Hashing MerkleProof MerkleRead AppendMerkle MerkleSpec MerkleAppend MerklePartial.

Section Fill.
Context {E : Type} `{HashElement E} `{!Algorithm E} `{!NeverNull E}.
Implicit Types (X U F L P W : list E) (t : AppendMerkleTree E).

(** ** Parents of partly known nodes *)

(** The parents computed from a partly known layer. *)
Fixpoint upn (h : nat) (C : list E) : list E :=
  match C with
  | l :: r :: C => pair_parent l r :: upn h C
  | [r] => [single_parent r h]
  | [] => []
  end.

Lemma length_upn h C : length (upn h C) = (length C + 1) / 2.
Proof.
  induction C as [| |x y C IH] using list_pair_ind; [done..|]. simpl. rewrite IH. dlia.
Qed.

Lemma parent_update_upn k h C :
  parent_update k h C = zip (seq k (length (upn h C))) (upn h C).
Proof.
  revert k. induction C as [| |x y C IH] using list_pair_ind; intros k; [done..|].
  simpl. by rewrite IH.
Qed.

Lemma upn_drop h k C : drop k (upn h C) = upn h (drop (2 * k) C).
Proof.
  revert k. induction C as [|x|x y C IH] using list_pair_ind; intros [|k]; [done| |done| |done|];
    replace (2 * S k) with (S (S (2 * k))) by lia; simpl; rewrite ?drop_nil; auto.
Qed.

Lemma upn_take h k C : take k (upn h C) = upn h (take (2 * k) C).
Proof.
  revert k. induction C as [|x|x y C IH] using list_pair_ind; intros [|k]; [done| |done| |done|];
    replace (2 * S k) with (S (S (2 * k))) by lia; simpl; rewrite ?take_nil; auto.
  by rewrite IH.
Qed.

Lemma pair_parent_cases (l r : E) :
  (l = null ∨ r = null) ∧ pair_parent l r = null ∨
  l ≠ null ∧ r ≠ null ∧ pair_parent l r = parent l r.
Proof.
  unfold pair_parent, is_null. repeat case_bool_decide; simpl; auto.
Qed.

Lemma upn_approx h F X : approx F X → approx (up h F) (upn h X).
Proof.
  revert X. induction F as [|f|f g F IH] using list_pair_ind; intros X HX.
  - inversion HX. constructor.
  - inversion HX as [|? x ? ? Hx HX']; subst. inversion HX'; subst. simpl.
    constructor; [|constructor]. unfold single_parent, is_null. case_bool_decide; [by left|right].
    by destruct Hx as [| ->].
  - inversion HX as [|? x ? X' Hx HX']; subst. inversion HX' as [|? y ? X'' Hy HX'']; subst.
    simpl. constructor; [|by apply IH].
    destruct (pair_parent_cases x y) as [[_ ->]|(? & ? & ->)]; [by left|right].
    by destruct Hx as [| ->], Hy as [| ->].
Qed.

Lemma upn_sat h X j : sat_at X (upn h X) j.
Proof.
  revert j. induction X as [|x|x y X IH] using list_pair_ind; intros j Hj; [done|..].
  - destruct j; [|done]. left. simpl in *. injection Hj as Hj. unfold single_parent, is_null in Hj.
    case_bool_decide; [by subst|]. by apply parent_not_null in Hj.
  - destruct j as [|j].
    + injection Hj as Hj. destruct (pair_parent_cases x y) as [[Hn _]|(_ & _ & Hp)].
      * simpl. destruct Hn as [-> | ->]; auto.
      * rewrite Hp in Hj. by apply parent_not_null in Hj.
    + replace (2 * S j) with (S (S (2 * j))) by lia. by apply IH.
Qed.

Lemma upn_null h X j :
  X !! (2 * j) = Some null ∨ X !! (2 * j + 1) = Some null → upn h X !! j = Some null.
Proof.
  revert j. induction X as [|x|x y X IH] using list_pair_ind; intros j Hj.
  - by destruct Hj.
  - destruct j as [|j]; [|by replace (2 * S j) with (S (S (2 * j))) in Hj by lia; destruct Hj].
    destruct Hj as [[= ->]|?]; [|done]. simpl. unfold single_parent, is_null.
    by rewrite bool_decide_true.
  - destruct j as [|j].
    + simpl in *. destruct (pair_parent_cases x y) as [[_ ->]|(? & ? & _)]; [done|].
      destruct Hj as [[= ?]|[= ?]]; done.
    + replace (2 * S j) with (S (S (2 * j))) in Hj by lia. by apply IH.
Qed.

(** ** Storing parents that agree with the view *)

(** [Y] knows what [X] knows. *)
Definition more (X Y : list E) : Prop := Forall2 (λ x y, x ≠ null → y = x) X Y.

Lemma more_refl X : more X X.
Proof. apply Forall_Forall2_diag, Forall_true. auto. Qed.

Lemma store_view_one W U a p lc :
  approx W U → a < length U → p = null ∨ W !! a = Some p →
  ∃ U' lc', store_parent (U, lc) (a, p) = Ok (U', lc') ∧ approx W U' ∧
    (p ≠ null → U' !! a = Some p) ∧ (∀ j, j ≠ a → U' !! j = U !! j) ∧
    (U' = U ∨ U' = <[a := p]> U ∧ p ≠ null) ∧ (lc' = lc ∨ lc' = Some a).
Proof.
  intros HW Ha Hp. unfold store_parent. rewrite (proj2 (Nat.compare_lt_iff _ _)) by done.
  unfold is_null at 1. case_bool_decide as Hn.
  { exists U, lc. repeat split; auto; done. }
  destruct Hp as [|Hp]; [done|]. unfold index.
  destruct (lookup_lt_is_Some_2 U a Ha) as [u Hu]. rewrite Hu. simpl.
  assert (u = null ∨ u = p) as Hup.
  { destruct (Forall2_lookup_r _ _ _ _ _ HW Hu) as (w & Hw & Hwu).
    rewrite Hp in Hw. injection Hw as <-. apply Hwu. }
  replace (negb (is_null u) && negb (bool_decide (u = p)) && negb (a =? length U - 1)) with false.
  - exists (<[a := p]> U), (Some a). repeat split; auto.
    + assert (<[a := p]> W = W) as <- by by apply list_insert_id.
      apply Forall2_insert; [done|by right].
    + intros _. by apply list_lookup_insert_eq.
    + intros j Hj. by rewrite list_lookup_insert_ne.
  - destruct Hup as [-> | ->].
    + unfold is_null. by rewrite bool_decide_true.
    + by rewrite (bool_decide_true (p = p)), andb_false_r.
Qed.

Lemma store_view W P U a lc :
  approx W U → a + length P ≤ length U → (∀ i p, P !! i = Some p → p = null ∨ W !! (a + i) = Some p) →
  ∃ U' lc', res_foldl store_parent (U, lc) (zip (seq a (length P)) P) = Ok (U', lc') ∧
    approx W U' ∧
    (∀ i p, P !! i = Some p → p ≠ null → U' !! (a + i) = Some p) ∧
    (∀ j, U' !! j = U !! j ∨ ∃ p, a ≤ j ∧ P !! (j - a) = Some p ∧ p ≠ null ∧ U' !! j = Some p) ∧
    (lc' = lc ∨ ∃ j, lc' = Some j ∧ a ≤ j < a + length P).
Proof.
  revert U a lc. induction P as [|p P IH]; intros U a lc HW Hl HP.
  { exists U, lc. split; [done|]. split; [done|]. split; [done|]. auto. }
  simpl in Hl. destruct (store_view_one W U a p lc HW) as (U1 & lc1 & Hrun & HW1 & Hp1 & Hne1 & Hc1 & Hlc1).
  { lia. }
  { rewrite <- (Nat.add_0_r a). by apply HP. }
  assert (length U1 = length U) as Hl1 by by destruct Hc1 as [-> |[-> _]]; rewrite ?length_insert.
  destruct (IH U1 (S a) lc1 HW1) as (U' & lc' & Hrun' & HW' & Hp' & Hj' & Hlc'); [lia|..].
  { intros i q Hq. rewrite Nat.add_succ_comm. by apply HP. }
  exists U', lc'. cbn [seq length zip zip_with res_foldl]. rewrite Hrun. cbn [res_bind]. split; [done|].
  split; [done|]. split; [|split].
  - intros [|i] q Hq Hqn; simpl in Hq.
    + injection Hq as <-. rewrite Nat.add_0_r. destruct (Hj' a) as [->|(? & ? & _)]; [auto|lia].
    + rewrite <- Nat.add_succ_comm. by apply Hp'.
  - intros j. destruct (Hj' j) as [Hj|(q & Hle & Hq & Hqn & Hj)].
    + rewrite Hj. destruct (decide (j = a)) as [->|Hja]; [|left; auto].
      destruct Hc1 as [-> |[-> Hpn]]; [by left|right]. exists p. rewrite Nat.sub_diag.
      split; [lia|]. split; [done|]. split; [done|]. apply list_lookup_insert_eq. lia.
    + right. exists q. replace (j - a) with (S (j - S a)) by lia. repeat split; auto. lia.
  - destruct Hlc' as [-> |(j & -> & Hj)]; [|right; exists j; simpl; split; [done|lia]].
    destruct Hlc1 as [-> | ->]; [by left|right]. exists a. simpl. split; [done|lia].
Qed.

Lemma more_view W U U' s :
  approx W U → approx W U' → (∀ j, j ≠ s → U' !! j = U !! j) →
  (U !! s = Some null ∨ U' !! s ≠ Some null) → more U U'.
Proof.
  intros HU HU' Hsame Hs. apply Forall2_same_length_lookup. split.
  { by rewrite (approx_length _ _ HU), (approx_length _ _ HU'). }
  intros j u v Hu Hv Hn. destruct (decide (j = s)) as [->|Hj].
  - destruct (Forall2_lookup_r _ _ _ _ _ HU Hu) as (w & Hw & [->| ->]); [done|].
    destruct (Forall2_lookup_r _ _ _ _ _ HU' Hv) as (w' & Hw' & [->| ->]); [|congruence].
    destruct Hs; congruence.
  - rewrite Hsame in Hv by done. congruence.
Qed.

(** ** One layer *)

(** The rounded end of the children, and the parents it selects. *)
Lemma upn_slice h X a e :
  2 * a < e ≤ length X →
  let end_index := if (e mod 2 =? 1) && negb (e =? length X) then e + 1 else e in
  2 * a ≤ end_index ≤ length X ∧
  ∃ m, upn h (take (end_index - 2 * a) (drop (2 * a) X)) = take m (drop a (upn h X)) ∧
    0 < m ∧ a + m ≤ length (upn h X).
Proof.
  intros He. cbv zeta. rewrite length_upn.
  destruct (Nat.eqb_spec (e mod 2) 1) as [Hodd|Heven]; simpl.
  - destruct (Nat.eqb_spec e (length X)) as [->|Hne]; simpl.
    + split; [lia|]. exists ((length X + 1) / 2 - a). split; [|dlia].
      rewrite firstn_all2 by (rewrite length_drop; lia).
      rewrite firstn_all2 by (rewrite length_drop, length_upn; lia).
      by rewrite upn_drop.
    + split; [lia|]. exists ((e + 1) / 2 - a). split; [|dlia].
      rewrite upn_drop, upn_take. do 2 f_equal. dlia.
  - split; [lia|]. exists (e / 2 - a). split; [|dlia].
    rewrite upn_drop, upn_take. do 2 f_equal. dlia.
Qed.

Lemma recompute_layer_fill lh below F X U rest s e :
  approx F X → approx (up (length below + lh) F) U → s < length X →
  match e with Some e => s < e ≤ length X | None => True end →
  (∀ j, j ≠ s / 2 → sat_at X U j) →
  ∃ U' e', recompute_layer lh (length below) (below ++ X :: U :: rest) s e =
      Ok (below ++ X :: U' :: rest, e') ∧
    approx (up (length below + lh) F) U' ∧ (∀ j, sat_at X U' j) ∧
    (∀ j, j ≠ s / 2 → U' !! j = U !! j) ∧ more U U' ∧
    match e' with Some e' => s / 2 < e' ≤ length U' | None => True end.
Proof.
  intros HX HU Hs He Hsat. set (h := length below + lh) in *.
  pose proof (upn_approx h F X HX) as Hupn. pose proof (approx_length _ _ Hupn) as Hlupn.
  pose proof (approx_length _ _ HU) as HUl.
  unfold recompute_layer, index. rewrite list_lookup_middle by done. cbn [expect res_bind].
  replace (if s mod 2 =? 1 then s - 1 else s) with (2 * (s / 2))
    by (destruct (Nat.eqb_spec (s mod 2) 1); dlia).
  assert (2 * (s / 2) < default (length X) e ≤ length X) as He' by (destruct e; simpl; dlia).
  destruct (upn_slice h X (s / 2) _ He') as (Hr & m & Hm & Hm0 & Hml).
  unfold slice. rewrite decide_True by lia. cbn [res_bind]. fold h.
  rewrite parent_update_upn, Hm. set (P := take m (drop (s / 2) (upn h X))).
  assert (length P = m) as HPl by (subst P; rewrite length_take, length_drop; lia).
  assert (∀ i p, P !! i = Some p → upn h X !! (s / 2 + i) = Some p ∧ i < m) as HP.
  { intros i p Hi. subst P. apply lookup_take_Some in Hi as [Hi ?]. by rewrite lookup_drop in Hi. }
  destruct (zip (seq (s / 2) (length P)) P) as [|u us] eqn:Hz.
  { apply (f_equal length) in Hz. rewrite length_zip, length_seq in Hz. simpl in Hz. lia. }
  rewrite <- Hz. clear Hz u us.
  unfold before_extend_layer. rewrite length_app, (proj2 (Nat.eqb_neq _ _)) by (simpl; lia).
  rewrite lookup_app_r by lia. replace (length below + 1 - length below) with 1 by lia. cbn [expect lookup list_lookup res_bind].
  destruct (store_view (up h F) P U (s / 2) None) as (U' & lc & Hrun & HU' & HpU & HjU & Hlc);
    [done|lia| |].
  { intros i p [Hi _]%HP. destruct (Forall2_lookup_r _ _ _ _ _ Hupn Hi) as (w & Hw & [->| ->]); auto. }
  rewrite Hrun. cbn [res_bind]. exists U', (option_map S lc).
  rewrite insert_app_r_alt by lia. replace (length below + 1 - length below) with 1 by lia.
  split; [done|]. split; [done|].
  assert (∀ j, j ≠ s / 2 → U' !! j = U !! j) as Hsame.
  { intros j Hj. destruct (HjU j) as [?|(p & Hle & [Hp _]%HP & Hpn & Hj')]; [done|].
    replace (s / 2 + (j - s / 2)) with j in Hp by lia.
    destruct (Forall2_lookup_r _ _ _ _ _ Hupn Hp) as (w & Hw & [->| ->]); [done|].
    destruct (Forall2_lookup_l _ _ _ _ _ HU Hw) as (v & Hv & [->| ->]); [|by rewrite Hv].
    exfalso. pose proof (upn_null h X j (Hsat j Hj Hv)) as Hn. congruence. }
  split; [|split; [done|split]].
  - intros j Hj. destruct (decide (j = s / 2)) as [->|Hne];
      [|rewrite Hsame in Hj by done; by apply Hsat].
    apply (upn_sat h). destruct (lookup_lt_is_Some_2 P 0) as [p Hp]; [lia|].
    destruct (decide (p = null)) as [->|Hpn].
    + apply HP in Hp as [Hp _]. by rewrite Nat.add_0_r in Hp.
    + specialize (HpU 0 p Hp Hpn). rewrite Nat.add_0_r in HpU. congruence.
  - apply (more_view (up h F) _ _ (s / 2)); auto.
    destruct (HjU (s / 2)) as [-> |(p & _ & _ & ? & ->)]; [|right; congruence].
    destruct (decide (U !! (s / 2) = Some null)); auto.
  - pose proof (approx_length _ _ HU'). destruct Hlc as [->|(j & -> & Hj)]; simpl; [done|lia].
Qed.

(** ** The loop *)

(** [saturated], except over the leaf [s]. *)
Definition sat_except (s : nat) (ls : list (list E)) : Prop :=
  match ls with
  | X :: (U :: _) as rest => (∀ j, j ≠ s / 2 → sat_at X U j) ∧ saturated rest
  | _ => True
  end.

Lemma sat_except_next s X U U' rest :
  (∀ j, j ≠ s / 2 → U' !! j = U !! j) → sat_except s (X :: U :: rest) →
  sat_except (s / 2) (U' :: rest).
Proof.
  intros Hsame [_ Hs]. destruct rest as [|V rest]; [done|]. destruct Hs as [HV Hs].
  split; [|done]. intros j Hj Hv. rewrite !Hsame by dlia. by apply HV.
Qed.

Lemma recompute_loop_fill fuel lh below F X rest s e n :
  Forall2 approx (build (length below + lh) n F) (X :: rest) → depth (length F) ≤ n →
  s < length X → match e with Some e => s < e ≤ length X | None => True end →
  sat_except s (X :: rest) → n ≤ fuel →
  ∃ ls, recompute_loop fuel lh (length below) (below ++ X :: rest) s e = Ok (below ++ X :: ls) ∧
    Forall2 approx (build (length below + lh) n F) (X :: ls) ∧ saturated (X :: ls) ∧
    Forall2 more rest ls.
Proof.
  revert below F X rest s e n. induction fuel as [|fuel IH];
    intros below F X rest s e n Ha Hd Hs He Hsat Hfuel; pose proof (depth_pos (length F)); [lia|].
  destruct n as [|n]; [lia|]. simpl in Ha. inversion Ha as [|? ? ? ? HX Hrest]; subst.
  pose proof (approx_length _ _ HX) as HXl.
  cbn [recompute_loop]. unfold index. rewrite list_lookup_middle by done. cbn [expect res_bind].
  rewrite length_app. cbn [length].
  destruct n as [|n].
  { inversion Hrest; subst. destruct (decide (2 ≤ length F)).
    { rewrite depth_up in Hd by done. pose proof (depth_pos ((length F + 1) / 2)). lia. }
    rewrite (proj2 (Nat.ltb_ge _ _)), (proj2 (Nat.ltb_ge (length below) _)) by (simpl; lia).
    exists []. auto. }
  simpl in Hrest. inversion Hrest as [|? U ? rest' HU Hrest']; subst.
  rewrite (proj2 (Nat.ltb_lt (length below) _)), orb_true_r by (simpl; lia).
  destruct (recompute_layer_fill lh below F X U rest' s e) as (U' & e' & -> & HU' & HsU & Hsame & Hmore & He');
    auto; [apply Hsat|]. cbn [res_bind].
  assert (length (below ++ [X]) + lh = S (length below + lh)) as Hlen
    by (rewrite length_app; simpl; lia).
  pose proof (approx_length _ _ HU') as HUl. rewrite length_up in HUl.
  destruct (IH (below ++ [X]) (up (length below + lh) F) U' rest' (s / 2) e' (S n))
    as (ls & Hrun & Hls & Hsls & Hm); rewrite ?Hlen; auto.
  - by constructor.
  - rewrite length_up. destruct (decide (2 ≤ length F)).
    + rewrite depth_up in Hd by done. lia.
    + rewrite depth_small; dlia.
  - dlia.
  - by eapply sat_except_next.
  - lia.
  - rewrite Hlen, <- !app_assoc in *. rewrite length_app in Hrun. simpl in Hrun. rewrite Hrun.
    exists (U' :: ls). rewrite <- ?app_assoc. split; [done|]. split; [by constructor|].
    split; [done|by constructor].
Qed.

Lemma edges_more s ls ls' : edges s ls → Forall2 more ls ls' → edges s ls'.
Proof.
  intros He Hm. revert s He. induction Hm as [|X Y ls ls' HXY _ IH]; intros s; simpl; [done|].
  intros [HX Hls]. split; [|by apply IH]. unfold edge in *.
  apply (Forall2_drop _ _ _ (2 * (s / 2))) in HXY.
  apply Forall_lookup. intros i y Hy.
  destruct (Forall2_lookup_r _ _ _ _ _ HXY Hy) as (x & Hx & Hxy).
  rewrite Forall_lookup in HX. pose proof (HX _ _ Hx). by rewrite Hxy.
Qed.

(** ** [fill_leaf] *)

Lemma fill_leaf_views n L s i x t :
  views n L s t → L !! i = Some x →
  ∃ t', fill_leaf i x t = (Ok tt, t') ∧ views n L s t' ∧
    Forall2 more (layers t) (layers t') ∧
    (∃ X, layers t' !! 0 = Some X ∧ X !! i = Some x).
Proof.
  intros Hv Hi. destruct (views_0 _ _ _ _ Hv) as (X & rest & Hl & HX & _).
  pose proof Hv as (Ha & HL & Hd & He & Hsat).
  destruct (Forall2_lookup_l _ _ _ _ _ HX Hi) as (y & Hy & Hxy).
  assert (x ≠ null) as Hx by (rewrite Forall_lookup in HL; by eapply HL).
  unfold fill_leaf, st_bind at 1, st_get. rewrite Hl. unfold st_bind, st_lift, index.
  cbn [lookup list_lookup expect]. rewrite Hy. cbn [expect]. unfold is_null.
  case_bool_decide as Hn.
  2: { destruct Hxy as [->| ->]; [done|]. rewrite bool_decide_true by done.
       exists t. split; [done|]. split; [done|]. split; [|exists X; by rewrite Hl].
       rewrite <- Hl. apply Forall_Forall2_diag, Forall_true. apply more_refl. }
  subst y. pose proof (lookup_lt_Some _ _ _ Hy) as Hil.
  unfold st_put, recompute_after_fill_leaves.
  set (X' := <[i := x]> X).
  assert (approx L X') as HX'.
  { assert (<[i := x]> L = L) as <- by by apply list_insert_id. apply Forall2_insert; [done|by right]. }
  assert (more X X') as Hm.
  { apply (more_view L _ _ i); auto. intros j Hj. subst X'. by rewrite list_lookup_insert_ne. }
  rewrite Hl in Ha, He, Hsat.
  pose proof (Forall2_length _ _ _ Ha) as Hlen. rewrite length_build in Hlen. simpl in Hlen.
  destruct (recompute_loop_fill (recompute_fuel (X' :: rest)) (leaf_height t) [] L X' rest i (Some (i + 1)) n)
    as (ls & Hrun & Hls & Hsls & Hmls); auto.
  - pose proof (depth_pos (length L)). destruct n as [|n]; [lia|]. simpl in Ha |- *.
    inversion Ha. by constructor.
  - subst X'. by rewrite length_insert.
  - subst X'. rewrite length_insert. lia.
  - destruct rest as [|U rest]; [done|]. destruct Hsat as [HsU Hsr]. split; [|done].
    intros j Hj Hu. subst X'. rewrite !list_lookup_insert_ne by dlia. by apply HsU.
  - unfold recompute_fuel. simpl. lia.
  - erewrite recompute_run by apply Hrun. exists (set_layers (X' :: ls) t).
    split; [done|]. split; [|split].
    + split; [done|]. split; [done|]. split; [done|]. split; [|done].
      eapply edges_more; [done|]. by constructor.
    + simpl. by constructor.
    + exists X'. split; [done|]. subst X'. by apply list_lookup_insert_eq.
Qed.

(** ** Complete trees *)

Lemma saturated_known h n F ls :
  Forall2 approx (build h n F) ls → saturated ls → known (default [] (head ls)) →
  ls = build h n F.
Proof.
  revert h F ls. induction n as [|n IH]; intros h F ls Ha Hs Hk; inversion Ha as [|? X ? rest HX Hrest]; subst; [done|].
  simpl in Hk. pose proof (approx_known _ _ HX Hk) as ->. simpl. f_equal.
  apply IH; [done|by eapply saturated_tail in Hs|].
  destruct rest as [|U rest]; [constructor|]. simpl. destruct Hs as [Hs _].
  apply Forall_lookup. intros j u Hu ->. destruct (Hs j Hu) as [Hn|Hn];
    rewrite Forall_lookup in Hk; by apply Hk in Hn.
Qed.

Lemma views_complete n L s t :
  views n L s t → (∀ X, layers t !! 0 = Some X → known X) → represents n L t.
Proof.
  intros Hv Hk. destruct (views_0 _ _ _ _ Hv) as (X & rest & Hl & _).
  destruct Hv as (Ha & HL & Hd & _ & Hs). split; [|done].
  apply saturated_known; auto. rewrite Hl. simpl. apply Hk. by rewrite Hl.
Qed.

Lemma edges_lookup s ls k Y : edges s ls → ls !! k = Some Y → edge (s / 2 ^ k) Y.
Proof.
  revert s ls. induction k as [|k IH]; intros s [|X ls]; simpl; try done.
  - intros [HX _] [= ->]. change (2 ^ 0) with 1. by rewrite Nat.div_1_r.
  - intros [_ He] HY. rewrite Nat.pow_succ_r', <- Nat.Div0.div_div. eauto.
Qed.

(** The root is known, whatever the leaves. *)
Lemma views_root n L s t :
  views n L s t → s ≤ length L → L ≠ [] →
  ∃ r, root_of (leaf_height t) n L = Some r ∧ tree_root t = Ok r.
Proof.
  intros (Ha & HL & Hd & He & _) Hs HLn. pose proof (depth_pos (length L)).
  destruct (build_top (leaf_height t) n L HLn Hd) as (r & Htop & Hr). exists r. split; [done|].
  pose proof (Forall2_length _ _ _ Ha) as Hlen. rewrite length_build in Hlen.
  unfold tree_root. cbn [height AppendMerkleTree_read]. unfold checked_sub.
  rewrite decide_True by lia. cbn. unfold index.
  destruct (Forall2_lookup_l _ _ _ (n - 1) [r] Ha) as (X & HX & HrX).
  { by rewrite build_lookup, Htop by lia. }
  replace (length (layers t) - 1) with (n - 1) by lia. rewrite HX. cbn.
  pose proof (edges_lookup _ _ _ _ He HX) as Hed.
  pose proof (depth_le_pow (length L)).
  pose proof (Nat.pow_le_mono_r 2 (depth (length L) - 1) (n - 1) ltac:(lia) ltac:(lia)).
  assert (s / 2 ^ (n - 1) ≤ 1) as Hs1.
  { apply Nat.Div0.div_le_upper_bound. lia. }
  unfold edge in Hed. replace (2 * (s / 2 ^ (n - 1) / 2)) with 0 in Hed by dlia.
  by rewrite (approx_known _ _ HrX Hed).
Qed.

(** ** Sequences of operations *)

(** The mutators of the flow tree.  A subtree is given with the leaves it stands
    for, a leaf to fill with its value. *)
Inductive pop : Type :=
| PAppend (x : E)
| PAppendList (xs : list E)
| PSubtree (d : nat) (G : list E)
| PUpdateLast (x : E)
| PFill (i : nat) (x : E).

Definition subtree_root (lh d : nat) (G : list E) : E :=
  default null (head (layer_at lh (d - 1) G)).

Definition exec_pop (o : pop) : st (AppendMerkleTree E) unit :=
  match o with
  | PAppend x => append x
  | PAppendList xs => append_list xs
  | PSubtree d G => λ t, append_subtree d (subtree_root (leaf_height t) d G) t
  | PUpdateLast x => update_last x
  | PFill i x => fill_leaf i x
  end.

(** The leaves after an operation, and the leaf from which the last operation
    changed the tree. *)
Definition pop_spec (a : list E * nat) (o : pop) : list E * nat :=
  let L := a.1 in
  match o with
  | PAppend x => (L ++ [x], length L)
  | PAppendList xs => (L ++ xs, length L)
  | PSubtree d G => (L ++ G, length (L ++ G))
  | PUpdateLast x => (replace_last x L, length L - 1)
  | PFill _ _ => a
  end.

(** [update_last] is for a leaf that was appended by itself. *)
Definition pop_ok (a : list E * nat) (o : pop) : Prop :=
  let L := a.1 in
  match o with
  | PAppend x => x ≠ null
  | PAppendList xs => known xs
  | PSubtree d G =>
      1 ≤ d ≤ 64 ∧ length L mod 2 ^ (d - 1) = 0 ∧ length G = 2 ^ (d - 1) ∧ known G
  | PUpdateLast x => x ≠ null ∧ a.2 ≤ length L - 1
  | PFill i x => L !! i = Some x
  end.

Fixpoint pops_ok (a : list E * nat) (os : list pop) : Prop :=
  match os with
  | [] => True
  | o :: os => pop_ok a o ∧ pops_ok (pop_spec a o) os
  end.

Definition views_state (t : AppendMerkleTree E) (a : list E * nat) : Prop :=
  views (length (layers t)) a.1 a.2 t ∧ a.2 ≤ length a.1.

Lemma views_layers n L s t : views n L s t → length (layers t) = n.
Proof. intros (Ha%Forall2_length & _). rewrite length_build in Ha. done. Qed.

Lemma exec_pop_views o t a :
  views_state t a → pop_ok a o →
  ∃ t', exec_pop o t = (Ok tt, t') ∧ views_state t' (pop_spec a o).
Proof.
  destruct a as [L s]. intros [Hv Hs] Hok. simpl in *.
  assert (views (length (layers t)) L (length L) t) as HvL by by eapply views_later.
  assert (∀ t', (∃ n L', views n L' (pop_spec (L, s) o).2 t' ∧ L' = (pop_spec (L, s) o).1) →
    (pop_spec (L, s) o).2 ≤ length (pop_spec (L, s) o).1 → views_state t' (pop_spec (L, s) o)) as Hst.
  { intros t' (n & L' & Hv' & ->) Hle. split; [|done]. by rewrite (views_layers _ _ _ _ Hv'). }
  destruct o as [x|xs|d G|x|i x]; simpl in *.
  - destruct (append_views _ _ _ _ HvL Hok) as (t' & Hrun & Hv'). exists t'. split; [done|].
    apply Hst; [by eauto|rewrite length_app; lia].
  - destruct (append_list_views _ _ _ _ HvL Hok) as (t' & Hrun & Hv'). exists t'. split; [done|].
    apply Hst; [by eauto|rewrite length_app; lia].
  - destruct Hok as (Hd & Hal & HG & HGk).
    assert (layer_at (leaf_height t) (d - 1) G = [subtree_root (leaf_height t) d G]) as Hr.
    { pose proof (length_layer_at_top (leaf_height t) (d - 1) G) as Hl. unfold subtree_root.
      pose proof (Nat.pow_nonzero 2 (d - 1) ltac:(lia)).
      destruct (layer_at _ _ G) as [|r [|]]; simpl in Hl; [lia|done|lia]. }
    destruct (append_subtree_views _ _ _ _ _ _ HvL Hd Hal HG HGk Hr) as (t' & Hrun & Hv').
    exists t'. split; [done|]. apply Hst; [by eauto|lia].
  - destruct Hok as [Hx Hs'].
    destruct (update_last_views (length (layers t)) L x t) as (t' & Hrun & Hv');
      [by eapply views_later|done|].
    exists t'. split; [done|]. apply Hst; [by eauto|rewrite length_replace_last; lia].
  - destruct (fill_leaf_views _ _ _ _ _ _ Hv Hok) as (t' & Hrun & Hv' & _).
    exists t'. split; [done|]. apply Hst; by eauto.
Qed.

Lemma exec_pops_views os t a :
  views_state t a → pops_ok a os →
  ∃ t', st_for os exec_pop t = (Ok tt, t') ∧ views_state t' (foldl pop_spec a os).
Proof.
  revert t a. induction os as [|o os IH]; intros t a Hv; simpl; [by eauto|].
  intros [Ho Hos]. destruct (exec_pop_views o t a Hv Ho) as (t1 & Hrun & Hv1).
  unfold st_bind. rewrite Hrun. by apply IH.
Qed.

Lemma empty_views d md lh :
  1 ≤ d → views_state (empty_tree (replicate d []) md lh) ([], 0).
Proof.
  intros Hd. split; [|done]. simpl. rewrite length_replicate.
  assert (∀ h, build h d ([] : list E) = replicate d []) as Hb.
  { clear Hd. induction d as [|d IH]; intros h; simpl; [done|]. by rewrite IH. }
  split_and!; simpl; [|constructor|rewrite depth_small; lia|..].
  - rewrite Hb. clear. induction d; simpl; constructor; [constructor|done].
  - clear. generalize 0 at 1. induction d as [|d IH]; intros s; simpl; [done|]. split; [|apply IH].
    unfold edge. by rewrite drop_nil.
  - clear. induction d as [|d IH]; simpl; [done|]. destruct d; simpl; [done|]. split; [|done].
    intros j. done.
Qed.

Lemma views_leaf_at n L s t i x :
  views n L s t → L !! i = Some x → leaf_at t i = Ok None ∨ leaf_at t i = Ok (Some x).
Proof.
  intros Hv Hi. destruct (views_0 _ _ _ _ Hv) as (X & rest & Hl & HX & _).
  unfold leaf_at. rewrite (leaves_views _ _ _ _ Hv). cbn [res_bind].
  rewrite (proj2 (Nat.leb_gt _ _)) by by eapply lookup_lt_Some.
  destruct (Forall2_lookup_l _ _ _ _ _ HX Hi) as (y & Hy & Hxy).
  cbn. rewrite Hl. cbn. unfold index. rewrite Hy. cbn. unfold is_null.
  case_bool_decide; [by left|]. destruct Hxy as [->| ->]; [done|by right].
Qed.

Lemma views_filled n L s t :
  views n L s t → (∀ i, i < length L → leaf_at t i ≠ Ok None) → represents n L t.
Proof.
  intros Hv Hf. eapply views_complete; [done|]. intros X HX. apply Forall_lookup. intros i x Hx ->.
  destruct (views_0 _ _ _ _ Hv) as (X0 & rest & Hl & HX0 & _). rewrite Hl in HX. simplify_eq/=.
  pose proof (lookup_lt_Some _ _ _ Hx) as Hi. rewrite (approx_length _ _ HX0) in Hi.
  apply (Hf i Hi). unfold leaf_at. rewrite (leaves_views _ _ _ _ Hv). cbn [res_bind].
  rewrite (proj2 (Nat.leb_gt _ _)) by done. cbn. rewrite Hl. cbn. unfold index. rewrite Hx. cbn.
  unfold is_null. by rewrite bool_decide_true.
Qed.

End Fill.
