(* ===== verification/MerkleTheorems.v ===== *)
(** * The append-only Merkle tree: main theorems

    What [AppendMerkleTree], its proofs and its versions promise to the rest of
    the node, each with a concrete instance over the symbolic hash. *)

From S2P Require Import Prelude Hashing MerkleProof MerkleRead AppendMerkle MerkleSpec MerkleAppend.
From S2P Require Import MerkleInclusion MerkleRange MerkleHistory MerklePartial MerkleFill.

(** ** Samples *)

Definition sample_leaves : list term := [TLeaf [1%Z]; TLeaf [2%Z]; TLeaf [3%Z]; TLeaf [4%Z]; TLeaf [5%Z]].

Definition run_tree (r : res (AppendMerkleTree term)) (ops : list (op (E := term)))
    : AppendMerkleTree term :=
  match r with
  | Ok t => (st_for ops exec_op t).2
  | _ => empty_tree [[]] None 0
  end.

Definition sample_tree : AppendMerkleTree term := run_tree (new sample_leaves 0 (Some 7%Z)) [].
Definition sample_ops : list op :=
  [OAppend (TLeaf [6%Z]); OCommit 8; OUpdateLast (TLeaf [7%Z]);
   OAppendList [TLeaf [8%Z]; TLeaf [9%Z]; TLeaf [10%Z]]; OCommit 9].


Ltac known_leaves := repeat constructor; discriminate.

Lemma run_tree_refines (L : list term) lh start_tx_seq os :
  known L → seq_ok start_tx_seq → ops_ok os (abstract_new 1 L start_tx_seq) →
  refines (spec_ops os (abstract_new 1 L start_tx_seq)) (run_tree (new L lh start_tx_seq) os).
Proof.
  intros HL Hs Hos. destruct (new_refines L lh start_tx_seq HL Hs) as (t & Ht & _ & Hr).
  destruct (exec_ops_refines os _ t Hr Hos) as (t' & Ht' & _ & Hr').
  unfold run_tree. by rewrite Ht, Ht'.
Qed.

(** ** The operations refine the abstract tree *)

(** C1: starting from [new], every sequence of appends, list appends, updates of
    the last leaf, commits with consecutive sequence numbers and reverts to
    committed non-empty versions runs without error or panic, and the tree ends
    up with the leaves, layers and versions of the abstract tree. *)
Theorem append_merkle_refines {E} `{HashElement E} `{!Algorithm E} `{!NeverNull E}
    (L : list E) lh start_tx_seq os :
  known L → seq_ok start_tx_seq → ops_ok os (abstract_new 1 L start_tx_seq) →
  ∃ t t', new L lh start_tx_seq = Ok t ∧ st_for os exec_op t = (Ok tt, t') ∧
    refines (spec_ops os (abstract_new 1 L start_tx_seq)) t'.
Proof.
  intros HL Hs Hos. destruct (new_refines L lh start_tx_seq HL Hs) as (t & Ht & _ & Hr).
  destruct (exec_ops_refines os _ t Hr Hos) as (t' & Ht' & _ & Hr'). by exists t, t'.
Qed.

Lemma append_merkle_refines_witness :
  ∃ t t', new sample_leaves 0 (Some 7%Z) = Ok t ∧
    st_for (sample_ops ++ [ORevert 8]) exec_op t = (Ok tt, t') ∧
    refines (spec_ops (sample_ops ++ [ORevert 8]) (abstract_new 1 sample_leaves (Some 7%Z))) t'.
Proof.
  apply append_merkle_refines; [known_leaves|done|].
  simpl. repeat split; try discriminate; try known_leaves; try (by right); by left.
Defined.

(** The same for the trees of a fixed minimal depth that [new_with_depth]
    makes for the last chunk. *)
Theorem append_merkle_depth_refines {E} `{HashElement E} `{!Algorithm E} `{!NeverNull E}
    (L : list E) depth start_tx_seq os :
  1 ≤ depth → known L → seq_ok start_tx_seq → ops_ok os (abstract_new depth L start_tx_seq) →
  ∃ t t', new_with_depth L depth start_tx_seq = Ok t ∧ st_for os exec_op t = (Ok tt, t') ∧
    refines (spec_ops os (abstract_new depth L start_tx_seq)) t'.
Proof.
  intros Hd HL Hs Hos.
  destruct (new_with_depth_refines L depth start_tx_seq HL Hs Hd) as (t & Ht & _ & Hr).
  destruct (exec_ops_refines os _ t Hr Hos) as (t' & Ht' & _ & Hr'). by exists t, t'.
Qed.

Lemma append_merkle_depth_refines_witness :
  ∃ t t', new_with_depth sample_leaves 11 (Some 7%Z) = Ok t ∧
    st_for sample_ops exec_op t = (Ok tt, t') ∧
    refines (spec_ops sample_ops (abstract_new 11 sample_leaves (Some 7%Z))) t'.
Proof.
  apply append_merkle_depth_refines; [lia|known_leaves|done|].
  simpl. repeat split; try discriminate; try known_leaves; by right.
Defined.

(** Appending to a tree gives the tree built from all the leaves at once. *)
Theorem append_list_rebuild {E} `{HashElement E} `{!Algorithm E} `{!NeverNull E}
    (L xs : list E) lh :
  known L → known xs →
  ∃ t t' t1, new L lh None = Ok t ∧ append_list xs t = (Ok tt, t') ∧
    new (L ++ xs) lh None = Ok t1 ∧ t' = t1.
Proof.
  intros HL Hxs. assert (known (L ++ xs)) as HLx by by apply Forall_app.
  destruct (new_run L lh HL) as (t & Ht & Hl).
  destruct (new_run (L ++ xs) lh HLx) as (t1 & Ht1 & Hl1).
  assert (represents (max 1 (depth (length L))) L t) as Hr.
  { rewrite Hl. split_and!; simpl; [done..|lia]. }
  exists t, (set_layers (tree_layers (leaf_height t) (max 1 (depth (length L))) (L ++ xs)) t), t1.
  split_and!; [done|by apply append_list_run|done|].
  rewrite Hl, Hl1. unfold set_layers, empty_tree. simpl. f_equal. unfold tree_layers. f_equal.
  pose proof (depth_mono (length L) (length (L ++ xs))). rewrite length_app in *. lia.
Qed.

Lemma append_list_rebuild_witness :
  ∃ t t' t1, new sample_leaves 3 None = Ok t ∧
    append_list [TLeaf [6%Z]; TLeaf [7%Z]] t = (Ok tt, t') ∧
    new (sample_leaves ++ [TLeaf [6%Z]; TLeaf [7%Z]]) 3 None = Ok t1 ∧ t' = t1.
Proof. apply append_list_rebuild; known_leaves. Defined.

(** ** Inclusion proofs *)

(** [gen_proof] succeeds for every leaf, its proof ends in the root of the
    tree, and [Proof::validate] accepts it for that leaf and position. *)
Theorem inclusion_proof_complete {E} `{HashElement E} `{!Algorithm E}
    n (L : list E) t i x :
  represents n L t → L !! i = Some x → (Z.of_nat i < 2 ^ 64)%Z →
  ∃ p r, gen_proof t i = Ok p ∧ root p = Ok r ∧ tree_root t = Ok r ∧ validate p x i = Ok tt.
Proof. intros Hr. by eapply reader_proof_complete, represents_reads. Qed.

Lemma inclusion_proof_complete_witness :
  ∃ p r, gen_proof sample_tree 4 = Ok p ∧ root p = Ok r ∧ tree_root sample_tree = Ok r ∧
    validate p (TLeaf [5%Z]) 4 = Ok tt.
Proof.
  apply (inclusion_proof_complete 4 sample_leaves); [|done|done].
  split_and!; [vm_compute; reflexivity|known_leaves|vm_compute; lia].
Defined.

(** C8: under collision resistance, a proof of the shape of the tree that
    [Proof::validate] accepts against the root of the tree proves that the item
    is the leaf at that position. *)
Theorem inclusion_proof_sound {E} `{HashElement E} `{!Algorithm E} `{!CollisionFree E}
    n (L : list E) t p x pos :
  represents n L t → root p = tree_root t → validate p x pos = Ok tt →
  length (path p) = n - 1 → length (lemma p) = n + 1 → pos < length L →
  L !! pos = Some x.
Proof.
  intros Hr Hroot Hv Hpath Hlem Hpos.
  destruct (represents_reads _ _ _ Hr) as (Hreads & HL & Hd).
  destruct (validate_inv _ _ _ Hv) as (sibs & r & Hp & Hl & Hc & ->).
  destruct (top_layer (leaf_height t) n L) as (r' & _ & Htop & _);
    [by intros ->; simpl in *; lia|done|].
  rewrite (tree_root_reads t (leaf_height t) n L Hreads Hd r' Htop) in Hroot.
  unfold root in Hroot. rewrite Hp, last_cons, last_snoc in Hroot. simplify_eq/=.
  rewrite Hp in Hlem. simpl in Hlem. rewrite length_app in Hlem. simpl in Hlem.
  apply (climb_root_unique (leaf_height t) (n - 1) _ _ _ sibs); [done|lia|].
  rewrite Htop. repeat f_equal. rewrite <- Hpath, sides_turns, firstn_all2 by lia. done.
Qed.

Lemma inclusion_proof_sound_witness : sample_leaves !! 2 = Some (TLeaf [3%Z]).
Proof.
  apply (inclusion_proof_sound 4 sample_leaves sample_tree
    (match gen_proof sample_tree 2 with Ok p => p | _ => Proof_new_empty end));
    [|by vm_compute..|simpl; lia].
  split_and!; [vm_compute; reflexivity|known_leaves|vm_compute; lia].
Defined.

(** [gen_range_proof] succeeds for every non-empty range of leaves, and
    [RangeProof::validate] accepts its proof for exactly these leaves. *)
Theorem range_proof_complete {E} `{HashElement E} `{!Algorithm E}
    n (L : list E) t start_index end_index :
  represents n L t → start_index < end_index ≤ length L → (Z.of_nat (length L) < 2 ^ 64)%Z →
  ∃ rp, gen_range_proof t start_index end_index = Ok rp ∧ range_root rp = tree_root t ∧
    range_validate rp (take (end_index - start_index) (drop start_index L)) start_index = Ok tt.
Proof.
  intros Hr Hse H64. destruct (represents_reads _ _ _ Hr) as (Hreads & HL & Hd).
  destruct (top_layer (leaf_height t) n L) as (r & _ & Htop & _);
    [by intros ->; simpl in *; lia|done|].
  destruct (lookup_lt_is_Some_2 L start_index) as [x Hx]; [lia|].
  destruct (lookup_lt_is_Some_2 L (end_index - 1)) as [y Hy]; [lia|].
  rewrite Forall_lookup in HL. unfold gen_range_proof.
  rewrite (proj2 (Nat.leb_gt _ _)) by lia.
  rewrite (gen_proof_reads t (leaf_height t) n L Hreads Hd start_index x r) by eauto.
  rewrite (gen_proof_reads t (leaf_height t) n L Hreads Hd (end_index - 1) y r) by eauto.
  eexists. split; [done|]. split.
  - rewrite (tree_root_reads t (leaf_height t) n L Hreads Hd r Htop).
    unfold range_root, root. simpl. by rewrite last_cons, last_snoc.
  - rewrite take_drop_commute. replace (start_index + (end_index - start_index))
      with (S (end_index - 1)) by lia.
    apply (range_validate_complete (leaf_height t) L n); auto with lia.
Qed.

Lemma range_proof_complete_witness :
  ∃ rp, gen_range_proof sample_tree 1 4 = Ok rp ∧ range_root rp = tree_root sample_tree ∧
    range_validate rp [TLeaf [2%Z]; TLeaf [3%Z]; TLeaf [4%Z]] 1 = Ok tt.
Proof.
  apply (range_proof_complete 4 sample_leaves sample_tree 1 4); [|simpl; lia|done].
  split_and!; [vm_compute; reflexivity|known_leaves|vm_compute; lia].
Defined.

(** C27: under collision resistance, a range proof of the height of the tree that
    [RangeProof::validate] accepts against the root of the tree proves that the
    items are the leaves from that position on. *)
Theorem range_proof_sound {E} `{HashElement E} `{!Algorithm E} `{!CollisionFree E}
    n (L : list E) t rp items start_position :
  represents n L t → range_root rp = tree_root t →
  range_validate rp items start_position = Ok tt →
  length (path (left_proof rp)) = n - 1 → start_position + length items ≤ length L →
  items = take (length items) (drop start_position L).
Proof.
  intros Hr Hroot Hv Hpath Hlen. destruct (represents_reads _ _ _ Hr) as (Hreads & HL & Hd).
  destruct (range_validate_inv _ _ _ Hv) as (Hne & Hpos & r & Hrr & Hloop).
  assert (0 < length items) by (destruct items; simpl; [done|lia]).
  destruct (top_layer (leaf_height t) n L) as (r' & _ & Htop & _);
    [by intros ->; simpl in *; lia|done|].
  rewrite (tree_root_reads t (leaf_height t) n L Hreads Hd r' Htop), Hrr in Hroot.
  injection Hroot as ->. rewrite Hpath in Hloop.
  set (b := start_position + length items - 1).
  pose proof (range_loop_sound (leaf_height t) L rp start_position b (n - 1)) as Hs.
  specialize (Hs ltac:(lia) ltac:(lia)).
  rewrite <- Hpath in Hs at 1. specialize (Hs (position_path _ _ Hpos)).
  specialize (Hs _ (n - 1) 0 items r' eq_refl Htop). change (2 ^ 0) with 1 in Hs.
  rewrite !Nat.div_1_r in Hs. specialize (Hs ltac:(lia) Hloop). simpl in Hs.
  rewrite Hs at 1. unfold segment. rewrite take_drop_commute. do 2 f_equal. lia.
Qed.

Lemma range_proof_sound_witness :
  [TLeaf [2%Z]; TLeaf [3%Z]; TLeaf [4%Z]] = take 3 (drop 1 sample_leaves).
Proof.
  apply (range_proof_sound 4 sample_leaves sample_tree
    (match gen_range_proof sample_tree 1 4 with Ok p => p | _ => RangeProof_new_empty end));
    [|by vm_compute..|simpl; lia].
  split_and!; [vm_compute; reflexivity|known_leaves|vm_compute; lia].
Defined.

(** ** Versions *)

(** A tree that [at_root_version] returns has the requested root, and
    generates for every leaf of that version a proof that validates against the
    old root, whatever was appended since. *)
Theorem history_proof_complete {E} `{HashElement E} `{!Algorithm E}
    (a : abstract) t r ht :
  refines a t → at_root_version t r = Ok ht →
  ∃ s v, version_at a s = Some v ∧ tree_root ht = Ok r ∧
    ∀ i x, v_leaves v !! i = Some x → (Z.of_nat i < 2 ^ 64)%Z →
      ∃ p, gen_proof ht i = Ok p ∧ root p = Ok r ∧ validate p x i = Ok tt.
Proof.
  intros Hr Hht. destruct (at_root_version_reads _ _ _ _ Hr Hht)
    as (s & v & Hv & Hne & (HL & Hd) & Hroot & Hreads).
  destruct (top_layer (leaf_height t) _ _ Hne Hd) as (r' & _ & Htop & Hr').
  rewrite Hroot in Hr'. injection Hr' as <-.
  pose proof (tree_root_reads ht _ _ _ Hreads Hd r Htop) as Htr.
  exists s, v. split_and!; [done..|]. intros i x Hx Hi.
  destruct (reader_proof_complete ht _ _ _ i x (conj Hreads (conj HL Hd)) Hx Hi)
    as (p & r' & Hp & Hrp & Hrt & Hval).
  rewrite Htr in Hrt. injection Hrt as <-. by exists p.
Qed.

(** The root of the first version of the sample. *)
Definition sample_root : term := default TNull (root_of 0 4 sample_leaves).

Lemma history_proof_complete_witness :
  ∃ ht, at_root_version (run_tree (new sample_leaves 0 (Some 7%Z)) sample_ops) sample_root = Ok ht ∧
  ∃ s v, version_at (spec_ops sample_ops (abstract_new 1 sample_leaves (Some 7%Z))) s = Some v ∧
    tree_root ht = Ok sample_root ∧
    ∀ i x, v_leaves v !! i = Some x → (Z.of_nat i < 2 ^ 64)%Z →
      ∃ p, gen_proof ht i = Ok p ∧ root p = Ok sample_root ∧ validate p x i = Ok tt.
Proof.
  eexists. split; [vm_compute; reflexivity|].
  eapply (history_proof_complete _ (run_tree (new sample_leaves 0 (Some 7%Z)) sample_ops));
    [|vm_compute; reflexivity].
  apply run_tree_refines; [known_leaves|done|].
  simpl. repeat split; try discriminate; try known_leaves; by right.
Defined.



(** Reverting a non-empty tree to a version that was committed empty drops
    every layer, the leaf layer included: the revert succeeds and the next
    access to the leaves panics. *)
Theorem revert_to_empty_version_drops_leaves {E} `{HashElement E} `{!Algorithm E}
    (a : abstract) t s v :
  refines a t → v_leaves (a_now a) ≠ [] → version_at a s = Some v → v_leaves v = [] →
  ∃ t', revert_to s t = (Ok tt, t') ∧ layers t' = [] ∧
    leaves t' = Panic "index out of bounds" ∧
    ∀ x, (append x t').1 = Panic "index out of bounds".
Proof.
  intros Hr Hne Hv Hnil. pose proof (layers_0 _ _ _ (r_now _ _ Hr)) as H0.
  unfold revert_to, st_bind, st_get, st_lift, st_put, st_ret, index. rewrite H0. simpl.
  destruct (v_leaves (a_now a)); [done|].
  pose proof (r_deltas _ _ Hr s) as Hds. rewrite Hv in Hds.
  inversion Hds as [? [nodes] He Ha Hb|]. subst. simpl in He. unfold version_layers in He.
  rewrite Hnil in He. apply Forall2_nil_inv_l in He as ->. simpl.
  unfold version_at in Hv. case_decide; [|done].
  edestruct (clear_after_run a t s) as (d & r & -> & _); [done|exact Hv|lia|].
  by eexists.
Qed.

Lemma revert_to_empty_version_drops_leaves_witness :
  ∃ t', revert_to 7 (run_tree (new [] 0 (Some 7%Z)) [OAppend (TLeaf [1%Z]); OCommit 8]) =
      (Ok tt, t') ∧ layers t' = [] ∧
    leaves t' = Panic "index out of bounds" ∧
    ∀ x, (append x t').1 = Panic "index out of bounds".
Proof.
  apply (revert_to_empty_version_drops_leaves
    (spec_ops [OAppend (TLeaf [1%Z]); OCommit 8] (abstract_new 1 [] (Some 7%Z))) _ 7
    (MkVersion 1 [])); [|done..].
  apply run_tree_refines; [constructor|done|].
  simpl. repeat split; try discriminate; by right.
Defined.

(** A proof whose lemma is longer than its path allows makes
    [validate_integrity], and so [Proof::validate], panic; both fields are
    decoded from the network. *)
Theorem overlong_lemma_panics {E} `{HashElement E} `{!Algorithm E} (p : MProof E) x pos :
  length (path p) + 2 < length (lemma p) →
  validate p x pos = Panic "index out of bounds".
Proof.
  destruct p as [lem bs]. simpl. intros Hlen. unfold validate, validate_integrity. simpl.
  destruct lem as [|y lem]; [simpl in *; lia|]. simpl in Hlen.
  rewrite (proj2 (Nat.ltb_ge _ _)) by (simpl; lia). simpl.
  set (m := length lem - 1 - S (length bs)).
  replace (seq 1 (length lem - 1)) with (seq 1 (length bs) ++ seq (S (length bs)) (S m))
    by (rewrite <- (seq_app (length bs) (S m)); f_equal; lia).
  rewrite res_foldl_app.
  pose proof (integrity_loop y lem [] bs y 0 (length bs)) as Hloop.
  rewrite app_nil_r in Hloop. rewrite Hloop by lia. simpl.
  unfold integrity_step at 1. simpl. unfold index.
  by rewrite Nat.sub_0_r, lookup_ge_None_2 by lia.
Qed.

Lemma overlong_lemma_panics_witness :
  validate (MkProof [TLeaf []; TLeaf []; TLeaf []] []) (TLeaf []) 0 = Panic "index out of bounds".
Proof. apply overlong_lemma_panics. simpl. lia. Defined.

(** [Proof::validate] does not check that the lemma has one node per step of
    the path: the two-node lemma of the root itself is accepted as a proof that
    the root is the item at any position. *)
Theorem short_lemma_accepted {E} `{HashElement E} `{!Algorithm E} (r : E) (bs : list bool) :
  (Z.of_nat (turns bs) < 2 ^ 64)%Z →
  validate (MkProof [r; r] bs) r (turns bs) = Ok tt.
Proof.
  intros H64. unfold validate, validate_integrity. simpl. rewrite bool_decide_true by done. simpl.
  rewrite position_ok by done. simpl.
  by rewrite Nat.eqb_refl.
Qed.

Lemma short_lemma_accepted_witness :
  validate (MkProof [TPad 0; TPad 0] [true; false; true]) (TPad 0) 2 = Ok tt.
Proof. apply (short_lemma_accepted (TPad 0) [true; false; true]). by vm_compute. Defined.

(** ** Trees with unknown leaves *)

(** The two ways the node creates an empty tree. *)
Definition starts_empty {E} `{HashElement E} `{!Algorithm E} (t : AppendMerkleTree E) : Prop :=
  (∃ lh, new [] lh None = Ok t) ∨ (∃ depth, 1 ≤ depth ∧ new_with_depth [] depth None = Ok t).

Lemma starts_empty_views {E} `{HashElement E} `{!Algorithm E} (t : AppendMerkleTree E) :
  starts_empty t → views_state t ([], 0).
Proof.
  intros [[lh [= <-]]|(d & Hd & [= <-])]; [by apply (empty_views 1)|by apply empty_views].
Qed.

(** C17: from an empty tree, every sequence of appends, aligned subtree appends,
    updates of a singly appended last leaf and fills with the real leaves runs
    without error or panic; the leaf count and the root are those of the real
    leaves although inner leaves may be unknown, and a leaf that is known is the
    real one. *)
Theorem flow_tree_refines {E} `{HashElement E} `{!Algorithm E} `{!NeverNull E}
    (t0 : AppendMerkleTree E) os :
  starts_empty t0 → pops_ok ([], 0) os →
  let L := (foldl pop_spec ([], 0) os).1 in
  ∃ t, st_for os exec_pop t0 = (Ok tt, t) ∧ leaves t = Ok (length L) ∧
    (L ≠ [] → ∃ r, root_of (leaf_height t) (length (layers t)) L = Some r ∧ tree_root t = Ok r) ∧
    (∀ i x, L !! i = Some x → leaf_at t i = Ok None ∨ leaf_at t i = Ok (Some x)).
Proof.
  intros H0%starts_empty_views Hos L.
  destruct (exec_pops_views os t0 _ H0 Hos) as (t & Hrun & Hv & Hs). exists t.
  split_and!; [done|by eapply leaves_views|by eapply views_root|].
  intros i x. by eapply views_leaf_at.
Qed.

Definition sample_pops : list (pop (E := term)) :=
  [PAppend (TLeaf [1%Z]); PAppend (TLeaf [2%Z]); PSubtree 2 [TLeaf [3%Z]; TLeaf [4%Z]];
   PAppend (TLeaf [5%Z]); PUpdateLast (TLeaf [6%Z]); PFill 3 (TLeaf [4%Z])].

Lemma sample_pops_ok : pops_ok ([], 0) sample_pops.
Proof. repeat split; try (vm_compute; lia); try known_leaves; discriminate. Qed.

Lemma flow_tree_refines_witness :
  ∃ t, st_for sample_pops exec_pop (empty_tree [[]] None 0) = (Ok tt, t) ∧ leaves t = Ok 5 ∧
    (sample_leaves ≠ [] → ∃ r, root_of (leaf_height t) (length (layers t))
       (foldl pop_spec ([], 0) sample_pops).1 = Some r ∧ tree_root t = Ok r) ∧
    (∀ i x, (foldl pop_spec ([], 0) sample_pops).1 !! i = Some x →
       leaf_at t i = Ok None ∨ leaf_at t i = Ok (Some x)).
Proof.
  destruct (flow_tree_refines (empty_tree [[]] None 0) sample_pops) as (t & Hrun & Hl & Hr & Hx).
  - left. by exists 0.
  - apply sample_pops_ok.
  - exists t. split_and!; [done|done| |done]. intros _. by apply Hr.
Defined.

(** Once every leaf is filled, whatever the order, the tree gives a proof for
    every leaf that validates against its root. *)
Theorem filled_tree_proves {E} `{HashElement E} `{!Algorithm E} `{!NeverNull E}
    (t0 t : AppendMerkleTree E) os i x :
  starts_empty t0 → pops_ok ([], 0) os → st_for os exec_pop t0 = (Ok tt, t) →
  let L := (foldl pop_spec ([], 0) os).1 in
  (∀ j, j < length L → leaf_at t j ≠ Ok None) → L !! i = Some x → (Z.of_nat i < 2 ^ 64)%Z →
  ∃ p r, gen_proof t i = Ok p ∧ root p = Ok r ∧ tree_root t = Ok r ∧ validate p x i = Ok tt.
Proof.
  intros H0%starts_empty_views Hos Hrun L Hf.
  destruct (exec_pops_views os t0 _ H0 Hos) as (t' & Hrun' & Hv & _).
  assert (t' = t) as -> by congruence.
  eapply reader_proof_complete, represents_reads, views_filled; eauto.
Qed.

Lemma filled_tree_proves_witness :
  let t := (st_for (sample_pops ++ [PFill 2 (TLeaf [3%Z])]) exec_pop (empty_tree [[]] None 0)).2 in
  ∃ p r, gen_proof t 2 = Ok p ∧ root p = Ok r ∧ tree_root t = Ok r ∧
    validate p (TLeaf [3%Z]) 2 = Ok tt.
Proof.
  apply (filled_tree_proves (empty_tree [[]] None 0) _ (sample_pops ++ [PFill 2 (TLeaf [3%Z])])).
  - left. by exists 0.
  - repeat split; try (vm_compute; lia); try known_leaves; discriminate.
  - vm_compute. reflexivity.
  - intros j Hj. vm_compute in Hj. do 5 (destruct j as [|j]; [vm_compute; discriminate|]). lia.
  - reflexivity.
  - reflexivity.
Defined.

(** Before its sibling is known, [gen_proof] of a filled leaf succeeds with a
    proof that [validate] rejects: only the leaf itself is checked. *)
Theorem unknown_sibling_proof_invalid :
  ∃ t p msg, st_for [PSubtree 2 [TLeaf [1%Z]; TLeaf [2%Z]]; PFill 0 (TLeaf [1%Z])] exec_pop
      (empty_tree [[]] None 0) = (Ok tt, t) ∧
    gen_proof t 0 = Ok p ∧ validate p (TLeaf [1%Z]) 0 = Err msg.
Proof.
  do 3 eexists. split; [vm_compute; reflexivity|]. split; [vm_compute; reflexivity|].
  vm_compute. reflexivity.
Qed.

(** [revert_to] writes back the last leaf as it was at the commit: a leaf
    that was unknown then and filled since is unknown again. *)
Theorem revert_forgets_filled_leaf :
  let '(r, t) := st_for [exec_pop (PSubtree 2 [TLeaf [1%Z]; TLeaf [2%Z]]); commit (Some 0%Z);
      exec_pop (PFill 1 (TLeaf [2%Z])); exec_pop (PAppend (TLeaf [3%Z])); commit (Some 1%Z)]
      id (empty_tree [[]] None 0) in
  let '(r', t') := revert_to 0 t in
  r = Ok tt ∧ leaf_at t 1 = Ok (Some (TLeaf [2%Z])) ∧ r' = Ok tt ∧ leaf_at t' 1 = Ok None.
Proof. vm_compute. auto. Qed.

(** [append_subtree_list] pushes the subtrees before recomputing the layers;
    after two single leaves a two-leaf subtree lands at the wrong place, and the
    root differs from that of appending the subtrees one by one. *)
Theorem append_subtree_list_misplaces :
  let roots := [(1, TLeaf [1%Z]); (1, TLeaf [2%Z]); (2, TNode (TLeaf [3%Z]) (TLeaf [4%Z]))] in
  ∃ t t', append_subtree_list roots (empty_tree [[]] None 0) = (Ok tt, t) ∧
    st_for roots (λ '(d, r), append_subtree d r) (empty_tree [[]] None 0) = (Ok tt, t') ∧
    tree_root t ≠ tree_root t'.
Proof.
  do 2 eexists. split; [vm_compute; reflexivity|]. split; [vm_compute; reflexivity|].
  vm_compute. discriminate.
Qed.
