(* ===== verification/Bytes.v ===== *)
(** * Bytes, machine integers and slices

    Sizes and byte offsets are integers in [Z] (they reach 2^18 and more, too
    large for unary numbers in a witness); bytes are integers in [0, 256).
    Casts between widths wrap as in Rust. *)

From S2P Require Import Prelude.
#[local] Open Scope Z_scope.

(** ** Lengths and slices *)

Definition zlen {A} (l : list A) : Z := Z.of_nat (length l).
Definition ztake {A} (n : Z) (l : list A) : list A := take (Z.to_nat n) l.
Definition zdrop {A} (n : Z) (l : list A) : list A := drop (Z.to_nat n) l.
Definition zreplicate {A} (n : Z) (x : A) : list A := replicate (Z.to_nat n) x.

(** [v.get(i..j)]. *)
Definition get_range {A} (v : list A) (i j : Z) : option (list A) :=
  if (i <=? j) && (j <=? zlen v) then Some (ztake (j - i) (zdrop i v)) else None.

(** [&v[i..j]]: out of range panics. *)
Definition zslice {A} (v : list A) (i j : Z) : res (list A) :=
  expect (get_range v i j) "slice index out of range".

(** Overwriting the slice of [v] from [i] on by [xs]. *)
Definition splice {A} (v : list A) (i : Z) (xs : list A) : list A :=
  ztake i v ++ xs ++ zdrop (i + zlen xs) v.

(** [x as u16], [x as u64]. *)
Definition as_u16 (x : Z) : Z := x mod 2 ^ 16.
Definition as_u64 (x : Z) : Z := x mod 2 ^ 64.

(** [a - b] and [a + b] on unsigned [w]-bit integers: overflow panics. *)
Definition usub (a b : Z) : res Z :=
  if b <=? a then Ok (a - b) else Panic "attempt to subtract with overflow".
Definition uadd (w a b : Z) : res Z :=
  if a + b <? 2 ^ w then Ok (a + b) else Panic "attempt to add with overflow".
Definition umul (w a b : Z) : res Z :=
  if a * b <? 2 ^ w then Ok (a * b) else Panic "attempt to multiply with overflow".

(** [x.to_be_bytes()] on [n] bytes, and [from_be_bytes]. *)
Fixpoint be_bytes (n : nat) (x : Z) : list Z :=
  match n with
  | O => []
  | S n => be_bytes n (x / 256) ++ [x mod 256]
  end.
Definition from_be_bytes (bs : list Z) : Z := foldl (λ acc b, acc * 256 + b) 0 bs.

(** [x.to_le_bytes()] on [n] bytes, and [from_le_bytes]. *)
Fixpoint le_bytes (n : nat) (x : Z) : list Z :=
  match n with
  | O => []
  | S n => x mod 256 :: le_bytes n (x / 256)
  end.
Definition from_le_bytes (bs : list Z) : Z := foldr (λ b acc, b + 256 * acc) 0 bs.

(** [slice::chunks]: consecutive pieces of [n] elements, the last one shorter;
    every piece consumes an element, so the length bounds the recursion. *)
Fixpoint chunks_go {A} (fuel n : nat) (l : list A) : list (list A) :=
  match fuel, l with
  | S fuel, _ :: _ => take n l :: chunks_go fuel n (drop n l)
  | _, _ => []
  end.
Definition chunks {A} (n : nat) (l : list A) : list (list A) := chunks_go (length l) n l.

(** [slice::chunks_exact]: the pieces of [n] elements only. *)
Definition chunks_exact {A} (n : nat) (l : list A) : list (list A) :=
  take (length l / n) (chunks n l).

(** [slice::binary_search_by_key] on a slice sorted by strictly increasing keys:
    the index of the key, or the index where it would be inserted. *)
Fixpoint lower_bound {A} (key : A → Z) (k : Z) (l : list A) : nat :=
  match l with
  | [] => 0%nat
  | x :: l => if key x <? k then S (lower_bound key k l) else 0%nat
  end.
Definition binary_search_by_key {A} (key : A → Z) (k : Z) (l : list A) : nat + nat :=
  let i := lower_bound key k l in
  match l !! i with
  | Some x => if key x =? k then inl i else inr i
  | None => inr i
  end.

(** ** Lemmas *)

Section Slices.
Context {A : Type}.
Implicit Types (l v xs : list A) (i j n : Z).

Lemma zlen_nonneg l : 0 ≤ zlen l.
Proof. unfold zlen. lia. Qed.

Lemma zlen_app l v : zlen (l ++ v) = zlen l + zlen v.
Proof. unfold zlen. rewrite length_app. lia. Qed.

Lemma zlen_nil : zlen (@nil A) = 0.
Proof. done. Qed.

Lemma zlen_cons x l : zlen (x :: l) = 1 + zlen l.
Proof. unfold zlen. simpl. lia. Qed.

Lemma zlen_0 l : zlen l = 0 → l = [].
Proof. destruct l; [done|]. rewrite zlen_cons. pose proof (zlen_nonneg l). lia. Qed.

Lemma zlen_pos l : l ≠ [] → 0 < zlen l.
Proof. destruct l; [done|]. rewrite zlen_cons. pose proof (zlen_nonneg l). lia. Qed.

Lemma zlen_ztake n l : 0 ≤ n → zlen (ztake n l) = Z.min n (zlen l).
Proof. intros. unfold zlen, ztake. rewrite length_take. lia. Qed.

Lemma zlen_zdrop n l : 0 ≤ n → zlen (zdrop n l) = Z.max 0 (zlen l - n).
Proof. intros. unfold zlen, zdrop. rewrite length_drop. lia. Qed.

Lemma zlen_zreplicate n (x : A) : 0 ≤ n → zlen (zreplicate n x) = n.
Proof. intros. unfold zlen, zreplicate. rewrite length_replicate. lia. Qed.

Lemma zlen_splice v i xs :
  0 ≤ i → i + zlen xs ≤ zlen v → zlen (splice v i xs) = zlen v.
Proof.
  intros. pose proof (zlen_nonneg xs). unfold splice.
  rewrite !zlen_app, zlen_ztake, zlen_zdrop by lia. lia.
Qed.

Lemma ztake_ge n l : zlen l ≤ n → ztake n l = l.
Proof. unfold ztake, zlen. intros. apply firstn_all2. lia. Qed.

Lemma ztake_zdrop n l : ztake n l ++ zdrop n l = l.
Proof. apply take_drop. Qed.

Lemma get_range_Some v i j :
  i ≤ j → j ≤ zlen v → get_range v i j = Some (ztake (j - i) (zdrop i v)).
Proof.
  intros. unfold get_range. by rewrite (proj2 (Z.leb_le _ _)), (proj2 (Z.leb_le _ _)) by lia.
Qed.

Lemma get_range_None v i j : zlen v < j → get_range v i j = None.
Proof.
  intros. unfold get_range. by rewrite andb_comm, (proj2 (Z.leb_gt _ _)) by lia.
Qed.
End Slices.

(** ** Pieces *)

Section Chunks.
Context {A : Type} (n : nat) (Hn : (0 < n)%nat).
Implicit Types (l : list A) (ls : list (list A)).

Lemma chunks_go_fuel f1 f2 l :
  (length l ≤ f1)%nat → (length l ≤ f2)%nat → chunks_go f1 n l = chunks_go f2 n l.
Proof.
  revert f2 l. induction f1 as [|f1 IH]; intros f2 l H1 H2.
  - destruct l; [|simpl in *; lia]. by destruct f2.
  - destruct l as [|x l]; [by destruct f2|]. destruct f2 as [|f2]; [simpl in *; lia|].
    cbn [chunks_go]. f_equal. apply IH; rewrite length_drop; simpl in *; lia.
Qed.

Lemma chunks_nil : chunks n (@nil A) = [].
Proof. done. Qed.

Lemma chunks_cons l : l ≠ [] → chunks n l = take n l :: chunks n (drop n l).
Proof.
  intros Hl. destruct l as [|x l]; [done|]. unfold chunks at 1. cbn [length chunks_go].
  f_equal. apply chunks_go_fuel; rewrite length_drop; simpl; lia.
Qed.

Lemma concat_chunks l : concat (chunks n l) = l.
Proof.
  induction l as [l IH] using (induction_ltof1 _ length). unfold ltof in IH.
  destruct (decide (l = [])) as [->|Hl]; [done|]. rewrite chunks_cons by done. simpl.
  rewrite IH; [apply take_drop|]. rewrite length_drop. destruct l; [done|]. simpl. lia.
Qed.

Lemma chunks_app l1 l2 : length l1 = n → chunks n (l1 ++ l2) = l1 :: chunks n l2.
Proof.
  intros Hl. rewrite chunks_cons by (destruct l1; simpl in *; [lia|done]).
  by rewrite take_app_length', drop_app_length'.
Qed.

Lemma chunks_concat ls l :
  Forall (λ w, length w = n) ls → chunks n (concat ls ++ l) = ls ++ chunks n l.
Proof.
  induction 1 as [|w ls Hw _ IH]; simpl; [done|]. rewrite <- app_assoc, chunks_app by done.
  by rewrite IH.
Qed.

Lemma chunks_lookup k l :
  (k * n < length l)%nat → chunks n l !! k = Some (take n (drop (k * n) l)).
Proof.
  revert l. induction k as [|k IH]; intros l Hl; (rewrite chunks_cons by (by destruct l; simpl in *; [lia|])).
  - done.
  - simpl. rewrite IH by (rewrite length_drop; lia). by rewrite drop_drop.
Qed.

(** A list whose length is a multiple of [n] splits into pieces of length [n]. *)
Lemma chunks_even l k :
  length l = (k * n)%nat → Forall (λ w, length w = n) (chunks n l) ∧ length (chunks n l) = k.
Proof.
  revert l. induction k as [|k IH]; intros l Hl.
  - destruct l; [|simpl in *; lia]. by split.
  - rewrite chunks_cons by (destruct l; simpl in *; [lia|done]).
    destruct (IH (drop n l)) as [Hf Hlen]; [rewrite length_drop; lia|].
    split; [|simpl; lia]. constructor; [rewrite length_take; lia|done].
Qed.
End Chunks.

(** ** Searching *)

Section Search.
Context {A : Type} (key : A → Z).

(** The keys before the lower bound are smaller; the next key is not. *)
Lemma lower_bound_split k l :
  ∃ l1 l2, l = l1 ++ l2 ∧ length l1 = lower_bound key k l ∧
    Forall (λ x, key x < k) l1 ∧ (∀ x l', l2 = x :: l' → k ≤ key x).
Proof.
  induction l as [|x l (l1 & l2 & -> & Hl & H1 & H2)]; simpl.
  - by exists [], [].
  - destruct (Z.ltb_spec (key x) k).
    + exists (x :: l1), l2. split_and!; simpl; [done|by rewrite Hl|by constructor|done].
    + exists [], (x :: l1 ++ l2). split_and!; [done..|]. by intros y l' [= <- <-].
Qed.
End Search.

(** ** Big- and little-endian round trips *)

Lemma length_be_bytes n x : length (be_bytes n x) = n.
Proof.
  revert x. induction n as [|n IH]; intros x; simpl; [done|].
  rewrite length_app, IH. simpl. lia.
Qed.

Lemma from_be_bytes_snoc bs b : from_be_bytes (bs ++ [b]) = from_be_bytes bs * 256 + b.
Proof. unfold from_be_bytes. by rewrite foldl_app. Qed.

Lemma be_bytes_roundtrip n x :
  0 ≤ x < 256 ^ Z.of_nat n → from_be_bytes (be_bytes n x) = x.
Proof.
  revert x. induction n as [|n IH]; intros x Hx.
  - simpl in Hx. unfold from_be_bytes. simpl. lia.
  - cbn [be_bytes]. rewrite from_be_bytes_snoc, IH.
    + pose proof (Z.div_mod x 256). lia.
    + rewrite Nat2Z.inj_succ, Z.pow_succ_r in Hx by lia.
      split; [apply Z.div_pos; lia|apply Z.div_lt_upper_bound; lia].
Qed.

Lemma length_le_bytes n x : length (le_bytes n x) = n.
Proof. revert x. induction n as [|n IH]; intros x; simpl; [done|]. by rewrite IH. Qed.

Lemma le_bytes_roundtrip n x :
  0 ≤ x < 256 ^ Z.of_nat n → from_le_bytes (le_bytes n x) = x.
Proof.
  revert x. induction n as [|n IH]; intros x Hx.
  - simpl in *. unfold from_le_bytes. simpl. lia.
  - cbn [le_bytes from_le_bytes foldr]. fold (from_le_bytes (le_bytes n (x / 256))).
    rewrite IH.
    + pose proof (Z.div_mod x 256). lia.
    + rewrite Nat2Z.inj_succ, Z.pow_succ_r in Hx by lia.
      split; [apply Z.div_pos; lia|apply Z.div_lt_upper_bound; lia].
Qed.
