(* ===== verification/IonianSpec.v ===== *)
(** * Size constants and chunk arithmetic

    [common/spec/src/lib.rs] ([ionian_spec]) and the size functions of
    [node/shared_types/src/lib.rs]. *)

From S2P Require Import Prelude Bytes.
#[local] Open Scope Z_scope.

Definition KB : Z := 1024.
Definition MB : Z := 1024 * KB.
Definition GB : Z := 1024 * MB.
Definition TB : Z := 1024 * GB.

Definition BYTES_PER_SECTOR : Z := 256.
Definition BYTES_PER_SEAL : Z := 4 * KB.
Definition BYTES_PER_SCRATCHPAD : Z := 64 * KB.
Definition BYTES_PER_LOAD : Z := 256 * KB.
Definition BYTES_PER_PRICING : Z := 8 * GB.
Definition BYTES_PER_MAX_MINING_RANGE : Z := 8 * TB.

Definition SECTORS_PER_LOAD : Z := BYTES_PER_LOAD / BYTES_PER_SECTOR.
Definition SECTORS_PER_SEAL : Z := BYTES_PER_SEAL / BYTES_PER_SECTOR.
Definition SECTORS_PER_PRICING : Z := BYTES_PER_PRICING / BYTES_PER_SECTOR.
Definition SECTORS_PER_MAX_MINING_RANGE : Z := BYTES_PER_MAX_MINING_RANGE / BYTES_PER_SECTOR.

Definition SEALS_PER_LOAD : Z := BYTES_PER_LOAD / BYTES_PER_SEAL.

(** [shared_types::CHUNK_SIZE], equal to the sector size. *)
Definition CHUNK_SIZE : Z := 256.

Definition bytes_to_chunks (size_bytes : Z) : Z :=
  if size_bytes mod CHUNK_SIZE =? 0 then size_bytes / CHUNK_SIZE
  else size_bytes / CHUNK_SIZE + 1.

(** ** Numeric values *)

Lemma BYTES_PER_SECTOR_eq : BYTES_PER_SECTOR = 256. Proof. done. Qed.
Lemma BYTES_PER_SEAL_eq : BYTES_PER_SEAL = 4096. Proof. done. Qed.
Lemma BYTES_PER_LOAD_eq : BYTES_PER_LOAD = 262144. Proof. done. Qed.
Lemma SECTORS_PER_LOAD_eq : SECTORS_PER_LOAD = 1024. Proof. done. Qed.
Lemma SECTORS_PER_SEAL_eq : SECTORS_PER_SEAL = 16. Proof. done. Qed.
Lemma SEALS_PER_LOAD_eq : SEALS_PER_LOAD = 64. Proof. done. Qed.
Lemma CHUNK_SIZE_eq : CHUNK_SIZE = 256. Proof. done. Qed.

Ltac spec_consts :=
  rewrite ?BYTES_PER_SECTOR_eq, ?BYTES_PER_SEAL_eq, ?BYTES_PER_LOAD_eq, ?SECTORS_PER_LOAD_eq,
    ?SECTORS_PER_SEAL_eq, ?SEALS_PER_LOAD_eq, ?CHUNK_SIZE_eq in *.

(** [lia] on terms with the size constants, division and modulo. *)
Ltac slia := spec_consts; zify; Z.to_euclidean_division_equations; lia.

Lemma bytes_to_chunks_spec n : bytes_to_chunks n = (n + 255) / 256.
Proof. unfold bytes_to_chunks. case_match; slia. Qed.

Lemma bytes_to_chunks_exact n : n mod 256 = 0 → bytes_to_chunks n * 256 = n.
Proof. rewrite bytes_to_chunks_spec. intros. slia. Qed.
