(* ===== verification/SharedTypes.v ===== *)
(** * Sizes, transactions and chunk arrays

    [node/shared_types/src/lib.rs], with [next_pow2] and [log2_pow2] of
    [common/merkle_light/src/merkle.rs] and [split_nodes] of
    [log_store/log_manager.rs].  A [usize] is an integer in [Z] below 2^64;
    an overflow panics. *)

From Stdlib Require Import Sorting.Sorted.
From S2P Require Import Prelude Bytes IonianSpec.
#[local] Open Scope Z_scope.

(** ** Powers of two *)

(** [n |= n >> k] *)
Definition smear (k n : Z) : Z := Z.lor n (Z.shiftr n k).

Definition next_pow2 (n : Z) : res Z :=
  let? n := usub n 1 in
  uadd 64 (smear 32 (smear 16 (smear 8 (smear 4 (smear 2 (smear 1 n)))))) 1.

(** [usize::trailing_zeros]. *)
Fixpoint trailing_zeros (width : nat) (n : Z) : Z :=
  match width with
  | O => 0
  | S width => if Z.odd n then 0 else 1 + trailing_zeros width (Z.shiftr n 1)
  end.
Definition log2_pow2 (n : Z) : Z := trailing_zeros 64 n.

(** ** Padding *)

Definition compute_padded_chunk_size (size_bytes : Z) : res (Z * Z) :=
  let chunk_len := bytes_to_chunks size_bytes in
  let? chunks_next_pow2 := next_pow2 chunk_len in
  if chunks_next_pow2 =? chunk_len then Ok (chunks_next_pow2, chunks_next_pow2)
  else
    let min_chunk := if chunks_next_pow2 <? 16 then 1 else Z.shiftr chunks_next_pow2 4 in
    let padded_chunks := ((chunk_len - 1) / min_chunk + 1) * min_chunk in
    Ok (padded_chunks, chunks_next_pow2).

Definition compute_segment_size (chunks chunks_per_segment : Z) : Z * Z :=
  if chunks mod chunks_per_segment =? 0 then (chunks / chunks_per_segment, chunks_per_segment)
  else (chunks / chunks_per_segment + 1, chunks mod chunks_per_segment).

(** The [while] loop of [split_nodes].  [next_chunk_size] halves in every
    iteration, and a 64-bit number is zero after 64 halvings. *)
Fixpoint split_nodes_loop (fuel : nat) (padded_chunks next_chunk_size : Z) : res (list Z) :=
  if padded_chunks <=? 0 then Ok [] else
  match fuel with
  | O => Panic "split_nodes: out of fuel"
  | S fuel =>
      if next_chunk_size <=? padded_chunks then
        let? nodes := split_nodes_loop fuel (padded_chunks - next_chunk_size)
                        (Z.shiftr next_chunk_size 1) in
        Ok (next_chunk_size :: nodes)
      else split_nodes_loop fuel padded_chunks (Z.shiftr next_chunk_size 1)
  end.

Definition split_nodes (data_size : Z) : res (list Z) :=
  let? '(padded_chunks, chunks_next_pow2) := compute_padded_chunk_size data_size in
  split_nodes_loop 65 padded_chunks chunks_next_pow2.

(** ** Transactions *)

(** [struct Transaction]; [R] is the type of [DataRoot]. *)
Record Transaction (R : Type) : Type := MkTransaction {
  stream_ids : list Z;
  tx_data : list Z;
  data_merkle_root : R;
  merkle_nodes : list (nat * R);
  start_entry_index : Z;
  tx_size : Z;
  tx_seq : Z;
}.
Arguments MkTransaction {R}.
Arguments stream_ids {R}.
Arguments tx_data {R}.
Arguments data_merkle_root {R}.
Arguments merkle_nodes {R}.
Arguments start_entry_index {R}.
Arguments tx_size {R}.
Arguments tx_seq {R}.

(** [1 << (depth - 1)] *)
Definition num_entries_of_node (depth : nat) : res Z :=
  let? d := checked_sub depth 1 in
  let? n := shl1 d in
  Ok (Z.of_nat n).

Definition num_entries {R} (tx : Transaction R) : res Z :=
  res_foldl (λ size '(depth, _), let? n := num_entries_of_node depth in uadd 64 size n)
    0 (merkle_nodes tx).

(** ** Chunk arrays *)

(** [struct ChunkArray]. *)
Record ChunkArray : Type := MkChunkArray {
  ca_data : list Z;
  start_index : Z;
}.

(** [self.data.len() / CHUNK_SIZE] *)
Definition ca_chunks (c : ChunkArray) : Z := zlen (ca_data c) / CHUNK_SIZE.

Definition chunk_at (c : ChunkArray) (idx : Z) : option (list Z) :=
  if (ca_chunks c + start_index c <=? idx) || (idx <? start_index c) then None
  else
    let offset := (idx - start_index c) * CHUNK_SIZE in
    get_range (ca_data c) offset (offset + CHUNK_SIZE).

Definition first_chunk (c : ChunkArray) : option (list Z) := chunk_at c (start_index c).

Definition last_chunk (c : ChunkArray) : option (list Z) :=
  let n := start_index c + ca_chunks c in
  if n <? 1 then None else chunk_at c (n - 1).

Definition sub_array (c : ChunkArray) (s e : Z) : option ChunkArray :=
  if (ca_chunks c + start_index c <=? s) || (s <? start_index c)
     || (ca_chunks c + start_index c <? e) || (e <=? start_index c) || (e <=? s)
  then None
  else
    let start_offset := (s - start_index c) * CHUNK_SIZE in
    let end_offset := (e - start_index c) * CHUNK_SIZE in
    d ← get_range (ca_data c) start_offset end_offset;
    Some (MkChunkArray d s).

(** ** Lemmas: powers of two *)

(** The [run] highest bits of [n], up to bit [k], are set. *)
Definition top_run (k run n : Z) : Prop :=
  0 ≤ n ∧ (∀ i, k < i → Z.testbit n i = false) ∧
  (∀ i, 0 ≤ i → k - run < i ≤ k → Z.testbit n i = true).

Lemma smear_run k run n : 0 < run → top_run k run n → top_run k (2 * run) (smear run n).
Proof.
  intros Hr (H0 & Hhi & Hlo). unfold smear. split_and!.
  - apply Z.lor_nonneg. split; [done|]. by apply Z.shiftr_nonneg.
  - intros i Hi. destruct (Z.neg_nonneg_cases i); [by rewrite Z.testbit_neg_r|].
    rewrite Z.lor_spec, Z.shiftr_spec, !Hhi by lia. done.
  - intros i Hi0 Hi. rewrite Z.lor_spec, Z.shiftr_spec by lia.
    destruct (decide (k - run < i)); [by rewrite Hlo by lia|].
    rewrite (Hlo (i + run)) by lia. by rewrite orb_true_r.
Qed.

Lemma top_run_full k run n : 0 ≤ k → k < run → top_run k run n → n = 2 ^ (k + 1) - 1.
Proof.
  intros Hk Hr (H0 & Hhi & Hlo). apply Z.bits_inj'. intros i Hi.
  replace (2 ^ (k + 1) - 1) with (Z.ones (k + 1)) by (rewrite Z.ones_equiv; lia).
  destruct (decide (i ≤ k)).
  - rewrite Hlo, Z.ones_spec_low by lia. done.
  - rewrite Hhi, Z.ones_spec_high by lia. done.
Qed.

Lemma next_pow2_spec n : 1 ≤ n ≤ 2 ^ 63 → next_pow2 n = Ok (2 ^ Z.log2_up n).
Proof.
  intros Hn. unfold next_pow2, usub. rewrite (proj2 (Z.leb_le _ _)) by lia. cbn [res_bind].
  destruct (decide (n = 1)) as [->|H1]; [done|].
  assert (top_run (Z.log2 (n - 1)) 1 (n - 1)) as Ht.
  { split_and!; [lia|intros i Hi; by apply Z.bits_above_log2; lia|].
    intros i _ Hi. replace i with (Z.log2 (n - 1)) by lia. apply Z.bit_log2. lia. }
  apply smear_run, (smear_run _ 2), (smear_run _ 4), (smear_run _ 8), (smear_run _ 16),
    (smear_run _ 32) in Ht; [|lia..].
  assert (Z.log2 (n - 1) < 63) as Hl by (apply Z.log2_lt_pow2; lia).
  apply top_run_full in Ht; [|apply Z.log2_nonneg|lia]. rewrite Ht.
  unfold uadd. replace (2 ^ (Z.log2 (n - 1) + 1) - 1 + 1) with (2 ^ (Z.log2 (n - 1) + 1)) by lia.
  rewrite (proj2 (Z.ltb_lt _ _)) by (apply Z.pow_lt_mono_r; lia).
  do 2 f_equal. rewrite Z.log2_up_eqn by lia. rewrite <- Z.sub_1_r. lia.
Qed.

Lemma log2_pow2_spec k : 0 ≤ k < 64 → log2_pow2 (2 ^ k) = k.
Proof.
  unfold log2_pow2. change 64 with (Z.of_nat 64). generalize 64%nat. intros w.
  revert k. induction w as [|w IH]; intros k Hk; [lia|]. simpl trailing_zeros.
  destruct (decide (k = 0)) as [->|Hk0]; [done|].
  replace k with (Z.succ (k - 1)) by lia. rewrite Z.pow_succ_r, Z.odd_mul by lia. simpl.
  rewrite <- Z.div2_spec, Z.div2_div, Z.mul_comm, Z.div_mul, IH by lia. lia.
Qed.

(** ** Lemmas: padding and splitting *)

(** The granularity of the padding: a sixteenth of the next power of two. *)
Definition pad_unit (q : Z) : Z := if q <? 16 then 1 else q / 16.

Lemma bytes_to_chunks_range n : 0 < n < 2 ^ 64 → 1 ≤ bytes_to_chunks n ≤ 2 ^ 56.
Proof. rewrite bytes_to_chunks_spec. intros. slia. Qed.

Lemma compute_padded_spec size_bytes :
  0 < size_bytes < 2 ^ 64 →
  let c := bytes_to_chunks size_bytes in
  let q := 2 ^ Z.log2_up c in
  ∃ p, compute_padded_chunk_size size_bytes = Ok (p, q) ∧
    c ≤ p ≤ q ∧ p mod pad_unit q = 0 ∧ p - c < pad_unit q.
Proof.
  intros Hs c q. pose proof (bytes_to_chunks_range _ Hs) as Hc. fold c in Hc.
  unfold compute_padded_chunk_size. fold c. rewrite next_pow2_spec by lia. fold q. cbn [res_bind].
  assert (c ≤ q) as Hcq by (apply Z.log2_log2_up_spec; lia).
  assert (0 < pad_unit q ∧ ∃ m, 0 < m ∧ q = m * pad_unit q) as (Hu & m & Hm & Hqm).
  { unfold pad_unit. destruct (Z.ltb_spec q 16); [split; [lia|exists q; lia]|].
    pose proof (Z.log2_up_nonneg c).
    assert (4 ≤ Z.log2_up c) by (apply (Z.pow_le_mono_r_iff 2); [lia..|fold q; simpl; lia]).
    assert (q = 16 * 2 ^ (Z.log2_up c - 4)) as Hq.
    { unfold q. change 16 with (2 ^ 4). rewrite <- Z.pow_add_r by lia. f_equal. lia. }
    pose proof (Z.pow_pos_nonneg 2 (Z.log2_up c - 4)).
    rewrite Hq, Z.mul_comm, Z.div_mul by lia. split; [lia|]. exists 16. lia. }
  destruct (Z.eqb_spec q c) as [Heq|Hne].
  { exists q. split; [done|]. split; [lia|]. split; [|lia].
    rewrite Hqm at 1. by rewrite Z.mod_mul by lia. }
  rewrite Z.shiftr_div_pow2 by lia. change (2 ^ 4) with 16. fold (pad_unit q).
  exists (((c - 1) / pad_unit q + 1) * pad_unit q).
  pose proof (Z.div_mod (c - 1) (pad_unit q) ltac:(lia)) as Hdm.
  pose proof (Z.mod_pos_bound (c - 1) (pad_unit q) Hu) as Hmb.
  split; [done|]. split; [split; [lia|]|split; [by rewrite Z.mod_mul by lia|lia]].
  assert ((c - 1) / pad_unit q < m) by (apply Z.div_lt_upper_bound; lia). nia.
Qed.

Definition pow2s (js : list nat) : list Z := (λ j, 2 ^ Z.of_nat j) <$> js.
Definition zsum (l : list Z) : Z := foldr Z.add 0 l.

Lemma multiple_small m g : 0 ≤ m < g → m mod g = 0 → m = 0.
Proof. intros ? Hm. by rewrite Z.mod_small in Hm. Qed.

Lemma split_nodes_loop_spec k a fuel m :
  (a ≤ k < fuel)%nat → 0 ≤ m < 2 ^ (Z.of_nat k + 1) → m mod 2 ^ Z.of_nat a = 0 →
  ∃ js, split_nodes_loop fuel m (2 ^ Z.of_nat k) = Ok (pow2s js) ∧
    StronglySorted gt js ∧ Forall (λ j, (a ≤ j ≤ k)%nat) js ∧ zsum (pow2s js) = m ∧
    (length js ≤ k + 1 - a)%nat ∧ (m < 2 ^ Z.of_nat k → (length js ≤ k - a)%nat).
Proof.
  revert fuel m. induction k as [|k IH]; intros fuel m Hk Hm Ha.
  - assert (a = 0)%nat as -> by lia. destruct fuel as [|fuel]; [lia|]. simpl in Hm.
    destruct (decide (m = 0)) as [->|Hm0].
    + exists []. split_and!; simpl; auto using SSorted_nil; lia.
    + assert (m = 1) as -> by lia. exists [0%nat]. cbn.
      split_and!; [by destruct fuel|by repeat constructor|repeat constructor; lia|done|lia|lia].
  - pose proof (Z.pow_pos_nonneg 2 (Z.of_nat k) ltac:(lia) ltac:(lia)) as Hpk.
    pose proof (Z.pow_pos_nonneg 2 (Z.of_nat a) ltac:(lia) ltac:(lia)) as Hpa.
    assert (2 ^ Z.of_nat (S k) = 2 * 2 ^ Z.of_nat k) as HSk
      by (rewrite Nat2Z.inj_succ, Z.pow_succ_r by lia; done).
    rewrite Z.pow_add_r, HSk in Hm by lia. change (2 ^ 1) with 2 in Hm.
    destruct fuel as [|fuel]; [lia|]. cbn [split_nodes_loop].
    destruct (Z.leb_spec m 0).
    { exists []. split_and!; simpl; auto using SSorted_nil; lia. }
    rewrite HSk. replace (Z.shiftr (2 * 2 ^ Z.of_nat k) 1) with (2 ^ Z.of_nat k)
      by (rewrite Z.shiftr_div_pow2, Z.mul_comm, Z.div_mul by lia; done).
    destruct (decide (a = S k)) as [->|Hak].
    { rewrite HSk in Ha. assert (m = 2 * 2 ^ Z.of_nat k) as ->.
      { pose proof (Z.div_mod m (2 * 2 ^ Z.of_nat k) ltac:(lia)) as Hd. rewrite Ha in Hd.
        assert (m / (2 * 2 ^ Z.of_nat k) < 2) by (apply Z.div_lt_upper_bound; lia).
        assert (0 ≤ m / (2 * 2 ^ Z.of_nat k)) by (apply Z.div_pos; lia).
        assert (m / (2 * 2 ^ Z.of_nat k) = 0 ∨ m / (2 * 2 ^ Z.of_nat k) = 1) as [Hq|Hq] by lia;
          rewrite Hq in Hd; lia. }
      rewrite Z.leb_refl, Z.sub_diag. destruct fuel as [|fuel]; [lia|]. cbn.
      exists [S k]. unfold pow2s, zsum. cbn. rewrite HSk.
      split_and!; [done|by repeat constructor|repeat constructor; lia|lia|lia|lia]. }
    destruct (Z.leb_spec (2 * 2 ^ Z.of_nat k) m).
    + destruct (IH fuel (m - 2 * 2 ^ Z.of_nat k)) as (js & -> & Hs & Hf & Hsum & Hl & Hl'); [lia| | |].
      { rewrite Z.pow_add_r by lia. change (2 ^ 1) with 2. lia. }
      { assert (2 * 2 ^ Z.of_nat k = 2 ^ Z.of_nat (S k - a) * 2 ^ Z.of_nat a) as ->.
        { rewrite <- HSk, <- Z.pow_add_r by lia. f_equal. lia. }
        by rewrite Zminus_mod, Ha, Z.mod_mul by lia. }
      exists (S k :: js). cbn [res_bind].
      assert (pow2s (S k :: js) = 2 * 2 ^ Z.of_nat k :: pow2s js) as -> by (by rewrite <- HSk).
      cbn [zsum foldr]. fold (zsum (pow2s js)).
      split_and!; [done| | |lia|simpl; lia|simpl; lia].
      * constructor; [done|]. eapply Forall_impl; [exact Hf|]. simpl. lia.
      * constructor; [lia|]. eapply Forall_impl; [exact Hf|]. simpl. lia.
    + destruct (IH fuel m) as (js & -> & Hs & Hf & Hsum & Hl & Hl'); [lia| |done|].
      { rewrite Z.pow_add_r by lia. change (2 ^ 1) with 2. lia. }
      exists js. split_and!; auto; [|lia|lia].
      eapply Forall_impl; [exact Hf|]. simpl. lia.
Qed.

Lemma split_nodes_loop_exact fuel q : 0 < q → split_nodes_loop (S (S fuel)) q q = Ok [q].
Proof.
  intros Hq. cbn [split_nodes_loop]. rewrite (proj2 (Z.leb_gt q 0)), Z.leb_refl, Z.sub_diag by lia.
  done.
Qed.

Lemma pad_unit_pow2 k :
  pad_unit (2 ^ Z.of_nat k) = 2 ^ Z.of_nat (k - 4) ∧ (k < 4 ∨ 4 ≤ k)%nat.
Proof.
  split; [|lia]. unfold pad_unit. destruct (decide (4 ≤ k)%nat).
  - assert (2 ^ Z.of_nat k = 16 * 2 ^ Z.of_nat (k - 4)) as ->.
    { change 16 with (2 ^ 4). rewrite <- Z.pow_add_r by lia. f_equal. lia. }
    pose proof (Z.pow_pos_nonneg 2 (Z.of_nat (k - 4))).
    rewrite (proj2 (Z.ltb_ge _ _)), Z.mul_comm, Z.div_mul by lia. done.
  - replace (k - 4)%nat with 0%nat by lia.
    rewrite (proj2 (Z.ltb_lt _ _)); [done|].
    change 16 with (2 ^ 4). apply Z.pow_lt_mono_r; lia.
Qed.

Lemma split_nodes_spec size_bytes :
  0 < size_bytes < 2 ^ 64 →
  ∃ p q js, compute_padded_chunk_size size_bytes = Ok (p, q) ∧
    split_nodes size_bytes = Ok (pow2s js) ∧ zsum (pow2s js) = p ∧
    StronglySorted gt js ∧ (length js ≤ 4)%nat.
Proof.
  intros Hs. pose proof (bytes_to_chunks_range _ Hs) as Hc.
  destruct (compute_padded_spec _ Hs) as (p & Hp & Hr & Hu & _).
  set (q := 2 ^ Z.log2_up (bytes_to_chunks size_bytes)) in *.
  set (k := Z.to_nat (Z.log2_up (bytes_to_chunks size_bytes))).
  pose proof (Z.log2_up_nonneg (bytes_to_chunks size_bytes)).
  assert (q = 2 ^ Z.of_nat k) as Hq by (unfold q, k; f_equal; lia).
  assert (k ≤ 56)%nat as Hk.
  { pose proof (Z.log2_up_le_mono (bytes_to_chunks size_bytes) (2 ^ 56) ltac:(lia)) as Hl.
    rewrite Z.log2_up_pow2 in Hl by lia. lia. }
  destruct (pad_unit_pow2 k) as [Hpu Hk4]. rewrite Hq, Hpu in Hu.
  destruct (split_nodes_loop_spec k (k - 4) 65 p) as (js & Hrun & Hsort & _ & Hsum & Hl & Hl');
    [lia|rewrite Z.pow_add_r by lia; change (2 ^ 1) with 2; lia|done|].
  rewrite <- Hq in Hrun, Hl'. exists p, q, js. unfold split_nodes. rewrite Hp. cbn [res_bind].
  split_and!; auto. destruct (decide (p = q)) as [->|Hpq]; [|lia].
  rewrite split_nodes_loop_exact in Hrun by lia. injection Hrun as Hrun.
  apply (f_equal length) in Hrun. unfold pow2s in Hrun. rewrite length_fmap in Hrun. simpl in Hrun. lia.
Qed.

(** ** Lemmas: chunk arrays *)

Lemma sub_array_spec c s e :
  0 ≤ start_index c → start_index c ≤ s → s < e → e ≤ start_index c + ca_chunks c →
  sub_array c s e =
  Some (MkChunkArray (ztake ((e - s) * 256) (zdrop ((s - start_index c) * 256) (ca_data c))) s).
Proof.
  intros. unfold sub_array. unfold ca_chunks in *.
  rewrite (proj2 (Z.leb_gt _ s)), (proj2 (Z.ltb_ge s _)), (proj2 (Z.ltb_ge _ e)),
    (proj2 (Z.leb_gt e _)), (proj2 (Z.leb_gt e s)) by lia. simpl.
  rewrite get_range_Some by slia. simpl. do 3 f_equal. slia.
Qed.
