(* ===== verification/ChunkData.v ===== *)
(** * Chunk data: [node/storage/src/log_store/load_chunk/chunk_data.rs]

    [EntryBatchData] stores the sectors of one load chunk, either completely or
    as a list of separate runs ([PartialBatch]). *)

From S2P Require Import Prelude Bytes IonianSpec.
#[local] Open Scope Z_scope.

(** ** Data *)

Record PartialBatch : Type := MkPartial {
  start_sector : Z;
  pb_data : list Z;
}.

Inductive EntryBatchData : Type :=
| Complete (data : list Z)
| Incomplete (data_list : list PartialBatch).

Definition end_sector (p : PartialBatch) : Z :=
  start_sector p + bytes_to_chunks (zlen (pb_data p)).

(** [PartialBatch::find]: the run that holds a sector, or the place of a run
    that starts there.  The index [possible_index] is in range. *)
Definition pb_find (data_list : list PartialBatch) (sector_index : Z) : nat + nat :=
  let hit i :=
    match data_list !! i with
    | Some p => if sector_index <? end_sector p then inl i else inr (i + 1)%nat
    | None => inr (i + 1)%nat
    end in
  match binary_search_by_key start_sector sector_index data_list with
  | inl x => hit x
  | inr O => inr O
  | inr (S x) => hit x
  end.

(** ** Queries *)

Definition EntryBatchData_new : EntryBatchData := Incomplete [].

Definition ebd_is_empty (b : EntryBatchData) : bool :=
  match b with Incomplete [] => true | _ => false end.

Definition ebd_get (b : EntryBatchData) (start_byte length_byte : Z) : res (option (list Z)) :=
  let? _ := assert (start_byte + length_byte <=? BYTES_PER_LOAD)
    "assertion failed: start_byte + length_byte <= BYTES_PER_LOAD" in
  match b with
  | Complete data => Ok (get_range data start_byte (start_byte + length_byte))
  | Incomplete data_list =>
      match pb_find data_list (start_byte / BYTES_PER_SECTOR) with
      | inr _ => Ok None
      | inl i =>
          let? p := index data_list i in
          let? start_byte := usub start_byte (start_sector p * BYTES_PER_SECTOR) in
          Ok (get_range (pb_data p) start_byte (start_byte + length_byte))
      end
  end.

(** [get_mut], and writing [f slice] through the returned reference. *)
Definition ebd_get_mut (b : EntryBatchData) (start_byte length_byte : Z)
    (f : list Z → list Z) : res (option EntryBatchData) :=
  let? _ := assert (start_byte + length_byte <=? BYTES_PER_LOAD)
    "assertion failed: start_byte + length_byte <= BYTES_PER_LOAD" in
  match b with
  | Complete data =>
      Ok (slice ← get_range data start_byte (start_byte + length_byte);
          Some (Complete (splice data start_byte (f slice))))
  | Incomplete data_list =>
      match pb_find data_list (start_byte / BYTES_PER_SECTOR) with
      | inr _ => Ok None
      | inl i =>
          let? p := index data_list i in
          let? start_byte := usub start_byte (start_sector p * BYTES_PER_SECTOR) in
          Ok (slice ← get_range (pb_data p) start_byte (start_byte + length_byte);
              Some (Incomplete (<[i := MkPartial (start_sector p)
                                         (splice (pb_data p) start_byte (f slice))]> data_list)))
      end
  end.

Definition available_range_entries (b : EntryBatchData) : list (Z * Z) :=
  match b with
  | Complete data => [(0, zlen data / BYTES_PER_SECTOR)]
  | Incomplete batch_list =>
      (λ b, (start_sector b, zlen (pb_data b) / BYTES_PER_SECTOR)) <$> batch_list
  end.

(** ** Updates *)

Definition ebd_truncate (b : EntryBatchData) (truncated_byte : Z) : res EntryBatchData :=
  let? _ := assert (truncated_byte mod BYTES_PER_SECTOR =? 0)
    "assertion failed: truncated_byte % BYTES_PER_SECTOR == 0" in
  match b with
  | Complete data => Ok (Incomplete [MkPartial 0 (ztake truncated_byte data)])
  | Incomplete batch_list =>
      match pb_find batch_list (truncated_byte / BYTES_PER_SECTOR) with
      | inl x =>
          let? p := index batch_list x in
          let? truncated_byte := usub truncated_byte (start_sector p * BYTES_PER_SECTOR) in
          let p := MkPartial (start_sector p) (ztake truncated_byte (pb_data p)) in
          let partial_batch_truncate :=
            match pb_data p with [] => x | _ => (x + 1)%nat end in
          Ok (Incomplete (take partial_batch_truncate (<[x := p]> batch_list)))
      | inr x => Ok (Incomplete (take x batch_list))
      end
  end.

Definition get_intact_sealing_index (start_sector length_sector : Z) : Z * Z :=
  (as_u16 ((start_sector + SECTORS_PER_SEAL - 1) / SECTORS_PER_SEAL),
   as_u16 ((start_sector + length_sector) / SECTORS_PER_SEAL)).

Definition get_covered_sealing_index (start_sector length_sector : Z) : Z * Z :=
  (as_u16 (start_sector / SECTORS_PER_SEAL),
   as_u16 ((start_sector + length_sector + SECTORS_PER_SEAL - 1) / SECTORS_PER_SEAL)).

(** [Range::contains] and iteration over a [Range]. *)
Definition range_contains (r : Z * Z) (x : Z) : bool := (r.1 <=? x) && (x <? r.2).
Definition range_list (r : Z * Z) : list Z := seqZ r.1 (r.2 - r.1).

(** The new list and [updated_segment], by the cases of [merge_prev] and
    [merge_next]. *)
Definition insert_segment (l : list PartialBatch) (position : nat) (start : Z) (data : list Z)
    : list PartialBatch * PartialBatch :=
  let merge_prev :=
    p ← (match position with O => None | S i => l !! i end);
    if start =? end_sector p then Some p else None in
  let merge_next :=
    q ← l !! position;
    if start + zlen data / BYTES_PER_SECTOR =? start_sector q then Some q else None in
  match merge_prev, merge_next with
  | None, None =>
      let s := MkPartial start data in
      (take position l ++ s :: drop position l, s)
  | Some p, None =>
      let s := MkPartial (start_sector p) (pb_data p ++ data) in
      (<[(position - 1)%nat := s]> l, s)
  | None, Some q =>
      let s := MkPartial start (data ++ pb_data q) in
      (<[position := s]> l, s)
  | Some p, Some q =>
      let s := MkPartial (start_sector p) (pb_data p ++ data ++ pb_data q) in
      (<[(position - 1)%nat := s]> (delete position l), s)
  end.

(** [Incomplete] becomes [Complete] when its only run covers the load chunk. *)
Definition complete_if_full (l : list PartialBatch) : EntryBatchData :=
  match l with
  | [p] =>
      if (start_sector p =? 0) && (bytes_to_chunks (zlen (pb_data p)) =? SECTORS_PER_LOAD)
      then Complete (pb_data p) else Incomplete l
  | _ => Incomplete l
  end.

Definition ebd_insert_data (start_byte : Z) (data : list Z) : st EntryBatchData (list Z) :=
  let! _ := st_lift (assert (start_byte mod BYTES_PER_SECTOR =? 0)
    "assertion failed: start_byte % BYTES_PER_SECTOR == 0") in
  let! _ := st_lift (assert (zlen data mod BYTES_PER_SECTOR =? 0)
    "assertion failed: data.len() % BYTES_PER_SECTOR == 0") in
  if zlen data =? 0 then st_ret [] else
  let! b := st_get in
  match b with
  | Complete _ => st_lift (Err "overwriting a completed PoRA Chunk with partial data")
  | Incomplete l =>
      let start := start_byte / BYTES_PER_SECTOR in
      let end_ := start + zlen data / BYTES_PER_SECTOR in
      let length_sector := zlen data / BYTES_PER_SECTOR in
      match pb_find l start, pb_find l (end_ - 1) with
      | inl _, _ => st_lift (Err "start position overlapped with existing batch")
      | inr _, inl _ => st_lift (Err "end position overlapped with existing batch")
      | inr start_insert_position, inr end_insert_position =>
          if negb (start_insert_position =? end_insert_position)%nat
          then st_lift (Err "data overlapped with existing batches")
          else
            let '(l, updated_segment) :=
              insert_segment l start_insert_position start data in
            let intact_seal_idxs :=
              get_intact_sealing_index (start_sector updated_segment)
                (zlen (pb_data updated_segment) / BYTES_PER_SECTOR) in
            st_put (complete_if_full l);;
            st_ret (filter (λ x, range_contains intact_seal_idxs x = true)
                      (range_list (get_covered_sealing_index start length_sector)))
      end
  end.
