(* ===== verification/ChunkRuns.v ===== *)
(** * Correctness of the chunk data

    [EntryBatchData] stores a partial function from byte offsets to bytes: what
    each operation of [ChunkData] does to it, and the invariant of the runs. *)

From stdpp Require Import sorting.
From S2P Require Import Prelude Bytes IonianSpec ChunkData.
#[local] Open Scope Z_scope.

(** ** The stored bytes *)

Definition piece (p : PartialBatch) (i : Z) : option Z :=
  if start_sector p * 256 <=? i then pb_data p !! Z.to_nat (i - start_sector p * 256) else None.

Definition content (l : list PartialBatch) (i : Z) : option Z :=
  foldr (λ p acc, piece p i ∪ acc) None l.

Definition byte_at (b : EntryBatchData) (i : Z) : option Z :=
  match b with
  | Complete data => piece (MkPartial 0 data) i
  | Incomplete l => content l i
  end.

(** A run is a non-empty sequence of sectors inside the load chunk; runs are
    ordered and never touch. *)
Record good (p : PartialBatch) : Prop := {
  good_start : 0 ≤ start_sector p;
  good_nonempty : 0 < zlen (pb_data p);
  good_aligned : zlen (pb_data p) mod 256 = 0;
  good_end : end_sector p ≤ 1024;
}.
Definition gap (p q : PartialBatch) : Prop := end_sector p < start_sector q.
Definition wf_runs (l : list PartialBatch) : Prop := Forall good l ∧ StronglySorted gap l.

Definition is_full (l : list PartialBatch) : Prop :=
  ∃ p, l = [p] ∧ start_sector p = 0 ∧ end_sector p = 1024.

Definition ebd_wf (b : EntryBatchData) : Prop :=
  match b with
  | Complete data => zlen data = 262144
  | Incomplete l => wf_runs l ∧ ¬ is_full l
  end.

Lemma end_sector_bytes p :
  zlen (pb_data p) mod 256 = 0 → end_sector p * 256 = start_sector p * 256 + zlen (pb_data p).
Proof. intros H. unfold end_sector. pose proof (bytes_to_chunks_exact _ H). lia. Qed.

Lemma good_bytes p : good p → end_sector p * 256 = start_sector p * 256 + zlen (pb_data p).
Proof. intros Hp. apply end_sector_bytes, Hp. Qed.

Lemma good_lt p : good p → start_sector p < end_sector p.
Proof. intros Hp. pose proof (good_bytes p Hp). pose proof (good_nonempty p Hp). lia. Qed.

Lemma piece_Some p i b :
  piece p i = Some b → start_sector p * 256 ≤ i < start_sector p * 256 + zlen (pb_data p).
Proof.
  unfold piece. destruct (Z.leb_spec (start_sector p * 256) i); [|done].
  intros Hb%lookup_lt_Some. unfold zlen. lia.
Qed.

Lemma piece_is_Some p i :
  start_sector p * 256 ≤ i < start_sector p * 256 + zlen (pb_data p) → is_Some (piece p i).
Proof.
  intros Hi. unfold piece. rewrite (proj2 (Z.leb_le _ _)) by lia.
  apply lookup_lt_is_Some_2. unfold zlen in Hi. lia.
Qed.

Lemma piece_None p i :
  i < start_sector p * 256 ∨ start_sector p * 256 + zlen (pb_data p) ≤ i → piece p i = None.
Proof.
  intros Hi. destruct (piece p i) eqn:Hb; [|done]. apply piece_Some in Hb. lia.
Qed.

Lemma content_cons p l i : content (p :: l) i = piece p i ∪ content l i.
Proof. done. Qed.

Lemma content_app l1 l2 i : content (l1 ++ l2) i = content l1 i ∪ content l2 i.
Proof.
  induction l1 as [|p l1 IH]; simpl; [by destruct (content l2 i)|].
  rewrite IH. by destruct (piece p i), (content l1 i), (content l2 i).
Qed.

Lemma content_Some l i b : content l i = Some b → ∃ p, p ∈ l ∧ piece p i = Some b.
Proof.
  induction l as [|p l IH]; simpl; [done|]. destruct (piece p i) eqn:Hp; simpl.
  - intros Hb. exists p. split; [set_solver|]. rewrite Hp. by destruct (content l i).
  - intros Hb. destruct IH as (q & ? & ?); [by destruct (content l i)|].
    exists q. split; [set_solver|done].
Qed.

(** Outside the bytes of the runs nothing is stored. *)
Lemma content_None l i :
  Forall (λ p, i < start_sector p * 256 ∨ start_sector p * 256 + zlen (pb_data p) ≤ i) l →
  content l i = None.
Proof.
  intros Hl. destruct (content l i) eqn:Hb; [|done]. apply content_Some in Hb as (p & Hp & Hb).
  rewrite Forall_forall in Hl. rewrite piece_None in Hb; auto.
Qed.

(** ** [PartialBatch::find] *)

Lemma wf_runs_app l1 l2 :
  wf_runs (l1 ++ l2) ↔
  wf_runs l1 ∧ wf_runs l2 ∧ (∀ p q, p ∈ l1 → q ∈ l2 → end_sector p < start_sector q).
Proof. unfold wf_runs. rewrite Forall_app, StronglySorted_app. unfold gap. tauto. Qed.

Lemma wf_runs_singleton p : wf_runs [p] ↔ good p.
Proof.
  unfold wf_runs. rewrite Forall_singleton. split; [tauto|].
  intros. split; [done|by repeat constructor].
Qed.

Lemma wf_runs_good l p : wf_runs l → p ∈ l → good p.
Proof. intros [Hg _] Hp. rewrite Forall_forall in Hg. auto. Qed.

Lemma runs_after x l s :
  wf_runs (x :: l) → s ≤ start_sector x → Forall (λ p, s < start_sector p) l.
Proof.
  rewrite (wf_runs_app [x] l), wf_runs_singleton. intros (Hx%good_lt & _ & Hxl) Hs.
  apply Forall_forall. intros q Hq.
  assert (end_sector x < start_sector q) by (apply Hxl; [by apply list_elem_of_singleton|done]). lia.
Qed.

Lemma runs_before x l s :
  wf_runs (l ++ [x]) → end_sector x ≤ s → Forall (λ p, end_sector p ≤ s) (l ++ [x]).
Proof.
  rewrite wf_runs_app, wf_runs_singleton. intros (_ & Hx%good_lt & Hxl) Hs.
  apply Forall_app. split; [|by apply Forall_singleton].
  apply Forall_forall. intros q Hq.
  assert (end_sector q < start_sector x) by (apply Hxl; [done|by apply list_elem_of_singleton]). lia.
Qed.

(** The run [p] that ends the prefix of the runs starting before [s], if any. *)
Lemma pb_find_split l s :
  ∃ l1 l2, l = l1 ++ l2 ∧ Forall (λ p, start_sector p < s) l1 ∧
    (∀ x l', l2 = x :: l' → s ≤ start_sector x) ∧
    pb_find l s =
      match l2 !! 0%nat, last l1 with
      | Some x, o =>
          if start_sector x =? s then
            if s <? end_sector x then inl (length l1) else inr (length l1 + 1)%nat
          else match o with
               | None => inr 0%nat
               | Some p => if s <? end_sector p then inl (length l1 - 1)%nat else inr (length l1)
               end
      | None, None => inr 0%nat
      | None, Some p => if s <? end_sector p then inl (length l1 - 1)%nat else inr (length l1)
      end.
Proof.
  unfold pb_find, binary_search_by_key.
  destruct (lower_bound_split start_sector s l) as (l1 & l2 & -> & Hlen & H1 & H2).
  exists l1, l2. split_and!; [done..|]. rewrite <- Hlen, lookup_app_r, Nat.sub_diag by lia.
  destruct (exists_last_or_nil l1) as [->|(l1' & p & ->)].
  - simpl. destruct (l2 !! 0%nat) as [x|] eqn:Hx; [|done].
    destruct (start_sector x =? s); [|done]. by rewrite Hx.
  - rewrite last_snoc, length_app. simpl.
    replace (length l1' + 1)%nat with (S (length l1')) by lia.
    rewrite Nat.sub_succ, Nat.sub_0_r.
    assert (((l1' ++ [p]) ++ l2) !! length l1' = Some p) as Hp.
    { rewrite <- app_assoc. by apply list_lookup_middle. }
    assert (((l1' ++ [p]) ++ l2) !! S (length l1') = l2 !! 0%nat) as Hx.
    { rewrite lookup_app_r by (rewrite length_app; simpl; lia). f_equal.
      rewrite length_app. simpl. lia. }
    destruct (l2 !! 0%nat) as [x|]; [destruct (start_sector x =? s)|]; rewrite ?Hx, ?Hp;
      case_match; f_equal; lia.
Qed.

Lemma pb_find_spec l s :
  wf_runs l →
  match pb_find l s with
  | inl i => ∃ p, l !! i = Some p ∧ start_sector p ≤ s < end_sector p
  | inr i => ∃ l1 l2, l = l1 ++ l2 ∧ i = length l1 ∧
      Forall (λ p, end_sector p ≤ s) l1 ∧ Forall (λ p, s < start_sector p) l2
  end.
Proof.
  intros Hwf. destruct (pb_find_split l s) as (l1 & l2 & -> & H1 & H2 & ->).
  pose proof Hwf as (Hwf1 & Hwf2 & _)%wf_runs_app.
  assert (∀ x l', l2 = x :: l' → start_sector x ≠ s → Forall (λ p, s < start_sector p) l2) as Hafter.
  { intros x l' -> Hne. specialize (H2 x l' eq_refl).
    constructor; [lia|by apply (runs_after x)]. }
  assert (∀ p, last l1 = Some p →
    match (if s <? end_sector p then inl (length l1 - 1)%nat else inr (length l1)) with
    | inl i => ∃ p, (l1 ++ l2) !! i = Some p ∧ start_sector p ≤ s < end_sector p
    | inr i => i = length l1 ∧ Forall (λ p, end_sector p ≤ s) l1
    end) as Hbefore.
  { intros p Hp. destruct (exists_last_or_nil l1) as [->|(l1' & q & ->)]; [done|].
    rewrite last_snoc in Hp. injection Hp as ->.
    apply Forall_app in H1 as [_ H1]. rewrite Forall_singleton in H1.
    destruct (Z.ltb_spec s (end_sector p)); [|split; [done|by apply runs_before]].
    exists p. split; [|lia]. rewrite length_app, Nat.add_sub, <- app_assoc.
    by apply list_lookup_middle. }
  destruct l2 as [|x l2]; simpl.
  - destruct (last l1) as [p|] eqn:Hp.
    + specialize (Hbefore p eq_refl). case_match; simplify_eq; [done|].
      destruct Hbefore as [-> ?]. exists l1, []. by rewrite app_nil_r.
    + apply last_None in Hp as ->. by exists [], [].
  - destruct (Z.eqb_spec (start_sector x) s) as [<-|Hne].
    + assert (start_sector x < end_sector x) by (apply good_lt; eapply wf_runs_good; [exact Hwf|];
        set_solver).
      rewrite (proj2 (Z.ltb_lt _ _)) by lia. exists x. split; [by apply list_lookup_middle|lia].
    + specialize (Hafter x l2 eq_refl Hne). destruct (last l1) as [p|] eqn:Hp.
      * specialize (Hbefore p eq_refl). case_match; simplify_eq; [done|].
        destruct Hbefore as [-> ?]. by exists l1, (x :: l2).
      * apply last_None in Hp as ->. by exists [], (x :: l2).
Qed.

(** ** [get] *)

(** The bytes [i .. i + n) of a partial function, if it has all of them. *)
Definition read_range (f : Z → option Z) (i n : Z) : option (list Z) := mapM f (seqZ i n).

Lemma read_range_ext f g i n :
  (∀ k, i ≤ k < i + n → f k = g k) → read_range f i n = read_range g i n.
Proof.
  intros Hfg. unfold read_range. apply Forall_mapM_ext, Forall_seqZ. intros k Hk.
  apply Hfg. lia.
Qed.

Lemma read_range_None f i n k : i ≤ k < i + n → f k = None → read_range f i n = None.
Proof.
  intros Hk Hf. apply mapM_None_2, Exists_exists. exists k. split; [|done].
  apply elem_of_seqZ. lia.
Qed.

Lemma read_range_Some f i n bs :
  0 ≤ n → (read_range f i n = Some bs ↔ zlen bs = n ∧ ∀ k, 0 ≤ k < n → f (i + k) = bs !! Z.to_nat k).
Proof.
  intros Hn. unfold read_range. rewrite mapM_Some. split.
  - intros Hl. pose proof (Forall2_length _ _ _ Hl) as Hlen. rewrite length_seqZ in Hlen.
    split; [unfold zlen; lia|]. intros k Hk. rewrite Forall2_lookup in Hl.
    specialize (Hl (Z.to_nat k)).
    rewrite lookup_seqZ_lt, Z2Nat.id in Hl by lia.
    destruct (bs !! Z.to_nat k) as [y|]; by inversion Hl.
  - intros [Hlen Hk]. apply Forall2_lookup. intros k.
    destruct (decide (Z.of_nat k < n)) as [Hlt|Hge].
    + specialize (Hk (Z.of_nat k)). rewrite Nat2Z.id in Hk.
      rewrite lookup_seqZ_lt by lia.
      destruct (lookup_lt_is_Some_2 bs k) as [y Hy]; [unfold zlen in Hlen; lia|].
      rewrite Hy. constructor. rewrite Hk by lia. done.
    + rewrite lookup_seqZ_ge by lia. rewrite lookup_ge_None_2 by (unfold zlen in Hlen; lia).
      constructor.
Qed.

Lemma read_range_piece p i n :
  0 ≤ n → start_sector p * 256 ≤ i → i + n ≤ start_sector p * 256 + zlen (pb_data p) →
  read_range (piece p) i n = Some (ztake n (zdrop (i - start_sector p * 256) (pb_data p))).
Proof.
  intros Hn Hi Hin. apply read_range_Some; [done|]. split.
  - rewrite zlen_ztake, zlen_zdrop by lia. lia.
  - intros k Hk. unfold piece, ztake, zdrop. rewrite (proj2 (Z.leb_le _ _)) by lia.
    rewrite lookup_take_lt, lookup_drop by lia. f_equal. lia.
Qed.

Lemma content_in_run l p i :
  wf_runs l → p ∈ l → start_sector p * 256 ≤ i < end_sector p * 256 → content l i = piece p i.
Proof.
  intros Hwf (l1 & l2 & ->)%list_elem_of_split Hi.
  rewrite content_app, content_cons.
  pose proof Hwf as (_ & Hwf2 & H1)%wf_runs_app.
  rewrite (wf_runs_app [p] l2) in Hwf2. destruct Hwf2 as (_ & _ & H2).
  rewrite !content_None.
  - by destruct (piece p i).
  - apply Forall_forall. intros q Hq.
    assert (good q) by (eapply wf_runs_good; [exact Hwf|set_solver]).
    left. specialize (H2 p q ltac:(left) Hq). lia.
  - apply Forall_forall. intros q Hq.
    assert (good q) as Hg by (eapply wf_runs_good; [exact Hwf|set_solver]).
    right. rewrite <- good_bytes by done. specialize (H1 q p Hq ltac:(left)). lia.
Qed.

(** Right after a run nothing is stored: runs do not touch. *)
Lemma content_after_run l p : wf_runs l → p ∈ l → content l (end_sector p * 256) = None.
Proof.
  intros Hwf (l1 & l2 & ->)%list_elem_of_split.
  pose proof Hwf as (_ & Hwf2 & H1)%wf_runs_app.
  rewrite (wf_runs_app [p] l2), wf_runs_singleton in Hwf2. destruct Hwf2 as (Hp & _ & H2).
  apply content_None, Forall_app. split; [|constructor].
  - apply Forall_forall. intros q Hq. right.
    assert (good q) as Hg by (eapply wf_runs_good; [exact Hwf|set_solver]).
    rewrite <- good_bytes by done. specialize (H1 q p Hq ltac:(left)).
    pose proof (good_lt p Hp). lia.
  - right. rewrite <- good_bytes by done. lia.
  - apply Forall_forall. intros q Hq. left. specialize (H2 p q ltac:(left) Hq). lia.
Qed.

Lemma ebd_get_spec b i n :
  ebd_wf b → 0 ≤ i → 0 < n → i + n ≤ 262144 → ebd_get b i n = Ok (read_range (byte_at b) i n).
Proof.
  intros Hwf Hi Hn Hin. unfold ebd_get. rewrite (proj2 (Z.leb_le _ _)) by slia. simpl.
  destruct b as [data|l]; simpl in Hwf.
  - f_equal. rewrite get_range_Some by lia.
    pose proof (read_range_piece (MkPartial 0 data) i n) as Hr. simpl in Hr.
    change (byte_at (Complete data)) with (piece (MkPartial 0 data)).
    rewrite Hr by lia. do 2 f_equal; [lia|f_equal; lia].
  - destruct Hwf as [Hwf _]. pose proof (pb_find_spec l (i / BYTES_PER_SECTOR) Hwf) as Hf.
    destruct (pb_find l _) as [k|k].
    + destruct Hf as (p & Hp & Hs). unfold index. rewrite Hp. simpl.
      assert (p ∈ l) as Hin' by by eapply list_elem_of_lookup_2.
      assert (good p) as Hg by by eapply wf_runs_good.
      pose proof (good_bytes p Hg). unfold usub. rewrite (proj2 (Z.leb_le _ _)) by slia. simpl.
      spec_consts. f_equal. destruct (decide (i + n ≤ end_sector p * 256)).
      * rewrite get_range_Some by lia. symmetry.
        rewrite (read_range_ext _ (piece p)).
        { rewrite read_range_piece by slia. do 2 f_equal. lia. }
        intros j Hj. apply content_in_run; [done..|slia].
      * rewrite get_range_None by lia. symmetry.
        apply (read_range_None _ _ _ (end_sector p * 256)); [slia|by apply content_after_run].
    + destruct Hf as (l1 & l2 & -> & _ & H1 & H2). f_equal. symmetry.
      apply (read_range_None _ _ _ i); [lia|]. apply content_None, Forall_app.
      destruct Hwf as [[Hg _]%Forall_app _]. split.
      * eapply Forall_impl; [apply Forall_and; split; [exact Hg|exact H1]|].
        intros p [Hp Hs]. right. rewrite <- good_bytes by done. slia.
      * apply (Forall_impl _ _ _ H2). intros p Hs. left. slia.
Qed.

(** ** [insert_data] *)

(** The run made of an optional run before, new data, and an optional run after. *)
Definition joined (pre : option PartialBatch) (start : Z) (data : list Z)
    (post : option PartialBatch) : PartialBatch :=
  MkPartial (from_option start_sector start pre)
    (from_option pb_data [] pre ++ data ++ from_option pb_data [] post).

Lemma insert_segment_form l1 l2 start data :
  ∃ a pre post b,
    l1 = a ++ option_list pre ∧ l2 = option_list post ++ b ∧
    from_option (λ p, end_sector p = start) (∀ p, last l1 = Some p → end_sector p ≠ start) pre ∧
    from_option (λ q, start_sector q = start + zlen data / 256)
      (∀ q, head l2 = Some q → start_sector q ≠ start + zlen data / 256) post ∧
    insert_segment (l1 ++ l2) (length l1) start data =
      (a ++ joined pre start data post :: b, joined pre start data post).
Proof.
  unfold insert_segment. rewrite lookup_app_r, Nat.sub_diag by lia. spec_consts.
  destruct (exists_last_or_nil l1) as [->|(a & p & ->)].
  - destruct l2 as [|q b]; simpl.
    + exists [], None, None, []. unfold joined. simpl. by rewrite app_nil_r.
    + destruct (Z.eqb_spec (start + zlen data / 256) (start_sector q)).
      * exists [], None, (Some q), b. by unfold joined.
      * exists [], None, None, (q :: b). unfold joined. simpl. rewrite app_nil_r.
        split_and!; try done. by intros ? [= <-].
  - rewrite length_app. simpl. replace (length a + 1)%nat with (S (length a)) by lia.
    rewrite <- app_assoc. cbn [app]. rewrite list_lookup_middle by done. simpl.
    rewrite Nat.sub_0_r.
    destruct (Z.eqb_spec start (end_sector p)), l2 as [|q b]; simpl;
      [|destruct (Z.eqb_spec (start + zlen data / 256) (start_sector q))
       | |destruct (Z.eqb_spec (start + zlen data / 256) (start_sector q))].
    + exists a, (Some p), None, []. unfold joined. simpl.
      rewrite insert_app_r_alt, Nat.sub_diag, app_nil_r by lia. done.
    + exists a, (Some p), (Some q), b. unfold joined. simpl.
      assert (delete (S (length a)) (a ++ p :: q :: b) = a ++ p :: b) as ->.
      { pose proof (delete_middle (a ++ [p]) b q) as Hd.
        by rewrite length_app, <- !app_assoc, Nat.add_1_r in Hd. }
      rewrite insert_app_r_alt, Nat.sub_diag by lia. done.
    + exists a, (Some p), None, (q :: b). unfold joined. simpl.
      rewrite insert_app_r_alt, Nat.sub_diag, app_nil_r by lia.
      split_and!; try done. by intros ? [= <-].
    + exists (a ++ [p]), None, None, []. unfold joined. simpl.
      rewrite !app_nil_r. split_and!; try done.
      * intros ?. rewrite last_snoc. intros [= <-]. done.
      * rewrite firstn_all2, drop_ge by (rewrite length_app; simpl; lia). done.
    + exists (a ++ [p]), None, (Some q), b. unfold joined. simpl.
      rewrite !app_nil_r. split_and!; try done.
      * intros ?. rewrite last_snoc. intros [= <-]. done.
      * rewrite insert_app_r_alt, Nat.sub_succ_l, Nat.sub_diag by lia. simpl.
        by rewrite <- app_assoc.
    + exists (a ++ [p]), None, None, (q :: b). unfold joined. simpl.
      rewrite !app_nil_r. split_and!; try done.
      * intros ?. rewrite last_snoc. intros [= <-]. done.
      * by intros ? [= <-].
      * change (a ++ p :: q :: b) with (a ++ [p] ++ (q :: b)). rewrite (app_assoc a).
        rewrite take_app_length', drop_app_length' by (rewrite length_app; simpl; lia). done.
Qed.

(** Case analysis on the optional bytes of a union. *)
Ltac union_cases :=
  repeat match goal with
         | |- context [piece ?p ?i] => destruct (piece p i)
         | |- context [content ?l ?i] => destruct (content l i)
         end; try done.

Lemma piece_app s d1 d2 i :
  zlen d1 mod 256 = 0 →
  piece (MkPartial s (d1 ++ d2)) i =
  piece (MkPartial s d1) i ∪ piece (MkPartial (s + zlen d1 / 256) d2) i.
Proof.
  intros Hd. unfold piece. simpl.
  assert ((s + zlen d1 / 256) * 256 = s * 256 + zlen d1) as -> by slia.
  pose proof (zlen_nonneg d1). unfold zlen in *.
  destruct (Z.leb_spec (s * 256) i); [|by rewrite (proj2 (Z.leb_gt _ _)) by lia].
  rewrite lookup_app. destruct (d1 !! Z.to_nat (i - s * 256)) as [x|] eqn:Hx.
  - pose proof (lookup_lt_Some _ _ _ Hx). by rewrite (proj2 (Z.leb_gt _ _)) by lia.
  - apply lookup_ge_None in Hx. rewrite (proj2 (Z.leb_le _ _)) by lia.
    replace (Z.to_nat (i - s * 256) - length d1)%nat
      with (Z.to_nat (i - (s * 256 + Z.of_nat (length d1)))) by lia.
    by destruct (d2 !! _).
Qed.

Lemma piece_joined pre start data post i :
  zlen data mod 256 = 0 →
  from_option (λ p, good p ∧ end_sector p = start) True pre →
  from_option (λ q, start_sector q = start + zlen data / 256) True post →
  piece (joined pre start data post) i =
  content (option_list pre) i ∪ piece (MkPartial start data) i ∪ content (option_list post) i.
Proof.
  intros Hd Hpre Hpost. unfold joined.
  assert (piece (MkPartial start (data ++ from_option pb_data [] post)) i =
    piece (MkPartial start data) i ∪ content (option_list post) i) as Hnext.
  { rewrite piece_app by done. destruct post as [[sq dq]|]; simpl in *.
    - rewrite Hpost. union_cases.
    - rewrite (piece_None (MkPartial _ [])) by (simpl; rewrite zlen_nil; lia). union_cases. }
  destruct pre as [[sp dp]|]; simpl in *.
  - destruct Hpre as [Hp He]. rewrite piece_app by apply (good_aligned _ Hp).
    replace (sp + zlen dp / 256) with start.
    + rewrite Hnext. union_cases.
    + pose proof (good_bytes _ Hp) as Hb. pose proof (good_aligned _ Hp). simpl in *.
      rewrite He in Hb. slia.
  - rewrite Hnext. union_cases.
Qed.

Lemma end_joined pre start data post :
  zlen data mod 256 = 0 →
  from_option (λ p, good p ∧ end_sector p = start) True pre →
  from_option (λ q, good q ∧ start_sector q = start + zlen data / 256) True post →
  zlen (pb_data (joined pre start data post)) mod 256 = 0 ∧
  end_sector (joined pre start data post) =
    from_option end_sector (start + zlen data / 256) post.
Proof.
  intros Hd Hpre Hpost.
  assert (zlen (from_option pb_data [] pre) mod 256 = 0 ∧
    from_option start_sector start pre * 256 + zlen (from_option pb_data [] pre) = start * 256) as [H1 H1'].
  { destruct pre as [p|]; simpl in *; [|rewrite (zlen_nil (A := Z)); split; [done|lia]].
    destruct Hpre as [Hp <-]. split; [apply Hp|]. by rewrite good_bytes. }
  assert (zlen (from_option pb_data [] post) mod 256 = 0 ∧
    (start + zlen data / 256) * 256 + zlen (from_option pb_data [] post) =
    from_option end_sector (start + zlen data / 256) post * 256) as [H2 H2'].
  { destruct post as [q|]; simpl in *; [|rewrite (zlen_nil (A := Z)); split; [done|lia]].
    destruct Hpost as [Hq <-]. split; [apply Hq|]. by rewrite good_bytes. }
  assert (zlen (pb_data (joined pre start data post)) mod 256 = 0) as Hmod.
  { unfold joined. simpl. rewrite !zlen_app. slia. }
  split; [done|]. pose proof (end_sector_bytes _ Hmod) as He.
  unfold joined in *. cbn [start_sector pb_data] in He. rewrite !zlen_app in He. slia.
Qed.

Lemma ends_before l s x :
  wf_runs l → Forall (λ p, end_sector p ≤ s) l → (∀ p, last l = Some p → end_sector p ≠ s) →
  x ∈ l → end_sector x < s.
Proof.
  intros Hwf Hle Hlast Hx. rewrite Forall_forall in Hle.
  destruct (decide (end_sector x = s)) as [Heq|]; [|specialize (Hle x Hx); lia].
  apply list_elem_of_split in Hx as (l1 & l2 & ->).
  destruct (exists_last_or_nil l2) as [->|(l2' & y & ->)].
  - exfalso. by apply (Hlast x); [rewrite last_snoc|].
  - rewrite app_comm_cons, app_assoc in Hwf.
    assert (good y) as Hy by (eapply wf_runs_good; [exact Hwf|set_solver]).
    apply wf_runs_app in Hwf as (_ & _ & Hgap). specialize (Hgap x y ltac:(set_solver) ltac:(left)).
    specialize (Hle y ltac:(set_solver)). pose proof (good_lt y Hy). lia.
Qed.

Lemma starts_after l s y :
  wf_runs l → Forall (λ q, s ≤ start_sector q) l → (∀ q, head l = Some q → start_sector q ≠ s) →
  y ∈ l → s < start_sector y.
Proof.
  intros Hwf Hle Hhead Hy. destruct l as [|x l]; [by apply not_elem_of_nil in Hy|].
  apply Forall_cons in Hle as [Hx _]. specialize (Hhead x eq_refl).
  pose proof (runs_after x l s Hwf Hx) as Hl. rewrite Forall_forall in Hl.
  apply elem_of_cons in Hy as [->|Hy]; [lia|auto].
Qed.

Lemma insert_segment_spec l1 l2 start data :
  wf_runs (l1 ++ l2) → 0 ≤ start → 0 < zlen data → zlen data mod 256 = 0 →
  start + zlen data / 256 ≤ 1024 →
  Forall (λ p, end_sector p ≤ start) l1 →
  Forall (λ q, start + zlen data / 256 ≤ start_sector q) l2 →
  ∃ l seg, insert_segment (l1 ++ l2) (length l1) start data = (l, seg) ∧
    wf_runs l ∧ seg ∈ l ∧
    start_sector seg ≤ start ∧ start + zlen data / 256 ≤ end_sector seg ∧
    ∀ i, content l i = piece (MkPartial start data) i ∪ content (l1 ++ l2) i.
Proof.
  intros Hwf Hs0 Hd0 Hd Hend Hl1 Hl2.
  destruct (insert_segment_form l1 l2 start data)
    as (a & pre & post & b & -> & -> & Hpre & Hpost & ->).
  set (seg := joined pre start data post). exists (a ++ seg :: b), seg.
  assert (from_option (λ p, good p ∧ end_sector p = start) True pre) as Hpre'.
  { destruct pre as [p|]; [|done]. split; [|done]. eapply wf_runs_good; [exact Hwf|set_solver]. }
  assert (from_option (λ q, good q ∧ start_sector q = start + zlen data / 256) True post) as Hpost'.
  { destruct post as [p|]; [|done]. split; [|done]. eapply wf_runs_good; [exact Hwf|set_solver]. }
  destruct (end_joined pre start data post Hd Hpre' Hpost') as [Hmod He]. fold seg in Hmod, He.
  pose proof Hwf as (Hwf1 & Hwf2 & Hwf12)%wf_runs_app.
  pose proof Hwf1 as (Hwfa & _ & Hap)%wf_runs_app. pose proof Hwf2 as (_ & Hwfb & Hpb)%wf_runs_app.
  assert (start_sector seg ≤ start ∧ 0 ≤ start_sector seg) as [Hss Hss0].
  { unfold seg, joined. destruct pre as [p|]; simpl in *; [|lia].
    destruct Hpre' as [Hp <-]. pose proof (good_lt p Hp). pose proof (good_start p Hp). lia. }
  assert (start + zlen data / 256 ≤ end_sector seg ≤ 1024) as [Hse Hse'].
  { rewrite He. destruct post as [q|]; simpl in *; [|lia].
    destruct Hpost' as [Hq <-]. pose proof (good_lt q Hq). pose proof (good_end q Hq). lia. }
  assert (good seg) as Hgood.
  { pose proof (end_sector_bytes _ Hmod). split; [done| |done|done]. slia. }
  assert (∀ x, x ∈ a → end_sector x < start_sector seg) as Ha.
  { intros x Hx. unfold seg, joined. destruct pre as [p|]; simpl in *.
    - apply Hap; [done|left].
    - rewrite app_nil_r in *. by apply (ends_before a). }
  assert (∀ y, y ∈ b → end_sector seg < start_sector y) as Hb.
  { intros y Hy. rewrite He. destruct post as [q|]; simpl in *.
    - apply Hpb; [left|done].
    - by apply (starts_after b). }
  split_and!; [done| |set_solver|done|done|].
  - apply wf_runs_app. rewrite (wf_runs_app [seg] b), wf_runs_singleton.
    split_and!; [done..| |]; intros p q; [intros ->%list_elem_of_singleton; auto|].
    intros Hp [->|Hq]%elem_of_cons; [auto|]. specialize (Ha p Hp). specialize (Hb q Hq).
    pose proof (good_lt seg Hgood). lia.
  - intros i. assert (is_Some (piece (MkPartial start data) i) →
      content (a ++ option_list pre) i = None) as Hdisj.
    { intros [x Hx%piece_Some]. simpl in Hx. apply content_None.
      eapply Forall_impl; [apply Forall_and; split; [exact (proj1 Hwf1)|exact Hl1]|].
      intros p [Hp Hle]. right. rewrite <- good_bytes by done. lia. }
    rewrite content_app, content_cons, !content_app in *. unfold seg.
    rewrite piece_joined by (try done; by destruct post; [destruct Hpost'|]).
    destruct (piece (MkPartial start data) i); [|union_cases].
    specialize (Hdisj ltac:(by eexists)). revert Hdisj. union_cases.
Qed.

Lemma content_before_run l p : wf_runs l → p ∈ l → content l (start_sector p * 256 - 1) = None.
Proof.
  intros Hwf (l1 & l2 & ->)%list_elem_of_split.
  pose proof Hwf as (_ & Hwf2 & H1)%wf_runs_app.
  rewrite (wf_runs_app [p] l2), wf_runs_singleton in Hwf2. destruct Hwf2 as (Hp & _ & H2).
  apply content_None, Forall_app. split; [|constructor].
  - apply Forall_forall. intros q Hq. right.
    assert (good q) as Hg by (eapply wf_runs_good; [exact Hwf|set_solver]).
    rewrite <- good_bytes by done. specialize (H1 q p Hq ltac:(left)). lia.
  - left. lia.
  - apply Forall_forall. intros q Hq. left. specialize (H2 p q ltac:(left) Hq).
    pose proof (good_lt p Hp). lia.
Qed.

(** No byte of [i .. i + n) is stored. *)
Definition free (f : Z → option Z) (i n : Z) : Prop := ∀ k, i ≤ k < i + n → f k = None.

Lemma free_Forall f i n : Forall (λ k, f k = None) (seqZ i n) ↔ free f i n.
Proof.
  rewrite Forall_forall. unfold free. setoid_rewrite elem_of_seqZ. done.
Qed.
#[export] Instance free_dec f i n : Decision (free f i n).
Proof. destruct (decide (Forall (λ k, f k = None) (seqZ i n))) as [Hf|Hf]; [left|right]; by rewrite <- free_Forall. Defined.

(** The two searches of [insert_data] agree exactly when the range is free. *)
Lemma insert_position l start n :
  wf_runs l → 0 < n →
  match pb_find l start, pb_find l (start + n - 1) with
  | inr i, inr j =>
      if (i =? j)%nat then
        ∃ l1 l2, l = l1 ++ l2 ∧ i = length l1 ∧
          Forall (λ p, end_sector p ≤ start) l1 ∧ Forall (λ q, start + n ≤ start_sector q) l2
      else ¬ free (content l) (start * 256) (n * 256)
  | _, _ => ¬ free (content l) (start * 256) (n * 256)
  end.
Proof.
  intros Hwf Hn.
  assert (∀ p s, p ∈ l → start ≤ s < start + n → start_sector p ≤ s < end_sector p →
    ¬ free (content l) (start * 256) (n * 256)) as Hover.
  { intros p s Hp Hs Hps Hfree. specialize (Hfree (s * 256) ltac:(lia)).
    rewrite (content_in_run l p) in Hfree by (done || lia).
    pose proof (good_bytes p (wf_runs_good l p Hwf Hp)).
    destruct (piece_is_Some p (s * 256)) as [x Hx]; [lia|]. congruence. }
  pose proof (pb_find_spec l start Hwf) as H1. pose proof (pb_find_spec l (start + n - 1) Hwf) as H2.
  destruct (pb_find l start) as [i|i].
  { destruct H1 as (p & Hp & ?). apply (Hover p start); [by eapply list_elem_of_lookup_2|lia|done]. }
  destruct (pb_find l (start + n - 1)) as [j|j].
  { destruct H2 as (p & Hp & ?).
    apply (Hover p (start + n - 1)); [by eapply list_elem_of_lookup_2|lia|done]. }
  destruct H1 as (l1 & l2 & Hl & -> & Ha & Hb). destruct H2 as (k1 & k2 & Hk & -> & Hc & Hd).
  destruct (Nat.eqb_spec (length l1) (length k1)) as [Hlen|Hlen].
  { rewrite Hl in Hk. apply app_inj_1 in Hk as [-> ->]; [|done]. exists k1, k2.
    split_and!; [done..|]. eapply Forall_impl; [exact Hd|]. simpl. lia. }
  destruct (decide (length l1 < length k1)%nat).
  - destruct (lookup_lt_is_Some_2 k1 (length l1)) as [p Hp]; [done|].
    assert (l !! length l1 = Some p) as Hlp by (rewrite Hk; by apply lookup_app_l_Some).
    assert (p ∈ l2) as Hp2.
    { rewrite Hl, lookup_app_r, Nat.sub_diag in Hlp by lia. by eapply list_elem_of_lookup_2. }
    apply list_elem_of_lookup_2 in Hp, Hlp. rewrite Forall_forall in Hb, Hc.
    specialize (Hb p Hp2). specialize (Hc p Hp). simpl in *.
    pose proof (good_lt p (wf_runs_good l p Hwf Hlp)).
    apply (Hover p (start_sector p)); [done|lia|lia].
  - destruct (lookup_lt_is_Some_2 l1 (length k1)) as [p Hp]; [lia|].
    assert (l !! length k1 = Some p) as Hlp by (rewrite Hl; by apply lookup_app_l_Some).
    assert (p ∈ k2) as Hp2.
    { rewrite Hk, lookup_app_r, Nat.sub_diag in Hlp by lia. by eapply list_elem_of_lookup_2. }
    apply list_elem_of_lookup_2 in Hp, Hlp. rewrite Forall_forall in Ha, Hd.
    specialize (Ha p Hp). specialize (Hd p Hp2). simpl in *.
    pose proof (good_lt p (wf_runs_good l p Hwf Hlp)). lia.
Qed.

Lemma complete_if_full_spec l :
  wf_runs l → ebd_wf (complete_if_full l) ∧ ∀ i, byte_at (complete_if_full l) i = content l i.
Proof.
  intros Hwf. unfold complete_if_full. destruct l as [|p [|q l]].
  - split; [|done]. split; [done|]. by intros (? & ? & _).
  - apply wf_runs_singleton in Hwf as Hp. destruct (_ && _) eqn:Hfull.
    + apply andb_true_iff in Hfull as [Hs%Z.eqb_eq Hc%Z.eqb_eq]. split.
      * simpl. pose proof (bytes_to_chunks_exact _ (good_aligned p Hp)). slia.
      * intros i. simpl. destruct p as [sp dp]. simpl in *. subst sp. union_cases.
    + split; [|done]. split; [done|]. intros (? & [= <-] & Hs & He).
      apply andb_false_iff in Hfull as [Hf%Z.eqb_neq|Hf%Z.eqb_neq]; [done|].
      apply Hf. unfold end_sector in He. slia.
  - split; [|done]. split; [done|]. by intros (? & ? & _).
Qed.

(** [x] is a seal chunk that meets the sectors [start .. start + n). *)
Definition meets (x start n : Z) : Prop := x * 16 < start + n ∧ start < (x + 1) * 16.

(** Every byte of seal chunk [x] is stored. *)
Definition intact (f : Z → option Z) (x : Z) : Prop :=
  ∀ i, x * 4096 ≤ i < (x + 1) * 4096 → is_Some (f i).

Lemma intact_in_run l seg start n x :
  wf_runs l → seg ∈ l → start_sector seg ≤ start → start + n ≤ end_sector seg → 0 < n →
  meets x start n →
  (intact (content l) x ↔ start_sector seg ≤ x * 16 ∧ (x + 1) * 16 ≤ end_sector seg).
Proof.
  intros Hwf Hin Hs He Hn [Hm1 Hm2]. pose proof (wf_runs_good l seg Hwf Hin) as Hg.
  pose proof (good_bytes seg Hg). split.
  - intros Hi. split.
    + destruct (decide (start_sector seg ≤ x * 16)); [done|].
      destruct (Hi (start_sector seg * 256 - 1)) as [y Hy]; [lia|].
      by rewrite content_before_run in Hy.
    + destruct (decide ((x + 1) * 16 ≤ end_sector seg)); [done|].
      destruct (Hi (end_sector seg * 256)) as [y Hy]; [lia|].
      by rewrite content_after_run in Hy.
  - intros [Hl Hr] i Hi. rewrite (content_in_run l seg) by (done || lia).
    apply piece_is_Some. lia.
Qed.

Lemma ready_indices seg start n x :
  0 ≤ start_sector seg ≤ start → start + n ≤ end_sector seg ≤ 1024 → 0 < n →
  end_sector seg = start_sector seg + zlen (pb_data seg) / BYTES_PER_SECTOR →
  x ∈ filter (λ x, range_contains (get_intact_sealing_index (start_sector seg)
                     (zlen (pb_data seg) / BYTES_PER_SECTOR)) x = true)
        (range_list (get_covered_sealing_index start n)) ↔
  meets x start n ∧ start_sector seg ≤ x * 16 ∧ (x + 1) * 16 ≤ end_sector seg.
Proof.
  intros Hs He Hn Hlen. unfold meets.
  rewrite list_elem_of_filter. unfold range_list. rewrite elem_of_seqZ.
  unfold range_contains, get_intact_sealing_index, get_covered_sealing_index, as_u16. simpl.
  rewrite <- Hlen, andb_true_iff, Z.leb_le, Z.ltb_lt. spec_consts.
  rewrite !Z.mod_small by slia. slia.
Qed.

Lemma insert_data_free l start_byte data :
  ebd_wf (Incomplete l) → 0 ≤ start_byte → start_byte mod 256 = 0 →
  0 < zlen data → zlen data mod 256 = 0 → start_byte + zlen data ≤ 262144 →
  free (content l) start_byte (zlen data) →
  ∃ idxs b, ebd_insert_data start_byte data (Incomplete l) = (Ok idxs, b) ∧ ebd_wf b ∧
    (∀ i, byte_at b i = piece (MkPartial (start_byte / 256) data) i ∪ content l i) ∧
    (∀ x, x ∈ idxs ↔ meets x (start_byte / 256) (zlen data / 256) ∧ intact (byte_at b) x).
Proof.
  intros [Hwf _] Hs0 Hs Hd0 Hd Hend Hfree.
  unfold ebd_insert_data, st_bind, st_lift, st_get, st_put, st_ret. spec_consts.
  rewrite Hs, Hd. cbn [assert Z.eqb]. rewrite (proj2 (Z.eqb_neq _ _)) by lia.
  pose proof (insert_position l (start_byte / 256) (zlen data / 256) Hwf ltac:(slia)) as Hpos.
  replace (start_byte / 256 * 256) with start_byte in Hpos by slia.
  replace (zlen data / 256 * 256) with (zlen data) in Hpos by slia.
  destruct (pb_find l (start_byte / 256)) as [?|i]; [by destruct Hpos|].
  destruct (pb_find l (start_byte / 256 + zlen data / 256 - 1)) as [?|j]; [by destruct Hpos|].
  destruct (i =? j)%nat; [|by destruct Hpos]. destruct Hpos as (l1 & l2 & -> & -> & Hl1 & Hl2).
  simpl negb. cbn [negb].
  destruct (insert_segment_spec l1 l2 (start_byte / 256) data)
    as (l & seg & -> & Hwf' & Hin & Hss & Hse & Hc); try done; [slia..|].
  destruct (complete_if_full_spec l Hwf') as [Hcwf Hcb].
  pose proof (wf_runs_good l seg Hwf' Hin) as Hg. pose proof (good_bytes seg Hg).
  eexists _, _. split_and!; [done|done|by intros i; rewrite Hcb, Hc|].
  pose proof (good_start seg Hg). pose proof (good_end seg Hg). pose proof (good_aligned seg Hg).
  intros x. rewrite (ready_indices seg (start_byte / 256) (zlen data / 256) x) by slia.
  assert (intact (byte_at (complete_if_full l)) x ↔ intact (content l) x) as ->.
  { unfold intact. split; intros Hi i Hr; specialize (Hi i Hr); congruence. }
  split; intros [Hm Hx]; (split; [done|]); by apply (intact_in_run l seg _ _ x Hwf' Hin Hss Hse ltac:(slia) Hm).
Qed.

Lemma insert_data_rejected b start_byte data :
  ebd_wf b → start_byte mod 256 = 0 → 0 < zlen data → zlen data mod 256 = 0 →
  (match b with Complete _ => True | Incomplete l => ¬ free (content l) start_byte (zlen data) end) →
  ∃ msg, ebd_insert_data start_byte data b = (Err msg, b).
Proof.
  intros Hwf Hs Hd0 Hd Hover.
  unfold ebd_insert_data, st_bind, st_lift, st_get, st_put, st_ret. spec_consts.
  rewrite Hs, Hd. cbn [assert Z.eqb]. rewrite (proj2 (Z.eqb_neq _ _)) by lia.
  destruct b as [d|l]; [by eexists|]. destruct Hwf as [Hwf _].
  pose proof (insert_position l (start_byte / 256) (zlen data / 256) Hwf ltac:(slia)) as Hpos.
  destruct (pb_find l (start_byte / 256)) as [?|i]; [by eexists|].
  destruct (pb_find l (start_byte / 256 + zlen data / 256 - 1)) as [?|j]; [by eexists|].
  destruct (i =? j)%nat; [|by eexists]. exfalso. apply Hover.
  destruct Hpos as (l1 & l2 & -> & _ & Hl1 & Hl2). destruct Hwf as [[Hg1 Hg2]%Forall_app _].
  intros k Hk. apply content_None, Forall_app. split.
  - eapply Forall_impl; [apply Forall_and; split; [exact Hg1|exact Hl1]|].
    intros p [Hp Hle]. right. rewrite <- good_bytes by done. slia.
  - eapply Forall_impl; [exact Hl2|]. simpl. intros p Hp. left. slia.
Qed.

(** ** [truncate] *)

Lemma piece_ztake s d n i :
  0 ≤ n → piece (MkPartial s (ztake n d)) i = if i <? s * 256 + n then piece (MkPartial s d) i else None.
Proof.
  intros Hn. unfold piece, ztake. simpl. destruct (Z.leb_spec (s * 256) i); [|by case_match].
  destruct (Z.ltb_spec i (s * 256 + n)); [by rewrite lookup_take_lt by lia|].
  by rewrite lookup_take_ge by lia.
Qed.

Lemma content_all_before l t i :
  Forall good l → Forall (λ p, end_sector p * 256 ≤ t) l →
  content l i = if i <? t then content l i else None.
Proof.
  intros Hg Hl. destruct (Z.ltb_spec i t); [done|]. apply content_None.
  eapply Forall_impl; [apply Forall_and; split; [exact Hg|exact Hl]|]. simpl.
  intros p [Hp He]. right. rewrite <- good_bytes by done. lia.
Qed.

Lemma content_all_after l t i :
  Forall (λ p, t ≤ start_sector p * 256) l → (if i <? t then content l i else None) = None.
Proof.
  intros Hl. destruct (Z.ltb_spec i t); [|done]. apply content_None.
  eapply Forall_impl; [exact Hl|]. simpl. lia.
Qed.

Lemma not_full_before l t : t < 262144 → Forall (λ p, end_sector p * 256 ≤ t) l → ¬ is_full l.
Proof. intros Ht Hl (p & -> & _ & He). rewrite Forall_singleton in Hl. lia. Qed.

Lemma truncate_split l1 l2 t :
  wf_runs (l1 ++ l2) → Forall (λ p, end_sector p * 256 ≤ t) l1 →
  Forall (λ q, t ≤ start_sector q * 256) l2 → t < 262144 →
  ebd_wf (Incomplete l1) ∧ ∀ i, content l1 i = if i <? t then content (l1 ++ l2) i else None.
Proof.
  intros (Hwf1 & Hwf2 & _)%wf_runs_app H1 H2 Ht. split; [split|].
  - done.
  - by apply (not_full_before _ t).
  - intros i. rewrite content_app, (content_all_before l1 t) by (done || apply Hwf1).
    pose proof (content_all_after l2 t i H2) as Hafter.
    destruct (i <? t); [|done]. rewrite Hafter. union_cases.
Qed.

Lemma truncate_run l1 p l2 t :
  wf_runs (l1 ++ p :: l2) → start_sector p * 256 < t ≤ end_sector p * 256 → t mod 256 = 0 →
  t < 262144 →
  let l := l1 ++ [MkPartial (start_sector p) (ztake (t - start_sector p * 256) (pb_data p))] in
  ebd_wf (Incomplete l) ∧
  ∀ i, content l i = if i <? t then content (l1 ++ p :: l2) i else None.
Proof.
  intros Hwf Ht Hmod Ht'. pose proof Hwf as (Hwf1 & Hwf2 & H1)%wf_runs_app.
  rewrite (wf_runs_app [p] l2), wf_runs_singleton in Hwf2. destruct Hwf2 as (Hp & Hwf2 & H2).
  pose proof (good_bytes p Hp). pose proof (good_start p Hp).
  set (p' := MkPartial _ _).
  assert (zlen (pb_data p') = t - start_sector p * 256) as Hlen.
  { simpl. rewrite zlen_ztake by lia. lia. }
  assert (zlen (pb_data p') mod 256 = 0) as Hlmod by (rewrite Hlen; slia).
  pose proof (end_sector_bytes p' Hlmod) as He. rewrite Hlen in He. simpl start_sector in He.
  assert (good p') as Hg'. { split; [done|lia|done|lia]. }
  assert (Forall (λ q, end_sector q * 256 ≤ t) l1) as Hl1.
  { apply Forall_forall. intros q Hq. specialize (H1 q p Hq ltac:(left)). lia. }
  simpl. split; [split|].
  - apply wf_runs_app. split_and!; [done|by apply wf_runs_singleton|].
    intros q ? Hq ->%list_elem_of_singleton. apply (H1 q p Hq ltac:(left)).
  - apply (not_full_before _ t); [done|]. apply Forall_app. split; [done|].
    apply Forall_singleton. lia.
  - intros i. rewrite !content_app, (content_cons p l2).
    rewrite (content_all_before l1 t) by (done || apply Hwf1).
    assert (content [p'] i = if i <? t then piece p i else None) as ->.
    { simpl. unfold p'. rewrite piece_ztake by lia.
      replace (start_sector p * 256 + (t - start_sector p * 256)) with t by lia.
      assert (MkPartial (start_sector p) (pb_data p) = p) as -> by by destruct p.
      destruct (i <? t); union_cases. }
    pose proof (content_all_after l2 t i) as Hafter.
    destruct (i <? t); [|done]. rewrite Hafter; [union_cases|].
    apply Forall_forall. intros q Hq. specialize (H2 p q ltac:(left) Hq). lia.
Qed.

Lemma ebd_truncate_spec b t :
  ebd_wf b → t mod 256 = 0 → 0 < t < 262144 →
  ∃ b', ebd_truncate b t = Ok b' ∧ ebd_wf b' ∧
    ∀ i, byte_at b' i = if i <? t then byte_at b i else None.
Proof.
  intros Hwf Hmod Ht. unfold ebd_truncate. spec_consts. rewrite Hmod. cbn [assert Z.eqb res_bind].
  destruct b as [d|l].
  - simpl in Hwf. eexists. split; [done|].
    destruct (truncate_run [] (MkPartial 0 d) [] t) as [Hw Hc]; simpl.
    + apply wf_runs_singleton. split; simpl; [lia|lia|rewrite Hwf; done|].
      unfold end_sector. simpl. rewrite Hwf. done.
    + rewrite end_sector_bytes by (simpl; rewrite Hwf; done). simpl. lia.
    + done.
    + lia.
    + simpl in Hw, Hc. rewrite Z.sub_0_r in *. split; [done|]. intros i. simpl. rewrite Hc.
      case_match; union_cases.
  - destruct Hwf as [Hwf _]. pose proof (pb_find_spec l (t / 256) Hwf) as Hf.
    destruct (pb_find l (t / 256)) as [x|x].
    + destruct Hf as (p & Hp & Hs). unfold index. rewrite Hp. cbn [expect res_bind].
      apply list_elem_of_split_length in Hp as (l1 & l2 & -> & ->).
      unfold usub. rewrite (proj2 (Z.leb_le _ _)) by slia. cbn [res_bind pb_data].
      eexists. split; [done|]. rewrite insert_app_r_alt, Nat.sub_diag by lia. cbn [insert list_insert].
      destruct (decide (t = start_sector p * 256)) as [->|Hne].
      * rewrite Z.sub_diag. change (ztake 0 (pb_data p)) with (@nil Z).
        cbv match. rewrite take_app_length. pose proof Hwf as (_ & Hwf2 & H12)%wf_runs_app.
        apply truncate_split; [done|..|lia].
        -- apply Forall_forall. intros q Hq. specialize (H12 q p Hq ltac:(left)). lia.
        -- constructor; [lia|]. eapply Forall_impl; [by apply (runs_after p l2 (start_sector p))|].
           simpl. lia.
      * assert (zlen (ztake (t - start_sector p * 256) (pb_data p)) ≠ 0) as Hnz.
        { pose proof (good_nonempty p ltac:(eapply wf_runs_good; [exact Hwf|set_solver])).
          rewrite zlen_ztake by slia. slia. }
        destruct (ztake _ _) as [|y ys] eqn:Hy; [done|]. rewrite <- Hy.
        rewrite take_app_ge, Nat.add_sub_swap, Nat.sub_diag by lia. simpl.
        apply truncate_run; [done|slia|done|lia].
    + destruct Hf as (l1 & l2 & -> & -> & H1 & H2). eexists. split; [done|].
      rewrite take_app_length. apply truncate_split; [done|..|lia].
      * eapply Forall_impl; [exact H1|]. simpl. intros p Hp. slia.
      * eapply Forall_impl; [exact H2|]. simpl. intros p Hp. slia.
Qed.

(** ** [get_mut] *)

(** The bytes of [f] with [xs] written at [i]. *)
Definition overwrite (f : Z → option Z) (i : Z) (xs : list Z) (k : Z) : option Z :=
  if (i <=? k) && (k <? i + zlen xs) then xs !! Z.to_nat (k - i) else f k.

Lemma piece_splice s d o xs k :
  0 ≤ o → o + zlen xs ≤ zlen d →
  piece (MkPartial s (splice d o xs)) k = overwrite (piece (MkPartial s d)) (s * 256 + o) xs k.
Proof.
  intros Ho Hlen. pose proof (zlen_nonneg xs). unfold piece, overwrite, splice, ztake, zdrop. simpl.
  destruct (Z.leb_spec (s * 256) k) as [Hk|Hk]; last first.
  { by rewrite (proj2 (Z.leb_gt (s * 256 + o) k)) by lia. }
  unfold zlen in *. destruct (Z.leb_spec (s * 256 + o) k) as [Ho'|Ho']; simpl; last first.
  { rewrite lookup_app_l by (rewrite length_take; lia). by rewrite lookup_take_lt by lia. }
  rewrite lookup_app_r by (rewrite length_take; lia). rewrite length_take, Nat.min_l by lia.
  destruct (Z.ltb_spec k (s * 256 + o + Z.of_nat (length xs))).
  - rewrite lookup_app_l by lia. f_equal. lia.
  - rewrite lookup_app_r, lookup_drop by lia. f_equal. lia.
Qed.

Lemma overwrite_ext f g i xs k : f k = g k → overwrite f i xs k = overwrite g i xs k.
Proof. intros Hk. unfold overwrite. by case_match. Qed.

(** Rewriting bytes of a run keeps the shape of the runs. *)
Lemma content_update l1 p l2 o xs :
  wf_runs (l1 ++ p :: l2) → 0 ≤ o → o + zlen xs ≤ zlen (pb_data p) →
  let p' := MkPartial (start_sector p) (splice (pb_data p) o xs) in
  (wf_runs (l1 ++ p' :: l2) ∧ end_sector p' = end_sector p) ∧
  ∀ k, content (l1 ++ p' :: l2) k =
       overwrite (content (l1 ++ p :: l2)) (start_sector p * 256 + o) xs k.
Proof.
  intros Hwf Ho Hlen. simpl. set (p' := MkPartial _ _).
  assert (zlen (pb_data p') = zlen (pb_data p)) as Hl by by apply zlen_splice.
  assert (end_sector p' = end_sector p) as He by (unfold end_sector; by rewrite Hl).
  assert (wf_runs (l1 ++ p' :: l2)) as Hwf'.
  { rewrite wf_runs_app, (wf_runs_app [p] l2), wf_runs_singleton in Hwf.
    rewrite wf_runs_app, (wf_runs_app [p'] l2), wf_runs_singleton.
    destruct Hwf as (H1 & (Hp & H2 & Hpl) & Hlp). split_and!; try done.
    - split; rewrite ?Hl, ?He; apply Hp.
    - intros ? q ->%list_elem_of_singleton Hq. rewrite He. apply (Hpl p q ltac:(left) Hq).
    - intros x q Hx [->|Hq]%elem_of_cons; [apply (Hlp x p Hx ltac:(left))|apply Hlp; set_solver]. }
  split; [done|]. intros k.
  pose proof (good_bytes p (wf_runs_good _ p Hwf ltac:(set_solver))) as Hb.
  destruct (decide (start_sector p * 256 ≤ k < end_sector p * 256)) as [Hk|Hk].
  - rewrite (content_in_run _ p') by (done || set_solver || (rewrite He; done)).
    unfold p'. rewrite piece_splice by done. apply overwrite_ext.
    rewrite (content_in_run _ p) by (done || set_solver). by destruct p.
  - unfold overwrite. pose proof (zlen_nonneg xs).
    replace ((start_sector p * 256 + o <=? k) && (k <? start_sector p * 256 + o + zlen xs))
      with false by (symmetry; apply andb_false_iff; rewrite Z.leb_gt, Z.ltb_ge; lia).
    rewrite !content_app, !content_cons. rewrite !(piece_None _ k); [done|lia|].
    rewrite Hl. simpl. lia.
Qed.

Lemma ebd_get_mut_spec b i n f bs :
  ebd_wf b → 0 ≤ i → 0 < n → i + n ≤ 262144 →
  read_range (byte_at b) i n = Some bs → zlen (f bs) = n →
  ∃ b', ebd_get_mut b i n f = Ok (Some b') ∧ ebd_wf b' ∧
    ∀ k, byte_at b' k = overwrite (byte_at b) i (f bs) k.
Proof.
  intros Hwf Hi Hn Hin Hbs Hf. pose proof (ebd_get_spec b i n Hwf Hi Hn Hin) as Hget.
  rewrite Hbs in Hget. unfold ebd_get in Hget. unfold ebd_get_mut.
  destruct (assert _ _) as [[]| |]; simpl in Hget; try done. cbn [res_bind].
  destruct b as [d|l].
  - injection Hget as Hr. rewrite Hr. eexists. split; [done|]. simpl in Hwf.
    split; [simpl; rewrite zlen_splice; lia|]. intros k.
    apply (piece_splice 0 d i (f bs)); lia.
  - destruct Hwf as [Hwf Hnf]. pose proof (pb_find_spec l (i / BYTES_PER_SECTOR) Hwf) as Hfind.
    destruct (pb_find l _) as [x|x]; [|done].
    destruct Hfind as (p & Hp & Hs). unfold index in *. rewrite Hp in *. cbn [expect res_bind] in *.
    unfold usub in *. rewrite (proj2 (Z.leb_le _ _)) in * by slia. cbn [res_bind] in *.
    injection Hget as Hr. rewrite Hr. eexists. split; [done|].
    apply list_elem_of_split_length in Hp as (l1 & l2 & -> & ->).
    rewrite insert_app_r_alt, Nat.sub_diag by lia. cbn [insert list_insert].
    unfold get_range in Hr. destruct (_ && _) eqn:Hle; [|done].
    apply andb_true_iff in Hle as [_ Hle%Z.leb_le]. spec_consts.
    destruct (content_update l1 p l2 (i - start_sector p * 256) (f bs)) as [[Hwf' He] Hc];
      [done|slia|lia|].
    split; [split|].
    + done.
    + intros (q & Hq & Hq0 & Hq1). apply Hnf. destruct l1 as [|? [|]]; simplify_eq/=.
      exists p. simpl in *. split_and!; [done..|]. by rewrite <- He.
    + intros k. simpl byte_at. rewrite Hc. f_equal. lia.
Qed.
