(* ===== verification/SealCodec.v ===== *)
(** * The seal codec: [common/ionian_seal/src/lib.rs]

    Sealing masks every 32-byte word with the hash of the previous sealed word.
    Keccak-256 is a parameter; the proofs use that its output has 32 bytes. *)

From S2P Require Import Prelude Bytes.
#[local] Open Scope Z_scope.

Section Codec.
Context (keccak : list Z → list Z).

(** [output[0..32]], [output[32..64]] and [output[88..96]]; the rest is zero. *)
Definition compute_first_mask_seed (miner_id context_digest : list Z) (start_sector : Z)
    : list Z :=
  miner_id ++ context_digest ++ replicate 24 0 ++ be_bytes 8 start_sector.

(** [word.iter_mut().zip(mask.iter()).for_each(|(x, y)| *x ^= *y)] *)
Definition xor_word (word mask : list Z) : list Z := zip_with Z.lxor word mask.

Fixpoint seal_words (mask : list Z) (words : list (list Z)) : list (list Z) :=
  match words with
  | [] => []
  | word :: words =>
      let word := xor_word word mask in
      word :: seal_words (keccak word) words
  end.

Fixpoint unseal_words (mask : list Z) (words : list (list Z)) : list (list Z) :=
  match words with
  | [] => []
  | x :: words =>
      let next_mask := keccak x in
      xor_word x mask :: unseal_words next_mask words
  end.

Definition seal_with_mask (data first_mask : list Z) : res (list Z) :=
  let? _ := assert (zlen data mod 32 =? 0) "assertion failed: data.len() % 32 == 0" in
  Ok (concat (seal_words first_mask (chunks 32 data))).

Definition unseal_with_mask (data first_mask : list Z) : res (list Z) :=
  let? _ := assert (zlen data mod 32 =? 0) "assertion failed: data.len() % 32 == 0" in
  Ok (concat (unseal_words first_mask (chunks 32 data))).

Definition seal_with_mask_seed (data first_mask_seed : list Z) : res (list Z) :=
  seal_with_mask data (keccak first_mask_seed).
Definition unseal_with_mask_seed (data first_mask_seed : list Z) : res (list Z) :=
  unseal_with_mask data (keccak first_mask_seed).

Definition seal (data miner_id context_digest : list Z) (start_sector : Z) : res (list Z) :=
  let first_mask_seed := compute_first_mask_seed miner_id context_digest start_sector in
  seal_with_mask_seed data first_mask_seed.
Definition unseal (data miner_id context_digest : list Z) (start_sector : Z) : res (list Z) :=
  let first_mask_seed := compute_first_mask_seed miner_id context_digest start_sector in
  unseal_with_mask_seed data first_mask_seed.

(** ** Round trip *)

Lemma length_xor_word w m : length m = length w → length (xor_word w m) = length w.
Proof. intros. unfold xor_word. rewrite length_zip_with. lia. Qed.

Lemma xor_word_involutive w m : length m = length w → xor_word (xor_word w m) m = w.
Proof.
  revert m. unfold xor_word. induction w as [|x w IH]; intros [|y m]; simpl; try done.
  intros [= Hl]. rewrite IH by done. by rewrite Z.lxor_assoc, Z.lxor_nilpotent, Z.lxor_0_r.
Qed.

Context (keccak_len : ∀ x, length (keccak x) = 32%nat).

Definition words_ok (ws : list (list Z)) : Prop := Forall (λ w, length w = 32%nat) ws.

Lemma seal_words_ok m ws : length m = 32%nat → words_ok ws → words_ok (seal_words m ws).
Proof.
  revert m. induction ws as [|w ws IH]; intros m Hm Hws; simpl; [constructor|].
  apply Forall_cons in Hws as [Hw Hws]. constructor.
  - rewrite length_xor_word; lia.
  - by apply IH.
Qed.

Lemma unseal_words_ok m ws : length m = 32%nat → words_ok ws → words_ok (unseal_words m ws).
Proof.
  revert m. induction ws as [|w ws IH]; intros m Hm Hws; simpl; [constructor|].
  apply Forall_cons in Hws as [Hw Hws]. constructor.
  - rewrite length_xor_word; lia.
  - by apply IH.
Qed.

Lemma unseal_seal_words m ws :
  length m = 32%nat → words_ok ws → unseal_words m (seal_words m ws) = ws.
Proof.
  revert m. induction ws as [|w ws IH]; intros m Hm Hws; simpl; [done|].
  apply Forall_cons in Hws as [Hw Hws].
  rewrite xor_word_involutive by lia. f_equal. by apply IH.
Qed.

Lemma length_seal_words m ws : length (seal_words m ws) = length ws.
Proof. revert m. induction ws as [|w ws IH]; intros m; simpl; auto. Qed.

(** Unsealing is local: a prefix needs only the prefix, a suffix only the word
    before it. *)
Lemma unseal_words_take m ws j : unseal_words m (take j ws) = take j (unseal_words m ws).
Proof.
  revert m j. induction ws as [|w ws IH]; intros m [|j]; simpl; try done. by rewrite IH.
Qed.

Lemma unseal_words_drop m ws j w :
  ws !! j = Some w → unseal_words (keccak w) (drop (S j) ws) = drop (S j) (unseal_words m ws).
Proof.
  revert m j. induction ws as [|x ws IH]; intros m j Hw; [done|]. destruct j as [|j]; simpl in *.
  - by injection Hw as ->; rewrite !drop_0.
  - rewrite (IH (keccak x) j) by done. done.
Qed.

Lemma take_concat (ws : list (list Z)) j :
  words_ok ws → take (32 * j) (concat ws) = concat (take j ws).
Proof.
  intros Hws. revert j. induction Hws as [|w ws Hw _ IH]; intros [|j]; simpl.
  - done.
  - by destruct (32 * S j)%nat.
  - done.
  - rewrite <- IH. replace (32 * S j)%nat with (length w + 32 * j)%nat by lia.
    by rewrite take_app_add.
Qed.

Lemma drop_concat (ws : list (list Z)) j :
  words_ok ws → drop (32 * j) (concat ws) = concat (drop j ws).
Proof.
  intros Hws. revert j. induction Hws as [|w ws Hw _ IH]; intros [|j]; simpl.
  - done.
  - by destruct (32 * S j)%nat.
  - done.
  - rewrite <- IH. replace (32 * S j)%nat with (length w + 32 * j)%nat by lia.
    by rewrite drop_app_add.
Qed.

(** Words of a byte string. *)
Lemma to_words (data : list Z) :
  zlen data mod 32 = 0 → words_ok (chunks 32 data) ∧ concat (chunks 32 data) = data.
Proof.
  intros Hd. split; [|apply concat_chunks; lia].
  apply (chunks_even 32 ltac:(lia) data (Z.to_nat (zlen data / 32))).
  unfold zlen in *. zify; Z.to_euclidean_division_equations; lia.
Qed.

Lemma of_words (ws : list (list Z)) :
  words_ok ws → chunks 32 (concat ws) = ws ∧ zlen (concat ws) = 32 * zlen ws.
Proof.
  intros Hws. split.
  - pose proof (chunks_concat 32 ltac:(lia) ws [] Hws) as Hc. by rewrite !app_nil_r in Hc.
  - induction Hws as [|w ws Hw _ IH]; simpl; [done|]. rewrite zlen_app, zlen_cons, IH.
    unfold zlen. lia.
Qed.

Lemma seal_with_mask_words data m :
  zlen data mod 32 = 0 → length m = 32%nat →
  ∃ ws, words_ok ws ∧ data = concat ws ∧ words_ok (seal_words m ws) ∧
    seal_with_mask data m = Ok (concat (seal_words m ws)).
Proof.
  intros Hd Hm. destruct (to_words data Hd) as [Hws Hc]. exists (chunks 32 data).
  split_and!; [done|done|by apply seal_words_ok|]. unfold seal_with_mask.
  by rewrite Hd.
Qed.

Lemma unseal_with_mask_words ws m :
  words_ok ws → unseal_with_mask (concat ws) m = Ok (concat (unseal_words m ws)).
Proof.
  intros Hws. destruct (of_words ws Hws) as [Hc Hl]. unfold unseal_with_mask.
  rewrite Hl, Hc, Z.mul_comm, Z.mod_mul by lia. done.
Qed.

(** Unsealing a prefix of sealed data. *)
Lemma unseal_prefix data sealed m n :
  length m = 32%nat → zlen data mod 32 = 0 → n mod 32 = 0 → 0 ≤ n →
  seal_with_mask data m = Ok sealed →
  zlen sealed = zlen data ∧ unseal_with_mask (ztake n sealed) m = Ok (ztake n data).
Proof.
  intros Hm Hd Hn Hn0 Hs. destruct (seal_with_mask_words data m Hd Hm) as (ws & Hws & -> & Hsw & Hs').
  rewrite Hs in Hs'. injection Hs' as ->. split.
  { rewrite (proj2 (of_words _ Hws)), (proj2 (of_words _ Hsw)). unfold zlen. by rewrite length_seal_words. }
  unfold ztake. replace (Z.to_nat n) with (32 * Z.to_nat (n / 32))%nat
    by (zify; Z.to_euclidean_division_equations; lia).
  rewrite !take_concat, unseal_with_mask_words by (try done; by apply Forall_take).
  by rewrite unseal_words_take, unseal_seal_words.
Qed.

(** Unsealing a slice of sealed data from the word before it. *)
Lemma unseal_infix data sealed m o n :
  length m = 32%nat → zlen data mod 32 = 0 → o mod 32 = 0 → n mod 32 = 0 →
  0 < o ≤ zlen data → 0 ≤ n → seal_with_mask data m = Ok sealed →
  unseal_with_mask (ztake n (zdrop o sealed)) (keccak (ztake 32 (zdrop (o - 32) sealed))) =
  Ok (ztake n (zdrop o data)).
Proof.
  intros Hm Hd Ho Hn Ho0 Hn0 Hs.
  destruct (seal_with_mask_words data m Hd Hm) as (ws & Hws & -> & Hsw & Hs').
  rewrite Hs in Hs'. injection Hs' as ->. rewrite (proj2 (of_words _ Hws)) in Ho0.
  set (j := Z.to_nat (o / 32 - 1)). set (k := Z.to_nat (n / 32)). unfold ztake, zdrop.
  replace (Z.to_nat n) with (32 * k)%nat by (unfold k; zify; Z.to_euclidean_division_equations; lia).
  replace (Z.to_nat o) with (32 * S j)%nat by (unfold j; zify; Z.to_euclidean_division_equations; lia).
  replace (Z.to_nat (o - 32)) with (32 * j)%nat
    by (unfold j; zify; Z.to_euclidean_division_equations; lia).
  change (Z.to_nat 32) with (32 * 1)%nat.
  rewrite !drop_concat, !take_concat by (try done; repeat apply Forall_drop; done).
  destruct (lookup_lt_is_Some_2 (seal_words m ws) j) as [w Hw].
  { rewrite length_seal_words. unfold zlen in Ho0. unfold j.
    zify; Z.to_euclidean_division_equations; lia. }
  rewrite (drop_S _ _ _ Hw). cbn [take concat]. rewrite app_nil_r.
  rewrite unseal_with_mask_words by (try done; by apply Forall_take, Forall_drop).
  rewrite unseal_words_take, (unseal_words_drop m _ j w) by done. by rewrite unseal_seal_words.
Qed.
End Codec.

(** ** A concrete hash *)

(** A checksum in the place of Keccak: 32 bytes. *)
Definition toy_keccak (l : list Z) : list Z :=
  let s := foldl (λ acc b, (acc * 31 + b) mod 256) 7 l in
  (λ i, (s + i) mod 256) <$> seqZ 0 32.

Lemma toy_keccak_len x : length (toy_keccak x) = 32%nat.
Proof. done. Qed.
