(* ===== verification/SealInfo.v ===== *)
(** * Seal bookkeeping of a load chunk

    [node/storage/src/log_store/load_chunk/bitmap.rs] and [seal.rs]: which seal
    chunks of a load chunk are sealed, and with which context.  The [bitmaps]
    crate is an interface with its documented laws. *)

From stdpp Require Import sorting.
From S2P Require Import Prelude Bytes IonianSpec SealCodec.
#[local] Open Scope Z_scope.

(** ** [Bitmap<64>] of the [bitmaps] crate *)

Class BitmapOps (B : Type) := {
  bm_default : B;
  bm_get : B → Z → bool;
  bm_set : B → Z → bool → B;
  bm_as_value : B → Z;
  bm_from_value : Z → B;
}.

(** The store of [Bitmap<64>] is a [u64] whose bits are the entries. *)
Class BitmapLaws (B : Type) `{BitmapOps B} := {
  bm_default_value : bm_as_value bm_default = 0;
  bm_value_range b : 0 ≤ bm_as_value b < 2 ^ 64;
  bm_get_bit b i : 0 ≤ i < 64 → bm_get b i = Z.testbit (bm_as_value b) i;
  bm_as_from v : 0 ≤ v < 2 ^ 64 → bm_as_value (bm_from_value v) = v;
  bm_get_set b i x j :
    0 ≤ i < 64 → 0 ≤ j < 64 → bm_get (bm_set b i x) j = if j =? i then x else bm_get b j;
}.

(** The interface holds of plain 64-bit words. *)
#[export] Instance word_bitmap : BitmapOps Z := {|
  bm_default := 0;
  bm_get b i := Z.testbit (b mod 2 ^ 64) i;
  bm_set b i x := if x then Z.setbit (b mod 2 ^ 64) i else Z.clearbit (b mod 2 ^ 64) i;
  bm_as_value b := b mod 2 ^ 64;
  bm_from_value v := v;
|}.

Lemma testbit_mod64 v j : 0 ≤ j < 64 → Z.testbit (v mod 2 ^ 64) j = Z.testbit v j.
Proof. intros. rewrite Z.mod_pow2_bits_low by lia. done. Qed.

#[export] Instance word_bitmap_laws : BitmapLaws Z.
Proof.
  split; simpl.
  - done.
  - intros b. apply Z.mod_pos_bound. lia.
  - done.
  - intros v Hv. by apply Z.mod_small.
  - intros b i x j Hi Hj. rewrite testbit_mod64 by done. destruct (Z.eqb_spec j i) as [->|Hne].
    + destruct x; [apply Z.setbit_eq|apply Z.clearbit_eq]; lia.
    + destruct x; [apply Z.setbit_neq|apply Z.clearbit_neq]; lia.
Qed.

(** ** [bitmap.rs] *)

(** [impl TruncateBitmap for u64]; shifting by 64 or more overflows. *)
Definition truncate_u64 (value index : Z) : res Z :=
  let? one := (if index <? 64 then Ok (2 ^ index) else Panic "attempt to shift left with overflow") in
  Ok (Z.land value (one - 1)).

Section Info.
Context {B : Type} `{BitmapOps B}.

Definition bitmap_truncate (b : B) (index : Z) : res B :=
  let? current := truncate_u64 (bm_as_value b) index in
  Ok (bm_from_value current).

(** ** [seal.rs] *)

Record SealContextInfo : Type := MkContext {
  context_digest : list Z;
  end_seal_index : Z;
}.

Record SealInfo : Type := MkSealInfo {
  bitmap : B;
  load_index : Z;
  miner_id : list Z;
  seal_contexts : list SealContextInfo;
}.

Definition SealInfo_new (load_index : Z) : SealInfo :=
  MkSealInfo bm_default load_index (replicate 32 0) [].

Definition is_sealed (s : SealInfo) (seal_index : Z) : bool := bm_get (bitmap s) seal_index.

Definition mark_sealed (s : SealInfo) (seal_index : Z) : SealInfo :=
  MkSealInfo (bm_set (bitmap s) seal_index true) (load_index s) (miner_id s) (seal_contexts s).

(** The products fit [usize] for a load index below 2^54. *)
Definition global_seal_sector (s : SealInfo) (index : Z) : Z :=
  as_u64 (load_index s * SECTORS_PER_LOAD + index * SECTORS_PER_SEAL).

Definition context_index (s : SealInfo) (seal_index : Z) : nat :=
  match binary_search_by_key end_seal_index (seal_index + 1) (seal_contexts s) with
  | inl x | inr x => x
  end.

Definition get_seal_context_digest (s : SealInfo) (seal_index : Z) : option (list Z) :=
  context_digest <$> seal_contexts s !! context_index s seal_index.

Definition set_seal_context (s : SealInfo) (digest : list Z) (global_end_seal_index : Z)
    (miner : list Z) : res SealInfo :=
  (* 1. Check consistency of the miner id. *)
  let? miner := (if bool_decide (miner_id s = replicate 32 0) then Ok miner
    else let? _ := assert (bool_decide (miner_id s = miner)) "miner_id setting is inconsistent with db" in
         Ok (miner_id s)) in
  (* 2. Compute the local end_seal_index. *)
  let? base := umul 64 (load_index s) SEALS_PER_LOAD in
  let? end_index := usub global_end_seal_index base in
  let end_index := Z.min (as_u16 end_index) SEALS_PER_LOAD in
  let new_context := MkContext digest end_index in
  (* 3. Update the seal context array by cases. *)
  let? before_end := usub end_index 1 in
  let insert_position := context_index s before_end in
  let contexts :=
    match seal_contexts s !! insert_position with
    | Some existing_context =>
        if bool_decide (context_digest existing_context = context_digest new_context)
        then seal_contexts s
        else take insert_position (seal_contexts s) ++ new_context :: drop insert_position (seal_contexts s)
    | None => seal_contexts s ++ [new_context]
    end in
  Ok (MkSealInfo (bitmap s) (load_index s) miner contexts).

Definition truncated_seal_index (s : SealInfo) (reverted_seal_index : Z) : res Z :=
  match context_index s reverted_seal_index with
  | O => Ok 0
  | S k => let? c := expect (seal_contexts s !! k) "unwrap on None" in Ok (end_seal_index c)
  end.

Definition si_truncate (s : SealInfo) (reverted_seal_index : Z) : res SealInfo :=
  let truncated_context_index := context_index s reverted_seal_index in
  let? truncated := truncated_seal_index s reverted_seal_index in
  let? b := bitmap_truncate (bitmap s) truncated in
  Ok (MkSealInfo b (load_index s) (miner_id s)
        (take truncated_context_index (seal_contexts s))).

Definition si_unseal (keccak : list Z → list Z) (s : SealInfo) (data : list Z) (index : Z) : res (list Z) :=
  if negb (is_sealed s index) then Ok data
  else
    let? seal_context := expect (get_seal_context_digest s index) "cannot unseal non-sealed data" in
    unseal keccak data (miner_id s) seal_context (global_seal_sector s index).

(** ** Contexts *)

(** The contexts are ordered by their ends, which lie inside the load chunk. *)
Definition contexts_ok (s : SealInfo) : Prop :=
  StronglySorted (λ a b, end_seal_index a < end_seal_index b) (seal_contexts s) ∧
  Forall (λ c, 1 ≤ end_seal_index c ≤ 64) (seal_contexts s).

Lemma context_index_lower_bound s i :
  context_index s i = lower_bound end_seal_index (i + 1) (seal_contexts s).
Proof. unfold context_index, binary_search_by_key. by repeat case_match; simplify_eq. Qed.

(** The context of a seal chunk is the first one that ends after it. *)
Lemma context_split s i :
  ∃ cs1 cs2, seal_contexts s = cs1 ++ cs2 ∧ context_index s i = length cs1 ∧
    Forall (λ c, end_seal_index c ≤ i) cs1 ∧ (∀ c cs, cs2 = c :: cs → i < end_seal_index c).
Proof.
  rewrite context_index_lower_bound.
  destruct (lower_bound_split end_seal_index (i + 1) (seal_contexts s))
    as (cs1 & cs2 & Hcs & Hl & H1 & H2).
  exists cs1, cs2. split_and!; [done|done| |].
  - eapply Forall_impl; [exact H1|]. simpl. lia.
  - intros c cs Hc. specialize (H2 c cs Hc). lia.
Qed.

Lemma digest_Some s i d :
  get_seal_context_digest s i = Some d ↔
  ∃ cs1 c cs2, seal_contexts s = cs1 ++ c :: cs2 ∧ d = context_digest c ∧
    Forall (λ c, end_seal_index c ≤ i) cs1 ∧ i < end_seal_index c.
Proof.
  unfold get_seal_context_digest.
  destruct (context_split s i) as (cs1 & cs2 & Hcs & -> & H1 & H2). rewrite Hcs.
  rewrite lookup_app_r, Nat.sub_diag by lia. split.
  - destruct cs2 as [|c cs2]; simpl; [done|]. intros [= <-].
    exists cs1, c, cs2. split_and!; [done..|]. by apply (H2 c cs2).
  - intros (ks1 & k & ks2 & Hks & -> & K1 & K2).
    assert (length cs1 = length ks1) as Hlen.
    { destruct (Nat.lt_trichotomy (length cs1) (length ks1)) as [Hlt|[Heq|Hgt]]; [|done|].
      - destruct (lookup_lt_is_Some_2 ks1 (length cs1) Hlt) as [c Hc].
        assert ((ks1 ++ k :: ks2) !! length cs1 = Some c) as Hc' by by apply lookup_app_l_Some.
        rewrite <- Hks, lookup_app_r, Nat.sub_diag in Hc' by lia.
        destruct cs2 as [|c' cs2]; [done|]. injection Hc' as ->. specialize (H2 c cs2 eq_refl).
        rewrite Forall_lookup in K1. specialize (K1 _ _ Hc). simpl in K1. lia.
      - destruct (lookup_lt_is_Some_2 cs1 (length ks1) Hgt) as [c Hc].
        assert ((cs1 ++ cs2) !! length ks1 = Some c) as Hc' by by apply lookup_app_l_Some.
        rewrite Hks, list_lookup_middle in Hc' by done. injection Hc' as ->.
        rewrite Forall_lookup in H1. specialize (H1 _ _ Hc). simpl in H1. lia. }
    apply app_inj_1 in Hks as [_ ->]; done.
Qed.

(** ** [set_seal_context] *)

Definition local_end (s : SealInfo) (global_end_seal_index : Z) : Z :=
  Z.min (global_end_seal_index - load_index s * 64) 64.

(** The steps of [set_seal_context] in the range where no cast wraps. *)
Lemma set_seal_context_run s digest global_end miner :
  miner_id s = replicate 32 0 ∨ miner_id s = miner →
  load_index s * 64 < 2 ^ 64 → 1 ≤ global_end - load_index s * 64 < 65536 →
  let e := local_end s global_end in
  let i := context_index s (e - 1) in
  set_seal_context s digest global_end miner =
  Ok (MkSealInfo (bitmap s) (load_index s) miner
    (match seal_contexts s !! i with
     | Some c => if bool_decide (context_digest c = digest) then seal_contexts s
                 else take i (seal_contexts s) ++ MkContext digest e :: drop i (seal_contexts s)
     | None => seal_contexts s ++ [MkContext digest e]
     end)).
Proof.
  intros Hm Hl Hg. unfold set_seal_context, umul, usub, as_u16, local_end. spec_consts.
  rewrite (proj2 (Z.ltb_lt _ _)) by lia. cbn [res_bind].
  rewrite (proj2 (Z.leb_le _ _)) by lia. cbn [res_bind].
  rewrite Z.mod_small by lia. rewrite (proj2 (Z.leb_le _ _)) by lia.
  destruct (bool_decide_reflect (miner_id s = replicate 32 0)); [done|].
  destruct Hm as [|<-]; [done|]. by rewrite bool_decide_true.
Qed.

Lemma set_seal_context_spec s digest global_end miner :
  contexts_ok s → miner_id s = replicate 32 0 ∨ miner_id s = miner →
  load_index s * 64 < 2 ^ 64 → 1 ≤ global_end - load_index s * 64 < 65536 →
  (∀ d, get_seal_context_digest s (local_end s global_end - 1) = Some d → d = digest) →
  ∃ s', set_seal_context s digest global_end miner = Ok s' ∧ contexts_ok s' ∧
    bitmap s' = bitmap s ∧ load_index s' = load_index s ∧ miner_id s' = miner ∧
    (∀ i d, get_seal_context_digest s i = Some d → get_seal_context_digest s' i = Some d) ∧
    (∀ i, i < local_end s global_end → get_seal_context_digest s i = None →
       get_seal_context_digest s' i = Some digest).
Proof.
  intros Hok Hm Hl Hg Hsame. rewrite set_seal_context_run by done. cbv zeta.
  set (e := local_end s global_end) in *.
  assert (1 ≤ e ≤ 64) as He by (unfold e, local_end; lia).
  unfold get_seal_context_digest at 1 in Hsame.
  destruct (seal_contexts s !! context_index s (e - 1)) as [c|] eqn:Hc.
  - rewrite (Hsame _ eq_refl) , bool_decide_true by done. eexists. split; [done|].
    split_and!; try done. intros i Hi Hnone. exfalso.
    destruct (context_split s (e - 1)) as (cs1 & cs2 & Hcs & Hidx & _ & H2).
    rewrite Hcs, Hidx, lookup_app_r, Nat.sub_diag in Hc by lia.
    destruct cs2 as [|c' cs2]; [done|]. injection Hc as ->. specialize (H2 c cs2 eq_refl).
    destruct (context_split s i) as (k1 & k2 & Hks & Hk & K1 & _).
    unfold get_seal_context_digest in Hnone.
    rewrite Hk, Hks, lookup_app_r, Nat.sub_diag in Hnone by lia. destruct k2; [|done].
    rewrite app_nil_r in Hks. subst k1. rewrite Hcs, Forall_app, Forall_cons in K1. lia.
  - eexists. split; [done|]. destruct Hok as [Hsort Hb].
    destruct (context_split s (e - 1)) as (cs1 & cs2 & Hcs & Hi & H1 & _).
    assert (cs2 = []) as ->.
    { rewrite Hcs, Hi, lookup_app_r, Nat.sub_diag in Hc by lia. by destruct cs2. }
    rewrite app_nil_r in Hcs. subst cs1.
    set (s' := MkSealInfo _ _ _ _).
    assert (contexts_ok s') as Hok'.
    { split; simpl.
      - apply StronglySorted_app. split_and!; [|done|by repeat constructor].
        intros a b Ha ->%list_elem_of_singleton. simpl. rewrite Forall_forall in H1.
        specialize (H1 a Ha). simpl in H1. lia.
      - apply Forall_app. split; [done|]. by apply Forall_singleton. }
    split_and!; try done.
    + intros i d. rewrite !digest_Some. intros (k1 & k & k2 & Hk & -> & K1 & K2).
      exists k1, k, (k2 ++ [MkContext digest e]). split_and!; try done. simpl.
      by rewrite Hk, <- app_assoc.
    + intros i Hi' Hnone. destruct (context_split s i) as (k1 & k2 & Hks & Hk & K1 & _).
      unfold get_seal_context_digest in Hnone.
      rewrite Hk, Hks, lookup_app_r, Nat.sub_diag in Hnone by lia. destruct k2; [|done].
      rewrite app_nil_r in Hks. subst k1. apply digest_Some.
      exists (seal_contexts s), (MkContext digest e), []. by split_and!.
Qed.

(** ** [truncate] *)

Lemma truncate_u64_bits v index j :
  0 ≤ index < 64 → 0 ≤ j → ∃ m, truncate_u64 v index = Ok m ∧
    Z.testbit m j = Z.testbit v j && (j <? index) ∧ (0 ≤ v < 2 ^ 64 → 0 ≤ m < 2 ^ 64).
Proof.
  intros Hi Hj. unfold truncate_u64. rewrite (proj2 (Z.ltb_lt _ _)) by lia. simpl.
  replace (2 ^ index - 1) with (Z.ones index) by (rewrite Z.ones_equiv; lia).
  eexists. split; [done|]. split.
  - rewrite Z.land_spec. f_equal. destruct (Z.ltb_spec j index).
    + apply Z.ones_spec_low. lia.
    + apply Z.ones_spec_high. lia.
  - intros Hv. rewrite Z.land_ones by lia. pose proof (Z.mod_pos_bound v (2 ^ index) ltac:(lia)).
    pose proof (Z.pow_lt_mono_r 2 index 64 ltac:(lia) ltac:(lia) ltac:(lia)). lia.
Qed.

Lemma si_truncate_spec `{!BitmapLaws B} s r :
  contexts_ok s → 0 ≤ r < 64 →
  ∃ t s', truncated_seal_index s r = Ok t ∧ si_truncate s r = Ok s' ∧ 0 ≤ t ≤ r ∧
    contexts_ok s' ∧ load_index s' = load_index s ∧ miner_id s' = miner_id s ∧
    (∀ j, 0 ≤ j < 64 → is_sealed s' j = is_sealed s j && (j <? t)) ∧
    (∀ j d, 0 ≤ j < t → get_seal_context_digest s j = Some d → get_seal_context_digest s' j = Some d).
Proof.
  intros [Hsort Hb] Hr. destruct (context_split s r) as (cs1 & cs2 & Hcs & Hi & H1 & _).
  assert (∃ t, truncated_seal_index s r = Ok t ∧ 0 ≤ t ≤ r ∧
    (t = 0 ∨ ∃ c, last cs1 = Some c ∧ t = end_seal_index c)) as (t & Ht & Htr & Htl).
  { unfold truncated_seal_index. rewrite Hi.
    destruct (exists_last_or_nil cs1) as [->|(ks & c & ->)]; simpl; [exists 0; split_and!; auto; lia|].
    rewrite length_app, Nat.add_1_r, Hcs, <- app_assoc. simpl.
    rewrite list_lookup_middle by done. simpl. exists (end_seal_index c).
    rewrite Hcs in Hb. rewrite !Forall_app, !Forall_singleton in *.
    split_and!; [done|lia|lia|]. right. exists c. by rewrite last_snoc. }
  set (v := bm_as_value (bitmap s)).
  destruct (truncate_u64_bits v t 0) as (m & Hm & _ & Hrange); [lia..|].
  exists t, (MkSealInfo (bm_from_value m) (load_index s) (miner_id s) cs1).
  split_and!; try done; try lia.
  - unfold si_truncate, bitmap_truncate. rewrite Ht. simpl. fold v. rewrite Hm. simpl.
    by rewrite Hi, Hcs, take_app_length.
  - rewrite Hcs in Hsort, Hb. apply StronglySorted_app_1_l in Hsort.
    apply Forall_app in Hb as [Hb _]. by split.
  - intros j Hj. unfold is_sealed. simpl.
    destruct (truncate_u64_bits v t j) as (m' & Hm' & Hbit & _); [lia..|].
    rewrite Hm in Hm'. injection Hm' as <-.
    rewrite !bm_get_bit, bm_as_from by (try done; apply Hrange, bm_value_range). done.
  - intros j d Hj. rewrite !digest_Some, Hcs. simpl. intros (k1 & k & k2 & Hk & -> & K1 & K2).
    destruct Htl as [->|(c & Hc & ->)]; [lia|].
    apply app_eq_inv in Hk as [(ks & -> & Hks)|(ks & -> & _)].
    + destruct ks as [|k' ks]; simplify_eq/=; [|by exists k1, k', ks].
      rewrite app_nil_r in Hc. apply last_Some in Hc as [l ->].
      rewrite Forall_app, Forall_singleton in K1. lia.
    + apply Forall_app in K1 as [K1 _]. apply last_Some in Hc as [l ->].
      rewrite Forall_app, Forall_singleton in K1. lia.
Qed.
End Info.
Arguments SealInfo B : clear implicits.
