(* ===== verification/EntryBatch.v ===== *)
(** * Load chunks: [node/storage/src/log_store/load_chunk/mod.rs]

    An [EntryBatch] is the data of a load chunk, some seal chunks of which are
    stored sealed.  Reading through [get_unsealed_data] undoes the seals. *)

From S2P Require Import Prelude Bytes IonianSpec SharedTypes SealCodec SealInfo ChunkData.
#[local] Open Scope Z_scope.

(** [struct SealAnswer] of [log_store/mod.rs]. *)
Record SealAnswer : Type := MkSealAnswer {
  sa_seal_index : Z;
  sa_version : Z;
  sealed_data : list Z;
  sa_miner_id : list Z;
  seal_context : list Z;
  context_end_seal : Z;
}.

Section Batch.
Context (keccak : list Z → list Z) {B : Type} `{BitmapOps B}.

Record EntryBatch : Type := MkEntryBatch {
  eb_seal : SealInfo B;
  eb_data : EntryBatchData;
}.

Definition EntryBatch_new (load_index_global : Z) : EntryBatch :=
  MkEntryBatch (SealInfo_new load_index_global) EntryBatchData_new.

Definition eb_is_empty (e : EntryBatch) : bool := ebd_is_empty (eb_data e).

(** ** Reading *)

Definition get_sealed_data (e : EntryBatch) (seal_index : Z) : res (option (list Z)) :=
  if is_sealed (eb_seal e) seal_index
  then ebd_get (eb_data e) (seal_index * BYTES_PER_SEAL) BYTES_PER_SEAL
  else Ok None.

Definition get_non_sealed_data (e : EntryBatch) (seal_index : Z) : res (option (list Z)) :=
  if negb (is_sealed (eb_seal e) seal_index)
  then ebd_get (eb_data e) (seal_index * BYTES_PER_SEAL) BYTES_PER_SEAL
  else Ok None.

(** The loop over [complete_chunks.chunks_mut(BYTES_PER_SEAL)]. *)
Fixpoint unseal_chunks (s : SealInfo B) (seal_index : Z) (pieces : list (list Z)) : res (list Z) :=
  match pieces with
  | [] => Ok []
  | data_to_unseal :: pieces =>
      let? data := si_unseal keccak s data_to_unseal (as_u16 seal_index) in
      let? rest := unseal_chunks s (seal_index + 1) pieces in
      Ok (data ++ rest)
  end.

(** The slice to load, with the word before it when the first seal chunk is
    entered in the middle and sealed: [(loaded_data, unseal_mask_seed)]. *)
Definition load_with_hint (e : EntryBatch) (advanced_by_one : bool) (start_byte length_byte : Z)
    : res (option (list Z * option (list Z))) :=
  if advanced_by_one then
    let? from := usub start_byte 32 in
    let? loaded := ebd_get (eb_data e) from (length_byte + 32) in
    Ok (l ← loaded; Some (zdrop 32 l, Some (ztake 32 l)))
  else
    let? loaded := ebd_get (eb_data e) start_byte length_byte in
    Ok (l ← loaded; Some (l, None)).

Definition get_unsealed_data (e : EntryBatch) (start_sector length_sector : Z)
    : res (option (list Z)) :=
  let advanced_by_one :=
    if start_sector mod SECTORS_PER_SEAL =? 0 then false
    else is_sealed (eb_seal e) (as_u16 (start_sector / SECTORS_PER_SEAL)) in
  let start_byte := start_sector * BYTES_PER_SECTOR in
  let length_byte := length_sector * BYTES_PER_SECTOR in
  let? loaded := load_with_hint e advanced_by_one start_byte length_byte in
  match loaded with
  | None => Ok None
  | Some (loaded_data, unseal_mask_seed) =>
      let first_seal_chunk_length := BYTES_PER_SEAL - start_byte mod BYTES_PER_SEAL in
      (* The part in the first seal chunk; [take] covers both cases of the length. *)
      let? first :=
        (match unseal_mask_seed with
         | Some seed => unseal_with_mask_seed keccak (ztake first_seal_chunk_length loaded_data) seed
         | None => Ok (ztake first_seal_chunk_length loaded_data)
         end) in
      let? rest :=
        (if first_seal_chunk_length <? zlen loaded_data then
           let start_seal := (start_byte + first_seal_chunk_length) / BYTES_PER_SEAL in
           unseal_chunks (eb_seal e) start_seal
             (chunks (Z.to_nat BYTES_PER_SEAL) (zdrop first_seal_chunk_length loaded_data))
         else Ok []) in
      Ok (Some (first ++ rest))
  end.

(** [into_data_list]; the [unwrap] panics on missing data. *)
Fixpoint data_list_of (e : EntryBatch) (global_start_entry : Z) (ranges : list (Z * Z))
    : res (list ChunkArray) :=
  match ranges with
  | [] => Ok []
  | (start_entry, length_entry) :: ranges =>
      let? data := get_unsealed_data e start_entry length_entry in
      let? data := expect data "unwrap on None" in
      let? rest := data_list_of e global_start_entry ranges in
      Ok (MkChunkArray data (global_start_entry + start_entry) :: rest)
  end.
Definition into_data_list (e : EntryBatch) (global_start_entry : Z) : res (list ChunkArray) :=
  data_list_of e global_start_entry (available_range_entries (eb_data e)).

(** ** Writing *)

Definition set_data (d : EntryBatchData) (e : EntryBatch) : EntryBatch := MkEntryBatch (eb_seal e) d.
Definition set_seal (s : SealInfo B) (e : EntryBatch) : EntryBatch := MkEntryBatch s (eb_data e).

Definition eb_insert_data (offset : Z) (data : list Z) : st EntryBatch (list Z) :=
  st_zoom eb_data set_data (ebd_insert_data (offset * BYTES_PER_SECTOR) data).

(** Unsealing a prefix of a seal chunk in place. *)
Definition unseal_in_place (unseal_index first_unseal_byte length : Z) (e : EntryBatch)
    : res EntryBatch :=
  let? slice := ebd_get (eb_data e) first_unseal_byte length in
  let? slice := expect slice "Sealed chunk should be complete" in
  let? data := si_unseal keccak (eb_seal e) slice unseal_index in
  let? d := ebd_get_mut (eb_data e) first_unseal_byte length (λ _, data) in
  let? d := expect d "Sealed chunk should be complete" in
  Ok (set_data d e).

(** One iteration of the loop of [truncate_seal]. *)
Definition truncate_seal_step (truncated_sector : Z) (acc : EntryBatch * list Z) (unseal_index : Z)
    : res (EntryBatch * list Z) :=
  let '(e, to_reseal_set) := acc in
  if negb (is_sealed (eb_seal e) unseal_index) then Ok (e, to_reseal_set)
  else
    let truncated_byte := truncated_sector * BYTES_PER_SECTOR in
    let first_unseal_byte := unseal_index * BYTES_PER_SEAL in
    let? remaining := usub truncated_byte first_unseal_byte in
    let? e := unseal_in_place unseal_index first_unseal_byte (Z.min remaining BYTES_PER_SEAL) e in
    Ok (e, to_reseal_set ++ [unseal_index]).

Definition truncate_seal (truncated_sector : Z) (e : EntryBatch) : res (EntryBatch * list Z) :=
  let reverted_seal_index := as_u16 (truncated_sector / SECTORS_PER_SEAL) in
  let? first_unseal_index := truncated_seal_index (eb_seal e) reverted_seal_index in
  let last_unseal_index := as_u16 ((truncated_sector - 1) / SECTORS_PER_SEAL) in
  let? '(e, to_reseal_set) :=
    res_foldl (truncate_seal_step truncated_sector) (e, [])
      (seqZ first_unseal_index (last_unseal_index + 1 - first_unseal_index)) in
  let? s := si_truncate (eb_seal e) reverted_seal_index in
  Ok (set_seal s e, to_reseal_set).

Definition eb_truncate (truncated_sector : Z) (e : EntryBatch) : res (EntryBatch * list Z) :=
  let? _ := assert ((0 <? truncated_sector) && (truncated_sector <? SECTORS_PER_LOAD))
    "assertion failed: truncated_sector > 0 && truncated_sector < SECTORS_PER_LOAD" in
  let? d := ebd_truncate (eb_data e) (truncated_sector * BYTES_PER_SECTOR) in
  truncate_seal truncated_sector (set_data d e).

Definition eb_submit_seal_result (answer : SealAnswer) (e : EntryBatch) : res EntryBatch :=
  let local_seal_index := sa_seal_index answer mod SEALS_PER_LOAD in
  let? _ := assert (negb (is_sealed (eb_seal e) (as_u16 local_seal_index))) "Duplicated sealing" in
  let? _ := assert (sa_seal_index answer / SEALS_PER_LOAD =? load_index (eb_seal e))
    "assertion failed: answer.seal_index / SEALS_PER_LOAD == self.seal.load_index()" in
  let? s := set_seal_context (eb_seal e) (seal_context answer) (context_end_seal answer)
              (sa_miner_id answer) in
  let? d := ebd_get_mut (eb_data e) (local_seal_index * BYTES_PER_SEAL) BYTES_PER_SEAL
              (λ _, sealed_data answer) in
  let? d := expect d "Sealing segment should exist" in
  Ok (MkEntryBatch (mark_sealed s (as_u16 local_seal_index)) d).
End Batch.
Arguments EntryBatch B : clear implicits.
