(* ===== verification/EntryBatchProofs.v ===== *)
(** * Correctness of load chunks

    A load chunk stores a partial function from byte offsets to plain bytes:
    directly outside the sealed chunks, and sealed inside them. *)

From S2P Require Import Prelude Bytes IonianSpec SealCodec SealInfo ChunkData ChunkRuns EntryBatch.
#[local] Open Scope Z_scope.

(** ** Ranges *)

Lemma read_range_sub f i n bs j m :
  0 ≤ n → 0 ≤ m → read_range f i n = Some bs → i ≤ j → j + m ≤ i + n →
  read_range f j m = Some (ztake m (zdrop (j - i) bs)).
Proof.
  intros Hn Hm Hr Hij Hjm. rewrite read_range_Some in Hr by done. destruct Hr as [Hl Hf].
  apply read_range_Some; [done|]. split.
  - rewrite zlen_ztake, zlen_zdrop by lia. lia.
  - intros k Hk. replace (j + k) with (i + (j - i + k)) by lia. rewrite Hf by lia.
    unfold ztake, zdrop. rewrite lookup_take_lt, lookup_drop by lia. f_equal. lia.
Qed.

Lemma read_range_join f i n m l1 l2 :
  0 ≤ n → 0 ≤ m → read_range f i n = Some l1 → read_range f (i + n) m = Some l2 →
  read_range f i (n + m) = Some (l1 ++ l2).
Proof.
  intros Hn Hm. rewrite !read_range_Some by lia. intros [H1 F1] [H2 F2]. split.
  - rewrite zlen_app. lia.
  - intros k Hk. unfold zlen in *. destruct (decide (k < n)).
    + rewrite lookup_app_l by lia. apply F1. lia.
    + rewrite lookup_app_r by lia. replace (i + k) with (i + n + (k - n)) by lia.
      rewrite F2 by lia. f_equal. lia.
Qed.

Lemma read_range_zlen f i n bs : 0 ≤ n → read_range f i n = Some bs → zlen bs = n.
Proof. intros Hn. rewrite read_range_Some by done. tauto. Qed.

Lemma read_range_same_None f g i n :
  (∀ k, i ≤ k < i + n → is_Some (f k) ↔ is_Some (g k)) →
  read_range f i n = None → read_range g i n = None.
Proof.
  intros Hfg Hf. apply mapM_None in Hf. apply mapM_None.
  apply Exists_exists in Hf as (k & Hk%elem_of_seqZ & Hfk). apply Exists_exists.
  exists k. split; [apply elem_of_seqZ; lia|]. destruct (g k) eqn:Hg; [|done].
  destruct (proj2 (Hfg k ltac:(lia))) as [y Hy]; [by eexists|]. congruence.
Qed.

Section Proofs.
Context (keccak : list Z → list Z) (keccak_len : ∀ x, length (keccak x) = 32%nat).
Context {B : Type} `{BitmapOps B} `{!BitmapLaws B}.
Implicit Types (e : EntryBatch B) (s : SealInfo B) (plain : Z → option Z).

(** ** The plain content *)

Record eb_models e plain : Prop := {
  em_wf : ebd_wf (eb_data e);
  em_contexts : contexts_ok (eb_seal e);
  em_plain i : 0 ≤ i < 262144 → is_sealed (eb_seal e) (i / 4096) = false →
    byte_at (eb_data e) i = plain i;
  em_sealed x : 0 ≤ x < 64 → is_sealed (eb_seal e) x = true →
    ∃ ctx bs cs, get_seal_context_digest (eb_seal e) x = Some ctx ∧
      read_range plain (x * 4096) 4096 = Some bs ∧
      seal keccak bs (miner_id (eb_seal e)) ctx (global_seal_sector (eb_seal e) x) = Ok cs ∧
      read_range (byte_at (eb_data e)) (x * 4096) 4096 = Some cs;
}.

Lemma models_same_domain e plain i :
  eb_models e plain → 0 ≤ i < 262144 → is_Some (byte_at (eb_data e) i) ↔ is_Some (plain i).
Proof.
  intros Hm Hi. destruct (is_sealed (eb_seal e) (i / 4096)) eqn:Hs; last first.
  { by rewrite (em_plain _ _ Hm). }
  destruct (em_sealed _ _ Hm (i / 4096)) as (ctx & bs & cs & _ & Hp & _ & Hb); [slia|done|].
  rewrite read_range_Some in Hp, Hb by lia. destruct Hp as [Hpl Hp]. destruct Hb as [Hbl Hb].
  replace i with (i / 4096 * 4096 + i mod 4096) by slia. unfold zlen in *.
  rewrite Hp, Hb by slia. split; intros _; apply lookup_lt_is_Some_2; slia.
Qed.

Lemma new_models load_index : eb_models (EntryBatch_new load_index) (λ _, None).
Proof.
  split; simpl.
  - split; [split; constructor|]. by intros (p & ? & _).
  - split; [constructor|constructor].
  - done.
  - intros x Hx. unfold is_sealed. simpl. rewrite bm_get_bit, bm_default_value, Z.testbit_0_l by lia. done.
Qed.

(** Only the bytes of the load chunk matter. *)
Lemma models_ext e plain plain' :
  (∀ i, 0 ≤ i < 262144 → plain i = plain' i) → eb_models e plain → eb_models e plain'.
Proof.
  intros Hp [Hwf Hctx Hpl Hse]. split; [done|done|..].
  - intros i Hi Hs. rewrite <- Hp by lia. by apply Hpl.
  - intros x Hx Hs. destruct (Hse x Hx Hs) as (ctx & bs & cs & ? & Hb & ?).
    exists ctx, bs, cs. rewrite <- Hb. split_and!; try tauto. apply read_range_ext.
    intros k Hk. symmetry. apply Hp. lia.
Qed.

(** ** Unsealing pieces of one seal chunk *)

Lemma length_seed_mask miner ctx sector :
  length (keccak (compute_first_mask_seed miner ctx sector)) = 32%nat.
Proof. apply keccak_len. Qed.

Lemma unseal_piece_prefix e plain x n bs :
  eb_models e plain → 0 ≤ x < 64 → 0 ≤ n ≤ 4096 → n mod 32 = 0 →
  read_range (byte_at (eb_data e)) (x * 4096) n = Some bs →
  ∃ ps, si_unseal keccak (eb_seal e) bs x = Ok ps ∧ read_range plain (x * 4096) n = Some ps.
Proof.
  intros Hm Hx Hn Hmod Hbs. unfold si_unseal.
  destruct (is_sealed (eb_seal e) x) eqn:Hs; simpl; last first.
  { exists bs. split; [done|]. rewrite <- Hbs. symmetry. apply read_range_ext. intros k Hk.
    apply (em_plain _ _ Hm); [lia|]. by replace (k / 4096) with x by slia. }
  destruct (em_sealed _ _ Hm x Hx Hs) as (ctx & ps & cs & -> & Hp & Hseal & Hc). simpl.
  rewrite (read_range_sub _ _ 4096 _ (x * 4096) n ltac:(lia) ltac:(lia) Hc) in Hbs by lia.
  rewrite Z.sub_diag in Hbs. injection Hbs as <-. unfold unseal, unseal_with_mask_seed.
  pose proof (read_range_zlen _ _ 4096 _ ltac:(lia) Hp) as Hlen.
  destruct (unseal_prefix keccak keccak_len ps cs _ n (length_seed_mask _ _ _)
    ltac:(rewrite Hlen; done) Hmod ltac:(lia) Hseal) as [_ Hun].
  exists (ztake n ps). split; [exact Hun|].
  rewrite (read_range_sub _ _ 4096 _ (x * 4096) n ltac:(lia) ltac:(lia) Hp) by lia.
  by rewrite Z.sub_diag.
Qed.

Lemma unseal_piece_infix e plain x o n l :
  eb_models e plain → 0 ≤ x < 64 → is_sealed (eb_seal e) x = true →
  0 < o → o mod 32 = 0 → 0 ≤ n → n mod 32 = 0 → o + n ≤ 4096 →
  read_range (byte_at (eb_data e)) (x * 4096 + o - 32) (n + 32) = Some l →
  ∃ ps, unseal_with_mask_seed keccak (zdrop 32 l) (ztake 32 l) = Ok ps ∧
    read_range plain (x * 4096 + o) n = Some ps.
Proof.
  intros Hm Hx Hs Ho Homod Hn Hnmod Hon Hl.
  destruct (em_sealed _ _ Hm x Hx Hs) as (ctx & ps & cs & _ & Hp & Hseal & Hc).
  rewrite (read_range_sub _ _ 4096 _ _ (n + 32) ltac:(lia) ltac:(lia) Hc) in Hl by slia.
  replace (x * 4096 + o - 32 - x * 4096) with (o - 32) in Hl by lia. injection Hl as <-.
  pose proof (read_range_zlen _ _ 4096 _ ltac:(lia) Hp) as Hlen.
  pose proof (unseal_infix keccak keccak_len ps cs _ o n (length_seed_mask _ _ _)
    ltac:(rewrite Hlen; done) Homod Hnmod ltac:(lia) Hn Hseal) as Hun.
  exists (ztake n (zdrop o ps)). split.
  - unfold unseal_with_mask_seed. rewrite <- Hun. unfold ztake, zdrop. f_equal; [|f_equal].
    + rewrite skipn_firstn_comm, drop_drop. f_equal; [lia|f_equal; slia].
    + rewrite take_take. f_equal. lia.
  - rewrite (read_range_sub _ _ 4096 _ _ n ltac:(lia) ltac:(lia) Hp) by lia. do 3 f_equal. lia.
Qed.

(** ** Whole seal chunks *)

Lemma as_u16_small x : 0 ≤ x < 65536 → as_u16 x = x.
Proof. intros. unfold as_u16. by apply Z.mod_small. Qed.

Lemma unseal_chunks_ok e plain x n bs :
  eb_models e plain → 0 ≤ x → 0 ≤ n → n mod 32 = 0 → x * 4096 + n ≤ 262144 →
  read_range (byte_at (eb_data e)) (x * 4096) n = Some bs →
  ∃ ps, unseal_chunks keccak (eb_seal e) x (chunks (Z.to_nat BYTES_PER_SEAL) bs) = Ok ps ∧
    read_range plain (x * 4096) n = Some ps.
Proof.
  intros Hm. remember (Z.to_nat n) as k eqn:Hk. revert x n bs Hk.
  induction k as [k IH] using (well_founded_induction lt_wf). intros x n bs -> Hx Hn Hmod Hend Hbs.
  destruct (decide (n = 0)) as [->|Hn0].
  { exists []. by injection Hbs as <-. }
  pose proof (read_range_zlen _ _ n _ Hn Hbs) as Hlen.
  rewrite chunks_cons by (try (intros ->; by rewrite zlen_nil in Hlen); slia).
  set (m := Z.min n 4096).
  pose proof (read_range_sub _ _ n _ (x * 4096) m Hn ltac:(lia) Hbs ltac:(lia) ltac:(lia)) as H1.
  rewrite Z.sub_diag in H1.
  assert (ztake m (zdrop 0 bs) = take (Z.to_nat BYTES_PER_SEAL) bs) as E1.
  { unfold ztake, zdrop, m. rewrite drop_0. unfold zlen in Hlen. spec_consts.
    destruct (decide (n ≤ 4096)); [|f_equal; lia].
    rewrite !firstn_all2 by lia. done. }
  rewrite E1 in H1.
  destruct (unseal_piece_prefix e plain x m _ Hm ltac:(lia) ltac:(lia) ltac:(unfold m; slia) H1)
    as (p1 & Hp1 & Hr1).
  assert (read_range (byte_at (eb_data e)) ((x + 1) * 4096) (n - m) =
    Some (drop (Z.to_nat BYTES_PER_SEAL) bs)) as H2.
  { destruct (decide (n ≤ 4096)).
    - replace (n - m) with 0 by lia. rewrite drop_ge by (unfold zlen in Hlen; slia). done.
    - rewrite (read_range_sub _ _ n _ _ (n - m) Hn ltac:(lia) Hbs) by lia. f_equal.
      unfold ztake, zdrop, m. unfold zlen in Hlen. spec_consts.
      rewrite firstn_all2 by (rewrite length_drop; lia). f_equal. lia. }
  destruct (IH (Z.to_nat (n - m)) ltac:(lia) (x + 1) (n - m) _ eq_refl ltac:(lia) ltac:(lia)
    ltac:(unfold m; slia) ltac:(lia) H2) as (p2 & Hp2 & Hr2).
  exists (p1 ++ p2). cbn [unseal_chunks]. rewrite as_u16_small by lia.
  rewrite Hp1. cbn [res_bind]. rewrite Hp2. cbn [res_bind]. split; [done|].
  replace n with (m + (n - m)) by lia. apply read_range_join; [lia|lia|done|].
  destruct (decide (n ≤ 4096)).
  - replace (n - m) with 0 in * by lia. by injection Hr2 as <-.
  - replace (x * 4096 + m) with ((x + 1) * 4096) by lia. done.
Qed.

(** ** [get_unsealed_data] *)

(** The steps after loading, once the first piece is unsealed. *)
Lemma unsealed_assemble e plain start n l :
  eb_models e plain → 0 ≤ start → start mod 256 = 0 → n mod 256 = 0 → 0 < n → start + n ≤ 262144 →
  read_range (byte_at (eb_data e)) start n = Some l →
  let first := 4096 - start mod 4096 in
  ∃ p2, (if first <? zlen l then
      unseal_chunks keccak (eb_seal e) ((start + first) / BYTES_PER_SEAL)
        (chunks (Z.to_nat BYTES_PER_SEAL) (zdrop first l))
    else Ok []) = Ok p2 ∧
    ∀ p1, read_range plain start (Z.min first n) = Some p1 →
      read_range plain start n = Some (p1 ++ p2).
Proof.
  intros Hm Hs Hsm Hnm Hn Hend Hl first.
  assert (first = 4096 - start mod 4096) as Hfirst by done. clearbody first.
  pose proof (read_range_zlen _ _ n _ ltac:(lia) Hl) as Hlen. rewrite Hlen.
  destruct (Z.ltb_spec first n) as [Hlt|Hge]; last first.
  { exists []. split; [done|]. intros p1. rewrite Z.min_r by lia. by rewrite app_nil_r. }
  assert ((start + first) / BYTES_PER_SEAL * 4096 = start + first) as Hx by (slia).
  pose proof (read_range_sub _ _ n _ (start + first) (n - first) ltac:(lia) ltac:(lia) Hl
    ltac:(slia) ltac:(lia)) as H2.
  replace (ztake (n - first) (zdrop (start + first - start) l)) with (zdrop first l) in H2; last first.
  { replace (start + first - start) with first by lia. symmetry. apply ztake_ge.
    rewrite zlen_zdrop; slia. }
  rewrite <- Hx in H2 at 1.
  destruct (unseal_chunks_ok e plain ((start + first) / BYTES_PER_SEAL) (n - first) _ Hm ltac:(slia) ltac:(lia)
    ltac:(slia) ltac:(lia) H2) as (p2 & Hp2 & Hr2).
  exists p2. split; [done|]. intros p1. rewrite Z.min_l by lia. intros H1.
  replace n with (first + (n - first)) by lia.
  apply read_range_join; [slia|lia|done|]. by rewrite <- Hx.
Qed.

(** Taking a prefix that may be longer than the list. *)
Lemma ztake_min {A} f (l : list A) : 0 ≤ f → ztake (Z.min f (zlen l)) l = ztake f l.
Proof.
  intros. destruct (decide (f ≤ zlen l)); [by rewrite Z.min_l by lia|].
  by rewrite Z.min_r, !ztake_ge by lia.
Qed.

Lemma load_plain e plain start n :
  eb_models e plain → 0 ≤ start → 0 < n → start + n ≤ 262144 →
  is_sealed (eb_seal e) (start / 4096) = false →
  match load_with_hint e false start n with
  | Ok None => read_range plain start n = None
  | Ok (Some (l, hint)) =>
      hint = None ∧ read_range (byte_at (eb_data e)) start n = Some l ∧
      read_range plain start (Z.min (4096 - start mod 4096) n) = Some (ztake (4096 - start mod 4096) l)
  | _ => False
  end.
Proof.
  intros Hm Hs Hn Hend Hns. unfold load_with_hint.
  rewrite ebd_get_spec by (try apply (em_wf _ _ Hm); lia). simpl.
  destruct (read_range _ start n) as [l|] eqn:Hl; simpl.
  - split_and!; [done..|]. set (f := 4096 - start mod 4096).
    assert (1 ≤ f ≤ 4096) as Hf by (unfold f; slia).
    rewrite <- (read_range_ext (byte_at (eb_data e))).
    + rewrite (read_range_sub _ _ n _ start (Z.min f n) ltac:(lia) ltac:(lia) Hl) by lia.
      rewrite Z.sub_diag, <- (ztake_min f) by lia.
      by rewrite (read_range_zlen _ _ n _ ltac:(lia) Hl).
    + intros k Hk. apply (em_plain _ _ Hm); [lia|]. rewrite <- Hns. f_equal. unfold f in *. slia.
  - eapply read_range_same_None; [|exact Hl]. intros k Hk. apply models_same_domain; [done|lia].
Qed.

Lemma load_sealed e plain start n :
  eb_models e plain → 0 ≤ start → 0 < n → start + n ≤ 262144 →
  start mod 256 = 0 → n mod 256 = 0 → start mod 4096 ≠ 0 →
  is_sealed (eb_seal e) (start / 4096) = true →
  match load_with_hint e true start n with
  | Ok None => read_range plain start n = None
  | Ok (Some (l, hint)) =>
      read_range (byte_at (eb_data e)) start n = Some l ∧
      ∃ seed p1, hint = Some seed ∧
        unseal_with_mask_seed keccak (ztake (4096 - start mod 4096) l) seed = Ok p1 ∧
        read_range plain start (Z.min (4096 - start mod 4096) n) = Some p1
  | _ => False
  end.
Proof.
  intros Hm Hs Hn Hend Hsm Hnm Hna Hse. unfold load_with_hint, usub.
  rewrite (proj2 (Z.leb_le _ _)) by slia. cbn [res_bind].
  rewrite ebd_get_spec by (try apply (em_wf _ _ Hm); slia). cbn [res_bind].
  destruct (read_range _ (start - 32) (n + 32)) as [l|] eqn:Hl; simpl; last first.
  { apply mapM_None, Exists_exists in Hl as (k & Hk%elem_of_seqZ & Hkn).
    assert (start ≤ k).
    { destruct (decide (start ≤ k)); [done|]. exfalso.
      destruct (em_sealed _ _ Hm (start / 4096)) as (_ & _ & cs & _ & _ & _ & Hc); [slia|done|].
      pose proof (read_range_None _ (start / 4096 * 4096) 4096 k ltac:(slia) Hkn) as Hnone.
      by rewrite Hnone in Hc. }
    apply (read_range_None _ _ _ k); [lia|]. apply eq_None_not_Some.
    rewrite <- (models_same_domain e plain) by (done || lia). by rewrite Hkn. }
  set (f := 4096 - start mod 4096). assert (1 ≤ f ≤ 4096) as Hf by (unfold f; slia).
  pose proof (read_range_zlen _ _ (n + 32) _ ltac:(lia) Hl) as Hlen.
  split.
  - rewrite (read_range_sub _ _ (n + 32) _ start n ltac:(lia) ltac:(lia) Hl) by lia.
    f_equal. replace (start - (start - 32)) with 32 by lia. apply ztake_ge.
    rewrite zlen_zdrop by lia. lia.
  - set (x := start / 4096). set (o := start mod 4096).
    assert (start = x * 4096 + o) as Hxo by (unfold x, o; slia).
    pose proof (read_range_sub _ _ (n + 32) _ (start - 32) (Z.min f n + 32) ltac:(lia) ltac:(lia) Hl
      ltac:(lia) ltac:(lia)) as Hl'.
    rewrite Z.sub_diag in Hl'. change (zdrop 0 l) with l in Hl'.
    replace (start - 32) with (x * 4096 + o - 32) in Hl' by lia.
    destruct (unseal_piece_infix e plain x o (Z.min f n) (ztake (Z.min f n + 32) l) Hm
      ltac:(unfold x; slia) Hse ltac:(unfold o; slia) ltac:(unfold o; slia) ltac:(lia)
      ltac:(unfold f; slia) ltac:(unfold f, o; lia) Hl') as (p1 & Hp1 & Hr1).
    exists (ztake 32 l), p1. split_and!; [done| |by rewrite Hxo].
    rewrite <- Hp1. f_equal.
    + unfold ztake, zdrop. rewrite skipn_firstn_comm. unfold zlen in Hlen.
      destruct (decide (f ≤ n)); [f_equal; lia|].
      rewrite !firstn_all2; [done|rewrite length_drop; lia..].
    + unfold ztake. rewrite take_take. f_equal. lia.
Qed.

(** Loading and unsealing the part inside the first seal chunk. *)
Lemma load_first e plain start n :
  eb_models e plain → 0 ≤ start → 0 < n → start + n ≤ 262144 → start mod 256 = 0 → n mod 256 = 0 →
  start mod 4096 ≠ 0 ∨ is_sealed (eb_seal e) (start / 4096) = false →
  let adv := if start mod 4096 =? 0 then false else is_sealed (eb_seal e) (start / 4096) in
  let first := 4096 - start mod 4096 in
  match load_with_hint e adv start n with
  | Ok None => read_range plain start n = None
  | Ok (Some (l, hint)) =>
      read_range (byte_at (eb_data e)) start n = Some l ∧
      ∃ p1, match hint with
            | Some seed => unseal_with_mask_seed keccak (ztake first l) seed
            | None => Ok (ztake first l)
            end = Ok p1 ∧ read_range plain start (Z.min first n) = Some p1
  | _ => False
  end.
Proof.
  intros Hm Hs Hn Hend Hsm Hnm Hfirst adv first. unfold adv.
  destruct (is_sealed (eb_seal e) (start / 4096)) eqn:Hsealed.
  - destruct Hfirst as [Hna|]; [|done]. rewrite (proj2 (Z.eqb_neq _ _)) by done.
    pose proof (load_sealed e plain start n Hm Hs Hn Hend Hsm Hnm Hna Hsealed) as Hload.
    destruct (load_with_hint e true start n) as [[[l hint]|]| |]; try done.
    destruct Hload as (Hl & seed & p1 & -> & Hp1 & Hr1). split; [done|]. by exists p1.
  - pose proof (load_plain e plain start n Hm Hs Hn Hend Hsealed) as Hload.
    replace (if start mod 4096 =? 0 then false else false) with false by by destruct (_ =? _).
    destruct (load_with_hint e false start n) as [[[l hint]|]| |]; try done.
    destruct Hload as (-> & Hl & Hr1). split; [done|]. by exists (ztake first l).
Qed.

Lemma get_unsealed_data_run e plain start len :
  eb_models e plain → 0 ≤ start → 0 < len → start + len ≤ 1024 →
  start mod 16 ≠ 0 ∨ is_sealed (eb_seal e) (start / 16) = false →
  get_unsealed_data keccak e start len = Ok (read_range plain (start * 256) (len * 256)).
Proof.
  intros Hm Hs Hlen Hend Hfirst. unfold get_unsealed_data. spec_consts.
  rewrite as_u16_small by slia.
  assert (start / 16 = (start * 256) / 4096) as Hx by slia. rewrite Hx in *.
  replace (start mod 16 =? 0) with ((start * 256) mod 4096 =? 0); last first.
  { destruct (Z.eqb_spec (start mod 16) 0); [apply Z.eqb_eq|apply Z.eqb_neq]; slia. }
  assert ((start * 256) mod 4096 ≠ 0 ∨ is_sealed (eb_seal e) (start * 256 / 4096) = false) as Hf
    by (destruct Hfirst; [left; slia|by right]).
  assert (0 ≤ start * 256) as H0 by lia. assert (0 < len * 256) as H1 by lia.
  assert (start * 256 + len * 256 ≤ 262144) as H2 by lia.
  assert ((start * 256) mod 256 = 0) as H3 by slia. assert ((len * 256) mod 256 = 0) as H4 by slia.
  generalize dependent (start * 256). generalize dependent (len * 256).
  clear Hs Hlen Hend. intros n Hn Hnm start_byte _ _ Hf Hs Hend Hsm.
  pose proof (load_first e plain start_byte n Hm Hs Hn Hend Hsm Hnm Hf) as Hload. cbv zeta in Hload.
  destruct (load_with_hint _ _ start_byte n) as [[[l hint]|]| |]; cbn [res_bind]; try done;
    [|by rewrite Hload].
  destruct Hload as (Hl & p1 & Hp1 & Hr1).
  destruct (unsealed_assemble e plain start_byte n l Hm Hs Hsm Hnm Hn Hend Hl) as (p2 & Hp2 & Hr2).
  cbv zeta. rewrite Hp1. cbn [res_bind].
  change BYTES_PER_SEAL with 4096 in Hp2. rewrite Hp2. cbn [res_bind]. by rewrite (Hr2 p1 Hr1).
Qed.

(** ** [insert_data] *)

Lemma eb_insert_data_run e plain offset data :
  eb_models e plain → 0 ≤ offset → 0 < zlen data → zlen data mod 256 = 0 →
  offset * 256 + zlen data ≤ 262144 → free plain (offset * 256) (zlen data) →
  (∃ l, eb_data e = Incomplete l) →
  ∃ idxs e', eb_insert_data offset data e = (Ok idxs, e') ∧
    eb_models e' (λ i, piece (MkPartial offset data) i ∪ plain i) ∧
    (∀ x, x ∈ idxs ↔ meets x offset (zlen data / 256) ∧ intact (byte_at (eb_data e')) x).
Proof.
  intros Hm Ho Hd0 Hd Hend Hfree [l Hl]. unfold eb_insert_data, st_zoom. spec_consts.
  pose proof (em_wf _ _ Hm) as Hwf. rewrite Hl in Hwf.
  destruct (insert_data_free l (offset * 256) data Hwf) as (idxs & b & Hins & Hwf' & Hb & Hidx);
    [lia|slia|done|done|done| |].
  { intros k Hk. destruct (content l k) eqn:Hc; [|done].
    assert (is_Some (plain k)) as [y Hy].
    { rewrite <- (models_same_domain e plain) by (done || lia). rewrite Hl. simpl. by rewrite Hc. }
    rewrite (Hfree k Hk) in Hy. done. }
  rewrite Hl, Hins. rewrite Z.div_mul in Hb, Hidx by lia.
  exists idxs, (set_data b e). split_and!; [done| |done].
  split; simpl; [done|apply Hm|..].
  - intros i Hi Hns. rewrite Hb. f_equal.
    pose proof (em_plain _ _ Hm i Hi Hns) as Hp. by rewrite Hl in Hp.
  - intros x Hx Hse. destruct (em_sealed _ _ Hm x Hx Hse) as (ctx & bs & cs & Hctx & Hp & Hs & Hc).
    exists ctx, bs, cs. assert (∀ k, x * 4096 ≤ k < x * 4096 + 4096 →
      piece (MkPartial offset data) k = None) as Hnone.
    { intros k Hk. apply piece_None. simpl.
      destruct (decide (k < offset * 256 ∨ offset * 256 + zlen data ≤ k)); [done|].
      rewrite (read_range_None _ _ _ k) in Hp; [done|lia|apply Hfree; lia]. }
    split_and!; [done| |done|].
    + rewrite <- Hp. apply read_range_ext. intros k Hk. rewrite Hnone by lia. by destruct (plain k).
    + rewrite <- Hc. apply read_range_ext. intros k Hk.
      rewrite Hb, Hnone by lia. rewrite Hl. simpl. by destruct (content l k).
Qed.

(** ** [submit_seal_result] *)

Lemma read_range_overwrite_out f i xs j n :
  j + n ≤ i ∨ i + zlen xs ≤ j → read_range (overwrite f i xs) j n = read_range f j n.
Proof.
  intros Hout. apply read_range_ext. intros k Hk. unfold overwrite.
  destruct (Z.leb_spec i k), (Z.ltb_spec k (i + zlen xs)); simpl; try done; lia.
Qed.

Lemma read_range_overwrite_in f i xs : read_range (overwrite f i xs) i (zlen xs) = Some xs.
Proof.
  apply read_range_Some; [apply zlen_nonneg|]. split; [done|]. intros k Hk. unfold overwrite.
  rewrite (proj2 (Z.leb_le _ _)), (proj2 (Z.ltb_lt _ _)) by lia. simpl. f_equal. lia.
Qed.

Lemma submit_seal_result_run e plain x answer bs :
  eb_models e plain → 0 ≤ x < 64 → is_sealed (eb_seal e) x = false →
  0 ≤ load_index (eb_seal e) → load_index (eb_seal e) * 64 < 2 ^ 64 →
  sa_seal_index answer = load_index (eb_seal e) * 64 + x →
  (miner_id (eb_seal e) = sa_miner_id answer ∨
   miner_id (eb_seal e) = replicate 32 0 ∧ ∀ y, 0 ≤ y < 64 → is_sealed (eb_seal e) y = false) →
  x < context_end_seal answer - load_index (eb_seal e) * 64 < 65536 →
  (∀ d, get_seal_context_digest (eb_seal e) (local_end (eb_seal e) (context_end_seal answer) - 1) =
     Some d → d = seal_context answer) →
  (∀ d, get_seal_context_digest (eb_seal e) x = Some d → d = seal_context answer) →
  read_range plain (x * 4096) 4096 = Some bs →
  seal keccak bs (sa_miner_id answer) (seal_context answer)
    (global_seal_sector (eb_seal e) x) = Ok (sealed_data answer) →
  ∃ e', eb_submit_seal_result answer e = Ok e' ∧ eb_models e' plain ∧
    (∀ y, 0 ≤ y < 64 → is_sealed (eb_seal e') y = (y =? x) || is_sealed (eb_seal e) y).
Proof.
  intros Hm Hx Hns Hl0 Hl Hidx Hminer Hend Hsame Hsamex Hbs Hseal.
  destruct (set_seal_context_spec (eb_seal e) (seal_context answer) (context_end_seal answer)
    (sa_miner_id answer)) as (s & Hset & Hok & Hbm & Hli & Hmi & Hkeep & Hnew);
    [apply Hm|tauto|done|lia|done|].
  pose proof (read_range_zlen _ _ 4096 _ ltac:(lia) Hbs) as Hlen.
  assert (zlen (sealed_data answer) = 4096) as Hlens.
  { unfold seal, seal_with_mask_seed in Hseal.
    destruct (unseal_prefix keccak keccak_len bs (sealed_data answer) _ 0 (length_seed_mask _ _ _)
      ltac:(rewrite Hlen; done) ltac:(done) ltac:(lia) Hseal) as [-> _]. done. }
  assert (read_range (byte_at (eb_data e)) (x * 4096) 4096 = Some bs) as Hst.
  { rewrite <- Hbs. apply read_range_ext. intros k Hk. apply (em_plain _ _ Hm); [lia|].
    by replace (k / 4096) with x by slia. }
  destruct (ebd_get_mut_spec (eb_data e) (x * 4096) 4096 (λ _, sealed_data answer) bs)
    as (d & Hmut & Hwf & Hbytes); [apply Hm|lia|lia|lia|done|done|].
  exists (MkEntryBatch (mark_sealed s x) d).
  assert (∀ y, 0 ≤ y < 64 → is_sealed (mark_sealed s x) y = (y =? x) || is_sealed (eb_seal e) y)
    as Hsealed.
  { intros y Hy. unfold is_sealed, mark_sealed. simpl. rewrite bm_get_set, Hbm by lia.
    by destruct (y =? x). }
  split_and!.
  - unfold eb_submit_seal_result. spec_consts. rewrite Hidx.
    replace ((load_index (eb_seal e) * 64 + x) mod 64) with x by slia.
    replace ((load_index (eb_seal e) * 64 + x) / 64) with (load_index (eb_seal e)) by slia.
    rewrite as_u16_small, Hns, Z.eqb_refl by lia. cbn [negb assert res_bind].
    rewrite Hset. cbn [res_bind]. rewrite Hmut. done.
  - split; simpl; [done|exact Hok|..].
    + intros i Hi Hi'. rewrite Hsealed in Hi' by slia. apply orb_false_iff in Hi' as [Hne Hi'].
      apply Z.eqb_neq in Hne. rewrite Hbytes, <- (em_plain _ _ Hm) by done. unfold overwrite.
      rewrite Hlens. destruct (Z.leb_spec (x * 4096) i), (Z.ltb_spec i (x * 4096 + 4096)); simpl;
        try done. slia.
    + intros y Hy. rewrite Hsealed by done. destruct (Z.eqb_spec y x) as [->|Hne]; simpl.
      * intros _. exists (seal_context answer), bs, (sealed_data answer). split_and!.
        -- change (get_seal_context_digest (mark_sealed s x) x) with (get_seal_context_digest s x).
           destruct (get_seal_context_digest (eb_seal e) x) as [d'|] eqn:Hd'.
           ++ rewrite <- (Hsamex d' eq_refl). by apply Hkeep.
           ++ apply Hnew; [unfold local_end; lia|done].
        -- done.
        -- rewrite <- Hseal. unfold global_seal_sector. simpl. by rewrite Hmi, Hli.
        -- rewrite <- (read_range_overwrite_in (byte_at (eb_data e)) (x * 4096) (sealed_data answer)).
           rewrite Hlens. apply read_range_ext. intros k _. apply Hbytes.
      * intros Hy'. destruct (em_sealed _ _ Hm y Hy Hy') as (ctx & ps & cs & Hctx & Hp & Hs & Hc).
        exists ctx, ps, cs. split_and!; [by apply Hkeep|done|..].
        -- rewrite <- Hs. unfold global_seal_sector. simpl. rewrite Hmi, Hli.
           destruct Hminer as [<-|[_ Hnone]]; [done|]. by rewrite Hnone in Hy'.
        -- rewrite <- Hc, <- (read_range_overwrite_out (byte_at (eb_data e)) (x * 4096)
             (sealed_data answer)) by lia.
           apply read_range_ext. intros k _. apply Hbytes.
  - done.
Qed.

(** ** [truncate] *)

(** The plain content below byte [t]. *)
Definition cut (t : Z) plain (i : Z) : option Z := if i <? t then plain i else None.

(** The bytes while [truncate_seal] runs: the seal chunks [first .. k) are
    unsealed already. *)
Record truncating e0 plain (t first k : Z) e : Prop := {
  tr_seal : eb_seal e = eb_seal e0;
  tr_wf : ebd_wf (eb_data e);
  tr_bytes i : 0 ≤ i →
    byte_at (eb_data e) i =
    cut t (λ i, if (first <=? i / 4096) && (i / 4096 <? k) then plain i
                else byte_at (eb_data e0) i) i;
}.

Lemma unseal_in_place_run e0 plain t first x e :
  eb_models e0 plain → truncating e0 plain t first x e → 0 ≤ first ≤ x → x < 64 →
  x * 4096 < t ≤ 262144 → t mod 256 = 0 → is_sealed (eb_seal e0) x = true →
  ∃ e', unseal_in_place keccak x (x * 4096) (Z.min (t - x * 4096) 4096) e = Ok e' ∧
    truncating e0 plain t first (x + 1) e'.
Proof.
  intros Hm [Hseal Hwf Hb] Hf Hx Ht Htm Hs. set (n := Z.min (t - x * 4096) 4096).
  destruct (em_sealed _ _ Hm x ltac:(lia) Hs) as (ctx & ps & cs & _ & _ & _ & Hc).
  pose proof (read_range_sub _ _ 4096 _ (x * 4096) n ltac:(lia) ltac:(lia) Hc ltac:(lia) ltac:(lia))
    as Hst. set (bs := ztake _ _) in Hst.
  destruct (unseal_piece_prefix e0 plain x n bs Hm ltac:(lia) ltac:(lia) ltac:(unfold n; slia) Hst)
    as (p1 & Hp1 & Hr1).
  assert (read_range (byte_at (eb_data e)) (x * 4096) n = Some bs) as Hcur.
  { rewrite <- Hst. apply read_range_ext. intros k Hk. rewrite Hb by lia. unfold cut.
    rewrite (proj2 (Z.ltb_lt _ _)) by lia. replace (k / 4096) with x by slia.
    by rewrite Z.ltb_irrefl, andb_false_r. }
  pose proof (read_range_zlen _ _ n _ ltac:(lia) Hr1) as Hlen.
  destruct (ebd_get_mut_spec (eb_data e) (x * 4096) n (λ _, p1) bs) as (d & Hmut & Hwf' & Hd);
    [done|lia|lia|lia|done|done|].
  exists (set_data d e). split.
  - unfold unseal_in_place. rewrite ebd_get_spec by (done || lia). rewrite Hcur.
    cbn [res_bind expect]. rewrite Hseal, Hp1. cbn [res_bind]. rewrite Hmut. done.
  - split; simpl; [done|done|]. intros i Hi. rewrite Hd. unfold overwrite, cut. rewrite Hlen.
    rewrite read_range_Some in Hr1 by lia. destruct Hr1 as [_ Hr1].
    destruct (Z.leb_spec (x * 4096) i), (Z.ltb_spec i (x * 4096 + n)); cbn [andb].
    { rewrite <- Hr1 by lia. replace (x * 4096 + (i - x * 4096)) with i by lia.
      rewrite (proj2 (Z.ltb_lt i t)) by lia. replace (i / 4096) with x by slia.
      by rewrite (proj2 (Z.leb_le _ _)), (proj2 (Z.ltb_lt x (x + 1))) by lia. }
    all: rewrite Hb by done; unfold cut; destruct (Z.ltb_spec i t) as [Hit|]; [|done].
    all: replace (i / 4096 <? x + 1) with (i / 4096 <? x); [done|].
    all: destruct (Z.ltb_spec (i / 4096) x), (Z.ltb_spec (i / 4096) (x + 1)); try done; slia.
Qed.

Lemma truncate_seal_loop e0 plain t first k e acc m :
  eb_models e0 plain → truncating e0 plain (t * 256) first k e → 0 ≤ first ≤ k →
  0 < t < 1024 → k + Z.of_nat m = (t - 1) / 16 + 1 →
  ∃ e' idxs, res_foldl (truncate_seal_step keccak t) (e, acc) (seqZ k (Z.of_nat m)) = Ok (e', idxs) ∧
    truncating e0 plain (t * 256) first ((t - 1) / 16 + 1) e' ∧
    (∀ x, x ∈ idxs ↔ x ∈ acc ∨ k ≤ x ≤ (t - 1) / 16 ∧ is_sealed (eb_seal e0) x = true).
Proof.
  intros Hm. revert k e acc. induction m as [|m IH]; intros k e acc Htr Hf Ht Hk.
  - exists e, acc. replace k with ((t - 1) / 16 + 1) in Htr by lia. split_and!; [done|done|].
    intros x. split; [tauto|]. intros [?|[? _]]; [done|lia].
  - rewrite seqZ_cons by lia. replace (Z.pred (Z.of_nat (S m))) with (Z.of_nat m) by lia.
    cbn [res_foldl]. unfold truncate_seal_step at 1. rewrite (tr_seal _ _ _ _ _ _ Htr). spec_consts.
    destruct (is_sealed (eb_seal e0) k) eqn:Hs; cbn [negb].
    + unfold usub. rewrite (proj2 (Z.leb_le _ _)) by slia. cbn [res_bind].
      destruct (unseal_in_place_run e0 plain (t * 256) first k e) as (e1 & He1 & Htr1);
        [done|done|done|slia|slia|slia|done|].
      rewrite He1. cbn [res_bind].
      destruct (IH (Z.succ k) e1 (acc ++ [k]) Htr1 ltac:(lia) Ht ltac:(lia))
        as (e' & idxs & He' & Htr' & Hidx).
      exists e', idxs. split_and!; [done|done|]. intros x. rewrite Hidx.
      rewrite elem_of_app, list_elem_of_singleton. split.
      * intros [[?| ->]|[? ?]]; [by left|right; split; [lia|done]|right; split; [lia|done]].
      * intros [?|[? ?]]; [by left; left|]. destruct (decide (x = k)) as [->|]; [by left; right|].
        right. split; [lia|done].
    + cbn [res_bind].
      assert (truncating e0 plain (t * 256) first (Z.succ k) e) as Htr1.
      { destruct Htr as [H1 H2 Hb]. split; [done..|]. intros i Hi. rewrite Hb by done. unfold cut.
        destruct (Z.ltb_spec i (t * 256)); [|done].
        destruct (Z.leb_spec first (i / 4096)); [|done].
        destruct (Z.ltb_spec (i / 4096) k), (Z.ltb_spec (i / 4096) (Z.succ k)); try done; [lia|].
        apply (em_plain _ _ Hm); [lia|]. by replace (i / 4096) with k by lia. }
      destruct (IH (Z.succ k) e acc Htr1 ltac:(lia) Ht ltac:(lia)) as (e' & idxs & He' & Htr' & Hidx).
      exists e', idxs. split_and!; [done|done|]. intros x. rewrite Hidx. split.
      * intros [?|[? ?]]; [by left|right; split; [lia|done]].
      * intros [?|[? ?]]; [by left|]. destruct (decide (x = k)) as [->|]; [congruence|].
        right. split; [lia|done].
Qed.

Lemma truncated_models e plain t first s' e2 :
  eb_models e plain → truncating e plain (t * 256) first ((t - 1) / 16 + 1) e2 →
  0 < t < 1024 → 0 ≤ first ≤ t / 16 → contexts_ok s' →
  load_index s' = load_index (eb_seal e) → miner_id s' = miner_id (eb_seal e) →
  (∀ j, 0 ≤ j < 64 → is_sealed s' j = is_sealed (eb_seal e) j && (j <? first)) →
  (∀ j d, 0 ≤ j < first → get_seal_context_digest (eb_seal e) j = Some d →
     get_seal_context_digest s' j = Some d) →
  eb_models (set_seal s' e2) (cut (t * 256) plain).
Proof.
  intros Hm [_ Hwf Hb] Ht Hf Hok Hl Hmi Hs Hd. split; simpl; [done|done|..].
  - intros i Hi. rewrite Hs by slia. intros Hns. rewrite Hb by lia. unfold cut.
    destruct (Z.ltb_spec i (t * 256)); [|done].
    rewrite (proj2 (Z.ltb_lt (i / 4096) ((t - 1) / 16 + 1))), andb_true_r by slia.
    destruct (Z.leb_spec first (i / 4096)); [done|]. apply (em_plain _ _ Hm); [lia|].
    rewrite (proj2 (Z.ltb_lt _ _)), andb_true_r in Hns by lia. done.
  - intros x Hx. rewrite Hs by done. intros [Hse Hlt%Z.ltb_lt]%andb_true_iff.
    destruct (em_sealed _ _ Hm x Hx Hse) as (ctx & bs & cs & Hctx & Hp & Hseal & Hc).
    exists ctx, bs, cs. split_and!.
    + apply Hd; [lia|done].
    + rewrite <- Hp. apply read_range_ext. intros k Hk. unfold cut.
      by rewrite (proj2 (Z.ltb_lt _ _)) by slia.
    + rewrite <- Hseal. unfold global_seal_sector. by rewrite Hmi, Hl.
    + rewrite <- Hc. apply read_range_ext. intros k Hk. rewrite Hb by lia. unfold cut.
      rewrite (proj2 (Z.ltb_lt _ _)) by slia. by rewrite (proj2 (Z.leb_gt _ _)) by slia.
Qed.

Lemma eb_truncate_run e plain t :
  eb_models e plain → 0 < t < 1024 →
  ∃ first e' idxs, truncated_seal_index (eb_seal e) (t / 16) = Ok first ∧
    eb_truncate keccak t e = Ok (e', idxs) ∧ eb_models e' (cut (t * 256) plain) ∧
    (∀ x, x ∈ idxs ↔ first ≤ x ≤ (t - 1) / 16 ∧ is_sealed (eb_seal e) x = true).
Proof.
  intros Hm Ht. unfold eb_truncate, truncate_seal. spec_consts.
  rewrite (proj2 (Z.ltb_lt _ _)), (proj2 (Z.ltb_lt _ _)) by lia. cbn [andb assert res_bind].
  destruct (ebd_truncate_spec (eb_data e) (t * 256)) as (d & -> & Hwf & Hd);
    [apply Hm|slia|lia|]. cbn [res_bind].
  rewrite !as_u16_small by slia.
  destruct (si_truncate_spec (eb_seal e) (t / 16)) as
    (first & s' & Hfirst & Hs' & Hf & Hok & Hl & Hmi & Hsealed & Hdig); [apply Hm|slia|].
  assert (truncating e plain (t * 256) first first (set_data d e)) as Htr.
  { split; simpl; [done|done|]. intros i Hi. rewrite Hd. unfold cut.
    destruct (Z.ltb_spec i (t * 256)); [|done].
    by destruct (Z.leb_spec first (i / 4096)), (Z.ltb_spec (i / 4096) first); try lia. }
  cbn [eb_seal set_data]. rewrite Hfirst. cbn [res_bind].
  replace ((t - 1) / 16 + 1 - first) with (Z.of_nat (Z.to_nat ((t - 1) / 16 + 1 - first))) by slia.
  destruct (truncate_seal_loop e plain t first first (set_data d e) []
    (Z.to_nat ((t - 1) / 16 + 1 - first)) Hm Htr) as (e2 & idxs & He2 & Htr2 & Hidx); [lia|lia|slia|].
  rewrite He2. cbn [res_bind]. rewrite (tr_seal _ _ _ _ _ _ Htr2), Hs'. cbn [res_bind].
  exists first, (set_seal s' e2), idxs. split_and!; [done|done|by eapply truncated_models|].
  intros x. rewrite Hidx. split; [by intros [?%not_elem_of_nil|?]|by right].
Qed.
End Proofs.
