(* ===== verification/StorageTheorems.v ===== *)
(** * Load chunks: main theorems

    The chunk data, the seal codec and the load chunk, each theorem with a
    concrete instance over a small hash function. *)

From S2P Require Import Prelude Bytes IonianSpec SealCodec SealInfo ChunkData ChunkRuns EntryBatch EntryBatchProofs.
#[local] Open Scope Z_scope.

(** ** Samples *)

Definition sample_bytes (n : Z) : list Z := (λ i, i mod 251) <$> seqZ 0 n.

Lemma sample_zlen n : 0 ≤ n → zlen (sample_bytes n) = n.
Proof. intros. unfold sample_bytes, zlen. rewrite length_fmap, length_seqZ. lia. Qed.

(** Two runs, the sectors 2-3 and 8-9. *)
Definition sample_runs : list PartialBatch :=
  [MkPartial 2 (sample_bytes 512); MkPartial 8 (sample_bytes 512)].

Lemma sample_runs_wf : ebd_wf (Incomplete sample_runs).
Proof.
  split.
  - split; [repeat constructor; vm_compute; (done || congruence)|].
    repeat constructor; vm_compute; done.
  - intros (p & [=] & _).
Qed.

(** ** Chunk data *)

(** [insert_data] into a free, aligned, non-empty range inside the load
    chunk succeeds and keeps the invariant; afterwards exactly the old bytes and
    the new ones are stored, and the returned indices are exactly the seal
    chunks the new data meets that are now completely stored. *)
Theorem insert_data_correct l start_byte data :
  ebd_wf (Incomplete l) → 0 ≤ start_byte → start_byte mod 256 = 0 →
  0 < zlen data → zlen data mod 256 = 0 → start_byte + zlen data ≤ 262144 →
  free (content l) start_byte (zlen data) →
  ∃ idxs b, ebd_insert_data start_byte data (Incomplete l) = (Ok idxs, b) ∧ ebd_wf b ∧
    (∀ i, byte_at b i = piece (MkPartial (start_byte / 256) data) i ∪ content l i) ∧
    (∀ x, x ∈ idxs ↔ meets x (start_byte / 256) (zlen data / 256) ∧ intact (byte_at b) x).
Proof. apply insert_data_free. Qed.

Lemma insert_data_correct_witness :
  ∃ idxs b, ebd_insert_data 1024 (sample_bytes 1024) (Incomplete sample_runs) = (Ok idxs, b) ∧
    ebd_wf b ∧
    (∀ i, byte_at b i = piece (MkPartial 4 (sample_bytes 1024)) i ∪ content sample_runs i) ∧
    (∀ x, x ∈ idxs ↔ meets x 4 4 ∧ intact (byte_at b) x).
Proof.
  apply (insert_data_correct sample_runs 1024 (sample_bytes 1024));
    [apply sample_runs_wf|rewrite ?sample_zlen by lia; (lia || reflexivity)..|].
  intros k Hk. rewrite sample_zlen in Hk by lia. apply content_None.
  apply Forall_cons; split; [|apply Forall_singleton];
    cbn [start_sector pb_data]; rewrite sample_zlen by lia; lia.
Defined.

(** Data that overlaps stored bytes, or comes after the load chunk is
    complete, is rejected and nothing changes. *)
Theorem insert_data_overlap_rejected b start_byte data :
  ebd_wf b → start_byte mod 256 = 0 → 0 < zlen data → zlen data mod 256 = 0 →
  (match b with Complete _ => True | Incomplete l => ¬ free (content l) start_byte (zlen data) end) →
  ∃ msg, ebd_insert_data start_byte data b = (Err msg, b).
Proof. apply insert_data_rejected. Qed.

Lemma insert_data_overlap_rejected_witness :
  ∃ msg, ebd_insert_data 0 (sample_bytes 4096) (Incomplete sample_runs) =
    (Err msg, Incomplete sample_runs).
Proof.
  apply (insert_data_overlap_rejected (Incomplete sample_runs) 0 (sample_bytes 4096));
    [apply sample_runs_wf|rewrite ?sample_zlen by lia; (lia || reflexivity)..|].
  intros Hf. rewrite sample_zlen in Hf by lia. specialize (Hf 600 ltac:(lia)).
  vm_compute in Hf. discriminate.
Defined.

(** [get] returns the bytes of a range exactly when all of them are stored. *)
Theorem get_correct b start_byte length_byte :
  ebd_wf b → 0 ≤ start_byte → 0 < length_byte → start_byte + length_byte ≤ 262144 →
  ebd_get b start_byte length_byte = Ok (read_range (byte_at b) start_byte length_byte).
Proof. apply ebd_get_spec. Qed.

Lemma get_correct_witness :
  ebd_get (Incomplete sample_runs) 600 300 =
  Ok (read_range (byte_at (Incomplete sample_runs)) 600 300).
Proof. apply get_correct; [apply sample_runs_wf|lia..]. Defined.

(** [truncate] at a sector boundary keeps exactly the bytes below it. *)
Theorem truncate_correct b t :
  ebd_wf b → t mod 256 = 0 → 0 < t < 262144 →
  ∃ b', ebd_truncate b t = Ok b' ∧ ebd_wf b' ∧
    ∀ i, byte_at b' i = if i <? t then byte_at b i else None.
Proof. apply ebd_truncate_spec. Qed.

Lemma truncate_correct_witness :
  ∃ b', ebd_truncate (Incomplete sample_runs) 768 = Ok b' ∧ ebd_wf b' ∧
    ∀ i, byte_at b' i = if i <? 768 then byte_at (Incomplete sample_runs) i else None.
Proof. apply truncate_correct; [apply sample_runs_wf|done|lia]. Defined.

(** ** The seal codec *)

(** C33: unsealing any word-aligned prefix of sealed data gives the prefix of the
    data, whatever the hash function with 32-byte output. *)
Theorem seal_unseal_roundtrip keccak data miner_id context_digest start_sector sealed n :
  (∀ x, length (keccak x) = 32%nat) → zlen data mod 32 = 0 → n mod 32 = 0 → 0 ≤ n →
  seal keccak data miner_id context_digest start_sector = Ok sealed →
  zlen sealed = zlen data ∧
  unseal keccak (ztake n sealed) miner_id context_digest start_sector = Ok (ztake n data).
Proof.
  intros Hk Hd Hn Hn0 Hs. apply (unseal_prefix keccak Hk); auto using length_seed_mask.
Qed.

Lemma seal_unseal_roundtrip_witness :
  let sealed := match seal toy_keccak (sample_bytes 128) (replicate 32 7) (replicate 32 9) 16 with
                | Ok s => s | _ => [] end in
  zlen sealed = 128 ∧
  unseal toy_keccak (ztake 96 sealed) (replicate 32 7) (replicate 32 9) 16 = Ok (ztake 96 (sample_bytes 128)).
Proof.
  apply (seal_unseal_roundtrip toy_keccak (sample_bytes 128)).
  - apply toy_keccak_len.
  - vm_compute. reflexivity.
  - reflexivity.
  - lia.
  - vm_compute. reflexivity.
Defined.

(** ** Load chunks *)

(** A load chunk with two seal chunks of data, the first one sealed. *)
Definition sample_inserted : EntryBatch Z := (eb_insert_data 0 (sample_bytes 8192) (EntryBatch_new 5)).2.

Definition sample_answer : SealAnswer :=
  MkSealAnswer 320 0
    (match seal toy_keccak (sample_bytes 4096) (replicate 32 7) (replicate 32 9) 5120 with
     | Ok s => s | _ => [] end)
    (replicate 32 7) (replicate 32 9) 400.

Definition sample_sealed : EntryBatch Z :=
  match eb_submit_seal_result sample_answer sample_inserted with Ok e => e | _ => sample_inserted end.

Definition sample_plain (i : Z) : option Z := piece (MkPartial 0 (sample_bytes 8192)) i ∪ None.

Lemma sample_inserted_models : eb_models toy_keccak sample_inserted sample_plain.
Proof.
  destruct (eb_insert_data_run toy_keccak (EntryBatch_new 5) (λ _, None) 0 (sample_bytes 8192))
    as (idxs & e & He & Hm & _); rewrite ?sample_zlen by lia.
  - apply (new_models _ 5).
  - lia.
  - lia.
  - done.
  - lia.
  - done.
  - by exists [].
  - unfold sample_inserted. rewrite He. exact Hm.
Qed.

Lemma sample_plain_piece i n :
  0 ≤ i → 0 ≤ n → i + n ≤ 8192 →
  read_range sample_plain i n = Some (ztake n (zdrop i (sample_bytes 8192))).
Proof.
  intros Hi Hn Hin. rewrite (read_range_ext _ (piece (MkPartial 0 (sample_bytes 8192)))).
  - rewrite read_range_piece; cbn [start_sector pb_data]; rewrite ?sample_zlen; try lia.
    do 3 f_equal. lia.
  - intros k _. unfold sample_plain. by destruct (piece _ k).
Qed.

Lemma sample_prefix n m : 0 ≤ n ≤ m → ztake n (sample_bytes m) = sample_bytes n.
Proof.
  intros Hn. unfold sample_bytes, ztake.
  rewrite firstn_map. f_equal. unfold seqZ. rewrite firstn_map. f_equal. rewrite take_seq. f_equal. lia.
Qed.

Lemma sample_chunk : read_range sample_plain (0 * 4096) 4096 = Some (sample_bytes 4096).
Proof. rewrite sample_plain_piece by lia. change (zdrop (0 * 4096) (sample_bytes 8192)) with (sample_bytes 8192).
  exact (f_equal Some (sample_prefix 4096 8192 ltac:(lia))).
Qed.

Lemma sample_inserted_seal : eb_seal sample_inserted = SealInfo_new 5.
Proof.
  unfold sample_inserted, eb_insert_data, st_zoom.
  by destruct (ebd_insert_data _ _ _) as [[] ?].
Qed.

Lemma sample_answer_seal :
  seal toy_keccak (sample_bytes 4096) (sa_miner_id sample_answer) (seal_context sample_answer) 5120 =
  Ok (sealed_data sample_answer).
Proof.
  unfold sample_answer. cbn [sealed_data sa_miner_id seal_context].
  assert (zlen (sample_bytes 4096) mod 32 = 0) as Hw by by rewrite sample_zlen.
  destruct (seal_with_mask_words toy_keccak toy_keccak_len (sample_bytes 4096)
    (toy_keccak (compute_first_mask_seed (replicate 32 7) (replicate 32 9) 5120)) Hw
    (toy_keccak_len _)) as (ws & _ & _ & _ & Hs).
  unfold seal, seal_with_mask_seed. by rewrite Hs.
Qed.

Lemma sample_sealed_run :
  ∃ e, eb_submit_seal_result sample_answer sample_inserted = Ok e ∧
    eb_models toy_keccak e sample_plain ∧
    (∀ y, 0 ≤ y < 64 → is_sealed (eb_seal e) y = (y =? 0) || is_sealed (eb_seal sample_inserted) y).
Proof.
  pose proof sample_inserted_models as Hm. pose proof sample_chunk as Hc.
  apply (submit_seal_result_run toy_keccak toy_keccak_len sample_inserted sample_plain 0 sample_answer
    (sample_bytes 4096)); [exact Hm|lia|..|exact Hc|].
  all: rewrite sample_inserted_seal; clear Hm Hc;
    cbn [sample_answer context_end_seal sa_seal_index sa_miner_id seal_context load_index miner_id SealInfo_new].
  - reflexivity.
  - lia.
  - lia.
  - reflexivity.
  - right. split; [reflexivity|]. intros y Hy. unfold is_sealed. simpl. by rewrite Z.testbit_0_l.
  - lia.
  - discriminate.
  - discriminate.
  - exact sample_answer_seal.
Qed.

Lemma sample_sealed_first : is_sealed (eb_seal sample_sealed) 0 = true.
Proof.
  destruct sample_sealed_run as (e & He & _ & Hs). unfold sample_sealed. rewrite He.
  by rewrite (Hs 0) by lia.
Qed.

Lemma sample_sealed_models : eb_models toy_keccak sample_sealed sample_plain.
Proof.
  destruct sample_sealed_run as (e & He & Hm & _). unfold sample_sealed. by rewrite He.
Qed.

(** [get_unsealed_data] returns exactly the plain bytes of a range, or
    nothing when some are missing, for every range that does not start at the
    first sector of a sealed seal chunk; sealed chunks inside the range and a
    start in the middle of a sealed chunk included. *)
Theorem get_unsealed_data_correct keccak {B} `{BitmapOps B} `{!BitmapLaws B}
    (e : EntryBatch B) plain start_sector length_sector :
  (∀ x, length (keccak x) = 32%nat) → eb_models keccak e plain →
  0 ≤ start_sector → 0 < length_sector → start_sector + length_sector ≤ 1024 →
  start_sector mod 16 ≠ 0 ∨ is_sealed (eb_seal e) (start_sector / 16) = false →
  get_unsealed_data keccak e start_sector length_sector =
  Ok (read_range plain (start_sector * 256) (length_sector * 256)).
Proof. intros. by apply get_unsealed_data_run. Qed.

Lemma get_unsealed_data_correct_witness :
  get_unsealed_data toy_keccak sample_sealed 5 20 = Ok (read_range sample_plain (5 * 256) (20 * 256)).
Proof.
  apply (get_unsealed_data_correct toy_keccak sample_sealed sample_plain 5 20 toy_keccak_len
    sample_sealed_models); [lia..|]. left. discriminate.
Defined.

(** A range that starts at the first sector of a sealed seal chunk comes back
    still sealed: the first chunk is skipped by the unsealing. *)
Theorem get_unsealed_data_aligned_sealed keccak {B} `{BitmapOps B} `{!BitmapLaws B}
    (e : EntryBatch B) plain x :
  eb_models keccak e plain → 0 ≤ x < 64 → is_sealed (eb_seal e) x = true →
  ∃ ctx bs cs, get_seal_context_digest (eb_seal e) x = Some ctx ∧
    read_range plain (x * 4096) 4096 = Some bs ∧
    seal keccak bs (miner_id (eb_seal e)) ctx (global_seal_sector (eb_seal e) x) = Ok cs ∧
    get_unsealed_data keccak e (x * 16) 16 = Ok (Some cs).
Proof.
  intros Hm Hx Hs. destruct (em_sealed _ _ _ Hm x Hx Hs) as (ctx & bs & cs & Hctx & Hp & Hseal & Hc).
  exists ctx, bs, cs. split_and!; [done..|]. unfold get_unsealed_data, load_with_hint. spec_consts.
  rewrite Z.mod_mul by lia. cbn [Z.eqb].
  rewrite ebd_get_spec by (try apply (em_wf _ _ _ Hm); lia).
  replace (x * 16 * 256) with (x * 4096) by lia. change (16 * 256) with 4096. rewrite Hc. simpl.
  pose proof (read_range_zlen _ _ 4096 _ ltac:(lia) Hc) as Hlen.
  rewrite Z.mod_mul by lia. rewrite Hlen. simpl. rewrite ztake_ge by lia. by rewrite app_nil_r.
Qed.

Lemma get_unsealed_data_aligned_sealed_witness :
  ∃ ctx bs cs, get_seal_context_digest (eb_seal sample_sealed) 0 = Some ctx ∧
    read_range sample_plain (0 * 4096) 4096 = Some bs ∧
    seal toy_keccak bs (miner_id (eb_seal sample_sealed)) ctx
      (global_seal_sector (eb_seal sample_sealed) 0) = Ok cs ∧
    get_unsealed_data toy_keccak sample_sealed (0 * 16) 16 = Ok (Some cs).
Proof.
  apply (get_unsealed_data_aligned_sealed toy_keccak sample_sealed sample_plain 0
    sample_sealed_models); [lia|exact sample_sealed_first].
Defined.

(** Submitting the seal of a stored, not yet sealed chunk succeeds, marks
    exactly this chunk as sealed, and leaves the plain content of the load chunk
    unchanged. *)
Theorem submit_seal_preserves_content keccak {B} `{BitmapOps B} `{!BitmapLaws B}
    (e : EntryBatch B) plain x answer bs :
  (∀ x, length (keccak x) = 32%nat) → eb_models keccak e plain →
  0 ≤ x < 64 → is_sealed (eb_seal e) x = false →
  0 ≤ load_index (eb_seal e) → load_index (eb_seal e) * 64 < 2 ^ 64 →
  sa_seal_index answer = load_index (eb_seal e) * 64 + x →
  (miner_id (eb_seal e) = sa_miner_id answer ∨
   miner_id (eb_seal e) = replicate 32 0 ∧ ∀ y, 0 ≤ y < 64 → is_sealed (eb_seal e) y = false) →
  x < context_end_seal answer - load_index (eb_seal e) * 64 < 65536 →
  (∀ d, get_seal_context_digest (eb_seal e) (local_end (eb_seal e) (context_end_seal answer) - 1) =
     Some d → d = seal_context answer) →
  (∀ d, get_seal_context_digest (eb_seal e) x = Some d → d = seal_context answer) →
  read_range plain (x * 4096) 4096 = Some bs →
  seal keccak bs (sa_miner_id answer) (seal_context answer)
    (global_seal_sector (eb_seal e) x) = Ok (sealed_data answer) →
  ∃ e', eb_submit_seal_result answer e = Ok e' ∧ eb_models keccak e' plain ∧
    (∀ y, 0 ≤ y < 64 → is_sealed (eb_seal e') y = (y =? x) || is_sealed (eb_seal e) y).
Proof. intros. by eapply submit_seal_result_run. Qed.

Lemma submit_seal_preserves_content_witness :
  ∃ e, eb_submit_seal_result sample_answer sample_inserted = Ok e ∧
    eb_models toy_keccak e sample_plain ∧
    (∀ y, 0 ≤ y < 64 → is_sealed (eb_seal e) y = (y =? 0) || is_sealed (eb_seal sample_inserted) y).
Proof.
  pose proof sample_inserted_models as Hm. pose proof sample_chunk as Hc.
  apply (submit_seal_preserves_content toy_keccak sample_inserted sample_plain 0 sample_answer
    (sample_bytes 4096) toy_keccak_len Hm); [lia|..|exact Hc|].
  all: rewrite sample_inserted_seal; clear Hm Hc;
    cbn [sample_answer context_end_seal sa_seal_index sa_miner_id seal_context load_index miner_id SealInfo_new].
  - reflexivity.
  - lia.
  - lia.
  - reflexivity.
  - right. split; [reflexivity|]. intros y Hy. unfold is_sealed. simpl. by rewrite Z.testbit_0_l.
  - lia.
  - discriminate.
  - discriminate.
  - exact sample_answer_seal.
Defined.

(** Truncating a load chunk keeps exactly the plain bytes below the cut; the
    sealed chunks that lose their context are unsealed in place, and exactly
    those that still hold data are returned for sealing again. *)
Theorem truncate_load_chunk_correct keccak {B} `{BitmapOps B} `{!BitmapLaws B}
    (e : EntryBatch B) plain truncated_sector :
  (∀ x, length (keccak x) = 32%nat) → eb_models keccak e plain → 0 < truncated_sector < 1024 →
  ∃ first e' to_reseal, truncated_seal_index (eb_seal e) (truncated_sector / 16) = Ok first ∧
    eb_truncate keccak truncated_sector e = Ok (e', to_reseal) ∧
    eb_models keccak e' (cut (truncated_sector * 256) plain) ∧
    (∀ x, x ∈ to_reseal ↔
       first ≤ x ≤ (truncated_sector - 1) / 16 ∧ is_sealed (eb_seal e) x = true).
Proof. intros. by apply eb_truncate_run. Qed.

Lemma truncate_load_chunk_correct_witness :
  ∃ first e' to_reseal, truncated_seal_index (eb_seal sample_sealed) (5 / 16) = Ok first ∧
    eb_truncate toy_keccak 5 sample_sealed = Ok (e', to_reseal) ∧
    eb_models toy_keccak e' (cut (5 * 256) sample_plain) ∧
    (∀ x, x ∈ to_reseal ↔ first ≤ x ≤ (5 - 1) / 16 ∧ is_sealed (eb_seal sample_sealed) x = true).
Proof.
  apply (truncate_load_chunk_correct toy_keccak sample_sealed sample_plain 5 toy_keccak_len
    sample_sealed_models). lia.
Defined.

(** The end of a seal context is truncated to 16 bits before it is clamped to
    the load chunk: a context that ends 65536 seal chunks after the start of the
    load chunk makes [set_seal_context] panic. *)
Theorem set_seal_context_wraps {B} `{BitmapOps B} (s : SealInfo B) digest miner :
  miner_id s = replicate 32 0 → 0 ≤ load_index s → load_index s * 64 + 65536 < 2 ^ 64 →
  set_seal_context s digest (load_index s * 64 + 65536) miner =
  Panic "attempt to subtract with overflow".
Proof.
  intros Hm Hl Hb. unfold set_seal_context, umul, usub, as_u16. rewrite Hm, bool_decide_true by done.
  spec_consts. cbn [res_bind]. rewrite (proj2 (Z.ltb_lt _ _)) by lia. cbn [res_bind].
  rewrite (proj2 (Z.leb_le _ _)) by lia. cbn [res_bind].
  replace (load_index s * 64 + 65536 - load_index s * 64) with 65536 by lia. done.
Qed.

Lemma set_seal_context_wraps_witness :
  set_seal_context (SealInfo_new 5) (replicate 32 9) (5 * 64 + 65536) (replicate 32 7) =
  Panic "attempt to subtract with overflow".
Proof. apply (set_seal_context_wraps (SealInfo_new (B := Z) 5)); [reflexivity|simpl; lia..]. Defined.
