(* ===== verification/MerkleLight.v ===== *)
(** * File Merkle trees: [common/merkle_light/src/merkle.rs] and [proof.rs],
    [FileProof] of [node/shared_types/src/lib.rs]

    The tree over the chunks of a file, stored in one vector, layer after layer.
    An odd last node is not paired: its place in the layer above is a [null]
    node, and [link_map] records which node it stands for.  The node hash is
    [parent]; [zero] is [T::default()], the null node. *)

From S2P Require Import Prelude Hashing SharedTypes.

Section Light.
Context {E : Type} `{HashElement E} `{!Algorithm E} (zero : E).

(** ** The tree *)

Record LightTree : Type := MkLightTree {
  lt_data : list E;
  lt_leafs : nat;
  link_map : gmap nat nat;
}.

Definition is_zero (x : E) : bool := bool_decide (x = zero).

(** The closure mapped over [(layer_start..layer_end).step_by(2)]: the parent
    hash and the [link_map_update]. *)
Definition build_node (t : LightTree) (layer_start layer_end i : nat)
    : res (E * option (nat * nat * option nat)) :=
  let? r := index (lt_data t) (i + 1) in
  if negb (is_zero r) then
    let? l := index (lt_data t) i in
    Ok (parent l r, None)
  else
    let parent_index := (i - layer_start) / 2 + layer_end in
    let? l := index (lt_data t) i in
    if is_zero l then
      let? linked_to := expect (link_map t !! i) "unwrap on None" in
      Ok (zero, Some (parent_index, linked_to, Some i))
    else
      match link_map t !! (i + 1) with
      | Some idx =>
          let? x := index (lt_data t) idx in
          let? _ := assert (negb (is_zero x)) "assertion failed: data[*index] != null" in
          Ok (parent l x, None)
      | None => Ok (zero, Some (parent_index, i, None))
      end.

Fixpoint build_nodes (t : LightTree) (layer_start layer_end i count : nat)
    : res (list (E * option (nat * nat * option nat))) :=
  match count with
  | O => Ok []
  | S count =>
      let? x := build_node t layer_start layer_end i in
      let? xs := build_nodes t layer_start layer_end (i + 2) count in
      Ok (x :: xs)
  end.

(** The loop that stores a computed layer. *)
Definition store_node (t : LightTree) (x : E * option (nat * nat * option nat)) : LightTree :=
  let '(h, update) := x in
  let links :=
    match update with
    | None => link_map t
    | Some (from, to, remove) =>
        let links := <[from := to]> (link_map t) in
        match remove with Some k => delete k links | None => links end
    end in
  MkLightTree (lt_data t ++ [h]) (lt_leafs t) links.

(** The [while width > 1] loop of [build].  The width is at most halved up, so
    the number of leaves bounds the iterations. *)
Fixpoint build_loop (fuel : nat) (t : LightTree) (layer_start layer_end width : nat)
    : res LightTree :=
  if width <=? 1 then Ok t else
  match fuel with
  | O => Panic "build: out of fuel"
  | S fuel =>
      let '(t, width, layer_end) :=
        (if width mod 2 =? 1
         then (MkLightTree (lt_data t ++ [zero]) (lt_leafs t) (link_map t), width + 1, layer_end + 1)
         else (t, width, layer_end)) in
      let? layer := build_nodes t layer_start layer_end layer_start ((layer_end - layer_start) / 2) in
      let t := foldl store_node t layer in
      build_loop fuel t layer_end (layer_end + width / 2) (width / 2)
  end.

(** [MerkleTree::new]: [next_pow2(0)] underflows.  [RawLeafSha3Algorithm::leaf]
    keeps the leaf. *)
Definition light_new (leaves : list E) : res LightTree :=
  let? _ := checked_sub (length leaves) 1 in
  build_loop (length leaves) (MkLightTree leaves (length leaves) ∅) 0 (length leaves) (length leaves).

Definition light_root (t : LightTree) : res E :=
  let? n := checked_sub (length (lt_data t)) 1 in
  index (lt_data t) n.

(** ** [struct Proof] *)

Record LightProof : Type := MkLightProof {
  lp_lemma : list E;
  lp_path : list bool;
}.

Definition LightProof_new (hash : list E) (path : list bool) : res LightProof :=
  if 2 <? length hash then
    let? _ := assert (length hash - 2 =? length path) "assertion failed: hash.len() - 2 == path.len()" in
    Ok (MkLightProof hash path)
  else
    let? _ := assert (length hash =? 1) "assertion failed: hash.len() == 1" in
    let? _ := assert (length path =? 0) "assertion failed: path == vec![]" in
    Ok (MkLightProof hash path).

Definition light_item (p : LightProof) : res E := expect (head (lp_lemma p)) "unwrap on None".
Definition light_proof_root (p : LightProof) : res E :=
  expect (last (lp_lemma p)) "unwrap on None".

Definition light_step (p : LightProof) (h : E) (i : nat) : res E :=
  let? is_left := index (lp_path p) (i - 1) in
  let? sibling := index (lp_lemma p) i in
  Ok (if is_left then parent h sibling else parent sibling h).

Definition light_validate (p : LightProof) : res bool :=
  let size := length (lp_lemma p) in
  if (size =? 1) && (length (lp_path p) =? 0) then Ok true
  else if size <? 2 then Ok false
  else
    let? h := light_item p in
    let? h := res_foldl (light_step p) h (seq 1 (size - 2)) in
    let? r := light_proof_root p in
    Ok (bool_decide (h = r)).

(** ** [gen_proof] *)

(** [if width & 1 == 1 { width += 1 }] *)
Definition round_even (width : nat) : nat := if width mod 2 =? 1 then width + 1 else width.

Definition proof_hash_index (t : LightTree) (base j : nat) : res (option nat) :=
  if j mod 2 =? 0 then
    let right_index := base + j + 1 in
    let? x := index (lt_data t) right_index in
    if is_zero x then
      match link_map t !! right_index with
      | Some idx =>
          let? y := index (lt_data t) idx in
          let? _ := assert (negb (is_zero y)) "assertion failed: data[*index] != null" in
          Ok (Some idx)
      | None => Ok None
      end
    else Ok (Some right_index)
  else Ok (Some (base + j - 1)).

(** The [while base + 1 < self.len()] loop; [base] grows in every iteration. *)
Fixpoint light_gen_loop (fuel : nat) (t : LightTree) (base j width : nat)
    (lemma : list E) (path : list bool) : res (list E * list bool) :=
  if length (lt_data t) <=? base + 1 then Ok (lemma, path) else
  match fuel with
  | O => Panic "gen_proof: out of fuel"
  | S fuel =>
      let? idx := proof_hash_index t base j in
      let? '(lemma, path) :=
        (match idx with
         | Some idx =>
             let? x := index (lt_data t) idx in
             Ok (lemma ++ [x], path ++ [j mod 2 =? 0])
         | None => Ok (lemma, path)
         end) in
      light_gen_loop fuel t (base + width) (j / 2) (round_even (width / 2)) lemma path
  end.

Definition light_gen_proof (t : LightTree) (i : nat) : res LightProof :=
  if lt_leafs t =? 1 then
    let? _ := assert (i =? 0) "assertion failed: i == 0" in
    let? r := light_root t in
    LightProof_new [r] []
  else
    let? _ := assert (i <? lt_leafs t) "assertion failed: i < self.leafs" in
    let? leaf := index (lt_data t) i in
    let? '(lemma, path) :=
      light_gen_loop (length (lt_data t)) t 0 i (round_even (lt_leafs t)) [leaf] [] in
    let? r := light_root t in
    LightProof_new (lemma ++ [r]) path.

(** ** [struct FileProof] *)

Record FileProof : Type := MkFileProof {
  fp_lemma : list E;
  fp_path : list bool;
}.

Definition FileProof_new (lemma : list E) (path : list bool) : FileProof :=
  MkFileProof (match path with [] => take 1 lemma | _ => lemma end) path.

(** The loop of [position] over the reversed path: [(left_chunk_count,
    proof_position)]. *)
Fixpoint fp_position_loop (rpath : list bool) (left_chunk_count proof_position : Z)
    : res (Z * Z) :=
  match rpath with
  | [] => Ok (left_chunk_count, proof_position)
  | is_left :: rpath =>
      if (left_chunk_count <=? 1)%Z then Err "Proof path too long for a tree size"
      else
        let? pow := next_pow2 left_chunk_count in
        let subtree_size := Z.shiftr pow 1 in
        if negb is_left
        then fp_position_loop rpath (left_chunk_count - subtree_size) (proof_position + subtree_size)
        else fp_position_loop rpath subtree_size proof_position
  end.

Definition fp_position (p : FileProof) (total_chunk_count : Z) : res Z :=
  let? '(left_chunk_count, proof_position) :=
    fp_position_loop (reverse (fp_path p)) total_chunk_count 0 in
  if negb (left_chunk_count =? 1)%Z then Err "Proof path too short for a tree size"
  else Ok proof_position.

(** [TryFrom<&FileProof> for RawFileProof]. *)
Definition fp_try_into (p : FileProof) : res LightProof :=
  if ((length (fp_lemma p) =? 1) && (length (fp_path p) =? 0))
     || ((2 <? length (fp_lemma p)) && (length (fp_lemma p) =? length (fp_path p) + 2))
  then LightProof_new (fp_lemma p) (fp_path p)
  else Err "Invalid proof".

Definition fp_validate (p : FileProof) (leaf_hash root : E) (position leaf_count : Z) : res bool :=
  let? proof_position := fp_position p leaf_count in
  if negb (proof_position =? position)%Z then Err "wrong position" else
  let? proof := fp_try_into p in
  let? valid := light_validate proof in
  if negb valid then Ok false else
  let? r := light_proof_root proof in
  if negb (bool_decide (r = root)) then Err "root mismatch" else
  let? x := light_item proof in
  if negb (bool_decide (x = leaf_hash)) then Err "data hash mismatch"
  else Ok true.

End Light.
Arguments LightTree : clear implicits.
Arguments LightProof : clear implicits.
Arguments FileProof : clear implicits.
