(* ===== verification/LightSpec.v ===== *)
(** * Correctness of file Merkle trees

    The reference tree pairs the nodes of a layer and carries an odd last node
    up unchanged.  [light_new] computes it in its linear array, [gen_proof]
    gives the siblings along it, and [FileProof::validate] accepts exactly the
    proofs of it. *)

From S2P Require Import Prelude Bytes Hashing SharedTypes MerkleLight MerkleSpec MerkleInclusion.

Section Light.
Context {E : Type} `{HashElement E} `{!Algorithm E} (zero : E).
Hypothesis zero_not_hash : ∀ l r : E, parent l r ≠ zero.
Implicit Types (V F D : list E) (t : LightTree E).

(** ** The reference *)

(** The layer above [V]. *)
Fixpoint carry (V : list E) : list E :=
  match V with
  | l :: r :: V => parent l r :: carry V
  | _ => V
  end.

(** The layer [d] above [V]. *)
Fixpoint carry_at (d : nat) (V : list E) : list E :=
  match d with
  | O => V
  | S d => carry_at d (carry V)
  end.

(** The sides of the path from node [i] of a layer of [n] nodes, [d] layers up;
    a carried node adds nothing. *)
Definition side (n i : nat) : list bool :=
  if i mod 2 =? 0 then (if i + 1 <? n then [true] else []) else [false].
Fixpoint light_sides (d n i : nat) : list bool :=
  match d with
  | O => []
  | S d => side n i ++ light_sides d ((n + 1) / 2) (i / 2)
  end.

Definition light_sib (V : list E) (i : nat) : list E :=
  if i mod 2 =? 0 then option_list (V !! (i + 1)) else option_list (V !! (i - 1)).
Fixpoint light_sibs (d : nat) (V : list E) (i : nat) : list E :=
  match d with
  | O => []
  | S d => light_sib V i ++ light_sibs d (carry V) (i / 2)
  end.

Lemma length_carry V : length (carry V) = (length V + 1) / 2.
Proof.
  induction V as [| |x y V IH] using list_pair_ind; [done..|]. simpl. rewrite IH. dlia.
Qed.

Lemma carry_known V : Forall (λ x, x ≠ zero) V → Forall (λ x, x ≠ zero) (carry V).
Proof.
  induction V as [| |x y V IH] using list_pair_ind; simpl; auto.
  rewrite !Forall_cons. intros (_ & _ & HV). auto.
Qed.

Lemma carry_lookup V i x :
  V !! i = Some x →
  carry V !! (i / 2) = Some (climb x (side (length V) i) (light_sib V i)).
Proof.
  revert i. induction V as [|y|y z V IH] using list_pair_ind; intros i Hi; [done|..].
  - destruct i; [|done]. simpl in Hi. by injection Hi as ->.
  - destruct i as [|[|i]]; [by injection Hi as -> ..|]. simpl in Hi.
    replace (S (S i) / 2) with (S (i / 2)) by dlia. simpl. rewrite (IH _ Hi).
    unfold side, light_sib. replace (S (S i) mod 2) with (i mod 2) by dlia. simpl.
    destruct (i mod 2 =? 0) eqn:Hp; [by replace (i + 1 <? length V) with (S (S (i + 1)) <? S (S (length V))) by done|].
    destruct i as [|i]; [done|]. simpl. by rewrite Nat.sub_0_r.
Qed.

Lemma length_light_sib V i :
  i < length V → length (light_sib V i) = length (side (length V) i).
Proof.
  intros Hi. unfold light_sib, side. destruct (Nat.eqb_spec (i mod 2) 0).
  - destruct (Nat.ltb_spec (i + 1) (length V)) as [Hlt|Hge].
    + destruct (lookup_lt_is_Some_2 V (i + 1) Hlt) as [x ->]. done.
    + by rewrite lookup_ge_None_2 by lia.
  - destruct (lookup_lt_is_Some_2 V (i - 1) ltac:(lia)) as [x ->]. done.
Qed.

Lemma length_light_sibs d V i :
  i < length V → length (light_sibs d V i) = length (light_sides d (length V) i).
Proof.
  revert V i. induction d as [|d IH]; intros V i Hi; simpl; [done|].
  rewrite !length_app, length_light_sib, IH, length_carry by (rewrite ?length_carry; dlia). done.
Qed.

Lemma climb_app x (p1 p2 : list bool) (s1 s2 : list E) :
  length p1 = length s1 → climb x (p1 ++ p2) (s1 ++ s2) = climb (climb x p1 s1) p2 s2.
Proof. intros Hl. unfold climb. by rewrite zip_with_app, foldl_app. Qed.

Lemma carry_at_lookup d V i x :
  V !! i = Some x →
  carry_at d V !! (i / 2 ^ d) = Some (climb x (light_sides d (length V) i) (light_sibs d V i)).
Proof.
  revert V i x. induction d as [|d IH]; intros V i x Hi; simpl.
  - change (2 ^ 0) with 1. by rewrite Nat.div_1_r.
  - pose proof (lookup_lt_Some _ _ _ Hi).
    rewrite Nat.pow_succ_r', <- Nat.Div0.div_div, (IH _ _ _ (carry_lookup _ _ _ Hi)).
    by rewrite length_carry, climb_app by by rewrite length_light_sib.
Qed.

(** The layer above, by index. *)
Lemma carry_pair V a l r :
  V !! (2 * a) = Some l → V !! (2 * a + 1) = Some r → carry V !! a = Some (parent l r).
Proof.
  intros Hl Hr. pose proof (lookup_lt_Some _ _ _ Hr).
  pose proof (carry_lookup V (2 * a) l Hl) as Hc. replace (2 * a / 2) with a in Hc by dlia.
  rewrite Hc. unfold side, light_sib. replace (2 * a mod 2) with 0 by dlia. simpl.
  by rewrite (proj2 (Nat.ltb_lt _ _)), Hr by lia.
Qed.

Lemma carry_single V a x :
  V !! (2 * a) = Some x → length V = 2 * a + 1 → carry V !! a = Some x.
Proof.
  intros Hx Hl. pose proof (carry_lookup V (2 * a) x Hx) as Hc.
  replace (2 * a / 2) with a in Hc by dlia. rewrite Hc. unfold side, light_sib.
  replace (2 * a mod 2) with 0 by dlia. simpl.
  by rewrite (proj2 (Nat.ltb_ge _ _)), lookup_ge_None_2 by lia.
Qed.

(** The root: the first node of a layer high enough. *)
Definition light_root_of (V : list E) : option E := head (carry_at (Nat.log2_up (length V)) V).

(** ** The construction *)

(** Position [e] of [t] holds [v], directly or through a link. *)
Definition linked t (e : nat) (v : E) : Prop :=
  lt_data t !! e = Some zero ∧ ∃ k, link_map t !! e = Some k ∧ lt_data t !! k = Some v.

(** The last layer of [t], starting at [s], has the values [V]; only its last
    node may be a link. *)
Record lays (t : LightTree E) (s : nat) (V : list E) : Prop := {
  lays_length : length (lt_data t) = s + length V;
  lays_known : Forall (λ x, x ≠ zero) V;
  lays_node : ∀ i v, V !! i = Some v → i + 1 < length V → lt_data t !! (s + i) = Some v;
  lays_last : ∀ v, last V = Some v →
    lt_data t !! (s + length V - 1) = Some v ∨ 2 ≤ length V ∧ linked t (s + length V - 1) v;
  lays_links : ∀ k, s + length V ≤ k → link_map t !! k = None;
}.

(** [build] rounds the width up with a null node. *)
Definition padded t (w : nat) : LightTree E :=
  if w mod 2 =? 1 then MkLightTree (lt_data t ++ [zero]) (lt_leafs t) (link_map t) else t.

Lemma padded_lookup t w k :
  k < length (lt_data t) → lt_data (padded t w) !! k = lt_data t !! k.
Proof. intros. unfold padded. case_match; [|done]. simpl. by rewrite lookup_app_l. Qed.

Lemma padded_links t w : link_map (padded t w) = link_map t.
Proof. unfold padded. by case_match. Qed.

Lemma is_zero_false (x : E) : x ≠ zero → is_zero zero x = false.
Proof. intros. by apply bool_decide_eq_false. Qed.
Lemma is_zero_true : is_zero zero zero = true.
Proof. by apply bool_decide_eq_true. Qed.

(** The update for an odd last node, with the index it links to. *)
Definition odd_update t (s w : nat) : option (nat * nat * option nat) :=
  let e := s + w - 1 in
  Some (w / 2 + (s + w + 1),
        match lt_data t !! e with
        | Some x => if is_zero zero x then default 0 (link_map t !! e) else e
        | None => e
        end,
        match lt_data t !! e with
        | Some x => if is_zero zero x then Some e else None
        | None => None
        end).

Lemma build_node_pair t s V a l r :
  lays t s V → V !! (2 * a) = Some l → V !! (2 * a + 1) = Some r →
  build_node zero (padded t (length V)) s (s + round_even (length V)) (s + 2 * a) =
  Ok (parent l r, None).
Proof.
  intros HV Hl Hr. pose proof (lookup_lt_Some _ _ _ Hr) as Hlt.
  pose proof (lays_known _ _ _ HV) as Hk. rewrite Forall_lookup in Hk.
  pose proof (lays_length _ _ _ HV) as Hlen.
  unfold build_node, index. rewrite !padded_lookup, padded_links by lia.
  rewrite (lays_node _ _ _ HV _ _ Hl) by lia. cbn [expect res_bind].
  destruct (decide (2 * a + 2 < length V)) as [Hin|Hend].
  - rewrite <- Nat.add_assoc, (lays_node _ _ _ HV _ _ Hr) by lia. cbn [expect res_bind].
    by rewrite (is_zero_false r) by by eapply Hk.
  - assert (last V = Some r) as Hlast.
    { rewrite last_lookup. by replace (pred (length V)) with (2 * a + 1) by lia. }
    replace (s + 2 * a + 1) with (s + length V - 1) by lia.
    destruct (lays_last _ _ _ HV _ Hlast) as [Hd|(_ & Hd & k & Hk' & Hdk)]; rewrite Hd; cbn [expect res_bind].
    + by rewrite (is_zero_false r) by by eapply Hk.
    + rewrite is_zero_true, (is_zero_false l) by by eapply Hk. cbn [negb]. rewrite Hk'.
      rewrite padded_lookup by by eapply lookup_lt_Some. rewrite Hdk. cbn [expect res_bind].
      by rewrite (is_zero_false r) by by eapply Hk.
Qed.

Lemma build_node_odd t s V a x :
  lays t s V → V !! (2 * a) = Some x → length V = 2 * a + 1 →
  build_node zero (padded t (length V)) s (s + round_even (length V)) (s + 2 * a) =
  Ok (zero, odd_update t s (length V)).
Proof.
  intros HV Hx Hl. pose proof (lays_length _ _ _ HV) as Hlen.
  pose proof (lays_known _ _ _ HV) as Hk. rewrite Forall_lookup in Hk.
  unfold build_node, index, odd_update, round_even.
  assert (length V mod 2 = 1) as Hodd by dlia. rewrite Hodd. cbn [Nat.eqb].
  assert (lt_data (padded t (length V)) !! (s + 2 * a + 1) = Some zero) as ->.
  { unfold padded. rewrite Hodd. simpl. rewrite lookup_app_r by lia.
    by replace (s + 2 * a + 1 - length (lt_data t)) with 0 by lia. }
  cbn [expect res_bind]. rewrite is_zero_true. cbn [negb].
  rewrite padded_lookup, padded_links by lia.
  replace (s + 2 * a) with (s + length V - 1) by lia.
  replace ((s + length V - 1 - s) / 2 + (s + (length V + 1)))
    with (length V / 2 + (s + length V + 1)) by dlia.
  assert (last V = Some x) as Hlast.
  { rewrite last_lookup. by replace (pred (length V)) with (2 * a) by lia. }
  destruct (lays_last _ _ _ HV _ Hlast) as [Hd|(_ & Hd & k & Hk' & Hdk)]; rewrite Hd; cbn [expect res_bind].
  - rewrite (is_zero_false x) by by eapply Hk.
    by rewrite (lays_links _ _ _ HV) by lia.
  - by rewrite is_zero_true, Hk'.
Qed.

(** What one iteration computes for the layer above [V]. *)
Definition layer_result t (s : nat) (V : list E) : list (E * option (nat * nat * option nat)) :=
  ((λ x, (x, None)) <$> take (length V / 2) (carry V)) ++
  (if length V mod 2 =? 1 then [(zero, odd_update t s (length V))] else []).

Lemma length_layer_result t s V : length (layer_result t s V) = (length V + 1) / 2.
Proof.
  unfold layer_result. rewrite length_app, length_fmap, length_take, length_carry.
  destruct (Nat.eqb_spec (length V mod 2) 1); simpl; dlia.
Qed.

Lemma layer_result_lookup t s V a :
  lays t s V → a < (length V + 1) / 2 →
  ∃ x, layer_result t s V !! a = Some x ∧
    build_node zero (padded t (length V)) s (s + round_even (length V)) (s + 2 * a) = Ok x.
Proof.
  intros HV Ha. destruct (lookup_lt_is_Some_2 V (2 * a) ltac:(dlia)) as [l Hl].
  unfold layer_result.
  destruct (decide (2 * a + 1 < length V)) as [Hin|Hend].
  - destruct (lookup_lt_is_Some_2 V (2 * a + 1) Hin) as [r Hr].
    exists (parent l r, None). split; [|by apply (build_node_pair t s V a)].
    rewrite lookup_app_l by (rewrite length_fmap, length_take, length_carry; dlia).
    by rewrite list_lookup_fmap, lookup_take_lt, (carry_pair _ _ _ _ Hl Hr) by dlia.
  - exists (zero, odd_update t s (length V)). split; [|apply (build_node_odd t s V a l); auto; lia].
    rewrite lookup_app_r by (rewrite length_fmap, length_take, length_carry; dlia).
    rewrite length_fmap, length_take, length_carry.
    replace (length V mod 2) with 1 by dlia. by replace (a - _) with 0 by dlia.
Qed.

Lemma build_nodes_run t s V a c :
  lays t s V → a + c = (length V + 1) / 2 →
  build_nodes zero (padded t (length V)) s (s + round_even (length V)) (s + 2 * a) c =
  Ok (drop a (layer_result t s V)).
Proof.
  intros HV. revert a. induction c as [|c IH]; intros a Hc; simpl.
  - rewrite drop_ge; [done|]. rewrite length_layer_result. lia.
  - destruct (layer_result_lookup t s V a HV) as (x & Hx & ->); [lia|]. cbn [res_bind].
    replace (s + 2 * a + 2) with (s + 2 * S a) by lia. rewrite IH by lia.
    cbn [res_bind]. by rewrite (drop_S _ _ _ Hx).
Qed.

Lemma store_hashes t (P : list E) :
  foldl store_node t ((λ x, (x, None)) <$> P) =
  MkLightTree (lt_data t ++ P) (lt_leafs t) (link_map t).
Proof.
  revert t. induction P as [|p P IH]; intros t; simpl.
  - destruct t. by rewrite app_nil_r.
  - rewrite IH. simpl. by rewrite <- app_assoc.
Qed.

(** The tree after one iteration. *)
Definition next_tree t (s : nat) (V : list E) : LightTree E :=
  foldl store_node (padded t (length V)) (layer_result t s V).

Lemma next_tree_even t s V :
  length V mod 2 = 0 →
  next_tree t s V = MkLightTree (lt_data t ++ carry V) (lt_leafs t) (link_map t).
Proof.
  intros He. unfold next_tree, layer_result, padded. rewrite He. cbn [Nat.eqb].
  rewrite app_nil_r, store_hashes, firstn_all2; [done|]. rewrite length_carry. dlia.
Qed.

Lemma next_tree_odd t s V :
  length V mod 2 = 1 → next_tree t s V =
  MkLightTree (lt_data t ++ [zero] ++ take (length V / 2) (carry V) ++ [zero]) (lt_leafs t)
    (link_map (store_node t (zero, odd_update t s (length V)))).
Proof.
  intros Ho. unfold next_tree, layer_result, padded. rewrite Ho. cbn [Nat.eqb].
  rewrite foldl_app, store_hashes. simpl. by rewrite <- !app_assoc.
Qed.

Lemma next_tree_extends t s V k :
  k < length (lt_data t) → lt_data (next_tree t s V) !! k = lt_data t !! k.
Proof.
  intros Hk. destruct (Nat.eq_dec (length V mod 2) 0).
  - rewrite next_tree_even by done. simpl. by rewrite lookup_app_l.
  - rewrite next_tree_odd by dlia. simpl. by rewrite lookup_app_l.
Qed.

(** Links are only removed from the even last position of a layer. *)
Lemma next_tree_links t s V k :
  k < s + length V → k ≠ s + length V - 1 ∨ length V mod 2 = 0 →
  link_map (next_tree t s V) !! k = link_map t !! k.
Proof.
  intros Hk Hc. destruct (Nat.eq_dec (length V mod 2) 0).
  - by rewrite next_tree_even.
  - rewrite next_tree_odd by dlia. cbn [link_map]. unfold odd_update. simpl.
    destruct (lt_data t !! _) as [x|]; [destruct (is_zero zero x)|];
      rewrite ?lookup_delete_ne by dlia; by rewrite lookup_insert_ne by dlia.
Qed.

(** The index that an odd last node links to holds its value. *)
Lemma odd_update_spec t s V v :
  lays t s V → last V = Some v →
  ∃ k rm, odd_update t s (length V) = Some (length V / 2 + (s + length V + 1), k, rm) ∧
    lt_data t !! k = Some v ∧ (rm = None ∨ rm = Some (s + length V - 1)).
Proof.
  intros HV Hv. unfold odd_update. pose proof (lays_known _ _ _ HV) as Hk.
  rewrite Forall_lookup in Hk.
  destruct (lays_last _ _ _ HV _ Hv) as [Hd|(_ & Hd & k & Hlk & Hdk)]; rewrite Hd.
  - rewrite is_zero_false by (rewrite last_lookup in Hv; by eapply Hk). eauto 6.
  - rewrite is_zero_true, Hlk. eauto 6.
Qed.

Lemma carry_odd V v :
  length V mod 2 = 1 → last V = Some v → carry V = take (length V / 2) (carry V) ++ [v].
Proof.
  intros Ho Hv. rewrite <- (take_drop (length V / 2) (carry V)) at 1. f_equal.
  rewrite last_lookup in Hv. rewrite (drop_S _ v).
  - rewrite drop_ge; [done|]. rewrite length_carry. dlia.
  - apply carry_single; [|dlia]. rewrite <- Hv. f_equal. dlia.
Qed.

Lemma next_tree_lays_odd t s V :
  lays t s V → 2 ≤ length V → length V mod 2 = 1 →
  lays (next_tree t s V) (s + (length V + 1)) (carry V).
Proof.
  intros HV Hw Ho. pose proof (lays_length _ _ _ HV) as Hlen.
  destruct (last V) as [v|] eqn:Hv; [|apply last_None in Hv; by subst].
  destruct (odd_update_spec t s V v HV Hv) as (k & rm & Hup & Hk & Hrm).
  rewrite next_tree_odd, Hup by done. set (P := take (length V / 2) (carry V)).
  assert (length P = length V / 2) as HP by (subst P; rewrite length_take, length_carry; dlia).
  pose proof (carry_odd V v Ho Hv) as Hc. fold P in Hc.
  assert (length (carry V) = length V / 2 + 1) as Hlc by (rewrite length_carry; dlia).
  pose proof (lookup_lt_Some _ _ _ Hk) as Hkl.
  split; simpl.
  - rewrite !length_app, Hlc. simpl. rewrite length_app, HP. simpl. lia.
  - apply carry_known, (lays_known _ _ _ HV).
  - intros i x Hx Hi. rewrite lookup_app_r by lia.
    replace (s + (length V + 1) + i - length (lt_data t)) with (S i) by lia. simpl.
    rewrite Hc in Hx. rewrite lookup_app_l in Hx by lia. by rewrite lookup_app_l by lia.
  - intros x Hx. rewrite Hc, last_snoc in Hx. injection Hx as <-. right. rewrite Hlc.
    replace (s + (length V + 1) + (length V / 2 + 1) - 1)
      with (length V / 2 + (s + length V + 1)) by lia.
    split; [dlia|]. split; simpl.
    + rewrite lookup_app_r by lia.
      replace (length V / 2 + (s + length V + 1) - length (lt_data t)) with (S (length P)) by lia.
      simpl. by rewrite lookup_app_r, Nat.sub_diag by lia.
    + exists k. split; [|by rewrite lookup_app_l].
      destruct rm as [e|]; [|by rewrite lookup_insert_eq].
      destruct Hrm as [|[= ->]]; [done|].
      rewrite lookup_delete_ne by lia. by rewrite lookup_insert_eq.
  - intros j Hj. rewrite Hlc in Hj.
    assert (<[length V / 2 + (s + length V + 1) := k]> (link_map t) !! j = None) as Hj'.
    { rewrite lookup_insert_ne by lia. apply (lays_links _ _ _ HV). lia. }
    destruct rm; [|done]. apply lookup_delete_None. by right.
Qed.

Lemma next_tree_lays t s V :
  lays t s V → 2 ≤ length V →
  lays (next_tree t s V) (s + round_even (length V)) (carry V).
Proof.
  intros HV Hw. pose proof (lays_length _ _ _ HV) as Hlen.
  pose proof (lays_known _ _ _ HV) as Hk. pose proof (lays_links _ _ _ HV) as Hlinks.
  unfold round_even. destruct (Nat.eqb_spec (length V mod 2) 1) as [Ho|He].
  { by apply next_tree_lays_odd. }
  rewrite next_tree_even by dlia.
  assert (∀ i, (lt_data t ++ carry V) !! (s + length V + i) = carry V !! i) as Hlook.
  { intros i. rewrite lookup_app_r by lia. f_equal. lia. }
  split; simpl; rewrite ?length_app, ?length_carry, ?Hlen; auto using carry_known.
  - intros i v Hv _. by rewrite Hlook.
  - intros v Hv. left. rewrite last_lookup in Hv.
    pose proof (lookup_lt_Some _ _ _ Hv) as Hlt. rewrite length_carry in Hlt.
    rewrite <- Hv, length_carry, <- Hlook. f_equal. lia.
  - intros k Hlt. apply Hlinks. lia.
Qed.

(** ** The finished tree *)

(** Node [i] of the layer [V] at [s], as [gen_proof] reads it: a link matters
    only at an odd position. *)
Definition readable t (s : nat) (V : list E) : Prop :=
  ∀ i v, V !! i = Some v →
    lt_data t !! (s + i) = Some v ∨
    i = length V - 1 ∧ lt_data t !! (s + i) = Some zero ∧ (i mod 2 = 1 → linked t (s + i) v).

(** The layers from [s] on, [d] of them above [V]. *)
Fixpoint layered (d : nat) t (s : nat) (V : list E) : Prop :=
  readable t s V ∧ Forall (λ x, x ≠ zero) V ∧
  match d with
  | O => length V = 1 ∧ length (lt_data t) = s + 1 ∧ lt_data t !! s = head V
  | S d =>
      2 ≤ length V ∧ s + 1 < length (lt_data t) ∧
      (length V mod 2 = 1 → lt_data t !! (s + length V) = Some zero ∧
                            link_map t !! (s + length V) = None) ∧
      layered d t (s + round_even (length V)) (carry V)
  end.

(** [t'] continues [t], whose last layer is [V] at [s]. *)
Definition continues t t' (s : nat) (V : list E) : Prop :=
  (∀ k, k < length (lt_data t) → lt_data t' !! k = lt_data t !! k) ∧
  (∀ k, k < s + length V → k ≠ s + length V - 1 ∨ length V mod 2 = 0 →
    link_map t' !! k = link_map t !! k) ∧
  lt_leafs t' = lt_leafs t.

Lemma lays_readable t t' s V : lays t s V → continues t t' s V → readable t' s V.
Proof.
  intros HV (Hd & Hl & _) i v Hi. pose proof (lays_length _ _ _ HV) as Hlen.
  pose proof (lookup_lt_Some _ _ _ Hi) as Hlt. rewrite Hd by lia.
  destruct (decide (i + 1 < length V)) as [Hin|Hend].
  { left. by apply (lays_node _ _ _ HV). }
  assert (last V = Some v) as Hv.
  { rewrite last_lookup. by replace (pred (length V)) with i by lia. }
  replace (s + i) with (s + length V - 1) by lia.
  destruct (lays_last _ _ _ HV _ Hv) as [|(_ & Hz & k & Hk & Hdk)]; [by left|right].
  split; [lia|]. split; [done|]. intros Hodd. split; [by rewrite Hd by lia|].
  exists k. rewrite Hl by dlia. split; [done|]. rewrite Hd by by eapply lookup_lt_Some. done.
Qed.

Lemma continues_refl t s V : continues t t s V.
Proof. by split_and!. Qed.

Lemma next_tree_leafs t s V : lt_leafs (next_tree t s V) = lt_leafs t.
Proof.
  destruct (Nat.eq_dec (length V mod 2) 0); [by rewrite next_tree_even|].
  by rewrite next_tree_odd by dlia.
Qed.

Lemma continues_next t t' s V :
  lays t s V → 2 ≤ length V →
  continues (next_tree t s V) t' (s + round_even (length V)) (carry V) → continues t t' s V.
Proof.
  intros HV Hw (Hd & Hl & Hf).
  pose proof (lays_length _ _ _ HV). pose proof (lays_length _ _ _ (next_tree_lays t s V HV Hw)) as Hlen.
  rewrite length_carry in Hlen, Hl. assert (length V ≤ round_even (length V)) by (unfold round_even; case_match; lia).
  split_and!.
  - intros k Hk. rewrite Hd by lia. by apply next_tree_extends.
  - intros k Hk Hc. rewrite Hl by dlia. by apply next_tree_links.
  - by rewrite Hf, next_tree_leafs.
Qed.

Lemma next_tree_pad t s V :
  lays t s V → 2 ≤ length V → length V mod 2 = 1 →
  lt_data (next_tree t s V) !! (s + length V) = Some zero ∧
  link_map (next_tree t s V) !! (s + length V) = None.
Proof.
  intros HV Hw Ho. pose proof (lays_length _ _ _ HV) as Hlen.
  destruct (last V) as [v|] eqn:Hv; [|apply last_None in Hv; by subst].
  destruct (odd_update_spec t s V v HV Hv) as (k & rm & Hup & _ & Hrm).
  rewrite next_tree_odd, Hup by done. simpl. split.
  - rewrite lookup_app_r by lia. by replace (s + length V - length (lt_data t)) with 0 by lia.
  - assert (<[length V / 2 + (s + length V + 1) := k]> (link_map t) !! (s + length V) = None) as Hn.
    { rewrite lookup_insert_ne by lia. apply (lays_links _ _ _ HV). lia. }
    destruct rm; [|done]. apply lookup_delete_None. by right.
Qed.

Lemma build_loop_step fuel t s V :
  lays t s V → 2 ≤ length V →
  build_loop zero (S fuel) t s (s + length V) (length V) =
  build_loop zero fuel (next_tree t s V) (s + round_even (length V))
    (s + round_even (length V) + length (carry V)) (length (carry V)).
Proof.
  intros HV Hw. cbn [build_loop]. rewrite (proj2 (Nat.leb_gt _ _)) by lia.
  assert ((if length V mod 2 =? 1
           then (MkLightTree (lt_data t ++ [zero]) (lt_leafs t) (link_map t), length V + 1, s + length V + 1)
           else (t, length V, s + length V)) =
          (padded t (length V), round_even (length V), s + round_even (length V))) as ->.
  { unfold padded, round_even. destruct (length V mod 2 =? 1); [|done]. by rewrite Nat.add_assoc. }
  replace ((s + round_even (length V) - s) / 2) with ((length V + 1) / 2)
    by (unfold round_even; destruct (Nat.eqb_spec (length V mod 2) 1); dlia).
  pose proof (build_nodes_run t s V 0 ((length V + 1) / 2) HV ltac:(lia)) as Hrun.
  replace (s + 2 * 0) with s in Hrun by lia. rewrite Hrun, drop_0. cbn [res_bind].
  fold (next_tree t s V). rewrite length_carry.
  replace (round_even (length V) / 2) with ((length V + 1) / 2); [done|].
  unfold round_even. destruct (Nat.eqb_spec (length V mod 2) 1); dlia.
Qed.

Lemma build_loop_run d fuel t s V :
  lays t s V → V ≠ [] → d = Nat.log2_up (length V) → d ≤ fuel →
  ∃ t', build_loop zero fuel t s (s + length V) (length V) = Ok t' ∧
    continues t t' s V ∧ layered d t' s V.
Proof.
  revert fuel t s V. induction d as [|d IH]; intros fuel t s V HV HVn Hd Hf.
  - assert (length V = 1) as Hl.
    { destruct V as [|x [|y V]]; [done|done|]. simpl in Hd.
      pose proof (Nat.log2_up_pos (S (S (length V)))). lia. }
    exists t. assert (build_loop zero fuel t s (s + length V) (length V) = Ok t) as ->
      by (destruct fuel; cbn [build_loop]; rewrite Hl; done).
    split; [done|]. split; [apply continues_refl|]. split_and!; auto.
    + eapply lays_readable; [done|apply continues_refl].
    + apply (lays_known _ _ _ HV).
    + by rewrite (lays_length _ _ _ HV), Hl.
    + destruct V as [|v [|]]; [done| |done].
      destruct (lays_last _ _ _ HV v eq_refl) as [Hd'|[? _]]; [|simpl in *; lia].
      simpl in Hd'. by rewrite Nat.add_sub in Hd'.
  - assert (2 ≤ length V) as Hw.
    { destruct V as [|x [|y V]]; [done|done|simpl; lia]. }
    destruct fuel as [|fuel]; [lia|]. rewrite build_loop_step by done.
    pose proof (next_tree_lays t s V HV Hw) as HV2.
    destruct (IH fuel _ _ _ HV2) as (t' & Hrun & Hc & Hl).
    + intros Hn. apply (f_equal length) in Hn. rewrite length_carry in Hn. simpl in Hn. dlia.
    + rewrite length_carry. pose proof (depth_up (length V) Hw) as Hdu. unfold depth in Hdu. lia.
    + lia.
    + exists t'. pose proof (continues_next _ _ _ _ HV Hw Hc) as Hc'.
      split; [done|]. split; [done|]. cbn [layered].
      pose proof (lays_length _ _ _ HV) as Hlen. pose proof (lays_length _ _ _ HV2) as Hlen2.
      rewrite length_carry in Hlen2. destruct Hc as (Hcd & Hcl & _). rewrite length_carry in Hcl.
      assert (length V ≤ round_even (length V)) as Hre by (unfold round_even; case_match; lia).
      split_and!; auto; [by eapply lays_readable|apply (lays_known _ _ _ HV)| |].
      * destruct (lookup_lt_is_Some_2 (lt_data (next_tree t s V)) (s + 1)) as [x Hx]; [dlia|].
        rewrite <- Hcd in Hx by dlia. by eapply lookup_lt_Some.
      * intros Ho. rewrite Hcd, Hcl by (unfold round_even in *; rewrite Ho in *; simpl in *; dlia).
        by apply next_tree_pad.
Qed.

(** [t] is the finished tree over the leaves [V]. *)
Record light_tree_of (V : list E) t : Prop := {
  lto_leafs : lt_leafs t = length V;
  lto_leaves : ∀ i, i < length V → lt_data t !! i = V !! i;
  lto_layered : layered (Nat.log2_up (length V)) t 0 V;
}.

(** [MerkleTree::new] over non-null leaves builds all the layers. *)
Lemma light_new_run V :
  Forall (λ x, x ≠ zero) V → V ≠ [] → ∃ t, light_new zero V = Ok t ∧ light_tree_of V t.
Proof.
  intros HV HVn. assert (1 ≤ length V) as Hl by (destruct V; simpl; [done|lia]).
  assert (lays (MkLightTree V (length V) ∅) 0 V) as Hlays.
  { split; simpl; auto. intros v Hv. left. rewrite last_lookup in Hv. rewrite <- Hv. f_equal. lia. }
  destruct (build_loop_run (Nat.log2_up (length V)) (length V) _ 0 V Hlays HVn eq_refl)
    as (t & Hrun & (Hdata & _ & Hleafs) & Hlay); [apply Nat.log2_up_le_lin; lia|].
  exists t. split; [|by split]. unfold light_new, checked_sub. rewrite decide_True by done.
  cbn [res_bind]. exact Hrun.
Qed.

(** ** Proof generation *)

Lemma proof_hash_index_run d t s V i :
  layered (S d) t s V → i < length V →
  ∃ idx, proof_hash_index zero t s i = Ok idx ∧
    match idx with
    | Some k => ∃ x, lt_data t !! k = Some x ∧ light_sib V i = [x] ∧ side (length V) i = [i mod 2 =? 0]
    | None => light_sib V i = [] ∧ side (length V) i = []
    end.
Proof.
  intros (Hr & Hk & Hw & _ & Hpad & _) Hi. rewrite Forall_lookup in Hk.
  unfold proof_hash_index, light_sib, side, index.
  destruct (Nat.eqb_spec (i mod 2) 0) as [He|Ho].
  - destruct (decide (i + 1 < length V)) as [Hin|Hend].
    + destruct (lookup_lt_is_Some_2 V (i + 1) Hin) as [r HVr].
      rewrite HVr, (proj2 (Nat.ltb_lt _ _)) by done.
      pose proof (Hk _ _ HVr) as Hrz. rewrite <- Nat.add_assoc.
      destruct (Hr _ _ HVr) as [Hd|(_ & Hd & Hl)].
      * rewrite Hd. cbn [expect res_bind]. rewrite is_zero_false by done.
        exists (Some (s + (i + 1))). split; [done|]. by exists r.
      * destruct Hl as (_ & k & Hlk & Hdk); [dlia|]. rewrite Hd. cbn [expect res_bind].
        rewrite is_zero_true, Hlk, Hdk. cbn [expect res_bind]. rewrite is_zero_false by done.
        exists (Some k). split; [done|]. by exists r.
    + rewrite (proj2 (Nat.ltb_ge _ _)), (lookup_ge_None_2 V) by lia.
      destruct Hpad as [Hd Hl]; [dlia|]. replace (s + i + 1) with (s + length V) by lia.
      rewrite Hd. cbn [expect res_bind]. rewrite is_zero_true, Hl. by exists None.
  - exists (Some (s + i - 1)). split; [done|].
    destruct (lookup_lt_is_Some_2 V (i - 1) ltac:(lia)) as [l HVl]. exists l.
    replace (s + i - 1) with (s + (i - 1)) by dlia. rewrite HVl. split; [|done].
    destruct (Hr _ _ HVl) as [|(? & _)]; [done|lia].
Qed.

Lemma light_gen_loop_run d fuel t s V i lemma path :
  layered d t s V → i < length V → d ≤ fuel →
  light_gen_loop zero fuel t s i (round_even (length V)) lemma path =
  Ok (lemma ++ light_sibs d V i, path ++ light_sides d (length V) i).
Proof.
  revert fuel s V i lemma path. induction d as [|d IH]; intros fuel s V i lemma path Hl Hi Hf.
  - destruct Hl as (_ & _ & _ & Hlen & _). simpl. rewrite !app_nil_r.
    destruct fuel; cbn [light_gen_loop]; by rewrite (proj2 (Nat.leb_le _ _)) by lia.
  - destruct (proof_hash_index_run d t s V i Hl Hi) as (idx & Hidx & Hx).
    destruct Hl as (_ & _ & Hw & Hlen & _ & Hl). destruct fuel as [|fuel]; [lia|].
    cbn [light_gen_loop]. rewrite (proj2 (Nat.leb_gt _ _)), Hidx by lia. cbn [res_bind].
    replace (round_even (round_even (length V) / 2)) with (round_even (length (carry V))).
    2: { rewrite length_carry. f_equal. unfold round_even.
         destruct (Nat.eqb_spec (length V mod 2) 1); dlia. }
    cbn [light_sibs light_sides].
    assert (i / 2 < length (carry V)) as Hi2 by (rewrite length_carry; dlia).
    destruct idx as [k|].
    + destruct Hx as (x & Hk & -> & ->). unfold index. rewrite Hk. cbn [expect res_bind].
      rewrite IH, <- !app_assoc, length_carry by (auto; lia). done.
    + destruct Hx as [-> ->]. cbn [res_bind]. rewrite IH, length_carry by (auto; lia). done.
Qed.

Lemma layered_root d t s V :
  layered d t s V → ∃ r, light_root t = Ok r ∧ head (carry_at d V) = Some r.
Proof.
  revert s V. induction d as [|d IH]; intros s V Hl.
  - destruct Hl as (_ & _ & Hw & Hlen & Hd). destruct V as [|v [|]]; [done| |done]. exists v.
    split; [|done]. unfold light_root, checked_sub, index. rewrite Hlen, decide_True by lia.
    cbn [res_bind]. by rewrite Nat.add_sub, Hd.
  - destruct Hl as (_ & _ & _ & _ & _ & Hl). by apply IH in Hl.
Qed.

Lemma light_sides_nonempty d n i : 2 ≤ n ≤ 2 ^ d → i < n → light_sides d n i ≠ [].
Proof.
  revert n i. induction d as [|d IH]; intros n i Hn Hi; [change (2 ^ 0) with 1 in Hn; lia|].
  simpl. unfold side. destruct (Nat.eqb_spec (i mod 2) 0); [|done].
  destruct (Nat.ltb_spec (i + 1) n); [done|]. simpl. rewrite Nat.pow_succ_r' in Hn.
  apply IH; dlia.
Qed.

Lemma carry_at_length d V : length V ≤ 2 ^ d → V ≠ [] → length (carry_at d V) = 1.
Proof.
  revert V. induction d as [|d IH]; intros V Hl HV; simpl.
  - change (2 ^ 0) with 1 in Hl. destruct V as [|x [|]]; simpl in *; [done|done|lia].
  - rewrite Nat.pow_succ_r' in Hl. apply IH; [rewrite length_carry; dlia|].
    intros Hn. apply (f_equal length) in Hn. rewrite length_carry in Hn.
    destruct V; [done|simpl in Hn; dlia].
Qed.

(** ** Validation *)

Lemma light_foldl x (s1 s2 : list E) r (p1 p2 : list bool) h :
  length p1 = length s1 → length p2 = length s2 →
  res_foldl (light_step (MkLightProof (x :: s1 ++ s2 ++ [r]) (p1 ++ p2))) h
    (seq (S (length s1)) (length s2)) = Ok (climb h p2 s2).
Proof.
  revert s1 p1 p2 h. induction s2 as [|y s2 IH]; intros s1 p1 [|b p2] h Hl1 Hl2; try done.
  cbn [length seq res_foldl]. unfold light_step at 1, index. simpl.
  rewrite Nat.sub_0_r, <- Hl1, list_lookup_middle by done. cbn [expect res_bind].
  rewrite Hl1, list_lookup_middle by done. cbn [expect res_bind].
  replace (x :: s1 ++ y :: s2 ++ [r]) with (x :: (s1 ++ [y]) ++ s2 ++ [r]) by by rewrite <- app_assoc.
  replace (p1 ++ b :: p2) with ((p1 ++ [b]) ++ p2) by by rewrite <- app_assoc.
  replace (S (S (length s1))) with (S (length (s1 ++ [y]))) by (rewrite length_app; simpl; lia).
  rewrite IH; [|rewrite !length_app; simpl; lia|simpl in Hl2; lia].
  rewrite climb_cons. done.
Qed.

Lemma light_validate_form x (sibs : list E) r path :
  length path = length sibs → sibs ≠ [] →
  light_validate (MkLightProof (x :: sibs ++ [r]) path) = Ok (bool_decide (climb x path sibs = r)).
Proof.
  intros Hl Hs. unfold light_validate. cbn [lp_lemma lp_path].
  assert (length (x :: sibs ++ [r]) = length sibs + 2) as -> by (simpl; rewrite length_app; simpl; lia).
  assert (1 ≤ length sibs) by (destruct sibs; simpl; [done|lia]).
  rewrite (proj2 (Nat.eqb_neq _ 1)), (proj2 (Nat.ltb_ge _ 2)) by lia. cbn [andb].
  unfold light_item, light_proof_root. cbn [lp_lemma head expect res_bind].
  replace (length sibs + 2 - 2) with (length sibs) by lia.
  pose proof (light_foldl x [] sibs r [] path x eq_refl Hl) as Hf. cbn [app length] in Hf.
  rewrite Hf. cbn [res_bind].
  by rewrite last_cons, last_snoc.
Qed.

(** ** Positions *)

Lemma light_sides_snoc d n i :
  light_sides (S d) n i = light_sides d n i ++ side ((n + 2 ^ d - 1) / 2 ^ d) (i / 2 ^ d).
Proof.
  revert n i. induction d as [|d IH]; intros n i.
  - change (2 ^ 0) with 1. simpl. rewrite app_nil_r, !Nat.div_1_r. f_equal. lia.
  - cbn [light_sides] in *. rewrite IH, <- app_assoc. do 2 f_equal.
    pose proof (Nat.pow_nonzero 2 d ltac:(lia)).
    rewrite Nat.pow_succ_r', <- !Nat.Div0.div_div. f_equal.
    replace ((n + 1) / 2 + 2 ^ d - 1) with ((n + 2 * 2 ^ d - 1) / 2) by dlia.
    by rewrite !Nat.Div0.div_div, (Nat.mul_comm 2).
Qed.

Lemma next_pow2_of m k :
  (2 ^ Z.of_nat k < m ≤ 2 ^ Z.of_nat (S k))%Z → (m ≤ 2 ^ 63)%Z →
  ∃ pow, next_pow2 m = Ok pow ∧ Z.shiftr pow 1 = (2 ^ Z.of_nat k)%Z.
Proof.
  intros Hm Hb. pose proof (Z.pow_pos_nonneg 2 (Z.of_nat k) ltac:(lia) ltac:(lia)).
  exists (2 ^ Z.of_nat (S k))%Z. split.
  - rewrite next_pow2_spec by lia. do 2 f_equal.
    apply Z.log2_up_unique; [lia|]. replace (Z.pred (Z.of_nat (S k))) with (Z.of_nat k) by lia. done.
  - rewrite Z.shiftr_div_pow2, Nat2Z.inj_succ, Z.pow_succ_r, Z.mul_comm, Z.div_mul by lia. done.
Qed.

(** The chunks below node [j] of layer [k] in a tree of [n] chunks. *)
Definition below (n k j : nat) : Z := Z.min (2 ^ Z.of_nat k) (Z.of_nat n - Z.of_nat j * 2 ^ Z.of_nat k).

(** The two children of node [j] of layer [k + 1]. *)
Lemma below_left n k j :
  (Z.of_nat (2 * j + 1) * 2 ^ Z.of_nat k < Z.of_nat n)%Z →
  (2 ^ Z.of_nat k < below n (S k) j ≤ 2 ^ Z.of_nat (S k))%Z ∧ below n k (2 * j) = (2 ^ Z.of_nat k)%Z ∧
  below n k (2 * j + 1) = (below n (S k) j - 2 ^ Z.of_nat k)%Z.
Proof.
  intros Hj. pose proof (Z.pow_pos_nonneg 2 (Z.of_nat k) ltac:(lia) ltac:(lia)).
  unfold below. rewrite Nat2Z.inj_succ, Z.pow_succ_r by lia. nia.
Qed.

Lemma below_carried n k j :
  (Z.of_nat n ≤ Z.of_nat (2 * j + 1) * 2 ^ Z.of_nat k)%Z → below n k (2 * j) = below n (S k) j.
Proof.
  intros Hj. pose proof (Z.pow_pos_nonneg 2 (Z.of_nat k) ltac:(lia) ltac:(lia)).
  unfold below. rewrite Nat2Z.inj_succ, Z.pow_succ_r by lia. nia.
Qed.

Lemma right_exists n k c :
  (c + 1 <? (n + 2 ^ k - 1) / 2 ^ k) = bool_decide (Z.of_nat (c + 1) * 2 ^ Z.of_nat k < Z.of_nat n)%Z.
Proof.
  pose proof (Nat.pow_nonzero 2 k ltac:(lia)) as Hp.
  replace (2 ^ Z.of_nat k)%Z with (Z.of_nat (2 ^ k)) by (rewrite Nat2Z.inj_pow; done).
  pose proof (Nat.div_mod (n + 2 ^ k - 1) (2 ^ k) Hp) as Hd.
  pose proof (Nat.mod_upper_bound (n + 2 ^ k - 1) (2 ^ k) Hp).
  destruct (Nat.ltb_spec (c + 1) ((n + 2 ^ k - 1) / 2 ^ k)) as [Hc|Hc];
    symmetry; [apply bool_decide_eq_true|apply bool_decide_eq_false]; nia.
Qed.

(** Descending from a node reads the position back from the path. *)
Lemma position_down k n i :
  i < n → (Z.of_nat n ≤ 2 ^ 63)%Z →
  fp_position_loop (reverse (light_sides k n i)) (below n k (i / 2 ^ k))
    (Z.of_nat (i / 2 ^ k) * 2 ^ Z.of_nat k) = Ok (1%Z, Z.of_nat i).
Proof.
  intros Hi Hn. induction k as [|k IH].
  { change (2 ^ 0) with 1. rewrite Nat.div_1_r. simpl. f_equal. unfold below. simpl. f_equal; lia. }
  rewrite light_sides_snoc, reverse_app. set (c := i / 2 ^ k) in *.
  assert (i / 2 ^ S k = c / 2) as -> by (by rewrite Nat.pow_succ_r', Nat.mul_comm, <- Nat.Div0.div_div).
  pose proof (Z.pow_pos_nonneg 2 (Z.of_nat k) ltac:(lia) ltac:(lia)) as Hp.
  assert (2 ^ Z.of_nat (S k) = 2 * 2 ^ Z.of_nat k)%Z as HS by (rewrite Nat2Z.inj_succ, Z.pow_succ_r by lia; done).
  assert (Z.of_nat c * 2 ^ Z.of_nat k < Z.of_nat n)%Z as Hc.
  { subst c. replace (2 ^ Z.of_nat k)%Z with (Z.of_nat (2 ^ k)) by (rewrite Nat2Z.inj_pow; done).
    pose proof (Nat.Div0.mul_div_le i (2 ^ k)). lia. }
  unfold side. destruct (Nat.eqb_spec (c mod 2) 0) as [He|Ho].
  - assert (c = 2 * (c / 2)) as Hc2 by dlia. rewrite right_exists.
    replace (c + 1) with (2 * (c / 2) + 1) by lia. case_bool_decide as Hr.
    + destruct (below_left n k (c / 2) Hr) as (Hm & Hl & _). simpl.
      destruct (next_pow2_of (below n (S k) (c / 2)) k Hm) as (pow & Hpow & Hsh);
        [unfold below; lia|].
      rewrite (proj2 (Z.leb_gt _ _)), Hpow by lia. cbn [res_bind negb]. rewrite Hsh, <- Hl, <- Hc2.
      rewrite <- IH. f_equal. lia.
    + rewrite <- (below_carried n k (c / 2)), <- Hc2 by lia. simpl. rewrite <- IH. f_equal. lia.
  - assert (c = 2 * (c / 2) + 1) as Hc2 by dlia.
    destruct (below_left n k (c / 2)) as (Hm & _ & Hl); [by rewrite <- Hc2|]. simpl.
    destruct (next_pow2_of (below n (S k) (c / 2)) k Hm) as (pow & Hpow & Hsh);
      [unfold below; lia|].
    rewrite (proj2 (Z.leb_gt _ _)), Hpow by lia. cbn [res_bind negb].
    rewrite Hsh, <- Hl, <- Hc2, <- IH. f_equal. lia.
Qed.

(** A path that the descent accepts is the path to the position it returns. *)
Lemma position_up k n j bs z :
  (Z.of_nat j * 2 ^ Z.of_nat k < Z.of_nat n)%Z → (Z.of_nat n ≤ 2 ^ 63)%Z →
  fp_position_loop bs (below n k j) (Z.of_nat j * 2 ^ Z.of_nat k) = Ok (1%Z, z) →
  ∃ i, z = Z.of_nat i ∧ i < n ∧ i / 2 ^ k = j ∧ bs = reverse (light_sides k n i).
Proof.
  intros Hj Hn. revert j bs Hj. induction k as [|k IH]; intros j bs Hj Hrun.
  { assert (below n 0 j = 1%Z) as Hb by (unfold below; simpl in *; lia). rewrite Hb in Hrun.
    destruct bs as [|b bs]; [|done]. injection Hrun as <-. exists j.
    change (2 ^ 0) with 1. rewrite Nat.div_1_r. simpl in *. split_and!; [lia|lia|done|done]. }
  pose proof (Z.pow_pos_nonneg 2 (Z.of_nat k) ltac:(lia) ltac:(lia)) as Hp.
  assert (2 ^ Z.of_nat (S k) = 2 * 2 ^ Z.of_nat k)%Z as HS by (rewrite Nat2Z.inj_succ, Z.pow_succ_r by lia; done).
  assert (∀ i c, i / 2 ^ k = c → i / 2 ^ S k = c / 2) as Hdiv.
  { intros i c <-. by rewrite Nat.pow_succ_r', Nat.mul_comm, <- Nat.Div0.div_div. }
  destruct (decide (Z.of_nat (2 * j + 1) * 2 ^ Z.of_nat k < Z.of_nat n)%Z) as [Hr|Hr].
  - destruct (below_left n k j Hr) as (Hm & Hbl & Hbr).
    destruct bs as [|b bs]; [injection Hrun; lia|]. simpl in Hrun.
    destruct (next_pow2_of (below n (S k) j) k Hm) as (pow & Hpow & Hsh); [unfold below; lia|].
    rewrite (proj2 (Z.leb_gt _ _)), Hpow in Hrun by lia. cbn [res_bind] in Hrun. rewrite Hsh in Hrun.
    destruct b; cbn [negb] in Hrun.
    + rewrite <- Hbl in Hrun. destruct (IH (2 * j) bs) as (i & -> & Hi & Hij & ->).
      { lia. } { rewrite <- Hrun. f_equal. lia. }
      exists i. split_and!; auto; [rewrite (Hdiv _ _ Hij); dlia|].
      rewrite light_sides_snoc, reverse_app, Hij. unfold side.
      replace (2 * j mod 2) with 0 by dlia. cbn [Nat.eqb]. by rewrite right_exists, bool_decide_true.
    + rewrite <- Hbr in Hrun. destruct (IH (2 * j + 1) bs) as (i & -> & Hi & Hij & ->).
      { done. } { rewrite <- Hrun. f_equal. lia. }
      exists i. split_and!; auto; [rewrite (Hdiv _ _ Hij); dlia|].
      rewrite light_sides_snoc, reverse_app, Hij. unfold side.
      by replace ((2 * j + 1) mod 2) with 1 by dlia.
  - rewrite <- (below_carried n k j) in Hrun by lia.
    destruct (IH (2 * j) bs) as (i & -> & Hi & Hij & ->).
    { lia. } { rewrite <- Hrun. f_equal. lia. }
    exists i. split_and!; auto; [rewrite (Hdiv _ _ Hij); dlia|].
    rewrite light_sides_snoc, reverse_app, Hij. unfold side.
    replace (2 * j mod 2) with 0 by dlia. cbn [Nat.eqb]. by rewrite right_exists, bool_decide_false.
Qed.

Lemma below_top n d : n ≤ 2 ^ d → below n d 0 = Z.of_nat n.
Proof.
  intros Hn. unfold below. simpl.
  replace (2 ^ Z.of_nat d)%Z with (Z.of_nat (2 ^ d)) by (rewrite Nat2Z.inj_pow; done). lia.
Qed.

(** [FileProof::position] inverts [light_sides]. *)
Lemma fp_position_iff (p : FileProof E) n d z :
  1 ≤ n ≤ 2 ^ d → (Z.of_nat n ≤ 2 ^ 63)%Z →
  fp_position p (Z.of_nat n) = Ok z ↔
  ∃ i, z = Z.of_nat i ∧ i < n ∧ fp_path p = light_sides d n i.
Proof.
  intros Hn Hb. unfold fp_position. rewrite <- (below_top n d) at 1 by lia. split.
  - destruct (fp_position_loop _ _ _) as [[l pos]| |] eqn:Hrun; cbn [res_bind]; [|done..].
    destruct (Z.eqb_spec l 1) as [->|]; cbn [negb]; [intros [= ->]|done].
    destruct (position_up d n 0 (reverse (fp_path p)) z) as (i & Hz & Hi & _ & Hp); [lia|done|done|].
    exists i. split_and!; auto. by rewrite <- (reverse_involutive (fp_path p)), Hp, reverse_involutive.
  - intros (i & -> & Hi & ->). pose proof (position_down d n i Hi Hb) as Hrun.
    rewrite Nat.div_small in Hrun by lia. simpl Z.of_nat in Hrun. rewrite Z.mul_0_l in Hrun.
    by rewrite Hrun.
Qed.

(** ** Complete trees *)

Lemma carry_up h V : length V mod 2 = 0 → carry V = up h V.
Proof.
  induction V as [|x|x y V IH] using list_pair_ind; intros HV; [done|done|].
  simpl. rewrite IH; [done|]. simpl in HV. dlia.
Qed.

(** On a multiple of [2^k] leaves the two kinds of trees agree up to layer [k]. *)
Lemma carry_at_layer_at h k V : length V mod 2 ^ k = 0 → carry_at k V = layer_at h k V.
Proof.
  revert h V. induction k as [|k IH]; intros h V HV; simpl; [done|].
  rewrite Nat.pow_succ_r' in HV. apply Nat.Div0.mod_divides in HV as [c Hc].
  rewrite (carry_up h) by (rewrite Hc; dlia). apply IH. rewrite length_up, Hc.
  replace ((2 * 2 ^ k * c + 1) / 2) with (c * 2 ^ k) by dlia. apply Nat.Div0.mod_mul.
Qed.

Lemma light_root_pow2 h k V :
  length V = 2 ^ k → light_root_of V = head (layer_at h k V).
Proof.
  intros HV. unfold light_root_of. rewrite HV, Nat.log2_up_pow2 by lia.
  by rewrite (carry_at_layer_at h) by (rewrite HV; apply Nat.Div0.mod_same).
Qed.

(** ** File proofs *)

(** The proof that [gen_proof] gives. *)
Definition light_proof_of (V : list E) (i : nat) (x r : E) : LightProof E :=
  let d := Nat.log2_up (length V) in
  MkLightProof (if length V =? 1 then [r] else x :: light_sibs d V i ++ [r])
    (light_sides d (length V) i).

Lemma log2_up_bound n : 1 ≤ n → n ≤ 2 ^ Nat.log2_up n.
Proof.
  intros. destruct (decide (n = 1)) as [->|]; [done|]. apply Nat.log2_up_spec. lia.
Qed.

Lemma light_sibs_nonempty V i : 2 ≤ length V → i < length V →
  light_sibs (Nat.log2_up (length V)) V i ≠ [].
Proof.
  intros Hw Hi Hn. apply (f_equal length) in Hn. rewrite length_light_sibs in Hn by done.
  apply nil_length_inv in Hn. revert Hn. apply light_sides_nonempty; [|done].
  split; [done|]. apply log2_up_bound. lia.
Qed.

Lemma light_gen_proof_run V t i x :
  light_tree_of V t → V !! i = Some x →
  ∃ r, light_root t = Ok r ∧ light_root_of V = Some r ∧
    light_gen_proof zero t i = Ok (light_proof_of V i x r).
Proof.
  intros [Hleafs Hdata Hlay] Hx. pose proof (lookup_lt_Some _ _ _ Hx) as Hi.
  destruct (layered_root _ _ _ _ Hlay) as (r & Hroot & Hr). exists r. split; [done|]. split; [done|].
  unfold light_gen_proof, light_proof_of. rewrite Hleafs.
  destruct (Nat.eqb_spec (length V) 1) as [H1|H1].
  { assert (i = 0) as -> by lia. simpl. rewrite Hroot. cbn. by rewrite H1. }
  rewrite (proj2 (Nat.ltb_lt _ _)) by done. cbn [assert res_bind].
  unfold index. rewrite Hdata, Hx by done. cbn [expect res_bind].
  assert (length V ≤ length (lt_data t)) as Hlen.
  { destruct (lookup_lt_is_Some_2 V (length V - 1) ltac:(lia)) as [v Hv].
    rewrite <- Hdata in Hv by lia. apply lookup_lt_Some in Hv. lia. }
  pose proof (Nat.log2_up_le_lin (length V) ltac:(lia)).
  rewrite (light_gen_loop_run (Nat.log2_up (length V)) _ _ _ V) by (auto; lia).
  cbn [res_bind app]. rewrite Hroot. cbn [res_bind]. unfold LightProof_new.
  pose proof (light_sibs_nonempty V i ltac:(lia) Hi) as Hne.
  pose proof (length_light_sibs (Nat.log2_up (length V)) V i Hi) as Hls.
  set (sibs := light_sibs _ V i) in *.
  assert (length (x :: sibs ++ [r]) = length sibs + 2) as -> by (simpl; rewrite length_app; simpl; lia).
  assert (1 ≤ length sibs) by (destruct sibs; simpl; [done|lia]).
  rewrite (proj2 (Nat.ltb_lt _ _)) by lia. by rewrite Nat.add_sub, Hls, Nat.eqb_refl.
Qed.

(** The siblings and sides of a leaf lead to the root. *)
Lemma light_climb_root V i x r :
  V !! i = Some x → light_root_of V = Some r →
  let d := Nat.log2_up (length V) in
  climb x (light_sides d (length V) i) (light_sibs d V i) = r.
Proof.
  intros Hx Hr d. pose proof (lookup_lt_Some _ _ _ Hx) as Hi.
  pose proof (log2_up_bound (length V) ltac:(lia)).
  pose proof (carry_at_lookup d V i x Hx) as Hc. rewrite Nat.div_small in Hc by (unfold d; lia).
  unfold light_root_of in Hr. fold d in Hr. rewrite head_lookup in Hr. congruence.
Qed.

Lemma light_proof_valid V i x r :
  V !! i = Some x → light_root_of V = Some r →
  light_validate (light_proof_of V i x r) = Ok true.
Proof.
  intros Hx Hr. pose proof (lookup_lt_Some _ _ _ Hx) as Hi.
  pose proof (light_climb_root V i x r Hx Hr) as Hc. unfold light_proof_of.
  destruct (Nat.eqb_spec (length V) 1) as [H1|H1]; [by rewrite H1|].
  rewrite light_validate_form.
  - by rewrite bool_decide_true.
  - by rewrite length_light_sibs.
  - apply light_sibs_nonempty; lia.
Qed.

Lemma light_root_of_Some V : V ≠ [] → ∃ r, light_root_of V = Some r.
Proof.
  intros HV. pose proof (carry_at_length (Nat.log2_up (length V)) V) as Hl.
  unfold light_root_of. destruct (carry_at _ V) as [|r l]; [|by exists r].
  exfalso. assert (1 ≤ length V) as H1 by (destruct V; simpl; [done|lia]).
  discriminate (Hl (log2_up_bound _ H1) HV).
Qed.

(** The generated proof, sent as a [FileProof], is accepted. *)
Lemma fp_validate_generated V i x r :
  V !! i = Some x → light_root_of V = Some r → (Z.of_nat (length V) ≤ 2 ^ 63)%Z →
  let p := light_proof_of V i x r in
  fp_validate (FileProof_new (lp_lemma p) (lp_path p)) x r (Z.of_nat i) (Z.of_nat (length V)) =
  Ok true.
Proof.
  intros Hx Hr Hb p. pose proof (lookup_lt_Some _ _ _ Hx) as Hi.
  pose proof (light_proof_valid V i x r Hx Hr) as Hv. fold p in Hv.
  assert (FileProof_new (lp_lemma p) (lp_path p) = MkFileProof (lp_lemma p) (lp_path p) ∧
          fp_try_into (MkFileProof (lp_lemma p) (lp_path p)) = Ok p ∧
          light_proof_root p = Ok r ∧ light_item p = Ok x) as (-> & Hinto & Hroot & Hitem).
  { subst p. unfold light_proof_of, FileProof_new, fp_try_into, LightProof_new.
    pose proof (light_climb_root V i x r Hx Hr) as Hc.
    destruct (Nat.eqb_spec (length V) 1) as [H1|H1].
    { rewrite H1 in *. assert (i = 0) as -> by lia. simpl in *. by subst. }
    pose proof (length_light_sibs (Nat.log2_up (length V)) V i Hi) as Hls.
    pose proof (light_sibs_nonempty V i ltac:(lia) Hi) as Hne.
    cbn [lp_lemma lp_path fp_lemma fp_path]. set (sibs := light_sibs _ V i) in *.
    set (sd := light_sides _ _ i) in *.
    assert (length (x :: sibs ++ [r]) = length sibs + 2) as ->
      by (simpl; rewrite length_app; simpl; lia).
    assert (1 ≤ length sibs) by (destruct sibs; simpl; [done|lia]).
    rewrite <- Hls, (proj2 (Nat.ltb_lt 2 _)), !Nat.eqb_refl, Nat.add_sub, Nat.eqb_refl, orb_true_r by lia.
    cbn [assert res_bind]. destruct sd; [simpl in Hls; lia|].
    split_and!; [done|done| |done]. unfold light_proof_root. cbn [lp_lemma].
    by rewrite last_cons, last_snoc. }
  unfold fp_validate. rewrite (proj2 (fp_position_iff (MkFileProof (lp_lemma p) (lp_path p)) (length V) (Nat.log2_up (length V)) (Z.of_nat i) ltac:(split; [lia|apply log2_up_bound; lia]) Hb)) by (by exists i).
  cbn [res_bind]. rewrite Z.eqb_refl, Hinto. cbn [negb res_bind]. rewrite Hv. cbn [negb res_bind].
  rewrite Hroot. cbn [res_bind]. rewrite bool_decide_true by done. cbn [negb].
  rewrite Hitem. cbn [res_bind]. by rewrite bool_decide_true.
Qed.

(** What [fp_validate] checks. *)
Lemma fp_validate_inv (p : FileProof E) x r pos n :
  fp_validate p x r pos n = Ok true →
  fp_position p n = Ok pos ∧
  (fp_lemma p = [x] ∧ fp_path p = [] ∧ x = r ∨
   ∃ sibs, fp_lemma p = x :: sibs ++ [r] ∧ length sibs = length (fp_path p) ∧
     climb x (fp_path p) sibs = r).
Proof.
  unfold fp_validate. destruct (fp_position p n) as [q| |]; cbn [res_bind]; [|done..].
  destruct (Z.eqb_spec q pos) as [->|]; cbn [negb]; [|done]. intros Hrun. split; [done|].
  destruct p as [lem path]. cbn [fp_lemma fp_path]. unfold fp_try_into in Hrun.
  cbn [fp_lemma fp_path] in Hrun.
  destruct lem as [|y [|z lem]]; [done| |].
  - destruct path; [|done]. cbn in Hrun. left.
    repeat case_bool_decide; simplify_eq/=; done.
  - right. destruct (exists_last_or_nil (z :: lem)) as [|(sibs & w & Hzw)]; [done|].
    rewrite Hzw in Hrun |- *.
    assert (length (y :: sibs ++ [w]) = length sibs + 2) as Hlen by (simpl; rewrite length_app; simpl; lia).
    rewrite Hlen in Hrun. rewrite (proj2 (Nat.eqb_neq (length sibs + 2) 1)) in Hrun by lia. cbn [andb orb] in Hrun.
    destruct (Nat.ltb_spec 2 (length sibs + 2)) as [Hs|]; [|done]. cbn [andb] in Hrun.
    destruct (Nat.eqb_spec (length sibs + 2) (length path + 2)) as [Hl|]; [|done].
    unfold LightProof_new in Hrun. rewrite Hlen, (proj2 (Nat.ltb_lt 2 _)), Nat.add_sub in Hrun by lia.
    rewrite (proj2 (Nat.eqb_eq (length sibs) (length path))) in Hrun by lia. cbn [assert res_bind] in Hrun.
    rewrite light_validate_form in Hrun by (try lia; intros ->; simpl in *; lia).
    cbn [res_bind] in Hrun. case_bool_decide as Hc; [|done]. cbn [negb] in Hrun.
    unfold light_proof_root, light_item in Hrun. cbn [lp_lemma head expect res_bind] in Hrun.
    rewrite last_cons, last_snoc in Hrun. cbn [expect res_bind] in Hrun.
    case_bool_decide; cbn [negb] in Hrun; [|done]. case_bool_decide; cbn [negb] in Hrun; [|done].
    subst. exists sibs. split_and!; [done|lia|done].
Qed.

Lemma fp_validate_sound `{!CollisionFree E} V (p : FileProof E) x r pos :
  V ≠ [] → (Z.of_nat (length V) ≤ 2 ^ 63)%Z → light_root_of V = Some r →
  fp_validate p x r pos (Z.of_nat (length V)) = Ok true →
  ∃ i, pos = Z.of_nat i ∧ V !! i = Some x.
Proof.
  intros HV Hb Hr Hval. destruct (fp_validate_inv _ _ _ _ _ Hval) as [Hpos Hp].
  assert (1 ≤ length V) as Hl by (destruct V; simpl; [done|lia]).
  apply (fp_position_iff _ _ (Nat.log2_up (length V))) in Hpos as (i & -> & Hi & Hpath);
    [|split; [lia|by apply log2_up_bound]|done].
  exists i. split; [done|]. destruct (lookup_lt_is_Some_2 V i Hi) as [y Hy]. rewrite Hy. f_equal.
  pose proof (light_climb_root V i y r Hy Hr) as Hc. simpl in Hc.
  destruct Hp as [(_ & Hnil & ->)|(sibs & _ & Hls & Hcx)].
  - rewrite Hpath in Hnil. rewrite Hnil in Hc. done.
  - rewrite Hpath in Hls, Hcx. rewrite <- Hcx in Hc.
    eapply climb_inj in Hc as [-> _]; [done|by rewrite length_light_sibs|done].
Qed.

End Light.
