(* ===== verification/SegmentProof.v ===== *)
(** * Segment proofs: [node/shared_types/src/proof.rs]

    A file is stored in the flow as a list of subtrees of decreasing depth
    ([merkle_nodes]); the file root is the parent chain over their roots.  A
    [NodeProof] leads from the subtree that holds a segment to the file root;
    inside a larger subtree the rest of the path is taken from the flow proof. *)

From S2P Require Import Prelude Bytes IonianSpec Hashing MerkleProof SharedTypes MerkleLight MerkleSpec LightSpec.

Section Segments.
Context {E : Type} `{HashElement E} `{!Algorithm E} (zero zero_hash : E).

(** [struct ChunkArrayWithProof]. *)
Record ChunkArrayWithProof : Type := MkChunkArrayWithProof {
  cp_chunks : ChunkArray;
  cp_proof : RangeProof E;
}.

Inductive NodeProofLeaf : Type :=
| Full (node_depth : nat)
| Partial.

Record NodeProof : Type := MkNodeProof {
  np_proof : FileProof E;
  np_leaf : NodeProofLeaf;
}.

(** The loop of [compute_merkle_root] over the remaining nodes, last to first. *)
Fixpoint merkle_root_loop (max_depth_exclusive : nat) (rev_nodes : list (nat * E)) (root : E) : E :=
  match rev_nodes with
  | [] => root
  | (node_depth, node_root) :: rev_nodes =>
      if max_depth_exclusive <=? node_depth then root
      else merkle_root_loop max_depth_exclusive rev_nodes (parent node_root root)
  end.

Definition compute_merkle_root (nodes : list (nat * E)) (max_depth_exclusive : nat) : option E :=
  match reverse nodes with
  | [] => None
  | (depth, root) :: rev_nodes =>
      if max_depth_exclusive <=? depth then None
      else Some (merkle_root_loop max_depth_exclusive rev_nodes root)
  end.

(** The search loop of [compute_node_proof]: the node found, and the [lemma] and
    [path] pushed on the way. *)
Fixpoint find_node (chunk_start_index chunks_per_segment : Z) (nodes : list (nat * E))
    (total_chunks : Z) (lemma : list E) (path : list bool)
    : res (option (nat * E) * list E * list bool) :=
  match nodes with
  | [] => Ok (None, lemma, path)
  | (depth, root) :: nodes =>
      let? node_chunks := num_entries_of_node depth in
      if (node_chunks <? chunks_per_segment)%Z then Ok (None, lemma, path)
      else
        let? total_chunks := uadd 64 total_chunks node_chunks in
        if (chunk_start_index <? total_chunks)%Z then Ok (Some (depth, root), lemma, path)
        else find_node chunk_start_index chunks_per_segment nodes total_chunks
               (lemma ++ [root]) (path ++ [false])
  end.

Definition compute_node_proof (tx : Transaction E) (chunk_start_index chunks_per_segment : Z)
    : res NodeProof :=
  let? '(node, lemma, path) :=
    find_node chunk_start_index chunks_per_segment (merkle_nodes tx) 0 [data_merkle_root tx] [] in
  let? '(lemma, path, leaf) :=
    (match node with
     | Some (depth, root) =>
         let '(lemma, path) :=
           (match compute_merkle_root (merkle_nodes tx) depth with
            | Some right_root => (lemma ++ [right_root], path ++ [true])
            | None => (lemma, path)
            end) in
         Ok (lemma ++ [root], path, Full depth)
     | None =>
         let segment_depth := Z.to_nat (log2_pow2 chunks_per_segment) + 1 in
         let? right_root := expect (compute_merkle_root (merkle_nodes tx) segment_depth)
                              "merkle root should be exists" in
         Ok (lemma ++ [right_root], path, Partial)
     end) in
  Ok (MkNodeProof (FileProof_new (reverse lemma) (reverse path)) leaf).

(** [compute_segment_merkle_root]: the chunk hashes, filled up with the hash of
    the zero chunk. *)
Definition compute_segment_merkle_root (data : list Z) (segment_chunks : Z) : res E :=
  let num_chunks := (zlen data / CHUNK_SIZE)%Z in
  let hashes := leaf_hash <$> take (Z.to_nat num_chunks) (chunks (Z.to_nat CHUNK_SIZE) data) in
  let hashes := if (num_chunks <? segment_chunks)%Z
                then hashes ++ zreplicate (segment_chunks - num_chunks) zero_hash else hashes in
  let? t := light_new zero hashes in
  light_root t.

(** The loop that copies the flow proof between the segment and the subtree. *)
Fixpoint copy_flow_proof (flow : MProof E) (i n : nat) (lemma : list E) (path : list bool)
    : res (list E * list bool) :=
  match n with
  | O => Ok (lemma, path)
  | S n =>
      let? x := index (MerkleProof.lemma flow) (i + 1) in
      let? b := index (MerkleProof.path flow) i in
      copy_flow_proof flow (i + 1) n (lemma ++ [x]) (path ++ [b])
  end.

Definition compute_segment_proof_full (np : NodeProof) (node_depth : nat)
    (segment : ChunkArrayWithProof) (chunks_per_segment : Z) : res (FileProof E) :=
  let segment_depth := Z.to_nat (log2_pow2 chunks_per_segment) in
  if node_depth =? segment_depth then Ok (np_proof np)
  else
    let? _ := assert (segment_depth <? node_depth) "assertion failed: node_depth > segment_depth" in
    let flow := left_proof (cp_proof segment) in
    if length (MerkleProof.path flow) <? node_depth then Err "flow proof path too small"
    else
      let? segment_root :=
        compute_segment_merkle_root (ca_data (cp_chunks segment)) chunks_per_segment in
      let? '(lemma, path) :=
        copy_flow_proof flow segment_depth (node_depth - segment_depth) [segment_root] [] in
      if length (fp_path (np_proof np)) =? 0 then
        let? x := index (fp_lemma (np_proof np)) 0 in
        Ok (FileProof_new (lemma ++ [x]) path)
      else
        let? _ := checked_sub (length (fp_lemma (np_proof np))) 1 in
        Ok (FileProof_new (lemma ++ drop 1 (fp_lemma (np_proof np))) (path ++ fp_path (np_proof np))).

(** [NodeProof::compute_segment_proof]. *)
Definition np_compute_segment_proof (np : NodeProof) (segment : ChunkArrayWithProof)
    (chunks_per_segment : Z) : res (FileProof E) :=
  match np_leaf np with
  | Full node_depth =>
      let? node_depth := checked_sub node_depth 1 in
      compute_segment_proof_full np node_depth segment chunks_per_segment
  | Partial => Ok (np_proof np)
  end.

(** [Transaction::compute_segment_proof]. *)
Definition compute_segment_proof (tx : Transaction E) (segment : ChunkArrayWithProof)
    (chunks_per_segment : Z) : res (FileProof E) :=
  let chunk_start_index := start_index (cp_chunks segment) in
  if negb (chunk_start_index mod chunks_per_segment =? 0)%Z then Err "start index not aligned" else
  let? total_entries := num_entries tx in
  if (total_entries <=? chunk_start_index)%Z then Err "start index out of bound" else
  let data_len := zlen (ca_data (cp_chunks segment)) in
  let? e := uadd 64 chunk_start_index (data_len / CHUNK_SIZE) in
  if (total_entries <? e)%Z then Err "end index out of bound" else
  let? node_proof := compute_node_proof tx chunk_start_index chunks_per_segment in
  np_compute_segment_proof node_proof segment chunks_per_segment.

(** ** The file root over the subtrees *)

(** The root of the file made of the subtrees [ns]. *)
Fixpoint chain_root (ns : list (nat * E)) : option E :=
  match ns with
  | [] => None
  | [(_, r)] => Some r
  | (_, r) :: ns => parent r <$> chain_root ns
  end.

Definition join (ns : list (nat * E)) (x : E) : E := foldr (λ n acc, parent n.2 acc) x ns.

Lemma chain_root_snoc ns d r : chain_root (ns ++ [(d, r)]) = Some (join ns r).
Proof.
  induction ns as [|[d' r'] ns IH]; [done|]. simpl. rewrite IH.
  destruct (ns ++ [(d, r)]) eqn:Heq; [by destruct ns|done].
Qed.

Lemma chain_root_app ns1 ns2 x :
  chain_root ns2 = Some x → chain_root (ns1 ++ ns2) = Some (join ns1 x).
Proof.
  intros Hx. destruct (exists_last_or_nil ns2) as [->|(ns & [d r] & ->)]; [done|].
  rewrite chain_root_snoc in Hx. injection Hx as <-.
  rewrite app_assoc, chain_root_snoc. unfold join. by rewrite foldr_app.
Qed.

Lemma merkle_root_loop_below max ns rest root :
  Forall (λ n, n.1 < max) ns →
  merkle_root_loop max (reverse ns ++ rest) root = merkle_root_loop max rest (join ns root).
Proof.
  intros Hns. revert root. induction ns as [|[d r] ns IH] using rev_ind; intros root; [done|].
  rewrite Forall_app, Forall_singleton in Hns. destruct Hns as [Hns Hd]. simpl in Hd.
  rewrite reverse_snoc. simpl. rewrite (proj2 (Nat.leb_gt _ _)), IH by done.
  unfold join. by rewrite foldr_app.
Qed.

Lemma merkle_root_loop_stop max ns root :
  Forall (λ n, max ≤ n.1) ns → merkle_root_loop max (reverse ns) root = root.
Proof.
  intros Hns. destruct (exists_last_or_nil ns) as [->|(ns' & [d r] & ->)]; [done|].
  rewrite Forall_app, Forall_singleton in Hns. rewrite reverse_snoc. simpl.
  by rewrite (proj2 (Nat.leb_le _ _)) by apply Hns.
Qed.

(** [compute_merkle_root] is the root over the nodes below the depth. *)
Lemma compute_merkle_root_split max ns1 ns2 :
  Forall (λ n, max ≤ n.1) ns1 → Forall (λ n, n.1 < max) ns2 →
  compute_merkle_root (ns1 ++ ns2) max = chain_root ns2.
Proof.
  intros H1 H2. unfold compute_merkle_root.
  destruct (exists_last_or_nil ns2) as [->|(ns & [d r] & ->)].
  - rewrite app_nil_r. destruct (exists_last_or_nil ns1) as [->|(ns & [d r] & ->)]; [done|].
    rewrite Forall_app, Forall_singleton in H1. rewrite reverse_snoc. simpl.
    by rewrite (proj2 (Nat.leb_le _ _)) by apply H1.
  - rewrite Forall_app, Forall_singleton in H2. destruct H2 as [H2 Hd]. simpl in Hd.
    rewrite app_assoc, reverse_snoc. simpl. rewrite (proj2 (Nat.leb_gt _ _)) by done.
    rewrite reverse_app, merkle_root_loop_below, merkle_root_loop_stop, chain_root_snoc by done.
    done.
Qed.

Lemma chain_root_None ns : chain_root ns = None → ns = [].
Proof.
  destruct (exists_last_or_nil ns) as [->|(ns' & [d r] & ->)]; [done|].
  by rewrite chain_root_snoc.
Qed.

(** ** The search *)

(** The entries of a list of nodes of valid depths. *)
Definition node_entries (d : nat) : Z := 2 ^ Z.of_nat (d - 1).
Definition entries (ns : list (nat * E)) : Z := foldr (λ n acc, node_entries n.1 + acc)%Z 0%Z ns.
Definition depths_ok (ns : list (nat * E)) : Prop := Forall (λ n, 1 ≤ n.1 ≤ 64) ns.

Lemma num_entries_of_node_run d : 1 ≤ d ≤ 64 → num_entries_of_node d = Ok (node_entries d).
Proof.
  intros Hd. unfold num_entries_of_node, checked_sub, shl1, node_entries.
  rewrite decide_True by lia. cbn [res_bind]. rewrite (proj2 (Nat.ltb_lt _ _)) by lia. cbn [res_bind].
  by rewrite Nat2Z.inj_pow.
Qed.

Lemma node_entries_pos d : (0 < node_entries d)%Z.
Proof. unfold node_entries. apply Z.pow_pos_nonneg; lia. Qed.

Lemma entries_nonneg ns : (0 ≤ entries ns)%Z.
Proof. induction ns as [|n ns IH]; simpl; [lia|]. pose proof (node_entries_pos n.1). lia. Qed.

Lemma find_node_run start c ns total lem pth :
  depths_ok ns → (0 ≤ total)%Z → (total + entries ns < 2 ^ 64)%Z → (total ≤ start)%Z →
  ∃ node skip rest, find_node start c ns total lem pth =
      Ok (node, lem ++ skip.*2, pth ++ replicate (length skip) false) ∧
    Forall (λ n, c ≤ node_entries n.1)%Z skip ∧
    match node with
    | Some (d, r) => ns = skip ++ (d, r) :: rest ∧ (c ≤ node_entries d)%Z ∧
        (total + entries skip ≤ start < total + entries skip + node_entries d)%Z
    | None => ns = skip ++ rest ∧ (total + entries skip ≤ start)%Z ∧
        (∀ n, head rest = Some n → node_entries n.1 < c)%Z
    end.
Proof.
  intros Hd. revert total lem pth. induction Hd as [|[d r] ns Hn Hd IH]; intros total lem pth H0 Hb Hs.
  - exists None, [], []. simpl. rewrite !app_nil_r. split_and!; auto; [lia|done].
  - cbn [find_node]. simpl in Hn, Hb. rewrite num_entries_of_node_run by done. cbn [res_bind].
    pose proof (node_entries_pos d). pose proof (entries_nonneg ns).
    destruct (Z.ltb_spec (node_entries d) c) as [Hc|Hc].
    { exists None, [], ((d, r) :: ns). simpl. rewrite !app_nil_r.
      split_and!; auto; [lia|]. by intros n [= <-]. }
    unfold uadd. rewrite (proj2 (Z.ltb_lt _ _)) by lia. cbn [res_bind].
    destruct (Z.ltb_spec start (total + node_entries d)) as [Hin|Hout].
    { exists (Some (d, r)), [], ns. simpl. rewrite !app_nil_r. split_and!; auto; lia. }
    destruct (IH (total + node_entries d)%Z (lem ++ [r]) (pth ++ [false]))
      as (node & skip & rest & Hrun & Hsk & Hnode); [lia..|].
    exists node, ((d, r) :: skip), rest. rewrite Hrun. simpl. rewrite <- !app_assoc.
    split; [done|]. split; [by constructor|].
    destruct node as [[d' r']|]; destruct Hnode as (-> & ? & ?); split_and!; auto; lia.
Qed.

Lemma climb_join x ns :
  climb x (replicate (length ns) false) (reverse ns.*2) = join ns x.
Proof.
  revert x. induction ns as [|[d r] ns IH] using rev_ind; intros x; [done|].
  rewrite length_app, fmap_app, reverse_app. simpl.
  rewrite Nat.add_comm. simpl. rewrite climb_cons. unfold climb_step. simpl.
  rewrite IH. unfold join. by rewrite foldr_app.
Qed.

(** ** Node proofs *)

(** The subtrees of a file have strictly decreasing depths. *)
Fixpoint decr (ns : list (nat * E)) : Prop :=
  match ns with
  | [] => True
  | n :: ns => Forall (λ m, m.1 < n.1) ns ∧ decr ns
  end.

Lemma decr_split ns1 n ns2 :
  decr (ns1 ++ n :: ns2) → Forall (λ m, n.1 < m.1) ns1 ∧ Forall (λ m, m.1 < n.1) ns2.
Proof.
  induction ns1 as [|m ns1 IH]; simpl; intros [Hm Hd]; [done|].
  destruct (IH Hd) as [H1 H2]. split; [|done]. constructor; [|done].
  rewrite Forall_app, Forall_cons in Hm. apply Hm.
Qed.

(** The proof built from the leaf [x], the right sibling if any, and the nodes
    before it. *)
Definition chain_proof (ns : list (nat * E)) (right : option E) (x r : E) : FileProof E :=
  FileProof_new (x :: option_list right ++ reverse ns.*2 ++ [r])
    ((if right is Some _ then [true] else []) ++ replicate (length ns) false).

Lemma chain_proof_valid ns right x r :
  join ns (if right is Some y then parent x y else x) = r →
  ∃ p, fp_try_into (chain_proof ns right x r) = Ok p ∧ light_validate p = Ok true ∧
    light_item p = Ok x ∧ light_proof_root p = Ok r.
Proof.
  intros Hr. unfold chain_proof, FileProof_new.
  set (pth := (if right is Some _ then [true] else []) ++ replicate (length ns) false).
  set (sibs := option_list right ++ reverse ns.*2).
  assert (length pth = length sibs) as Hl.
  { subst pth sibs. rewrite !length_app, length_replicate, length_reverse, length_fmap.
    by destruct right. }
  assert (climb x pth sibs = r) as Hc.
  { rewrite <- Hr. subst pth sibs. destruct right as [y|]; simpl; [rewrite climb_cons|]; by rewrite climb_join. }
  replace (x :: option_list right ++ reverse ns.*2 ++ [r]) with (x :: sibs ++ [r])
    by (subst sibs; by rewrite <- app_assoc).
  clearbody pth sibs. unfold fp_try_into, LightProof_new. cbn [fp_lemma fp_path].
  destruct pth as [|b pth].
  { destruct sibs; [|done]. assert (x = r) as <- by exact Hc. by exists (MkLightProof [x] []). }
  cbn [fp_lemma fp_path].
  assert (length (x :: sibs ++ [r]) = length sibs + 2) as ->
    by (simpl; rewrite length_app; simpl; lia).
  rewrite Hl, (proj2 (Nat.ltb_lt 2 _)), !Nat.eqb_refl, Nat.add_sub, Nat.eqb_refl, orb_true_r
    by (simpl in Hl; lia).
  cbn [assert res_bind]. eexists. split; [done|].
  rewrite light_validate_form by (try done; intros ->; done). rewrite bool_decide_true by done.
  split_and!; [done|done|]. unfold light_proof_root. cbn [lp_lemma]. by rewrite last_cons, last_snoc.
Qed.

(** What the node proof shows: it leads from the subtree that holds the segment,
    or from the root over all the subtrees smaller than a segment. *)
Lemma compute_node_proof_run tx start k :
  decr (merkle_nodes tx) → depths_ok (merkle_nodes tx) → (entries (merkle_nodes tx) < 2 ^ 64)%Z →
  chain_root (merkle_nodes tx) = Some (data_merkle_root tx) → k < 64 →
  (0 ≤ start < entries (merkle_nodes tx))%Z →
  ∃ np p x, compute_node_proof tx start (2 ^ Z.of_nat k) = Ok np ∧
    fp_try_into (np_proof np) = Ok p ∧ light_validate p = Ok true ∧
    light_item p = Ok x ∧ light_proof_root p = Ok (data_merkle_root tx) ∧
    ∃ before, match np_leaf np with
    | Full d => ∃ after, merkle_nodes tx = before ++ (d, x) :: after ∧
        (entries before ≤ start < entries before + node_entries d)%Z
    | Partial => ∃ small, merkle_nodes tx = before ++ small ∧ chain_root small = Some x ∧
        Forall (λ n, n.1 ≤ k) small ∧ (entries before ≤ start)%Z
    end.
Proof.
  set (ns := merkle_nodes tx). intros Hdec Hdep Hent Hroot Hk Hs.
  destruct (find_node_run start (2 ^ Z.of_nat k) ns 0 [data_merkle_root tx] [])
    as (node & skip & rest & Hrun & Hskip & Hnode); [done|lia..|].
  unfold compute_node_proof. fold ns. rewrite Hrun. cbn [res_bind].
  destruct node as [[d r]|].
  - destruct Hnode as (Hns & Hc & Hin). rewrite Hns in Hdec.
    destruct (decr_split _ _ _ Hdec) as [Hbef Haft]. simpl in Hbef, Haft.
    assert (compute_merkle_root ns d = chain_root rest) as ->.
    { rewrite Hns. change (skip ++ (d, r) :: rest) with (skip ++ [(d, r)] ++ rest).
      rewrite app_assoc. apply compute_merkle_root_split; [|done].
      apply Forall_app. split; [|by apply Forall_singleton].
      eapply Forall_impl; [exact Hbef|]. simpl. lia. }
    assert (join skip (if chain_root rest is Some y then parent r y else r) = data_merkle_root tx) as Hj.
    { rewrite Hns in Hroot. destruct (chain_root rest) as [y|] eqn:Hy.
      - rewrite (chain_root_app skip _ (parent r y)) in Hroot; [by injection Hroot|].
        simpl. rewrite Hy. by destruct rest as [|[? ?] ?].
      - apply chain_root_None in Hy as ->. rewrite chain_root_snoc in Hroot. by injection Hroot. }
    destruct (chain_proof_valid skip (chain_root rest) r _ Hj) as (p & Hp).
    exists (MkNodeProof (chain_proof skip (chain_root rest) r (data_merkle_root tx)) (Full d)), p, r.
    split; [|split_and!; try apply Hp; exists skip, rest; by split].
    unfold chain_proof. destruct (chain_root rest) as [y|]; cbn [res_bind]; do 3 f_equal;
      rewrite ?reverse_app, ?reverse_cons, ?reverse_replicate; simpl; by rewrite ?app_nil_r.
  - destruct Hnode as (Hns & Hle & Hhead).
    assert (Forall (λ n, k + 1 ≤ n.1) skip) as Hbig.
    { rewrite Hns in Hdep. apply Forall_app in Hdep as [Hdep _].
      eapply Forall_impl; [apply Forall_and; split; [exact Hskip|exact Hdep]|].
      intros [d r] [Hc Hd]. simpl in *. unfold node_entries in Hc.
      apply Z.pow_le_mono_r_iff in Hc; lia. }
    assert (Forall (λ n, n.1 < k + 1) rest) as Hsmall.
    { destruct rest as [|[d r] rest]; [done|]. specialize (Hhead _ eq_refl). simpl in Hhead.
      rewrite Hns in Hdec. destruct (decr_split _ _ _ Hdec) as [_ Haft].
      unfold node_entries in Hhead. apply Z.pow_lt_mono_r_iff in Hhead; [|lia..].
      constructor; [simpl; lia|]. eapply Forall_impl; [exact Haft|]. simpl. lia. }
    assert (compute_merkle_root ns (k + 1) = chain_root rest) as Hcr
      by (rewrite Hns; by apply compute_merkle_root_split).
    rewrite log2_pow2_spec, Nat2Z.id, Hcr by lia.
    destruct (chain_root rest) as [x|] eqn:Hx.
    2: { apply chain_root_None in Hx as ->. rewrite app_nil_r in Hns. rewrite Hns in Hs. lia. }
    cbn [expect res_bind].
    assert (join skip x = data_merkle_root tx) as Hj.
    { rewrite Hns, (chain_root_app _ _ _ Hx) in Hroot. by injection Hroot. }
    destruct (chain_proof_valid skip None x _ Hj) as (p & Hp).
    exists (MkNodeProof (chain_proof skip None x (data_merkle_root tx)) Partial), p, x.
    split; [|split_and!; try apply Hp; exists skip, rest; split_and!; auto].
    + unfold chain_proof. do 3 f_equal;
        rewrite ?reverse_app, ?reverse_cons, ?reverse_replicate; simpl; by rewrite ?app_nil_r.
    + eapply Forall_impl; [exact Hsmall|]. simpl. lia.
Qed.

End Segments.
Arguments ChunkArrayWithProof : clear implicits.
Arguments NodeProof : clear implicits.
