(* ===== verification/FileTheorems.v ===== *)
(** * Files: main theorems

    The padding of files, the subtrees they are split into, file proofs and node
    proofs, each with a concrete instance. *)

From Stdlib Require Import Sorting.Sorted.
From S2P Require Import Prelude Bytes IonianSpec Hashing SharedTypes MerkleLight MerkleSpec LightSpec SegmentProof.

(** ** Sizes *)

(** For every file size from 1 byte to 2^64 - 1, [compute_padded_chunk_size]
    succeeds; the padded number of chunks holds the file, is at most the next
    power of two, is a multiple of a sixteenth of it, and wastes less than that
    sixteenth. *)
Theorem padded_chunks_bounds size_bytes :
  (0 < size_bytes < 2 ^ 64)%Z →
  let c := bytes_to_chunks size_bytes in
  let q := (2 ^ Z.log2_up c)%Z in
  ∃ p, compute_padded_chunk_size size_bytes = Ok (p, q) ∧
    (c ≤ p ≤ q ∧ p mod pad_unit q = 0 ∧ p - c < pad_unit q)%Z.
Proof. apply compute_padded_spec. Qed.

Lemma padded_chunks_bounds_witness :
  ∃ p, compute_padded_chunk_size 30000 = Ok (p, 128%Z) ∧
    (118 ≤ p ≤ 128 ∧ p mod 8 = 0 ∧ p - 118 < 8)%Z.
Proof. apply (padded_chunks_bounds 30000). lia. Defined.

(** [split_nodes] terminates on every file size and gives at most four
    subtrees, of strictly decreasing power-of-two sizes that add up to the padded
    number of chunks. *)
Theorem split_nodes_correct size_bytes :
  (0 < size_bytes < 2 ^ 64)%Z →
  ∃ p q js, compute_padded_chunk_size size_bytes = Ok (p, q) ∧
    split_nodes size_bytes = Ok (pow2s js) ∧ zsum (pow2s js) = p ∧
    StronglySorted gt js ∧ length js ≤ 4.
Proof. apply split_nodes_spec. Qed.

Lemma split_nodes_correct_witness :
  ∃ p q js, compute_padded_chunk_size 30000 = Ok (p, q) ∧
    split_nodes 30000 = Ok (pow2s js) ∧ zsum (pow2s js) = p ∧
    StronglySorted gt js ∧ length js ≤ 4.
Proof. apply split_nodes_correct. lia. Defined.

(** ** File proofs *)

Definition file_zero : term := TLeaf [].
Definition file_leaves : list term :=
  (λ i, TLeaf [i]) <$> [1; 2; 3; 4; 5; 6; 7]%Z.

Lemma file_zero_not_hash l r : parent l r ≠ file_zero.
Proof. discriminate. Qed.

(** C20: over at most 2^63 non-null leaves and a hash that is never null,
    [MerkleTree::new] builds the tree whose root is the reference root, in which
    the last node of an odd layer is carried up unchanged (the doc of [MerkleTree]
    says that it is hashed with itself), [gen_proof] succeeds for every leaf, and
    the proof, sent as a [FileProof], is accepted by [FileProof::validate] for that
    leaf, its position and the number of leaves. *)
Theorem file_proof_complete {E} `{HashElement E} `{!Algorithm E} (zero : E) V i x :
  (∀ l r : E, parent l r ≠ zero) → Forall (λ y, y ≠ zero) V →
  (Z.of_nat (length V) ≤ 2 ^ 63)%Z → V !! i = Some x →
  ∃ t r p, light_new zero V = Ok t ∧ light_root t = Ok r ∧ light_root_of V = Some r ∧
    light_gen_proof zero t i = Ok p ∧
    fp_validate (FileProof_new (lp_lemma p) (lp_path p)) x r (Z.of_nat i) (Z.of_nat (length V)) = Ok true.
Proof.
  intros Hz HV Hb Hx. destruct (light_new_run zero Hz V HV) as (t & Ht & Htree); [by intros ->|].
  destruct (light_gen_proof_run zero V t i x Htree Hx) as (r & Hroot & Hr & Hp).
  exists t, r, (light_proof_of V i x r). split_and!; auto. by apply fp_validate_generated.
Qed.

Lemma file_proof_complete_witness :
  ∃ t r p, light_new file_zero file_leaves = Ok t ∧ light_root t = Ok r ∧
    light_root_of file_leaves = Some r ∧ light_gen_proof file_zero t 6 = Ok p ∧
    fp_validate (FileProof_new (lp_lemma p) (lp_path p)) (TLeaf [7%Z]) r 6 7 = Ok true.
Proof.
  apply (file_proof_complete file_zero file_leaves 6 (TLeaf [7%Z]));
    [apply file_zero_not_hash|repeat constructor; discriminate|simpl; lia|reflexivity].
Defined.

(** C28: under collision resistance, a [FileProof] accepted against the root of a
    file of [n] chunks proves that the leaf is the one at the given position. *)
Theorem file_proof_sound {E} `{HashElement E} `{!Algorithm E} `{!CollisionFree E} V p x r pos :
  V ≠ [] → (Z.of_nat (length V) ≤ 2 ^ 63)%Z → light_root_of V = Some r →
  fp_validate p x r pos (Z.of_nat (length V)) = Ok true →
  ∃ i, pos = Z.of_nat i ∧ V !! i = Some x.
Proof. apply fp_validate_sound. Qed.

Definition file_root : term := default TNull (light_root_of file_leaves).
Definition file_sample_proof : FileProof term :=
  let p := light_proof_of file_leaves 4 (TLeaf [5%Z]) file_root in
  FileProof_new (lp_lemma p) (lp_path p).

Lemma file_proof_sound_witness : ∃ i, 4%Z = Z.of_nat i ∧ file_leaves !! i = Some (TLeaf [5%Z]).
Proof.
  apply (file_proof_sound file_leaves file_sample_proof (TLeaf [5%Z]) file_root 4);
    [discriminate|simpl; lia|reflexivity|vm_compute; reflexivity].
Defined.

(** For a file whose root is the chain over its subtrees, [compute_node_proof]
    succeeds for every segment start inside the file; its proof validates and ends
    in the file root, and it starts at the subtree that holds the segment, or at
    the root over all the subtrees smaller than a segment. *)
Theorem node_proof_correct {E} `{HashElement E} `{!Algorithm E} (tx : Transaction E) start k :
  decr (merkle_nodes tx) → depths_ok (merkle_nodes tx) → (entries (merkle_nodes tx) < 2 ^ 64)%Z →
  chain_root (merkle_nodes tx) = Some (data_merkle_root tx) → k < 64 →
  (0 ≤ start < entries (merkle_nodes tx))%Z →
  ∃ np p x, compute_node_proof tx start (2 ^ Z.of_nat k) = Ok np ∧
    fp_try_into (np_proof np) = Ok p ∧ light_validate p = Ok true ∧
    light_item p = Ok x ∧ light_proof_root p = Ok (data_merkle_root tx) ∧
    ∃ before, match np_leaf np with
    | Full d => ∃ after, merkle_nodes tx = before ++ (d, x) :: after ∧
        (entries before ≤ start < entries before + node_entries d)%Z
    | Partial => ∃ small, merkle_nodes tx = before ++ small ∧ chain_root small = Some x ∧
        Forall (λ n, n.1 ≤ k) small ∧ (entries before ≤ start)%Z
    end.
Proof. apply compute_node_proof_run. Qed.

Definition sample_tx : Transaction term :=
  MkTransaction [] [] (TNode (TLeaf [1%Z]) (TNode (TLeaf [2%Z]) (TLeaf [3%Z])))
    [(5, TLeaf [1%Z]); (4, TLeaf [2%Z]); (2, TLeaf [3%Z])] 1 6000 1.

Lemma node_proof_correct_witness :
  ∃ np p x, compute_node_proof sample_tx 16 8 = Ok np ∧
    fp_try_into (np_proof np) = Ok p ∧ light_validate p = Ok true ∧
    light_item p = Ok x ∧ light_proof_root p = Ok (data_merkle_root sample_tx) ∧
    ∃ before, match np_leaf np with
    | Full d => ∃ after, merkle_nodes sample_tx = before ++ (d, x) :: after ∧
        (entries before ≤ 16 < entries before + node_entries d)%Z
    | Partial => ∃ small, merkle_nodes sample_tx = before ++ small ∧ chain_root small = Some x ∧
        Forall (λ n, n.1 ≤ 3) small ∧ (entries before ≤ 16)%Z
    end.
Proof.
  apply (node_proof_correct sample_tx 16 3).
  - repeat constructor.
  - repeat constructor; simpl; lia.
  - reflexivity.
  - reflexivity.
  - lia.
  - split; [lia|reflexivity].
Defined.
