(* ===== verification/FlowStore.v ===== *)
(** * The flow store: [node/storage/src/log_store/flow_store.rs]

    The entries of the flow, kept as load chunks ([EntryBatch]) in the database,
    the roots of the load chunks, and the queue of seal chunks that wait for
    sealing.  A column of the database is an abstract finite map ([FinMap]): the
    keys are indices, whose big-endian encoding keeps their order, and the values
    are kept decoded.  A batched write is applied at once, after the last step
    that can fail. *)

From stdpp Require Import fin_maps sorting.
From S2P Require Import Prelude Bytes IonianSpec Hashing MerkleRead AppendMerkle SharedTypes MerkleLight SealCodec SealInfo ChunkData EntryBatch.
#[local] Open Scope Z_scope.

(** ** Ordered maps *)

Definition key_le {A} (p q : Z * A) : Prop := p.1 ≤ q.1.
#[export] Instance key_le_dec {A} : RelDecision (key_le (A := A)).
Proof. intros p q. unfold key_le. apply _. Defined.

Section Ordered.
Context `{FinMap Z M}.

(** Iteration over a [BTreeMap] or over a column, in the order of the keys. *)
Definition ordered {A} (m : M A) : list (Z * A) :=
  merge_sort key_le (map_to_list m).

(** [iter(..).last()], the key. *)
Definition last_key {A} (m : M A) : option Z := fst <$> last (ordered m).
End Ordered.

(** ** Entries and leaves *)

(** [log_manager::bytes_to_entries]. *)
Definition bytes_to_entries (size_bytes : Z) : Z :=
  if size_bytes mod BYTES_PER_SECTOR =? 0 then size_bytes / BYTES_PER_SECTOR
  else size_bytes / BYTES_PER_SECTOR + 1.

(** [(first..end).step_by(step)] *)
Definition step_by (first end_ step : Z) : list Z :=
  (λ k, first + k * step) <$> seqZ 0 ((end_ - first + step - 1) / step).

Definition batch_iter (start end_ batch_size : Z) : res (list (Z * Z)) :=
  if batch_size =? 0 then Panic "attempt to divide by zero" else
  res_map (λ i,
      let? next := uadd 64 i batch_size in
      Ok (Z.max start i, Z.min end_ next))
    (step_by (start / batch_size * batch_size) end_ batch_size).

Section Leaves.
Context {E : Type} `{HashElement E} `{!Algorithm E} (zero : E).

Definition data_to_merkle_leaves (leaf_data : list Z) : res (list E) :=
  if negb (zlen leaf_data mod BYTES_PER_SECTOR =? 0)
  then Err "merkle_tree: unmatch data size"
  else Ok (leaf_hash <$> chunks (Z.to_nat BYTES_PER_SECTOR) leaf_data).

Definition sub_merkle_tree (leaf_data : list Z) : res (LightTree E) :=
  let? leaves := data_to_merkle_leaves leaf_data in
  light_new zero leaves.

(** ** Roots of load chunks *)

Context (keccak : list Z → list Z) {B : Type} `{BitmapOps B}.

Definition build_root_for_first_chunk (e : EntryBatch B) : res (option E) :=
  match eb_data e with
  | Complete _ => Err "Unexpected first batch"
  | Incomplete _ =>
      let? raw_data := get_unsealed_data keccak e 1 (SECTORS_PER_LOAD - 1) in
      match raw_data with
      | None => Ok None
      | Some raw_data =>
          let? leaves := data_to_merkle_leaves raw_data in
          let? tree := new (zero :: leaves) 0 None in
          let? root := tree_root tree in
          Ok (Some root)
      end
  end.

Definition build_root (is_first_chunk : bool) (e : EntryBatch B) : res (option E) :=
  if is_first_chunk then build_root_for_first_chunk e
  else
    let? raw_data := get_unsealed_data keccak e 0 SECTORS_PER_LOAD in
    match raw_data with
    | None => Ok None
    | Some raw_data =>
        let? tree := sub_merkle_tree raw_data in
        let? root := light_root tree in
        Ok (Some root)
    end.
End Leaves.

(** [enum BatchRoot]. *)
Inductive BatchRoot (E : Type) : Type :=
| Single (root : E)
| Multiple (t : nat * E).
Arguments Single {E}.
Arguments Multiple {E}.

(** [struct SealTask] and [struct MineLoadChunk] of [log_store/mod.rs]. *)
Record SealTask : Type := MkSealTask {
  st_seal_index : Z;
  st_version : Z;
  non_sealed_data : list Z;
}.

Record MineLoadChunk : Type := MkMineLoadChunk {
  loaded_chunk : list (list Z);
  avalibilities : list bool;
}.
Definition MineLoadChunk_default : MineLoadChunk :=
  MkMineLoadChunk (zreplicate SEALS_PER_LOAD (zreplicate BYTES_PER_SEAL 0))
    (zreplicate SEALS_PER_LOAD false).

Section Store.
Context {E : Type} `{HashElement E} `{!Algorithm E} (zero : E).
Context (keccak : list Z → list Z) {B : Type} `{BitmapOps B}.
Context `{FinMap Z M}.

(** ** [struct FlowDBStore]: the columns [COL_ENTRY_BATCH] and
    [COL_ENTRY_BATCH_ROOT] *)

Record FlowDBStore : Type := MkFlowDBStore {
  entry_batches : M (EntryBatch B);
  batch_roots : M (BatchRoot E);
}.

Definition get_entry_batch (db : FlowDBStore) (batch_index : Z) : option (EntryBatch B) :=
  entry_batches db !! batch_index.
Definition get_batch_root (db : FlowDBStore) (batch_index : Z) : option (BatchRoot E) :=
  batch_roots db !! batch_index.

Definition write_batch (db : FlowDBStore) (x : Z * EntryBatch B) : FlowDBStore :=
  MkFlowDBStore (<[x.1 := x.2]> (entry_batches db)) (batch_roots db).
Definition write_root (db : FlowDBStore) (x : Z * BatchRoot E) : FlowDBStore :=
  MkFlowDBStore (entry_batches db) (<[x.1 := x.2]> (batch_roots db)).
Definition delete_batch (db : FlowDBStore) (batch_index : Z) : FlowDBStore :=
  MkFlowDBStore (delete batch_index (entry_batches db)) (batch_roots db).
Definition delete_root (db : FlowDBStore) (batch_index : Z) : FlowDBStore :=
  MkFlowDBStore (entry_batches db) (delete batch_index (batch_roots db)).

Definition db_put_batch_root (batch_index : Z) (root : E) (length : nat) : st FlowDBStore unit :=
  st_modify (λ db, write_root db
    (batch_index, if (length =? 1)%nat then Single root else Multiple (length, root))).

(** One iteration of the loop of [put_entry_batch_list]: the transaction so far
    and [completed_batches]. *)
Definition put_entry_step (acc : FlowDBStore * list (Z * E)) (x : Z * EntryBatch B)
    : res (FlowDBStore * list (Z * E)) :=
  let '(tx, completed_batches) := acc in
  let '(batch_index, batch) := x in
  let tx := write_batch tx (batch_index, batch) in
  let? root := build_root zero keccak (batch_index =? 0) batch in
  match root with
  | Some root =>
      Ok (write_root tx (batch_index, Single root), completed_batches ++ [(batch_index, root)])
  | None => Ok (tx, completed_batches)
  end.

Definition put_entry_batch_list (batch_list : list (Z * EntryBatch B))
    : st FlowDBStore (list (Z * E)) :=
  let! db := st_get in
  let! r := st_lift (res_foldl put_entry_step (db, []) batch_list) in
  st_put r.1;; st_ret r.2.

Definition put_entry_raw (batch_list : list (Z * EntryBatch B)) : st FlowDBStore unit :=
  st_modify (λ db, foldl write_batch db batch_list).

(** The part of [FlowDBStore::truncate] for the batch that is cut: the
    transaction, [index_to_reseal] and the next [start_batch_index]. *)
Definition truncate_first (db : FlowDBStore) (start_batch_index first_batch_offset : Z)
    : res (FlowDBStore * list Z * Z) :=
  if first_batch_offset =? 0 then Ok (db, [], start_batch_index)
  else
    match get_entry_batch db start_batch_index with
    | None => Ok (db, [], start_batch_index + 1)
    | Some first_batch =>
        let? '(first_batch, to_reseal) := eb_truncate keccak first_batch_offset first_batch in
        let index_to_reseal := (λ x, start_batch_index * SEALS_PER_LOAD + x) <$> to_reseal in
        let tx :=
          if negb (eb_is_empty first_batch)
          then write_batch db (start_batch_index, first_batch)
          else delete_batch db start_batch_index in
        Ok (tx, index_to_reseal, start_batch_index + 1)
    end.

Definition db_truncate (start_index batch_size : Z) : st FlowDBStore (list Z) :=
  let! db := st_get in
  if batch_size =? 0 then st_lift (Panic "attempt to divide by zero") else
  let! r := st_lift (truncate_first db (start_index / batch_size) (start_index mod batch_size)) in
  let '(tx, index_to_reseal, start_batch_index) := r in
  match last_key (entry_batches db) with
  | None => st_ret index_to_reseal
  | Some end_ =>
      let indices := seqZ start_batch_index (end_ + 1 - start_batch_index) in
      st_put (foldl (λ db i, delete_root (delete_batch db i) i) tx indices);;
      st_ret index_to_reseal
  end.

(** ** [struct FlowStore] *)

Record FlowStore : Type := MkFlowStore {
  db : FlowDBStore;
  to_seal_set : M Z;
  to_seal_version : Z;
  batch_size : Z;
}.

Definition set_db (d : FlowDBStore) (fs : FlowStore) : FlowStore :=
  MkFlowStore d (to_seal_set fs) (to_seal_version fs) (batch_size fs).
Definition set_to_seal (m : M Z) (fs : FlowStore) : FlowStore :=
  MkFlowStore (db fs) m (to_seal_version fs) (batch_size fs).

Definition FlowStore_new (d : FlowDBStore) (batch_size : Z) : FlowStore :=
  MkFlowStore d ∅ 0 batch_size.

Definition put_batch_root (batch_index : Z) (root : E) (length : nat) : st FlowStore unit :=
  st_zoom db set_db (db_put_batch_root batch_index root length).

(** ** [impl FlowRead] *)

(** The range inside a batch; the first entry of the flow is not stored. *)
Definition batch_range (fs : FlowStore) (start_entry_index end_entry_index : Z) : res (Z * Z * Z) :=
  let chunk_index := start_entry_index / batch_size fs in
  let? offset := usub start_entry_index (chunk_index * batch_size fs) in
  let? length := usub end_entry_index start_entry_index in
  if (chunk_index =? 0) && (offset =? 0) then
    let? length := usub length 1 in
    Ok (chunk_index, 1, length)
  else Ok (chunk_index, offset, length).

Fixpoint get_entries_loop (fs : FlowStore) (data : list Z) (batches : list (Z * Z))
    : res (option (list Z)) :=
  match batches with
  | [] => Ok (Some data)
  | (start_entry_index, end_entry_index) :: batches =>
      let? '(chunk_index, offset, length) := batch_range fs start_entry_index end_entry_index in
      match get_entry_batch (db fs) chunk_index with
      | None => Ok None
      | Some entry_batch =>
          let? entry_batch_data := get_unsealed_data keccak entry_batch offset length in
          match entry_batch_data with
          | None => Ok None
          | Some entry_batch_data => get_entries_loop fs (data ++ entry_batch_data) batches
          end
      end
  end.

Definition get_entries (fs : FlowStore) (index_start index_end : Z) : res (option ChunkArray) :=
  if index_end <=? index_start then Err "invalid entry index"
  else
    let? batches := batch_iter index_start index_end (batch_size fs) in
    let? data := get_entries_loop fs [] batches in
    Ok (d ← data; Some (MkChunkArray d index_start)).

(** Appending the list of a batch, its first element merged with the last one
    when they are adjacent. *)
Definition merge_data_list (entry_list data_list : list ChunkArray) : list ChunkArray :=
  match data_list with
  | [] => entry_list
  | d :: data_list' =>
      match last entry_list with
      | Some l =>
          if start_index l + bytes_to_entries (zlen (ca_data l)) =? start_index d
          then <[(length entry_list - 1)%nat :=
                  MkChunkArray (ca_data l ++ ca_data d) (start_index l)]> entry_list ++ data_list'
          else entry_list ++ data_list
      | None => data_list
      end
  end.

Definition available_step (fs : FlowStore) (entry_list : list ChunkArray) (x : Z * Z)
    : res (list ChunkArray) :=
  match get_entry_batch (db fs) (x.1 / batch_size fs) with
  | None => Ok entry_list
  | Some b =>
      let? data_list := into_data_list keccak b x.1 in
      Ok (merge_data_list entry_list data_list)
  end.

Definition get_available_entries (fs : FlowStore) (index_start index_end : Z)
    : res (list ChunkArray) :=
  if batch_size fs =? 0 then Panic "attempt to calculate the remainder with a divisor of zero"
  else if (index_end <=? index_start) || negb (index_start mod batch_size fs =? 0)
     || negb (index_end mod batch_size fs =? 0)
  then Err "invalid entry index"
  else
    let? batches := batch_iter index_start index_end (batch_size fs) in
    res_foldl (available_step fs) [] batches.

(** The [while let] loop; the roots are at distinct indices, so their number
    bounds the iterations. *)
Fixpoint chunk_root_loop (fuel : nat) (fs : FlowStore) (i : Z) : list (nat * E) :=
  match fuel with
  | O => []
  | S fuel =>
      match get_batch_root (db fs) i with
      | None => []
      | Some root =>
          (match root with Single r => (1%nat, r) | Multiple t => t end)
            :: chunk_root_loop fuel fs (i + 1)
      end
  end.
Definition get_chunk_root_list (fs : FlowStore) : list (nat * E) :=
  chunk_root_loop (size (batch_roots (db fs))) fs 0.

Definition load_sealed_step (batch : EntryBatch B) (mine_chunk : MineLoadChunk) (seal_index : Z)
    : res MineLoadChunk :=
  let? data := get_sealed_data batch (as_u16 seal_index) in
  Ok (match data with
      | Some data =>
          MkMineLoadChunk (<[Z.to_nat seal_index := data]> (loaded_chunk mine_chunk))
            (<[Z.to_nat seal_index := true]> (avalibilities mine_chunk))
      | None => mine_chunk
      end).

Definition load_sealed_data (fs : FlowStore) (chunk_index : Z) : res (option MineLoadChunk) :=
  match get_entry_batch (db fs) chunk_index with
  | None => Ok None
  | Some batch =>
      let? mine_chunk := res_foldl (load_sealed_step batch) MineLoadChunk_default
                           (seqZ 0 SEALS_PER_LOAD) in
      Ok (Some mine_chunk)
  end.

(** ** [impl FlowWrite] *)

(** One iteration of the loop of [append_entries]: the updated batch. *)
Definition append_batch (data : ChunkArray) (x : Z * Z) : st FlowStore (Z * EntryBatch B) :=
  let! chunk := st_lift (expect (sub_array data x.1 x.2) "in range") in
  let! fs := st_get in
  let chunk_index := start_index chunk / batch_size fs in
  let batch := default (EntryBatch_new chunk_index) (get_entry_batch (db fs) chunk_index) in
  let '(r, batch) := eb_insert_data (start_index chunk mod batch_size fs) (ca_data chunk) batch in
  let! completed_seals := st_lift r in
  st_put (set_to_seal
    (foldl (λ m x, <[chunk_index * SEALS_PER_LOAD + x := to_seal_version fs]> m)
       (to_seal_set fs) completed_seals) fs);;
  st_ret (chunk_index, batch).

Fixpoint append_batches (data : ChunkArray) (batches : list (Z * Z))
    : st FlowStore (list (Z * EntryBatch B)) :=
  match batches with
  | [] => st_ret []
  | x :: batches =>
      let! b := append_batch data x in
      let! bs := append_batches data batches in
      st_ret (b :: bs)
  end.

Definition append_entries (data : ChunkArray) : st FlowStore (list (Z * E)) :=
  if negb (zlen (ca_data data) mod BYTES_PER_SECTOR =? 0)
  then st_lift (Err "append_entries: invalid data size")
  else
    let! fs := st_get in
    let! end_ := st_lift (uadd 64 (start_index data) (bytes_to_entries (zlen (ca_data data)))) in
    let! batches := st_lift (batch_iter (start_index data) end_ (batch_size fs)) in
    let! batch_list := append_batches data batches in
    st_zoom db set_db (put_entry_batch_list batch_list).

(** [BTreeMap::split_off] keeps the keys below the argument in place. *)
Definition truncate (start_index : Z) : st FlowStore unit :=
  let! fs := st_get in
  let! to_reseal := st_zoom db set_db (db_truncate start_index (batch_size fs)) in
  st_modify (λ fs,
    let kept := filter (λ p, p.1 < start_index / SECTORS_PER_SEAL) (to_seal_set fs) in
    let version := to_seal_version fs + 1 in
    MkFlowStore (db fs) (foldl (λ m x, <[x := version]> m) kept to_reseal) version (batch_size fs)).

(** ** [impl FlowSeal] *)

Fixpoint seal_tasks (batch_data : EntryBatch B) (todo : list (Z * Z)) : res (list SealTask) :=
  match todo with
  | [] => Ok []
  | (seal_index, version) :: todo =>
      let? data := get_non_sealed_data batch_data (as_u16 (seal_index mod SEALS_PER_LOAD)) in
      let? non_sealed_data := expect data "Lost seal chunk in to_seal_set" in
      let? tasks := seal_tasks batch_data todo in
      Ok (MkSealTask seal_index version non_sealed_data :: tasks)
  end.

Definition pull_seal_chunk (fs : FlowStore) (seal_index_max : Z) : res (option (list SealTask)) :=
  match ordered (to_seal_set fs) with
  | [] => Ok None
  | (first_index, first_version) :: to_seal_iter =>
      if seal_index_max <=? first_index then Ok None
      else
        let? batch_data := expect (get_entry_batch (db fs) (first_index / SEALS_PER_LOAD))
                             "Lost data chunk in to_seal_set" in
        let? tasks := seal_tasks batch_data
          ((first_index, first_version) ::
           filter (λ p, first_index / SEALS_PER_LOAD = p.1 / SEALS_PER_LOAD ∧ p.1 < seal_index_max)
             to_seal_iter) in
        Ok (Some tasks)
  end.

Definition is_consistent (fs : FlowStore) (answer : SealAnswer) : bool :=
  match to_seal_set fs !! sa_seal_index answer with
  | Some cur_ver => cur_ver =? sa_version answer
  | None => false
  end.

Definition submit_group (fs : FlowStore) (x : Z * list SealAnswer) : res (Z * EntryBatch B) :=
  let? batch_chunk := expect (get_entry_batch (db fs) x.1) "Can not find chunk data" in
  let? batch_chunk := res_foldl (λ b answer, eb_submit_seal_result answer b) batch_chunk x.2 in
  Ok (x.1, batch_chunk).

(** [group_by] is [Itertools::group_by], which cuts the answers into runs with
    the same key. *)
Definition submit_seal_result
    (group_by : (SealAnswer → Z) → list SealAnswer → list (Z * list SealAnswer))
    (answers : list SealAnswer) : st FlowStore unit :=
  let! fs := st_get in
  let consistent := filter (λ a, is_consistent fs a = true) answers in
  let groups := group_by (λ a, sa_seal_index a / SEALS_PER_LOAD) consistent in
  let! updated_chunk := st_lift (res_map (submit_group fs) groups) in
  st_modify (λ fs, set_to_seal
    (foldl (λ m a, delete (sa_seal_index a) m) (to_seal_set fs) consistent) fs);;
  st_zoom db set_db (put_entry_raw updated_chunk).
End Store.
Arguments FlowDBStore E B M : clear implicits.
Arguments FlowStore E B M : clear implicits.
