(* ===== verification/FlowReads.v ===== *)
(** * Reading the flow

    The flow store as a partial function from byte offsets of the whole flow to
    plain bytes.  [batch_iter] cuts a range of entries at the borders of the
    load chunks, and [get_entries] reads the range back. *)

From stdpp Require Import fin_maps sorting.
From S2P Require Import Prelude Bytes IonianSpec Hashing SharedTypes SealCodec SealInfo ChunkData ChunkRuns EntryBatch EntryBatchProofs FlowStore.
#[local] Open Scope Z_scope.

(** ** Ordered maps *)

Section Ordered.
Context `{FinMap Z M}.

Lemma elem_of_ordered {A} (m : M A) k x : (k, x) ∈ ordered m ↔ m !! k = Some x.
Proof.
  unfold ordered. rewrite (merge_sort_Permutation key_le (map_to_list m)).
  apply elem_of_map_to_list.
Qed.

#[local] Instance key_le_total {A} : Total (key_le (A := A)).
Proof. intros p q. unfold key_le. lia. Qed.
#[local] Instance key_le_trans {A} : Transitive (key_le (A := A)).
Proof. intros p q r. unfold key_le. lia. Qed.

Lemma ordered_sorted {A} (m : M A) : StronglySorted key_le (ordered m).
Proof. apply (StronglySorted_merge_sort key_le). Qed.

Lemma last_key_Some {A} (m : M A) k :
  last_key m = Some k → is_Some (m !! k) ∧ ∀ j, is_Some (m !! j) → j ≤ k.
Proof.
  unfold last_key. intros Hk. apply fmap_Some in Hk as ([k' x] & Hl & ->). simpl.
  apply last_Some in Hl as [l Hl]. split.
  - exists x. apply elem_of_ordered. rewrite Hl. set_solver.
  - intros j [y Hy%elem_of_ordered]. pose proof (ordered_sorted m) as Hs. rewrite Hl in Hy, Hs.
    apply StronglySorted_app in Hs as (Hs & _ & _).
    apply elem_of_app in Hy as [Hy|Hy%list_elem_of_singleton]; [|by simplify_eq].
    apply (Hs (j, y) (k', x) Hy). set_solver.
Qed.

Lemma last_key_None {A} (m : M A) : last_key m = None → m = ∅.
Proof.
  unfold last_key. intros Hk%fmap_None. apply last_None in Hk. apply map_empty. intros i.
  destruct (m !! i) as [x|] eqn:Hi; [|done]. apply elem_of_ordered in Hi. rewrite Hk in Hi. set_solver.
Qed.
End Ordered.

(** ** Ranges cut at batch borders *)

(** [l] is the range of entries [s .. e) cut at the multiples of [bs]. *)
Inductive batches (bs : Z) : Z → Z → list (Z * Z) → Prop :=
| batches_nil s : batches bs s s []
| batches_cons s m e l :
    s < m → m ≤ (s / bs + 1) * bs → m = e ∨ m mod bs = 0 → batches bs m e l →
    batches bs s e ((s, m) :: l).

Lemma batches_le bs s e l : batches bs s e l → s ≤ e.
Proof. induction 1; lia. Qed.

Lemma batches_empty bs s l : batches bs s s l → l = [].
Proof.
  inversion 1 as [|? m ? ? ? ? ? Hb]; subst; [done|]. apply batches_le in Hb. lia.
Qed.

Lemma batches_elem bs s e l a b :
  batches bs s e l → (a, b) ∈ l →
  s ≤ a ∧ a < b ≤ e ∧ b ≤ (a / bs + 1) * bs ∧ (a = s ∨ a mod bs = 0) ∧ (b = e ∨ b mod bs = 0).
Proof.
  induction 1 as [s|s m e l Hsm Hm Hcut Hb IH]; [set_solver|].
  pose proof (batches_le _ _ _ _ Hb) as Hme. intros [[= -> ->]|Hin]%elem_of_cons.
  { split; [done|]. split; [lia|]. split; [done|]. split; [by left|done]. }
  destruct (IH Hin) as (Hma & Hab & Hbm & Ha & Hbe). split; [clear - Hsm Hma; lia|].
  do 2 (split; [assumption|]). split; [|assumption].
  destruct Ha as [Ha|Ha]; [|right; exact Ha].
  subst a. destruct Hcut as [Hcut|Hcut]; [|right; exact Hcut].
  exfalso. clear - Hab Hcut. lia.
Qed.

(** The batches that a range touches. *)
Lemma batches_indices s e l :
  batches 1024 s e l → s < e →
  (λ x, x.1 / 1024) <$> l = seqZ (s / 1024) ((e - 1) / 1024 - s / 1024 + 1).
Proof.
  induction 1 as [s|s m e l Hsm Hm Hcut Hb IH]; [lia|]. intros _. cbn [fmap list_fmap fst].
  pose proof (batches_le _ _ _ _ Hb) as Hme. rewrite seqZ_cons by dlia. f_equal.
  destruct (decide (m = e)) as [->|Hne].
  - rewrite (batches_empty _ _ _ Hb). simpl. replace ((e - 1) / 1024) with (s / 1024) by dlia.
    rewrite Z.sub_diag. done.
  - destruct Hcut as [|Hcut]; [done|]. rewrite IH by lia.
    replace (m / 1024) with (Z.succ (s / 1024)) by dlia. f_equal. lia.
Qed.

Lemma step_by_nil first e bs : 0 < bs → e ≤ first → step_by first e bs = [].
Proof.
  intros Hbs He. unfold step_by, seqZ.
  replace (Z.to_nat ((e - first + bs - 1) / bs)) with 0%nat; [done|].
  assert ((e - first + bs - 1) / bs < 1) by (apply Z.div_lt_upper_bound; lia). lia.
Qed.

Lemma step_by_cons first e bs :
  0 < bs → first < e → step_by first e bs = first :: step_by (first + bs) e bs.
Proof.
  intros Hbs He. unfold step_by.
  replace ((e - first + bs - 1) / bs) with (1 + (e - (first + bs) + bs - 1) / bs).
  2: { replace (e - first + bs - 1) with (1 * bs + (e - (first + bs) + bs - 1)) by lia.
       rewrite Z.div_add_l by lia. done. }
  pose proof (Z.div_pos (e - (first + bs) + bs - 1) bs) as Hp.
  rewrite seqZ_cons by lia. cbn [fmap list_fmap]. f_equal; [lia|].
  replace (Z.pred (1 + (e - (first + bs) + bs - 1) / bs)) with ((e - (first + bs) + bs - 1) / bs) by lia.
  replace (Z.succ 0) with (1 + 0) by lia. rewrite <- fmap_add_seqZ, <- list_fmap_compose.
  apply list_fmap_ext. intros _ k _. simpl. lia.
Qed.

(** The batches from a border on. *)
Lemma batch_iter_aligned n start first e bs :
  0 < bs → start ≤ first ≤ e → first mod bs = 0 → e + bs ≤ 2 ^ 64 → e - first ≤ Z.of_nat n →
  ∃ l, res_map (λ i, let? next := uadd 64 i bs in Ok (Z.max start i, Z.min e next))
         (step_by first e bs) = Ok l ∧ batches bs first e l.
Proof.
  intros Hbs. revert first. induction n as [|n IH]; intros first Hs Hf Hov Hn.
  { assert (first = e) as -> by lia. rewrite step_by_nil by lia. exists []. split; [done|constructor]. }
  destruct (decide (first = e)) as [->|Hne].
  { rewrite step_by_nil by lia. exists []. split; [done|constructor]. }
  rewrite step_by_cons by lia. cbn [res_map]. unfold uadd at 1.
  rewrite (proj2 (Z.ltb_lt _ _)) by lia. cbn [res_bind]. rewrite Z.max_r by lia.
  assert (first / bs * bs = first) as Hdiv by (apply Z.div_exact in Hf; lia).
  destruct (decide (e ≤ first + bs)).
  - rewrite step_by_nil by lia. exists [(first, e)]. split; [by rewrite Z.min_l by lia|].
    constructor; [lia|lia|by left|constructor].
  - assert ((first + bs) mod bs = 0) as Hf' by (rewrite Z.add_mod, Z.mod_same, Hf by lia; done).
    destruct (IH (first + bs)) as (l & -> & Hb); [lia|done|lia|lia|].
    exists ((first, first + bs) :: l). split; [by rewrite Z.min_r by lia|].
    constructor; [lia|lia|by right|done].
Qed.

Lemma batch_iter_run s e bs :
  0 < bs → 0 ≤ s < e → e + bs ≤ 2 ^ 64 → ∃ l, batch_iter s e bs = Ok l ∧ batches bs s e l.
Proof.
  intros Hbs Hse Hov. unfold batch_iter. rewrite (proj2 (Z.eqb_neq _ _)) by lia.
  pose proof (Z.div_mod s bs ltac:(lia)) as Hdm. pose proof (Z.mod_pos_bound s bs Hbs) as Hmb.
  rewrite (Z.mul_comm bs) in Hdm. remember (s / bs * bs) as first eqn:Hfirst.
  rewrite step_by_cons by lia. cbn [res_map]. unfold uadd at 1.
  rewrite (proj2 (Z.ltb_lt _ _)) by lia. cbn [res_bind]. rewrite Z.max_l by lia.
  destruct (decide (e ≤ first + bs)).
  - rewrite step_by_nil by lia. exists [(s, e)]. split; [by rewrite Z.min_l by lia|].
    constructor; [lia|lia|by left|constructor].
  - assert ((first + bs) mod bs = 0) as Hf.
    { replace (first + bs) with ((s / bs + 1) * bs) by lia. by rewrite Z.mod_mul by lia. }
    destruct (batch_iter_aligned (Z.to_nat (e - first)) s (first + bs) e bs) as (l & -> & Hb);
      [lia|lia|done|lia|lia|].
    exists ((s, first + bs) :: l). split; [by rewrite Z.min_r by lia|].
    constructor; [lia|lia|by right|done].
Qed.

(** ** Reads *)

Lemma read_range_app f i n m :
  0 ≤ n → 0 ≤ m →
  read_range f i (n + m) = l1 ← read_range f i n; l2 ← read_range f (i + n) m; Some (l1 ++ l2).
Proof.
  intros Hn Hm. unfold read_range. rewrite seqZ_app by lia.
  induction (seqZ i n) as [|k l IH]; simpl; [by destruct (mapM f _)|].
  destruct (f k); simpl; [|done]. rewrite IH. destruct (mapM f l); simpl; [|done].
  destruct (mapM f (seqZ (i + n) m)); simpl; [done|done].
Qed.

Section Reads.
Context (keccak : list Z → list Z) (keccak_len : ∀ x, length (keccak x) = 32%nat).
Context {B : Type} `{BitmapOps B} `{!BitmapLaws B}.
Context `{FinMap Z M} {E : Type}.
Implicit Types (fs : FlowStore E B M) (plain : Z → option Z).

(** The plain bytes of load chunk [i]. *)
Definition chunk_plain plain (i k : Z) : option Z := plain (i * 262144 + k).

(** [plain] is the content of the flow: each load chunk stores its part, and a
    missing load chunk has no data. *)
Record flow_models fs plain : Prop := {
  fm_size : batch_size fs = 1024;
  fm_batch i e : get_entry_batch (db fs) i = Some e →
    0 ≤ i ∧ eb_models keccak e (chunk_plain plain i);
  fm_missing i k : get_entry_batch (db fs) i = None → 0 ≤ i → 0 ≤ k < 262144 →
    chunk_plain plain i k = None;
}.

(** A read that starts at entry [a] does not start at a sealed seal chunk. *)
Definition readable fs (a : Z) : Prop :=
  ∀ e, get_entry_batch (db fs) (a / 1024) = Some e →
    a mod 16 ≠ 0 ∨ is_sealed (eb_seal e) (a mod 1024 / 16) = false.

Lemma chunk_plain_range plain i s n :
  read_range (chunk_plain plain i) s n = read_range plain (i * 262144 + s) n.
Proof.
  unfold read_range, chunk_plain. rewrite <- (fmap_add_seqZ (i * 262144) s n).
  induction (seqZ s n) as [|k l IH]; simpl; [done|]. by rewrite IH.
Qed.

(** Reading a range inside one load chunk. *)
Lemma get_batch_run fs plain a b :
  flow_models fs plain → 0 ≤ a < b → b ≤ (a / 1024 + 1) * 1024 → readable fs a →
  match get_entry_batch (db fs) (a / 1024) with
  | None => Ok None
  | Some e => get_unsealed_data keccak e (a - a / 1024 * 1024) (b - a)
  end = Ok (read_range plain (a * 256) ((b - a) * 256)).
Proof.
  intros Hm Hab Hb Hr. destruct (get_entry_batch (db fs) (a / 1024)) as [e|] eqn:He.
  - destruct (fm_batch _ _ Hm _ _ He) as [_ Hem].
    rewrite (get_unsealed_data_run keccak keccak_len e _ _ _ Hem), chunk_plain_range; [|dlia..|].
    + do 2 f_equal. dlia.
    + destruct (Hr e He) as [Hr'|Hr']; [left|right]; [dlia|].
      rewrite <- Hr'. do 2 f_equal. dlia.
  - f_equal. symmetry. apply read_range_None with (a * 256); [lia|].
    replace (a * 256) with (a / 1024 * 262144 + (a mod 1024) * 256) by dlia.
    apply (fm_missing _ _ Hm); [done|dlia|dlia].
Qed.

Lemma get_entries_loop_run fs plain s e l data :
  flow_models fs plain → batches 1024 s e l → 1 ≤ s →
  (∀ a, s ≤ a < e → a = s ∨ a mod 1024 = 0 → readable fs a) →
  get_entries_loop keccak fs data l =
  Ok (d ← read_range plain (s * 256) ((e - s) * 256); Some (data ++ d)).
Proof.
  intros Hm Hb. revert data. induction Hb as [s|s m e l Hsm Hm1 Hcut Hb IH]; intros data Hs Hr.
  - replace ((s - s) * 256) with 0 by lia. simpl. by rewrite app_nil_r.
  - pose proof (batches_le _ _ _ _ Hb) as Hle. cbn [get_entries_loop]. unfold batch_range.
    rewrite (fm_size _ _ Hm). unfold usub.
    rewrite (proj2 (Z.leb_le _ s)), (proj2 (Z.leb_le s m)) by dlia. cbn [res_bind].
    rewrite (proj2 (andb_false_iff (s / 1024 =? 0) _)) by (destruct (Z.eqb_spec (s / 1024) 0); [right|by left]; apply Z.eqb_neq; dlia).
    cbn [res_bind].
    pose proof (get_batch_run fs plain s m Hm ltac:(lia) Hm1 (Hr s ltac:(lia) ltac:(by left))) as Hget.
    replace ((e - s) * 256) with ((m - s) * 256 + (e - m) * 256) by lia.
    rewrite read_range_app by lia. replace (s * 256 + (m - s) * 256) with (m * 256) by lia.
    destruct (get_entry_batch (db fs) (s / 1024)) as [eb|].
    2: { injection Hget as <-. done. }
    rewrite Hget. cbn [res_bind]. destruct (read_range plain (s * 256) _) as [d|]; [|done].
    rewrite IH; [|lia|].
    + simpl. destruct (read_range plain (m * 256) _); simpl; [|done]. by rewrite (assoc_L (++)).
    + intros a Ha Ha'. apply Hr; [lia|]. right. destruct Ha' as [->|]; [|done].
      destruct Hcut as [->|]; [lia|done].
Qed.

Lemma get_entries_run fs plain s e :
  flow_models fs plain → 1 ≤ s < e → e + 1024 ≤ 2 ^ 64 →
  (∀ a, s ≤ a < e → a = s ∨ a mod 1024 = 0 → readable fs a) →
  get_entries keccak fs s e =
  Ok (d ← read_range plain (s * 256) ((e - s) * 256); Some (MkChunkArray d s)).
Proof.
  intros Hm Hse Hov Hr. unfold get_entries. rewrite (proj2 (Z.leb_gt _ _)) by lia.
  rewrite (fm_size _ _ Hm).
  destruct (batch_iter_run s e 1024) as (l & -> & Hb); [lia..|]. cbn [res_bind].
  rewrite (get_entries_loop_run fs plain s e) by (done || lia). simpl.
  by destruct (read_range plain _ _).
Qed.
End Reads.
