(* ===== verification/FlowWrites.v ===== *)
(** * Writing to the flow

    [append_entries] adds a free range to the content of the flow and returns
    the roots of the load chunks it completes; [truncate] cuts the content. *)

From stdpp Require Import fin_maps sorting.
From S2P Require Import Prelude Bytes IonianSpec Hashing MerkleProof MerkleRead AppendMerkle MerkleSpec MerkleAppend MerkleInclusion MerkleHistory SharedTypes MerkleLight LightSpec SealCodec SealInfo ChunkData ChunkRuns EntryBatch EntryBatchProofs FlowStore FlowReads.
#[local] Open Scope Z_scope.

Section Writes.
Context {E : Type} `{HashElement E} `{!Algorithm E} `{!NeverNull E} (zero : E) `{!FlowHashes E zero}.
Context (keccak : list Z → list Z) (keccak_len : ∀ x, length (keccak x) = 32%nat).
Context {B : Type} `{BitmapOps B} `{!BitmapLaws B}.
Context `{FinMap Z M}.
Implicit Types (fs : FlowStore E B M) (plain : Z → option Z).

(** ** The columns of the database *)

Lemma batch_of_write (d : FlowDBStore E B M) i e j :
  get_entry_batch (write_batch d (i, e)) j = if decide (j = i) then Some e else get_entry_batch d j.
Proof.
  unfold get_entry_batch, write_batch; simpl. case_decide; subst.
  - by rewrite lookup_insert_eq.
  - by rewrite lookup_insert_ne.
Qed.
Lemma root_of_write (d : FlowDBStore E B M) i r j :
  get_batch_root (write_root d (i, r)) j = if decide (j = i) then Some r else get_batch_root d j.
Proof.
  unfold get_batch_root, write_root; simpl. case_decide; subst.
  - by rewrite lookup_insert_eq.
  - by rewrite lookup_insert_ne.
Qed.

(** ** Roots of load chunks *)

(** The leaves of load chunk [i], when all its data is there; the first entry of
    the flow has no data and the leaf [zero]. *)
Definition leaves_of (bs : list Z) : list E := leaf_hash <$> chunks 256 bs.
Definition chunk_leaves plain (i : Z) : option (list E) :=
  if i =? 0 then bs ← read_range plain 256 261888; Some (zero :: leaves_of bs)
  else bs ← read_range plain (i * 262144) 262144; Some (leaves_of bs).

(** Its root. *)
Definition chunk_root plain (i : Z) : option E :=
  ls ← chunk_leaves plain i; head (layer_at 0 10 ls).

Lemma data_to_merkle_leaves_run bs :
  zlen bs mod 256 = 0 → data_to_merkle_leaves bs = Ok (leaves_of bs).
Proof. intros Hb. unfold data_to_merkle_leaves. spec_consts. by rewrite Hb. Qed.

Lemma length_leaves_of bs : zlen bs mod 256 = 0 → Z.of_nat (length (leaves_of bs)) = zlen bs / 256.
Proof.
  intros Hb. unfold leaves_of. rewrite length_fmap.
  destruct (chunks_even 256 ltac:(lia) bs (Z.to_nat (zlen bs / 256))) as [_ ->]; unfold zlen in *; dlia.
Qed.

Lemma leaves_of_lookup bs k :
  zlen bs mod 256 = 0 → Z.of_nat k < zlen bs / 256 →
  leaves_of bs !! k = Some (leaf_hash (ztake 256 (zdrop (Z.of_nat k * 256) bs))).
Proof.
  intros Hb Hk. unfold leaves_of. rewrite list_lookup_fmap, chunks_lookup by (unfold zlen in *; dlia).
  simpl. unfold ztake, zdrop. do 4 f_equal. lia.
Qed.

Lemma leaves_of_known bs : known (leaves_of bs).
Proof. apply Forall_fmap, Forall_true. intros. apply leaf_not_null. Qed.

(** The root of a file tree over 1024 leaves. *)
Lemma sub_merkle_root bs :
  zlen bs = 262144 →
  ∃ t r, sub_merkle_tree zero bs = Ok t ∧ light_root t = Ok r ∧
    head (layer_at 0 10 (leaves_of bs)) = Some r.
Proof.
  intros Hb. unfold sub_merkle_tree. rewrite data_to_merkle_leaves_run by (by rewrite Hb).
  pose proof (length_leaves_of bs) as Hl. rewrite Hb in Hl. specialize (Hl eq_refl).
  assert (length (leaves_of bs) = 1024)%nat as Hlen by dlia.
  cbn [res_bind]. destruct (light_new_run zero parent_not_zero (leaves_of bs)) as (t & Ht & Hof).
  { apply Forall_fmap, Forall_true. intros. apply leaf_not_zero. }
  { by destruct (leaves_of bs). }
  assert (is_Some (leaves_of bs !! 0%nat)) as [x Hx] by (apply lookup_lt_is_Some; lia).
  destruct (light_gen_proof_run zero (leaves_of bs) t 0 x Hof Hx) as (r & Hr & Hroot & _).
  exists t, r. split_and!; [done|done|].
  by rewrite <- (light_root_pow2 0 10) by (rewrite Hlen; done).
Qed.

(** The root of an append-only tree over 1024 leaves. *)
Lemma new_root (L : list E) :
  length L = 1024%nat → known L →
  ∃ t r, new L 0 None = Ok t ∧ tree_root t = Ok r ∧ head (layer_at 0 10 L) = Some r.
Proof.
  intros Hl Hk. destruct (new_run L 0 Hk) as (t & Ht & Heq).
  destruct (build_top 0 11 L) as (r & Htop & Hr); [by destruct L|by rewrite Hl|].
  exists t, r. change (11 - 1)%nat with 10%nat in *. split; [done|]. split; [|by rewrite Htop].
  assert (represents 11 L t) as Hrep.
  { pose proof (tree_layers_represents 1 L t Hk) as Hrep. rewrite Hl in Hrep. by rewrite Heq in Hrep |- *. }
  destruct (represents_reads _ _ _ Hrep) as (Hreads & _ & Hd).
  apply (tree_root_reads t (leaf_height t) 11 L Hreads); [done|]. by rewrite Heq.
Qed.

Lemma complete_bytes (e : EntryBatch B) plain d k :
  eb_models keccak e plain → eb_data e = Complete d → 0 ≤ k < 262144 → is_Some (plain k).
Proof.
  intros Hm Hd Hk. apply (models_same_domain keccak e _ k Hm Hk). rewrite Hd.
  pose proof (em_wf _ _ _ Hm) as Hwf. rewrite Hd in Hwf. apply piece_is_Some. simpl in *. lia.
Qed.

Lemma build_root_run plain i e :
  eb_models keccak e (chunk_plain plain i) → 0 ≤ i → (i = 0 → plain 0 = None) →
  (i ≠ 0 → is_sealed (eb_seal e) 0 = false) →
  build_root zero keccak (i =? 0) e = Ok (chunk_root plain i).
Proof.
  intros Hm Hi Hp0 Hs. unfold build_root, build_root_for_first_chunk, chunk_root, chunk_leaves.
  destruct (Z.eqb_spec i 0) as [->|Hne].
  - destruct (eb_data e) as [d|l] eqn:Hd.
    { destruct (complete_bytes e _ d 0 Hm Hd ltac:(lia)) as [b Hb].
      unfold chunk_plain in Hb. change (0 * 262144 + 0) with 0 in Hb.
      rewrite (Hp0 eq_refl) in Hb. done. }
    rewrite (get_unsealed_data_run keccak keccak_len e _ 1 (SECTORS_PER_LOAD - 1) Hm); [|slia..|by left].
    spec_consts. rewrite chunk_plain_range. change (0 * 262144 + 1 * 256) with 256.
    change ((1024 - 1) * 256) with 261888.
    destruct (read_range plain 256 261888) as [bs|] eqn:Hbs; [|done].
    apply read_range_zlen in Hbs; [|lia]. cbn [res_bind].
    rewrite data_to_merkle_leaves_run by (by rewrite Hbs). cbn [res_bind].
    destruct (new_root (zero :: leaves_of bs)) as (t & r & Ht & Hr & Hroot).
    { pose proof (length_leaves_of bs) as Hl. rewrite Hbs in Hl. specialize (Hl eq_refl).
      simpl. dlia. }
    { constructor; [apply zero_not_null|apply leaves_of_known]. }
    rewrite Ht. cbn [res_bind]. rewrite Hr. cbn [res_bind].
    change (Ok (Some r) = Ok (head (layer_at 0 10 (zero :: leaves_of bs)))). by rewrite Hroot.
  - rewrite (get_unsealed_data_run keccak keccak_len e _ 0 SECTORS_PER_LOAD Hm); [|slia..|].
    2: { right. by apply Hs. }
    spec_consts. change (0 * 256) with 0. change (1024 * 256) with 262144.
    rewrite chunk_plain_range, Z.add_0_r. destruct (read_range plain (i * 262144) 262144) as [bs|] eqn:Hbs; [|done].
    apply read_range_zlen in Hbs; [|lia]. destruct (sub_merkle_root bs Hbs) as (t & r & Ht & Hr & Hroot).
    cbn [res_bind]. rewrite Ht. cbn [res_bind]. rewrite Hr. cbn [res_bind].
    change (Ok (Some r) = Ok (head (layer_at 0 10 (leaves_of bs)))). by rewrite Hroot.
Qed.

(** ** [append_entries] *)

(** The content with [data] written at entry [start]. *)
Definition written (start : Z) (data : list Z) plain (k : Z) : option Z :=
  piece (MkPartial start data) k ∪ plain k.

Lemma eb_insert_seal offset data (e : EntryBatch B) : eb_seal (eb_insert_data offset data e).2 = eb_seal e.
Proof. unfold eb_insert_data, st_zoom. by destruct (ebd_insert_data _ _ _). Qed.

(** The part of the written data inside one load chunk. *)
Lemma written_chunk start data plain a b k :
  zlen data mod 256 = 0 → start ≤ a → a < b ≤ start + zlen data / 256 →
  b ≤ (a / 1024 + 1) * 1024 → (a = start ∨ a mod 1024 = 0) →
  (b = start + zlen data / 256 ∨ b mod 1024 = 0) → 0 ≤ start → 0 ≤ k < 262144 →
  piece (MkPartial (a mod 1024) (ztake ((b - a) * 256) (zdrop ((a - start) * 256) data))) k =
  piece (MkPartial start data) (a / 1024 * 262144 + k).
Proof.
  intros Hd Ha Hb Hbm Hca Hcb Hs Hk. unfold piece. cbn [start_sector pb_data].
  assert (a = a / 1024 * 1024 + a mod 1024) as Hdm by dlia.
  destruct (Z.leb_spec (a mod 1024 * 256) k), (Z.leb_spec (start * 256) (a / 1024 * 262144 + k)).
  - unfold ztake, zdrop. destruct (decide (k - a mod 1024 * 256 < (b - a) * 256)).
    + rewrite lookup_take_lt, lookup_drop by lia. f_equal. lia.
    + rewrite lookup_take_ge by lia. symmetry. apply lookup_ge_None. unfold zlen in *.
      destruct Hcb as [->|Hcb]; dlia.
  - dlia.
  - destruct Hca as [->|Hca]; dlia.
  - done.
Qed.

Lemma append_batch_run fs plain data a b :
  flow_models keccak fs plain → zlen (ca_data data) mod 256 = 0 → 0 ≤ start_index data →
  let s := start_index data in
  let e := s + zlen (ca_data data) / 256 in
  s ≤ a → a < b ≤ e → b ≤ (a / 1024 + 1) * 1024 → (a = s ∨ a mod 1024 = 0) →
  (b = e ∨ b mod 1024 = 0) → free plain (a * 256) ((b - a) * 256) →
  ∃ eb fs', append_batch data (a, b) fs = (Ok (a / 1024, eb), fs') ∧
    db fs' = db fs ∧ batch_size fs' = batch_size fs ∧
    eb_models keccak eb (chunk_plain (written s (ca_data data) plain) (a / 1024)) ∧
    (∀ old, get_entry_batch (db fs) (a / 1024) = Some old → eb_seal eb = eb_seal old) ∧
    (get_entry_batch (db fs) (a / 1024) = None → eb_seal eb = SealInfo_new (a / 1024)).
Proof.
  intros Hm Hd Hs0 s e Ha Hb Hbm Hca Hcb Hfree. unfold append_batch. cbn [fst snd].
  rewrite sub_array_spec by (unfold ca_chunks; slia). cbn [expect].
  unfold st_lift, st_bind, st_get. cbn [start_index ca_data]. rewrite (fm_size _ _ _ Hm).
  set (piece_data := ztake _ _).
  assert (zlen piece_data = (b - a) * 256) as Hlen.
  { unfold piece_data. rewrite zlen_ztake, zlen_zdrop by lia. unfold e, s in *. dlia. }
  set (old := default (EntryBatch_new (a / 1024)) (get_entry_batch (db fs) (a / 1024))).
  assert (eb_models keccak old (chunk_plain plain (a / 1024))) as Hold.
  { unfold old. destruct (get_entry_batch (db fs) (a / 1024)) as [x|] eqn:Hx; simpl.
    - by apply (fm_batch _ _ _ Hm).
    - apply (models_ext keccak _ (λ _, None)); [|exact (new_models keccak _)]. intros k Hk.
      symmetry. apply (fm_missing _ _ _ Hm); [done|dlia|done]. }
  assert (free (chunk_plain plain (a / 1024)) (a mod 1024 * 256) (zlen piece_data)) as Hfree'.
  { intros k Hk. unfold chunk_plain. apply Hfree. rewrite Hlen in Hk. dlia. }
  destruct (eb_insert_data_run keccak old _ (a mod 1024) piece_data Hold) as (idxs & eb & Hins & Hmod & _);
    [dlia|lia|rewrite Hlen; dlia|rewrite Hlen; dlia|done| |].
  { destruct (eb_data old) as [d|l] eqn:Hod; [|by eexists].
    destruct (complete_bytes old _ d (a mod 1024 * 256) Hold Hod ltac:(dlia)) as [y Hy].
    rewrite Hfree' in Hy by lia. done. }
  rewrite Hins. cbn. eexists eb, _. split; [done|]. split; [done|]. split; [exact (fm_size _ _ _ Hm)|].
  pose proof (eb_insert_seal (a mod 1024) piece_data old) as Hseal. rewrite Hins in Hseal. simpl in Hseal.
  split_and!.
  - eapply models_ext; [|exact Hmod]. intros k Hk. unfold chunk_plain, written. f_equal.
    by apply (written_chunk s (ca_data data)).
  - intros x Hx. rewrite Hseal. unfold old. by rewrite Hx.
  - intros Hx. rewrite Hseal. unfold old. by rewrite Hx.
Qed.
Lemma flow_models_db fs fs' plain :
  db fs' = db fs → batch_size fs' = batch_size fs → flow_models keccak fs plain →
  flow_models keccak fs' plain.
Proof. intros Hdb Hbs [H1' H2' H3']. split; rewrite ?Hdb, ?Hbs; done. Qed.

(** What the loop knows of an updated batch. *)
Definition updated fs plain (x : Z * EntryBatch B) : Prop :=
  eb_models keccak x.2 (chunk_plain plain x.1) ∧
  (∀ old, get_entry_batch (db fs) x.1 = Some old → eb_seal x.2 = eb_seal old) ∧
  (get_entry_batch (db fs) x.1 = None → eb_seal x.2 = SealInfo_new x.1).

Lemma append_batches_run fs plain data s' e l :
  let s := start_index data in
  e = s + zlen (ca_data data) / 256 →
  flow_models keccak fs plain → zlen (ca_data data) mod 256 = 0 → 0 ≤ s →
  batches 1024 s' e l → s ≤ s' → (s' = s ∨ s' = e ∨ s' mod 1024 = 0) →
  free plain (s * 256) (zlen (ca_data data)) →
  ∃ bs fs', append_batches data l fs = (Ok bs, fs') ∧
    db fs' = db fs ∧ batch_size fs' = batch_size fs ∧
    bs.*1 = (λ x, x.1 / 1024) <$> l ∧ Forall (updated fs (written s (ca_data data) plain)) bs.
Proof.
  intros s He Hm Hd Hs Hb Hss Hcs Hfree. revert fs Hm.
  induction Hb as [s'|s' m e l Hsm Hm1 Hcut Hb IH]; intros fs Hm.
  - exists [], fs. by split_and!.
  - pose proof (batches_le _ _ _ _ Hb) as Hle.
    destruct (append_batch_run fs plain data s' m) as (eb & fs1 & Hrun & Hdb & Hbs & Hmod & Hseal);
      [done|done|done|lia|fold s; lia|done| |fold s; rewrite <- He; exact Hcut| |].
    { destruct Hcs as [?|[?|?]]; [by left|lia|by right]. }
    { intros k Hk. apply Hfree. dlia. }
    cbn [append_batches]. unfold st_bind at 1. rewrite Hrun.
    destruct (IH He ltac:(lia) ltac:(tauto) fs1) as (bs & fs2 & Hrun2 & Hdb2 & Hbs2 & Hidx & Hup);
      [by apply (flow_models_db fs)|].
    unfold st_bind. rewrite Hrun2. eexists _, fs2. split; [done|]. rewrite Hdb2, Hbs2, Hdb, Hbs.
    split_and!; [done|done|by rewrite !fmap_cons, Hidx|]. constructor; [done|].
    eapply Forall_impl; [exact Hup|]. unfold updated. by rewrite Hdb.
Qed.

(** Data for a range that is not free is refused, and the database stays as it
    is. *)
Lemma append_batch_rejects fs plain data a b :
  flow_models keccak fs plain → zlen (ca_data data) mod 256 = 0 → 0 ≤ start_index data ≤ a →
  a < b ≤ start_index data + zlen (ca_data data) / 256 → b ≤ (a / 1024 + 1) * 1024 →
  ¬ free plain (a * 256) ((b - a) * 256) → ∃ e, append_batch data (a, b) fs = (Err e, fs).
Proof.
  intros Hm Hd Ha Hb Hbm Hno. unfold append_batch. cbn [fst snd].
  rewrite sub_array_spec by (unfold ca_chunks; slia). cbn [expect].
  unfold st_lift, st_bind, st_get. cbn [start_index ca_data]. rewrite (fm_size _ _ _ Hm).
  set (piece_data := ztake _ _).
  assert (zlen piece_data = (b - a) * 256) as Hlen.
  { unfold piece_data. rewrite zlen_ztake, zlen_zdrop by lia. dlia. }
  destruct (get_entry_batch (db fs) (a / 1024)) as [old|] eqn:Hold; simpl.
  - destruct (fm_batch _ _ _ Hm _ _ Hold) as [_ Hmod].
    destruct (insert_data_rejected (eb_data old) (a mod 1024 * 256) piece_data) as [msg Hrej];
      [apply (em_wf _ _ _ Hmod)|dlia|lia|rewrite Hlen; dlia| |].
    { destruct (eb_data old) as [d|l] eqn:Hod; [done|]. intros Hfree. apply Hno. intros k Hk.
      destruct (plain k) as [y|] eqn:Hy; [|done].
      assert (k = a / 1024 * 262144 + (k - a / 1024 * 262144)) as Hkk by lia.
      destruct (proj2 (models_same_domain keccak old _ (k - a / 1024 * 262144) Hmod ltac:(dlia))) as [z Hz].
      { unfold chunk_plain. rewrite <- Hkk, Hy. by eexists. }
      rewrite Hod in Hz. simpl in Hz. rewrite Hfree in Hz by (rewrite Hlen; dlia). done. }
    unfold eb_insert_data, st_zoom. spec_consts. rewrite Hrej. by eexists.
  - exfalso. apply Hno. intros k Hk.
    pose proof (fm_missing _ _ _ Hm _ (k - a / 1024 * 262144) Hold ltac:(dlia) ltac:(dlia)) as Hn.
    unfold chunk_plain in Hn. by replace (a / 1024 * 262144 + (k - a / 1024 * 262144)) with k in Hn by lia.
Qed.

Lemma append_batches_rejects fs plain data s' e l :
  let s := start_index data in
  e = s + zlen (ca_data data) / 256 →
  flow_models keccak fs plain → zlen (ca_data data) mod 256 = 0 → 0 ≤ s →
  batches 1024 s' e l → s ≤ s' → (s' = s ∨ s' = e ∨ s' mod 1024 = 0) →
  ¬ free plain (s' * 256) ((e - s') * 256) →
  ∃ err fs', append_batches data l fs = (Err err, fs') ∧ db fs' = db fs ∧ batch_size fs' = batch_size fs.
Proof.
  intros s He Hm Hd Hs Hb Hss Hcs Hno. revert fs Hm.
  induction Hb as [s'|s' m e l Hsm Hm1 Hcut Hb IH]; intros fs Hm.
  - exfalso. apply Hno. intros k Hk. lia.
  - pose proof (batches_le _ _ _ _ Hb) as Hle. cbn [append_batches]. unfold st_bind at 1.
    destruct (decide (free plain (s' * 256) ((m - s') * 256))) as [Hfree|Hfree].
    + destruct (append_batch_run fs plain data s' m) as (eb & fs1 & Hrun & Hdb & Hbs & _);
        [done|done|done|lia|fold s; lia|done| |fold s; rewrite <- He; exact Hcut|done|].
      { destruct Hcs as [?|[?|?]]; [by left|lia|by right]. }
      rewrite Hrun. destruct (IH He ltac:(lia) ltac:(tauto)) with (fs := fs1) as (err & fs2 & Hrun2 & Hdb2 & Hbs2).
      { intros Hrest. apply Hno. intros k Hk. destruct (decide (k < m * 256)); [apply Hfree; lia|apply Hrest; lia]. }
      { by apply (flow_models_db fs). }
      unfold st_bind. rewrite Hrun2. exists err, fs2. split; [done|]. split; congruence.
    + destruct (append_batch_rejects fs plain data s' m) as [err ->]; [done|done|fold s; lia|fold s; lia|done|done|].
      by exists err, fs.
Qed.

(** The roots of the completed load chunks among [idxs]. *)
Definition completed plain (idxs : list Z) : list (Z * E) :=
  omap (λ i, r ← chunk_root plain i; Some (i, r)) idxs.

Lemma put_entries_run plain l (d : FlowDBStore E B M) acc :
  Forall (λ x, eb_models keccak x.2 (chunk_plain plain x.1) ∧ 0 ≤ x.1 ∧
    (x.1 = 0 → plain 0 = None) ∧ (x.1 ≠ 0 → is_sealed (eb_seal x.2) 0 = false)) l →
  ∃ d', res_foldl (put_entry_step zero keccak) (d, acc) l =
      Ok (d', acc ++ completed plain l.*1) ∧
    (∀ j, j ∉ l.*1 → get_entry_batch d' j = get_entry_batch d j) ∧
    (∀ j, j ∈ l.*1 → ∃ eb, (j, eb) ∈ l ∧ get_entry_batch d' j = Some eb) ∧
    (∀ j, get_batch_root d' j =
       match chunk_root plain j with
       | Some r => if decide (j ∈ l.*1) then Some (Single r) else get_batch_root d j
       | None => get_batch_root d j
       end).
Proof.
  intros Hl. revert d acc. induction Hl as [|[i eb] l (Hm & Hi & Hz & Hs) Hl IH]; intros d acc.
  { exists d. simpl. rewrite app_nil_r. split_and!; [done|done|set_solver|].
    intros j. by destruct (chunk_root plain j). }
  cbn [fst snd] in *. rewrite fmap_cons. cbn [res_foldl put_entry_step fst].
  rewrite (build_root_run plain i eb) by done. cbn [res_bind].
  set (d1 := write_batch d (i, eb)).
  set (step := match chunk_root plain i with
               | Some r => (write_root d1 (i, Single r), acc ++ [(i, r)])
               | None => (d1, acc)
               end).
  destruct (IH step.1 step.2) as (d' & Hrun & Hout & Hin & Hroot).
  exists d'.
  assert (∀ j, get_entry_batch step.1 j = if decide (j = i) then Some eb else get_entry_batch d j) as Hb.
  { intros j. unfold step. by destruct (chunk_root plain i); apply (batch_of_write d i eb j). }
  assert (∀ j, get_batch_root step.1 j =
    if decide (j = i) then match chunk_root plain i with
                           | Some r => Some (Single r) | None => get_batch_root d j end
    else get_batch_root d j) as Hr.
  { intros j. unfold step. destruct (chunk_root plain i); simpl.
    - by rewrite root_of_write.
    - by destruct (decide (j = i)). }
  split_and!.
  - unfold step in Hrun. unfold completed in *. destruct (chunk_root plain i) as [r|] eqn:Hc; simpl in Hrun;
      cbn [res_bind]; fold d1; rewrite Hrun; simpl; rewrite Hc; simpl; [|done]. by rewrite <- (assoc_L (++)).
  - intros j Hj. rewrite Hout, Hb by set_solver. by rewrite decide_False by set_solver.
  - intros j Hj. destruct (decide (j ∈ l.*1)) as [Hjl|Hjl].
    + destruct (Hin j Hjl) as (eb' & ? & ?). exists eb'. split; [set_solver|done].
    + assert (j = i) as -> by set_solver. exists eb. split; [set_solver|].
      by rewrite Hout, Hb, decide_True.
  - intros j. rewrite Hroot, Hr. destruct (decide (j = i)) as [->|Hji].
    + destruct (chunk_root plain i); [|done]. repeat case_decide; set_solver.
    + destruct (chunk_root plain j); [|done]. repeat case_decide; set_solver.
Qed.

Lemma new_not_sealed i x : 0 ≤ x < 64 → is_sealed (SealInfo_new (B := B) i) x = false.
Proof. intros Hx. unfold is_sealed. simpl. by rewrite bm_get_bit, bm_default_value, Z.testbit_0_l by lia. Qed.

(** The load chunks that a range of entries touches. *)
Definition touched (s e : Z) : list Z := seqZ (s / 1024) ((e - 1) / 1024 - s / 1024 + 1).

Lemma elem_of_touched s e i : i ∈ touched s e ↔ s / 1024 ≤ i ≤ (e - 1) / 1024.
Proof. unfold touched. rewrite elem_of_seqZ. lia. Qed.

(** Outside the touched load chunks nothing changes. *)
Lemma written_outside s data plain i k :
  zlen data mod 256 = 0 → i ∉ touched s (s + zlen data / 256) → 0 ≤ k < 262144 →
  chunk_plain (written s data plain) i k = chunk_plain plain i k.
Proof.
  rewrite elem_of_touched. intros Hd Hi Hk. unfold chunk_plain, written.
  rewrite piece_None; [by destruct (plain _)|]. simpl. dlia.
Qed.

(** No load chunk changes its seals; a new one has none. *)
Definition seals_kept fs fs' : Prop :=
  ∀ i eb, get_entry_batch (db fs') i = Some eb →
    eb_seal eb = SealInfo_new i ∨
    ∃ old, get_entry_batch (db fs) i = Some old ∧ eb_seal eb = eb_seal old.

Lemma append_entries_rejects fs plain data :
  let s := start_index data in
  let e := s + zlen (ca_data data) / 256 in
  flow_models keccak fs plain → 0 < zlen (ca_data data) → zlen (ca_data data) mod 256 = 0 → 1 ≤ s → e + 1024 ≤ 2 ^ 64 →
  ¬ free plain (s * 256) (zlen (ca_data data)) →
  ∃ err fs', append_entries zero keccak data fs = (Err err, fs') ∧ db fs' = db fs ∧ flow_models keccak fs' plain.
Proof.
  intros s e Hm Hn Hd Hs Hov Hno. unfold append_entries. spec_consts.
  rewrite Hd. cbn [Z.eqb negb]. unfold st_bind, st_get, st_lift, uadd.
  assert (bytes_to_entries (zlen (ca_data data)) = zlen (ca_data data) / 256) as ->.
  { unfold bytes_to_entries. spec_consts. by rewrite Hd. }
  fold s e. rewrite (proj2 (Z.ltb_lt _ _)) by lia. rewrite (fm_size _ _ _ Hm).
  destruct (batch_iter_run s e 1024) as (l & -> & Hb); [lia|unfold e; dlia|lia|].
  destruct (append_batches_rejects fs plain data s e l) as (err & fs' & -> & Hdb & Hbs);
    [done|done|done|fold s; lia|done|fold s; lia|by left| |].
  { by replace ((e - s) * 256) with (zlen (ca_data data)) by (unfold e; dlia). }
  exists err, fs'. split_and!; [done..|]. by apply (flow_models_db fs).
Qed.

Lemma append_entries_run fs plain data :
  let s := start_index data in
  let e := s + zlen (ca_data data) / 256 in
  let plain' := written s (ca_data data) plain in
  flow_models keccak fs plain → plain 0 = None →
  0 < zlen (ca_data data) → zlen (ca_data data) mod 256 = 0 → 1 ≤ s → e + 1024 ≤ 2 ^ 64 →
  free plain (s * 256) (zlen (ca_data data)) →
  (∀ i eb, i ∈ touched s e → i ≠ 0 → get_entry_batch (db fs) i = Some eb →
     is_sealed (eb_seal eb) 0 = false) →
  ∃ fs', append_entries zero keccak data fs = (Ok (completed plain' (touched s e)), fs') ∧
    flow_models keccak fs' plain' ∧ seals_kept fs fs' ∧
    (∀ j, get_batch_root (db fs') j =
       match chunk_root plain' j with
       | Some r => if decide (j ∈ touched s e) then Some (Single r) else get_batch_root (db fs) j
       | None => get_batch_root (db fs) j
       end).
Proof.
  intros s e plain' Hm Hp0 Hn Hd Hs Hov Hfree Hseal. unfold append_entries. spec_consts.
  rewrite Hd. cbn [Z.eqb negb]. unfold st_bind, st_get, st_lift, uadd.
  assert (bytes_to_entries (zlen (ca_data data)) = zlen (ca_data data) / 256) as ->.
  { unfold bytes_to_entries. spec_consts. by rewrite Hd. }
  fold s e. rewrite (proj2 (Z.ltb_lt _ _)) by lia. rewrite (fm_size _ _ _ Hm).
  assert (s < e) as Hse by (unfold e; dlia).
  destruct (batch_iter_run s e 1024) as (l & -> & Hb); [lia..|].
  destruct (append_batches_run fs plain data s e l) as (bs & fs1 & -> & Hdb & Hbs & Hidx & Hup);
    [done|done|done|fold s; lia|done|fold s; lia|by left|done|].
  rewrite (batches_indices _ _ _ Hb Hse) in Hidx. fold (touched s e) in Hidx. fold s plain' in Hup.
  unfold st_zoom, put_entry_batch_list, st_bind, st_get, st_lift.
  destruct (put_entries_run plain' bs (db fs1) []) as (d' & Hrun & Hout & Hin & Hroot).
  { apply Forall_forall. intros [i eb] Hieb. rewrite Forall_forall in Hup.
    assert (i ∈ touched s e) as Hi by (rewrite <- Hidx; apply (list_elem_of_fmap_2 fst _ _ Hieb)).
    destruct (Hup _ Hieb) as (Hmod & Hold & Hnew). cbn [fst snd] in *.
    pose proof Hi as Hi'. apply elem_of_touched in Hi'. split_and!; [done|dlia| |].
    - intros _. unfold plain', written. rewrite piece_None, Hp0; [done|]. simpl. lia.
    - intros Hne. destruct (get_entry_batch (db fs) i) as [old|] eqn:Hgo.
      + rewrite (Hold old eq_refl). by apply (Hseal i).
      + rewrite Hnew by done. apply new_not_sealed. lia. }
  rewrite Hrun, Hidx. cbn. eexists. split; [done|]. rewrite Hidx, Hdb in *. cbn. split; [|split; [|done]].
  2: { intros i eb Hget. cbn in Hget. destruct (decide (i ∈ touched s e)) as [Hi|Hi].
       - destruct (Hin i Hi) as (eb' & Hieb & Heb). rewrite Hget in Heb. injection Heb as <-.
         rewrite Forall_forall in Hup. destruct (Hup _ Hieb) as (_ & Hold & Hnew). cbn [fst snd] in *.
         destruct (get_entry_batch (db fs) i) as [old|]; [right|left]; eauto.
       - rewrite Hout in Hget by done. right. eauto. }
  split.
  - cbn. by rewrite Hbs, (fm_size _ _ _ Hm).
  - cbn. intros i eb Hget. destruct (decide (i ∈ touched s e)) as [Hi|Hi].
    + destruct (Hin i Hi) as (eb' & Hieb & Heb). rewrite Hget in Heb. injection Heb as <-.
      rewrite Forall_forall in Hup. destruct (Hup _ Hieb) as (Hmod & _).
      apply elem_of_touched in Hi. split; [dlia|done].
    + rewrite Hout in Hget by done. destruct (fm_batch _ _ _ Hm _ _ Hget) as [? Hmod].
      split; [done|]. eapply models_ext; [|exact Hmod]. intros k Hk. symmetry.
      by apply written_outside.
  - cbn. intros i k Hget Hi Hk. destruct (decide (i ∈ touched s e)) as [Hi'|Hi'].
    + destruct (Hin i Hi') as (eb' & _ & Heb). congruence.
    + rewrite Hout in Hget by done. unfold plain'. rewrite written_outside by done.
      by apply (fm_missing _ _ _ Hm).
Qed.
(** ** [truncate] *)

Lemma batch_of_delete (d : FlowDBStore E B M) i j :
  get_entry_batch (delete_batch d i) j = if decide (j = i) then None else get_entry_batch d j.
Proof.
  unfold get_entry_batch, delete_batch; simpl. case_decide; subst.
  - by rewrite lookup_delete_eq.
  - by rewrite lookup_delete_ne.
Qed.

Lemma batch_of_deletes (d : FlowDBStore E B M) idxs j :
  get_entry_batch (foldl (λ d i, delete_root (delete_batch d i) i) d idxs) j =
  if decide (j ∈ idxs) then None else get_entry_batch d j.
Proof.
  revert d. induction idxs as [|i idxs IH]; intros d; simpl; [done|].
  rewrite IH. change (get_entry_batch (delete_root (delete_batch d i) i) j)
    with (get_entry_batch (delete_batch d i) j).
  rewrite batch_of_delete. repeat case_decide; set_solver.
Qed.

Lemma cut_chunk t plain i k :
  chunk_plain (cut t plain) i k = cut (t - i * 262144) (chunk_plain plain i) k.
Proof. unfold chunk_plain, cut. destruct (Z.ltb_spec (i * 262144 + k) t), (Z.ltb_spec k (t - i * 262144)); lia || done. Qed.

Lemma empty_models (e : EntryBatch B) plain k :
  eb_models keccak e plain → eb_is_empty e = true → 0 ≤ k < 262144 → plain k = None.
Proof.
  intros Hm He Hk. destruct (plain k) as [b|] eqn:Hb; [|done]. exfalso.
  assert (is_Some (byte_at (eb_data e) k)) as [y Hy].
  { apply (models_same_domain keccak e plain k Hm Hk). by exists b. }
  unfold eb_is_empty in He. by destruct (eb_data e) as [|[|]].
Qed.

(** The batch that is cut. *)
Lemma truncate_first_run fs plain start :
  flow_models keccak fs plain → 0 ≤ start →
  ∃ tx idxs, truncate_first keccak (db fs) (start / 1024) (start mod 1024) =
      Ok (tx, idxs, (start + 1023) / 1024) ∧
    (∀ j, j ≠ start / 1024 ∨ start mod 1024 = 0 → get_entry_batch tx j = get_entry_batch (db fs) j) ∧
    (start mod 1024 ≠ 0 →
      match get_entry_batch tx (start / 1024) with
      | Some e => eb_models keccak e (chunk_plain (cut (start * 256) plain) (start / 1024))
      | None => ∀ k, 0 ≤ k < 262144 → chunk_plain (cut (start * 256) plain) (start / 1024) k = None
      end).
Proof.
  intros Hm Hs. unfold truncate_first. destruct (Z.eqb_spec (start mod 1024) 0) as [H0'|H0'].
  { exists (db fs), []. split; [|done]. do 2 f_equal. dlia. }
  assert (start * 256 - start / 1024 * 262144 = start mod 1024 * 256) as Hoff by dlia.
  replace ((start + 1023) / 1024) with (start / 1024 + 1) by dlia.
  destruct (get_entry_batch (db fs) (start / 1024)) as [eb|] eqn:Heb.
  2: { exists (db fs), []. split_and!; [done..|]. intros _. rewrite Heb. intros k Hk.
       rewrite cut_chunk. unfold cut. case_match; [|done]. apply (fm_missing _ _ _ Hm); [done|dlia|done]. }
  destruct (fm_batch _ _ _ Hm _ _ Heb) as [_ Hmod].
  destruct (eb_truncate_run keccak keccak_len eb _ (start mod 1024) Hmod ltac:(dlia))
    as (first & eb' & idxs & _ & Hrun & Hmod' & _).
  rewrite Hrun. cbn [res_bind]. eexists _, _. split; [done|].
  assert (eb_models keccak eb' (chunk_plain (cut (start * 256) plain) (start / 1024))) as Hcut.
  { eapply models_ext; [|exact Hmod']. intros k Hk. by rewrite cut_chunk, Hoff. }
  split.
  - intros j [Hj|Hj]; [|done]. by destruct (negb (eb_is_empty eb'));
      rewrite ?batch_of_write, ?batch_of_delete, decide_False.
  - intros _. destruct (eb_is_empty eb') eqn:Hemp; simpl;
      rewrite ?batch_of_write, ?batch_of_delete, decide_True by done; [|done].
    intros k Hk. by apply (empty_models eb').
Qed.

(** The load chunks before the cut are kept, the one with the cut is [tx]'s. *)
Lemma truncated_flow fs fs' (tx : FlowDBStore E B M) plain start :
  flow_models keccak fs plain → 0 ≤ start → batch_size fs' = 1024 →
  (∀ j, j ≠ start / 1024 ∨ start mod 1024 = 0 → get_entry_batch tx j = get_entry_batch (db fs) j) →
  (start mod 1024 ≠ 0 →
    match get_entry_batch tx (start / 1024) with
    | Some e => eb_models keccak e (chunk_plain (cut (start * 256) plain) (start / 1024))
    | None => ∀ k, 0 ≤ k < 262144 → chunk_plain (cut (start * 256) plain) (start / 1024) k = None
    end) →
  (∀ j, get_entry_batch (db fs') j = if j * 1024 <? start then get_entry_batch tx j else None) →
  flow_models keccak fs' (cut (start * 256) plain).
Proof.
  intros Hm Hs Hbs Htx Hcut Hget. split; [done|..].
  - intros j e Hj. rewrite Hget in Hj. destruct (Z.ltb_spec (j * 1024) start) as [Hjs|]; [|done].
    destruct (decide (j = start / 1024 ∧ start mod 1024 ≠ 0)) as [[-> Hne]|Hne].
    + specialize (Hcut Hne). rewrite Hj in Hcut. split; [dlia|done].
    + rewrite Htx in Hj by dlia. destruct (fm_batch _ _ _ Hm _ _ Hj) as [Hj0 Hmod]. split; [done|].
      eapply models_ext; [|exact Hmod]. intros k Hk. rewrite cut_chunk. unfold cut.
      rewrite (proj2 (Z.ltb_lt _ _)); [done|]. dlia.
  - intros j k Hj Hj0 Hk. rewrite Hget in Hj. rewrite cut_chunk. unfold cut.
    destruct (Z.ltb_spec k (start * 256 - j * 262144)) as [Hc|]; [|done].
    rewrite (proj2 (Z.ltb_lt _ _)) in Hj by lia.
    destruct (decide (j = start / 1024 ∧ start mod 1024 ≠ 0)) as [[-> Hne]|Hne].
    + specialize (Hcut Hne). rewrite Hj in Hcut. specialize (Hcut k Hk).
      rewrite cut_chunk in Hcut. unfold cut in Hcut. by rewrite (proj2 (Z.ltb_lt _ _)) in Hcut by lia.
    + rewrite Htx in Hj by dlia. by apply (fm_missing _ _ _ Hm).
Qed.

Lemma db_truncate_run fs plain start :
  flow_models keccak fs plain → 0 ≤ start →
  ∃ idxs d', db_truncate keccak start 1024 (db fs) = (Ok idxs, d') ∧
    ∀ fs', db fs' = d' → batch_size fs' = 1024 → flow_models keccak fs' (cut (start * 256) plain).
Proof.
  intros Hm Hs. destruct (truncate_first_run fs plain start Hm Hs) as (tx & idxs & Hfirst & Htx & Hcut).
  unfold db_truncate, st_bind at 1, st_get. cbn [Z.eqb]. unfold st_bind at 1, st_lift. rewrite Hfirst.
  destruct (last_key (entry_batches (db fs))) as [end_|] eqn:Hlast.
  - apply last_key_Some in Hlast as [_ Hmax]. eexists _, _. split; [done|]. intros fs' Hdb Hbs.
    apply (truncated_flow fs fs' tx); [done..|]. intros j. rewrite Hdb, batch_of_deletes.
    destruct (decide (j ∈ _)) as [Hin|Hin], (Z.ltb_spec (j * 1024) start); rewrite elem_of_seqZ in Hin.
    + dlia.
    + done.
    + done.
    + rewrite Htx by dlia. destruct (get_entry_batch (db fs) j) eqn:Hget; [|done]. exfalso.
      pose proof (Hmax j ltac:(by eexists)). dlia.
  - apply last_key_None in Hlast. eexists _, _. split; [done|]. intros fs' Hdb Hbs.
    assert (∀ j, get_entry_batch (db fs) j = None) as Hnone.
    { intros j. unfold get_entry_batch. by rewrite Hlast, lookup_empty. }
    apply (truncated_flow fs fs' tx); [done..|]. intros j. rewrite Hdb, Hnone.
    unfold truncate_first in Hfirst. rewrite Hnone in Hfirst.
    assert (tx = db fs) as ->.
    { destruct (start mod 1024 =? 0); by injection Hfirst as <- _ _. }
    rewrite Hnone. by destruct (j * 1024 <? start).
Qed.

Lemma flow_truncate_run fs plain start :
  flow_models keccak fs plain → 0 ≤ start →
  ∃ fs', truncate keccak start fs = (Ok tt, fs') ∧ flow_models keccak fs' (cut (start * 256) plain) ∧
    to_seal_version fs' = to_seal_version fs + 1.
Proof.
  intros Hm Hs. destruct (db_truncate_run fs plain start Hm Hs) as (idxs & d' & Hrun & Hmod).
  unfold truncate, st_bind, st_get, st_zoom. rewrite (fm_size _ _ _ Hm), Hrun. eexists.
  split; [done|]. split; [|done]. apply Hmod; [done|]. apply (fm_size _ _ _ Hm).
Qed.
End Writes.
