(* ===== verification/TxStore.v ===== *)
(** * The transaction store: [node/storage/src/log_store/tx_store.rs]

    The transactions by sequence number, the sequence numbers of the
    transactions with a given data root, the set of finalized transactions and
    the progress of the log synchronisation, each in a column of the database
    (an abstract finite map, as in [FlowStore]). *)

From stdpp Require Import fin_maps sorting.
From S2P Require Import Prelude Bytes IonianSpec Hashing MerkleProof MerkleRead AppendMerkle SharedTypes MerkleLight FlowStore.
#[local] Open Scope Z_scope.

(** [log_manager::PORA_CHUNK_SIZE] and [log_manager::ENTRY_SIZE]. *)
Definition PORA_CHUNK_SIZE : Z := 1024.
Definition ENTRY_SIZE : Z := 256.

(** [LogManager::padding]. *)
Definition padding (len : Z) : list Z := zreplicate (len * ENTRY_SIZE) 0.

Section Store.
Context {E : Type} `{HashElement E} `{!Algorithm E} (zero : E).
Context `{FinMap Z M} {N : Type → Type} `{FinMap E N}.

Record TransactionStore : Type := MkTransactionStore {
  col_tx : M (Transaction E);
  col_tx_data_root_index : N (list Z);
  col_tx_completed : M unit;
  log_sync_progress : option (Z * E);
}.

(** ** Reads *)

Definition get_tx_by_seq_number (ts : TransactionStore) (seq : Z) : option (Transaction E) :=
  col_tx ts !! seq.

Definition get_tx_seq_list_by_data_root (ts : TransactionStore) (data_root : E) : list Z :=
  default [] (col_tx_data_root_index ts !! data_root).

Definition get_first_tx_seq_by_data_root (ts : TransactionStore) (data_root : E) : option Z :=
  seq_list ← col_tx_data_root_index ts !! data_root; head seq_list.

Definition check_tx_completed (ts : TransactionStore) (tx_seq : Z) : bool :=
  bool_decide (is_Some (col_tx_completed ts !! tx_seq)).

Definition next_tx_seq (ts : TransactionStore) : res Z :=
  match last_key (col_tx ts) with
  | Some seq => uadd 64 seq 1
  | None => Ok 0
  end.

Definition get_progress (ts : TransactionStore) : option (Z * E) := log_sync_progress ts.

(** ** Writes *)

(** The size and the data root of a transaction that carries its data. *)
Definition with_data_root (tx : Transaction E) : res (Transaction E) :=
  match tx_data tx with
  | [] => Ok tx
  | data =>
      let extra := zlen data mod ENTRY_SIZE in
      let padded_data := if extra =? 0 then data else data ++ zreplicate (ENTRY_SIZE - extra) 0 in
      let? tree := sub_merkle_tree zero padded_data in
      let? data_root := light_root tree in
      Ok (MkTransaction (stream_ids tx) data data_root (merkle_nodes tx) (start_entry_index tx)
            (zlen data) (tx_seq tx))
  end.

Definition ts_put_tx (tx : Transaction E) : st TransactionStore (list Z) :=
  let! tx := st_lift (with_data_root tx) in
  let! ts := st_get in
  let old_tx_seq_list := get_tx_seq_list_by_data_root ts (data_merkle_root tx) in
  let! _ := st_lift (assert (match last old_tx_seq_list with
                             | Some l => l <? tx_seq tx | None => true end)
                       "assertion failed: old_tx_seq_list.last() < tx.seq") in
  st_put (MkTransactionStore (<[tx_seq tx := tx]> (col_tx ts))
    (<[data_merkle_root tx := old_tx_seq_list ++ [tx_seq tx]]> (col_tx_data_root_index ts))
    (col_tx_completed ts) (log_sync_progress ts));;
  st_ret old_tx_seq_list.

Definition remove_tx_by_seq_number (seq : Z) : st TransactionStore (option (Transaction E)) :=
  let! ts := st_get in
  match get_tx_by_seq_number ts seq with
  | None => st_ret None
  | Some tx =>
      let root := data_merkle_root tx in
      let tx_seq_list := filter (λ e, e < seq) (get_tx_seq_list_by_data_root ts root) in
      st_put (MkTransactionStore (delete seq (col_tx ts))
        (match tx_seq_list with
         | [] => delete root (col_tx_data_root_index ts)
         | _ => <[root := tx_seq_list]> (col_tx_data_root_index ts)
         end)
        (delete seq (col_tx_completed ts)) (log_sync_progress ts));;
      st_ret (Some tx)
  end.

Definition ts_finalize_tx (tx_seq : Z) : st TransactionStore unit :=
  st_modify (λ ts, MkTransactionStore (col_tx ts) (col_tx_data_root_index ts)
    (<[tx_seq := tt]> (col_tx_completed ts)) (log_sync_progress ts)).

Definition put_progress (progress : Z * E) : st TransactionStore unit :=
  st_modify (λ ts, MkTransactionStore (col_tx ts) (col_tx_data_root_index ts)
    (col_tx_completed ts) (Some progress)).

(** ** [rebuild_last_chunk_merkle] *)

(** The loop over [tx.merkle_nodes]: the index after the subtree that ends at
    the chunk boundary. *)
Fixpoint first_index_in_chunk (nodes : list (nat * E)) (start_index last_chunk_start_index : Z)
    (i : nat) : res (option nat) :=
  match nodes with
  | [] => Ok None
  | (depth, _) :: nodes =>
      let? n := num_entries_of_node depth in
      let? start_index := uadd 64 start_index n in
      if start_index =? last_chunk_start_index then Ok (Some (i + 1)%nat)
      else first_index_in_chunk nodes start_index last_chunk_start_index (i + 1)
  end.

(** The loop that collects the transactions of the last chunk, latest first.  The
    sequence number decreases in every iteration. *)
Fixpoint last_chunk_txs (fuel : nat) (ts : TransactionStore) (last_chunk_start_index tx_seq : Z)
    (tx_list : list (Z * list (nat * E))) : res (list (Z * list (nat * E))) :=
  match fuel with
  | O => Panic "last_chunk_txs: out of fuel"
  | S fuel =>
      let? tx := expect (get_tx_by_seq_number ts tx_seq) "tx not removed" in
      match start_entry_index tx ?= last_chunk_start_index with
      | Gt =>
          let tx_list := tx_list ++ [(tx_seq, merkle_nodes tx)] in
          if tx_seq =? 0 then Ok tx_list
          else last_chunk_txs fuel ts last_chunk_start_index (tx_seq - 1) tx_list
      | Eq => Ok (tx_list ++ [(tx_seq, merkle_nodes tx)])
      | Lt =>
          let? first_index :=
            first_index_in_chunk (merkle_nodes tx) (start_entry_index tx) last_chunk_start_index 0 in
          match first_index with
          | None => Ok tx_list
          | Some first_index =>
              if negb (first_index =? length (merkle_nodes tx))%nat
              then Ok (tx_list ++ [(tx_seq, drop first_index (merkle_nodes tx))])
              else
                let? _ := assert (match tx_list with [] => true | _ => false end)
                  "assertion failed: tx_list.is_empty()" in
                Ok tx_list
          end
      end
  end.

Definition tree_depth_of_chunk : nat := Z.to_nat (log2_pow2 PORA_CHUNK_SIZE) + 1.

(** One transaction of the last chunk: the padding before it and its subtrees. *)
Definition append_last_chunk_tx (x : Z * list (nat * E)) : st (AppendMerkleTree E) unit :=
  let '(tx_seq, subtree_list) := x in
  let! first := st_lift (index subtree_list 0) in
  let! first_subtree := st_lift (num_entries_of_node first.1) in
  let! n := st_reads leaves in
  (if negb (Z.of_nat n mod first_subtree =? 0) then
     let! pad_len := st_lift (usub (Z.min first_subtree PORA_CHUNK_SIZE) (Z.of_nat n mod first_subtree)) in
     let! pad := st_lift (data_to_merkle_leaves (padding pad_len)) in
     append_list pad
   else st_ret tt);;
  append_subtree_list subtree_list;;
  commit (Some tx_seq).

Definition rebuild_last_chunk_merkle (ts : TransactionStore) (pora_chunk_index : nat) (tx_seq : Z)
    : res (AppendMerkleTree E) :=
  let? last_chunk_start_index := umul 64 (Z.of_nat pora_chunk_index) PORA_CHUNK_SIZE in
  let? tx_list := last_chunk_txs (S (Z.to_nat tx_seq)) ts last_chunk_start_index tx_seq [] in
  let? merkle := new_with_depth (if last_chunk_start_index =? 0 then [zero] else [])
                   tree_depth_of_chunk None in
  st_exec (st_for (reverse tx_list) append_last_chunk_tx) merkle.
End Store.
Arguments TransactionStore E M N : clear implicits.
