(* ===== verification/LogManager.v ===== *)
(** * The log manager: [node/storage/src/log_store/log_manager.rs]

    The flow of the storage network as this node sees it: the transactions, the
    entries stored so far, and the flow Merkle tree in two levels.  The top tree
    [pora_chunks_merkle] has one leaf per PoRA chunk of 1024 entries; the tree of
    the entries of the last chunk is [last_chunk_merkle] while that chunk is not
    full. *)

From stdpp Require Import fin_maps sorting.
From S2P Require Import Prelude Bytes IonianSpec Hashing MerkleProof MerkleRead AppendMerkle SharedTypes MerkleLight SegmentProof SealCodec SealInfo ChunkData EntryBatch FlowStore TxStore.
#[local] Open Scope Z_scope.

Section Manager.
Context {E : Type} `{HashElement E} `{!Algorithm E} (zero : E).
Context (keccak : list Z → list Z) {B : Type} `{BitmapOps B}.
Context `{FinMap Z M} {N : Type → Type} `{FinMap E N}.
(** [Transaction::hash], Keccak over the SSZ encoding. *)
Context (tx_hash : Transaction E → E).

Record LogManager : Type := MkLogManager {
  tx_store : TransactionStore E M N;
  flow_store : FlowStore E B M;
  pora_chunks_merkle : AppendMerkleTree E;
  last_chunk_merkle : AppendMerkleTree E;
}.

Definition set_tx (t : TransactionStore E M N) (m : LogManager) : LogManager :=
  MkLogManager t (flow_store m) (pora_chunks_merkle m) (last_chunk_merkle m).
Definition set_flow (f : FlowStore E B M) (m : LogManager) : LogManager :=
  MkLogManager (tx_store m) f (pora_chunks_merkle m) (last_chunk_merkle m).
Definition set_pora (t : AppendMerkleTree E) (m : LogManager) : LogManager :=
  MkLogManager (tx_store m) (flow_store m) t (last_chunk_merkle m).
Definition set_last (t : AppendMerkleTree E) (m : LogManager) : LogManager :=
  MkLogManager (tx_store m) (flow_store m) (pora_chunks_merkle m) t.

Definition on_tx {A} : st (TransactionStore E M N) A → st LogManager A := st_zoom tx_store set_tx.
Definition on_flow {A} : st (FlowStore E B M) A → st LogManager A := st_zoom flow_store set_flow.
Definition on_pora {A} : st (AppendMerkleTree E) A → st LogManager A :=
  st_zoom pora_chunks_merkle set_pora.
Definition on_last {A} : st (AppendMerkleTree E) A → st LogManager A :=
  st_zoom last_chunk_merkle set_last.

Definition pora_leaves (m : LogManager) : res nat := leaves (pora_chunks_merkle m).
Definition last_leaves (m : LogManager) : res nat := leaves (last_chunk_merkle m).
Definition last_root (m : LogManager) : res E := tree_root (last_chunk_merkle m).

(** ** Positions in the flow *)

Definition last_chunk_start_index (m : LogManager) : res Z :=
  let? n := pora_leaves m in
  if (n =? 0)%nat then Ok 0
  else
    let? l := last_leaves m in
    umul 64 PORA_CHUNK_SIZE (Z.of_nat (if (l =? 0)%nat then n else n - 1)).

(** [self.last_chunk_start_index() + self.last_chunk_merkle.leaves() as u64] *)
Definition flow_length (m : LogManager) : res Z :=
  let? s := last_chunk_start_index m in
  let? l := last_leaves m in
  uadd 64 s (Z.of_nat l).

(** An empty tree for the next last chunk. *)
Definition reset_last_chunk : st LogManager unit :=
  let! t := st_lift (new_with_depth [] tree_depth_of_chunk None) in
  on_last (st_put t).

(** ** [pad_tx] *)

(** The root of the last chunk becomes the last leaf of the top tree. *)
Definition update_last_chunk : st LogManager unit :=
  let! r := st_reads last_root in
  on_pora (update_last r).

(** Padding inside the last chunk. *)
Definition pad_last_chunk (data : list Z) (start_index : Z) : st LogManager unit :=
  let! pad := st_lift (data_to_merkle_leaves data) in
  on_last (append_list pad);;
  update_last_chunk;;
  let! _ := on_flow (append_entries zero keccak (MkChunkArray data start_index)) in
  st_ret tt.

(** The [while] loop over the complete chunks of the padding. *)
Fixpoint pad_chunks (fuel : nat) (pad_data : list Z) (tx_start_flow_index start_index : Z)
    : st LogManager Z :=
  if zlen pad_data <? (start_index + PORA_CHUNK_SIZE) * ENTRY_SIZE then st_ret start_index else
  match fuel with
  | O => st_lift (Panic "pad_chunks: out of fuel")
  | S fuel =>
      let! data := st_lift (zslice pad_data (start_index * ENTRY_SIZE)
                              ((start_index + PORA_CHUNK_SIZE) * ENTRY_SIZE)) in
      let! pad := st_lift (data_to_merkle_leaves data) in
      let! tree := st_lift (new pad 0 None) in
      let! r := st_lift (tree_root tree) in
      on_pora (append r);;
      let! flow_index := st_lift (uadd 64 start_index tx_start_flow_index) in
      let! _ := on_flow (append_entries zero keccak (MkChunkArray data flow_index)) in
      pad_chunks fuel pad_data tx_start_flow_index (start_index + PORA_CHUNK_SIZE)
  end.

(** Appending the padding [pad_data] at the end of the flow. *)
Definition pad_flow (pad_data : list Z) (tx_start_flow_index : Z) : st LogManager unit :=
  let! l := st_reads last_leaves in
  let! last_chunk_pad := st_lift (if (l =? 0)%nat then Ok 0
                                  else let? n := usub PORA_CHUNK_SIZE (Z.of_nat l) in
                                       Ok (n * ENTRY_SIZE)) in
  if zlen pad_data <? last_chunk_pad then pad_last_chunk pad_data tx_start_flow_index
  else
    (if negb (last_chunk_pad =? 0) then
       let! data := st_lift (zslice pad_data 0 last_chunk_pad) in
       pad_last_chunk data tx_start_flow_index;;
       reset_last_chunk
     else st_ret tt);;
    let! start_index := pad_chunks (length pad_data) pad_data tx_start_flow_index
                          (last_chunk_pad / ENTRY_SIZE) in
    st_lift (assert (zlen pad_data =? start_index * ENTRY_SIZE)
      "assertion failed: pad_data.len() == start_index * ENTRY_SIZE").

Definition pad_tx (first_subtree_size : Z) : st LogManager unit :=
  let! tx_start_flow_index := st_reads flow_length in
  let extra := tx_start_flow_index mod first_subtree_size in
  if extra =? 0 then st_ret tt
  else pad_flow (padding (first_subtree_size - extra)) tx_start_flow_index.

(** ** [append_subtree_list] *)

(** [self.flow_store.put_batch_root((self.pora_chunks_merkle.leaves() - 1) as u64, root, length)] *)
Definition put_last_batch_root (root : E) (length : nat) : st LogManager unit :=
  let! n := st_reads pora_leaves in
  let! i := st_lift (checked_sub n 1) in
  on_flow (put_batch_root (Z.of_nat i) root length).

(** The subtree fits into the last chunk. *)
Definition append_in_last_chunk (subtree_depth subtree_size : nat) (subtree_root : E)
    : st LogManager unit :=
  on_last (append_subtree subtree_depth subtree_root);;
  let! l := st_reads last_leaves in
  (if (l =? subtree_size)%nat then
     let! r := st_reads last_root in
     on_pora (append_subtree 1 r)
   else update_last_chunk);;
  if Z.of_nat l =? PORA_CHUNK_SIZE then
    let! r := st_reads last_root in
    put_last_batch_root r 1;;
    reset_last_chunk
  else st_ret tt.

(** One iteration of the loop. *)
Definition append_one_subtree (x : nat * E) : st LogManager unit :=
  let '(subtree_depth, subtree_root) := x in
  let! d := st_lift (checked_sub subtree_depth 1) in
  let! subtree_size := st_lift (shl1 d) in
  let! l := st_reads last_leaves in
  if (l =? 0)%nat && (Z.of_nat subtree_size =? PORA_CHUNK_SIZE) then
    on_pora (append_subtree 1 subtree_root);;
    put_last_batch_root subtree_root 1
  else if Z.of_nat l + Z.of_nat subtree_size <=? PORA_CHUNK_SIZE then
    append_in_last_chunk subtree_depth subtree_size subtree_root
  else
    let! _ := st_lift (assert (l =? 0)%nat "assertion failed: self.last_chunk_merkle.leaves() == 0") in
    let! _ := st_lift (assert (PORA_CHUNK_SIZE <=? Z.of_nat subtree_size)
                         "assertion failed: subtree_size >= PORA_CHUNK_SIZE") in
    let! top_depth := st_lift (checked_sub subtree_depth (Z.to_nat (log2_pow2 PORA_CHUNK_SIZE))) in
    on_pora (append_subtree top_depth subtree_root);;
    put_last_batch_root subtree_root (subtree_size / Z.to_nat PORA_CHUNK_SIZE).

Definition lm_append_subtree_list (merkle_list : list (nat * E)) : st LogManager unit :=
  match merkle_list with
  | [] => st_ret tt
  | (first_depth, _) :: _ =>
      let! first_subtree_size := st_lift (num_entries_of_node first_depth) in
      pad_tx first_subtree_size;;
      st_for merkle_list append_one_subtree
  end.

(** ** [append_entries] *)

Definition fill_last_chunk (chunk_start_index : Z) (entries : list (list Z)) : st LogManager unit :=
  st_for (imap pair entries) (λ '(local_index, entry),
    on_last (fill_leaf (Z.to_nat chunk_start_index + local_index) (leaf_hash entry))).

Definition fill_chunk_root (x : Z * E) : st LogManager unit :=
  let '(chunk_index, chunk_root) := x in
  let! n := st_reads pora_leaves in
  if chunk_index <? Z.of_nat n then on_pora (fill_leaf (Z.to_nat chunk_index) chunk_root)
  else st_lift (Panic "We always insert tx nodes before put_chunks").

Definition lm_append_entries (flow_entry_array : ChunkArray) : st LogManager unit :=
  let! last_start := st_reads last_chunk_start_index in
  let start := start_index flow_entry_array in
  let data := ca_data flow_entry_array in
  let! end_ := st_lift (uadd 64 start (bytes_to_chunks (zlen data))) in
  (if last_start <? end_ then
     let '(chunk_start_index, flow_entry_data_index) :=
       (if last_start <=? start then (start - last_start, 0)
        else (0, (last_start - start) * ENTRY_SIZE)) in
     let! fill := st_lift (zslice data flow_entry_data_index (zlen data)) in
     fill_last_chunk chunk_start_index (chunks_exact (Z.to_nat ENTRY_SIZE) fill)
   else st_ret tt);;
  let! chunk_roots := on_flow (append_entries zero keccak flow_entry_array) in
  st_for chunk_roots fill_chunk_root.

Definition lm_commit (tx_seq : Z) : st LogManager unit :=
  on_pora (commit (Some tx_seq));; on_last (commit (Some tx_seq)).

(** ** [impl LogStoreChunkWrite] *)

(** The bounds check and the shift to flow indices that both [put_chunks] share.
    [saturating_mul] is a minimum with the largest [u64]. *)
Definition put_tx_chunks (tx : Transaction E) (chunks : ChunkArray) : st LogManager unit :=
  let! padded := st_lift (compute_padded_chunk_size (tx_size tx)) in
  let! end_ := st_lift (uadd 64 (Z.min (start_index chunks * ENTRY_SIZE) (2 ^ 64 - 1))
                          (zlen (ca_data chunks))) in
  if padded.1 * ENTRY_SIZE <? end_ then st_lift (Err "put chunks with data out of tx range")
  else
    let! start := st_lift (uadd 64 (start_index chunks) (start_entry_index tx)) in
    lm_append_entries (MkChunkArray (ca_data chunks) start).

Definition get_tx (tx_seq : Z) (msg : string) : st LogManager (Transaction E) :=
  st_reads (λ m, ok_or (get_tx_by_seq_number (tx_store m) tx_seq) msg).

Definition put_chunks (tx_seq : Z) (chunks : ChunkArray) : st LogManager unit :=
  let! tx := get_tx tx_seq "put chunks with missing tx" in
  put_tx_chunks tx chunks.

Definition put_chunks_with_tx_hash (tx_seq : Z) (hash : E) (chunks : ChunkArray)
    : st LogManager bool :=
  let! tx := get_tx tx_seq "put chunks with missing tx" in
  if bool_decide (tx_hash tx = hash) then put_tx_chunks tx chunks;; st_ret true
  else st_ret false.

(** ** [padding_rear_data] *)

(** The [while] loop; [segments_for_file] grows to [segments_for_proof]. *)
Fixpoint padding_rear_loop (fuel : nat) (tx : Transaction E) (tx_seq : Z)
    (segments_for_proof last_segment_size_for_proof : Z)
    (segments_for_file last_segment_size_for_file : Z) : st LogManager unit :=
  if segments_for_proof <? segments_for_file then st_ret tt else
  match fuel with
  | O => st_lift (Panic "padding_rear_data: out of fuel")
  | S fuel =>
      let! n := st_lift (usub (if segments_for_file =? segments_for_proof
                               then last_segment_size_for_proof else PORA_CHUNK_SIZE)
                           last_segment_size_for_file) in
      let padding_size := n * ENTRY_SIZE in
      (if 0 <? padding_size then
         let! _ := put_chunks_with_tx_hash tx_seq (tx_hash tx)
                     (MkChunkArray (zreplicate padding_size 0)
                        ((segments_for_file - 1) * PORA_CHUNK_SIZE + last_segment_size_for_file)) in
         st_ret tt
       else st_ret tt);;
      padding_rear_loop fuel tx tx_seq segments_for_proof last_segment_size_for_proof
        (segments_for_file + 1) 0
  end.

Definition padding_rear_data (tx : Transaction E) (tx_seq : Z) : st LogManager unit :=
  let! padded := st_lift (compute_padded_chunk_size (tx_size tx)) in
  let '(segments_for_proof, last_segment_size_for_proof) :=
    compute_segment_size padded.1 PORA_CHUNK_SIZE in
  let '(segments_for_file, last_segment_size_for_file) :=
    compute_segment_size (bytes_to_entries (tx_size tx)) PORA_CHUNK_SIZE in
  padding_rear_loop (S (Z.to_nat (segments_for_proof - segments_for_file + 1))) tx tx_seq
    segments_for_proof last_segment_size_for_proof segments_for_file last_segment_size_for_file.

(** ** [copy_tx_data] *)

(** The first loop: the transactions to copy to, with their offsets. *)
Fixpoint copy_targets (m : LogManager) (old_tx : Transaction E) (to_tx_seq_list : list Z)
    : res (list (Z * Z)) :=
  match to_tx_seq_list with
  | [] => Ok []
  | seq :: to_tx_seq_list =>
      if check_tx_completed (tx_store m) seq then copy_targets m old_tx to_tx_seq_list
      else
        let? tx := ok_or (get_tx_by_seq_number (tx_store m) seq) "to tx missing" in
        let? offset := usub (start_entry_index tx) (start_entry_index old_tx) in
        let? rest := copy_targets m old_tx to_tx_seq_list in
        Ok ((tx_seq tx, offset) :: rest)
  end.

(** One batch, copied to every target. *)
Definition copy_batch (targets : list (Z * Z)) (x : Z * Z) : st LogManager unit :=
  let '(batch_start, batch_end) := x in
  let! r := st_reads (λ m, get_entries keccak (flow_store m) batch_start
                             (batch_start + (batch_end - batch_start))) in
  let! batch_data := st_lift (ok_or r "tx data missing") in
  st_for targets (λ '(_, offset),
    let! start := st_lift (uadd 64 (start_index batch_data) offset) in
    lm_append_entries (MkChunkArray (ca_data batch_data) start)).

Definition copy_tx_data (from_tx_seq : Z) (to_tx_seq_list : list Z) : st LogManager unit :=
  let! old_tx := get_tx from_tx_seq "from tx missing" in
  let! targets := st_reads (λ m, copy_targets m old_tx to_tx_seq_list) in
  match targets with
  | [] => st_ret tt
  | _ =>
      let! n := st_lift (num_entries old_tx) in
      let! end_ := st_lift (uadd 64 (start_entry_index old_tx) n) in
      let! batches := st_lift (batch_iter (start_entry_index old_tx) end_ PORA_CHUNK_SIZE) in
      st_for batches (copy_batch targets);;
      st_for targets (λ '(seq, _), on_tx (ts_finalize_tx seq))
  end.

(** ** [impl LogStoreWrite] *)

Definition put_tx (tx : Transaction E) : st LogManager unit :=
  lm_append_subtree_list (merkle_nodes tx);;
  lm_commit (tx_seq tx);;
  let! old_tx_seq_list := on_tx (ts_put_tx zero tx) in
  match old_tx_seq_list with
  | [] => st_ret tt
  | old_tx_seq :: _ =>
      let! completed := st_reads (λ m, Ok (check_tx_completed (tx_store m) old_tx_seq)) in
      if completed : bool then
        copy_tx_data old_tx_seq [tx_seq tx];;
        on_tx (ts_finalize_tx (tx_seq tx))
      else st_ret tt
  end.

(** The completeness check of [finalize_tx] and [finalize_tx_with_hash]. *)
Definition finalize_data (tx : Transaction E) (tx_seq : Z) : st LogManager unit :=
  padding_rear_data tx tx_seq;;
  let! tx_end_index := st_lift (uadd 64 (start_entry_index tx) (bytes_to_entries (tx_size tx))) in
  let! entries := st_reads (λ m, get_entries keccak (flow_store m) (start_entry_index tx) tx_end_index) in
  match entries with
  | Some _ => on_tx (ts_finalize_tx tx_seq)
  | None => st_lift (Err "finalize tx with data missing")
  end.

Definition finalize_tx (tx_seq : Z) : st LogManager unit :=
  let! tx := get_tx tx_seq "finalize_tx with tx missing" in
  finalize_data tx tx_seq;;
  let! same_root_seq_list :=
    st_reads (λ m, Ok (get_tx_seq_list_by_data_root (tx_store m) (data_merkle_root tx))) in
  match same_root_seq_list with
  | first :: rest => if first =? tx_seq then copy_tx_data tx_seq rest else st_ret tt
  | [] => st_ret tt
  end.

Definition finalize_tx_with_hash (tx_seq : Z) (hash : E) : st LogManager bool :=
  let! tx := get_tx tx_seq "finalize_tx with tx missing" in
  if bool_decide (tx_hash tx = hash) then finalize_data tx tx_seq;; st_ret true
  else st_ret false.

Definition put_sync_progress (progress : Z * E) : st LogManager unit := on_tx (put_progress progress).

(** ** Initialisation *)

(** The entries of a chunk array that is stored in the last chunk. *)
Definition fill_available (last_start : Z) (e : ChunkArray) : st LogManager unit :=
  let! start := st_lift (usub (start_index e) last_start) in
  fill_last_chunk start (chunks_exact (Z.to_nat ENTRY_SIZE) (ca_data e)).

Definition try_initialize : st LogManager unit :=
  let! n := st_reads pora_leaves in
  let! l := st_reads last_leaves in
  if (n =? 0)%nat && (l =? 0)%nat then
    on_last (append zero);;
    update_last_chunk
  else if negb (l =? 0)%nat then
    let! last_start := st_reads last_chunk_start_index in
    let! last_chunk_data := st_reads (λ m,
      get_available_entries keccak (flow_store m) last_start (last_start + PORA_CHUNK_SIZE)) in
    st_for last_chunk_data (fill_available last_start)
  else st_ret tt.

(** [LogManager::new] over an opened database. *)
Definition LogManager_new (ts : TransactionStore E M N) (d : FlowDBStore E B M) (batch_size : Z)
    : res LogManager :=
  let fs := FlowStore_new d batch_size in
  let chunk_roots := get_chunk_root_list fs in
  let? next := next_tx_seq ts in
  let start_tx_seq := if 0 <? next then Some (next - 1) else None in
  let? pora := new_with_subtrees chunk_roots (Z.to_nat (log2_pow2 PORA_CHUNK_SIZE)) start_tx_seq in
  let? last_chunk :=
    (match start_tx_seq with
     | Some seq => let? n := leaves pora in rebuild_last_chunk_merkle zero ts n seq
     | None => new_with_depth [] tree_depth_of_chunk None
     end) in
  let? l := leaves last_chunk in
  let? pora := (if (l =? 0)%nat then Ok pora
                else let? r := tree_root last_chunk in st_exec (append r) pora) in
  st_exec try_initialize (MkLogManager ts fs pora last_chunk).

(** ** Reverting *)

(** [u64::MAX] stands for the sequence number before 0. *)
Definition revert_merkle_tree (tx_seq : Z) : st LogManager unit :=
  if tx_seq =? 2 ^ 64 - 1 then
    on_pora reset;; on_last reset;; try_initialize
  else
    let! old_leaves := st_reads pora_leaves in
    on_pora (revert_to tx_seq);;
    let! n := st_reads pora_leaves in
    if (old_leaves =? n)%nat then on_last (revert_to tx_seq)
    else
      let! i := st_lift (checked_sub n 1) in
      let! t := st_reads (λ m, rebuild_last_chunk_merkle zero (tx_store m) i tx_seq) in
      on_last (st_put t);;
      try_initialize;;
      let! r := st_reads last_root in
      let! leaf := st_reads (λ m, leaf_at (pora_chunks_merkle m) i) in
      st_lift (assert (bool_decide (Some r = leaf))
        "assertion failed: last_chunk_merkle.root() == pora_chunks_merkle.leaf_at(leaves - 1)").

(** The loop that removes the reverted transactions, in order. *)
Fixpoint remove_txs (seqs : list Z) : st LogManager (list (Transaction E)) :=
  match seqs with
  | [] => st_ret []
  | seq :: seqs =>
      let! r := on_tx (remove_tx_by_seq_number seq) in
      match r with
      | None => st_ret []
      | Some tx =>
          let! txs := remove_txs seqs in
          st_ret (tx :: txs)
      end
  end.

(** [u64::MAX] is the number before 0: [tx_seq + 1] relies on the wrap-around of
    a build without overflow checks. *)
Definition lm_revert_to (tx_seq : Z) : st LogManager (list (Transaction E)) :=
  revert_merkle_tree tx_seq;;
  let! last_start := st_reads last_chunk_start_index in
  let! start := st_lift (umul 64 last_start PORA_CHUNK_SIZE) in
  let! l := st_reads last_leaves in
  let! start_index := st_lift (uadd 64 start (Z.of_nat l)) in
  on_flow (truncate keccak start_index);;
  let first := as_u64 (tx_seq + 1) in
  let! next := st_reads (λ m, next_tx_seq (tx_store m)) in
  remove_txs (seqZ first (next - first)).

(** ** [impl LogStoreChunkRead] *)

Definition get_chunks_by_tx_and_index_range (m : LogManager) (tx_seq index_start index_end : Z)
    : res (option ChunkArray) :=
  match get_tx_by_seq_number (tx_store m) tx_seq with
  | None => Ok None
  | Some tx =>
      let? start_flow_index := uadd 64 (start_entry_index tx) index_start in
      let? end_flow_index := uadd 64 (start_entry_index tx) index_end in
      let? tx_chunk := get_entries keccak (flow_store m) start_flow_index end_flow_index in
      match tx_chunk with
      | None => Ok None
      | Some c =>
          let? i := usub (start_index c) (start_entry_index tx) in
          Ok (Some (MkChunkArray (ca_data c) i))
      end
  end.

(** [Chunk(data.try_into()?)]: the length is checked. *)
Definition get_chunk_by_tx_and_index (m : LogManager) (tx_seq index : Z) : res (option (list Z)) :=
  let? r := get_chunks_by_tx_and_index_range m tx_seq index (index + 1) in
  match r with
  | None => Ok None
  | Some c =>
      if zlen (ca_data c) =? CHUNK_SIZE then Ok (Some (ca_data c))
      else Err "could not convert slice to array"
  end.

Definition get_chunks_by_data_root_and_index_range (m : LogManager) (data_root : E)
    (index_start index_end : Z) : res (option ChunkArray) :=
  match get_first_tx_seq_by_data_root (tx_store m) data_root with
  | None => Ok None
  | Some tx_seq => get_chunks_by_tx_and_index_range m tx_seq index_start index_end
  end.

Definition get_chunk_by_flow_index (m : LogManager) (index length : Z) : res (option ChunkArray) :=
  let? end_flow_index := uadd 64 index length in
  get_entries keccak (flow_store m) index end_flow_index.

(** ** Proofs *)

(** [lemma.pop()], then the parts of the top proof. *)
Definition entry_proof (top_proof sub_proof : MProof E) : res (MProof E) :=
  let? top_item := item top_proof in
  let? sub_root := root sub_proof in
  if negb (bool_decide (top_item = sub_root)) then Err "top tree and sub tree mismatch"
  else
    let? _ := assert (match lemma sub_proof with [] => false | _ => true end)
      "assertion failed: lemma.pop().is_some()" in
    let? top := slice (lemma top_proof) 1 (length (lemma top_proof)) in
    Proof_new (take (length (lemma sub_proof) - 1) (lemma sub_proof) ++ top)
      (path sub_proof ++ path top_proof).

(** The leaves of a chunk read from the store; the first entry of the flow is
    not stored. *)
Definition chunk_leaves_from (chunk_index : Z) (data : list Z) : res (list E) :=
  let? lvs := data_to_merkle_leaves data in
  Ok (if (chunk_index =? 0) && (zlen data / ENTRY_SIZE =? PORA_CHUNK_SIZE - 1)
      then zero :: lvs else lvs).

Definition gen_proof_in_chunk (m : LogManager) (chunk_index flow_index : Z) : res (MProof E) :=
  let? r := get_entries keccak (flow_store m) (chunk_index * PORA_CHUNK_SIZE)
              ((chunk_index + 1) * PORA_CHUNK_SIZE) in
  let? pora_chunk := ok_or r "data incomplete for generating proof of index" in
  let? lvs := chunk_leaves_from chunk_index (ca_data pora_chunk) in
  let? chunk_merkle := new_with_depth lvs tree_depth_of_chunk None in
  gen_proof chunk_merkle (Z.to_nat (flow_index mod PORA_CHUNK_SIZE)).

(** [gen_proof] of the tree, or of its version with the given root. *)
Definition gen_proof_at (t : AppendMerkleTree E) (maybe_root : option E) (i : nat) : res (MProof E) :=
  match maybe_root with
  | None => gen_proof t i
  | Some r => let? h := at_root_version t r in gen_proof h i
  end.

Definition lm_gen_proof (m : LogManager) (flow_index : Z) (maybe_root : option E) : res (MProof E) :=
  let chunk_index := flow_index / PORA_CHUNK_SIZE in
  let? top_proof := gen_proof_at (pora_chunks_merkle m) maybe_root (Z.to_nat chunk_index) in
  let? n := pora_leaves m in
  let? last_index := checked_sub n 1 in
  let? l := last_leaves m in
  let? sub_proof :=
    (if negb (chunk_index =? Z.of_nat last_index) || (l =? 0)%nat
     then gen_proof_in_chunk m chunk_index flow_index
     else gen_proof_at (last_chunk_merkle m) maybe_root (Z.to_nat (flow_index mod PORA_CHUNK_SIZE))) in
  entry_proof top_proof sub_proof.

(** ** [impl LogStoreRead] *)

Definition get_chunks_with_proof_by_tx_and_index_range (m : LogManager)
    (tx_seq index_start index_end : Z) : res (option (ChunkArrayWithProof E)) :=
  match get_tx_by_seq_number (tx_store m) tx_seq with
  | None => Ok None
  | Some tx =>
      let? chunks := get_chunks_by_tx_and_index_range m tx_seq index_start index_end in
      match chunks with
      | None => Ok None
      | Some chunks =>
          let? first := uadd 64 (start_entry_index tx) index_start in
          let? left_proof := lm_gen_proof m first None in
          let? end_ := uadd 64 (start_entry_index tx) index_end in
          let? last := usub end_ 1 in
          let? right_proof := lm_gen_proof m last None in
          Ok (Some (MkChunkArrayWithProof chunks (MkRangeProof left_proof right_proof)))
      end
  end.

(** [ChunkWithProof] is the chunk with its proof. *)
Definition get_chunk_with_proof_by_tx_and_index (m : LogManager) (tx_seq index : Z)
    : res (option (list Z * MProof E)) :=
  let? r := get_chunks_with_proof_by_tx_and_index_range m tx_seq index (index + 1) in
  match r with
  | None => Ok None
  | Some c =>
      if zlen (ca_data (cp_chunks c)) =? CHUNK_SIZE
      then Ok (Some (ca_data (cp_chunks c), left_proof (cp_proof c)))
      else Err "could not convert slice to array"
  end.

Definition validate_range_proof (m : LogManager) (tx_seq : Z) (data : ChunkArrayWithProof E)
    : res bool :=
  let? tx := ok_or (get_tx_by_seq_number (tx_store m) tx_seq) "tx missing" in
  let? lvs := data_to_merkle_leaves (ca_data (cp_chunks data)) in
  let? start := uadd 64 (start_index (cp_chunks data)) (start_entry_index tx) in
  let? _ := range_validate (cp_proof data) lvs (Z.to_nat start) in
  let? r := range_root (cp_proof data) in
  Ok (check_root (pora_chunks_merkle m) r).

Definition get_proof_at_root (m : LogManager) (r : E) (index length : Z) : res (RangeProof E) :=
  let? left_proof := lm_gen_proof m index (Some r) in
  let? end_ := uadd 64 index length in
  let? last := usub end_ 1 in
  let? right_proof := lm_gen_proof m last (Some r) in
  Ok (MkRangeProof left_proof right_proof).

Definition get_context (m : LogManager) : res (E * Z) :=
  let? r := tree_root (pora_chunks_merkle m) in
  let? n := flow_length m in
  Ok (r, n).
End Manager.
Arguments LogManager E {_} B M N.

(** ** Subtree roots of a file: [tx_subtree_root_list_padded] *)

Section Subtrees.
Context {E : Type} `{HashElement E} `{!Algorithm E} (zero : E).

(** One iteration of the loop: the root of the subtree and the next
    [start_index]. *)
Definition subtree_root_padded (data : list Z) (start_index tree_size : Z) : res (nat * E) :=
  let end_ := start_index + tree_size * ENTRY_SIZE in
  let? leaf_data :=
    (if zlen data <=? start_index then Ok (zreplicate (tree_size * ENTRY_SIZE) 0)
     else if zlen data <? end_ then
       let? d := zslice data start_index (zlen data) in
       Ok (d ++ zreplicate (end_ - zlen data) 0)
     else zslice data start_index end_) in
  match sub_merkle_tree zero leaf_data with
  | Ok tree =>
      let? r := light_root tree in
      Ok (Z.to_nat (log2_pow2 tree_size) + 1, r)%nat
  | Err _ => Panic "unwrap on Err"
  | Panic e => Panic e
  end.

Fixpoint subtree_roots_padded (data : list Z) (start_index : Z) (nodes : list Z)
    : res (list (nat * E)) :=
  match nodes with
  | [] => Ok []
  | tree_size :: nodes =>
      let? x := subtree_root_padded data start_index tree_size in
      let end_ := start_index + tree_size * ENTRY_SIZE in
      let? rest := subtree_roots_padded data (start_index + end_) nodes in
      Ok (x :: rest)
  end.

Definition tx_subtree_root_list_padded (data : list Z) : res (list (nat * E)) :=
  let? nodes := split_nodes (zlen data) in
  subtree_roots_padded data 0 nodes.
End Subtrees.
