(* ===== verification/FlowTree.v ===== *)
(** * The two-level flow tree

    The top tree over the PoRA chunks and the tree of the last chunk together
    hold one append-only Merkle tree over the entries of the flow.  This file has
    the facts about the reference tree that relate the two levels. *)

From S2P Require Import Prelude Hashing MerkleProof MerkleRead AppendMerkle MerkleSpec MerkleAppend MerklePartial MerkleFill.

Section Levels.
Context {E : Type} `{HashElement E} `{!Algorithm E} `{!NeverNull E}.
Implicit Types (F G L : list E) (t : AppendMerkleTree E).

Lemma half_aligned (x d : nat) : x mod 2 ^ S d = 0 → x mod 2 = 0 ∧ (x / 2) mod 2 ^ d = 0.
Proof.
  rewrite !Nat.Lcm0.mod_divide. intros [k ->]. rewrite Nat.pow_succ_r'. split.
  - exists (k * 2 ^ d). lia.
  - exists k. rewrite (Nat.mul_comm k), <- Nat.mul_assoc, Nat.mul_comm, Nat.div_mul by lia. lia.
Qed.

(** ** Layers of concatenated leaves *)

Lemma layer_at_app h d F G :
  length F mod 2 ^ d = 0 → layer_at h d (F ++ G) = layer_at h d F ++ layer_at h d G.
Proof.
  revert h F G. induction d as [|d IH]; intros h F G Hl; [done|]. simpl.
  apply half_aligned in Hl as [H2 Hd]. rewrite up_app by done. apply IH.
  rewrite length_up. by replace ((length F + 1) / 2) with (length F / 2) by dlia.
Qed.

Lemma layer_at_add h d k F : layer_at (h + d) k (layer_at h d F) = layer_at h (d + k) F.
Proof.
  revert h F. induction d as [|d IH]; intros h F; simpl; [by rewrite Nat.add_0_r|].
  rewrite <- IH. f_equal. lia.
Qed.

Lemma length_layer_at_exact h d F :
  length F mod 2 ^ d = 0 → length (layer_at h d F) = length F / 2 ^ d.
Proof.
  intros Hl. rewrite length_layer_at. pose proof (Nat.pow_nonzero 2 d ltac:(lia)) as Hp.
  apply Nat.Lcm0.mod_divide in Hl as [k ->]. rewrite Nat.div_mul by done.
  replace (k * 2 ^ d + 2 ^ d - 1) with (2 ^ d - 1 + k * 2 ^ d) by lia.
  rewrite Nat.div_add, Nat.div_small by lia. lia.
Qed.

(** The node [i] of layer [d] is the root of its block of leaves. *)
Lemma layer_at_block h d F i :
  (i + 1) * 2 ^ d ≤ length F →
  layer_at h d F !! i = head (layer_at h d (take (2 ^ d) (drop (i * 2 ^ d) F))).
Proof.
  intros Hi. pose proof (Nat.pow_nonzero 2 d ltac:(lia)) as Hp.
  set (A := take (i * 2 ^ d) F). set (C := take (2 ^ d) (drop (i * 2 ^ d) F)).
  set (D := drop (2 ^ d) (drop (i * 2 ^ d) F)).
  assert (F = A ++ C ++ D) as HF by (unfold A, C, D; by rewrite !take_drop).
  assert (length A = i * 2 ^ d) as HA by (unfold A; rewrite length_take; lia).
  assert (length C = 2 ^ d) as HC by (unfold C; rewrite length_take, length_drop; lia).
  clearbody A C D. subst F. rewrite layer_at_app by (rewrite HA; apply Nat.Div0.mod_mul).
  rewrite layer_at_app by (rewrite HC; apply Nat.Div0.mod_same).
  rewrite lookup_app_r by (rewrite length_layer_at_exact, HA, Nat.div_mul; [done..|by rewrite HA, Nat.Div0.mod_mul]).
  rewrite length_layer_at_exact, HA, Nat.div_mul, Nat.sub_diag by (done || (by rewrite HA, Nat.Div0.mod_mul)).
  pose proof (length_layer_at_top h d C ltac:(lia) ltac:(lia)) as Htop.
  by destruct (layer_at h d C) as [|? [|]].
Qed.

(** ** Parts of the flow *)

(** The entries after the last complete chunk, and the edge of the top tree from
    which the next operation changes it. *)
Definition tail_start F : nat := 1024 * (length F / 1024).
Definition chunk_tail F : list E := drop (tail_start F) F.
Definition top_leaves F : list E := layer_at 0 10 F.
Definition top_edge F : nat :=
  if chunk_tail F is [] then length (top_leaves F) else length (top_leaves F) - 1.

Lemma length_chunk_tail F : length (chunk_tail F) = length F mod 1024.
Proof. unfold chunk_tail, tail_start. rewrite length_drop. dlia. Qed.

Lemma length_top_leaves F : length (top_leaves F) = (length F + 1023) / 1024.
Proof. unfold top_leaves. rewrite length_layer_at. change (2 ^ 10) with 1024. f_equal. lia. Qed.

Lemma flow_split F : F = take (tail_start F) F ++ chunk_tail F.
Proof. unfold chunk_tail. by rewrite take_drop. Qed.

Lemma length_complete F : length (take (tail_start F) F) = tail_start F.
Proof. rewrite length_take. unfold tail_start. dlia. Qed.

Lemma chunk_tail_nil F : length F mod 1024 = 0 → chunk_tail F = [].
Proof. intros Hl. apply nil_length_inv. by rewrite length_chunk_tail. Qed.

Lemma top_leaves_split F :
  top_leaves F = top_leaves (take (tail_start F) F) ++ top_leaves (chunk_tail F).
Proof.
  unfold top_leaves. rewrite (flow_split F) at 1. apply layer_at_app.
  rewrite length_complete. unfold tail_start. change (2 ^ 10) with 1024. dlia.
Qed.

Lemma top_leaves_app F G :
  length F mod 1024 = 0 → top_leaves (F ++ G) = top_leaves F ++ top_leaves G.
Proof. exact (layer_at_app 0 10 F G). Qed.

(** Appending inside the last chunk. *)
Lemma chunk_tail_app F G :
  length F mod 1024 + length G < 1024 → chunk_tail (F ++ G) = chunk_tail F ++ G.
Proof.
  intros Hl. unfold chunk_tail, tail_start. rewrite length_app.
  replace ((length F + length G) / 1024) with (length F / 1024) by dlia.
  apply drop_app_le. dlia.
Qed.

Lemma complete_app F G :
  length F mod 1024 + length G ≤ 1024 → F ≠ [] ∨ G = [] ∨ length G ≤ 1024 →
  F ++ G = take (tail_start F) F ++ (chunk_tail F ++ G).
Proof. intros _ _. rewrite (assoc_L (++)). by rewrite <- flow_split. Qed.

Lemma top_leaves_tail F r :
  chunk_tail F ≠ [] → layer_at 0 10 (chunk_tail F) = [r] →
  top_leaves F = top_leaves (take (tail_start F) F) ++ [r].
Proof. intros _ Hr. by rewrite top_leaves_split, <- Hr. Qed.

(** The root of a non-empty part of a chunk. *)
Lemma chunk_top G :
  G ≠ [] → length G ≤ 1024 → ∃ r, layer_at 0 10 G = [r] ∧ root_of 0 11 G = Some r.
Proof.
  intros HG Hl. destruct (build_top 0 11 G HG) as (r & Htop & Hr); [|by exists r].
  etransitivity; [apply (depth_mono _ 1024 Hl)|]. done.
Qed.

(** ** Height of the leaves *)

(** An operation that keeps the height of the leaves. *)
Definition keeps_height {A} (m : st (AppendMerkleTree E) A) : Prop :=
  ∀ t, leaf_height (m t).2 = leaf_height t.

Lemma keeps_bind {A C} (m : st _ A) (k : A → st _ C) :
  keeps_height m → (∀ a, keeps_height (k a)) → keeps_height (st_bind m k).
Proof.
  intros Hm Hk t. unfold st_bind. specialize (Hm t). destruct (m t) as [[a| |] t']; simpl in *; [|done..].
  by rewrite Hk.
Qed.
Lemma keeps_ret {A} (a : A) : keeps_height (st_ret a).
Proof. done. Qed.
Lemma keeps_lift {A} (r : res A) : keeps_height (st_lift r).
Proof. done. Qed.
Lemma keeps_reads {A} (f : _ → res A) : keeps_height (st_reads f).
Proof. done. Qed.
Lemma keeps_for {A} (l : list A) (f : A → st _ unit) :
  (∀ x, keeps_height (f x)) → keeps_height (st_for l f).
Proof. intros Hf. induction l as [|x l IH]; simpl; [done|]. by apply keeps_bind. Qed.

Lemma keeps_recompute s e : keeps_height (recompute s e).
Proof. intros t. unfold recompute, st_bind, st_get, st_lift, st_put. by destruct (recompute_loop _ _ _ _ _ _). Qed.
Lemma keeps_push xs : keeps_height (push_layer0 xs).
Proof. intros t. unfold push_layer0, st_bind, st_get, st_lift, st_put. by destruct (index _ _). Qed.
Lemma keeps_push_null d k : keeps_height (push_null_layer d k).
Proof.
  intros t. unfold push_null_layer, st_bind, st_get, st_lift, st_put.
  destruct (shl1 _); [|done..]. by destruct (index _ _).
Qed.

Lemma keeps_append x : keeps_height (append x).
Proof.
  apply keeps_bind; [apply keeps_push|]. intros _. apply keeps_bind; [apply keeps_reads|]. intros n.
  apply keeps_bind; [apply keeps_lift|]. intros. apply keeps_recompute.
Qed.
Lemma keeps_append_list xs : keeps_height (append_list xs).
Proof.
  apply keeps_bind; [apply keeps_reads|]. intros n.
  apply keeps_bind; [apply keeps_push|]. intros. apply keeps_recompute.
Qed.
Lemma keeps_append_subtree d r : keeps_height (append_subtree d r).
Proof.
  apply keeps_bind; [apply keeps_reads|]. intros n. apply keeps_bind; [|intros; apply keeps_recompute].
  unfold append_subtree_inner. destruct (d =? 0); [apply keeps_lift|].
  apply keeps_bind; [apply keeps_reads|]. intros k. apply keeps_bind; [apply keeps_lift|]. intros size.
  destruct (negb _); [apply keeps_lift|]. apply keeps_bind; [apply keeps_for, keeps_push_null|].
  intros _ t. unfold st_bind, st_get, st_lift, st_put. by destruct (index _ _).
Qed.
Lemma keeps_update_last x : keeps_height (update_last x).
Proof.
  intros t. unfold update_last, st_bind at 1, st_get. unfold st_bind at 1, st_lift at 1.
  destruct (index (layers t) 0); [|done..]. unfold st_bind at 1, st_put.
  change (leaf_height t) with (leaf_height (set_layers (<[0 := match a with [] => [x] | _ => <[length a - 1 := x]> a end]> (layers t)) t)).
  apply keeps_bind; [apply keeps_reads|]. intros n. apply keeps_bind; [apply keeps_lift|]. intros.
  apply keeps_recompute.
Qed.
Lemma keeps_fill_leaf i x : keeps_height (fill_leaf i x).
Proof.
  intros t. unfold fill_leaf, st_bind at 1, st_get. unfold st_bind at 1, st_lift at 1.
  destruct (index (layers t) 0) as [l| |]; [|done..]. unfold st_bind at 1, st_lift at 1.
  destruct (index l i) as [old| |]; [|done..]. destruct (is_null old); [|by destruct (bool_decide _)].
  unfold st_bind, st_put, recompute_after_fill_leaves. by rewrite keeps_recompute.
Qed.

(** ** Appending one leaf as a subtree *)

Lemma append_subtree_1 r t : layers t ≠ [] → append_subtree 1 r t = append_list [r] t.
Proof.
  intros Ht. unfold append_subtree, append_list, append_subtree_inner, push_layer0.
  unfold st_bind, st_reads, st_get, st_lift, st_put. simpl.
  unfold before_extend_layer. by destruct (layers t) as [|X ls].
Qed.

(** ** The two trees of a flow *)

(** The top tree and the tree of the last chunk hold the flow [F]. *)
Record flow_trees F (pora last : AppendMerkleTree E) : Prop := {
  ft_known : known F;
  ft_pora_height : leaf_height pora = 10;
  ft_last_height : leaf_height last = 0;
  ft_pora : ∃ n, views n (top_leaves F) (top_edge F) pora;
  ft_last : views 11 (chunk_tail F) (length (chunk_tail F)) last;
}.

Lemma replace_last_snoc x y (L : list E) : replace_last x (L ++ [y]) = L ++ [x].
Proof.
  unfold replace_last. destruct (L ++ [y]) eqn:HL; [by destruct L|]. rewrite <- HL.
  rewrite length_app. simpl. rewrite Nat.add_sub, insert_app_r_alt, Nat.sub_diag by lia. done.
Qed.

Lemma chunk_tail_last_edge F : chunk_tail F ≠ [] → top_edge F = length (top_leaves F) - 1.
Proof. unfold top_edge. by destruct (chunk_tail F). Qed.

Lemma layer_root_known h d G r : known G → layer_at h d G = [r] → r ≠ null.
Proof.
  intros HG Hr. pose proof (layer_at_not_null h d G HG) as Hl. rewrite Hr in Hl. by inversion Hl.
Qed.

(** The root of the tree of a part of a chunk. *)
Lemma last_tree_root G s last :
  views 11 G s last → s ≤ length G → leaf_height last = 0 → G ≠ [] → length G ≤ 1024 →
  ∃ r, tree_root last = Ok r ∧ layer_at 0 10 G = [r] ∧ r ≠ null.
Proof.
  intros Hv Hs Hh HG Hl. destruct (views_root 11 G s last Hv Hs HG) as (r & Hr & Hroot).
  rewrite Hh in Hr. destruct (chunk_top G HG Hl) as (r' & Htop & Hr'). exists r. split; [done|].
  assert (r' = r) as -> by congruence. split; [done|]. eapply layer_root_known; [apply Hv|done].
Qed.

(** The last chunk grows, and its root replaces the last leaf of the top tree. *)
Lemma update_last_chunk_views F G s pora last last' :
  flow_trees F pora last → chunk_tail F ≠ [] → length (chunk_tail F) + length G ≤ 1024 →
  views 11 (chunk_tail F ++ G) s last' → s ≤ length (chunk_tail F ++ G) → leaf_height last' = 0 →
  ∃ r pora' n, tree_root last' = Ok r ∧ update_last r pora = (Ok tt, pora') ∧
    leaf_height pora' = 10 ∧
    views n (top_leaves (F ++ G)) (length (top_leaves (F ++ G)) - 1) pora'.
Proof.
  intros Hf Ht Hl Hv Hs Hh. destruct (ft_pora _ _ _ Hf) as [n Hp].
  destruct (last_tree_root _ s last' Hv Hs Hh) as (r & Hroot & Hr & Hnn).
  { by destruct (chunk_tail F). }
  { rewrite length_app. lia. }
  destruct (chunk_top (chunk_tail F) Ht) as (r0 & Hr0 & _); [lia|].
  assert (top_leaves F = top_leaves (take (tail_start F) F) ++ [r0]) as HF
    by (rewrite top_leaves_split; f_equal; done).
  assert (top_leaves (F ++ G) = top_leaves (take (tail_start F) F) ++ [r]) as HFG.
  { rewrite (flow_split F) at 1. rewrite <- (assoc_L (++)), top_leaves_app.
    - f_equal. done.
    - rewrite length_complete. unfold tail_start. dlia. }
  rewrite chunk_tail_last_edge in Hp by done.
  destruct (update_last_views n (top_leaves F) r pora Hp Hnn) as (pora' & Hup & Hv').
  eexists r, pora', _. split; [done|]. split; [done|]. split.
  - pose proof (keeps_update_last r pora) as Hk. rewrite Hup in Hk. simpl in Hk.
    rewrite Hk. apply Hf.
  - rewrite HF, replace_last_snoc, <- HFG in Hv'.
    replace (length (top_leaves (F ++ G)) - 1)
      with (length (top_leaves (take (tail_start F) F) ++ [r0]) - 1); [exact Hv'|].
    by rewrite HFG, !length_app.
Qed.

(** A new last chunk is a new leaf of the top tree. *)
Lemma append_chunk_views F G s pora last last' :
  flow_trees F pora last → chunk_tail F = [] → G ≠ [] → length G ≤ 1024 →
  views 11 G s last' → s ≤ length G → leaf_height last' = 0 →
  ∃ r pora' n, tree_root last' = Ok r ∧ append_list [r] pora = (Ok tt, pora') ∧
    leaf_height pora' = 10 ∧
    views n (top_leaves (F ++ G)) (length (top_leaves (F ++ G)) - 1) pora'.
Proof.
  intros Hf Ht HG Hl Hv Hs Hh. destruct (ft_pora _ _ _ Hf) as [n Hp].
  destruct (last_tree_root G s last' Hv Hs Hh HG Hl) as (r & Hroot & Hr & Hnn).
  unfold top_edge in Hp. rewrite Ht in Hp.
  destruct (append_list_views n (top_leaves F) [r] pora Hp ltac:(by constructor)) as (pora' & Hup & Hv').
  eexists r, pora', _. split; [done|]. split; [done|].
  assert (length F mod 1024 = 0) as HF by (by rewrite <- length_chunk_tail, Ht).
  assert (top_leaves (F ++ G) = top_leaves F ++ [r]) as HFG.
  { rewrite top_leaves_app by done. f_equal. done. }
  split.
  - pose proof (keeps_append_list [r] pora) as Hk. rewrite Hup in Hk. simpl in Hk. rewrite Hk. apply Hf.
  - rewrite HFG. rewrite length_app. simpl. rewrite Nat.add_sub. exact Hv'.
Qed.
End Levels.
