(* ===== verification/LogInvariant.v ===== *)
(** * The invariant of the log manager

    The log manager holds a flow of entries.  The leaves of the flow are in the
    two trees ([flow_trees]), the stored data agrees with them, and nothing is
    stored after the end of the flow.  Appending the subtrees of a transaction
    pads the flow and extends it; storing data fills leaves in. *)

From stdpp Require Import fin_maps sorting.
From S2P Require Import Prelude Bytes IonianSpec Hashing MerkleProof MerkleRead AppendMerkle MerkleSpec MerkleAppend MerklePartial MerkleFill SharedTypes MerkleLight SealCodec SealInfo ChunkData ChunkRuns EntryBatch EntryBatchProofs FlowStore FlowReads FlowWrites TxStore LogManager FlowTree.

Section Invariant.
Context {E : Type} `{HashElement E} `{!Algorithm E} `{!NeverNull E} (zero : E) `{!FlowHashes E zero}.
Context (keccak : list Z → list Z) (keccak_len : ∀ x, length (keccak x) = 32).
Context {B : Type} `{BitmapOps B} `{!BitmapLaws B}.
Context `{FinMap Z M} {N : Type → Type} `{FinMap E N}.
Implicit Types (F G : list E) (m : LogManager E B M N) (plain : Z → option Z).

(** ** The invariant *)

(** The stored entries hash to the leaves of the flow. *)
Definition entries_agree F plain : Prop :=
  ∀ j bs, read_range plain (Z.of_nat j * 256) 256 = Some bs → F !! j = Some (leaf_hash bs).

(** No seal chunk is sealed; the root of a load chunk that starts with a sealed
    one would be computed from sealed data. *)
Definition unsealed (fs : FlowStore E B M) : Prop :=
  ∀ i eb x, get_entry_batch (db fs) i = Some eb → (0 ≤ x < 64)%Z → is_sealed (eb_seal eb) x = false.

(** The data of the flow [F]: the first entry has none, and there is nothing
    after the end. *)
Record flow_data F plain (fs : FlowStore E B M) : Prop := {
  fd_store : flow_models keccak fs plain;
  fd_unsealed : unsealed fs;
  fd_first k : (k < 256)%Z → plain k = None;
  fd_end k : (Z.of_nat (length F) * 256 ≤ k)%Z → plain k = None;
  fd_agree : entries_agree F plain;
}.

Record flow_inv F plain m : Prop := {
  fi_first : head F = Some zero;
  fi_trees : flow_trees F (pora_chunks_merkle m) (last_chunk_merkle m);
  fi_data : flow_data F plain (flow_store m);
}.

(** Only the values of the content matter. *)
Lemma flow_data_ext F plain plain' fs :
  (∀ k, plain k = plain' k) → flow_data F plain fs → flow_data F plain' fs.
Proof.
  intros Hp [[Hs1 Hs2 Hs3] Hh Hf He Ha]. split; [split|done|..].
  - done.
  - intros i e Hi. destruct (Hs2 i e Hi) as [Hi0 Hm]. split; [done|].
    eapply models_ext; [|exact Hm]. intros k _. apply Hp.
  - intros i k Hi Hi0 Hk. unfold chunk_plain. rewrite <- Hp. by apply Hs3.
  - intros k Hk. rewrite <- Hp. by apply Hf.
  - intros k Hk. rewrite <- Hp. by apply He.
  - intros j bs Hj. apply Ha. rewrite <- Hj. apply read_range_ext. intros k _. apply Hp.
Qed.

Lemma flow_inv_ext F plain plain' m :
  (∀ k, plain k = plain' k) → flow_inv F plain m → flow_inv F plain' m.
Proof. intros Hp [Hf Ht Hd]. split; [done..|]. by eapply flow_data_ext. Qed.

(** ** Positions *)

Section Positions.
Context F m (Hinv : flow_trees F (pora_chunks_merkle m) (last_chunk_merkle m)).

Lemma pora_leaves_run : pora_leaves m = Ok (length (top_leaves F)).
Proof using Hinv. destruct (ft_pora _ _ _ Hinv) as [n Hp]. by apply (leaves_views n _ (top_edge F)). Qed.

Lemma last_leaves_run : last_leaves m = Ok (length F mod 1024).
Proof using Hinv.
  rewrite <- length_chunk_tail. apply (leaves_views 11 _ _ _ (ft_last _ _ _ Hinv)).
Qed.

Lemma last_chunk_start_run :
  (Z.of_nat (length F) < 2 ^ 64)%Z → last_chunk_start_index m = Ok (Z.of_nat (tail_start F)).
Proof using Hinv.
  intros Hl. unfold last_chunk_start_index. rewrite pora_leaves_run. cbn [res_bind].
  rewrite length_top_leaves. unfold tail_start.
  destruct (Nat.eqb_spec ((length F + 1023) / 1024) 0); [f_equal; dlia|].
  rewrite last_leaves_run. cbn [res_bind]. unfold umul, PORA_CHUNK_SIZE.
  destruct (Nat.eqb_spec (length F mod 1024) 0).
  - rewrite (proj2 (Z.ltb_lt _ _)) by dlia. f_equal. dlia.
  - rewrite (proj2 (Z.ltb_lt _ _)) by dlia. f_equal. dlia.
Qed.

Lemma flow_length_run :
  (Z.of_nat (length F) < 2 ^ 64)%Z → flow_length m = Ok (Z.of_nat (length F)).
Proof using Hinv.
  intros Hl. unfold flow_length. rewrite last_chunk_start_run, last_leaves_run by done.
  cbn [res_bind]. unfold uadd, tail_start. rewrite (proj2 (Z.ltb_lt _ _)) by dlia. f_equal. dlia.
Qed.
End Positions.

(** ** Running operations on the parts *)

Lemma on_pora_run {A} (op : st (AppendMerkleTree E) A) m r t :
  op (pora_chunks_merkle m) = (r, t) → on_pora op m = (r, set_pora t m).
Proof. intros Hop. unfold on_pora, st_zoom. by rewrite Hop. Qed.
Lemma on_last_run {A} (op : st (AppendMerkleTree E) A) m r t :
  op (last_chunk_merkle m) = (r, t) → on_last op m = (r, set_last t m).
Proof. intros Hop. unfold on_last, st_zoom. by rewrite Hop. Qed.
Lemma on_flow_run {A} (op : st (FlowStore E B M) A) m r f :
  op (flow_store m) = (r, f) → on_flow op m = (r, set_flow f m).
Proof. intros Hop. unfold on_flow, st_zoom. by rewrite Hop. Qed.

(** The tree for the next last chunk. *)
Definition fresh_last : AppendMerkleTree E := empty_tree (replicate 11 []) (Some 11) 0.

Lemma reset_last_chunk_run m : reset_last_chunk m = (Ok tt, set_last fresh_last m).
Proof. done. Qed.

Lemma fresh_last_views : views 11 ([] : list E) 0 fresh_last.
Proof. apply (empty_views 11 (Some 11) 0). lia. Qed.

(** Storing the root of a chunk touches no data. *)
Lemma put_last_batch_root_run F plain m r n :
  pora_leaves m = Ok (length (top_leaves F)) → F ≠ [] → flow_data F plain (flow_store m) →
  ∃ f, put_last_batch_root r n m = (Ok tt, set_flow f m) ∧ flow_data F plain f.
Proof.
  intros Hl HF Hd. unfold put_last_batch_root.
  unfold st_bind at 1, st_reads. rewrite Hl. unfold st_bind at 1, st_lift, checked_sub.
  assert (length F ≠ 0) by (by destruct F). rewrite length_top_leaves.
  rewrite decide_True by dlia. eexists. split; [by apply on_flow_run|].
  destruct Hd as [[Hs1 Hs2 Hs3] Hh H1' H2' H3']. by split.
Qed.

Lemma flow_data_extend F G plain fs : flow_data F plain fs → flow_data (F ++ G) plain fs.
Proof.
  intros [Hs Hh H1' H2' Ha]. split; [done..| |].
  - intros k Hk. apply H2'. rewrite length_app in Hk. lia.
  - intros j bs Hj. apply lookup_app_l_Some. by apply Ha.
Qed.

Lemma head_app_some F G : head F = Some zero → head (F ++ G) = Some zero.
Proof. by destruct F. Qed.

(** ** Storing data *)

Section Data.
#[local] Open Scope Z_scope.

(** An entry of the content after a write is an old entry or a written one. *)
Lemma written_entry s data plain j bs :
  (zlen data mod 256 = 0)%Z → (0 ≤ s)%Z →
  read_range (written s data plain) (Z.of_nat j * 256) 256 = Some bs →
  read_range plain (Z.of_nat j * 256) 256 = Some bs ∨
  ∃ k, Z.of_nat j = s + Z.of_nat k ∧ leaves_of data !! k = Some (leaf_hash bs : E).
Proof.
  intros Hd Hs Hr. destruct (decide (s ≤ Z.of_nat j < s + zlen data / 256)) as [Hin|Hout].
  - right. exists (Z.to_nat (Z.of_nat j - s)). split; [lia|].
    rewrite leaves_of_lookup by (done || lia). f_equal. f_equal.
    rewrite (read_range_ext _ (piece (MkPartial s data))) in Hr.
    + rewrite read_range_piece in Hr by (cbn [start_sector pb_data]; dlia).
      injection Hr as <-. cbn [start_sector pb_data]. do 3 f_equal. lia.
    + intros k Hk. unfold written. destruct (piece_is_Some (MkPartial s data) k) as [y Hy];
        [cbn [start_sector pb_data]; dlia|]. rewrite Hy. by destruct (plain k).
  - left. rewrite <- Hr. apply read_range_ext. intros k Hk. unfold written.
    rewrite piece_None; [by destruct (plain k)|]. cbn [start_sector pb_data]. dlia.
Qed.

Lemma flow_data_write F plain fs data :
  let s := start_index data in
  let e := s + zlen (ca_data data) / 256 in
  let plain' := written s (ca_data data) plain in
  flow_data F plain fs → 0 < zlen (ca_data data) → zlen (ca_data data) mod 256 = 0 →
  1 ≤ s → e + 1024 ≤ 2 ^ 64 → e ≤ Z.of_nat (length F) →
  free plain (s * 256) (zlen (ca_data data)) →
  (∀ k x, leaves_of (ca_data data) !! k = Some x → F !! (Z.to_nat s + k)%nat = Some x) →
  ∃ f, append_entries zero keccak data fs = (Ok (completed zero plain' (touched s e)), f) ∧
    flow_data F plain' f.
Proof.
  intros s e plain' [Hm Hh Hf He Ha] Hn Hd Hs Hov Hend Hfree Hmatch.
  destruct (append_entries_run zero keccak keccak_len fs plain data) as (f & Hrun & Hm' & Hkept & _);
    [done|by apply Hf|done..| |].
  { intros i eb _ Hi Hget. by apply (Hh i). }
  exists f. split; [done|]. split; [done|..].
  - intros i eb x Hget Hx. destruct (Hkept i eb Hget) as [->|(old & Hold & ->)]; [|by apply (Hh i)].
    apply new_not_sealed. lia.
  - intros k Hk. unfold plain', written. rewrite piece_None, Hf; [done|lia|]. cbn [start_sector pb_data]. lia.
  - intros k Hk. unfold plain', written. rewrite piece_None, He; [done|lia|].
    cbn [start_sector pb_data]. unfold e in *. dlia.
  - intros j bs Hr. destruct (written_entry s (ca_data data) plain j bs Hd ltac:(lia) Hr) as [Hold|(k & Hj & Hk)].
    + by apply Ha.
    + rewrite <- (Hmatch k _ Hk). f_equal. lia.
Qed.
End Data.

(** ** Growing the last chunk *)

(** The top tree after the last chunk of [F] grew by [G]. *)
Definition grown F G (pora : AppendMerkleTree E) : Prop :=
  leaf_height pora = 10 ∧
  ∃ n, views n (top_leaves (F ++ G)) (length (top_leaves (F ++ G)) - 1) pora.

Lemma grown_leaves F G m :
  grown F G (pora_chunks_merkle m) → pora_leaves m = Ok (length (top_leaves (F ++ G))).
Proof. intros (_ & n & Hv). exact (leaves_views _ _ _ _ Hv). Qed.

Lemma grown_partial F G s pora last pora' last' :
  flow_trees F pora last → grown F G pora' → known G → G ≠ [] →
  length (chunk_tail F) + length G < 1024 →
  views 11 (chunk_tail F ++ G) s last' → s ≤ length (chunk_tail F ++ G) → leaf_height last' = 0 →
  flow_trees (F ++ G) pora' last'.
Proof.
  intros Ht (Hh & n & Hp) HG HGn Hl Hv Hs Hh'. rewrite length_chunk_tail in Hl.
  assert (chunk_tail (F ++ G) = chunk_tail F ++ G) as Htail by (by apply chunk_tail_app).
  split; [apply Forall_app; split; [apply Ht|done]|done|done|..].
  - exists n. rewrite chunk_tail_last_edge; [done|]. rewrite Htail. by destruct (chunk_tail F).
  - rewrite Htail. by eapply views_later.
Qed.

Lemma grown_full F G pora last pora' :
  flow_trees F pora last → grown F G pora' → known G →
  length (chunk_tail F) + length G = 1024 → flow_trees (F ++ G) pora' fresh_last.
Proof.
  intros Ht (Hh & n & Hp) HG Hl. rewrite length_chunk_tail in Hl.
  assert (chunk_tail (F ++ G) = []) as Htail by (apply chunk_tail_nil; rewrite length_app; dlia).
  split; [apply Forall_app; split; [apply Ht|done]|done|done|..].
  - exists n. unfold top_edge. rewrite Htail. eapply views_later; [|done]. lia.
  - rewrite Htail. apply fresh_last_views.
Qed.

Lemma update_last_chunk_run F G s m last' :
  flow_trees F (pora_chunks_merkle m) (last_chunk_merkle m) → chunk_tail F ≠ [] →
  length (chunk_tail F) + length G ≤ 1024 →
  views 11 (chunk_tail F ++ G) s last' → s ≤ length (chunk_tail F ++ G) → leaf_height last' = 0 →
  ∃ pora', update_last_chunk (set_last last' m) = (Ok tt, set_pora pora' (set_last last' m)) ∧
    grown F G pora'.
Proof.
  intros Ht Hne Hl Hv Hs Hh.
  destruct (update_last_chunk_views F G s _ _ last' Ht Hne Hl Hv Hs Hh)
    as (r & pora' & n & Hr & Hup & Hph & Hp).
  exists pora'. split; [|by split; [|exists n]]. unfold update_last_chunk.
  rewrite (st_bind_ok _ _ _ r (set_last last' m)) by (unfold st_reads, last_root; cbn; by rewrite Hr).
  by apply on_pora_run.
Qed.

(** ** Appending subtrees *)

(** The subtree [(d, r)] has the leaves [G]. *)
Definition subtree_of (x : nat * E) (G : list E) : Prop :=
  1 ≤ x.1 ≤ 64 ∧ length G = 2 ^ (x.1 - 1) ∧ known G ∧ layer_at 0 (x.1 - 1) G = [x.2].

Lemma pow2_divides a b : a ≤ b → 2 ^ b mod 2 ^ a = 0.
Proof.
  intros Hab. replace b with (a + (b - a)) by lia. rewrite Nat.pow_add_r, Nat.mul_comm.
  apply Nat.Div0.mod_mul.
Qed.

Lemma mod_mod_pow2 x a b : a ≤ b → (x mod 2 ^ b) mod 2 ^ a = x mod 2 ^ a.
Proof.
  intros Hab. replace b with (a + (b - a)) by lia. rewrite Nat.pow_add_r, Nat.Div0.mod_mul_r.
  rewrite Nat.Div0.add_mod, (Nat.mul_comm (2 ^ a)), Nat.Div0.mod_mul, Nat.add_0_r.
  by rewrite !Nat.Div0.mod_mod.
Qed.

(** A subtree of whole chunks goes to the top tree. *)
Lemma append_top_run F plain m d r G n :
  flow_inv F plain m → subtree_of (d, r) G → 11 ≤ d → length F mod 2 ^ (d - 1) = 0 →
  ∃ m', (on_pora (append_subtree (d - 10) r);; put_last_batch_root r n) m = (Ok tt, m') ∧
    flow_inv (F ++ G) plain m' ∧ tx_store m' = tx_store m.
Proof.
  intros [Hf Ht Hd] (Hd1 & HG & HGk & Hr) Hd11 Hal. cbn [fst snd] in *.
  assert (length F mod 1024 = 0) as HF.
  { rewrite <- (mod_mod_pow2 _ 10 (d - 1)), Hal by lia. done. }
  assert (length G mod 1024 = 0) as HG' by (rewrite HG; apply (pow2_divides 10); lia).
  pose proof (chunk_tail_nil F HF) as Htail. destruct Ht as [Hk Hph Hlh [k Hp] Hl].
  assert (length (F ++ G) mod 1024 = 0) as HFG by (rewrite length_app; dlia).
  assert (top_edge F = length (top_leaves F)) as He by (unfold top_edge; by rewrite Htail).
  rewrite He in Hp.
  destruct (append_subtree_views k (top_leaves F) (d - 10) (top_leaves G) r (pora_chunks_merkle m))
    as (pora' & Hrun & Hv); [done|lia|..].
  - rewrite length_top_leaves. replace (length F) with (length F / 1024 * 1024) in Hal by dlia.
    replace (d - 1) with (10 + (d - 10 - 1)) in Hal by lia.
    rewrite Nat.pow_add_r, (Nat.mul_comm (2 ^ 10)) in Hal. change (2 ^ 10) with 1024 in Hal.
    rewrite Nat.Div0.mul_mod_distr_r in Hal.
    replace ((length F + 1023) / 1024) with (length F / 1024) by dlia. dlia.
  - rewrite length_top_leaves, HG. replace (d - 1) with (10 + (d - 10 - 1)) by lia.
    rewrite Nat.pow_add_r. change (2 ^ 10) with 1024. dlia.
  - unfold top_leaves. by apply layer_at_not_null.
  - rewrite Hph. unfold top_leaves. rewrite (layer_at_add 0 10). rewrite <- Hr. f_equal. lia.
  - rewrite (st_bind_ok _ _ m tt (set_pora pora' m)) by (by apply on_pora_run).
    rewrite <- top_leaves_app in Hv by done.
    destruct (put_last_batch_root_run (F ++ G) plain (set_pora pora' m) r n) as (f & Hrun2 & Hd').
    + exact (leaves_views _ _ _ _ Hv).
    + by destruct F.
    + by apply flow_data_extend.
    + eexists. split; [exact Hrun2|]. split; [|done]. split; [by apply head_app_some| |done].
      cbn. pose proof (chunk_tail_nil _ HFG) as Htail'. split.
      * by apply Forall_app.
      * pose proof (keeps_append_subtree (d - 10) r (pora_chunks_merkle m)) as Hkh.
        rewrite Hrun in Hkh. simpl in Hkh. congruence.
      * done.
      * eexists. unfold top_edge. rewrite Htail'. exact Hv.
      * by rewrite Htail', <- Htail.
Qed.
Lemma depth_chunk k : k ≤ 1024 → depth k ≤ 11.
Proof. intros Hk. etransitivity; [apply (depth_mono _ 1024 Hk)|]. done. Qed.

(** The tree of the last chunk after a subtree was appended. *)
Lemma last_append_subtree F d r G pora last :
  flow_trees F pora last → subtree_of (d, r) G → length F mod 2 ^ (d - 1) = 0 →
  length (chunk_tail F) + length G ≤ 1024 →
  ∃ last', append_subtree d r last = (Ok tt, last') ∧ leaf_height last' = 0 ∧
    views 11 (chunk_tail F ++ G) (length (chunk_tail F ++ G)) last'.
Proof.
  intros Ht (Hd1 & HG & HGk & Hr) Hal Hl. cbn [fst snd] in *.
  assert (d - 1 ≤ 10) as Hd10.
  { destruct (decide (d - 1 ≤ 10)) as [|Hgt]; [done|]. exfalso.
    pose proof (Nat.pow_le_mono_r 2 11 (d - 1) ltac:(lia) ltac:(lia)) as Hp.
    change (2 ^ 11) with 2048 in Hp. lia. }
  destruct (append_subtree_views 11 (chunk_tail F) d G r last (ft_last _ _ _ Ht))
    as (last' & Hrun & Hv); [done| |done|done| |].
  - rewrite length_chunk_tail. change 1024 with (2 ^ 10). by rewrite mod_mod_pow2.
  - by rewrite (ft_last_height _ _ _ Ht).
  - exists last'. split; [done|]. split.
    + pose proof (keeps_append_subtree d r last) as Hk. rewrite Hrun in Hk. simpl in Hk.
      rewrite Hk. apply Ht.
    + assert (depth (length (chunk_tail F ++ G)) ≤ 11) as Hdep
        by (apply depth_chunk; rewrite length_app; lia).
      replace 11 with (max (max 11 d) (depth (length (chunk_tail F ++ G)))) by lia. done.
Qed.

(** The end of an operation on the last chunk: a full chunk is closed. *)
Lemma close_chunk_run F G s plain m pora' last' :
  flow_inv F plain m → grown F G pora' → known G → G ≠ [] →
  length (chunk_tail F) + length G ≤ 1024 →
  views 11 (chunk_tail F ++ G) s last' → s ≤ length (chunk_tail F ++ G) → leaf_height last' = 0 →
  ∃ m', (if (Z.of_nat (length (chunk_tail F ++ G)) =? PORA_CHUNK_SIZE)%Z then
           let! r := st_reads last_root in
           put_last_batch_root r 1;; reset_last_chunk
         else st_ret tt) (set_pora pora' (set_last last' m)) = (Ok tt, m') ∧
    flow_inv (F ++ G) plain m' ∧ tx_store m' = tx_store m.
Proof.
  intros [Hf Ht Hd] Hg HG HGn Hl Hv Hs Hh. unfold PORA_CHUNK_SIZE.
  destruct (Z.eqb_spec (Z.of_nat (length (chunk_tail F ++ G))) 1024) as [Heq|Hne]; rewrite length_app in *.
  - destruct (last_tree_root (chunk_tail F ++ G) s last') as (r & Hr & _ & _);
      [done|rewrite length_app; lia|done|by destruct (chunk_tail F), G|rewrite length_app; lia|].
    set (m1 := set_pora pora' (set_last last' m)).
    rewrite (st_bind_ok _ _ m1 r m1) by (unfold st_reads, last_root, m1; cbn; by rewrite Hr).
    destruct (put_last_batch_root_run (F ++ G) plain m1 r 1) as (f & Hrun & Hd').
    { by apply grown_leaves. }
    { by destruct F, G. }
    { by apply flow_data_extend. }
    rewrite (st_bind_ok _ _ m1 tt (set_flow f m1)) by done. rewrite reset_last_chunk_run.
    eexists. split; [done|]. split; [|done]. split; [by apply head_app_some| |done].
    eapply grown_full; [done|done|done|lia].
  - eexists. split; [done|]. split; [|done]. split; [by apply head_app_some| |by apply flow_data_extend].
    eapply grown_partial; [done|done|done|done|lia|exact Hv|rewrite length_app; lia|done].
Qed.

Lemma append_in_last_chunk_run F plain m d r G :
  flow_inv F plain m → subtree_of (d, r) G → length F mod 2 ^ (d - 1) = 0 →
  length (chunk_tail F) + length G ≤ 1024 →
  ∃ m', append_in_last_chunk d (2 ^ (d - 1)) r m = (Ok tt, m') ∧
    flow_inv (F ++ G) plain m' ∧ tx_store m' = tx_store m.
Proof.
  intros Hinv Hsub Hal Hl. pose proof Hinv as [Hf Ht Hd]. pose proof Hsub as (Hd1 & HG & HGk & _).
  cbn [fst snd] in *. assert (G ≠ []) as HGn.
  { intros ->. pose proof (Nat.pow_nonzero 2 (d - 1)). simpl in *. lia. }
  destruct (last_append_subtree F d r G _ _ Ht Hsub Hal Hl) as (last' & Hrun & Hh & Hv).
  unfold append_in_last_chunk.
  rewrite (st_bind_ok _ _ m tt (set_last last' m)) by (by apply on_last_run).
  rewrite (st_bind_ok _ _ _ (length (chunk_tail F ++ G)) (set_last last' m)).
  2: { unfold st_reads, last_leaves. cbn [set_last last_chunk_merkle].
       by rewrite (leaves_views _ _ _ _ Hv). }
  assert (∃ pora', (if length (chunk_tail F ++ G) =? 2 ^ (d - 1) then
      let! r := st_reads last_root in on_pora (append_subtree 1 r)
    else update_last_chunk) (set_last last' m) = (Ok tt, set_pora pora' (set_last last' m)) ∧
    grown F G pora') as (pora' & Hrun2 & Hg).
  { destruct (decide (chunk_tail F = [])) as [Hn|Hn].
    - rewrite Hn in *. simpl. rewrite HG, Nat.eqb_refl.
      destruct (append_chunk_views F G (length G) _ _ last' Ht Hn HGn Hl Hv ltac:(done) Hh)
        as (r' & pora' & n & Hr & Hup & Hph & Hp).
      exists pora'. split; [|by split; [|exists n]].
      rewrite (st_bind_ok _ _ _ r' (set_last last' m)) by (unfold st_reads, last_root; cbn; by rewrite Hr).
      apply on_pora_run. cbn [set_last pora_chunks_merkle]. rewrite append_subtree_1; [done|].
      destruct (ft_pora _ _ _ Ht) as [k Hk]. destruct (views_0 _ _ _ _ Hk) as (X & rest & -> & _). done.
    - rewrite (proj2 (Nat.eqb_neq _ _)).
      + by eapply update_last_chunk_run.
      + rewrite length_app, HG. destruct (chunk_tail F); [done|]. simpl. lia. }
  rewrite (st_bind_ok _ _ _ tt _ Hrun2). by eapply close_chunk_run.
Qed.

(** Below a multiple of [b] the next multiple of [b] still fits. *)
Lemma aligned_fits a b c : a mod b = 0 → a < c → c mod b = 0 → a + b ≤ c.
Proof.
  rewrite !Nat.Lcm0.mod_divide. intros [x ->] Hlt [y ->]. assert (x < y) by nia. nia.
Qed.

Lemma append_one_subtree_run F plain m x G :
  flow_inv F plain m → subtree_of x G → length F mod 2 ^ (x.1 - 1) = 0 →
  ∃ m', append_one_subtree x m = (Ok tt, m') ∧ flow_inv (F ++ G) plain m' ∧ tx_store m' = tx_store m.
Proof.
  destruct x as [d r]. intros Hinv Hsub Hal. pose proof Hsub as (Hd1 & HG & HGk & Hr). cbn [fst snd] in *.
  unfold append_one_subtree, checked_sub. rewrite decide_True by lia.
  rewrite (st_bind_ok _ _ m (d - 1) m) by done.
  unfold shl1. rewrite (proj2 (Nat.ltb_lt _ _)) by lia.
  rewrite (st_bind_ok _ _ m (2 ^ (d - 1)) m) by done.
  rewrite (st_bind_ok _ _ m (length F mod 1024) m).
  2: { unfold st_reads. by rewrite (last_leaves_run F m (fi_trees _ _ _ Hinv)). }
  unfold PORA_CHUNK_SIZE. change (Z.to_nat (log2_pow2 1024)) with 10. change (Z.to_nat 1024) with 1024.
  destruct (decide (11 ≤ d)) as [Hbig|Hsmall].
  - assert (length F mod 1024 = 0) as Ht.
    { rewrite <- (mod_mod_pow2 _ 10 (d - 1)), Hal by lia. done. }
    rewrite Ht. cbn [Nat.eqb andb]. destruct (decide (d = 11)) as [->|Hne].
    + change (2 ^ (11 - 1)) with 1024. cbn [Z.of_nat Z.eqb].
      change (append_subtree 1 r) with (append_subtree (11 - 10) r). by apply append_top_run.
    + pose proof (Nat.pow_le_mono_r 2 11 (d - 1) ltac:(lia) ltac:(lia)) as Hp.
      change (2 ^ 11) with 2048 in Hp.
      rewrite (proj2 (Z.eqb_neq _ _)), (proj2 (Z.leb_gt (_ + _) _)) by lia.
      rewrite (proj2 (Z.leb_le _ _)) by lia. cbn [assert].
      rewrite !(st_bind_ok _ _ m tt m) by done. rewrite decide_True by lia.
      rewrite (st_bind_ok _ _ m (d - 10) m) by done. by apply append_top_run.
  - pose proof (Nat.pow_le_mono_r 2 (d - 1) 9 ltac:(lia) ltac:(lia)) as Hp. change (2 ^ 9) with 512 in Hp.
    rewrite (proj2 (Z.eqb_neq _ _)), andb_false_r by lia.
    assert (length F mod 1024 + 2 ^ (d - 1) ≤ 1024) as Hfit.
    { apply aligned_fits; [|dlia|].
      - change 1024 with (2 ^ 10). by rewrite mod_mod_pow2 by lia.
      - change 1024 with (2 ^ 10). apply pow2_divides. lia. }
    rewrite (proj2 (Z.leb_le _ _)) by lia.
    apply append_in_last_chunk_run; [done|done|done|]. by rewrite length_chunk_tail, HG.
Qed.
End Invariant.
