(* ===== verification/LogPadding.v ===== *)
(** * Padding the flow

    Before the subtrees of a transaction, [pad_tx] fills the flow with zero
    entries up to a multiple of the first subtree: first the last chunk, then
    whole chunks. *)

From stdpp Require Import fin_maps sorting.
From S2P Require Import Prelude Bytes IonianSpec Hashing MerkleProof MerkleRead AppendMerkle MerkleSpec MerkleAppend MerklePartial MerkleFill SharedTypes MerkleLight SealCodec SealInfo ChunkData ChunkRuns EntryBatch EntryBatchProofs FlowStore FlowReads FlowWrites TxStore LogManager FlowTree LogInvariant.

(** ** Zero data *)

Lemma zreplicate_nat {A} (n : nat) (x : A) : zreplicate (Z.of_nat n) x = replicate n x.
Proof. unfold zreplicate. by rewrite Nat2Z.id. Qed.

Lemma zslice_zeros (a b n : Z) :
  (0 ≤ a ≤ b)%Z → (b ≤ n)%Z → zslice (zreplicate n 0%Z) a b = Ok (zreplicate (b - a) 0%Z).
Proof.
  intros Hab Hbn. unfold zslice. rewrite get_range_Some by (rewrite ?zlen_zreplicate; lia). simpl.
  f_equal. unfold ztake, zdrop, zreplicate. rewrite drop_replicate, take_replicate. f_equal. lia.
Qed.

Section Padding.
Context {E : Type} `{HashElement E} `{!Algorithm E} `{!NeverNull E} (zero : E) `{!FlowHashes E zero}.
Context (keccak : list Z → list Z) (keccak_len : ∀ x, length (keccak x) = 32).
Context {B : Type} `{BitmapOps B} `{!BitmapLaws B}.
Context `{FinMap Z M} {N : Type → Type} `{FinMap E N}.
Implicit Types (F G : list E) (m : LogManager E B M N) (plain : Z → option Z).

(** The leaf of a padding entry. *)
Definition pad_leaf : E := leaf_hash (zreplicate 256 0%Z).

Lemma leaves_of_zeros n : leaves_of (zreplicate (Z.of_nat n * 256) 0%Z) = replicate n pad_leaf.
Proof.
  induction n as [|n IH]; [done|].
  replace (zreplicate (Z.of_nat (S n) * 256) 0%Z)
    with (zreplicate 256 0%Z ++ zreplicate (Z.of_nat n * 256) 0%Z).
  - unfold leaves_of in *. rewrite (chunks_app 256) by (done || lia). rewrite fmap_cons, IH. done.
  - unfold zreplicate. rewrite <- replicate_add. f_equal. lia.
Qed.

Lemma known_pad n : known (replicate n pad_leaf).
Proof. apply Forall_replicate, leaf_not_null. Qed.

(** The content after [n] padding entries were written at the end of [F]. *)
Definition padded F n plain : Z → option Z :=
  written (Z.of_nat (length F)) (zreplicate (Z.of_nat n * 256) 0%Z) plain.

Lemma padded_app F a b plain k :
  padded (F ++ replicate a pad_leaf) b (padded F a plain) k = padded F (a + b) plain k.
Proof.
  unfold padded, written. rewrite length_app, length_replicate.
  replace (zreplicate (Z.of_nat (a + b) * 256) 0%Z)
    with (zreplicate (Z.of_nat a * 256) 0%Z ++ zreplicate (Z.of_nat b * 256) 0%Z).
  - rewrite piece_app by (rewrite zlen_zreplicate; dlia).
    rewrite zlen_zreplicate, Z.div_mul, Nat2Z.inj_add by lia.
    destruct (piece (MkPartial (Z.of_nat (length F)) _) k) eqn:H1';
      destruct (piece (MkPartial (Z.of_nat (length F) + Z.of_nat a) _) k) eqn:H2'; simpl;
      try by destruct (plain k).
    apply piece_Some in H1', H2'. cbn [start_sector pb_data] in *. rewrite zlen_zreplicate in * by lia. lia.
  - unfold zreplicate. rewrite <- replicate_add. f_equal. lia.
Qed.

Lemma padded_0 F plain k : padded F 0 plain k = plain k.
Proof. unfold padded, written. rewrite piece_None; [by destruct (plain k)|]. simpl. unfold zlen. simpl. lia. Qed.

Lemma head_length F : head F = Some zero → 1 ≤ length F.
Proof. destruct F; simpl; [done|lia]. Qed.

(** Storing the padding. *)
Lemma store_padding F plain (fs : FlowStore E B M) n :
  head F = Some zero → flow_data keccak F plain fs → 1 ≤ n →
  (Z.of_nat (length F + n) + 1024 ≤ 2 ^ 64)%Z →
  ∃ roots f, append_entries zero keccak
      (MkChunkArray (zreplicate (Z.of_nat n * 256) 0%Z) (Z.of_nat (length F))) fs = (Ok roots, f) ∧
    flow_data keccak (F ++ replicate n pad_leaf) (padded F n plain) f.
Proof.
  intros Hf Hd Hn Hov. apply head_length in Hf.
  assert (zlen (zreplicate (Z.of_nat n * 256) 0%Z) = Z.of_nat n * 256)%Z as Hz by (by rewrite zlen_zreplicate by lia).
  destruct (flow_data_write zero keccak keccak_len (F ++ replicate n pad_leaf) plain fs
    (MkChunkArray (zreplicate (Z.of_nat n * 256) 0%Z) (Z.of_nat (length F)))) as (f & Hrun & Hd').
  all: cbn [start_index ca_data]; rewrite ?Hz, ?Z.div_mul by lia.
  - by apply flow_data_extend.
  - lia.
  - by rewrite Z.mod_mul by lia.
  - lia.
  - lia.
  - rewrite length_app, length_replicate. lia.
  - intros k Hk. apply (fd_end _ _ _ _ Hd). lia.
  - intros k x. rewrite leaves_of_zeros. intros Hx. rewrite Nat2Z.id, lookup_app_r by lia.
    by replace (length F + k - length F) with k by lia.
  - eexists _, f. split; [exact Hrun|done].
Qed.

(** Padding inside the last chunk. *)
Lemma pad_last_chunk_run F plain m n :
  flow_inv zero keccak F plain m → chunk_tail F ≠ [] → 1 ≤ n → length (chunk_tail F) + n ≤ 1024 →
  (Z.of_nat (length F + n) + 1024 ≤ 2 ^ 64)%Z →
  let G := replicate n pad_leaf in
  ∃ f pora' last' s,
    pad_last_chunk zero keccak (zreplicate (Z.of_nat n * 256) 0%Z) (Z.of_nat (length F)) m =
      (Ok tt, set_flow f (set_pora pora' (set_last last' m))) ∧
    grown F G pora' ∧ views 11 (chunk_tail F ++ G) s last' ∧ s ≤ length (chunk_tail F ++ G) ∧
    leaf_height last' = 0 ∧ flow_data keccak (F ++ G) (padded F n plain) f.
Proof.
  intros [Hf Ht Hd] Hne Hn Hl Hov G.
  destruct (append_list_views 11 (chunk_tail F) G (last_chunk_merkle m) (ft_last _ _ _ Ht) (known_pad n))
    as (last' & Hrun & Hv).
  assert (length G = n) as HG by apply length_replicate.
  assert (depth (length (chunk_tail F ++ G)) ≤ 11) as Hdep by (apply depth_chunk; rewrite length_app; lia).
  rewrite Nat.max_l in Hv by done.
  assert (leaf_height last' = 0) as Hh.
  { pose proof (keeps_append_list G (last_chunk_merkle m)) as Hk. rewrite Hrun in Hk. simpl in Hk.
    rewrite Hk. apply Ht. }
  destruct (update_last_chunk_run F G (length (chunk_tail F)) m last' Ht Hne) as (pora' & Hup & Hg);
    [lia|done|rewrite length_app; lia|done|].
  destruct (store_padding F plain (flow_store m) n Hf Hd Hn Hov) as (roots & f & Hst & Hd').
  exists f, pora', last', (length (chunk_tail F)). split; [|split_and!; [done|done|rewrite length_app; lia|done|done]].
  unfold pad_last_chunk. rewrite (st_bind_ok _ _ m G m).
  2: { unfold st_lift. rewrite data_to_merkle_leaves_run; [by rewrite leaves_of_zeros|].
       by rewrite zlen_zreplicate, Z.mod_mul by lia. }
  rewrite (st_bind_ok _ _ m tt (set_last last' m)) by (by apply on_last_run).
  rewrite (st_bind_ok _ _ _ _ _ Hup).
  rewrite (st_bind_ok _ _ _ roots (set_flow f (set_pora pora' (set_last last' m)))) by (by apply on_flow_run).
  done.
Qed.

(** One chunk of padding; [n] is 1024. *)
Lemma pad_one_chunk_run F plain m n :
  flow_inv zero keccak F plain m → length F mod 1024 = 0 → n = 1024 →
  (Z.of_nat (length F + n) + 1024 ≤ 2 ^ 64)%Z →
  let G := replicate n pad_leaf in
  ∃ tree r pora' roots f, new G 0 None = Ok tree ∧ tree_root tree = Ok r ∧
    append r (pora_chunks_merkle m) = (Ok tt, pora') ∧
    append_entries zero keccak
      (MkChunkArray (zreplicate (Z.of_nat n * 256) 0%Z) (Z.of_nat (length F)))
      (flow_store m) = (Ok roots, f) ∧
    flow_inv zero keccak (F ++ G) (padded F n plain) (set_flow f (set_pora pora' m)).
Proof.
  intros [Hf Ht Hd] HF Hn Hov G. pose proof (chunk_tail_nil F HF) as Htail.
  assert (length G = n) as HG by apply length_replicate.
  assert (known G) as HGk by apply known_pad. assert (G ≠ []) as HGn by (intros Hg; rewrite Hg in HG; simpl in HG; lia).
  destruct (store_padding F plain (flow_store m) n Hf Hd ltac:(lia) Hov) as (roots & f & Hst & Hd').
  fold G in Hd'. clearbody G.
  destruct (new_root G) as (tree & r & Hnew & Hroot & Htop); [lia|done|].
  destruct Ht as [Hk Hph Hlh [k Hp] Hl]. unfold top_edge in Hp. rewrite Htail in Hp.
  destruct (chunk_top G) as (r' & Htop' & _); [done|lia|].
  assert (r' = r) as -> by (rewrite Htop' in Htop; by injection Htop).
  destruct (append_views k (top_leaves F) r (pora_chunks_merkle m) Hp) as (pora' & Hrun & Hv).
  { by eapply layer_root_known. }
  exists tree, r, pora', roots, f. split_and!; [done..|]. split; [by apply head_app_some| |done].
  assert (chunk_tail (F ++ G) = []) as Htail' by (apply chunk_tail_nil; rewrite length_app; dlia).
  change (flow_trees (F ++ G) pora' (last_chunk_merkle m)). split.
  - by apply Forall_app.
  - pose proof (keeps_append r (pora_chunks_merkle m)) as Hkh. rewrite Hrun in Hkh. simpl in Hkh. congruence.
  - done.
  - eexists. unfold top_edge. rewrite Htail', top_leaves_app by done. unfold top_leaves at 2 4.
    rewrite Htop'. eapply views_later; [|exact Hv]. rewrite length_app. lia.
  - by rewrite Htail', <- Htail.
Qed.

(** The loop over the whole chunks of the padding. *)
Lemma pad_chunks_run c fuel F plain m (start first total : Z) :
  flow_inv zero keccak F plain m → length F mod 1024 = 0 →
  Z.of_nat (length F) = (first + start)%Z → (0 ≤ start)%Z → total = (start + 1024 * Z.of_nat c)%Z →
  c ≤ fuel → (Z.of_nat (length F) + 1024 * Z.of_nat c + 1024 ≤ 2 ^ 64)%Z →
  ∃ m', pad_chunks zero keccak fuel (zreplicate (total * 256) 0%Z) first start m = (Ok total, m') ∧
    flow_inv zero keccak (F ++ replicate (1024 * c) pad_leaf) (padded F (1024 * c) plain) m' ∧
    tx_store m' = tx_store m.
Proof.
  revert fuel F plain m start. induction c as [|c IH]; intros fuel F plain m start Hinv HF Hpos Hs Ht Hfuel Hov.
  { exists m. split; [|split; [|done]].
    - replace total with start by lia.
      destruct fuel; cbn [pad_chunks]; unfold PORA_CHUNK_SIZE, ENTRY_SIZE;
        rewrite zlen_zreplicate, (proj2 (Z.ltb_lt _ _)) by lia; done.
    - rewrite Nat.mul_0_r, app_nil_r. eapply flow_inv_ext; [|exact Hinv].
      intros k. by rewrite padded_0. }
  destruct fuel as [|fuel]; [lia|]. cbn [pad_chunks]. unfold PORA_CHUNK_SIZE, ENTRY_SIZE.
  rewrite zlen_zreplicate, (proj2 (Z.ltb_ge _ _)) by lia.
  rewrite zslice_zeros by lia.
  assert (∃ n, n = 1024) as [n Hn] by (by eexists).
  replace ((start + 1024) * 256 - start * 256)%Z with (Z.of_nat n * 256)%Z by lia.
  destruct (pad_one_chunk_run F plain m n Hinv HF Hn ltac:(lia))
    as (tree & r & pora' & roots & f & Hnew & Hroot & Happ & Hst & Hinv').
  rewrite (st_bind_ok _ _ m (zreplicate (Z.of_nat n * 256) 0%Z) m) by done.
  rewrite (st_bind_ok _ _ m (replicate n pad_leaf) m).
  2: { unfold st_lift. rewrite data_to_merkle_leaves_run; [by rewrite leaves_of_zeros|].
       by rewrite zlen_zreplicate, Z.mod_mul by lia. }
  rewrite (st_bind_ok _ _ m tree m) by (unfold st_lift; by rewrite Hnew).
  rewrite (st_bind_ok _ _ m r m) by (unfold st_lift; by rewrite Hroot).
  rewrite (st_bind_ok _ _ m tt (set_pora pora' m)) by (by apply on_pora_run).
  rewrite (st_bind_ok _ _ _ (Z.of_nat (length F)) (set_pora pora' m)).
  2: { unfold st_lift, uadd. rewrite (proj2 (Z.ltb_lt _ _)) by lia. do 2 f_equal. lia. }
  rewrite (st_bind_ok _ _ _ roots (set_flow f (set_pora pora' m))) by (by apply on_flow_run).
  destruct (IH fuel (F ++ replicate n pad_leaf) (padded F n plain) (set_flow f (set_pora pora' m))
    (start + 1024)%Z Hinv') as (m' & Hrun & Hinv2 & Htx).
  1-6: rewrite ?length_app, ?length_replicate; dlia.
  exists m'. split; [done|]. split; [|done].
  replace (1024 * S c) with (n + 1024 * c) by lia. rewrite replicate_add, (assoc_L (++)).
  eapply flow_inv_ext; [|exact Hinv2]. intros k. apply padded_app.
Qed.

(** The number of padding entries before a subtree of [size] entries. *)
Definition pad_count (len size : nat) : nat := (size - len mod size) mod size.

Lemma pad_count_aligned len size : size ≠ 0 → (len + pad_count len size) mod size = 0.
Proof.
  intros Hs. unfold pad_count. pose proof (Nat.mod_upper_bound len size Hs).
  rewrite Nat.Div0.add_mod_idemp_r, Nat.Div0.add_mod.
  destruct (decide (len mod size = 0)) as [->|Hne].
  - by rewrite Nat.sub_0_r, Nat.Div0.mod_same, Nat.Div0.mod_0_l.
  - rewrite (Nat.mod_small (size - len mod size)) by lia.
    replace (len mod size + (size - len mod size)) with size by lia. apply Nat.Div0.mod_same.
Qed.

(** Padding to a power of two ends in the last chunk or at the end of a chunk. *)
Lemma pad_shape len k :
  let p := pad_count len (2 ^ k) in
  len mod 1024 + p < 1024 ∨ (len + p) mod 1024 = 0.
Proof.
  intros p. pose proof (pad_count_aligned len (2 ^ k) ltac:(by apply Nat.pow_nonzero)) as Hal. fold p in Hal.
  destruct (decide (10 ≤ k)) as [Hk|Hk].
  - right. change 1024 with (2 ^ 10). by rewrite <- (mod_mod_pow2 _ 10 k), Hal.
  - assert (p < 2 ^ k) as Hp by (apply Nat.mod_upper_bound; by apply Nat.pow_nonzero).
    assert (2 ^ k ≤ 512) as H512 by (apply (Nat.pow_le_mono_r 2 k 9); lia).
    destruct (decide (len mod 1024 + p < 1024)); [by left|right].
    assert ((len mod 1024 + p) mod 2 ^ k = 0) as Hal'.
    { etransitivity; [|exact Hal]. change 1024 with (2 ^ 10).
      rewrite Nat.Div0.add_mod, mod_mod_pow2 by lia. by rewrite <- Nat.Div0.add_mod. }
    assert (len mod 1024 + p = 1024) as Heq.
    { assert (1024 mod 2 ^ k = 0) as Hd by (change 1024 with (2 ^ 10); apply pow2_divides; lia).
      destruct (decide (len mod 1024 + p = 1024)); [done|].
      pose proof (aligned_fits 1024 (2 ^ k) (len mod 1024 + p) Hd ltac:(lia) Hal'). dlia. }
    dlia.
Qed.

Lemma pad_shape_full len k :
  len mod 1024 = 0 → pad_count len (2 ^ k) ≠ 0 → (len + pad_count len (2 ^ k)) mod 1024 = 0.
Proof.
  intros Hl Hp. destruct (decide (10 ≤ k)) as [Hk|Hk].
  - change 1024 with (2 ^ 10). rewrite <- (mod_mod_pow2 _ 10 k), pad_count_aligned; [done| |done].
    by apply Nat.pow_nonzero.
  - exfalso. apply Hp. unfold pad_count.
    assert (len mod 2 ^ k = 0) as ->.
    { rewrite <- (mod_mod_pow2 _ k 10) by lia. change (2 ^ 10) with 1024. rewrite Hl. apply Nat.Div0.mod_0_l. }
    rewrite Nat.sub_0_r. apply Nat.Div0.mod_same.
Qed.

(** Closing the last chunk with padding. *)
Lemma pad_close_run F plain m n :
  flow_inv zero keccak F plain m → chunk_tail F ≠ [] → length (chunk_tail F) + n = 1024 →
  (Z.of_nat (length F + n) + 1024 ≤ 2 ^ 64)%Z →
  ∃ m', (pad_last_chunk zero keccak (zreplicate (Z.of_nat n * 256) 0%Z) (Z.of_nat (length F));;
         reset_last_chunk) m = (Ok tt, m') ∧
    flow_inv zero keccak (F ++ replicate n pad_leaf) (padded F n plain) m' ∧ tx_store m' = tx_store m.
Proof.
  intros Hinv Hne Hn Hov.
  assert (length (chunk_tail F) < 1024) by (rewrite length_chunk_tail; dlia).
  destruct (pad_last_chunk_run F plain m n) as (f & pora' & last' & s & Hrun & Hg & Hv & Hs & Hh & Hd);
    [done|done|lia|lia|done|].
  rewrite (st_bind_ok _ _ _ _ _ Hrun), reset_last_chunk_run. eexists. split; [done|]. split; [|done].
  split; [apply head_app_some, Hinv| |done].
  change (flow_trees (F ++ replicate n pad_leaf) pora' fresh_last).
  eapply grown_full; [apply Hinv|done|apply known_pad|by rewrite length_replicate].
Qed.

(** Whole chunks only: the last chunk is full. *)
Lemma pad_flow_full F plain m p :
  flow_inv zero keccak F plain m → length F mod 1024 = 0 → p mod 1024 = 0 →
  (Z.of_nat (length F + p) + 1024 ≤ 2 ^ 64)%Z →
  ∃ m', pad_flow zero keccak (zreplicate (Z.of_nat p * 256) 0%Z) (Z.of_nat (length F)) m = (Ok tt, m') ∧
    flow_inv zero keccak (F ++ replicate p pad_leaf) (padded F p plain) m' ∧ tx_store m' = tx_store m.
Proof.
  intros Hinv Hl Hp Hov. unfold pad_flow, PORA_CHUNK_SIZE, ENTRY_SIZE.
  rewrite (st_bind_ok _ _ m (length F mod 1024) m).
  2: { unfold st_reads. by rewrite (last_leaves_run F m (fi_trees _ _ _ _ _ Hinv)). }
  rewrite Hl, zlen_zreplicate by lia. cbn [Nat.eqb].
  rewrite (st_bind_ok _ _ m 0%Z m) by done. rewrite (proj2 (Z.ltb_ge _ _)) by lia. cbn [Z.eqb negb].
  rewrite (st_bind_ok _ _ m tt m) by done. change (0 / 256)%Z with 0%Z.
  destruct (pad_chunks_run (p / 1024) (length (zreplicate (Z.of_nat p * 256) 0%Z)) F plain m 0
    (Z.of_nat (length F)) (Z.of_nat p)) as (m' & Hrun & Hinv' & Htx); [done|done|lia|lia|dlia| |dlia|].
  { unfold zreplicate. rewrite length_replicate. dlia. }
  rewrite (st_bind_ok _ _ _ _ _ Hrun), Z.eqb_refl. exists m'.
  by replace (1024 * (p / 1024)) with p in Hinv' by dlia.
Qed.

(** The last chunk is padded first. *)
Lemma pad_flow_partial F plain m p :
  flow_inv zero keccak F plain m → length F mod 1024 ≠ 0 → 1 ≤ p →
  length F mod 1024 + p < 1024 ∨ (length F + p) mod 1024 = 0 →
  (Z.of_nat (length F + p) + 1024 ≤ 2 ^ 64)%Z →
  ∃ m', pad_flow zero keccak (zreplicate (Z.of_nat p * 256) 0%Z) (Z.of_nat (length F)) m = (Ok tt, m') ∧
    flow_inv zero keccak (F ++ replicate p pad_leaf) (padded F p plain) m' ∧ tx_store m' = tx_store m.
Proof.
  intros Hinv Hl Hp1 Hshape Hov. unfold pad_flow, PORA_CHUNK_SIZE, ENTRY_SIZE.
  assert (chunk_tail F ≠ []) as Hne by (intros Hn; apply Hl; by rewrite <- length_chunk_tail, Hn).
  rewrite (st_bind_ok _ _ m (length F mod 1024) m).
  2: { unfold st_reads. by rewrite (last_leaves_run F m (fi_trees _ _ _ _ _ Hinv)). }
  rewrite (proj2 (Nat.eqb_neq _ _)), zlen_zreplicate by lia. unfold usub.
  rewrite (proj2 (Z.leb_le _ _)) by dlia. cbn [res_bind].
  set (n := 1024 - length F mod 1024).
  rewrite (st_bind_ok _ _ m (Z.of_nat n * 256)%Z m) by (unfold st_lift; do 3 f_equal; unfold n; dlia).
  assert (length (chunk_tail F) + n = 1024) as Hn by (rewrite length_chunk_tail; unfold n; dlia).
  destruct (Z.ltb_spec (Z.of_nat p * 256) (Z.of_nat n * 256)) as [Hlt|Hge].
  - destruct (pad_last_chunk_run F plain m p) as (f & pora' & last' & s & Hrun & Hg & Hv & Hs & Hh & Hd);
      [done|done|lia|lia|done|].
    rewrite Hrun. eexists. split; [done|]. split; [|done]. split; [apply head_app_some, Hinv| |done].
    change (flow_trees (F ++ replicate p pad_leaf) pora' last').
    eapply grown_partial; [apply Hinv|done|apply known_pad|by destruct p; [lia|]|rewrite length_replicate; lia|done..].
  - rewrite (proj2 (Z.eqb_neq _ _)) by (unfold n; dlia). cbn [negb].
    destruct (pad_close_run F plain m n Hinv Hne Hn ltac:(lia)) as (m1 & Hrun1 & Hinv1 & Htx1).
    rewrite (st_bind_ok _ _ m tt m1).
    2: { rewrite zslice_zeros, Z.sub_0_r by lia. unfold st_bind at 1, st_lift. exact Hrun1. }
    rewrite Z.div_mul by lia.
    destruct (pad_chunks_run ((p - n) / 1024) (length (zreplicate (Z.of_nat p * 256) 0%Z))
      (F ++ replicate n pad_leaf) (padded F n plain) m1 (Z.of_nat n)
      (Z.of_nat (length F)) (Z.of_nat p)) as (m' & Hrun & Hinv' & Htx);
      [done|rewrite length_app, length_replicate; unfold n; dlia|rewrite length_app, length_replicate; lia|
       lia|unfold n in *; dlia| |rewrite length_app, length_replicate; unfold n in *; dlia|].
    { unfold zreplicate. rewrite length_replicate. dlia. }
    rewrite (st_bind_ok _ _ _ _ _ Hrun), Z.eqb_refl. exists m'. split; [done|]. split; [|by rewrite Htx].
    replace (1024 * ((p - n) / 1024)) with (p - n) in Hinv' by (unfold n in *; dlia).
    rewrite <- (assoc_L (++)), <- replicate_add in Hinv'. replace (n + (p - n)) with p in Hinv' by lia.
    eapply flow_inv_ext; [|exact Hinv']. intros j. rewrite padded_app. f_equal. lia.
Qed.

Lemma pad_tx_run F plain m k :
  let p := pad_count (length F) (2 ^ k) in
  flow_inv zero keccak F plain m → (Z.of_nat (length F + p) + 1024 ≤ 2 ^ 64)%Z →
  ∃ m', pad_tx zero keccak (Z.of_nat (2 ^ k)) m = (Ok tt, m') ∧
    flow_inv zero keccak (F ++ replicate p pad_leaf) (padded F p plain) m' ∧ tx_store m' = tx_store m.
Proof.
  intros p Hinv Hov. pose proof (Nat.pow_nonzero 2 k ltac:(done)) as Hk.
  pose proof (Nat.mod_upper_bound (length F) (2 ^ k) Hk) as Hub.
  unfold pad_tx. rewrite (st_bind_ok _ _ m (Z.of_nat (length F)) m).
  2: { unfold st_reads. rewrite (flow_length_run F m (fi_trees _ _ _ _ _ Hinv)); [done|lia]. }
  rewrite <- Nat2Z.inj_mod. destruct (Z.eqb_spec (Z.of_nat (length F mod 2 ^ k)) 0) as [He|He].
  { assert (p = 0) as Hp0 by (unfold p, pad_count; replace (length F mod 2 ^ k) with 0 by lia;
      rewrite Nat.sub_0_r; apply Nat.Div0.mod_same).
    exists m. split; [done|]. split; [|done]. rewrite Hp0. simpl. rewrite app_nil_r.
    eapply flow_inv_ext; [|exact Hinv]. intros j. by rewrite padded_0. }
  assert (Z.of_nat p = Z.of_nat (2 ^ k) - Z.of_nat (length F mod 2 ^ k))%Z as Hp
    by (unfold p, pad_count; rewrite Nat.mod_small by lia; lia).
  unfold padding, ENTRY_SIZE. rewrite <- Hp. destruct (decide (length F mod 1024 = 0)) as [Hl|Hl].
  - pose proof (pad_shape_full (length F) k Hl ltac:(fold p; lia)) as Hfull. fold p in Hfull.
    apply pad_flow_full; [done|done| |done]. dlia.
  - apply pad_flow_partial; [done|done|lia|apply pad_shape|done].
Qed.
End Padding.
