(* ===== verification/LogSteps.v ===== *)
(** * The operations of the log manager

    [append_subtree_list], [append_entries] and [put_tx] keep the invariant of
    [LogInvariant]: the first pads and extends the flow, the second adds data to
    it, and the last records a version of it. *)

From Stdlib Require Import Sorting.Sorted.
From stdpp Require Import fin_maps sorting.
From S2P Require Import Prelude Bytes IonianSpec Hashing MerkleProof MerkleRead AppendMerkle MerkleSpec MerkleAppend MerklePartial MerkleFill SharedTypes MerkleLight SealCodec SealInfo ChunkData ChunkRuns EntryBatch EntryBatchProofs FlowStore FlowReads FlowWrites TxStore LogManager FlowTree LogInvariant LogPadding.

Section Steps.
Context {E : Type} `{HashElement E} `{!Algorithm E} `{!NeverNull E} (zero : E) `{!FlowHashes E zero}.
Context (keccak : list Z → list Z) (keccak_len : ∀ x, length (keccak x) = 32).
Context {B : Type} `{BitmapOps B} `{!BitmapLaws B}.
Context `{FinMap Z M} {N : Type → Type} `{FinMap E N}.
Implicit Types (F G : list E) (m : LogManager E B M N) (plain : Z → option Z).

(** ** [append_subtree_list] *)

Lemma append_subtrees_run nodes Gs F plain m :
  flow_inv zero keccak F plain m → Forall2 subtree_of nodes Gs → StronglySorted ge nodes.*1 →
  (∀ x, head nodes = Some x → length F mod 2 ^ (x.1 - 1) = 0) →
  ∃ m', st_for nodes append_one_subtree m = (Ok tt, m') ∧
    flow_inv zero keccak (F ++ concat Gs) plain m' ∧ tx_store m' = tx_store m.
Proof.
  intros Hinv Hsub. revert F m Hinv. induction Hsub as [|x G nodes Gs Hx Hsub IH]; intros F m Hinv Hs Hal.
  { exists m. by rewrite app_nil_r. }
  rewrite fmap_cons in Hs. apply StronglySorted_inv in Hs as [Hs Hge].
  destruct (append_one_subtree_run zero keccak F plain m x G Hinv Hx (Hal x eq_refl)) as (m1 & Hrun & Hinv1 & Htx1).
  cbn [st_for]. rewrite (st_bind_ok _ _ _ _ _ Hrun).
  destruct (IH (F ++ G) m1 Hinv1 Hs) as (m2 & Hrun2 & Hinv2 & Htx2).
  { intros y Hy. destruct nodes as [|y' nodes]; simpl in Hy; [done|]. injection Hy as ->.
    rewrite fmap_cons in Hge. apply Forall_cons_1 in Hge as [Hge _].
    destruct Hx as (_ & HG & _). rewrite length_app, HG.
    specialize (Hal x eq_refl). apply Nat.Lcm0.mod_divide.
    apply Nat.divide_add_r; apply Nat.Lcm0.mod_divide.
    - rewrite <- (mod_mod_pow2 _ (y.1 - 1) (x.1 - 1)), Hal by lia. apply Nat.Div0.mod_0_l.
    - apply pow2_divides. lia. }
  exists m2. split; [done|]. simpl. rewrite (assoc_L (++)). split; [done|congruence].
Qed.

Lemma lm_append_subtree_list_run nodes Gs F plain m d r rest :
  nodes = (d, r) :: rest → flow_inv zero keccak F plain m → Forall2 subtree_of nodes Gs →
  StronglySorted ge nodes.*1 →
  let p := pad_count (length F) (2 ^ (d - 1)) in
  (Z.of_nat (length F + p) + 1024 ≤ 2 ^ 64)%Z →
  ∃ m', lm_append_subtree_list zero keccak nodes m = (Ok tt, m') ∧
    flow_inv zero keccak (F ++ replicate p pad_leaf ++ concat Gs) (padded F p plain) m' ∧
    tx_store m' = tx_store m.
Proof.
  intros -> Hinv Hsub Hs p Hov. unfold lm_append_subtree_list.
  assert (1 ≤ d ≤ 64) as Hd by (inversion Hsub as [|? ? ? ? Hx]; apply Hx).
  rewrite (st_bind_ok _ _ m (Z.of_nat (2 ^ (d - 1))) m).
  2: { unfold st_lift, num_entries_of_node, checked_sub, shl1. rewrite decide_True by lia. simpl.
       by rewrite (proj2 (Nat.ltb_lt _ _)) by lia. }
  destruct (pad_tx_run zero keccak keccak_len F plain m (d - 1) Hinv Hov) as (m1 & Hrun & Hinv1 & Htx1).
  rewrite (st_bind_ok _ _ _ _ _ Hrun).
  destruct (append_subtrees_run _ _ _ _ m1 Hinv1 Hsub Hs) as (m2 & Hrun2 & Hinv2 & Htx2).
  { intros x [= <-]. simpl. rewrite length_app, length_replicate. apply pad_count_aligned.
    by apply Nat.pow_nonzero. }
  exists m2. split; [done|]. rewrite (assoc_L (++)). split; [done|congruence].
Qed.

(** ** [append_entries] *)

Lemma fill_last_run F pora m ps i :
  flow_trees F pora (last_chunk_merkle m) →
  Forall (λ '(k, e), chunk_tail F !! (i + k) = Some (leaf_hash e)) ps →
  ∃ last', st_for ps (λ '(k, e), on_last (fill_leaf (i + k) (leaf_hash e))) m = (Ok tt, set_last last' m) ∧
    flow_trees F pora last'.
Proof.
  intros Ht Hps. revert m Ht. induction Hps as [|[k e] ps Hk Hps IH]; intros m Ht.
  { exists (last_chunk_merkle m). split; [by destruct m|done]. }
  destruct (fill_leaf_views 11 _ _ (i + k) (leaf_hash e) _ (ft_last _ _ _ Ht) Hk) as (t' & Hrun & Hv & _).
  cbn [st_for]. rewrite (st_bind_ok _ _ m tt (set_last t' m)) by (by apply on_last_run).
  destruct (IH (set_last t' m)) as (t2 & Hrun2 & Ht2).
  { destruct Ht as [? ? Hh ? ?]. split; [done|done| |done|done]. cbn.
    pose proof (keeps_fill_leaf (i + k) (leaf_hash e) (last_chunk_merkle m)) as Hkh.
    rewrite Hrun in Hkh. simpl in Hkh. congruence. }
  exists t2. split; [|done]. rewrite Hrun2. done.
Qed.

Lemma fill_roots_run F last m (rs : list (Z * E)) :
  flow_trees F (pora_chunks_merkle m) last → last_chunk_merkle m = last →
  Forall (λ '(i, r), (0 ≤ i)%Z ∧ top_leaves F !! Z.to_nat i = Some r) rs →
  ∃ pora', st_for rs fill_chunk_root m = (Ok tt, set_pora pora' m) ∧ flow_trees F pora' last.
Proof.
  intros Ht Hl Hrs. revert m Ht Hl. induction Hrs as [|[i r] rs [Hi Hr] Hrs IH]; intros m Ht Hl.
  { exists (pora_chunks_merkle m). split; [by destruct m|done]. }
  destruct (ft_pora _ _ _ Ht) as [n Hp].
  destruct (fill_leaf_views n _ _ (Z.to_nat i) r _ Hp Hr) as (t' & Hrun & Hv & _).
  cbn [st_for]. rewrite (st_bind_ok _ _ m tt (set_pora t' m)).
  2: { unfold fill_chunk_root. rewrite (st_bind_ok _ _ m (length (top_leaves F)) m).
       - rewrite (proj2 (Z.ltb_lt _ _)); [by apply on_pora_run|]. apply lookup_lt_Some in Hr. lia.
       - unfold st_reads. rewrite (pora_leaves_run F m); [done|by rewrite Hl]. }
  destruct (IH (set_pora t' m)) as (t2 & Hrun2 & Ht2); [|done|].
  { destruct Ht as [? Hh ? ? ?]. split; [done| |done|by exists n|done]. cbn.
    pose proof (keeps_fill_leaf (Z.to_nat i) r (pora_chunks_merkle m)) as Hkh.
    rewrite Hrun in Hkh. simpl in Hkh. congruence. }
  exists t2. split; [|done]. by rewrite Hrun2.
Qed.

(** The leaves computed from the stored data are those of the flow. *)
Lemma entries_lookup F plain bs s n :
  entries_agree F plain → (0 ≤ n)%Z → read_range plain (Z.of_nat s * 256) (n * 256) = Some bs →
  leaves_of bs = take (Z.to_nat n) (drop s F) ∧ (n = 0%Z ∨ s + Z.to_nat n ≤ length F).
Proof.
  intros Ha Hn Hr. pose proof (read_range_zlen _ _ (n * 256)%Z _ ltac:(lia) Hr) as Hlen.
  assert (∀ j, j < Z.to_nat n → ∃ x, leaves_of bs !! j = Some x ∧ F !! (s + j) = Some x) as Hall.
  { intros j Hj. rewrite leaves_of_lookup by (rewrite ?Hlen, ?Z.div_mul, ?Z.mod_mul; lia).
    eexists. split; [done|]. apply Ha.
    rewrite (read_range_sub _ _ (n * 256) _ (Z.of_nat (s + j) * 256) 256 ltac:(lia) ltac:(lia) Hr) by lia.
    do 3 f_equal. lia. }
  split.
  - apply list_eq. intros j. destruct (decide (j < Z.to_nat n)) as [Hj|Hj].
    + destruct (Hall j Hj) as (x & -> & Hx). by rewrite lookup_take_lt, lookup_drop by lia.
    + rewrite lookup_take_ge by lia. apply lookup_ge_None.
      pose proof (length_leaves_of bs) as Hll. rewrite Hlen, Z.mod_mul, Z.div_mul in Hll by lia. lia.
  - destruct (decide (n = 0%Z)); [by left|right].
    destruct (Hall (Z.to_nat n - 1)) as (x & _ & Hx); [lia|]. apply lookup_lt_Some in Hx. lia.
Qed.
Lemma chunk_leaves_flow F plain i ls :
  head F = Some zero → entries_agree F plain → chunk_leaves zero plain (Z.of_nat i) = Some ls →
  ls = take (2 ^ 10) (drop (i * 2 ^ 10) F) ∧ (i + 1) * 2 ^ 10 ≤ length F.
Proof.
  intros Hf Ha. unfold chunk_leaves. destruct (Z.eqb_spec (Z.of_nat i) 0) as [Hi|Hi].
  - assert (i = 0) as -> by lia. destruct (read_range plain 256 261888) as [bs|] eqn:Hr; [|done].
    intros [= <-]. destruct (entries_lookup F plain bs 1 1023 Ha ltac:(lia) Hr) as [-> [|Hl]]; [done|].
    destruct F as [|z F]; [done|]. injection Hf as ->. split; [done|]. simpl in *. change (2 ^ 10) with 1024. lia.
  - destruct (read_range plain (Z.of_nat i * 262144) 262144) as [bs|] eqn:Hr; [|done].
    intros [= <-]. change (2 ^ 10) with 1024.
    destruct (entries_lookup F plain bs (i * 1024) 1024 Ha ltac:(lia)) as [-> [|Hl]]; [|done|].
    + by replace (Z.of_nat (i * 1024) * 256)%Z with (Z.of_nat i * 262144)%Z by lia.
    + split; [done|]. change (Z.to_nat 1024) with 1024 in Hl. lia.
Qed.

Lemma completed_in_top F plain idxs :
  head F = Some zero → entries_agree F plain → Forall (λ i, (0 ≤ i)%Z) idxs →
  Forall (λ '(i, r), (0 ≤ i)%Z ∧ top_leaves F !! Z.to_nat i = Some r) (completed zero plain idxs).
Proof.
  intros Hf Ha Hidx. apply Forall_forall. intros [i r] Hin. unfold completed in Hin.
  apply list_elem_of_omap in Hin as (j & Hj & Hr). rewrite Forall_forall in Hidx. specialize (Hidx j Hj).
  unfold chunk_root in Hr. destruct (chunk_leaves zero plain j) as [ls|] eqn:Hls; cbn [mbind option_bind] in Hr; [|done].
  rewrite <- (Z2Nat.id j) in Hls by done.
  destruct (chunk_leaves_flow F plain (Z.to_nat j) ls Hf Ha Hls) as [-> Hl].
  destruct (head (layer_at 0 10 (take (2 ^ 10) (drop (Z.to_nat j * 2 ^ 10) F)))) as [r'|] eqn:Hh;
    cbn [mbind option_bind] in Hr; [|done]. injection Hr as -> ->.
  split; [done|]. unfold top_leaves. by rewrite layer_at_block.
Qed.

Lemma leaves_of_zdrop bs off k :
  (zlen bs mod 256 = 0)%Z → (0 ≤ off)%Z →
  (leaves_of (zdrop (off * 256) bs) : list E) !! k = leaves_of bs !! (Z.to_nat off + k).
Proof.
  intros Hb Ho. assert (zlen (zdrop (off * 256) bs) = Z.max 0 (zlen bs - off * 256)) as Hl
    by (apply zlen_zdrop; lia).
  destruct (decide (off + Z.of_nat k < zlen bs / 256)%Z) as [Hk|Hk].
  - rewrite !leaves_of_lookup by dlia. do 2 f_equal. unfold ztake, zdrop. rewrite drop_drop. do 2 f_equal. lia.
  - rewrite !lookup_ge_None_2; [done|..].
    + pose proof (length_leaves_of bs Hb). lia.
    + pose proof (length_leaves_of (zdrop (off * 256) bs) ltac:(dlia)). dlia.
Qed.

Lemma chunks_exact_leaves bs :
  (zlen bs mod 256 = 0)%Z → (leaf_hash <$> chunks_exact 256 bs : list E) = leaves_of bs.
Proof.
  intros Hb. unfold chunks_exact, leaves_of. rewrite firstn_all2; [done|].
  destruct (chunks_even 256 ltac:(lia) bs (length bs / 256)) as [_ ->]; unfold zlen in *; dlia.
Qed.

(** The entries of the data that lie in the last chunk. *)
Lemma fill_part_run F m data start :
  flow_trees F (pora_chunks_merkle m) (last_chunk_merkle m) →
  (Z.of_nat (length F) < 2 ^ 64)%Z → (0 ≤ start)%Z → (zlen data mod 256 = 0)%Z →
  (start + zlen data / 256 ≤ Z.of_nat (length F))%Z →
  (∀ k x, leaves_of data !! k = Some x → F !! (Z.to_nat start + k) = Some x) →
  let last_start := Z.of_nat (tail_start F) in
  ∃ last', (if (last_start <? start + zlen data / 256)%Z then
      let '(chunk_start_index, flow_entry_data_index) :=
        (if (last_start <=? start)%Z then (start - last_start, 0)%Z
         else (0, (last_start - start) * ENTRY_SIZE)%Z) in
      let! fill := st_lift (zslice data flow_entry_data_index (zlen data)) in
      fill_last_chunk chunk_start_index (chunks_exact (Z.to_nat ENTRY_SIZE) fill)
    else st_ret tt) m = (Ok tt, set_last last' m) ∧
    flow_trees F (pora_chunks_merkle m) last'.
Proof.
  intros Ht HF Hs Hd Hend Hmatch last_start. unfold ENTRY_SIZE.
  destruct (Z.ltb_spec last_start (start + zlen data / 256)) as [Hlt|Hge].
  2: { exists (last_chunk_merkle m). split; [by destruct m|done]. }
  assert (last_start = Z.of_nat (tail_start F)) as Hls by done. clearbody last_start.
  pose proof (zlen_nonneg data) as Hz.
  set (off := Z.max 0 (last_start - start)). set (pos := Z.max 0 (start - last_start)).
  assert (0 ≤ off ∧ off * 256 ≤ zlen data)%Z as [Ho Ho'] by (unfold off; dlia).
  assert ((if (last_start <=? start)%Z then (start - last_start, 0)%Z
           else (0, (last_start - start) * 256)%Z) = (pos, (off * 256)%Z)) as ->.
  { unfold pos, off. destruct (Z.leb_spec last_start start); f_equal; lia. }
  assert (zslice data (off * 256) (zlen data) = Ok (zdrop (off * 256) data)) as ->.
  { unfold zslice. rewrite get_range_Some by lia. simpl. f_equal.
    apply ztake_ge. rewrite zlen_zdrop by lia. lia. }
  rewrite (st_bind_ok _ _ m (zdrop (off * 256) data) m) by done.
  unfold fill_last_chunk. apply fill_last_run; [done|]. apply Forall_forall.
  intros [k e] Hke. apply elem_of_lookup_imap in Hke as (j & y & [= <- <-] & Hj).
  assert (zlen (zdrop (off * 256) data) mod 256 = 0)%Z as Hd'.
  { rewrite zlen_zdrop by lia. clearbody off. dlia. }
  assert ((leaves_of (zdrop (off * 256) data) : list E) !! k = Some (leaf_hash e)) as Hl.
  { rewrite <- chunks_exact_leaves, list_lookup_fmap by done. change (Z.to_nat 256) with 256 in Hj. by rewrite Hj. }
  rewrite leaves_of_zdrop in Hl by (done || (unfold off; lia)). apply Hmatch in Hl.
  unfold chunk_tail. rewrite lookup_drop, <- Hl. f_equal. unfold pos, off. lia.
Qed.

Lemma lm_append_entries_run F plain m data :
  let s := start_index data in
  flow_inv zero keccak F plain m → (Z.of_nat (length F) + 1024 ≤ 2 ^ 64)%Z →
  (0 < zlen (ca_data data))%Z → (zlen (ca_data data) mod 256 = 0)%Z → (1 ≤ s)%Z →
  (s + zlen (ca_data data) / 256 ≤ Z.of_nat (length F))%Z →
  free plain (s * 256) (zlen (ca_data data)) →
  (∀ k x, leaves_of (ca_data data) !! k = Some x → F !! (Z.to_nat s + k) = Some x) →
  ∃ m', lm_append_entries zero keccak data m = (Ok tt, m') ∧
    flow_inv zero keccak F (written s (ca_data data) plain) m' ∧ tx_store m' = tx_store m.
Proof.
  intros s [Hf Ht Hd] Hov Hn Hmod Hs Hend Hfree Hmatch. unfold lm_append_entries. fold s.
  rewrite (st_bind_ok _ _ m (Z.of_nat (tail_start F)) m).
  2: { unfold st_reads. rewrite (last_chunk_start_run F m Ht); [done|lia]. }
  rewrite (st_bind_ok _ _ m (s + zlen (ca_data data) / 256)%Z m).
  2: { unfold st_lift, uadd. rewrite bytes_to_chunks_spec.
       replace ((zlen (ca_data data) + 255) / 256)%Z with (zlen (ca_data data) / 256)%Z by dlia.
       by rewrite (proj2 (Z.ltb_lt _ _)) by lia. }
  destruct (fill_part_run F m (ca_data data) s Ht ltac:(lia) ltac:(lia) Hmod Hend Hmatch)
    as (last' & Hrun & Ht').
  rewrite (st_bind_ok _ _ _ _ _ Hrun).
  destruct (flow_data_write zero keccak keccak_len F plain (flow_store m) data) as (f & Hrun2 & Hd');
    [done|done|done|done|fold s; lia|done|done|done|].
  rewrite (st_bind_ok _ _ _ (completed zero (written s (ca_data data) plain)
    (touched s (s + zlen (ca_data data) / 256))) (set_flow f (set_last last' m))) by (by apply on_flow_run).
  destruct (fill_roots_run F last' (set_flow f (set_last last' m))
    (completed zero (written s (ca_data data) plain) (touched s (s + zlen (ca_data data) / 256))))
    as (pora' & Hrun3 & Ht3); [done|done| |].
  { apply completed_in_top; [done|apply Hd'|]. apply Forall_forall. intros i Hi%elem_of_touched. dlia. }
  exists (set_pora pora' (set_flow f (set_last last' m))). split; [done|]. split; [|done]. by split.
Qed.
End Steps.
