(* ===== verification/LogTx.v ===== *)
(** * Transactions of the log manager

    A fresh log manager holds the flow with its first entry only; [put_tx]
    extends the flow by the subtrees of a transaction, records a version of the
    trees, and stores the transaction. *)

From Stdlib Require Import Sorting.Sorted.
From stdpp Require Import fin_maps sorting.
From S2P Require Import Prelude Bytes IonianSpec Hashing MerkleProof MerkleRead AppendMerkle MerkleSpec MerkleAppend MerkleInclusion MerkleHistory MerklePartial MerkleFill SharedTypes MerkleLight SealCodec SealInfo ChunkData ChunkRuns EntryBatch EntryBatchProofs FlowStore FlowReads FlowWrites TxStore LogManager FlowTree LogInvariant LogPadding LogSteps.

Section Commit.
Context {E : Type} `{HashElement E} `{!Algorithm E} `{!NeverNull E}.
Implicit Types (L : list E) (t : AppendMerkleTree E).

(** ** [commit] on a partial view *)

Lemma views_nonempty n L s t :
  views n L s t → L ≠ [] → Forall (λ X, X ≠ []) (layers t).
Proof.
  intros (Ha & _ & Hd & _) HL. apply Forall_lookup. intros k X HX.
  destruct (Forall2_lookup_r _ _ _ k X Ha HX) as (Y & HY & Hap). intros ->.
  assert (k < n) as Hk by (apply lookup_lt_Some in HY; by rewrite length_build in HY).
  rewrite build_lookup in HY by done. injection HY as <-. apply approx_length in Hap.
  rewrite length_layer_at in Hap. simpl in Hap. pose proof (Nat.pow_nonzero 2 k ltac:(done)).
  assert (1 ≤ length L) by (destruct L; simpl; [done|lia]).
  assert (1 ≤ (length L + 2 ^ k - 1) / 2 ^ k) by (apply Nat.div_le_lower_bound; lia). lia.
Qed.

Lemma commit_views n L s t q :
  views n L s t → s ≤ length L →
  ∃ t', commit (Some q) t = (Ok tt, t') ∧ views n L s t' ∧ leaf_height t' = leaf_height t ∧
    (L ≠ [] → ∀ r, tree_root t = Ok r → check_root t' r = true).
Proof.
  intros Hv Hs. unfold commit. rewrite (st_bind_ok _ _ t (length L) t).
  2: { unfold st_reads. by rewrite (leaves_views _ _ _ _ Hv). }
  destruct (decide (L = [])) as [->|HL].
  { eexists. split; [done|]. by split_and!. }
  rewrite (proj2 (Nat.eqb_neq _ _)) by (by destruct L).
  destruct (right_most_path_run (layers t)) as (nodes & Hnodes & He); [by eapply views_nonempty|].
  destruct (views_root n L s t Hv Hs HL) as (r & _ & Hroot).
  assert (last (layers t) = Some [r]) as Hlast.
  { pose proof Hv as (Ha & _ & Hd & _). destruct (build_top (leaf_height t) n L HL Hd) as (r' & Htop & _).
    pose proof (depth_pos (length L)). pose proof (Forall2_length _ _ _ Ha) as Hlen. rewrite length_build in Hlen.
    destruct (Forall2_lookup_l _ _ _ (n - 1) [r'] Ha) as (X & HX & HrX); [by rewrite build_lookup, Htop by lia|].
    rewrite last_lookup. replace (pred (length (layers t))) with (n - 1) by lia. rewrite HX.
    unfold tree_root in Hroot. cbn in Hroot. unfold checked_sub in Hroot. rewrite decide_True in Hroot by lia.
    cbn in Hroot. replace (length (layers t) - 1) with (n - 1) in Hroot by lia. unfold index in Hroot.
    rewrite HX in Hroot. cbn in Hroot. apply approx_length in HrX. destruct X as [|x [|]]; simpl in *; [done| |done].
    congruence. }
  destruct (right_edge_root _ _ _ He Hlast) as [_ [i Hi]].
  unfold st_bind, st_reads, st_lift. rewrite Hnodes, Hroot, Hi. cbn. rewrite bool_decide_true by done.
  eexists. split; [done|]. split; [exact Hv|]. split; [done|]. intros _ r' [= ->].
  unfold check_root. cbn. rewrite lookup_insert_eq. by rewrite bool_decide_true.
Qed.
End Commit.

Section Transactions.
Context {E : Type} `{HashElement E} `{!Algorithm E} `{!NeverNull E} (zero : E) `{!FlowHashes E zero}.
Context (keccak : list Z → list Z) (keccak_len : ∀ x, length (keccak x) = 32).
Context {B : Type} `{BitmapOps B} `{!BitmapLaws B}.
Context `{FinMap Z M} {N : Type → Type} `{FinMap E N}.
Implicit Types (F G : list E) (m : LogManager E B M N) (plain : Z → option Z).

(** ** The flow root *)

(** The flow tree has ten layers below the top tree. *)
Definition flow_depth m : nat := length (layers (pora_chunks_merkle m)) + 10.

Lemma get_context_run F plain m :
  flow_inv zero keccak F plain m → (Z.of_nat (length F) < 2 ^ 64)%Z →
  ∃ r, root_of 0 (flow_depth m) F = Some r ∧ tree_root (pora_chunks_merkle m) = Ok r ∧
    get_context m = Ok (r, Z.of_nat (length F)).
Proof.
  intros [Hf Ht Hd] Hl. destruct (ft_pora _ _ _ Ht) as [n Hp].
  assert (top_leaves F ≠ []) as Hne.
  { intros Hn. apply (f_equal length) in Hn. rewrite length_top_leaves in Hn. destruct F; [done|]. simpl in Hn. dlia. }
  assert (top_edge F ≤ length (top_leaves F)) as He by (unfold top_edge; case_match; lia).
  destruct (views_root n _ _ _ Hp He Hne) as (r & Hr & Hroot). exists r. split; [|split; [done|]].
  - unfold flow_depth. rewrite (views_layers _ _ _ _ Hp). rewrite (ft_pora_height _ _ _ Ht) in Hr.
    pose proof Hp as (_ & _ & Hdep & _). pose proof (depth_pos (length (top_leaves F))).
    rewrite root_of_layer_at in Hr |- * by lia. rewrite <- Hr. unfold top_leaves.
    rewrite (layer_at_add 0 10). do 2 f_equal. lia.
  - unfold get_context. rewrite Hroot. cbn [res_bind]. by rewrite (flow_length_run F m Ht).
Qed.

(** ** [commit] *)

Lemma lm_commit_run F plain m q :
  flow_inv zero keccak F plain m →
  ∃ m', lm_commit q m = (Ok tt, m') ∧ flow_inv zero keccak F plain m' ∧ tx_store m' = tx_store m ∧
    ∀ r, tree_root (pora_chunks_merkle m') = Ok r → check_root (pora_chunks_merkle m') r = true.
Proof.
  intros [Hf [Hk Hph Hlh [n Hp] Hl] Hd]. unfold lm_commit.
  assert (top_edge F ≤ length (top_leaves F)) as He by (unfold top_edge; case_match; lia).
  destruct (commit_views n _ _ _ q Hp He) as (pora' & Hrun & Hp' & Hh' & Hroot).
  destruct (commit_views 11 _ _ _ q Hl ltac:(done)) as (last' & Hrun2 & Hl' & Hh2 & _).
  rewrite (st_bind_ok _ _ m tt (set_pora pora' m)) by (by apply on_pora_run).
  exists (set_last last' (set_pora pora' m)). split; [by apply on_last_run|]. split; [|split; [done|]].
  - split; [done| |done]. split; cbn; [done|congruence|congruence|by exists n|done].
  - cbn. intros r Hr.
    assert (top_leaves F ≠ []) as Hne.
    { intros Hn. apply (f_equal length) in Hn. rewrite length_top_leaves in Hn.
      destruct F; [done|]. simpl in Hn. dlia. }
    destruct (views_root n _ _ _ Hp He Hne) as (r1 & Hr1 & Hroot1).
    destruct (views_root n _ _ _ Hp' He Hne) as (r2 & Hr2 & Hroot2).
    rewrite Hh' in Hr2. assert (r = r1) as -> by congruence. by apply Hroot.
Qed.
(** ** A fresh log manager *)

Definition empty_txs : TransactionStore E M N := MkTransactionStore ∅ ∅ ∅ None.
Definition empty_flow : FlowDBStore E B M := MkFlowDBStore ∅ ∅.
Definition fresh_manager : LogManager E B M N :=
  MkLogManager empty_txs (FlowStore_new empty_flow 1024) (empty_tree [[]] None 10) fresh_last.

Lemma last_key_empty A : last_key (∅ : M A) = None.
Proof. unfold last_key, ordered. by rewrite map_to_list_empty. Qed.

Lemma try_initialize_run :
  ∃ m, try_initialize zero keccak fresh_manager = (Ok tt, m) ∧
    flow_inv zero keccak [zero] (λ _, None) m ∧ tx_store m = empty_txs.
Proof.
  assert (zero ≠ null) as Hz by apply zero_not_null.
  destruct (append_views 11 [] zero fresh_last fresh_last_views Hz) as (last' & Hrun & Hv).
  pose proof (keeps_append zero fresh_last) as Hh. rewrite Hrun in Hh. cbn in Hh.
  destruct (last_tree_root [zero] 0 last' Hv) as (r & Hroot & Hr & Hnn); [simpl; lia|done|done|simpl; lia|].
  assert (views 1 ([] : list E) 0 (empty_tree [[]] None 10)) as He by (apply (empty_views 1 None 10); lia).
  destruct (update_last_views 1 [] r (empty_tree [[]] None 10) He Hnn) as (pora' & Hup & Hp).
  exists (set_pora pora' (set_last last' fresh_manager)). split; [|split; [|done]].
  - unfold try_initialize. rewrite (st_bind_ok _ _ _ 0 fresh_manager) by done.
    rewrite (st_bind_ok _ _ _ 0 fresh_manager) by done. cbn [Nat.eqb andb].
    rewrite (st_bind_ok _ _ _ tt (set_last last' fresh_manager)) by (by apply on_last_run).
    unfold update_last_chunk.
    rewrite (st_bind_ok _ _ _ r (set_last last' fresh_manager)) by (unfold st_reads, last_root; cbn; by rewrite Hroot).
    by apply on_pora_run.
  - split; [done| |].
    + split; cbn [pora_chunks_merkle last_chunk_merkle set_pora set_last].
      * by apply Forall_singleton.
      * pose proof (keeps_update_last r (empty_tree [[]] None 10)) as Hk. by rewrite Hup in Hk.
      * done.
      * eexists. unfold top_leaves. rewrite Hr. exact Hp.
      * by apply (views_later 11 [zero] 0 1); [lia|].
    + split; cbn; [split|..]; cbn.
      * done.
      * intros i e Hi. unfold get_entry_batch in Hi. cbn in Hi. by rewrite lookup_empty in Hi.
      * done.
      * intros i e x Hi _. unfold get_entry_batch in Hi. cbn in Hi. by rewrite lookup_empty in Hi.
      * done.
      * done.
      * intros j bs Hb. by rewrite (read_range_None _ _ _ (Z.of_nat j * 256)) in Hb by first [done|lia].
Qed.

(** [LogManager::new] on an empty database. *)
Lemma new_manager_run :
  ∃ m, LogManager_new zero keccak empty_txs empty_flow 1024 = Ok m ∧
    flow_inv zero keccak [zero] (λ _, None) m ∧ tx_store m = empty_txs.
Proof.
  destruct try_initialize_run as (m & Hrun & Hinv & Htx). exists m. split; [|done].
  unfold LogManager_new, get_chunk_root_list, next_tx_seq. cbn [batch_roots db FlowStore_new empty_flow col_tx empty_txs].
  rewrite map_size_empty, last_key_empty.
  transitivity (st_exec (try_initialize zero keccak) fresh_manager); [reflexivity|].
  unfold st_exec. by rewrite Hrun.
Qed.

(** ** [put_tx] *)

(** A transaction without inline data whose data root is not stored yet, or
    whose first transaction is not complete. *)
Definition new_root_tx (tx : Transaction E) (ts : TransactionStore E M N) : Prop :=
  tx_data tx = [] ∧
  (let seqs := get_tx_seq_list_by_data_root ts (data_merkle_root tx) in
   (∀ l, last seqs = Some l → (l < tx_seq tx)%Z) ∧
   (∀ s, head seqs = Some s → check_tx_completed ts s = false)).

Lemma ts_put_tx_run (tx : Transaction E) (ts : TransactionStore E M N) :
  tx_data tx = [] →
  (∀ l, last (get_tx_seq_list_by_data_root ts (data_merkle_root tx)) = Some l → (l < tx_seq tx)%Z) →
  ∃ ts', ts_put_tx zero tx ts = (Ok (get_tx_seq_list_by_data_root ts (data_merkle_root tx)), ts') ∧
    get_tx_by_seq_number ts' (tx_seq tx) = Some tx ∧
    (∀ k, k ≠ tx_seq tx → get_tx_by_seq_number ts' k = get_tx_by_seq_number ts k) ∧
    get_tx_seq_list_by_data_root ts' (data_merkle_root tx) =
      get_tx_seq_list_by_data_root ts (data_merkle_root tx) ++ [tx_seq tx] ∧
    col_tx_completed ts' = col_tx_completed ts.
Proof.
  intros Hd Hl. unfold ts_put_tx. rewrite (st_bind_ok _ _ ts tx ts) by (unfold st_lift, with_data_root; by rewrite Hd).
  rewrite (st_bind_ok _ _ ts ts ts) by done.
  rewrite (st_bind_ok _ _ ts tt ts).
  2: { unfold st_lift, assert. destruct (last _) as [l|]; [|done].
       by rewrite (proj2 (Z.ltb_lt l (tx_seq tx))) by (by apply Hl). }
  eexists. split; [done|]. unfold get_tx_by_seq_number, get_tx_seq_list_by_data_root. cbn. split_and!.
  - by rewrite lookup_insert_eq.
  - intros k Hk. by rewrite lookup_insert_ne by done.
  - by rewrite lookup_insert_eq.
  - done.
Qed.

Lemma on_tx_run {A} (op : st (TransactionStore E M N) A) m r ts :
  op (tx_store m) = (r, ts) → on_tx op m = (r, set_tx ts m).
Proof. intros Hop. unfold on_tx, st_zoom. by rewrite Hop. Qed.

Lemma put_tx_run (tx : Transaction E) Gs F plain m d r rest :
  merkle_nodes tx = (d, r) :: rest → flow_inv zero keccak F plain m →
  Forall2 subtree_of (merkle_nodes tx) Gs → StronglySorted ge (merkle_nodes tx).*1 →
  new_root_tx tx (tx_store m) →
  let p := pad_count (length F) (2 ^ (d - 1)) in
  (Z.of_nat (length F + p) + 1024 ≤ 2 ^ 64)%Z →
  ∃ m', put_tx zero keccak tx m = (Ok tt, m') ∧
    flow_inv zero keccak (F ++ replicate p pad_leaf ++ concat Gs) (padded F p plain) m' ∧
    tx_store m' = (ts_put_tx zero tx (tx_store m)).2 ∧
    ∀ r, tree_root (pora_chunks_merkle m') = Ok r → check_root (pora_chunks_merkle m') r = true.
Proof.
  intros Hn Hinv Hsub Hs (Hd & Hlast & Hhead) p Hov. unfold put_tx.
  destruct (lm_append_subtree_list_run zero keccak keccak_len _ Gs F plain m d r rest Hn Hinv Hsub Hs Hov)
    as (m1 & Hrun1 & Hinv1 & Htx1). rewrite (st_bind_ok _ _ _ _ _ Hrun1).
  destruct (lm_commit_run _ _ m1 (tx_seq tx) Hinv1) as (m2 & Hrun2 & Hinv2 & Htx2 & Hroot).
  rewrite (st_bind_ok _ _ _ _ _ Hrun2).
  assert (tx_store m2 = tx_store m) as Htx by congruence.
  destruct (ts_put_tx_run tx (tx_store m2)) as (ts' & Hput & _ & _ & _ & Hc); [done|by rewrite Htx|].
  rewrite (st_bind_ok _ _ m2 (get_tx_seq_list_by_data_root (tx_store m2) (data_merkle_root tx)) (set_tx ts' m2))
    by (by apply (on_tx_run (ts_put_tx zero tx))).
  exists (set_tx ts' m2). split.
  - destruct (get_tx_seq_list_by_data_root (tx_store m2) (data_merkle_root tx)) as [|s l] eqn:Hseqs; [reflexivity|].
    rewrite (st_bind_ok _ _ _ false (set_tx ts' m2)); [reflexivity|]. unfold st_reads. do 2 f_equal.
    unfold check_tx_completed in *. cbn. rewrite Hc, Htx. apply Hhead. by rewrite <- Htx, Hseqs.
  - split_and!; [by destruct Hinv2|by rewrite <- Htx, Hput|done].
Qed.
End Transactions.
