(* ===== verification/LogProofs.v ===== *)
(** * Inclusion proofs of the flow

    A proof of an entry joins the proof of the entry in its chunk and the proof
    of the chunk in the top tree. *)

From stdpp Require Import fin_maps.
From S2P Require Import Prelude Bytes IonianSpec Hashing MerkleProof MerkleRead AppendMerkle MerkleSpec MerkleAppend MerkleInclusion MerkleHistory MerklePartial MerkleFill SharedTypes MerkleLight LightSpec SealCodec SealInfo ChunkData ChunkRuns EntryBatch EntryBatchProofs FlowStore FlowReads FlowWrites TxStore LogManager FlowTree LogInvariant LogSteps.

Section Joined.
Context {E : Type} `{HashElement E} `{!Algorithm E}.

(** A well-formed proof that leads from [x] at position [i] to [r]. *)
Definition proves (r x : E) (i : nat) (p : MProof E) : Prop :=
  ∃ sibs, lemma p = x :: sibs ++ [r] ∧ length sibs = length (path p) ∧
    climb x (path p) sibs = r ∧ turns (path p) = i.

Lemma proves_root r x i p : proves r x i p → root p = Ok r.
Proof. intros (sibs & Hl & _). unfold root. by rewrite Hl, last_cons, last_snoc. Qed.

Lemma proves_validate r x i p :
  proves r x i p → (Z.of_nat i < 2 ^ 64)%Z → validate p x i = Ok tt.
Proof.
  destruct p as [lem bs]. intros (sibs & Hl & Hlen & Hc & Ht) Hi. simpl in *. subst lem.
  unfold validate. rewrite validate_integrity_form, bool_decide_true by done. simpl.
  rewrite bool_decide_true by done. simpl. rewrite position_ok; simpl; rewrite Ht; [|done].
  unfold ensure. by rewrite Nat.eqb_refl.
Qed.

Lemma turns_app bs1 bs2 : turns (bs1 ++ bs2) = turns bs1 + 2 ^ length bs1 * turns bs2.
Proof.
  induction bs1 as [|b bs1 IH]; cbn [turns app length]; [simpl; lia|].
  rewrite IH, Nat.pow_succ_r'. lia.
Qed.

Lemma entry_proof_run `{!EqDecision E} r c x i j top sub :
  proves r c i top → proves c x j sub →
  ∃ p, entry_proof top sub = Ok p ∧ proves r x (j + 2 ^ length (path sub) * i) p.
Proof.
  destruct top as [l1 b1], sub as [l2 b2]. intros (s1 & Hl1 & Hn1 & Hc1 & Ht1) (s2 & Hl2 & Hn2 & Hc2 & Ht2).
  simpl in *. subst l1 l2. unfold entry_proof. unfold item, root. cbn [lemma head expect res_bind].
  rewrite last_cons, last_snoc. cbn [expect res_bind]. rewrite bool_decide_true by done. cbn [negb assert res_bind].
  unfold slice. rewrite decide_True by (simpl; lia). cbn [res_bind].
  rewrite (take_ge (drop 1 (c :: s1 ++ [r]))) by (rewrite length_drop; simpl; lia). change (drop 1 (c :: s1 ++ [r])) with (s1 ++ [r]).
  replace (take (length (x :: s2 ++ [c]) - 1) (x :: s2 ++ [c])) with (x :: s2).
  2: { simpl. rewrite length_app. simpl. rewrite Nat.sub_0_r, Nat.add_1_r. simpl. by rewrite take_app_length. }
  cbn [path]. unfold Proof_new, checked_sub. rewrite decide_True by (simpl; rewrite !length_app; simpl; lia).
  cbn [res_bind]. rewrite (proj2 (Nat.eqb_eq _ _)) by (simpl; rewrite !length_app; simpl; lia). simpl.
  eexists. split; [done|]. exists (s2 ++ s1). simpl. rewrite <- (assoc_L (++)).
  split_and!; [done|rewrite !length_app; lia| |rewrite turns_app; congruence].
  rewrite climb_app by done. by rewrite Hc2.
Qed.

(** The proof of entry [i] in the tree over [L], [d] layers up to [r]. *)
Definition proof_of (h d : nat) (L : list E) (i : nat) (x r : E) : MProof E :=
  MkProof (x :: siblings h d L i ++ [r]) (sides d i).

(** *** Paths through a part of a tree *)

Lemma siblings_add h d k L i :
  siblings h (d + k) L i = siblings h d L i ++ siblings (h + d) k (layer_at h d L) (i / 2 ^ d).
Proof.
  revert h L i. induction d as [|d IH]; intros h L i; cbn [siblings layer_at Nat.add app].
  - by rewrite Nat.add_0_r, Nat.pow_0_r, Nat.div_1_r.
  - rewrite IH, Nat.pow_succ_r', Nat.Div0.div_div. by rewrite Nat.add_succ_r.
Qed.

Lemma sides_add d k i : sides (d + k) i = sides d i ++ sides k (i / 2 ^ d).
Proof.
  revert i. induction d as [|d IH]; intros i; cbn [sides Nat.add app].
  - by rewrite Nat.pow_0_r, Nat.div_1_r.
  - by rewrite IH, Nat.pow_succ_r', Nat.Div0.div_div.
Qed.

Lemma sides_mod d i : sides d (i mod 2 ^ d) = sides d i.
Proof.
  revert i. induction d as [|d IH]; intros i; [done|]. cbn [sides]. rewrite Nat.pow_succ_r'.
  rewrite Nat.Div0.mod_mul_r. rewrite <- (IH (i / 2)). generalize ((i / 2) mod 2 ^ d). intros q.
  f_equal; [f_equal|f_equal]; dlia.
Qed.

(** The siblings below height [d] depend on the aligned block only: what lies
    before it ... *)
Lemma siblings_drop h d a L i :
  siblings h d (drop (a * 2 ^ d) L) i = siblings h d L (a * 2 ^ d + i).
Proof.
  revert h L i. induction d as [|d IH]; intros h L i; [done|]. cbn [siblings]. rewrite Nat.pow_succ_r'.
  replace (a * (2 * 2 ^ d)) with (2 * (a * 2 ^ d)) by lia. f_equal.
  - unfold sibling. rewrite (Nat.add_comm (2 * _) i), Nat.mul_comm, Nat.Div0.mod_add.
    destruct (Nat.eqb_spec (i mod 2) 0) as [Hi|Hi]; rewrite lookup_drop; do 2 f_equal; dlia.
  - rewrite <- up_drop, IH. f_equal. generalize (a * 2 ^ d). intros q. dlia.
Qed.

(** ... and what follows it. *)
Lemma siblings_take h d L i :
  i < 2 ^ d → 2 ^ d ≤ length L → siblings h d (take (2 ^ d) L) i = siblings h d L i.
Proof.
  revert h L i. induction d as [|d IH]; intros h L i Hi Hl; [done|]. cbn [siblings].
  rewrite Nat.pow_succ_r' in *. f_equal.
  - unfold sibling. destruct (Nat.eqb_spec (i mod 2) 0) as [Hm|Hm]; rewrite lookup_take_lt; try done; [|lia].
    assert (S i ≠ 2 * 2 ^ d) by (intros Heq; apply (f_equal (λ n, n mod 2)) in Heq; dlia). lia.
  - rewrite <- up_take. apply IH; [dlia|]. rewrite length_up. dlia.
Qed.

(** A block, full or the last one of the list. *)
Lemma siblings_block h d L i :
  (i / 2 ^ d + 1) * 2 ^ d ≤ length L →
  siblings h d (take (2 ^ d) (drop (i / 2 ^ d * 2 ^ d) L)) (i mod 2 ^ d) = siblings h d L i.
Proof.
  intros Hl. pose proof (Nat.pow_nonzero 2 d ltac:(lia)) as Hp.
  rewrite siblings_take, siblings_drop; [|by apply Nat.mod_upper_bound|rewrite length_drop; lia].
  f_equal. rewrite Nat.mul_comm. symmetry. by apply Nat.div_mod.
Qed.

Lemma proof_of_part h d L L' i x c :
  siblings h d L' (i mod 2 ^ d) = siblings h d L i → proof_of h d L' (i mod 2 ^ d) x c = proof_of h d L i x c.
Proof. intros Hs. unfold proof_of. by rewrite Hs, sides_mod. Qed.

(** Joining the proofs of two parts gives the proof in the whole. *)
Lemma entry_proof_exact `{!EqDecision E} h d k L i x c r :
  entry_proof (proof_of (h + d) k (layer_at h d L) (i / 2 ^ d) c r) (proof_of h d L i x c) =
  Ok (proof_of h (d + k) L i x r).
Proof.
  unfold entry_proof, proof_of, item, root. cbn [lemma head expect res_bind].
  rewrite last_cons, last_snoc. cbn [expect res_bind]. rewrite bool_decide_true by done. cbn [negb assert res_bind].
  unfold slice. rewrite decide_True by (simpl; lia). cbn [res_bind path].
  set (s1 := siblings (h + d) k (layer_at h d L) (i / 2 ^ d)). set (s2 := siblings h d L i).
  assert (length s1 = k) as Hl1 by apply length_siblings. assert (length s2 = d) as Hl2 by apply length_siblings.
  rewrite (take_ge (drop 1 (c :: s1 ++ [r]))) by (rewrite length_drop; simpl; lia). change (drop 1 (c :: s1 ++ [r])) with (s1 ++ [r]).
  replace (take (length (x :: s2 ++ [c]) - 1) (x :: s2 ++ [c])) with (x :: s2).
  2: { simpl. rewrite length_app. simpl. rewrite Nat.sub_0_r, Nat.add_1_r. simpl. by rewrite take_app_length. }
  unfold Proof_new, checked_sub.
  rewrite decide_True by (simpl; rewrite !length_app; simpl; lia). cbn [res_bind].
  rewrite (proj2 (Nat.eqb_eq _ _)) by (simpl; rewrite !length_app, !length_sides; simpl; lia). simpl.
  by rewrite siblings_add, sides_add, <- (assoc_L (++)).
Qed.

(** The proofs that the trees generate. *)
Lemma gen_proof_proves {T} `{!MerkleTreeRead T E} (t : T) h n (L : list E) i x :
  reads_as t h n L ∧ known L ∧ depth (length L) ≤ n → L !! i = Some x →
  ∃ p r, gen_proof t i = Ok p ∧ proves r x i p ∧ layer_at h (n - 1) L = [r] ∧
    tree_root t = Ok r ∧ length (path p) = n - 1 ∧ p = proof_of h (n - 1) L i x r.
Proof.
  intros (Hr & HL & Hd) Hx. assert (L ≠ []) as Hne by (by intros ->).
  destruct (top_layer h n L Hne Hd) as (r & _ & Htop & _).
  assert (x ≠ null) as Hnn by (rewrite Forall_lookup in HL; eauto).
  eexists _, r. split_and!; [by eapply gen_proof_reads| |done|by eapply tree_root_reads|apply length_sides|done].
  exists (siblings h (n - 1) L i). cbn [lemma path].
  pose proof (climb_layer_at h (n - 1) L i x Hx) as Hc. rewrite Htop in Hc.
  pose proof (depth_pos (length L)). pose proof (depth_le_pow (length L)).
  pose proof (lookup_lt_Some _ _ _ Hx).
  pose proof (Nat.pow_le_mono_r 2 (depth (length L) - 1) (n - 1) ltac:(lia) ltac:(lia)).
  rewrite Nat.div_small in Hc by lia. injection Hc as Hc.
  split_and!; [done|by rewrite length_siblings, length_sides|done|].
  rewrite turns_sides. apply Nat.mod_small. lia.
Qed.
End Joined.

Section FlowProofs.
Context {E : Type} `{HashElement E} `{!Algorithm E} `{!NeverNull E} (zero : E) `{!FlowHashes E zero}.
Context (keccak : list Z → list Z) (keccak_len : ∀ x, length (keccak x) = 32).
Context {B : Type} `{BitmapOps B} `{!BitmapLaws B}.
Context `{FinMap Z M} {N : Type → Type} `{FinMap E N}.
Implicit Types (F : list E) (m : LogManager E B M N) (plain : Z → option Z).

(** ** The proof inside a chunk *)

(** Reading a whole chunk; the first entry of the flow is left out. *)
Lemma get_chunk_run (fs : FlowStore E B M) plain c :
  flow_models keccak fs plain → unsealed fs → (0 ≤ c)%Z → ((c + 2) * 1024 ≤ 2 ^ 64)%Z →
  get_entries keccak fs (c * 1024) ((c + 1) * 1024) =
  Ok (d ← read_range plain (if c =? 0 then 256 else c * 262144)%Z (if c =? 0 then 261888 else 262144)%Z;
      Some (MkChunkArray d (c * 1024))).
Proof.
  intros Hm Hh Hc Hov. destruct (Z.eqb_spec c 0) as [->|Hc0].
  - pose proof (get_batch_run keccak keccak_len fs plain 1 1024 Hm ltac:(lia) ltac:(done)) as Hget.
    unfold get_entries. rewrite (fm_size _ _ _ Hm).
    change (batch_iter (0 * 1024) ((0 + 1) * 1024) 1024) with (Ok [(0, 1024)%Z]). cbn [res_bind get_entries_loop].
    assert (batch_range fs 0 1024 = Ok (0, 1, 1023)%Z) as -> by (unfold batch_range; by rewrite (fm_size _ _ _ Hm)).
    cbn [res_bind]. change ((0 + 1) * 1024 <=? 0 * 1024)%Z with false. cbn [Z.eqb].
    change (1 / 1024)%Z with 0%Z in Hget. change (1 - 0 * 1024)%Z with 1%Z in Hget.
    change (1024 - 1)%Z with 1023%Z in Hget. change (1 * 256)%Z with 256%Z in Hget.
    change (1023 * 256)%Z with 261888%Z in Hget.
    destruct (get_entry_batch (db fs) 0) as [e|].
    + rewrite Hget by (intros ? ?; by left). cbn. by destruct (read_range plain 256 261888).
    + specialize (Hget ltac:(intros ? ?; by left)). injection Hget as <-. done.
  - rewrite (get_entries_run keccak keccak_len fs plain); [|done|lia|lia|].
    + f_equal. replace (c * 1024 * 256)%Z with (c * 262144)%Z by lia.
      by replace (((c + 1) * 1024 - c * 1024) * 256)%Z with 262144%Z by lia.
    + intros a Ha Ha' e He. right. assert (a = c * 1024)%Z as -> by dlia.
      rewrite Z.div_mul in He by done. rewrite Z.mod_mul by done. by apply (Hh c).
Qed.

(** The leaves that [gen_proof] hashes are the entries of the chunk. *)
Lemma chunk_leaves_run plain c ls :
  chunk_leaves zero plain c = Some ls →
  ∃ d, read_range plain (if c =? 0 then 256 else c * 262144)%Z (if c =? 0 then 261888 else 262144)%Z = Some d ∧
    chunk_leaves_from zero c d = Ok ls.
Proof.
  unfold chunk_leaves, chunk_leaves_from. destruct (Z.eqb_spec c 0) as [->|Hc].
  - destruct (read_range plain 256 261888) as [d|] eqn:Hd; [|done]. intros [= <-]. exists d. split; [done|].
    apply read_range_zlen in Hd; [|lia]. rewrite data_to_merkle_leaves_run by (by rewrite Hd).
    cbn [res_bind andb]. by rewrite Hd.
  - destruct (read_range plain _ 262144) as [d|] eqn:Hd; [|done]. intros [= <-]. exists d. split; [done|].
    apply read_range_zlen in Hd; [|lia]. by rewrite data_to_merkle_leaves_run by (by rewrite Hd).
Qed.

Lemma gen_proof_in_chunk_run F plain m i x ls :
  flow_inv zero keccak F plain m → F !! i = Some x → (Z.of_nat (length F) + 2048 ≤ 2 ^ 64)%Z →
  chunk_leaves zero plain (Z.of_nat i / 1024) = Some ls →
  ∃ p c, gen_proof_in_chunk zero keccak m (Z.of_nat i / 1024) (Z.of_nat i) = Ok p ∧
    proves c x (i mod 1024) p ∧ length (path p) = 10 ∧ top_leaves F !! (i / 1024) = Some c ∧
    p = proof_of 0 10 F i x c.
Proof.
  intros [Hf Ht Hd] Hx Hov Hls. pose proof (lookup_lt_Some _ _ _ Hx) as Hi.
  unfold gen_proof_in_chunk, PORA_CHUNK_SIZE.
  rewrite (get_chunk_run _ plain) by (try apply Hd; dlia).
  destruct (chunk_leaves_run _ _ _ Hls) as (d & -> & Hfrom). cbn [res_bind mbind option_bind ok_or ca_data].
  rewrite Hfrom. cbn [res_bind].
  replace (Z.of_nat i / 1024)%Z with (Z.of_nat (i / 1024)) in Hls by dlia.
  destruct (chunk_leaves_flow zero F plain (i / 1024) ls Hf (fd_agree _ _ _ _ Hd) Hls) as [Hls' Hend].
  assert (known ls) as Hk by (subst ls; apply Forall_take, Forall_drop, (ft_known _ _ _ Ht)).
  change (2 ^ 10) with 1024 in *.
  assert (length ls = 1024) as Hlen by (subst ls; rewrite length_take, length_drop; dlia).
  destruct (new_with_depth_refines ls 11 None) as (t & Hnew & Hh & Hr); [done|done|lia|].
  change tree_depth_of_chunk with 11. rewrite Hnew. cbn [res_bind].
  pose proof (represents_reads _ _ _ (r_now _ _ Hr)) as Hreads. cbn in Hreads.
  rewrite Hlen, Hh in Hreads. change (11 `max` depth 1024) with 11 in Hreads. change (depth 1024) with 11 in Hreads.
  replace (Z.to_nat (Z.of_nat i mod 1024)) with (i mod 1024) by dlia.
  destruct (gen_proof_proves t 0 11 ls (i mod 1024) x) as (p & c & Hgen & Hp & Hc & _ & Hpath & Hexact).
  { by rewrite Hlen. }
  { rewrite Hls', lookup_take_lt, lookup_drop by dlia. rewrite <- Hx. f_equal. dlia. }
  change (11 - 1) with 10 in *. exists p, c. split_and!; [done|done|done| |].
  - unfold top_leaves. rewrite (layer_at_block 0 10) by exact Hend.
    change (2 ^ 10) with 1024. rewrite <- Hls'. by rewrite Hc.
  - rewrite Hexact, Hls'. apply (proof_of_part 0 10). by apply (siblings_block 0 10).
Qed.

(** ** [gen_proof] *)

(** Nothing is unknown in a tree. *)
Definition filled (t : AppendMerkleTree E) : Prop :=
  ∀ i n, leaves t = Ok n → i < n → leaf_at t i ≠ Ok None.

(** The data that the proof of entry [i] needs: the whole chunk, or, in the last
    chunk, all of its digests. *)
Definition provable F plain m (i : nat) : Prop :=
  filled (pora_chunks_merkle m) ∧
  if decide (i < tail_start F) then is_Some (chunk_leaves zero plain (Z.of_nat i / 1024))
  else filled (last_chunk_merkle m).

Lemma filled_represents n (L : list E) s t : views n L s t → filled t → represents n L t.
Proof.
  intros Hv Hf. eapply views_filled; [done|]. intros i Hi. apply (Hf i (length L)); [|done].
  by eapply leaves_views.
Qed.

Lemma last_chunk_proof_run F m i x :
  flow_trees F (pora_chunks_merkle m) (last_chunk_merkle m) → filled (last_chunk_merkle m) →
  F !! i = Some x → tail_start F ≤ i →
  ∃ p c, gen_proof (last_chunk_merkle m) (i mod 1024) = Ok p ∧
    proves c x (i mod 1024) p ∧ length (path p) = 10 ∧ top_leaves F !! (i / 1024) = Some c ∧
    p = proof_of 0 10 F i x c.
Proof.
  intros Ht Hfill Hx Hi. pose proof (lookup_lt_Some _ _ _ Hx) as Hlt.
  pose proof (filled_represents _ _ _ _ (ft_last _ _ _ Ht) Hfill) as Hrep.
  destruct (gen_proof_proves (last_chunk_merkle m) 0 11 (chunk_tail F) (i mod 1024) x)
    as (p & c & Hgen & Hp & Hc & _ & Hpath & Hexact).
  { pose proof (represents_reads _ _ _ Hrep) as Hr. by rewrite (ft_last_height _ _ _ Ht) in Hr. }
  { unfold chunk_tail. rewrite lookup_drop, <- Hx. f_equal. unfold tail_start in *. dlia. }
  change (11 - 1) with 10 in *. exists p, c. split_and!; [done|done|done| |].
  - rewrite top_leaves_split, lookup_app_r; rewrite length_top_leaves, length_complete.
    + unfold top_leaves. rewrite Hc.
      replace (i / 1024 - (tail_start F + 1023) / 1024) with 0; [done|]. unfold tail_start in *. dlia.
    + unfold tail_start in *. dlia.
  - rewrite Hexact. apply (proof_of_part 0 10). unfold chunk_tail.
    replace (tail_start F) with (i / 1024 * 2 ^ 10) by (change (2 ^ 10) with 1024; unfold tail_start in *; dlia).
    rewrite siblings_drop. f_equal. change (2 ^ 10) with 1024. dlia.
Qed.

Lemma depth_chunks k n : depth ((k + 1023) / 1024) ≤ n → depth k ≤ 10 + (n - 1) + 1.
Proof.
  intros Hd. pose proof (depth_le_pow ((k + 1023) / 1024)) as Hp. pose proof (depth_pos ((k + 1023) / 1024)).
  pose proof (Nat.pow_le_mono_r 2 (depth ((k + 1023) / 1024) - 1) (n - 1) ltac:(lia) ltac:(lia)).
  assert (k ≤ 2 ^ (10 + (n - 1))) as Hk.
  { rewrite Nat.pow_add_r. change (2 ^ 10) with 1024. dlia. }
  unfold depth. destruct (decide (k ≤ 1)) as [Hs|Hs].
  - rewrite Nat.log2_up_eqn0 by done. lia.
  - apply Nat.log2_up_le_pow2 in Hk; lia.
Qed.

Lemma lm_gen_proof_run F plain m i x :
  flow_inv zero keccak F plain m → F !! i = Some x → provable F plain m i →
  (Z.of_nat (length F) + 2048 ≤ 2 ^ 64)%Z →
  ∃ p r, lm_gen_proof zero keccak m (Z.of_nat i) None = Ok p ∧
    tree_root (pora_chunks_merkle m) = Ok r ∧ proves r x i p ∧
    let d := 10 + (length (layers (pora_chunks_merkle m)) - 1) in
    p = proof_of 0 d F i x r ∧ layer_at 0 d F = [r] ∧ depth (length F) ≤ d + 1.
Proof.
  intros Hinv Hx [Hfill Hdata] Hov. pose proof Hinv as [Hf Ht Hd]. pose proof (lookup_lt_Some _ _ _ Hx) as Hlt.
  destruct (ft_pora _ _ _ Ht) as [n Hp].
  assert (∃ sub c, (if negb (Z.of_nat i / 1024 =? Z.of_nat (length (top_leaves F) - 1))%Z
                       || (length (chunk_tail F) =? 0)
                    then gen_proof_in_chunk zero keccak m (Z.of_nat i / 1024) (Z.of_nat i)
                    else gen_proof (last_chunk_merkle m) (i mod 1024)) = Ok sub ∧
            proves c x (i mod 1024) sub ∧ length (path sub) = 10 ∧
            top_leaves F !! (i / 1024) = Some c ∧
            sub = proof_of 0 10 F i x c) as (sub & c & Hsub & Hc & Hlen & Htop & Hsubx).
  { rewrite length_top_leaves, length_chunk_tail. unfold tail_start in Hdata. case_decide as Hi.
    - replace (negb _ || _) with true.
      2: { symmetry. apply orb_true_iff. rewrite negb_true_iff, Z.eqb_neq, Nat.eqb_eq. dlia. }
      destruct Hdata as [ls Hls]. by eapply gen_proof_in_chunk_run.
    - replace (negb _ || _) with false.
      2: { symmetry. apply orb_false_iff. rewrite negb_false_iff, Z.eqb_eq, Nat.eqb_neq. dlia. }
      apply last_chunk_proof_run; [done..|unfold tail_start; dlia]. }
  pose proof (filled_represents _ _ _ _ Hp Hfill) as Hrep.
  destruct (gen_proof_proves (pora_chunks_merkle m) 10 n (top_leaves F) (i / 1024) c)
    as (top & r & Hgen & Htopp & Hlayer & Hroot & _ & Htopx); [|done|].
  { pose proof (represents_reads _ _ _ Hrep) as Hr. by rewrite (ft_pora_height _ _ _ Ht) in Hr. }
  destruct (entry_proof_run _ _ _ _ _ _ _ Htopp Hc) as (p & Hjoin & Hproves).
  exists p, r. split_and!; [|done|..].
  - unfold lm_gen_proof, PORA_CHUNK_SIZE, gen_proof_at.
    replace (Z.to_nat (Z.of_nat i / 1024)) with (i / 1024) by dlia. rewrite Hgen. cbn [res_bind].
    rewrite (pora_leaves_run F m Ht). cbn [res_bind]. unfold checked_sub.
    rewrite decide_True by (apply lookup_lt_Some in Htop; lia). cbn [res_bind].
    rewrite (last_leaves_run F m Ht). cbn [res_bind].
    replace (Z.to_nat (Z.of_nat i mod 1024)) with (i mod 1024) by dlia.
    rewrite <- length_chunk_tail, Hsub. exact Hjoin.
  - rewrite Hlen in Hproves. change (2 ^ 10) with 1024 in Hproves.
    by replace (i mod 1024 + 1024 * (i / 1024)) with i in Hproves by dlia.
  - rewrite (views_layers _ _ _ _ Hp). cbv zeta. split_and!.
    + subst sub top. unfold top_leaves in Hjoin. change (i / 1024) with (i / 2 ^ 10) in Hjoin.
      pose proof (entry_proof_exact 0 10 (n - 1) F i x c r) as Hx'. change (0 + 10) with 10 in Hx'. congruence.
    + rewrite <- (layer_at_add 0 10). exact Hlayer.
    + pose proof Hp as (_ & _ & Hdep & _). rewrite length_top_leaves in Hdep. by apply depth_chunks.
Qed.
End FlowProofs.
