(* ===== verification/LogRefinement.v ===== *)
(** * The log manager refines an append-only flow

    The abstract log is the list of the entry digests, the bytes known so far
    and the transaction table. [put_tx] appends padding and the digests of the
    transaction, [put_chunks] adds bytes; neither changes what is there. *)

From Stdlib Require Import Sorting.Sorted.
From stdpp Require Import fin_maps sorting.
From S2P Require Import Prelude Bytes IonianSpec Hashing MerkleProof MerkleRead AppendMerkle MerkleSpec MerkleAppend MerkleInclusion MerkleRange MerkleHistory MerklePartial MerkleFill SharedTypes MerkleLight SegmentProof SealCodec SealInfo ChunkData ChunkRuns EntryBatch EntryBatchProofs FlowStore FlowReads FlowWrites TxStore LogManager FlowTree LogInvariant LogPadding LogSteps LogTx LogProofs.

Section Refinement.
Context {E : Type} `{HashElement E} `{!Algorithm E} `{!NeverNull E} (zero : E) `{!FlowHashes E zero}.
Context (keccak : list Z → list Z) (keccak_len : ∀ x, length (keccak x) = 32).
Context {B : Type} `{BitmapOps B} `{!BitmapLaws B}.
Context `{FinMap Z M} {N : Type → Type} `{FinMap E N}.
Implicit Types (F : list E) (m : LogManager E B M N) (plain : Z → option Z).

Record log_spec : Type := MkLogSpec {
  ls_flow : list E;
  ls_data : Z → option Z;
  ls_txs : TransactionStore E M N;
}.
Implicit Type a : log_spec.

(** The empty log: one entry without data. *)
Definition log_start : log_spec := MkLogSpec [zero] (λ _, None) empty_txs.

(** An operation; a transaction comes with the digests under its subtrees. *)
Inductive log_op : Type :=
  | LPutTx (tx : Transaction E) (Gs : list (list E))
  | LPutChunks (tx_seq : Z) (chunks : ChunkArray).

Definition exec_log (o : log_op) : st (LogManager E B M N) unit :=
  match o with
  | LPutTx tx _ => put_tx zero keccak tx
  | LPutChunks tx_seq chunks => put_chunks zero keccak tx_seq chunks
  end.

(** The padding in front of a transaction aligns its first subtree. *)
Definition tx_padding a (tx : Transaction E) : nat :=
  match merkle_nodes tx with
  | [] => 0
  | (d, _) :: _ => pad_count (length (ls_flow a)) (2 ^ (d - 1))
  end.

Definition spec_log (o : log_op) a : log_spec :=
  match o with
  | LPutTx tx Gs =>
      let p := tx_padding a tx in
      MkLogSpec (ls_flow a ++ replicate p pad_leaf ++ concat Gs) (padded (ls_flow a) p (ls_data a))
        (ts_put_tx zero tx (ls_txs a)).2
  | LPutChunks tx_seq chunks =>
      match get_tx_by_seq_number (ls_txs a) tx_seq with
      | None => a
      | Some tx =>
          MkLogSpec (ls_flow a)
            (written (start_index chunks + start_entry_index tx) (ca_data chunks) (ls_data a)) (ls_txs a)
      end
  end.

(** What the callers of the log manager ensure: the subtree roots are those of
    the entries, the data are the data of the entries and are not stored yet. *)
Definition chunks_ok a (tx : Transaction E) (chunks : ChunkArray) : Prop :=
  let s := (start_index chunks + start_entry_index tx)%Z in
  let n := zlen (ca_data chunks) in
  (0 ≤ start_index chunks)%Z ∧ (1 ≤ s)%Z ∧ (0 < n)%Z ∧ (n mod 256 = 0)%Z ∧
  (start_index chunks * 256 + n < 2 ^ 64)%Z ∧
  (s + n / 256 ≤ Z.of_nat (length (ls_flow a)))%Z ∧
  (∃ padded last, compute_padded_chunk_size (tx_size tx) = Ok (padded, last) ∧
     start_index chunks * 256 + n ≤ padded * 256)%Z ∧
  free (ls_data a) (s * 256) n ∧
  (∀ k x, leaves_of (ca_data chunks) !! k = Some x → ls_flow a !! (Z.to_nat s + k) = Some x).

Definition log_ok (o : log_op) a : Prop :=
  match o with
  | LPutTx tx Gs =>
      merkle_nodes tx ≠ [] ∧ Forall2 subtree_of (merkle_nodes tx) Gs ∧
      StronglySorted ge (merkle_nodes tx).*1 ∧ new_root_tx tx (ls_txs a) ∧
      (Z.of_nat (length (ls_flow a) + tx_padding a tx) + 1024 ≤ 2 ^ 64)%Z
  | LPutChunks tx_seq chunks =>
      (Z.of_nat (length (ls_flow a)) + 1024 ≤ 2 ^ 64)%Z ∧
      ∃ tx, get_tx_by_seq_number (ls_txs a) tx_seq = Some tx ∧ chunks_ok a tx chunks
  end.

Fixpoint log_ops_ok (os : list log_op) a : Prop :=
  match os with [] => True | o :: os => log_ok o a ∧ log_ops_ok os (spec_log o a) end.

(** The log manager holds the abstract log. *)
Definition holds_log a m : Prop :=
  flow_inv zero keccak (ls_flow a) (ls_data a) m ∧ tx_store m = ls_txs a.

Lemma put_chunks_run a m tx_seq chunks :
  holds_log a m → log_ok (LPutChunks tx_seq chunks) a →
  ∃ m', put_chunks zero keccak tx_seq chunks m = (Ok tt, m') ∧
    holds_log (spec_log (LPutChunks tx_seq chunks) a) m'.
Proof.
  intros [Hinv Hts] [Hov (tx & Htx & Hs0 & Hs & Hn & Hmod & H64 & Hend & (padded & last & Hpad & Hin) & Hfree & Hmatch)].
  unfold put_chunks, get_tx. cbn [spec_log]. rewrite Htx.
  rewrite (st_bind_ok _ _ m tx m) by (unfold st_reads; by rewrite Hts, Htx).
  unfold put_tx_chunks. rewrite (st_bind_ok _ _ m (padded, last) m) by (unfold st_lift; by rewrite Hpad).
  unfold ENTRY_SIZE in *.
  rewrite (st_bind_ok _ _ m (start_index chunks * 256 + zlen (ca_data chunks))%Z m).
  2: { unfold st_lift, uadd. rewrite Z.min_l by lia. by rewrite (proj2 (Z.ltb_lt _ _)) by lia. }
  cbn [fst]. rewrite (proj2 (Z.ltb_ge _ _)) by lia.
  rewrite (st_bind_ok _ _ m (start_index chunks + start_entry_index tx)%Z m).
  2: { unfold st_lift, uadd. rewrite (proj2 (Z.ltb_lt _ _)); [done|]. dlia. }
  destruct (lm_append_entries_run zero keccak keccak_len (ls_flow a) (ls_data a) m
    (MkChunkArray (ca_data chunks) (start_index chunks + start_entry_index tx))) as (m' & Hrun & Hinv' & Htx');
    [done..|]. exists m'. split; [done|]. split; [done|]. by rewrite Htx'.
Qed.

Lemma exec_log_refines o a m :
  holds_log a m → log_ok o a → ∃ m', exec_log o m = (Ok tt, m') ∧ holds_log (spec_log o a) m'.
Proof.
  destruct o as [tx Gs|seq chunks]; [|by apply put_chunks_run]. intros [Hinv Hts] (Hne & Hsub & Hs & Hnew & Hov).
  cbn [exec_log spec_log]. unfold tx_padding in *. destruct (merkle_nodes tx) as [|[d r] rest] eqn:Hn; [done|].
  rewrite <- Hn in Hsub, Hs. rewrite <- Hts in Hnew.
  destruct (put_tx_run zero keccak keccak_len tx Gs _ _ m d r rest Hn Hinv Hsub Hs Hnew Hov)
    as (m' & Hrun & Hinv' & Htx' & _).
  exists m'. split; [done|]. split; [done|]. cbn. by rewrite <- Hts.
Qed.

Lemma log_run os a m :
  holds_log a m → log_ops_ok os a →
  ∃ m', st_for os exec_log m = (Ok tt, m') ∧ holds_log (foldl (λ a o, spec_log o a) a os) m'.
Proof.
  revert a m. induction os as [|o os IH]; intros a m Hm Hok; [by exists m|]. destruct Hok as [Ho Hos].
  destruct (exec_log_refines o a m Hm Ho) as (m1 & Hrun & Hm1).
  destruct (IH _ m1 Hm1 Hos) as (m2 & Hrun2 & Hm2). exists m2. split; [|done].
  cbn [st_for]. by rewrite (st_bind_ok _ _ _ _ _ Hrun).
Qed.

Lemma log_new_holds :
  ∃ m : LogManager E B M N, LogManager_new zero keccak empty_txs empty_flow 1024 = Ok m ∧ holds_log log_start m.
Proof. destruct (new_manager_run (B:=B) (M:=M) (N:=N) zero keccak) as (m & Hm & Hinv & Htx). by exists m. Qed.

(** The states that the operations reach from a fresh manager, with the abstract
    log they hold. *)
Definition log_after (os : list log_op) : log_spec := foldl (λ a o, spec_log o a) log_start os.

Definition log_reaches (os : list log_op) m : Prop :=
  log_ops_ok os log_start ∧
  ∃ m0, LogManager_new zero keccak empty_txs empty_flow 1024 = Ok m0 ∧ st_for os exec_log m0 = (Ok tt, m).

Lemma log_reaches_holds os m : log_reaches os m → holds_log (log_after os) m.
Proof.
  intros [Hok (m0 & Hm0 & Hrun)]. destruct log_new_holds as (m0' & Hm0' & Hh).
  assert (m0' = m0) as -> by congruence. destruct (log_run os log_start m0 Hh Hok) as (m' & Hrun' & Hh').
  assert (m' = m) as <- by congruence. done.
Qed.

(** ** Reads *)

Lemma get_entries_holds a m s e :
  holds_log a m → (1 ≤ s < e)%Z → (e + 1024 ≤ 2 ^ 64)%Z →
  get_entries keccak (flow_store m) s e =
  Ok (d ← read_range (ls_data a) (s * 256) ((e - s) * 256); Some (MkChunkArray d s)).
Proof.
  intros [Hinv _] Hse Hov. destruct Hinv as [_ _ Hd].
  apply (get_entries_run keccak keccak_len); [apply Hd|done..|]. intros i Hi _ eb Heb. right.
  eapply (fd_unsealed _ _ _ _ Hd); [exact Heb|dlia].
Qed.

Lemma get_chunks_holds a m tx seq i j :
  holds_log a m → get_tx_by_seq_number (ls_txs a) seq = Some tx →
  (0 ≤ i < j)%Z → (1 ≤ start_entry_index tx)%Z → (start_entry_index tx + j + 1024 ≤ 2 ^ 64)%Z →
  get_chunks_by_tx_and_index_range keccak m seq i j =
  Ok (d ← read_range (ls_data a) ((start_entry_index tx + i) * 256) ((j - i) * 256);
      Some (MkChunkArray d i)).
Proof.
  intros Hh Htx Hij Hs Hov. unfold get_chunks_by_tx_and_index_range. destruct Hh as [Hinv Hts]. rewrite Hts, Htx.
  unfold uadd. rewrite !(proj2 (Z.ltb_lt _ _)) by lia. cbn [res_bind].
  rewrite (get_entries_holds a m) by (done || lia). cbn [res_bind].
  replace (start_entry_index tx + j - (start_entry_index tx + i))%Z with (j - i)%Z by lia.
  destruct (read_range _ _ _) as [d|]; [|done]. cbn. unfold usub.
  rewrite (proj2 (Z.leb_le _ _)) by lia. cbn. do 3 f_equal. lia.
Qed.
End Refinement.

(** ** Chunks served by one node are accepted by another

    The range proofs of [get_chunks_with_proof_by_tx_and_index_range] are the
    range proofs of the flow as one tree, so a node with the same flow
    validates them against its own data. *)

Section Transfer.
Context {E : Type} `{HashElement E} `{!Algorithm E} `{!NeverNull E} (zero : E) `{!FlowHashes E zero}.
Context (keccak : list Z → list Z) (keccak_len : ∀ x, length (keccak x) = 32).
Context {B : Type} `{BitmapOps B} `{!BitmapLaws B}.
Context `{FinMap Z M} {N : Type → Type} `{FinMap E N}.
Implicit Types (m : LogManager E B M N) (a : log_spec (E := E) (M := M) (N := N)) (tx : Transaction E).

(** The flow entries of the chunks [i .. j) of a transaction. *)
Definition first_entry tx (i : Z) : nat := Z.to_nat (start_entry_index tx + i).
Definition last_entry tx (j : Z) : nat := Z.to_nat (start_entry_index tx + j) - 1.

(** The node has the chunks [i .. j) and what the proofs at their ends need. *)
Definition can_serve a m tx (i j : Z) (d : list Z) : Prop :=
  read_range (ls_data a) ((start_entry_index tx + i) * 256) ((j - i) * 256) = Some d ∧
  provable zero (ls_flow a) (ls_data a) m (first_entry tx i) ∧
  provable zero (ls_flow a) (ls_data a) m (last_entry tx j).

(** The data that a node serves are entries of its flow. *)
Lemma served_entries a m tx i j d :
  holds_log zero keccak a m → (0 ≤ i < j)%Z → (1 ≤ start_entry_index tx)%Z →
  read_range (ls_data a) ((start_entry_index tx + i) * 256) ((j - i) * 256) = Some d →
  leaves_of d = segment (first_entry tx i) (last_entry tx j) (ls_flow a) ∧
  zlen d = ((j - i) * 256)%Z ∧ last_entry tx j < length (ls_flow a).
Proof.
  intros [[Hf Ht Hd] _] Hij Hs Hr. pose proof (read_range_zlen _ _ ((j - i) * 256)%Z _ ltac:(lia) Hr) as Hlen.
  replace (start_entry_index tx + i)%Z with (Z.of_nat (first_entry tx i)) in Hr by (unfold first_entry; lia).
  destruct (entries_lookup _ _ _ _ (j - i)%Z (fd_agree _ _ _ _ Hd) ltac:(lia) Hr) as [Hl [|Hend]]; [lia|].
  unfold first_entry, last_entry in *. split_and!; [|done|lia].
  rewrite Hl. unfold segment. rewrite take_drop_commute. do 2 f_equal. lia.
Qed.

Lemma served_range a m tx seq i j d :
  holds_log zero keccak a m → get_tx_by_seq_number (ls_txs a) seq = Some tx →
  (0 ≤ i < j)%Z → (1 ≤ start_entry_index tx)%Z → (start_entry_index tx + j + 1024 ≤ 2 ^ 64)%Z →
  (Z.of_nat (length (ls_flow a)) + 2048 ≤ 2 ^ 64)%Z → can_serve a m tx i j d →
  ∃ rp r, get_chunks_with_proof_by_tx_and_index_range zero keccak m seq i j =
      Ok (Some (MkChunkArrayWithProof (MkChunkArray d i) rp)) ∧
    tree_root (pora_chunks_merkle m) = Ok r ∧ range_root rp = Ok r ∧
    range_validate rp (segment (first_entry tx i) (last_entry tx j) (ls_flow a)) (first_entry tx i) = Ok tt.
Proof.
  intros Hh Htx Hij Hs Hov HF (Hr & Hp1 & Hp2). pose proof Hh as [Hinv Hts].
  destruct (served_entries a m tx i j d Hh Hij Hs Hr) as (_ & _ & Hlt).
  assert (first_entry tx i ≤ last_entry tx j) as Hle by (unfold first_entry, last_entry; lia).
  destruct (lookup_lt_is_Some_2 (ls_flow a) (first_entry tx i)) as [x Hx]; [lia|].
  destruct (lookup_lt_is_Some_2 (ls_flow a) (last_entry tx j)) as [y Hy]; [lia|].
  destruct (lm_gen_proof_run zero keccak keccak_len _ _ m _ x Hinv Hx Hp1 HF) as (p & r & Hgp & Hroot & _ & Hpx & Htop & Hdep).
  destruct (lm_gen_proof_run zero keccak keccak_len _ _ m _ y Hinv Hy Hp2 HF) as (q & r' & Hgq & Hroot' & _ & Hqx & _ & _).
  assert (r' = r) as -> by congruence. set (dp := 10 + (length (layers (pora_chunks_merkle m)) - 1)) in *.
  exists (MkRangeProof p q), r. split_and!; [|done| |].
  - unfold get_chunks_with_proof_by_tx_and_index_range. rewrite Hts, Htx.
    rewrite (get_chunks_holds zero keccak keccak_len a m tx) by done. rewrite Hr. cbn [res_bind mbind option_bind].
    unfold uadd, usub. rewrite !(proj2 (Z.ltb_lt _ _)) by lia. cbn [res_bind].
    replace (start_entry_index tx + i)%Z with (Z.of_nat (first_entry tx i)) by (unfold first_entry; lia).
    rewrite Hgp. cbn [res_bind]. rewrite (proj2 (Z.leb_le _ _)) by lia. cbn [res_bind].
    replace (start_entry_index tx + j - 1)%Z with (Z.of_nat (last_entry tx j)) by (unfold last_entry; lia).
    by rewrite Hgq.
  - unfold range_root, root. cbn [left_proof]. rewrite Hpx. cbn [lemma proof_of]. by rewrite last_cons, last_snoc.
  - rewrite Hpx, Hqx. unfold proof_of. replace dp with (dp + 1 - 1) at 1 2 3 4 by lia.
    apply range_validate_complete; [done|done|lia| |done|done]. by rewrite Nat.add_sub.
Qed.

(** Another node with the same flow accepts what was served, when its tree had
    the same root. *)
Lemma served_valid a a' m m' tx seq i j d rp r :
  holds_log zero keccak a m → holds_log zero keccak a' m' → ls_flow a' = ls_flow a →
  get_tx_by_seq_number (ls_txs a') seq = Some tx →
  (0 ≤ i < j)%Z → (1 ≤ start_entry_index tx)%Z → (start_entry_index tx + j < 2 ^ 64)%Z →
  read_range (ls_data a) ((start_entry_index tx + i) * 256) ((j - i) * 256) = Some d →
  range_root rp = Ok r →
  range_validate rp (segment (first_entry tx i) (last_entry tx j) (ls_flow a)) (first_entry tx i) = Ok tt →
  validate_range_proof m' seq (MkChunkArrayWithProof (MkChunkArray d i) rp) =
  Ok (check_root (pora_chunks_merkle m') r).
Proof.
  intros Hh [_ Hts'] HF Htx Hij Hs Hov Hr Hroot Hval.
  destruct (served_entries a m tx i j d Hh Hij Hs Hr) as (Hl & Hlen & _).
  unfold validate_range_proof. cbn [cp_chunks ca_data start_index cp_proof].
  rewrite Hts', Htx. cbn [ok_or res_bind].
  rewrite data_to_merkle_leaves_run by (rewrite Hlen, Z.mod_mul; lia). cbn [res_bind].
  unfold uadd. rewrite (proj2 (Z.ltb_lt _ _)) by lia. cbn [res_bind].
  replace (Z.to_nat (i + start_entry_index tx)) with (first_entry tx i) by (unfold first_entry; lia).
  rewrite Hl, Hval. cbn [res_bind]. by rewrite Hroot.
Qed.

(** What was served may be put into the other node's log where it is free. *)
Lemma served_put_ok a a' m tx seq i j d :
  holds_log zero keccak a m → ls_flow a' = ls_flow a → get_tx_by_seq_number (ls_txs a') seq = Some tx →
  (0 ≤ i < j)%Z → (1 ≤ start_entry_index tx)%Z → (j * 256 < 2 ^ 64)%Z →
  (Z.of_nat (length (ls_flow a)) + 1024 ≤ 2 ^ 64)%Z →
  (∃ padded last, compute_padded_chunk_size (tx_size tx) = Ok (padded, last) ∧ j ≤ padded)%Z →
  read_range (ls_data a) ((start_entry_index tx + i) * 256) ((j - i) * 256) = Some d →
  free (ls_data a') ((start_entry_index tx + i) * 256) ((j - i) * 256) →
  log_ok (LPutChunks seq (MkChunkArray d i)) a'.
Proof.
  intros Hh HF Htx Hij Hs H64 Hov (padded & last & Hpad & Hle) Hr Hfree.
  destruct (served_entries a m tx i j d Hh Hij Hs Hr) as (Hl & Hlen & Hlt).
  split; [by rewrite HF|]. exists tx. split; [done|]. unfold chunks_ok. cbn [start_index ca_data].
  rewrite HF, Hlen, Z.mod_mul, Z.div_mul by lia. split_and!; try lia.
  - unfold last_entry in Hlt. lia.
  - exists padded, last. split; [done|lia].
  - by replace (i + start_entry_index tx)%Z with (start_entry_index tx + i)%Z by lia.
  - intros k x. rewrite Hl. unfold segment. rewrite lookup_drop.
    intros Hk. apply lookup_take_Some in Hk as [Hk _]. rewrite <- Hk. f_equal. unfold first_entry. lia.
Qed.

End Transfer.
