(* ===== verification/LogTheorems.v ===== *)
(** * The log store: main theorems

    The log manager as an implementation of an append-only flow, the flow store
    below it, and runs that show where reverting and restarting go wrong. *)

From Stdlib Require Import Sorting.Sorted.
From stdpp Require Import gmap sorting.
From S2P Require Import Prelude Bytes IonianSpec Hashing MerkleProof MerkleRead AppendMerkle MerkleSpec MerkleAppend MerkleInclusion MerkleHistory MerklePartial MerkleFill SharedTypes MerkleLight SealCodec SealInfo ChunkData ChunkRuns EntryBatch EntryBatchProofs FlowStore FlowReads FlowWrites TxStore LogManager FlowTree LogInvariant LogPadding LogSteps LogTx LogProofs LogRefinement.

(** ** Samples *)

Definition sample_log : Type := LogManager term Z (gmap Z) (gmap term).
Definition sample_zero : term := TPad 1.

Definition sample_fresh : sample_log :=
  match LogManager_new sample_zero toy_keccak empty_txs empty_flow 1024 with
  | Ok m => m
  | _ => fresh_manager
  end.

(** A transaction of one entry with the given bytes. *)
Definition one_entry_tx (seq start : Z) (data : list Z) : Transaction term :=
  MkTransaction [] [] (TLeaf data) [(1, TLeaf data)] start 256 seq.

(** A transaction of one subtree, its digest made up from the number. *)
Definition subtree_tx (seq start : Z) (d : nat) : Transaction term :=
  MkTransaction [] [] (TLeaf [seq]) [(d, TLeaf [seq])] start 256 seq.

Definition entry_bytes (b : Z) : list Z := zreplicate 256 b.

(** One transaction and its data. *)
Definition sample_ops : list (log_op (E := term)) :=
  [LPutTx (one_entry_tx 0 1 (entry_bytes 7)) [[TLeaf (entry_bytes 7)]];
   LPutChunks 0 (MkChunkArray (entry_bytes 7) 0)].

Definition sample_manager : sample_log :=
  (st_for sample_ops (exec_log sample_zero toy_keccak) sample_fresh).2.

Lemma sample_subtree data : subtree_of (1, TLeaf data) [TLeaf data].
Proof. split_and!; simpl; [lia|lia|done|by apply Forall_singleton|done]. Qed.

Lemma sample_put_ok :
  log_ok (LPutTx (one_entry_tx 0 1 (entry_bytes 7)) [[TLeaf (entry_bytes 7)]])
    (log_start (M := gmap Z) (N := gmap term) sample_zero).
Proof.
  split_and!.
  - done.
  - apply Forall2_cons. split; [apply sample_subtree|constructor].
  - repeat constructor.
  - done.
  - done.
Qed.

Lemma sample_ops_ok :
  log_ops_ok sample_zero sample_ops (log_start (M := gmap Z) (N := gmap term) sample_zero).
Proof.
  split; [apply sample_put_ok|]. split; [|done]. split; [by vm_compute|].
  exists (one_entry_tx 0 1 (entry_bytes 7)). split; [vm_compute; reflexivity|].
  unfold chunks_ok. split_and!; cbn [start_index start_entry_index one_entry_tx tx_size ca_data].
  1-6: by vm_compute.
  - by exists 1%Z, 1%Z.
  - intros k Hk. change (zlen (entry_bytes 7)) with 256%Z in Hk. cbn [spec_log ls_data].
    change (tx_padding _ _) with 0. unfold padded, written. rewrite piece_None; [done|].
    right. change (start_sector _ * 256 + zlen _)%Z with 256%Z. lia.
  - intros [|k] x Hx; [|by vm_compute in Hx]. rewrite <- Hx. by vm_compute.
Qed.

Lemma sample_reaches : log_reaches sample_zero toy_keccak sample_ops sample_manager.
Proof.
  split; [apply sample_ops_ok|]. exists sample_fresh. split; [by vm_compute|].
  unfold sample_manager. rewrite (surjective_pairing (st_for _ _ _)) at 1.
  apply (f_equal2 pair); [by vm_compute|done].
Qed.

(** ** The log manager *)

Section LogManager.
Context {E : Type} `{HashElement E} `{!Algorithm E} `{!NeverNull E} (zero : E) `{!FlowHashes E zero}.
Context (keccak : list Z → list Z) (keccak_len : ∀ x, length (keccak x) = 32).
Context {B : Type} `{BitmapOps B} `{!BitmapLaws B}.
Context `{FinMap Z M} {N : Type → Type} `{FinMap E N}.
Implicit Types (m : LogManager E B M N).

(** C2: a log manager that [LogManager::new] opens on an empty database, and on
    which transactions and their data are then put in any order, never fails,
    and holds exactly the abstract log: the entry digests of the transactions
    with the padding between them, the bytes that were put, and the transaction
    table. *)
Theorem log_manager_refines (os : list log_op) :
  log_ops_ok zero os (log_start (M := M) (N := N) zero) →
  ∃ m0 m, LogManager_new zero keccak empty_txs empty_flow 1024 = Ok m0 ∧
    st_for os (exec_log zero keccak) m0 = (Ok tt, m) ∧ holds_log zero keccak (log_after zero os) m.
Proof.
  intros Hok. destruct (log_new_holds (B := B) (M := M) (N := N) zero keccak) as (m0 & Hm0 & Hh).
  destruct (log_run zero keccak keccak_len os _ m0 Hh Hok) as (m & Hrun & Hm). by exists m0, m.
Qed.

(** [get_context] of a reachable log manager returns the Merkle root over
    all entries of the flow, as one tree, and their number. *)
Theorem log_context_correct (os : list log_op) m :
  log_reaches zero keccak os m →
  let F := ls_flow (log_after (M := M) (N := N) zero os) in
  (Z.of_nat (length F) < 2 ^ 64)%Z →
  ∃ r, get_context m = Ok (r, Z.of_nat (length F)) ∧ root_of 0 (flow_depth m) F = Some r.
Proof.
  intros Hr F HF. destruct (log_reaches_holds zero keccak keccak_len os m Hr) as [Hinv _].
  destruct (get_context_run zero keccak _ _ m Hinv HF) as (r & Hroot & _ & Hctx). by exists r.
Qed.


End LogManager.

Lemma log_manager_refines_witness :
  ∃ m0 m, LogManager_new sample_zero toy_keccak empty_txs empty_flow 1024 = Ok m0 ∧
    st_for sample_ops (exec_log sample_zero toy_keccak) m0 = (Ok tt, m) ∧
    holds_log (B := Z) (M := gmap Z) (N := gmap term) sample_zero toy_keccak (log_after sample_zero sample_ops) m.
Proof. apply (log_manager_refines sample_zero toy_keccak toy_keccak_len sample_ops sample_ops_ok). Defined.

Lemma log_context_correct_witness :
  ∃ r, get_context sample_manager = Ok (r, 2%Z) ∧
    root_of 0 (flow_depth sample_manager) [sample_zero; TLeaf (entry_bytes 7)] = Some r.
Proof.
  apply (log_context_correct sample_zero toy_keccak toy_keccak_len sample_ops sample_manager sample_reaches).
  by vm_compute.
Defined.




(** ** The flow store *)

Section FlowStore.
Context {E : Type} `{HashElement E} `{!Algorithm E} `{!NeverNull E} (zero : E) `{!FlowHashes E zero}.
Context (keccak : list Z → list Z) (keccak_len : ∀ x, length (keccak x) = 32).
Context {B : Type} `{BitmapOps B} `{!BitmapLaws B} `{FinMap Z M}.
Implicit Types (fs : FlowStore E B M) (plain : Z → option Z).

(** C19: [append_entries] of the flow store, for a non-empty run of whole entries
    after entry 0, which has no data, with 1024 entries to spare below the largest
    index, when no load chunk that the run touches, the first load chunk
    apart, has its first part sealed (the root of a sealed load chunk is computed
    over the sealed bytes): if none of the entries overlaps stored data, exactly
    the given bytes are written, in every load chunk that the run touches, the
    roots of the load chunks that became complete are returned, and no part
    becomes sealed; if some entry overlaps stored data, even by one byte, the call is an
    error and nothing of the run is written. *)
Theorem flow_append_correct fs plain data :
  let s := start_index data in
  let n := zlen (ca_data data) in
  let chunks := touched s (s + n / 256) in
  flow_models keccak fs plain → plain 0%Z = None →
  (0 < n)%Z → (n mod 256 = 0)%Z → (1 ≤ s)%Z → (s + n / 256 + 1024 ≤ 2 ^ 64)%Z →
  (∀ i eb, i ∈ chunks → i ≠ 0%Z → get_entry_batch (db fs) i = Some eb → is_sealed (eb_seal eb) 0 = false) →
  if decide (free plain (s * 256) n) then
    let plain' := written s (ca_data data) plain in
    ∃ fs', append_entries zero keccak data fs = (Ok (completed zero plain' chunks), fs') ∧
      flow_models keccak fs' plain' ∧ seals_kept fs fs'
  else
    ∃ err fs', append_entries zero keccak data fs = (Err err, fs') ∧
      db fs' = db fs ∧ flow_models keccak fs' plain.
Proof.
  intros s n chunks Hm Hz Hn Hmod Hs Hov Hseal. destruct (decide (free plain (s * 256) n)) as [Hfree|Hover].
  - destruct (append_entries_run zero keccak keccak_len fs plain data) as (fs' & Hrun & Hm' & Hkept & _); [done..|].
    by exists fs'.
  - by apply (append_entries_rejects zero keccak).
Qed.

(** [truncate] of the flow store removes the bytes from the given entry on
    and no other; the reads return what is left, sealed or not. *)
Theorem flow_truncate_correct fs plain start :
  flow_models keccak fs plain → (0 ≤ start)%Z →
  ∃ fs', truncate keccak start fs = (Ok tt, fs') ∧ flow_models keccak fs' (cut (start * 256) plain) ∧
    ∀ s e, (1 ≤ s < e)%Z → (e + 1024 ≤ 2 ^ 64)%Z →
      (∀ a, (s ≤ a < e)%Z → a = s ∨ (a mod 1024 = 0)%Z → readable fs' a) →
      get_entries keccak fs' s e =
      Ok (d ← read_range (cut (start * 256) plain) (s * 256) ((e - s) * 256); Some (MkChunkArray d s)).
Proof.
  intros Hm Hs. destruct (flow_truncate_run zero keccak keccak_len fs plain start Hm Hs) as (fs' & Hrun & Hm' & _).
  exists fs'. split_and!; [done..|]. intros s e Hse Hov Hr. by apply (get_entries_run keccak keccak_len).
Qed.
End FlowStore.

Definition sample_store : FlowStore term Z (gmap Z) := flow_store sample_fresh.

Lemma sample_store_models : flow_models toy_keccak sample_store (λ _, None).
Proof.
  destruct (log_new_holds (B := Z) (M := gmap Z) (N := gmap term) sample_zero toy_keccak) as (m & Hm & [Hinv _]).
  unfold sample_store, sample_fresh. rewrite Hm. apply Hinv.
Qed.

(** Two entries across the boundary of the first two load chunks. *)
Definition boundary_data : ChunkArray := MkChunkArray (zreplicate 512 7%Z) 1023.

Lemma flow_append_correct_witness :
  (let plain' := written 1023 (zreplicate 512 7%Z) (λ _, None) in
   ∃ fs', append_entries sample_zero toy_keccak boundary_data sample_store =
      (Ok (completed sample_zero plain' [0; 1]%Z), fs') ∧
    flow_models toy_keccak fs' plain' ∧ seals_kept sample_store fs') ∧
  (let fs := flow_store sample_manager in
   ∃ err fs', append_entries sample_zero toy_keccak (MkChunkArray (entry_bytes 8) 1) fs = (Err err, fs') ∧
    db fs' = db fs ∧ flow_models toy_keccak fs' (ls_data (log_after (M := gmap Z) (N := gmap term) sample_zero sample_ops))).
Proof.
  split.
  - pose proof (flow_append_correct sample_zero toy_keccak toy_keccak_len sample_store (λ _, None) boundary_data
      sample_store_models eq_refl eq_refl eq_refl ltac:(done) ltac:(done)) as Hspec.
    rewrite decide_True in Hspec by done. apply Hspec. intros i eb _ _ Hi. by vm_compute in Hi.
  - assert (Hm : flow_models toy_keccak (flow_store sample_manager)
      (ls_data (log_after (M := gmap Z) (N := gmap term) sample_zero sample_ops)))
      by apply (log_reaches_holds sample_zero toy_keccak toy_keccak_len sample_ops), sample_reaches.
    pose proof (flow_append_correct sample_zero toy_keccak toy_keccak_len (flow_store sample_manager) _
      (MkChunkArray (entry_bytes 8) 1) Hm ltac:(by vm_compute) eq_refl eq_refl ltac:(done) ltac:(done)) as Hspec.
    rewrite decide_False in Hspec.
    + apply Hspec. intros i eb Hi Hne. apply elem_of_touched in Hi.
      change (0 ≤ i ≤ 0)%Z in Hi. exfalso. clear -Hi Hne. lia.
    + intros Hf. specialize (Hf 256%Z ltac:(done)). by vm_compute in Hf.
Defined.

Lemma flow_truncate_correct_witness :
  let plain := ls_data (log_after (M := gmap Z) (N := gmap term) sample_zero sample_ops) in
  ∃ fs', truncate toy_keccak 1 (flow_store sample_manager) = (Ok tt, fs') ∧
    flow_models toy_keccak fs' (cut 256 plain) ∧
    ∀ s e, (1 ≤ s < e)%Z → (e + 1024 ≤ 2 ^ 64)%Z →
      (∀ a, (s ≤ a < e)%Z → a = s ∨ (a mod 1024 = 0)%Z → readable fs' a) →
      get_entries toy_keccak fs' s e =
      Ok (d ← read_range (cut 256 plain) (s * 256) ((e - s) * 256); Some (MkChunkArray d s)).
Proof.
  intros plain. apply (flow_truncate_correct sample_zero toy_keccak toy_keccak_len (flow_store sample_manager) plain 1); [|lia].
  apply (log_reaches_holds sample_zero toy_keccak toy_keccak_len sample_ops), sample_reaches.
Defined.

(** [append_entries] marks the parts that become complete for sealing before
    anything is written. A run of 17 entries up to entry 1024, which is stored
    already, is refused, the mark of its first 16 entries stays, and the next
    [pull_seal_chunk] panics. *)
Lemma refused_append_breaks_sealing :
  let store_entry := append_entries sample_zero toy_keccak (MkChunkArray (entry_bytes 7) 1024) in
  let run := append_entries sample_zero toy_keccak (MkChunkArray (zreplicate 4352 8%Z) 1008) in
  let fs := (store_entry sample_store).2 in
  (run fs).1 = Err "start position overlapped with existing batch" ∧
  pull_seal_chunk fs 1000 = Ok None ∧
  pull_seal_chunk (run fs).2 1000 = Panic "Lost data chunk in to_seal_set".
Proof. split_and!; vm_compute; reflexivity. Qed.

(** ** Reverting and restarting *)

(** Ten transactions that fill the first chunk. *)
Definition fill_first_chunk : st sample_log unit :=
  st_for (seq 0 10) (λ i,
    put_tx sample_zero toy_keccak (subtree_tx (Z.of_nat i) (2 ^ Z.of_nat i) (S i))).

Definition put_sample (tx : Transaction term) : st sample_log unit := put_tx sample_zero toy_keccak tx.
Definition put_sample_data (seq b : Z) : st sample_log unit :=
  put_chunks sample_zero toy_keccak seq (MkChunkArray (entry_bytes b) 0).
Definition revert_sample (seq : Z) : st sample_log unit :=
  lm_revert_to sample_zero toy_keccak seq;; st_ret tt.

(** The manager that [LogManager::new] opens on the database that is left. *)
Definition restart (m : sample_log) : res sample_log :=
  LogManager_new sample_zero toy_keccak (tx_store m) (db (flow_store m)) 1024.
Definition flow_len (m : sample_log) : res Z := let? c := get_context m in Ok c.2.

(** The length of the flow after a run, and after a restart. *)
Definition lengths_after (run : st sample_log unit) : res (Z * Z) :=
  let? m := st_exec run sample_fresh in
  let? n := flow_len m in
  let? m' := restart m in
  let? n' := flow_len m' in
  Ok (n, n').

(** A run after the first chunk: the data of a reverted transaction stay, and the
    data of the transaction that replaces it are rejected. *)
Lemma revert_keeps_reverted_data :
  ((fill_first_chunk;; put_sample (one_entry_tx 10 1024 (entry_bytes 6));;
    put_sample (one_entry_tx 11 1025 (entry_bytes 7));; put_sample_data 11 7;;
    revert_sample 10;; put_sample (one_entry_tx 11 1025 (entry_bytes 8));;
    put_sample_data 11 8) sample_fresh).1 = Err "start position overlapped with existing batch".
Proof. vm_compute. reflexivity. Qed.

(** Reverting to a flow that ends at the end of a chunk rebuilds a full tree
    for the last chunk, where [append_subtree_list] expects an empty one: the
    next transaction panics. *)
Theorem revert_to_full_chunk_panics :
  ((fill_first_chunk;; put_sample (one_entry_tx 10 1024 (entry_bytes 6));; revert_sample 9;;
    put_sample (one_entry_tx 10 1024 (entry_bytes 6))) sample_fresh).1 =
  Panic "assertion failed: self.last_chunk_merkle.leaves() == 0".
Proof. vm_compute. reflexivity. Qed.

(** [truncate] removes the roots of load chunks only up to the last load
    chunk that has data. After reverting a transaction without data and
    restarting, the flow still has the reverted chunk. *)
Theorem restart_after_revert_diverges :
  lengths_after (fill_first_chunk;; put_sample (subtree_tx 10 1024 11);; revert_sample 9) =
  Ok (1024, 2048)%Z.
Proof. vm_compute. reflexivity. Qed.

(** The root of a subtree of several chunks is stored at the index of its
    last chunk, and [get_chunk_root_list] stops at the first index without a
    root. After a restart the top tree ends before the subtree, the subtree is
    in the tree of the last chunk, and the next transaction panics; without the
    restart it is accepted. *)
Theorem restart_loses_subtree :
  let run := (fill_first_chunk;; put_sample (subtree_tx 10 1024 11);; put_sample (subtree_tx 11 2048 12)) in
  let next := put_sample (one_entry_tx 12 4096 (entry_bytes 6)) in
  (let? m := st_exec (run;; next) sample_fresh in flow_len m) = Ok 4097%Z ∧
  (let? m := st_exec run sample_fresh in
   let? m := restart m in
   let? m := st_exec next m in flow_len m) =
  Panic "assertion failed: self.last_chunk_merkle.leaves() == 0".
Proof. split; vm_compute; reflexivity. Qed.

(** ** Where [revert_to] cuts the flow *)

Section RevertCut.
Context {E : Type} `{HashElement E} `{!Algorithm E} `{!NeverNull E} (zero : E) `{!FlowHashes E zero}.
Context (keccak : list Z → list Z) (keccak_len : ∀ x, length (keccak x) = 32).
Context {B : Type} `{BitmapOps B} `{!BitmapLaws B} `{FinMap Z M} {N : Type → Type} `{FinMap E N}.
Implicit Types (m : LogManager E B M N) (fs : FlowStore E B M) (plain : Z → option Z).

Lemma try_initialize_keeps fs : maintains (λ m, flow_store m = fs) (try_initialize zero keccak).
Proof.
  apply maintains_bind; [apply maintains_reads|]. intros n.
  apply maintains_bind; [apply maintains_reads|]. intros l. case_goal.
  { apply maintains_bind; [by apply maintains_zoom|]. intros _.
    apply maintains_bind; [apply maintains_reads|]. intros r. by apply maintains_zoom. }
  case_goal; [|apply maintains_ret].
  apply maintains_bind; [apply maintains_reads|]. intros last_start.
  apply maintains_bind; [apply maintains_reads|]. intros data. apply maintains_for. intros e.
  apply maintains_bind; [apply maintains_lift|]. intros start. apply maintains_for. intros [i x].
  by apply maintains_zoom.
Qed.

Lemma revert_merkle_tree_keeps fs seq : maintains (λ m, flow_store m = fs) (revert_merkle_tree zero keccak seq).
Proof.
  unfold revert_merkle_tree. case_goal.
  { do 2 (apply maintains_bind; [by apply maintains_zoom|]; intros _). apply try_initialize_keeps. }
  apply maintains_bind; [apply maintains_reads|]. intros old.
  apply maintains_bind; [by apply maintains_zoom|]. intros _.
  apply maintains_bind; [apply maintains_reads|]. intros n. case_goal; [by apply maintains_zoom|].
  apply maintains_bind; [apply maintains_lift|]. intros i.
  apply maintains_bind; [apply maintains_reads|]. intros t.
  apply maintains_bind; [by apply maintains_zoom|]. intros _.
  apply maintains_bind; [apply try_initialize_keeps|]. intros _.
  do 2 (apply maintains_bind; [apply maintains_reads|]; intros ?). apply maintains_lift.
Qed.

(** Removing transactions changes only the transaction store. *)
Lemma remove_txs_keeps m0 seqs :
  maintains (λ m, ∃ ts, m = set_tx ts m0) (remove_txs (E := E) (B := B) (M := M) (N := N) seqs).
Proof.
  induction seqs as [|seq seqs IH]; cbn [remove_txs]; [apply maintains_ret|].
  apply maintains_bind. { apply maintains_zoom. intros m t [ts ->]. by exists t. }
  intros [tx|]; [|apply maintains_ret]. apply maintains_bind; [exact IH|]. intros txs. apply maintains_ret.
Qed.

(** The trees decide where the flow store is cut. *)
Lemma lm_revert_to_cut m seq txs m' :
  lm_revert_to zero keccak seq m = (Ok txs, m') →
  ∃ s l, last_chunk_start_index m' = Ok s ∧ last_leaves m' = Ok l ∧ (0 ≤ s)%Z ∧
    truncate keccak (s * 1024 + Z.of_nat l) (flow_store m) = (Ok tt, flow_store m').
Proof.
  intros Hrun. unfold lm_revert_to in Hrun. pose proof (revert_merkle_tree_keeps (flow_store m) seq m eq_refl) as Hkeep.
  unfold st_bind, st_reads, st_lift, on_flow, st_zoom in Hrun.
  destruct (revert_merkle_tree _ _ _ m) as [[[]| |] m1]; simpl in Hkeep, Hrun; [|done..].
  destruct (last_chunk_start_index m1) as [s| |] eqn:Hs; simpl in Hrun; [|done..].
  unfold umul in Hrun. destruct (s * PORA_CHUNK_SIZE <? 2 ^ 64)%Z; [|done].
  destruct (last_leaves m1) as [l| |] eqn:Hl; simpl in Hrun; [|done..].
  unfold uadd in Hrun. destruct (_ <? 2 ^ 64)%Z; [|done].
  rewrite Hkeep in Hrun. destruct (truncate _ _ _) as [[[]| |] fs] eqn:Ht; [|done..].
  destruct (next_tx_seq _) as [next| |]; [|done..].
  match type of Hrun with remove_txs ?seqs ?m2 = _ =>
    destruct (remove_txs_keeps m2 seqs m2) as [ts Hm']; [by exists (tx_store m2); destruct m2|] end.
  rewrite Hrun in Hm'. simpl in Hm'. subst m'. exists s, l. split_and!; [done..| |exact Ht].
  unfold last_chunk_start_index in Hs. clear -Hs. destruct (pora_leaves m1) as [n| |]; simpl in Hs; [|done..].
  destruct (n =? 0)%nat; [injection Hs as <-; done|]. destruct (last_leaves m1) as [l| |]; simpl in Hs; [|done..].
  unfold umul in Hs. case_in Hs; [|done]. injection Hs as <-. apply Z.mul_nonneg_nonneg; [done|lia].
Qed.

(** C39: where [revert_to] cuts the data, for every manager and every sequence
    number it returns for. The length of the flow is [s + l], with [s] the entry at
    which the last chunk starts and [l] the entries of the last chunk; the data
    are cut at entry [1024 * s + l], since [s] is multiplied by the chunk size
    once more. Inside the first chunk ([s = 0]) exactly the data of the entries
    that were reverted are removed. Behind it all data of the last chunk and of the
    [1023 * s] entries after the end of the flow stay, and data of a later
    transaction that overlap what stayed are refused with nothing written. *)
Theorem revert_cuts_data_late m plain seq txs m' :
  flow_models keccak (flow_store m) plain →
  lm_revert_to zero keccak seq m = (Ok txs, m') →
  ∃ s l, last_chunk_start_index m' = Ok s ∧ last_leaves m' = Ok l ∧
    let kept := cut ((s * 1024 + Z.of_nat l) * 256) plain in
    flow_models keccak (flow_store m') kept ∧
    (s = 0%Z → kept = cut ((s + Z.of_nat l) * 256) plain) ∧
    (∀ k, (k < (s + Z.of_nat l + 1023 * s) * 256)%Z → kept k = plain k) ∧
    ∀ data, let n := zlen (ca_data data) in
      (0 < n)%Z → (n mod 256 = 0)%Z → (1 ≤ start_index data)%Z → (start_index data + n / 256 + 1024 ≤ 2 ^ 64)%Z →
      ¬ free kept (start_index data * 256) n →
      ∃ err fs', append_entries zero keccak data (flow_store m') = (Err err, fs') ∧ db fs' = db (flow_store m').
Proof.
  intros Hm Hrun. destruct (lm_revert_to_cut m seq txs m' Hrun) as (s & l & Hs & Hl & Hpos & Ht).
  destruct (flow_truncate_run zero keccak keccak_len (flow_store m) plain (s * 1024 + Z.of_nat l) Hm)
    as (fs' & Ht' & Hm' & _); [lia|]. rewrite Ht in Ht'. injection Ht' as <-.
  exists s, l. split; [done|]. split; [done|]. intros kept. split_and!; [done| | |].
  - intros ->. reflexivity.
  - intros k Hk. unfold kept, cut. by rewrite (proj2 (Z.ltb_lt _ _)) by lia.
  - intros data n Hn Hmod Hst Hov Hover.
    destruct (append_entries_rejects zero keccak (flow_store m') _ data Hm') as (err & fs' & ? & ? & _); [done..|].
    by exists err, fs'.
Qed.
End RevertCut.

(** The first chunk is full, and two transactions of one entry follow; then the
    data of the second arrive. *)
Definition past_first_chunk : sample_log :=
  ((fill_first_chunk;; put_sample (one_entry_tx 10 1024 (entry_bytes 6));;
    put_sample (one_entry_tx 11 1025 (entry_bytes 7))) sample_fresh).2.
Definition with_data : sample_log := (put_sample_data 11 7 past_first_chunk).2.
Definition reverted : sample_log := (lm_revert_to sample_zero toy_keccak 10 with_data).2.

Lemma with_data_models :
  flow_models toy_keccak (flow_store with_data) (written 1025 (entry_bytes 7) (λ _, None)).
Proof.
  assert (entry_batches (db (flow_store past_first_chunk)) = ∅) as Hnone by (vm_compute; reflexivity).
  assert (flow_models toy_keccak (flow_store past_first_chunk) (λ _, None)) as Hm0.
  { split; [by vm_compute| |reflexivity]. intros i e Hi. unfold get_entry_batch in Hi. by rewrite Hnone, lookup_empty in Hi. }
  destruct (append_entries_run sample_zero toy_keccak toy_keccak_len (flow_store past_first_chunk) (λ _, None)
    (MkChunkArray (entry_bytes 7) 1025) Hm0) as (fs' & Hrun & Hm & _);
    [reflexivity|reflexivity|reflexivity|vm_compute; congruence|vm_compute; congruence|intros k _; reflexivity| |].
  - intros i eb _ _ Hi. unfold get_entry_batch in Hi. by rewrite Hnone, lookup_empty in Hi.
  - apply (flow_models_db toy_keccak fs'); [| |exact Hm].
    + apply (f_equal snd) in Hrun. cbn [snd] in Hrun. rewrite <- Hrun. vm_compute. reflexivity.
    + rewrite (fm_size _ _ _ Hm). vm_compute. reflexivity.
Qed.

Lemma reverted_run : ∃ txs, lm_revert_to sample_zero toy_keccak 10 with_data = (Ok txs, reverted).
Proof.
  unfold reverted. destruct (lm_revert_to sample_zero toy_keccak 10 with_data) as [r m] eqn:Hrun.
  assert (is_ok (lm_revert_to sample_zero toy_keccak 10 with_data).1 = true) as Hok by (vm_compute; reflexivity).
  rewrite Hrun in Hok. destruct r as [txs| |]; [by exists txs|done..].
Qed.

Lemma revert_cuts_data_late_witness :
  last_chunk_start_index reverted = Ok 1024%Z ∧ last_leaves reverted = Ok 1 ∧
  flow_models toy_keccak (flow_store reverted)
    (cut ((1024 * 1024 + 1) * 256) (written 1025 (entry_bytes 7) (λ _, None))) ∧
  ∃ err fs', append_entries sample_zero toy_keccak (MkChunkArray (entry_bytes 8) 1025) (flow_store reverted) =
    (Err err, fs').
Proof.
  destruct reverted_run as [txs Hrun].
  destruct (revert_cuts_data_late sample_zero toy_keccak toy_keccak_len with_data _ 10 txs reverted with_data_models Hrun)
    as (s & l & Hs & Hl & Hm & _ & _ & Hrej).
  assert (last_chunk_start_index reverted = Ok 1024%Z) as Hs' by (vm_compute; reflexivity).
  assert (last_leaves reverted = Ok 1) as Hl' by (vm_compute; reflexivity).
  rewrite Hs' in Hs. rewrite Hl' in Hl. injection Hs as <-. injection Hl as <-.
  split; [exact Hs'|]. split; [exact Hl'|]. split; [exact Hm|].
  destruct (Hrej (MkChunkArray (entry_bytes 8) 1025)) as (err & fs' & Happ & _); [done..| |by exists err, fs'].
  intros Hf. assert (1025 * 256 ≤ 262400 < 1025 * 256 + zlen (entry_bytes 8))%Z as Hk by (split; vm_compute; congruence).
  apply Hf in Hk. vm_compute in Hk. discriminate Hk.
Defined.

(** ** Splitting ranges and files *)

(** [batch_iter] cuts a range of entries at the multiples of the batch size:
    the batches are adjacent, none is empty, and none crosses a boundary. *)
Theorem batch_iter_partition (s e bs : Z) :
  (0 < bs)%Z → (0 ≤ s < e)%Z → (e + bs ≤ 2 ^ 64)%Z →
  ∃ l, batch_iter s e bs = Ok l ∧ batches bs s e l.
Proof. apply batch_iter_run. Qed.

Lemma batch_iter_partition_witness :
  ∃ l, batch_iter 1000 3000 1024 = Ok l ∧ batches 1024 1000 3000 l.
Proof. apply (batch_iter_partition 1000 3000 1024); lia. Defined.

(** [tx_subtree_root_list_padded] adds the end of a subtree, not its size, to the
    start of the next: of seven entries the third subtree, the last entry, is
    taken for padding. *)
Theorem subtree_roots_skip_data :
  let data := concat (entry_bytes <$> [1; 2; 3; 4; 5; 6; 7]%Z) in
  (let? l := tx_subtree_root_list_padded sample_zero data in Ok (last l)) =
  Ok (Some (1, leaf_hash (zreplicate 256 0%Z) : term)).
Proof. vm_compute. reflexivity. Qed.
