(* ===== verification/ChunkPool.v ===== *)
(** * The chunk pool: [node/chunk_pool]

    Segments that users upload are cached in memory until the transaction of
    their file is known, or written to the store through a sliding window per
    file.  The methods are [async] and hold the lock of [Inner] for one call at
    a time; each locked section is one definition, and the methods compose them
    with the calls of the store. *)

From stdpp Require Import gmap fin_maps.
From S2P Require Import Prelude Bytes IonianSpec SharedTypes.

(** ** Interfaces *)

(** [hashlink::LinkedHashMap], a map that keeps its entries in a list:
    [or_insert_with] of an entry puts it at the back, an occupied one too;
    [get_mut] leaves the order. *)
Class LinkedHashMap (K : Type) (L : Type → Type) := {
  lh_list {V} : L V → list (K * V);
  lh_empty {V} : L V;
  lh_get {V} : K → L V → option V;
  lh_set {V} : K → V → L V → L V;
  lh_remove {V} : K → L V → L V;
  lh_pop_front {V} : L V → L V;
  lh_or_insert {V} : K → V → L V → L V;
}.

(** The entries of the keys other than [k]. *)
Definition without `{EqDecision K} {V} (k : K) (l : list (K * V)) : list (K * V) :=
  filter (λ x, x.1 ≠ k) l.

Class LinkedHashMapLaws K L `{LinkedHashMap K L, EqDecision K} := {
  lh_nodup {V} (l : L V) : NoDup (lh_list l).*1;
  lh_empty_list {V} : lh_list (lh_empty : L V) = [];
  lh_get_spec {V} k (l : L V) v : lh_get k l = Some v ↔ (k, v) ∈ lh_list l;
  lh_set_list {V} k v (l : L V) :
    lh_list (lh_set k v l) = (λ x, if decide (x.1 = k) then (k, v) else x) <$> lh_list l;
  lh_remove_list {V} k (l : L V) : lh_list (lh_remove k l) = without k (lh_list l);
  lh_pop_front_list {V} (l : L V) : lh_list (lh_pop_front l) = tail (lh_list l);
  lh_or_insert_list {V} k v (l : L V) :
    lh_list (lh_or_insert k v l) = without k (lh_list l) ++ [(k, default v (lh_get k l))];
}.

(** What the pool needs of the log store ([storage_async::Store]). *)
Class LogStoreWrite (E S : Type) := {
  store_put_chunks : Z → E → ChunkArray → st S bool;
  store_finalize : Z → E → st S bool;
}.

(** [storage_async::Store::spawn] runs the call in a task of its own; when it
    panics the caller gets an error. *)
Definition spawned {S A} (m : st S A) : st S (res A) := λ s,
  match m s with
  | (Panic _, s') => (Ok (Err "Receiver error"), s')
  | (r, s') => (Ok r, s')
  end.

Section ChunkPool.
Context {E : Type} {N : Type → Type} `{FinMap E N} {L : Type → Type} `{LinkedHashMap E L} (zero : E).

(** ** Identifiers and configuration *)

Record TxID : Type := MkTxID { id_seq : Z; id_hash : E }.
Record FileID : Type := MkFileID { file_root : E; file_tx : TxID }.

#[export] Instance TxID_eq_dec : EqDecision TxID.
Proof. solve_decision. Defined.
#[export] Instance FileID_eq_dec : EqDecision FileID.
Proof. solve_decision. Defined.

Record Config : Type := MkConfig {
  write_window_size : nat;
  max_cached_chunks_all : nat;
  max_writings : nat;
  expiration_time_secs : Z;
}.

(** ** [chunk_write_control.rs] *)

Inductive SlotStatus : Type := Writing | Finished.

#[export] Instance SlotStatus_eq_dec : EqDecision SlotStatus.
Proof. solve_decision. Defined.

Record CtrlWindow : Type := MkWindow {
  w_size : nat;
  left_boundary : nat;
  slots : gmap nat SlotStatus;
}.

Definition CtrlWindow_new (size : nat) : CtrlWindow := MkWindow size 0 ∅.

Definition check_duplicate (w : CtrlWindow) (index : nat) : bool :=
  (index <? left_boundary w) || bool_decide (is_Some (slots w !! index)).

Definition start_writing (index : nat) : st CtrlWindow unit :=
  let! w := st_get in
  let! _ := st_lift (assert (left_boundary w <=? index) "assertion failed: index >= self.left_boundary") in
  let! limit := st_lift (checked_add (left_boundary w) (w_size w)) in
  if limit <=? index then st_lift (Err "index exceeds window limit")
  else
    let! _ := st_lift (assert (bool_decide (slots w !! index = None))
                         "assertion failed: !self.slots.contains_key(&index)") in
    st_put (MkWindow (w_size w) (left_boundary w) (<[index := Writing]> (slots w))).

Definition rollback_writing (index : nat) : st CtrlWindow unit :=
  let! w := st_get in
  st_put (MkWindow (w_size w) (left_boundary w) (delete index (slots w)));;
  st_lift (assert (bool_decide (slots w !! index = Some Writing))
    "assertion failed: slot_status == Some(SlotStatus::Writing)").

(** The [while] loop: every iteration removes a slot. *)
Fixpoint move_boundary (fuel : nat) (lb : nat) (sl : gmap nat SlotStatus)
    : nat * gmap nat SlotStatus :=
  match fuel with
  | O => (lb, sl)
  | S fuel =>
      match sl !! lb with
      | Some Finished => move_boundary fuel (S lb) (delete lb sl)
      | _ => (lb, sl)
      end
  end.

Definition finish_writing (index : nat) : st CtrlWindow unit :=
  let! w := st_get in
  let sl := <[index := Finished]> (slots w) in
  st_put (MkWindow (w_size w) (left_boundary w) sl);;
  let! _ := st_lift (assert (bool_decide (slots w !! index = Some Writing))
                       "assertion failed: old_status == Some(SlotStatus::Writing)") in
  let '(left', sl) := move_boundary (size sl) (left_boundary w) sl in
  st_put (MkWindow (w_size w) left' sl).

Record FileWriteCtrl : Type := MkFileCtrl {
  fc_id : FileID;
  total_segments : nat;
  window : CtrlWindow;
}.

Definition FileWriteCtrl_new (id : FileID) (total window_size : nat) : FileWriteCtrl :=
  MkFileCtrl id total (CtrlWindow_new window_size).

Definition uploaded_seg_num (f : FileWriteCtrl) : nat := left_boundary (window f).

Record ChunkPoolWriteCtrl : Type := MkWriteCtrl {
  wc_config : Config;
  wc_files : N FileWriteCtrl;
  total_writings : nat;
}.

Definition WriteCtrl_new (config : Config) : ChunkPoolWriteCtrl := MkWriteCtrl config ∅ 0.

Definition wc_get_file (c : ChunkPoolWriteCtrl) (root : E) : option FileWriteCtrl := wc_files c !! root.

Definition set_files (f : N FileWriteCtrl) : st ChunkPoolWriteCtrl unit :=
  st_modify (λ c, MkWriteCtrl (wc_config c) f (total_writings c)).
Definition set_writings (n : nat) : st ChunkPoolWriteCtrl unit :=
  st_modify (λ c, MkWriteCtrl (wc_config c) (wc_files c) n).

Definition wc_remove_file (root : E) : st ChunkPoolWriteCtrl (option FileWriteCtrl) :=
  let! c := st_get in
  set_files (delete root (wc_files c));;
  st_ret (wc_files c !! root).

(** A method of the window of the file [root]. *)
Definition on_window (root : E) (f : FileWriteCtrl) (op : st CtrlWindow unit)
    : st ChunkPoolWriteCtrl unit := λ c,
  let '(r, w) := op (window f) in
  (r, MkWriteCtrl (wc_config c) (<[root := MkFileCtrl (fc_id f) (total_segments f) w]> (wc_files c))
        (total_writings c)).

Definition write_segment (id : FileID) (seg_index total : nat) : st ChunkPoolWriteCtrl unit :=
  let root := file_root id in
  let! c := st_get in
  let file_ctrl := default (FileWriteCtrl_new id total (write_window_size (wc_config c))) (wc_files c !! root) in
  set_files (<[root := file_ctrl]> (wc_files c));;
  if negb (bool_decide (fc_id file_ctrl = id)) then
    let! _ := wc_remove_file root in
    st_lift (Err "Transaction reverted when uploading segments, please try again")
  else if negb (total_segments file_ctrl =? total) then
    st_lift (Err "file size in segment doesn't match with file size declared in previous segment")
  else if check_duplicate (window file_ctrl) seg_index then st_ret tt
  else if max_writings (wc_config c) <=? total_writings c then st_lift (Err "too many data writing")
  else
    on_window root file_ctrl (start_writing seg_index);;
    set_writings (total_writings c + 1).

(** [assert!(self.total_writings > 0); self.total_writings -= 1;] *)
Definition end_writing : st ChunkPoolWriteCtrl unit :=
  let! c := st_get in
  let! _ := st_lift (assert (0 <? total_writings c) "assertion failed: self.total_writings > 0") in
  set_writings (total_writings c - 1).

Definition on_write_succeeded (root : E) (seg_index : nat) : st ChunkPoolWriteCtrl bool :=
  let! c := st_get in
  match wc_files c !! root with
  | None => st_ret false
  | Some file_ctrl =>
      on_window root file_ctrl (finish_writing seg_index);;
      end_writing;;
      let! c := st_get in
      st_ret (match wc_files c !! root with
              | Some f => total_segments f <=? left_boundary (window f)
              | None => false
              end)
  end.

Definition on_write_failed (root : E) (seg_index : nat) : st ChunkPoolWriteCtrl unit :=
  let! c := st_get in
  match wc_files c !! root with
  | None => st_ret tt
  | Some file_ctrl =>
      on_window root file_ctrl (rollback_writing seg_index);;
      end_writing
  end.

(** ** [chunk_cache.rs] *)

Record MemoryCachedFile : Type := MkCachedFile {
  cf_id : FileID;
  segments : gmap nat ChunkArray;
  cf_total_chunks : nat;
  expired_at : Z;
  cached_chunk_num : nat;
}.

Definition MemoryCachedFile_new (root : E) (now timeout : Z) : MemoryCachedFile :=
  MkCachedFile (MkFileID root (MkTxID 0 zero)) ∅ 0 (now + timeout) 0.

Definition update_with_tx (tx_hash : Transaction E → E) (tx : Transaction E) (f : MemoryCachedFile)
    : MemoryCachedFile :=
  MkCachedFile (MkFileID (file_root (cf_id f)) (MkTxID (tx_seq tx) (tx_hash tx))) (segments f)
    (Z.to_nat (bytes_to_chunks (tx_size tx))) (expired_at f) (cached_chunk_num f).

Definition is_completed (f : MemoryCachedFile) : bool :=
  (0 <? cf_total_chunks f) && (cf_total_chunks f <=? cached_chunk_num f).

Record ChunkPoolCache : Type := MkCache {
  cc_config : Config;
  cc_files : L MemoryCachedFile;
  cc_total_chunks : nat;
}.

Definition Cache_new (config : Config) : ChunkPoolCache := MkCache config lh_empty 0.

Definition cc_get_file (c : ChunkPoolCache) (root : E) : option MemoryCachedFile :=
  lh_get root (cc_files c).

Definition set_cached (f : L MemoryCachedFile) (n : nat) : st ChunkPoolCache unit :=
  st_modify (λ c, MkCache (cc_config c) f n).

Definition update_total_chunks_when_remove_file (file : MemoryCachedFile) : st ChunkPoolCache unit :=
  let! c := st_get in
  let! _ := st_lift (assert (cached_chunk_num file <=? cc_total_chunks c)
                       "assertion failed: self.total_chunks >= file.cached_chunk_num") in
  set_cached (cc_files c) (cc_total_chunks c - cached_chunk_num file).

Definition cc_remove_file (root : E) : st ChunkPoolCache (option MemoryCachedFile) :=
  let! c := st_get in
  match lh_get root (cc_files c) with
  | None => st_ret None
  | Some file =>
      set_cached (lh_remove root (cc_files c)) (cc_total_chunks c);;
      update_total_chunks_when_remove_file file;;
      st_ret (Some file)
  end.

(** The [while] loop: every iteration removes the front file. *)
Fixpoint garbage_collect_loop (fuel : nat) (now : Z) : st ChunkPoolCache unit :=
  match fuel with
  | O => st_ret tt
  | S fuel =>
      let! c := st_get in
      match head (lh_list (cc_files c)) with
      | None => st_ret tt
      | Some (_, file) =>
          if now <? expired_at file then st_ret tt
          else
            set_cached (lh_pop_front (cc_files c)) (cc_total_chunks c);;
            update_total_chunks_when_remove_file file;;
            garbage_collect_loop fuel now
      end
  end%Z.

Definition garbage_collect (now : Z) : st ChunkPoolCache unit :=
  let! c := st_get in
  garbage_collect_loop (length (lh_list (cc_files c))) now.

Record SegmentInfo : Type := MkSegmentInfo {
  si_root : E;
  seg_data : list Z;
  seg_index : nat;
  chunks_per_segment : nat;
}.

(** [impl From<SegmentInfo> for ChunkArray] *)
Definition segment_chunks (s : SegmentInfo) : res ChunkArray :=
  let? start := umul 64 (Z.of_nat (seg_index s)) (Z.of_nat (chunks_per_segment s)) in
  Ok (MkChunkArray (seg_data s) start).

(** [seg_info.seg_data.len() / CHUNK_SIZE] *)
Definition num_chunks (data : list Z) : nat := Z.to_nat (zlen data / CHUNK_SIZE).

(** [now] is the time of the call; the calls of [Instant::now] in one call of
    the method are not told apart. *)
Definition cache_segment (now : Z) (s : SegmentInfo) : st ChunkPoolCache bool :=
  garbage_collect now;;
  let! c := st_get in
  let timeout := expiration_time_secs (cc_config c) in
  let fresh := MemoryCachedFile_new (si_root s) now timeout in
  let file := default fresh (lh_get (si_root s) (cc_files c)) in
  set_cached (lh_or_insert (si_root s) fresh (cc_files c)) (cc_total_chunks c);;
  if bool_decide (is_Some (segments file !! seg_index s)) then st_ret (is_completed file)
  else
    let n := num_chunks (seg_data s) in
    let! total := st_lift (checked_add (cc_total_chunks c) n) in
    if max_cached_chunks_all (cc_config c) <? total
    then st_lift (Err "exceeds the maximum cached chunks of whole pool")
    else
      let! chunks := st_lift (segment_chunks s) in
      let! cached := st_lift (checked_add (cached_chunk_num file) n) in
      let file := MkCachedFile (cf_id file) (<[seg_index s := chunks]> (segments file))
                    (cf_total_chunks file) (now + timeout) cached in
      let! c := st_get in
      set_cached (lh_set (si_root s) file (cc_files c)) total;;
      st_ret (is_completed file).

(** ** [chunk_pool_inner.rs]: the locked sections *)

Record Inner : Type := MkInner {
  in_config : Config;
  segment_cache : ChunkPoolCache;
  write_control : ChunkPoolWriteCtrl;
}.

Definition Inner_new (config : Config) : Inner := MkInner config (Cache_new config) (WriteCtrl_new config).

Definition on_cache {A} (op : st ChunkPoolCache A) : st Inner A :=
  st_zoom segment_cache (λ c i, MkInner (in_config i) c (write_control i)) op.
Definition on_ctrl {A} (op : st ChunkPoolWriteCtrl A) : st Inner A :=
  st_zoom write_control (λ c i, MkInner (in_config i) (segment_cache i) c) op.

(** [on_write_cache_succeeded] and [on_write_cache_failed] have the same body. *)
Definition on_write_cache_done (root : E) (cached_segs_chunks : nat) : st Inner unit :=
  on_ctrl end_writing;;
  let! i := st_get in
  let c := segment_cache i in
  let! _ := st_lift (assert (cached_segs_chunks <=? cc_total_chunks c)
                       "assertion failed: self.segment_cache.total_chunks >= cached_segs_chunks") in
  on_cache (set_cached (cc_files c) (cc_total_chunks c - cached_segs_chunks));;
  let! file := st_lift (expect (lh_get root (cc_files c)) "called `Option::unwrap()` on a `None` value") in
  let! n := st_lift (checked_sub (cached_chunk_num file) cached_segs_chunks) in
  on_cache (set_cached
    (lh_set root (MkCachedFile (cf_id file) (segments file) (cf_total_chunks file) (expired_at file) n)
       (cc_files c)) (cc_total_chunks c - cached_segs_chunks)).

(** The segments of a [HashMap] come in no particular order; here by index. *)
Definition segment_list (f : MemoryCachedFile) : list ChunkArray := (map_to_list (segments f)).*2.

Definition get_all_cached_segments_to_write (root : E) : st Inner (FileID * nat * list ChunkArray) :=
  let! i := st_get in
  if max_writings (in_config i) <=? total_writings (write_control i) then
    st_lift (Err "too many data writing")
  else
    let! f := on_cache (cc_remove_file root) in
    match f with
    | None => st_lift (Err "file not found to write into store")
    | Some file =>
        on_ctrl (set_writings (total_writings (write_control i) + 1));;
        st_ret (cf_id file, cached_chunk_num file, segment_list file)
    end.

(** ** [chunk_pool_inner.rs] and [handler.rs]: the methods *)

Section Methods.
Context {S : Type} `{LogStoreWrite E S}.

(** The pool with the store, the channel to the handler and the announcements
    sent to the network. *)
Record Pool : Type := MkPool {
  inner : Inner;
  log_store : S;
  queue : list FileID;
  announced : list TxID;
}.

Definition locked {A} (op : st Inner A) : st Pool A :=
  st_zoom inner (λ i p, MkPool i (log_store p) (queue p) (announced p)) op.
Definition stored {A} (op : st S A) : st Pool (res A) :=
  st_zoom log_store (λ s p, MkPool (inner p) s (queue p) (announced p)) (spawned op).

(** The receiver lives as long as the program, [send] does not fail. *)
Definition send (id : FileID) : st Pool unit :=
  st_modify (λ p, MkPool (inner p) (log_store p) (queue p ++ [id]) (announced p)).

Definition validate_segment_size (segment : list Z) : res unit :=
  (if zlen segment =? 0 then Err "data is empty"
   else if negb (zlen segment mod CHUNK_SIZE =? 0) then Err "invalid data length"
   else Ok tt)%Z.

(** The loop over the segments, from the last. *)
Fixpoint write_cached (id : FileID) (root : E) (num : nat) (segs : list ChunkArray) : st Pool unit :=
  match segs with
  | [] => st_ret tt
  | seg :: segs =>
      let! r := stored (store_put_chunks (id_seq (file_tx id)) (id_hash (file_tx id)) seg) in
      match r with
      | Ok true => write_cached id root num segs
      | Ok false =>
          locked (on_write_cache_done root num);;
          st_lift (Err "Transaction reverted, please upload again")
      | Err e | Panic e => locked (on_write_cache_done root num);; st_lift (Err e)
      end
  end.

Definition write_all_cached_chunks_and_finalize (root : E) : st Pool unit :=
  let! '(id, num, segs) := locked (get_all_cached_segments_to_write root) in
  write_cached id root num (rev segs);;
  locked (on_write_cache_done root num);;
  send id.

Definition cache_chunks (now : Z) (s : SegmentInfo) : st Pool unit :=
  let! file_completed := locked (on_cache (cache_segment now s)) in
  if file_completed : bool then write_all_cached_chunks_and_finalize (si_root s) else st_ret tt.

Definition write_chunks (s : SegmentInfo) (id : FileID) (file_size : Z) : st Pool unit :=
  let total_chunks := bytes_to_chunks file_size in
  let '(total, _) := compute_segment_size total_chunks (Z.of_nat (chunks_per_segment s)) in
  locked (on_ctrl (write_segment id (seg_index s) (Z.to_nat total)));;
  let! seg := st_lift (segment_chunks s) in
  let! r := stored (store_put_chunks (id_seq (file_tx id)) (id_hash (file_tx id)) seg) in
  match r with
  | Ok true =>
      let! all_uploaded := locked (on_ctrl (on_write_succeeded (si_root s) (seg_index s))) in
      if all_uploaded : bool then send id else st_ret tt
  | Ok false =>
      locked (on_ctrl (on_write_failed (si_root s) (seg_index s)));;
      let! _ := locked (on_ctrl (wc_remove_file (si_root s))) in
      st_lift (Err "Transaction reverted, please upload again")
  | Err e | Panic e =>
      locked (on_ctrl (on_write_failed (si_root s) (seg_index s)));;
      st_lift (Err e)
  end.

Definition update_file_info (tx_hash : Transaction E → E) (tx : Transaction E) : st Pool bool :=
  let root := data_merkle_root tx in
  let! p := st_get in
  let c := segment_cache (inner p) in
  match lh_get root (cc_files c) with
  | None => st_ret false
  | Some file =>
      let file := update_with_tx tx_hash tx file in
      locked (on_cache (set_cached (lh_set root file (cc_files c)) (cc_total_chunks c)));;
      (if cached_chunk_num file <? cf_total_chunks file then st_ret true
       else send (MkFileID root (MkTxID (tx_seq tx) (tx_hash tx)));; st_ret true)%nat
  end.

Definition remove_cached_file (root : E) : st Pool (option MemoryCachedFile) :=
  locked (on_cache (cc_remove_file root)).

(** [a.is_some() || b.is_some()]: the second call is made when the first finds
    nothing. *)
Definition remove_file (root : E) : st Pool bool :=
  let! f := locked (on_cache (cc_remove_file root)) in
  match f with
  | Some _ => st_ret true
  | None =>
      let! f := locked (on_ctrl (wc_remove_file root)) in
      st_ret (bool_decide (is_Some f))
  end.

Definition check_already_has_cache (p : Pool) (root : E) : bool :=
  bool_decide (is_Some (cc_get_file (segment_cache (inner p)) root)).

Definition get_uploaded_seg_num (p : Pool) (root : E) : nat * bool :=
  match cc_get_file (segment_cache (inner p)) root with
  | Some file => (cached_chunk_num file, true)
  | None =>
      match wc_get_file (write_control (inner p)) root with
      | Some file => (uploaded_seg_num file, false)
      | None => (0%nat, false)
      end
  end.

(** The loop of [handle]: [Err] is returned by [?]. *)
Fixpoint handle_segments (id : FileID) (segs : list ChunkArray) : st Pool bool :=
  match segs with
  | [] => st_ret true
  | seg :: segs =>
      let! r := stored (store_put_chunks (id_seq (file_tx id)) (id_hash (file_tx id)) seg) in
      let! ok := st_lift r in
      if ok : bool then handle_segments id segs else st_ret false
  end.

(** [ChunkPoolHandler::handle] after the reception of [id]. *)
Definition handle_file (id : FileID) : st Pool bool :=
  let! file := remove_cached_file (file_root id) in
  let! ok := (match file with
              | Some file => handle_segments id (rev (segment_list file))
              | None => st_ret true
              end) in
  if negb ok then st_ret false
  else
    let! r := stored (store_finalize (id_seq (file_tx id)) (id_hash (file_tx id))) in
    let! ok := st_lift r in
    if negb ok then st_ret false
    else
      let! _ := remove_file (file_root id) in
      st_modify (λ p, MkPool (inner p) (log_store p) (queue p) (announced p ++ [file_tx id]));;
      st_ret true.

(** [None]: the channel is empty and the handler waits. *)
Definition handle : st Pool (option bool) :=
  let! p := st_get in
  match queue p with
  | [] => st_ret None
  | id :: rest =>
      st_modify (λ p, MkPool (inner p) (log_store p) rest (announced p));;
      let! ok := handle_file id in
      st_ret (Some ok)
  end.

Definition MemoryChunkPool_new (config : Config) (s : S) : Pool := MkPool (Inner_new config) s [] [].
End Methods.
End ChunkPool.

Arguments TxID E : clear implicits.
Arguments FileID E : clear implicits.
Arguments FileWriteCtrl E : clear implicits.
Arguments ChunkPoolWriteCtrl E N : clear implicits.
Arguments MemoryCachedFile E : clear implicits.
Arguments ChunkPoolCache E L : clear implicits.
Arguments SegmentInfo E : clear implicits.
Arguments Inner E N L : clear implicits.
Arguments Pool E N L S : clear implicits.
