(* ===== verification/ChunkPoolProofs.v ===== *)
(** * The chunk pool: windows, counters and interleavings *)

From stdpp Require Import gmap fin_maps.
From S2P Require Import Prelude Bytes IonianSpec SharedTypes ChunkPool.

(** ** The sliding window *)

(** The slots are inside the window, and the boundary has moved as far as it
    can. *)
Record window_wf (w : CtrlWindow) : Prop := {
  ww_range i s : slots w !! i = Some s → left_boundary w ≤ i < left_boundary w + w_size w;
  ww_left : slots w !! left_boundary w ≠ Some Finished;
}.

(** Segment [i] has been written to the store. *)
Definition uploaded (w : CtrlWindow) (i : nat) : Prop :=
  i < left_boundary w ∨ slots w !! i = Some Finished.

Lemma move_boundary_spec fuel lb sl lb' sl' :
  move_boundary fuel lb sl = (lb', sl') → size sl ≤ fuel →
  lb ≤ lb' ∧ (∀ i, lb ≤ i < lb' → sl !! i = Some Finished) ∧
  (∀ i, sl' !! i = if decide (lb ≤ i < lb') then None else sl !! i) ∧
  sl' !! lb' ≠ Some Finished.
Proof.
  revert lb sl. induction fuel as [|fuel IH]; intros lb sl Hm Hs; simpl in Hm.
  - injection Hm as <- <-. assert (sl = ∅) as -> by (apply map_size_empty_inv; lia).
    split_and!; [lia|intros; lia| |by rewrite lookup_empty]. intros i. by case_decide.
  - destruct (sl !! lb) as [[]|] eqn:Hl.
    2: { apply IH in Hm as (H1 & H2 & H3 & H4).
         2: { pose proof (map_size_delete_Some lb sl) as Hd. rewrite Hd by eauto. lia. }
         split_and!; [lia| | |done].
         - intros i Hi. destruct (decide (i = lb)) as [->|]; [done|].
           rewrite <- (H2 i) by lia. by rewrite lookup_delete_ne by done.
         - intros i. rewrite H3. destruct (decide (i = lb)) as [->|].
           + rewrite lookup_delete_eq. by repeat case_decide; try lia.
           + rewrite lookup_delete_ne by done. repeat case_decide; try done; lia. }
    all: injection Hm as <- <-; split_and!; [lia|intros; lia| |congruence];
      intros i; case_decide; [lia|done].
Qed.

Lemma start_writing_run i w :
  window_wf w → check_duplicate w i = false → i < left_boundary w + w_size w →
  (Z.of_nat (left_boundary w + w_size w) < 2 ^ 64)%Z →
  let w' := MkWindow (w_size w) (left_boundary w) (<[i := Writing]> (slots w)) in
  start_writing i w = (Ok tt, w') ∧ window_wf w' ∧ (∀ j, uploaded w' j ↔ uploaded w j).
Proof.
  intros [Hr Hl] [Hi Hs]%orb_false_iff Hlim H64 w'. apply Nat.ltb_ge in Hi. apply bool_decide_eq_false in Hs.
  assert (slots w !! i = None) as Hn by (by apply eq_None_not_Some).
  split_and!.
  - unfold start_writing, st_bind, st_get, st_lift, checked_add, assert.
    rewrite (proj2 (Nat.leb_le _ _)) by done. rewrite (proj2 (Z.ltb_lt _ _)) by lia.
    rewrite (proj2 (Nat.leb_gt _ _)) by lia. by rewrite bool_decide_true by done.
  - split; simpl.
    + intros j s Hj. destruct (decide (j = i)) as [->|]; [lia|].
      rewrite lookup_insert_ne in Hj by done. by apply (Hr j s).
    + destruct (decide (left_boundary w = i)) as [->|]; [by rewrite lookup_insert_eq|].
      by rewrite lookup_insert_ne by done.
  - intros j. unfold uploaded; simpl. destruct (decide (j = i)) as [->|].
    + rewrite lookup_insert_eq, Hn. naive_solver.
    + by rewrite lookup_insert_ne by done.
Qed.

Lemma start_writing_inv i w w' :
  window_wf w → start_writing i w = (Ok tt, w') →
  check_duplicate w i = false ∧ i < left_boundary w + w_size w ∧
  (Z.of_nat (left_boundary w + w_size w) < 2 ^ 64)%Z.
Proof.
  intros Hwf. unfold start_writing, st_bind, st_get, st_lift, checked_add, assert.
  destruct (Nat.leb_spec (left_boundary w) i); [|done].
  destruct (Z.ltb_spec (Z.of_nat (left_boundary w) + Z.of_nat (w_size w)) (2 ^ 64)%Z); [|done].
  destruct (Nat.leb_spec (left_boundary w + w_size w) i); [done|].
  destruct (bool_decide_reflect (slots w !! i = None)) as [Hn|]; [|done]. intros _.
  split; [|lia]. unfold check_duplicate. rewrite Hn. apply orb_false_iff.
  split; [by apply Nat.ltb_ge|]. apply bool_decide_eq_false. by intros [? ?].
Qed.

Lemma finish_writing_run i w :
  window_wf w → slots w !! i = Some Writing →
  ∃ w', finish_writing i w = (Ok tt, w') ∧ window_wf w' ∧ w_size w' = w_size w ∧
    left_boundary w ≤ left_boundary w' ∧
    (∀ j, uploaded w' j ↔ uploaded w j ∨ j = i) ∧
    (∀ j, slots w' !! j = Some Writing ↔ slots w !! j = Some Writing ∧ j ≠ i).
Proof.
  intros [Hr Hl] Hi. unfold finish_writing, st_bind, st_get, st_lift, st_put, assert.
  rewrite bool_decide_true by done. set (sl := <[i := Finished]> (slots w)).
  destruct (move_boundary (size sl) (left_boundary w) sl) as [lb' sl'] eqn:Hm.
  apply move_boundary_spec in Hm as (Hle & Hfin & Hlook & Hend); [|done].
  assert (∀ j, sl !! j = if decide (j = i) then Some Finished else slots w !! j) as Hsl.
  { intros j. unfold sl. case_decide; [subst; by rewrite lookup_insert_eq|by rewrite lookup_insert_ne by done]. }
  eexists. split; [done|]. split_and!; [split|..]; simpl.
  - intros j s. rewrite Hlook, Hsl. intros Hj. pose proof (Hr i _ Hi).
    case_decide; [done|]. case_decide; [subst; lia|]. pose proof (Hr j _ Hj). lia.
  - done.
  - done.
  - done.
  - intros j. unfold uploaded. simpl. rewrite Hlook. specialize (Hfin j). rewrite Hsl in Hfin |- *.
    pose proof (Hr i _ Hi). repeat case_decide; split; intros Hj; naive_solver lia.
  - intros j. rewrite Hlook, Hsl. specialize (Hfin j). rewrite Hsl in Hfin.
    repeat case_decide; naive_solver.
Qed.

Lemma rollback_writing_run i w :
  window_wf w → slots w !! i = Some Writing →
  let w' := MkWindow (w_size w) (left_boundary w) (delete i (slots w)) in
  rollback_writing i w = (Ok tt, w') ∧ window_wf w' ∧ (∀ j, uploaded w' j ↔ uploaded w j) ∧
    (∀ j, slots w' !! j = Some Writing ↔ slots w !! j = Some Writing ∧ j ≠ i).
Proof.
  intros [Hr Hl] Hi w'.
  assert (∀ j, delete i (slots w) !! j = if decide (j = i) then None else slots w !! j) as Hd.
  { intros j. case_decide; [subst; by rewrite lookup_delete_eq|by rewrite lookup_delete_ne by done]. }
  split_and!; [|split|..]; simpl.
  - unfold rollback_writing, st_bind, st_get, st_put, st_lift, assert. by rewrite bool_decide_true by done.
  - intros j s. rewrite Hd. case_decide; [done|apply Hr].
  - rewrite Hd. by case_decide.
  - intros j. unfold uploaded. simpl. rewrite Hd. case_decide; naive_solver.
  - intros j. rewrite Hd. case_decide; naive_solver.
Qed.

(** A finished or unknown segment cannot be finished or rolled back: both calls
    assert that the segment is being written. *)
Lemma window_not_writing i w :
  slots w !! i ≠ Some Writing →
  (∃ msg, (finish_writing i w).1 = Panic msg) ∧ (∃ msg, (rollback_writing i w).1 = Panic msg).
Proof.
  intros Hi. unfold finish_writing, rollback_writing, st_bind, st_get, st_put, st_lift, assert.
  rewrite bool_decide_false by done. split; by eexists.
Qed.

(** ** Runs of one window *)

Inductive window_op : Type := WStart (i : nat) | WFinish (i : nat) | WRollback (i : nat).

Definition exec_window (o : window_op) : st CtrlWindow unit :=
  match o with
  | WStart i => start_writing i
  | WFinish i => finish_writing i
  | WRollback i => rollback_writing i
  end.

Lemma exec_window_ok o w w' :
  window_wf w → exec_window o w = (Ok tt, w') →
  window_wf w' ∧ w_size w' = w_size w ∧ ∀ j, uploaded w' j ↔ uploaded w j ∨ o = WFinish j.
Proof.
  intros Hwf. destruct o as [i|i|i]; simpl; intros Hrun.
  - destruct (start_writing_inv i w w' Hwf Hrun) as (Hd & Hl & H64).
    destruct (start_writing_run i w Hwf Hd Hl H64) as (Hrun' & Hwf' & Hup).
    rewrite Hrun in Hrun'. injection Hrun' as ->. split_and!; [done..|]. intros j. rewrite Hup. naive_solver.
  - destruct (decide (slots w !! i = Some Writing)) as [Hi|Hi].
    + destruct (finish_writing_run i w Hwf Hi) as (w2 & Hrun' & Hwf' & Hs & _ & Hup & _).
      rewrite Hrun in Hrun'. injection Hrun' as ->. split_and!; [done..|]. intros j. rewrite Hup. naive_solver.
    + destruct (window_not_writing i w Hi) as [(msg & Hp) _]. by rewrite Hrun in Hp.
  - destruct (decide (slots w !! i = Some Writing)) as [Hi|Hi].
    + destruct (rollback_writing_run i w Hwf Hi) as (Hrun' & Hwf' & Hup & _).
      rewrite Hrun in Hrun'. injection Hrun' as ->. split_and!; [done..|]. intros j. rewrite Hup. naive_solver.
    + destruct (window_not_writing i w Hi) as [_ (msg & Hp)]. by rewrite Hrun in Hp.
Qed.

Lemma window_new_wf size : window_wf (CtrlWindow_new size).
Proof. split; simpl; [intros i s|]; by rewrite lookup_empty. Qed.

Lemma exec_windows_ok os w w' :
  window_wf w → st_for os exec_window w = (Ok tt, w') →
  window_wf w' ∧ w_size w' = w_size w ∧ ∀ j, uploaded w' j ↔ uploaded w j ∨ WFinish j ∈ os.
Proof.
  revert w. induction os as [|o os IH]; intros w Hwf Hrun; simpl in Hrun.
  - injection Hrun as <-. split_and!; [done..|]. intros j. set_solver.
  - unfold st_bind in Hrun. destruct (exec_window o w) as [[[]| |] w1] eqn:Ho; [|done..].
    destruct (exec_window_ok o w w1 Hwf Ho) as (Hwf1 & Hs1 & Hup1).
    destruct (IH w1 Hwf1 Hrun) as (Hwf' & Hs' & Hup').
    split_and!; [done|congruence|]. intros j. rewrite Hup', Hup1. set_solver.
Qed.

(** The boundary is the length of the longest prefix of written segments. *)
Lemma boundary_prefix w k :
  window_wf w → k ≤ left_boundary w ↔ ∀ i, i < k → uploaded w i.
Proof.
  intros [Hr Hl]. split.
  - intros Hk i Hi. left. lia.
  - intros Hall. destruct (decide (k ≤ left_boundary w)) as [|Hk]; [done|].
    destruct (Hall (left_boundary w)) as [|]; [lia|lia|done].
Qed.

(** ** The write control under interleaved uploads *)

(** The segments of a window that are marked as being written. *)
Definition writing_slots (w : CtrlWindow) : nat :=
  size (filter (λ x : nat * SlotStatus, x.2 = Writing) (slots w)).

Lemma writing_filter (w : CtrlWindow) i :
  filter (λ x : nat * SlotStatus, x.2 = Writing) (slots w) !! i =
  if decide (slots w !! i = Some Writing) then Some Writing else None.
Proof.
  rewrite map_lookup_filter. destruct (slots w !! i) as [[]|]; simpl; repeat case_decide; simplify_eq/=; try done;
    by rewrite option_guard_True.
Qed.

Lemma writing_slots_ext w w' :
  (∀ j, slots w' !! j = Some Writing ↔ slots w !! j = Some Writing) → writing_slots w' = writing_slots w.
Proof.
  intros Hw. unfold writing_slots. f_equal. apply map_eq. intros j. rewrite !writing_filter.
  repeat case_decide; naive_solver.
Qed.

Lemma writing_slots_remove i w w' :
  slots w !! i = Some Writing → (∀ j, slots w' !! j = Some Writing ↔ slots w !! j = Some Writing ∧ j ≠ i) →
  writing_slots w = S (writing_slots w').
Proof.
  intros Hi Hw. unfold writing_slots.
  assert (filter (λ x : nat * SlotStatus, x.2 = Writing) (slots w') =
    delete i (filter (λ x : nat * SlotStatus, x.2 = Writing) (slots w))) as ->.
  { apply map_eq. intros j. destruct (decide (j = i)) as [->|]; [rewrite lookup_delete_eq|rewrite lookup_delete_ne by done];
      rewrite !writing_filter; repeat case_decide; naive_solver. }
  assert (is_Some (filter (λ x : nat * SlotStatus, x.2 = Writing) (slots w) !! i)) as Hs.
  { rewrite writing_filter, decide_True by done. by eexists. }
  rewrite map_size_delete_Some by done. pose proof (map_size_non_empty_iff (filter (λ x : nat * SlotStatus, x.2 = Writing) (slots w))) as [_ Hne].
  assert (filter (λ x : nat * SlotStatus, x.2 = Writing) (slots w) ≠ ∅) as He.
  { intros He. rewrite He, lookup_empty in Hs. by destruct Hs. }
  specialize (Hne He). lia.
Qed.

(** Returning to a window: the segment is not marked any more; the call breaks
    an assertion exactly when it was not marked before. *)
Lemma finish_writing_marks i w :
  let '(r, w') := finish_writing i w in
  (∀ j, slots w' !! j = Some Writing ↔ slots w !! j = Some Writing ∧ j ≠ i) ∧
  if decide (slots w !! i = Some Writing) then r = Ok tt else ∃ e, r = Panic e.
Proof.
  unfold finish_writing, st_bind, st_get, st_lift, st_put, assert. set (sl := <[i := Finished]> (slots w)).
  assert (∀ j, sl !! j = if decide (j = i) then Some Finished else slots w !! j) as Hsl.
  { intros j. unfold sl. case_decide; [subst; by rewrite lookup_insert_eq|by rewrite lookup_insert_ne by done]. }
  case_decide as Hi.
  - rewrite bool_decide_true by done. destruct (move_boundary (size sl) (left_boundary w) sl) as [lb' sl'] eqn:Hm.
    apply move_boundary_spec in Hm as (_ & Hfin & Hlook & _); [|done]. split; [|done].
    intros j. simpl. rewrite Hlook, Hsl. specialize (Hfin j). rewrite Hsl in Hfin. repeat case_decide; naive_solver.
  - rewrite bool_decide_false by done. split; [|by eexists]. intros j. simpl. rewrite Hsl. case_decide; naive_solver.
Qed.

Lemma rollback_writing_marks i w :
  let '(r, w') := rollback_writing i w in
  (∀ j, slots w' !! j = Some Writing ↔ slots w !! j = Some Writing ∧ j ≠ i) ∧
  if decide (slots w !! i = Some Writing) then r = Ok tt else ∃ e, r = Panic e.
Proof.
  unfold rollback_writing, st_bind, st_get, st_lift, st_put, assert. simpl. split.
  - intros j. destruct (decide (j = i)) as [->|]; [rewrite lookup_delete_eq|rewrite lookup_delete_ne by done]; naive_solver.
  - case_decide; [by rewrite bool_decide_true|rewrite bool_decide_false by done; by eexists].
Qed.

Section Control.
Context {E : Type} {N : Type → Type} `{FinMap E N}.
Implicit Types (c : ChunkPoolWriteCtrl E N) (id : FileID E) (root : E) (m : N (FileWriteCtrl E)).

(** The window of a file, a fresh one for an unknown file. *)
Definition file_ctrl c id (total : nat) : FileWriteCtrl E :=
  default (FileWriteCtrl_new id total (write_window_size (wc_config c))) (wc_files c !! file_root id).

Definition file_writings (f : option (FileWriteCtrl E)) : nat := from_option (λ f, writing_slots (window f)) 0 f.
Definition files_writings m : nat := map_fold (λ _ f n, writing_slots (window f) + n) 0 m.
Definition writings c : nat := files_writings (wc_files c).

Lemma files_writings_delete root m : files_writings (delete root m) + file_writings (m !! root) = files_writings m.
Proof.
  unfold files_writings. destruct (m !! root) as [f|] eqn:Hf; simpl; [|by rewrite delete_id by done].
  rewrite (map_fold_delete_L (λ _ f n, writing_slots (window f) + n) 0 root f m); [simpl; lia|intros; lia|done].
Qed.

Lemma files_writings_insert root f m :
  files_writings (<[root := f]> m) + file_writings (m !! root) = files_writings m + writing_slots (window f).
Proof.
  rewrite <- (files_writings_delete root (<[root := f]> m)), <- (files_writings_delete root m).
  rewrite lookup_insert_eq, delete_insert_eq. simpl. lia.
Qed.

Lemma fresh_writings size : writing_slots (CtrlWindow_new size) = 0.
Proof. by vm_compute. Qed.

(** A rejected or duplicate call leaves a window for the file behind. *)
Lemma writings_touch c id total :
  files_writings (<[file_root id := file_ctrl c id total]> (wc_files c)) = writings c.
Proof.
  unfold file_ctrl, writings. pose proof (files_writings_insert (file_root id) (file_ctrl c id total) (wc_files c)) as Hi.
  unfold file_ctrl in Hi. destruct (wc_files c !! file_root id) as [f|] eqn:Hf; simpl in *; [lia|].
  rewrite fresh_writings in Hi. lia.
Qed.

Lemma writing_file_ctrl c id total i :
  slots (window (file_ctrl c id total)) !! i = Some Writing ↔
  ∃ f, wc_files c !! file_root id = Some f ∧ slots (window f) !! i = Some Writing.
Proof.
  unfold file_ctrl. destruct (wc_files c !! file_root id) as [f|] eqn:Hf; simpl; [naive_solver|].
  rewrite lookup_empty. naive_solver.
Qed.

(** [write_segment] on every branch. *)
Lemma write_segment_cases id i total c r c' :
  write_segment id i total c = (r, c') →
  let f := file_ctrl c id total in
  let c1 := MkWriteCtrl (wc_config c) (<[file_root id := f]> (wc_files c)) (total_writings c) in
  (fc_id f ≠ id ∧ (∃ e, r = Err e) ∧
   c' = MkWriteCtrl (wc_config c) (delete (file_root id) (wc_files c)) (total_writings c)) ∨
  (fc_id f = id ∧ (∃ e, r = Err e) ∧ c' = c1) ∨
  (fc_id f = id ∧ r = Ok tt ∧ c' = c1 ∧ check_duplicate (window f) i = true) ∨
  (fc_id f = id ∧ check_duplicate (window f) i = false ∧ total_writings c < max_writings (wc_config c) ∧
   ∃ w, start_writing i (window f) = (r, w) ∧
     c' = MkWriteCtrl (wc_config c)
            (<[file_root id := MkFileCtrl (fc_id f) (total_segments f) w]> (wc_files c))
            (if r is Ok _ then total_writings c + 1 else total_writings c)).
Proof.
  unfold write_segment, st_bind at 1, st_get at 1. cbv zeta. fold (file_ctrl c id total).
  set (f := file_ctrl c id total). unfold st_bind at 1, set_files at 1, st_modify at 1.
  destruct (bool_decide_reflect (fc_id f = id)) as [Hid|Hid]; simpl.
  2: { intros [= <- <-]. left. split; [done|]. split; [eauto|]. simpl. by rewrite delete_insert_eq. }
  destruct (Nat.eqb_spec (total_segments f) total) as [Ht|Ht]; simpl.
  2: { intros [= <- <-]. right. left. eauto. }
  destruct (check_duplicate (window f) i) eqn:Hd.
  { intros [= <- <-]. by right; right; left. }
  destruct (Nat.leb_spec (max_writings (wc_config c)) (total_writings c)) as [Hm|Hm].
  { intros [= <- <-]. right. left. eauto. }
  unfold st_bind, on_window, set_writings, st_modify. simpl.
  destruct (start_writing i (window f)) as [r0 w] eqn:Hs. intros Hr. right. right. right.
  split_and!; [done..|]. destruct r0 as [[]| |]; injection Hr as <- <-; exists w; (split; [done|]);
    simpl; by rewrite insert_insert_eq.
Qed.

Lemma start_writing_cases i w r w' :
  start_writing i w = (r, w') →
  (r = Ok tt ∧ slots w !! i = None ∧ w' = MkWindow (w_size w) (left_boundary w) (<[i := Writing]> (slots w))) ∨
  (r ≠ Ok tt ∧ w' = w).
Proof.
  unfold start_writing, st_bind, st_get, st_lift, assert, checked_add, st_put.
  destruct (_ <=? _); [|intros [= <- <-]; by right]. destruct (_ <? _)%Z; [|intros [= <- <-]; by right].
  destruct (_ <=? _); [intros [= <- <-]; by right|].
  destruct (bool_decide_reflect (slots w !! i = None)); intros [= <- <-]; [by left|by right].
Qed.

Lemma end_writing_run c : 0 < total_writings c →
  end_writing c = (Ok tt, MkWriteCtrl (wc_config c) (wc_files c) (total_writings c - 1)).
Proof.
  intros Hc. unfold end_writing, st_bind, st_get, st_lift, assert.
  by rewrite (proj2 (Nat.ltb_lt _ _)) by done.
Qed.

(** A call on a new segment, in a window that is in order. *)
Lemma on_write_succeeded_run c root i f :
  wc_files c !! root = Some f → window_wf (window f) → slots (window f) !! i = Some Writing → 0 < total_writings c →
  ∃ b c' f', on_write_succeeded root i c = (Ok b, c') ∧ wc_files c' !! root = Some f' ∧
    total_segments f' = total_segments f ∧ total_writings c' = total_writings c - 1 ∧
    (∀ j, uploaded (window f') j ↔ uploaded (window f) j ∨ j = i) ∧
    (b = true ↔ ∀ j, j < total_segments f → uploaded (window f') j).
Proof.
  intros Hf Hwf Hi Hpos.
  destruct (finish_writing_run i (window f) Hwf Hi) as (w & Hrun & Hwf' & Hs & Hle & Hup & Hwr).
  unfold on_write_succeeded. rewrite (st_bind_ok _ _ c c c) by done. rewrite Hf.
  unfold st_bind at 1, on_window. rewrite Hrun. cbn [fst snd].
  erewrite st_bind_ok by (by apply end_writing_run). cbn [wc_config wc_files total_writings].
  unfold st_bind, st_get, st_ret. cbn [wc_files]. rewrite lookup_insert_eq.
  eexists _, _, (MkFileCtrl (fc_id f) (total_segments f) w).
  split; [done|]. split; [by apply lookup_insert_eq|]. split_and!; [done..|].
  simpl. rewrite Nat.leb_le. by apply boundary_prefix.
Qed.

(** The marks of a file after a call on it has returned, and the writers. *)
Definition returned c root i c' : Prop :=
  wc_config c' = wc_config c ∧
  match wc_files c !! root with
  | None => c' = c
  | Some f =>
      ∃ f', wc_files c' = <[root := f']> (wc_files c) ∧
        (∀ j, slots (window f') !! j = Some Writing ↔ slots (window f) !! j = Some Writing ∧ j ≠ i) ∧
        total_writings c' = if decide (slots (window f) !! i = Some Writing) then total_writings c - 1 else total_writings c
  end.

Lemma on_window_run root f op c r w :
  op (window f) = (r, w) →
  on_window root f op c =
  (r, MkWriteCtrl (wc_config c) (<[root := MkFileCtrl (fc_id f) (total_segments f) w]> (wc_files c)) (total_writings c)).
Proof. intros Hop. unfold on_window. by rewrite Hop. Qed.

Lemma on_write_succeeded_cases root i c r c' :
  on_write_succeeded root i c = (r, c') →
  (∀ f, wc_files c !! root = Some f → slots (window f) !! i = Some Writing → 0 < total_writings c) →
  returned c root i c' ∧
  match wc_files c !! root with
  | None => r = Ok false
  | Some f => if decide (slots (window f) !! i = Some Writing) then ∃ b, r = Ok b else ∃ e, r = Panic e
  end.
Proof.
  unfold on_write_succeeded, returned. rewrite (st_bind_ok _ _ c c c) by done.
  destruct (wc_files c !! root) as [f|] eqn:Hf; [|by intros [= <- <-]]. intros Hrun Hpos.
  pose proof (finish_writing_marks i (window f)) as Hm.
  destruct (finish_writing i (window f)) as [r0 w] eqn:Hw. destruct Hm as [Hmarks Hr].
  unfold st_bind at 1 in Hrun. rewrite (on_window_run _ _ _ _ _ _ Hw) in Hrun.
  case_decide as Hi.
  - subst r0. erewrite st_bind_ok in Hrun by (apply end_writing_run; by apply (Hpos f)).
    unfold st_bind, st_get, st_ret in Hrun. cbn in Hrun. rewrite lookup_insert_eq in Hrun. injection Hrun as <- <-.
    split; [|by eexists]. split; [done|]. by eexists.
  - destruct Hr as [e ->]. injection Hrun as <- <-. split; [|by eexists]. split; [done|]. by eexists.
Qed.

Lemma on_write_failed_cases root i c r c' :
  on_write_failed root i c = (r, c') →
  (∀ f, wc_files c !! root = Some f → slots (window f) !! i = Some Writing → 0 < total_writings c) →
  returned c root i c' ∧
  match wc_files c !! root with
  | None => r = Ok tt
  | Some f => if decide (slots (window f) !! i = Some Writing) then r = Ok tt else ∃ e, r = Panic e
  end.
Proof.
  unfold on_write_failed, returned. rewrite (st_bind_ok _ _ c c c) by done.
  destruct (wc_files c !! root) as [f|] eqn:Hf; [|by intros [= <- <-]]. intros Hrun Hpos.
  pose proof (rollback_writing_marks i (window f)) as Hm.
  destruct (rollback_writing i (window f)) as [r0 w] eqn:Hw. destruct Hm as [Hmarks Hr].
  unfold st_bind at 1 in Hrun. rewrite (on_window_run _ _ _ _ _ _ Hw) in Hrun.
  case_decide as Hi.
  - subst r0. rewrite end_writing_run in Hrun by (by apply (Hpos f)). injection Hrun as <- <-.
    split; [|done]. split; [done|]. by eexists.
  - destruct Hr as [e ->]. injection Hrun as <- <-. split; [|by eexists]. split; [done|]. by eexists.
Qed.

(** ** Every interleaving of the tasks of the pool *)

Context {L : Type → Type} `{LinkedHashMap E L}.
Implicit Types (p : Inner E N L) (uw ab cu : list (E * nat)).

(** The pool between two awaits, with what the tasks are doing: the store calls
    under way for segments and for cached files; those of tasks that ended
    without returning to the pool, as a cancelled request does; and the number
    of writers that the pool has lost track of. *)
Record upload_state : Type := MkUpload {
  up_inner : Inner E N L;
  under_way : list (E * nat);
  cached_under_way : list (E * nat);
  abandoned : list (E * nat);
  lost : nat;
}.

(** The segments marked in a file that a step has removed. *)
Definition removed_writings p p' root : nat :=
  match wc_files (write_control p') !! root with
  | Some _ => 0
  | None => file_writings (wc_files (write_control p) !! root)
  end.

(** The locked sections of the pool, in any order and with any result; a task
    whose section panics ends. *)
Inductive upload_step : upload_state → upload_state → Prop :=
  | us_start id i total p p' uw cu ab n :
      on_ctrl (write_segment id i total) p = (Ok tt, p') →
      upload_step (MkUpload p uw cu ab n) (MkUpload p' ((file_root id, i) :: uw) cu ab n)
  | us_refuse id i total p r p' uw cu ab n :
      on_ctrl (write_segment id i total) p = (r, p') → r ≠ Ok tt →
      upload_step (MkUpload p uw cu ab n) (MkUpload p' uw cu ab (n + removed_writings p p' (file_root id)))
  | us_succeed root i p r p' uw1 uw2 cu ab n :
      on_ctrl (on_write_succeeded root i) p = (r, p') →
      upload_step (MkUpload p (uw1 ++ (root, i) :: uw2) cu ab n) (MkUpload p' (uw1 ++ uw2) cu ab n)
  | us_fail root i p r p' uw1 uw2 cu ab n :
      on_ctrl (on_write_failed root i) p = (r, p') →
      upload_step (MkUpload p (uw1 ++ (root, i) :: uw2) cu ab n) (MkUpload p' (uw1 ++ uw2) cu ab n)
  | us_remove root p r p' uw cu ab n :
      on_ctrl (wc_remove_file root) p = (r, p') →
      upload_step (MkUpload p uw cu ab n) (MkUpload p' uw cu ab (n + removed_writings p p' root))
  | us_take root p id num segs p' uw cu ab n :
      get_all_cached_segments_to_write root p = (Ok (id, num, segs), p') →
      upload_step (MkUpload p uw cu ab n) (MkUpload p' uw ((root, num) :: cu) ab n)
  | us_take_refused root p r p' uw cu ab n :
      get_all_cached_segments_to_write root p = (r, p') → (∀ x, r ≠ Ok x) →
      upload_step (MkUpload p uw cu ab n) (MkUpload p' uw cu ab n)
  | us_cached root num p r p' uw cu1 cu2 ab n :
      on_write_cache_done root num p = (r, p') →
      upload_step (MkUpload p uw (cu1 ++ (root, num) :: cu2) ab n) (MkUpload p' uw (cu1 ++ cu2) ab n)
  | us_cache A (op : st (ChunkPoolCache E L) A) p r p' uw cu ab n :
      on_cache op p = (r, p') → upload_step (MkUpload p uw cu ab n) (MkUpload p' uw cu ab n)
  | us_abandon x p uw1 uw2 cu ab n :
      upload_step (MkUpload p (uw1 ++ x :: uw2) cu ab n) (MkUpload p (uw1 ++ uw2) cu (x :: ab) n)
  | us_abandon_cached x p uw cu1 cu2 ab n :
      upload_step (MkUpload p uw (cu1 ++ x :: cu2) ab n) (MkUpload p uw (cu1 ++ cu2) ab (S n)).

Inductive upload_reaches (config : Config) : upload_state → Prop :=
  | ur_new : upload_reaches config (MkUpload (Inner_new config) [] [] [] 0)
  | ur_step s s' : upload_reaches config s → upload_step s s' → upload_reaches config s'.

(** The writers are the marked segments, the writers of cached files and the
    lost ones; a marked segment belongs to a task. *)
Record upload_inv (config : Config) (s : upload_state) : Prop := {
  ui_config : in_config (up_inner s) = config ∧ wc_config (write_control (up_inner s)) = config;
  ui_count : total_writings (write_control (up_inner s)) =
    writings (write_control (up_inner s)) + length (cached_under_way s) + lost s;
  ui_limit : total_writings (write_control (up_inner s)) ≤ max_writings config;
  ui_marked root f i :
    wc_files (write_control (up_inner s)) !! root = Some f → slots (window f) !! i = Some Writing →
    (root, i) ∈ under_way s ++ abandoned s;
}.

Lemma on_ctrl_run {A} (op : st (ChunkPoolWriteCtrl E N) A) p r p' :
  on_ctrl op p = (r, p') →
  in_config p' = in_config p ∧ segment_cache p' = segment_cache p ∧ op (write_control p) = (r, write_control p').
Proof. unfold on_ctrl, st_zoom. destruct (op (write_control p)) as [r0 c]. by intros [= <- <-]. Qed.

Lemma on_cache_ctrl {A} (op : st (ChunkPoolCache E L) A) p r p' :
  on_cache op p = (r, p') → in_config p' = in_config p ∧ write_control p' = write_control p.
Proof. unfold on_cache, st_zoom. destruct (op (segment_cache p)) as [r0 c]. by intros [= <- <-]. Qed.

Lemma writings_lookup root f c i :
  wc_files c !! root = Some f → slots (window f) !! i = Some Writing → 0 < writings c.
Proof.
  intros Hf Hi. pose proof (files_writings_delete root (wc_files c)) as Hd. rewrite Hf in Hd. simpl in Hd.
  pose proof (rollback_writing_marks i (window f)) as Hm. destruct (rollback_writing i (window f)) as [r w].
  pose proof (writing_slots_remove i _ _ Hi (proj1 Hm)). unfold writings. lia.
Qed.

Lemma marked_pos config s root f i :
  upload_inv config s → wc_files (write_control (up_inner s)) !! root = Some f → slots (window f) !! i = Some Writing →
  0 < total_writings (write_control (up_inner s)).
Proof. intros Hinv Hf Hi. pose proof (writings_lookup _ _ _ _ Hf Hi). rewrite (ui_count _ _ Hinv). lia. Qed.

Lemma upload_start_inv config id i total p p' uw cu ab n :
  upload_inv config (MkUpload p uw cu ab n) → on_ctrl (write_segment id i total) p = (Ok tt, p') →
  upload_inv config (MkUpload p' ((file_root id, i) :: uw) cu ab n).
Proof.
  intros [[Hc1 Hc2] Hn Hl Hm] (Hc & _ & Hw)%on_ctrl_run. simpl in *.
  pose proof (writings_touch (write_control p) id total) as Ht.
  apply write_segment_cases in Hw as [(_ & [? ?] & _)|[(_ & [? ?] & _)|[(_ & _ & Hp & _)|(_ & _ & Hmax & w & Hs & Hp)]]];
    [done|done|..].
  - split; simpl; rewrite ?Hp; simpl; [split; congruence|unfold writings in *; simpl; lia|done|].
    intros root f j. destruct (decide (root = file_root id)) as [->|].
    + rewrite lookup_insert_eq. intros [= <-] (g & Hg & Hj)%writing_file_ctrl. right. by apply (Hm _ g).
    + rewrite lookup_insert_ne by done. intros Hf Hj. right. by apply (Hm _ f).
  - apply start_writing_cases in Hs as [(_ & Hnone & ->)|[? _]]; [|done].
    set (f := file_ctrl (write_control p) id total) in *.
    set (w := MkWindow (w_size (window f)) (left_boundary (window f)) (<[i := Writing]> (slots (window f)))) in *.
    assert (writing_slots w = S (writing_slots (window f))) as Hws.
    { apply (writing_slots_remove i); [apply lookup_insert_eq|]. intros j. simpl.
      destruct (decide (j = i)) as [->|]; [rewrite Hnone|rewrite lookup_insert_ne by done]; naive_solver. }
    pose proof (files_writings_insert (file_root id) f (wc_files (write_control p))) as H1'.
    pose proof (files_writings_insert (file_root id) (MkFileCtrl (fc_id f) (total_segments f) w) (wc_files (write_control p))) as H2'.
    simpl in H2'. split; simpl; rewrite ?Hp; simpl; [split; congruence|unfold writings in *; simpl; lia|rewrite <- Hc2; lia|].
    intros root g j. destruct (decide (root = file_root id)) as [->|].
    + rewrite lookup_insert_eq. intros [= <-]. simpl. destruct (decide (j = i)) as [->|]; [by left|].
      rewrite lookup_insert_ne by done. intros (h & Hh & Hj)%writing_file_ctrl. right. by apply (Hm _ h).
    + rewrite lookup_insert_ne by done. intros Hg Hj. right. by apply (Hm _ g).
Qed.

(** A removed file takes its marks along. *)
Lemma removed_inv config root p p' uw cu ab n :
  upload_inv config (MkUpload p uw cu ab n) → in_config p' = in_config p →
  write_control p' = MkWriteCtrl (wc_config (write_control p)) (delete root (wc_files (write_control p)))
    (total_writings (write_control p)) →
  upload_inv config (MkUpload p' uw cu ab (n + removed_writings p p' root)).
Proof.
  intros [[Hc1 Hc2] Hn Hl Hm] Hc Hp. unfold removed_writings. simpl in *. rewrite Hp. simpl. rewrite lookup_delete_eq.
  pose proof (files_writings_delete root (wc_files (write_control p))) as Hd.
  split; simpl; rewrite ?Hp; simpl; [split; congruence|unfold writings in *; simpl; lia|done|].
  intros root' f j [_ Hf]%lookup_delete_Some. by apply (Hm _ f).
Qed.

Lemma upload_refuse_inv config id i total p r p' uw cu ab n :
  upload_inv config (MkUpload p uw cu ab n) → on_ctrl (write_segment id i total) p = (r, p') → r ≠ Ok tt →
  upload_inv config (MkUpload p' uw cu ab (n + removed_writings p p' (file_root id))).
Proof.
  intros Hinv (Hc & _ & Hw)%on_ctrl_run Hr.
  pose proof (writings_touch (write_control p) id total) as Ht. set (f := file_ctrl (write_control p) id total) in *.
  assert (write_control p' = MkWriteCtrl (wc_config (write_control p)) (delete (file_root id) (wc_files (write_control p)))
    (total_writings (write_control p)) ∨
    write_control p' = MkWriteCtrl (wc_config (write_control p)) (<[file_root id := f]> (wc_files (write_control p)))
    (total_writings (write_control p))) as [Hp|Hp]; [|by apply removed_inv|].
  { apply write_segment_cases in Hw as [(_ & _ & Hp)|[(_ & _ & Hp)|[(_ & ? & _)|(_ & _ & Hmax & w & Hs & Hp)]]];
      [by left|by right|done|]. right. rewrite Hp. apply start_writing_cases in Hs as [[? _]|[_ ->]]; [done|].
    fold f. destruct r as [[]| |]; [done|by destruct f..]. }
  destruct Hinv as [[Hc1 Hc2] Hn Hl Hm]. unfold removed_writings. simpl in *. rewrite Hp. simpl. rewrite lookup_insert_eq, Nat.add_0_r.
  split; simpl; rewrite ?Hp; simpl; [split; congruence|unfold writings in *; simpl; lia|done|].
  intros root g j. destruct (decide (root = file_root id)) as [->|].
  - rewrite lookup_insert_eq. intros [= <-] (h & Hh & Hj)%writing_file_ctrl. by apply (Hm _ h).
  - rewrite lookup_insert_ne by done. apply Hm.
Qed.

Lemma returned_inv config root i p p' uw1 uw2 cu ab n :
  upload_inv config (MkUpload p (uw1 ++ (root, i) :: uw2) cu ab n) → in_config p' = in_config p →
  returned (write_control p) root i (write_control p') →
  upload_inv config (MkUpload p' (uw1 ++ uw2) cu ab n).
Proof.
  intros [[Hc1 Hc2] Hn Hl Hm] Hc [Hcfg Hret]. simpl in *.
  destruct (wc_files (write_control p) !! root) as [f|] eqn:Hf.
  - destruct Hret as (f' & Hfiles & Hmarks & Htot).
    pose proof (files_writings_insert root f' (wc_files (write_control p))) as Hi. rewrite Hf in Hi. simpl in Hi.
    split; simpl; [split; congruence| | |].
    + rewrite Htot. unfold writings in *. rewrite Hfiles. case_decide as Hw.
      * pose proof (writing_slots_remove i _ _ Hw Hmarks). lia.
      * assert (writing_slots (window f') = writing_slots (window f)); [|lia].
        apply writing_slots_ext. intros j. rewrite Hmarks. naive_solver.
    + rewrite Htot. case_decide; lia.
    + intros root' g j. rewrite Hfiles. destruct (decide (root' = root)) as [->|].
      * rewrite lookup_insert_eq. intros [= <-] [Hj Hne]%Hmarks. pose proof (Hm _ _ _ Hf Hj). set_solver.
      * rewrite lookup_insert_ne by done. intros Hg Hj. pose proof (Hm _ _ _ Hg Hj). set_solver.
  - split; simpl; rewrite ?Hret; simpl; [split; congruence|done|done|].
    intros root' g j Hg Hj. pose proof (Hm _ _ _ Hg Hj) as Hin.
    assert ((root', j) ≠ (root, i)) by congruence. set_solver.
Qed.

Lemma take_cached_ctrl root p r p' :
  get_all_cached_segments_to_write root p = (r, p') →
  in_config p' = in_config p ∧
  write_control p' = MkWriteCtrl (wc_config (write_control p)) (wc_files (write_control p))
    (if r is Ok _ then S (total_writings (write_control p)) else total_writings (write_control p)) ∧
  (∀ x, r = Ok x → total_writings (write_control p) < max_writings (in_config p)).
Proof.
  unfold get_all_cached_segments_to_write. rewrite (st_bind_ok _ _ p p p) by done.
  destruct (Nat.leb_spec (max_writings (in_config p)) (total_writings (write_control p))) as [Hle|Hlt].
  { intros [= <- <-]. split_and!; [done|by destruct (write_control p)|done]. }
  unfold st_bind at 1. destruct (on_cache (cc_remove_file root) p) as [r0 p1] eqn:Hcache.
  destruct (on_cache_ctrl _ _ _ _ Hcache) as [Hc1 Hc2].
  destruct r0 as [[f|]| |]; [|intros [= <- <-]; (split_and!; [done|by rewrite Hc2; destruct (write_control p)|done])..].
  unfold st_bind, on_ctrl, st_zoom, set_writings, st_modify, st_ret. intros [= <- <-]. simpl. rewrite Hc2.
  split_and!; [done|f_equal; lia|done].
Qed.

Lemma cached_done_ctrl root num p r p' :
  0 < total_writings (write_control p) → on_write_cache_done root num p = (r, p') →
  in_config p' = in_config p ∧
  write_control p' = MkWriteCtrl (wc_config (write_control p)) (wc_files (write_control p)) (total_writings (write_control p) - 1).
Proof.
  intros Hpos. unfold on_write_cache_done. unfold st_bind at 1, on_ctrl, st_zoom. rewrite end_writing_run by done.
  unfold on_cache, set_cached, st_modify, st_zoom, st_bind, st_get, st_lift, assert, expect, checked_sub.
  repeat case_match; intros; simplify_eq/=; done.
Qed.

Lemma upload_step_inv config s s' : upload_step s s' → upload_inv config s → upload_inv config s'.
Proof.
  intros Hstep Hinv. destruct Hstep as [id i total p p' uw cu ab n Hrun|id i total p r p' uw cu ab n Hrun Hr|
    root i p r p' uw1 uw2 cu ab n Hrun|root i p r p' uw1 uw2 cu ab n Hrun|root p r p' uw cu ab n Hrun|
    root p id num segs p' uw cu ab n Hrun|root p r p' uw cu ab n Hrun Hr|root num p r p' uw cu1 cu2 ab n Hrun|
    A op p r p' uw cu ab n Hrun|x p uw1 uw2 cu ab n|x p uw cu1 cu2 ab n].
  - by eapply upload_start_inv.
  - by eapply upload_refuse_inv.
  - apply on_ctrl_run in Hrun as (Hc & _ & Hrun). apply on_write_succeeded_cases in Hrun as [Hret _].
    + by eapply returned_inv.
    + intros f Hf Hi. by eapply (marked_pos config (MkUpload p _ _ _ _)).
  - apply on_ctrl_run in Hrun as (Hc & _ & Hrun). apply on_write_failed_cases in Hrun as [Hret _].
    + by eapply returned_inv.
    + intros f Hf Hi. by eapply (marked_pos config (MkUpload p _ _ _ _)).
  - apply on_ctrl_run in Hrun as (Hc & _ & Hrun). apply removed_inv; [done..|].
    unfold wc_remove_file, st_bind, st_get, set_files, st_modify, st_ret in Hrun. by injection Hrun as <- <-.
  - apply take_cached_ctrl in Hrun as (Hc & Hp & Hlt). specialize (Hlt _ eq_refl). destruct Hinv as [[Hc1 Hc2] Hn Hl Hm].
    simpl in *. subst config. split; simpl; rewrite ?Hp; simpl; [split; congruence|unfold writings in *; simpl; lia|lia|done].
  - apply take_cached_ctrl in Hrun as (Hc & Hp & _). destruct Hinv as [[Hc1 Hc2] Hn Hl Hm]. simpl in *.
    destruct r as [x| |]; [by destruct (Hr x)|..]; (split; simpl; rewrite ?Hp; simpl; [split; congruence|done..]).
  - pose proof Hinv as [[Hc1 Hc2] Hn Hl Hm]. simpl in *. rewrite length_app in Hn. simpl in Hn.
    apply cached_done_ctrl in Hrun as [Hc Hp]; [|lia].
    split; simpl; rewrite ?Hp; simpl; [split; congruence|unfold writings in *; simpl; rewrite length_app; lia|lia|done].
  - apply on_cache_ctrl in Hrun as [Hc Hp]. destruct Hinv as [[Hc1 Hc2] Hn Hl Hm]. simpl in *.
    split; simpl; rewrite ?Hp; [split; congruence|done..].
  - destruct Hinv as [Hc Hn Hl Hm]. split; [done..|]. simpl in *. intros root f j Hf Hj. pose proof (Hm _ _ _ Hf Hj). set_solver.
  - destruct Hinv as [Hc Hn Hl Hm]. split; simpl in *; [done| |done..]. rewrite length_app in *. simpl in Hn. lia.
Qed.

Lemma upload_reaches_inv config s : upload_reaches config s → upload_inv config s.
Proof.
  induction 1 as [|s s' _ IH Hstep]; [|by eapply upload_step_inv]. split; simpl; [done| |lia|].
  - unfold writings, files_writings. simpl. by rewrite map_fold_empty.
  - intros root f i. by rewrite lookup_empty.
Qed.
End Control.
Arguments upload_state E N L : clear implicits.

(** ** The memory cache *)

Section Cache.
Context {E : Type} {N : Type → Type} `{FinMap E N}.
Context {L : Type → Type} `{LinkedHashMap E L} `{!LinkedHashMapLaws E L} (zero : E).
Implicit Types (c : ChunkPoolCache E L) (f : MemoryCachedFile E) (l : list (E * MemoryCachedFile E)).

(** The chunks of the segments of a file. *)
Definition segment_chunk_sum (m : gmap nat ChunkArray) : nat :=
  map_fold (λ _ a n, num_chunks (ca_data a) + n) 0 m.

Definition file_wf (root : E) f : Prop :=
  file_root (cf_id f) = root ∧ cached_chunk_num f = segment_chunk_sum (segments f).

Definition cached_sum l : nat := sum_list_with (λ x, cached_chunk_num x.2) l.

(** The counters agree with the segments, and the limit holds. *)
Record cache_wf c : Prop := {
  cw_files : Forall (λ x, file_wf x.1 x.2) (lh_list (cc_files c));
  cw_total : cc_total_chunks c = cached_sum (lh_list (cc_files c));
  cw_limit : cc_total_chunks c ≤ max_cached_chunks_all (cc_config c);
}.

Lemma cached_sum_app l1 l2 : cached_sum (l1 ++ l2) = cached_sum l1 + cached_sum l2.
Proof. apply sum_list_with_app. Qed.

Lemma cached_sum_without k f l :
  NoDup l.*1 → (k, f) ∈ l → cached_sum l = cached_chunk_num f + cached_sum (without k l).
Proof.
  intros Hnd Hin. induction l as [|[k' f'] l IH]; [by apply not_elem_of_nil in Hin|].
  rewrite fmap_cons in Hnd. apply NoDup_cons in Hnd as [Hk Hnd]. unfold without in *. rewrite filter_cons.
  apply elem_of_cons in Hin as [[= <- <-]|Hin].
  - rewrite decide_False by naive_solver. simpl. f_equal. rewrite filter_all; [done|]. apply Forall_forall. intros [k1 f1] Hin Heq. simpl in Heq. subst k1. apply Hk.
    by apply (list_elem_of_fmap_2 fst) in Hin.
  - rewrite decide_True.
    + simpl. rewrite (IH Hnd Hin). lia.
    + simpl. intros ->. apply Hk. by apply (list_elem_of_fmap_2 fst) in Hin.
Qed.

Lemma without_absent k l : k ∉ l.*1 → without k l = l.
Proof.
  intros Hk. apply filter_all, Forall_forall. intros [k' f'] Hin Heq. simpl in Heq. subst k'. apply Hk.
  by apply (list_elem_of_fmap_2 fst) in Hin.
Qed.

Lemma Forall_without (P : E * MemoryCachedFile E → Prop) k l : Forall P l → Forall P (without k l).
Proof. rewrite !Forall_forall. intros HP x [_ Hx]%list_elem_of_filter. by apply HP. Qed.

Lemma get_absent k (m : L (MemoryCachedFile E)) : lh_get k m = None → without k (lh_list m) = lh_list m.
Proof.
  intros Hg. apply without_absent. intros ([k' f] & -> & Hin)%list_elem_of_fmap_1. simpl in Hg.
  apply lh_get_spec in Hin. congruence.
Qed.

Lemma set_back k f f' l : 
  (λ x, if decide (x.1 = k) then (k, f') else x) <$> (without k l ++ [(k, f)]) = without k l ++ [(k, f')].
Proof.
  rewrite fmap_app. simpl. rewrite decide_True by done. f_equal.
  rewrite <- (list_fmap_id (without k l)) at 2. apply list_fmap_ext. intros i [k' g] Hi. simpl.
  apply list_elem_of_lookup_2 in Hi. unfold without in Hi. apply list_elem_of_filter in Hi as [Hne _].
  by rewrite decide_False.
Qed.

(** Removing the front, or any file, keeps the counters right. *)
Lemma update_total_run c f n :
  cached_chunk_num f + n = cc_total_chunks c →
  update_total_chunks_when_remove_file f c = (Ok tt, MkCache (cc_config c) (cc_files c) n).
Proof.
  intros Hn. unfold update_total_chunks_when_remove_file, st_bind, st_get, st_lift, assert.
  rewrite (proj2 (Nat.leb_le _ _)) by lia. unfold set_cached, st_modify. do 2 f_equal. lia.
Qed.

Lemma cc_remove_file_run c root :
  cache_wf c →
  ∃ c', cc_remove_file root c = (Ok (cc_get_file c root), c') ∧ cache_wf c' ∧
    lh_list (cc_files c') = without root (lh_list (cc_files c)) ∧ cc_config c' = cc_config c.
Proof.
  intros [Hf Ht Hl]. unfold cc_remove_file, cc_get_file. rewrite (st_bind_ok _ _ c c c) by done.
  destruct (lh_get root (cc_files c)) as [f|] eqn:Hg.
  2: { exists c. split_and!; [done|done|by rewrite get_absent|done]. }
  pose proof (cached_sum_without root f _ (lh_nodup (cc_files c)) (proj1 (lh_get_spec _ _ _) Hg)) as Hsum.
  unfold st_bind at 1, set_cached, st_modify.
  erewrite st_bind_ok by (apply (update_total_run _ f (cached_sum (without root (lh_list (cc_files c))))); simpl; lia).
  eexists. split; [done|]. simpl. rewrite lh_remove_list. split_and!; [|done..].
  split; simpl; [|by rewrite lh_remove_list|lia]. rewrite lh_remove_list. by apply Forall_without.
Qed.

(** [garbage_collect] removes the files up to the first that has not expired. *)
Fixpoint expire (now : Z) l : list (E * MemoryCachedFile E) :=
  match l with
  | [] => []
  | (k, f) :: l => if (now <? expired_at f)%Z then (k, f) :: l else expire now l
  end.

Lemma expire_suffix now l : ∃ l0, l = l0 ++ expire now l.
Proof.
  induction l as [|[k f] l [l0 IH]]; simpl; [by exists []|]. case_match; [by exists []|].
  exists ((k, f) :: l0). simpl. by f_equal.
Qed.

Lemma garbage_collect_loop_run fuel now c :
  cache_wf c → length (lh_list (cc_files c)) ≤ fuel →
  ∃ c', garbage_collect_loop fuel now c = (Ok tt, c') ∧ cache_wf c' ∧
    lh_list (cc_files c') = expire now (lh_list (cc_files c)) ∧ cc_config c' = cc_config c.
Proof.
  revert c. induction fuel as [|fuel IH]; intros c Hwf Hl.
  - exists c. split_and!; [done|done| |done]. destruct (lh_list (cc_files c)); [done|simpl in Hl; lia].
  - cbn [garbage_collect_loop]. rewrite (st_bind_ok _ _ c c c) by done.
    destruct (lh_list (cc_files c)) as [|[k f] l] eqn:Hlist; simpl.
    { exists c. by rewrite Hlist. }
    destruct (now <? expired_at f)%Z; [exists c; by rewrite Hlist|].
    pose proof Hwf as [Hf Ht Hlim]. rewrite Hlist in Hf, Ht. simpl in Ht.
    unfold st_bind at 1, set_cached, st_modify.
    erewrite st_bind_ok by (apply (update_total_run _ f (cached_sum l)); simpl; lia). simpl.
    pose proof (lh_pop_front_list (cc_files c)) as Hpop. rewrite Hlist in Hpop. simpl in Hpop.
    destruct (IH (MkCache (cc_config c) (lh_pop_front (cc_files c)) (cached_sum l))) as (c' & Hrun & Hwf' & Hl' & Hc').
    + split; simpl; [|by rewrite Hpop|lia]. rewrite Hpop. by apply Forall_cons in Hf as [_ Hf].
    + simpl in *. rewrite Hpop. lia.
    + exists c'. simpl in *. rewrite Hpop in Hl'. done.
Qed.

Lemma garbage_collect_run now c :
  cache_wf c →
  ∃ c', garbage_collect now c = (Ok tt, c') ∧ cache_wf c' ∧
    lh_list (cc_files c') = expire now (lh_list (cc_files c)) ∧ cc_config c' = cc_config c.
Proof. intros Hwf. unfold garbage_collect. rewrite (st_bind_ok _ _ c c c) by done. by apply garbage_collect_loop_run. Qed.

Lemma segment_sum_insert (m : gmap nat ChunkArray) i a :
  m !! i = None → segment_chunk_sum (<[i := a]> m) = num_chunks (ca_data a) + segment_chunk_sum m.
Proof.
  intros Hi. unfold segment_chunk_sum.
  rewrite (map_fold_insert_L (λ _ b n, num_chunks (ca_data b) + n) 0 i a m); [done| |done]. intros. lia.
Qed.

Lemma fresh_file_wf root now timeout : file_wf root (MemoryCachedFile_new zero root now timeout).
Proof. split; [done|]. simpl. unfold segment_chunk_sum. by rewrite map_fold_empty. Qed.

(** The file that [cache_segment] works on, with the others. *)
Lemma touched_file_wf c root fresh :
  cache_wf c → file_wf root fresh → cached_chunk_num fresh = 0 →
  let f := default fresh (lh_get root (cc_files c)) in
  file_wf root f ∧ cc_total_chunks c = cached_chunk_num f + cached_sum (without root (lh_list (cc_files c))).
Proof.
  intros [Hf Ht Hl] Hfr H0' f. unfold f. destruct (lh_get root (cc_files c)) as [g|] eqn:Hg; simpl.
  - pose proof (proj1 (lh_get_spec _ _ _) Hg) as Hin. split.
    + by apply (proj1 (Forall_forall _ _) Hf) in Hin.
    + rewrite Ht. apply cached_sum_without; [apply lh_nodup|done].
  - split; [done|]. rewrite get_absent by done. lia.
Qed.

Lemma cache_replace_wf c root f (m : L (MemoryCachedFile E)) n :
  cache_wf c → file_wf root f → lh_list m = without root (lh_list (cc_files c)) ++ [(root, f)] →
  n = cached_chunk_num f + cached_sum (without root (lh_list (cc_files c))) →
  n ≤ max_cached_chunks_all (cc_config c) → cache_wf (MkCache (cc_config c) m n).
Proof.
  intros [Hf Ht Hl] Hfile Hm Hn Hmax. split; simpl; [|rewrite Hm, cached_sum_app; simpl; lia|done].
  rewrite Hm. apply Forall_app. split; [by apply Forall_without|]. by apply Forall_singleton.
Qed.

(** [cache_segment] keeps the counters on every branch, and stores the segment
    when it succeeds. *)
Lemma cache_segment_run now s c r c' :
  cache_wf c → cache_segment zero now s c = (r, c') →
  match r with
  | Ok b =>
      cache_wf c' ∧
      ∃ f, cc_get_file c' (si_root s) = Some f ∧ is_Some (segments f !! seg_index s) ∧ b = is_completed f
  | Err _ => cache_wf c'
  | Panic _ => True
  end.
Proof.
  intros Hwf. unfold cache_segment.
  destruct (garbage_collect_run now c Hwf) as (c1 & Hgc & Hwf1 & _ & _).
  rewrite (st_bind_ok _ _ _ _ _ Hgc), (st_bind_ok _ _ c1 c1 c1) by done.
  set (fresh := MemoryCachedFile_new _ _ _ _). set (f := default fresh _).
  destruct (touched_file_wf c1 (si_root s) fresh Hwf1 (fresh_file_wf _ _ _) eq_refl) as [Hf Hsum]. fold f in Hf, Hsum.
  unfold st_bind at 1, set_cached at 1, st_modify at 1. set (c2 := MkCache _ _ _).
  assert (lh_list (cc_files c2) = without (si_root s) (lh_list (cc_files c1)) ++ [(si_root s, f)]) as Hl2
    by apply lh_or_insert_list.
  assert (cache_wf c2) as Hwf2.
  { apply (cache_replace_wf c1 (si_root s) f); [done..|]. apply Hwf1. }
  assert (cc_get_file c2 (si_root s) = Some f) as Hget2.
  { apply lh_get_spec. rewrite Hl2. apply elem_of_app. right. by apply list_elem_of_singleton. }
  destruct (bool_decide_reflect (is_Some (segments f !! seg_index s))) as [Hs|Hs].
  { intros [= <- <-]. split; [done|]. by exists f. }
  unfold st_bind at 1, st_lift at 1, checked_add at 1. destruct (_ <? 2 ^ 64)%Z; [|by intros [= <- <-]].
  set (n := num_chunks (seg_data s)) in *.
  destruct (Nat.ltb_spec (max_cached_chunks_all (cc_config c1)) (cc_total_chunks c1 + n)) as [Hm|Hm].
  { intros [= <- <-]. done. }
  unfold st_bind at 1, st_lift at 1. destruct (segment_chunks s) as [a| |] eqn:Ha; [|by intros [= <- <-]..].
  assert (ca_data a = seg_data s) as Hdata.
  { unfold segment_chunks in Ha. destruct (umul _ _ _); simplify_eq/=. done. }
  unfold st_bind at 1, st_lift at 1, checked_add at 1. destruct (_ <? 2 ^ 64)%Z; [|by intros [= <- <-]].
  set (f' := MkCachedFile _ _ _ _ _). unfold st_bind, st_get, set_cached, st_modify, st_ret.
  intros [= <- <-].
  assert (lh_list (lh_set (si_root s) f' (cc_files c2)) =
    without (si_root s) (lh_list (cc_files c1)) ++ [(si_root s, f')]) as Hl3
    by (rewrite lh_set_list, Hl2; apply set_back).
  split.
  - apply (cache_replace_wf c1 (si_root s) f'); [done| |done|simpl; lia|done].
    destruct Hf as [Hroot Hcount]. split; [done|]. simpl.
    rewrite segment_sum_insert by (by apply eq_None_not_Some). rewrite Hdata. fold n. lia.
  - exists f'. split_and!; [|simpl; rewrite lookup_insert_eq; eauto|done].
    apply lh_get_spec. change (cc_files _) with (lh_set (si_root s) f' (cc_files c2)). rewrite Hl3. apply elem_of_app. right. by apply list_elem_of_singleton.
Qed.
End Cache.

(** ** An implementation of the linked map *)

Record linked (K V : Type) : Type := MkLinked {
  entries : list (K * V);
  entries_nodup : NoDup entries.*1;
}.
Arguments MkLinked {K V}.
Arguments entries {K V}.
Arguments entries_nodup {K V}.

Section Linked.
Context {K : Type} `{EqDecision K}.

Lemma nodup_without {V} k (l : list (K * V)) : NoDup l.*1 → NoDup (without k l).*1.
Proof.
  induction l as [|[k' v] l IH]; [done|]. rewrite fmap_cons. intros [Hk Hnd]%NoDup_cons.
  unfold without in *. rewrite filter_cons. case_decide; [|by apply IH].
  rewrite fmap_cons. constructor; [|by apply IH]. simpl in *. contradict Hk.
  apply list_elem_of_fmap_1 in Hk as ([k1 v1] & -> & [_ Hin]%list_elem_of_filter).
  by apply (list_elem_of_fmap_2 fst) in Hin.
Qed.

Lemma nodup_back {V} (k : K) (v : V) l : NoDup l.*1 → NoDup (without k l ++ [(k, v)]).*1.
Proof.
  intros Hnd. rewrite fmap_app. apply NoDup_app. split_and!.
  - by apply nodup_without.
  - intros x ([k' v'] & -> & [Hne _]%list_elem_of_filter)%list_elem_of_fmap_1 Hx.
    apply list_elem_of_singleton in Hx. done.
  - apply NoDup_singleton.
Qed.

Lemma keys_set {V} (k : K) (v : V) (l : list (K * V)) :
  ((λ x, if decide (x.1 = k) then (k, v) else x) <$> l).*1 = l.*1.
Proof. rewrite <- list_fmap_compose. apply list_fmap_ext. intros i [k' v'] _. simpl. by case_decide. Qed.

Lemma nodup_tail {V} (l : list (K * V)) : NoDup l.*1 → NoDup (tail l).*1.
Proof. destruct l; [done|]. rewrite fmap_cons. by intros [_ ?]%NoDup_cons. Qed.

Fixpoint assoc {V} (k : K) (l : list (K * V)) : option V :=
  match l with
  | [] => None
  | (k', v) :: l => if decide (k' = k) then Some v else assoc k l
  end.

Lemma assoc_spec {V} k (l : list (K * V)) v : NoDup l.*1 → assoc k l = Some v ↔ (k, v) ∈ l.
Proof.
  induction l as [|[k' v'] l IH]; [set_solver|]. rewrite fmap_cons. intros [Hk Hnd]%NoDup_cons.
  simpl. rewrite elem_of_cons. case_decide as Heq.
  - subst k'. split; [intros [= ->]; by left|]. intros [[= ->]|Hin]; [done|].
    destruct Hk. by apply (list_elem_of_fmap_2 fst) in Hin.
  - rewrite IH by done. naive_solver.
Qed.

#[export] Program Instance linked_map : LinkedHashMap K (linked K) := {|
  lh_list V := entries;
  lh_empty V := MkLinked [] _;
  lh_get V k l := assoc k (entries l);
  lh_set V k v l := MkLinked ((λ x, if decide (x.1 = k) then (k, v) else x) <$> entries l) _;
  lh_remove V k l := MkLinked (without k (entries l)) _;
  lh_pop_front V l := MkLinked (tail (entries l)) _;
  lh_or_insert V k v l :=
    MkLinked (without k (entries l) ++ [(k, default v (assoc k (entries l)))]) _;
|}.
Next Obligation. constructor. Qed.
Next Obligation. intros V k v [l Hl]. simpl. by rewrite keys_set. Qed.
Next Obligation. intros V k [l Hl]. by apply nodup_without. Qed.
Next Obligation. intros V l. apply nodup_tail, entries_nodup. Qed.
Next Obligation. intros V k v [l Hl]. by apply nodup_back. Qed.

#[export] Instance linked_map_laws : LinkedHashMapLaws K (linked K).
Proof. split; try done; [by intros V []|]. intros V k [l Hl] v. by apply assoc_spec. Qed.
End Linked.
