(* ===== verification/ChunkPoolTheorems.v ===== *)
(** * The chunk pool: main theorems

    Progress of uploads, accounting of the writers, counters of the cache, the
    write path down to the log manager, and two paths that panic. *)

From Stdlib Require Import Sorting.Sorted.
From stdpp Require Import gmap fin_maps.
From S2P Require Import Prelude Bytes IonianSpec Hashing MerkleProof MerkleRead AppendMerkle MerkleSpec SharedTypes SealCodec SealInfo ChunkData ChunkRuns EntryBatch EntryBatchProofs FlowStore FlowReads FlowWrites TxStore LogManager FlowTree LogInvariant LogPadding LogSteps LogTx LogProofs LogRefinement ChunkPool ChunkPoolProofs LogTheorems.

(** ** Progress of one file *)

(** C30: whatever the order in which the writes of a file start, finish and fail,
    the boundary of its window is the length of the longest prefix of segments
    whose writes have finished: the upload is complete exactly when all have. *)
Theorem upload_progress size os w k :
  st_for os exec_window (CtrlWindow_new size) = (Ok tt, w) →
  k ≤ left_boundary w ↔ ∀ i, i < k → WFinish i ∈ os.
Proof.
  intros Hrun. destruct (exec_windows_ok _ _ _ (window_new_wf size) Hrun) as (Hwf & _ & Hup).
  rewrite boundary_prefix by done. setoid_rewrite Hup. split; intros Hk i Hi; [|right; by apply Hk].
  destruct (Hk i Hi) as [[Hlt|Hs]|]; [simpl in Hlt; lia|simpl in Hs; by rewrite lookup_empty in Hs|done].
Qed.

Lemma upload_progress_witness :
  let os := [WStart 1; WStart 0; WFinish 1; WRollback 0; WStart 0; WFinish 0] in
  2 ≤ left_boundary (st_for os exec_window (CtrlWindow_new 4)).2 ↔ ∀ i, i < 2 → WFinish i ∈ os.
Proof.
  intros os. apply (upload_progress 4 os (st_for os exec_window (CtrlWindow_new 4)).2 2).
  vm_compute. reflexivity.
Defined.

Section Control.
Context {E : Type} {N : Type → Type} `{FinMap E N} {L : Type → Type} `{LinkedHashMap E L}.

(** C24: whatever the order of the locked sections of the pool, with segments
    uploaded twice, changed transactions, removed and cached files, panics and
    cancelled requests, the counter of writers is the number of segments marked
    as being written, of cached files under way and of the writers lost when
    their file was removed or their task cancelled, and it keeps to the limit.
    A marked segment belongs to a task under way or cancelled. A store call
    returns to the pool without effect when the file is gone, frees its writer
    when the segment is marked, and breaks an assertion otherwise. *)
Theorem upload_accounting config (s : upload_state E N L) :
  upload_reaches config s →
  let c := write_control (up_inner s) in
  total_writings c = writings c + length (cached_under_way s) + lost s ∧ total_writings c ≤ max_writings config ∧
  (∀ root f i, wc_files c !! root = Some f → slots (window f) !! i = Some Writing →
     (root, i) ∈ under_way s ++ abandoned s) ∧
  ∀ root i,
    match wc_files c !! root with
    | None => on_write_succeeded root i c = (Ok false, c) ∧ on_write_failed root i c = (Ok tt, c)
    | Some f =>
        if decide (slots (window f) !! i = Some Writing)
        then ∃ b c1 c2, on_write_succeeded root i c = (Ok b, c1) ∧ on_write_failed root i c = (Ok tt, c2) ∧
               S (total_writings c1) = total_writings c ∧ S (total_writings c2) = total_writings c
        else ∃ e1 e2, (on_write_succeeded root i c).1 = Panic e1 ∧ (on_write_failed root i c).1 = Panic e2
    end.
Proof.
  intros Hr%upload_reaches_inv c. pose proof Hr as [_ Hn Hl Hm]. fold c in Hn, Hl, Hm. split_and!; [done..|].
  intros root i. pose proof (λ f, marked_pos config s root f i Hr) as Hpos. fold c in Hpos.
  destruct (on_write_succeeded root i c) as [r1 c1] eqn:Hs. destruct (on_write_failed root i c) as [r2 c2] eqn:Hf.
  destruct (on_write_succeeded_cases _ _ _ _ _ Hs Hpos) as [[_ Hs1] Hs2].
  destruct (on_write_failed_cases _ _ _ _ _ Hf Hpos) as [[_ Hf1] Hf2].
  destruct (wc_files c !! root) as [f|] eqn:Hfile; [|by subst].
  destruct Hs1 as (_ & _ & _ & Hs1), Hf1 as (_ & _ & _ & Hf1). case_decide as Hi.
  - destruct Hs2 as [b ->]. subst r2. specialize (Hpos f eq_refl Hi). exists b, c1, c2. split_and!; [done..|lia|lia].
  - destruct Hs2 as [e1 ->], Hf2 as [e2 ->]. by exists e1, e2.
Qed.
End Control.

Definition sample_config : Config := MkConfig 4 1024 16 60.
Definition sample_file : FileID term := MkFileID (TLeaf [1%Z]) (MkTxID 0 (TLeaf [2%Z])).
Definition sample_ctrl : ChunkPoolWriteCtrl term (gmap term) :=
  (write_segment sample_file 0 2 (WriteCtrl_new sample_config)).2.

(** A segment that is uploaded twice at the same time, in a pool that then
    removes the file. *)
Definition sample_upload : upload_state term (gmap term) (linked term) :=
  let p1 := (on_ctrl (write_segment sample_file 0 2) (Inner_new sample_config)).2 in
  let p2 := (on_ctrl (write_segment sample_file 0 2) p1).2 in
  let p3 := (on_ctrl (wc_remove_file (TLeaf [1%Z])) p2).2 in
  MkUpload p3 [(TLeaf [1%Z], 0); (TLeaf [1%Z], 0)] [] [] (0 + removed_writings p2 p3 (TLeaf [1%Z])).

Lemma upload_accounting_witness :
  let c := write_control (up_inner sample_upload) in
  total_writings c = writings c + 0 + 1 ∧ total_writings c ≤ 16 ∧
  on_write_succeeded (TLeaf [1%Z]) 0 c = (Ok false, c) ∧ on_write_failed (TLeaf [1%Z]) 0 c = (Ok tt, c).
Proof.
  assert (upload_reaches sample_config sample_upload) as Hr.
  { eapply ur_step; [eapply ur_step; [eapply ur_step; [apply ur_new|]|]|].
    - apply (us_start sample_file 0 2). rewrite (surjective_pairing (on_ctrl _ _)) at 1. apply (f_equal2 pair); [by vm_compute|done].
    - apply (us_start sample_file 0 2). rewrite (surjective_pairing (on_ctrl _ _)) at 1. apply (f_equal2 pair); [by vm_compute|done].
    - eapply (us_remove (TLeaf [1%Z])). apply surjective_pairing. }
  destruct (upload_accounting sample_config sample_upload Hr) as (Hn & Hl & _ & Hret).
  specialize (Hret (TLeaf [1%Z]) 0). split; [etransitivity; [exact Hn|by vm_compute]|]. split; [exact Hl|].
  replace (wc_files (write_control (up_inner sample_upload)) !! TLeaf [1%Z]) with (@None (FileWriteCtrl term)) in Hret by by vm_compute.
  exact Hret.
Defined.

(** ** The memory cache *)

Section Cache.
Context {E : Type} {N : Type → Type} `{FinMap E N}.
Context {L : Type → Type} `{LinkedHashMap E L} `{!LinkedHashMapLaws E L} (zero : E).

(** Caching a segment keeps the counters of the pool equal to the chunks of
    the cached segments and within the limit, whether it succeeds or fails; on
    success the segment is in the cache, and the answer tells whether the file
    is complete. *)
Theorem cache_segment_correct now s (c : ChunkPoolCache E L) r c' :
  cache_wf c → cache_segment zero now s c = (r, c') →
  match r with
  | Ok b =>
      cache_wf c' ∧
      ∃ f, cc_get_file c' (si_root s) = Some f ∧ is_Some (segments f !! seg_index s) ∧ b = is_completed f
  | Err _ => cache_wf c'
  | Panic _ => True
  end.
Proof. apply cache_segment_run. Qed.
End Cache.


(** A pool with one cached segment. *)
Definition sample_cache : ChunkPoolCache term (linked term) := Cache_new sample_config.
Definition sample_segment : SegmentInfo term := MkSegmentInfo (TLeaf [1%Z]) (entry_bytes 7) 0 1024.

Lemma sample_cache_wf : cache_wf sample_cache.
Proof. split; [constructor|done|simpl; lia]. Qed.

Lemma cache_segment_correct_witness :
  let '(r, c') := cache_segment sample_zero 5 sample_segment sample_cache in
  match r with
  | Ok b =>
      cache_wf c' ∧
      ∃ f, cc_get_file c' (si_root sample_segment) = Some f ∧
        is_Some (segments f !! seg_index sample_segment) ∧ b = is_completed f
  | Err _ => cache_wf c'
  | Panic _ => True
  end.
Proof.
  destruct (cache_segment sample_zero 5 sample_segment sample_cache) as [r c'] eqn:Hrun.
  apply (cache_segment_correct sample_zero 5 sample_segment sample_cache r c' sample_cache_wf Hrun).
Defined.

(** ** Paths that panic *)

Section Panics.
Context {E : Type} {N : Type → Type} `{FinMap E N}.
Context {L : Type → Type} `{LinkedHashMap E L} `{!LinkedHashMapLaws E L} (zero : E).
Context {S : Type} `{LogStoreWrite E S}.
Implicit Types (p : Pool E N L S) (i : Inner E N L).

Lemma stored_inner {A} (op : st S A) p :
  ∃ r p', stored op p = (Ok r, p') ∧ inner p' = inner p.
Proof.
  unfold stored, st_zoom, spawned. destruct (op (log_store p)) as [[] s]; by do 2 eexists.
Qed.

Lemma locked_run {A} (op : st (Inner E N L) A) p r i :
  op (inner p) = (r, i) → ∃ p', locked op p = (r, p') ∧ inner p' = i.
Proof. intros Hop. unfold locked, st_zoom. rewrite Hop. by eexists. Qed.

(** After the file is gone from the cache the bookkeeping cannot succeed. *)
Lemma write_cache_done_panics root n i :
  lh_get root (cc_files (segment_cache i)) = None →
  ∃ msg i', on_write_cache_done root n i = (Panic msg, i').
Proof.
  intros Hg. unfold on_write_cache_done, st_bind, on_ctrl, on_cache, st_zoom, end_writing, st_bind, st_get, st_lift, assert, set_writings, st_modify.
  destruct (0 <? total_writings (write_control i)); [|by do 2 eexists]. simpl.
  destruct (n <=? cc_total_chunks (segment_cache i)); [|by do 2 eexists]. simpl.
  rewrite Hg. by do 2 eexists.
Qed.

Lemma get_all_removes root i x i' :
  get_all_cached_segments_to_write root i = (Ok x, i') →
  lh_get root (cc_files (segment_cache i')) = None.
Proof.
  unfold get_all_cached_segments_to_write. rewrite (st_bind_ok _ _ i i i) by done.
  destruct (_ <=? _); [done|]. unfold on_cache, on_ctrl, st_bind, st_zoom, cc_remove_file, st_bind, st_get.
  destruct (lh_get root (cc_files (segment_cache i))) as [f|] eqn:Hg; [|done].
  unfold update_total_chunks_when_remove_file, set_cached, st_modify, st_bind, st_get, st_lift, assert.
  simpl. destruct (cached_chunk_num f <=? _); [|done]. simpl. intros [= <- <-]. simpl.
  destruct (lh_get root (lh_remove root (cc_files (segment_cache i)))) as [g|] eqn:Hg'; [|done].
  apply lh_get_spec in Hg'. rewrite lh_remove_list in Hg'. by apply list_elem_of_filter in Hg' as [? _].
Qed.

Lemma write_cached_panics root id n segs p :
  lh_get root (cc_files (segment_cache (inner p))) = None →
  match write_cached id root n segs p with
  | (Ok _, p') => lh_get root (cc_files (segment_cache (inner p'))) = None
  | (Err _, _) => False
  | (Panic _, _) => True
  end.
Proof.
  revert p. induction segs as [|seg segs IH]; intros p Hg; [done|]. cbn [write_cached].
  destruct (stored_inner (store_put_chunks (id_seq (file_tx id)) (id_hash (file_tx id)) seg) p) as (r & p' & Hs & Hi).
  rewrite (st_bind_ok _ _ _ _ _ Hs). rewrite <- Hi in Hg.
  destruct (write_cache_done_panics root n _ Hg) as (msg & i' & Hd).
  destruct (locked_run _ p' _ _ Hd) as (p2 & Hl & _).
  destruct r as [[]| |]; [by apply IH|unfold st_bind; by rewrite Hl..].
Qed.

(** Writing a completely cached file takes it out of the cache, and the
    bookkeeping afterwards, which looks it up there, always panics; the file is
    never sent to be finalized. *)
Theorem cached_file_completion_panics root p x i :
  get_all_cached_segments_to_write root (inner p) = (Ok x, i) →
  ∃ msg, (write_all_cached_chunks_and_finalize root p).1 = Panic msg.
Proof.
  intros Hget. destruct (locked_run _ p _ _ Hget) as (p1 & Hl & Hi). destruct x as [[id n] segs].
  unfold write_all_cached_chunks_and_finalize. rewrite (st_bind_ok _ _ _ _ _ Hl).
  pose proof (get_all_removes _ _ _ _ Hget) as Hg. rewrite <- Hi in Hg.
  pose proof (write_cached_panics root id n (rev segs) p1 Hg) as Hw. unfold st_bind at 1.
  destruct (write_cached id root n (rev segs) p1) as [[[]| |msg] p2]; [|done|by eexists].
  destruct (write_cache_done_panics root n _ Hw) as (msg & i' & Hd).
  destruct (locked_run _ p2 _ _ Hd) as (p3 & Hl3 & _). unfold st_bind. rewrite Hl3. by eexists.
Qed.

(** Uploading again a segment that has been written, before the file is
    finalized, always panics: the window lets the duplicate through and asserts,
    when the store call returns, that the segment is being written. *)
Theorem duplicate_segment_panics s id size p f chunks :
  let total := Z.to_nat (compute_segment_size (bytes_to_chunks size) (Z.of_nat (chunks_per_segment s))).1 in
  si_root s = file_root id → segment_chunks s = Ok chunks →
  wc_files (write_control (inner p)) !! file_root id = Some f → fc_id f = id → total_segments f = total →
  window_wf (window f) → uploaded (window f) (seg_index s) →
  ∃ msg, (write_chunks s id size p).1 = Panic msg.
Proof.
  intros total Hroot Hch Hf Hid Ht Hwf Hup. unfold write_chunks.
  destruct (compute_segment_size _ _) as [n n'] eqn:Hn. simpl in total. fold total.
  assert (slots (window f) !! seg_index s ≠ Some Writing) as Hslot.
  { destruct Hup as [Hlt|Hs]; [|congruence]. intros Hs. pose proof (ww_range _ Hwf _ _ Hs). lia. }
  assert (check_duplicate (window f) (seg_index s) = true) as Hdup.
  { apply orb_true_iff. destruct Hup as [Hlt|Hs]; [left; by apply Nat.ltb_lt|right].
    apply bool_decide_eq_true. by eexists. }
  assert (write_segment id (seg_index s) total (write_control (inner p)) = (Ok tt, write_control (inner p))) as Hw.
  { unfold write_segment, st_bind, st_get, set_files, st_modify. rewrite Hf. simpl.
    rewrite bool_decide_true by done. rewrite (proj2 (Nat.eqb_eq _ _)) by done. simpl. rewrite Hdup.
    rewrite insert_id by done. by destruct (write_control (inner p)). }
  destruct (locked_run (on_ctrl (write_segment id (seg_index s) total)) p (Ok tt) (inner p)) as (p1 & Hl & Hi).
  { unfold on_ctrl, st_zoom. rewrite Hw. by destruct (inner p). }
  rewrite (st_bind_ok _ _ _ _ _ Hl). unfold st_lift at 1. rewrite (st_bind_ok _ _ p1 chunks p1) by (by rewrite Hch).
  destruct (stored_inner (store_put_chunks (id_seq (file_tx id)) (id_hash (file_tx id)) chunks) p1) as (r & p2 & Hs & Hi2).
  rewrite (st_bind_ok _ _ _ _ _ Hs).
  destruct (window_not_writing _ _ Hslot) as [(m1 & Hfin) (m2 & Hroll)].
  assert (wc_files (write_control (inner p2)) !! si_root s = Some f) as Hf2 by (by rewrite Hi2, Hi, Hroot).
  assert (∃ msg p3, locked (on_ctrl (on_write_succeeded (si_root s) (seg_index s))) p2 = (Panic msg, p3)) as (m3 & p3 & H3').
  { unfold locked, st_zoom, on_ctrl, st_zoom, on_write_succeeded, st_bind, st_get, on_window. rewrite Hf2.
    destruct (finish_writing (seg_index s) (window f)) as [r0 w0]. simpl in Hfin. subst r0. by do 2 eexists. }
  assert (∃ msg p3, locked (on_ctrl (on_write_failed (si_root s) (seg_index s))) p2 = (Panic msg, p3)) as (m4 & p4 & H4').
  { unfold locked, st_zoom, on_ctrl, st_zoom, on_write_failed, st_bind, st_get, on_window. rewrite Hf2.
    destruct (rollback_writing (seg_index s) (window f)) as [r0 w0]. simpl in Hroll. subst r0. by do 2 eexists. }
  destruct r as [[]| |]; unfold st_bind; rewrite ?H3', ?H4'; by eexists.
Qed.
End Panics.

(** ** Down to the log manager *)

Section Store.
Context {E : Type} `{HashElement E} `{!Algorithm E} `{!NeverNull E} (zero : E) `{!FlowHashes E zero}.
Context (keccak : list Z → list Z) (keccak_len : ∀ x, length (keccak x) = 32).
Context {B : Type} `{BitmapOps B} `{!BitmapLaws B}.
Context `{FinMap Z M} {N : Type → Type} `{FinMap E N}.
Context {L : Type → Type} `{LinkedHashMap E L} (tx_hash : Transaction E → E).

(** [storage_async::Store] over the log manager. *)
Definition manager_store : LogStoreWrite E (LogManager E B M N) := {|
  store_put_chunks := put_chunks_with_tx_hash zero keccak tx_hash;
  store_finalize := finalize_tx_with_hash zero keccak tx_hash;
|}.
#[local] Existing Instance manager_store.
Implicit Types (a : log_spec (E := E) (M := M) (N := N)) (p : Pool E N L (LogManager E B M N)).

Lemma put_with_hash_run a m seq tx chunks :
  holds_log zero keccak a m → get_tx_by_seq_number (ls_txs a) seq = Some tx →
  log_ok (LPutChunks seq chunks) a →
  ∃ m', put_chunks_with_tx_hash zero keccak tx_hash seq (tx_hash tx) chunks m = (Ok true, m') ∧
    holds_log zero keccak (spec_log zero (LPutChunks seq chunks) a) m'.
Proof.
  intros Hh Htx Hok. destruct (put_chunks_run zero keccak keccak_len a m seq chunks Hh Hok) as (m' & Hrun & Hh').
  exists m'. split; [|done]. unfold put_chunks, put_chunks_with_tx_hash, get_tx in *.
  assert (get_tx_by_seq_number (tx_store m) seq = Some tx) as Htx' by (by rewrite (proj2 Hh)).
  rewrite (st_bind_ok _ _ m tx m) in Hrun by (unfold st_reads; by rewrite Htx').
  rewrite (st_bind_ok _ _ m tx m) by (unfold st_reads; by rewrite Htx').
  rewrite bool_decide_true by done. by rewrite (st_bind_ok _ _ _ _ _ Hrun).
Qed.

(** Whether [write_segment] takes a new segment. *)
Definition admitted (c : ChunkPoolWriteCtrl E N) id total i : Prop :=
  let f := file_ctrl c id total in
  fc_id f = id ∧ total_segments f = total ∧ total_writings c < max_writings (wc_config c) ∧
  i < left_boundary (window f) + w_size (window f).
#[export] Instance admitted_dec c id total i : Decision (admitted c id total i).
Proof. unfold admitted. apply _. Defined.

Lemma write_segment_admits (c : ChunkPoolWriteCtrl E N) id i total :
  let f := file_ctrl c id total in
  window_wf (window f) → check_duplicate (window f) i = false →
  (Z.of_nat (left_boundary (window f) + w_size (window f)) < 2 ^ 64)%Z → admitted c id total i →
  ∃ c' f', write_segment id i total c = (Ok tt, c') ∧ wc_files c' !! file_root id = Some f' ∧
    total_segments f' = total ∧ window_wf (window f') ∧ slots (window f') !! i = Some Writing ∧ 0 < total_writings c' ∧
    ∀ j, uploaded (window f') j ↔ uploaded (window f) j.
Proof.
  intros f Hwf Hd H64 (Hid & Ht & Hmax & Hl). fold f in Hid, Ht, Hl.
  destruct (start_writing_run i (window f) Hwf Hd Hl H64) as (Hrun & Hwf' & Hup).
  set (w' := MkWindow (w_size (window f)) (left_boundary (window f)) (<[i := Writing]> (slots (window f)))) in *.
  eexists _, (MkFileCtrl (fc_id f) (total_segments f) w'). split_and!; [| |done|exact Hwf'| | |exact Hup].
  - unfold write_segment, st_bind at 1, st_get at 1. cbv zeta. fold (file_ctrl c id total). fold f.
    unfold st_bind at 1, set_files at 1, st_modify at 1.
    rewrite bool_decide_true by done. rewrite (proj2 (Nat.eqb_eq _ _)) by done. cbn [negb]. rewrite Hd.
    rewrite (proj2 (Nat.leb_gt _ _)) by done. unfold st_bind, on_window. cbn [wc_files wc_config]. rewrite Hrun. done.
  - simpl. by rewrite lookup_insert_eq.
  - apply lookup_insert_eq.
  - simpl. lia.
Qed.

Lemma write_segment_refuses (c : ChunkPoolWriteCtrl E N) id i total :
  let f := file_ctrl c id total in
  check_duplicate (window f) i = false →
  (Z.of_nat (left_boundary (window f) + w_size (window f)) < 2 ^ 64)%Z → ¬ admitted c id total i →
  ∃ e c', write_segment id i total c = (Err e, c') ∧ total_writings c' = total_writings c ∧
    wc_files c' !! file_root id = if decide (fc_id f = id) then Some f else None.
Proof.
  intros f Hd H64 Hno. unfold admitted in Hno. fold f in Hno.
  unfold write_segment, st_bind at 1, st_get at 1. cbv zeta. fold (file_ctrl c id total). fold f.
  unfold st_bind at 1, set_files at 1, st_modify at 1.
  destruct (decide (fc_id f = id)) as [Hid|Hid]; [rewrite bool_decide_true by done|rewrite bool_decide_false by done]; cbn [negb].
  2: { do 2 eexists. split; [done|]. split; [done|]. simpl. by rewrite lookup_delete_eq. }
  destruct (Nat.eqb_spec (total_segments f) total) as [Ht|Ht]; cbn [negb].
  2: { do 2 eexists. split; [done|]. split; [done|]. simpl. by rewrite lookup_insert_eq. }
  rewrite Hd. destruct (Nat.leb_spec (max_writings (wc_config c)) (total_writings c)) as [Hm|Hm].
  { do 2 eexists. split; [done|]. split; [done|]. simpl. by rewrite lookup_insert_eq. }
  assert (start_writing i (window f) = (Err "index exceeds window limit", window f)) as Hs.
  { unfold start_writing, st_bind, st_get, st_lift, checked_add, assert.
    apply orb_false_iff in Hd as [Hi _]. apply Nat.ltb_ge in Hi. rewrite (proj2 (Nat.leb_le _ _)) by done.
    rewrite (proj2 (Z.ltb_lt _ _)) by lia. rewrite (proj2 (Nat.leb_le _ _)); [done|]. destruct (Nat.le_gt_cases (left_boundary (window f) + w_size (window f)) i); [done|]. by destruct Hno. }
  unfold st_bind at 1. rewrite (on_window_run _ _ _ _ _ _ Hs). do 2 eexists. split; [done|]. split; [done|]. simpl.
  rewrite lookup_insert_eq. by destruct f.
Qed.

(** C7: a segment of a known file that is new and matches the transaction is
    written when the pool admits it: the file is being uploaded for the same
    transaction and size, fewer than [max_writings] writes are under way and the
    segment is inside the window. Then [write_chunks] returns Ok, the log
    manager holds the log with the data of the segment added, the segment
    counts as uploaded, and the file is sent to be finalized exactly when this
    was the last missing segment. Otherwise [write_chunks] returns an error,
    nothing is stored, sent or counted, and the progress of the file is dropped
    exactly when it belongs to another transaction. *)
Theorem write_chunks_stores s id size tx p a chunks :
  let total := Z.to_nat (compute_segment_size (bytes_to_chunks size) (Z.of_nat (chunks_per_segment s))).1 in
  let c := write_control (inner p) in
  let f := file_ctrl c id total in
  holds_log zero keccak a (log_store p) →
  get_tx_by_seq_number (ls_txs a) (id_seq (file_tx id)) = Some tx → tx_hash tx = id_hash (file_tx id) →
  segment_chunks s = Ok chunks → log_ok (LPutChunks (id_seq (file_tx id)) chunks) a → si_root s = file_root id →
  window_wf (window f) → check_duplicate (window f) (seg_index s) = false →
  (Z.of_nat (left_boundary (window f) + w_size (window f)) < 2 ^ 64)%Z →
  if decide (admitted c id total (seg_index s)) then
    ∃ p' f' (b : bool), write_chunks s id size p = (Ok tt, p') ∧
      holds_log zero keccak (spec_log zero (LPutChunks (id_seq (file_tx id)) chunks) a) (log_store p') ∧
      wc_files (write_control (inner p')) !! file_root id = Some f' ∧
      (∀ j, uploaded (window f') j ↔ uploaded (window f) j ∨ j = seg_index s) ∧
      queue p' = queue p ++ (if b then [id] else []) ∧ (b = true ↔ ∀ j, j < total → uploaded (window f') j)
  else
    ∃ e p', write_chunks s id size p = (Err e, p') ∧ log_store p' = log_store p ∧ queue p' = queue p ∧
      total_writings (write_control (inner p')) = total_writings c ∧
      wc_files (write_control (inner p')) !! file_root id = if decide (fc_id f = id) then Some f else None.
Proof.
  intros total c f Hh Htx Hhash Hch Hok Hroot Hwf Hd H64. unfold write_chunks.
  destruct (compute_segment_size _ _) as [n n'] eqn:Hn. simpl in total. fold total. case_decide as Hadm.
  - destruct (write_segment_admits c id (seg_index s) total Hwf Hd H64 Hadm)
      as (c1 & f1 & Hw & Hf1 & Ht1 & Hwf1 & Hs1 & Hpos & Hup1).
    unfold locked at 1, on_ctrl at 1, st_zoom at 1 2. unfold st_bind at 1. fold c. rewrite Hw. cbn [fst snd].
    unfold st_bind at 1, st_lift at 1. rewrite Hch.
    destruct (put_with_hash_run a (log_store p) _ tx chunks Hh Htx Hok) as (m' & Hput & Hh').
    unfold stored at 1, st_zoom at 1, spawned, st_bind at 1. cbn [log_store store_put_chunks manager_store].
    rewrite <- Hhash, Hput.
    destruct (on_write_succeeded_run c1 (file_root id) (seg_index s) f1 Hf1 Hwf1 Hs1 Hpos)
      as (b & c2 & f' & Hs & Hf' & Ht' & _ & Hup' & Hb).
    unfold locked at 1, on_ctrl at 1, st_zoom at 1 2. unfold st_bind at 1. cbn [inner write_control]. rewrite Hroot, Hs.
    rewrite Ht1 in Hb. setoid_rewrite Hup1 in Hup'.
    destruct b; [eexists _, f', true|eexists _, f', false]; (split; [done|]); cbn; rewrite ?app_nil_r; by split_and!.
  - destruct (write_segment_refuses c id (seg_index s) total Hd H64 Hadm) as (e & c1 & Hw & Ht1 & Hf1).
    unfold locked at 1, on_ctrl at 1, st_zoom at 1 2. unfold st_bind at 1. fold c. rewrite Hw. cbn [fst snd].
    do 2 eexists. split; [done|]. by split_and!.
Qed.
End Store.

(** ** Samples over the log manager *)

Definition sample_hash (tx : Transaction term) : term := TLeaf [tx_seq tx].
Definition sample_log_store : LogStoreWrite term sample_log := manager_store sample_zero toy_keccak sample_hash.
#[local] Existing Instance sample_log_store.

Definition sample_pool : Type := Pool term (gmap term) (linked term) sample_log.

(** The transaction of [sample_ops] is known, its data are not. *)
Definition sample_tx : Transaction term := one_entry_tx 0 1 (entry_bytes 7).
Definition tx_ops : list (log_op (E := term)) := [LPutTx sample_tx [[TLeaf (entry_bytes 7)]]].
Definition tx_manager : sample_log := (st_for tx_ops (exec_log sample_zero toy_keccak) sample_fresh).2.
Definition tx_file : FileID term := MkFileID (TLeaf (entry_bytes 7)) (MkTxID 0 (TLeaf [0%Z])).
Definition tx_segment : SegmentInfo term := MkSegmentInfo (TLeaf (entry_bytes 7)) (entry_bytes 7) 0 1024.
Definition tx_pool : sample_pool := MemoryChunkPool_new sample_config tx_manager.

Lemma tx_manager_holds : holds_log sample_zero toy_keccak (log_after (M := gmap Z) (N := gmap term) sample_zero tx_ops) tx_manager.
Proof.
  apply (log_reaches_holds sample_zero toy_keccak toy_keccak_len tx_ops). split; [by split; [apply sample_put_ok|]|].
  exists sample_fresh. split; [by vm_compute|].
  unfold tx_manager. rewrite (surjective_pairing (st_for _ _ _)) at 1.
  apply (f_equal2 pair); [by vm_compute|done].
Qed.

(** The segment is admitted by an empty pool, and refused by one that is full. *)
Definition full_pool : sample_pool := MemoryChunkPool_new (MkConfig 4 1024 0 60) tx_manager.

Lemma write_chunks_stores_witness :
  (∃ (p' : sample_pool) f' (b : bool), write_chunks tx_segment tx_file 256 tx_pool = (Ok tt, p') ∧
    holds_log sample_zero toy_keccak
      (spec_log sample_zero (LPutChunks 0 (MkChunkArray (entry_bytes 7) 0)) (log_after sample_zero tx_ops))
      (log_store p') ∧
    wc_files (write_control (inner p')) !! TLeaf (entry_bytes 7) = Some f' ∧
    (∀ j, uploaded (window f') j ↔ uploaded (window (file_ctrl (write_control (inner tx_pool)) tx_file 1)) j ∨ j = 0) ∧
    queue p' = queue tx_pool ++ (if b then [tx_file] else []) ∧ (b = true ↔ ∀ j, j < 1 → uploaded (window f') j)) ∧
  ∃ e p', write_chunks tx_segment tx_file 256 full_pool = (Err e, p') ∧ log_store p' = tx_manager.
Proof.
  assert (get_tx_by_seq_number (ls_txs (log_after (M := gmap Z) (N := gmap term) sample_zero tx_ops)) 0 = Some sample_tx) as Htx by by vm_compute.
  assert (segment_chunks tx_segment = Ok (MkChunkArray (entry_bytes 7) 0)) as Hch by by vm_compute.
  pose proof (proj1 (proj2 sample_ops_ok)) as Hok.
  pose proof (λ p : sample_pool, write_chunks_stores sample_zero toy_keccak toy_keccak_len sample_hash tx_segment tx_file 256 sample_tx
    p (log_after sample_zero tx_ops) (MkChunkArray (entry_bytes 7) 0)) as Hrun.
  split.
  - specialize (Hrun tx_pool tx_manager_holds Htx eq_refl Hch Hok eq_refl (window_new_wf 4) eq_refl eq_refl).
    destruct (decide _) as [_|Hno]; [exact Hrun|]. destruct Hno. split; [by vm_compute|split; [by vm_compute|vm_compute; lia]].
  - specialize (Hrun full_pool tx_manager_holds Htx eq_refl Hch Hok eq_refl (window_new_wf 4) eq_refl eq_refl).
    destruct (decide _) as [(_ & _ & Hm & _)|_]; [vm_compute in Hm; lia|].
    destruct Hrun as (e & p' & Hrun & Hst & _). exists e, p'. split; [exact Hrun|exact Hst].
Defined.

(** The same pool after the upload, with a segment in the cache. *)
Definition uploaded_pool : sample_pool := (write_chunks tx_segment tx_file 256 tx_pool).2.

Definition taken := get_all_cached_segments_to_write (TLeaf [1%Z])
  (on_cache (cache_segment sample_zero 5 sample_segment) (inner tx_pool)).2.
Definition caching_pool : sample_pool :=
  MkPool (on_cache (cache_segment sample_zero 5 sample_segment) (inner tx_pool)).2 tx_manager [] [].

Lemma cached_file_completion_panics_witness :
  ∃ msg, (write_all_cached_chunks_and_finalize (TLeaf [1%Z]) caching_pool).1 = Panic msg.
Proof.
  apply (cached_file_completion_panics (TLeaf [1%Z]) caching_pool
    (match taken.1 with Ok x => x | _ => (sample_file, 0, []) end) taken.2).
  change (taken = (Ok (match taken.1 with Ok x => x | _ => (sample_file, 0, []) end), taken.2)).
  rewrite (surjective_pairing taken) at 1. apply (f_equal2 pair); [by vm_compute|done].
Defined.

Lemma duplicate_segment_panics_witness :
  ∃ msg, (write_chunks tx_segment tx_file 256 uploaded_pool).1 = Panic msg.
Proof.
  apply (duplicate_segment_panics tx_segment tx_file 256 uploaded_pool
    (MkFileCtrl tx_file 1 (MkWindow 4 1 ∅)) (MkChunkArray (entry_bytes 7) 0)).
  - done.
  - by vm_compute.
  - by vm_compute.
  - done.
  - by vm_compute.
  - split; simpl; [intros i st|]; by rewrite lookup_empty.
  - left. simpl. lia.
Defined.

(** A file that is removed while one of its segments is being written, as
    [write_segment] does when the transaction changed, leaves the writer counted
    for ever. *)
Theorem removed_file_leaks_writer :
  let c := (wc_remove_file (TLeaf [1%Z]) sample_ctrl).2 in
  on_write_succeeded (TLeaf [1%Z]) 0 c = (Ok false, c) ∧ on_write_failed (TLeaf [1%Z]) 0 c = (Ok tt, c) ∧
  total_writings c = 1.
Proof. split_and!; by vm_compute. Qed.
