(* ===== verification/SyncStore.v ===== *)
(** * The queues of the automatic file synchronisation

    Model of [node/sync/src/auto_sync/tx_store.rs] and [sync_store.rs] over
    the configuration column of the database
    ([node/storage/src/log_store/config.rs]).

    The column [COL_MISC] is a map from keys to bytes.  A [TxStore] keeps an
    enumerable set of transaction numbers in it, under keys derived from its
    name; [SyncStore] keeps two of them, the pending and the ready
    transactions.  A database write that fails is not modelled. *)

From stdpp Require Import pretty.
From S2P Require Import Prelude Bytes.
Local Open Scope Z_scope.

(** ** The configuration column *)

(** [DBOp] on [COL_MISC]. *)
Inductive DBOp :=
| Insert (key : string) (value : list Z)
| Delete (key : string).

(** [ConfigTx], its [ops] in order. *)
Notation ConfigTx := (list DBOp).

(** The column [COL_MISC]. *)
Notation Configs := (gmap string (list Z)).

(** [u64::as_ssz_bytes] and [u64::from_ssz_bytes]; [usize] is the same. *)
Definition as_ssz_bytes (x : Z) : list Z := le_bytes 8 x.
Definition from_ssz_bytes (bytes : list Z) : res Z :=
  if decide (length bytes = 8%nat) then Ok (from_le_bytes bytes)
  else Err "InvalidByteLength".

Definition tx_set_config (key : string) (value : Z) (tx : ConfigTx) : ConfigTx :=
  tx ++ [Insert key (as_ssz_bytes value)].
Definition tx_remove_config (key : string) (tx : ConfigTx) : ConfigTx :=
  tx ++ [Delete key].

Definition get_config_decoded (key : string) (db : Configs) : res (option Z) :=
  match db !! key with
  | Some val =>
      match from_ssz_bytes val with
      | Ok x => Ok (Some x)
      | Err _ => Err "SSZ decode error"
      | Panic e => Panic e
      end
  | None => Ok None
  end.

Definition set_config_encoded (key : string) (value : Z) (db : Configs) : Configs :=
  <[key := as_ssz_bytes value]> db.

Definition exec_op (db : Configs) (op : DBOp) : Configs :=
  match op with
  | Insert key value => <[key := value]> db
  | Delete key => delete key db
  end.
Definition exec_configs (tx : ConfigTx) (db : Configs) : Configs := foldl exec_op db tx.

(** ** The enumerable set of transaction numbers *)

Record TxStore := mk_TxStore { name : string; key_count : string }.

Definition TxStore_new (name : string) : TxStore :=
  mk_TxStore name ("sync.manager.txs." +:+ name +:+ ".count").

Definition key_seq_to_index (t : TxStore) (tx_seq : Z) : string :=
  "sync.manager.txs." +:+ name t +:+ ".seq2index." +:+ pretty tx_seq.
Definition key_index_to_seq (t : TxStore) (index : Z) : string :=
  "sync.manager.txs." +:+ name t +:+ ".index2seq." +:+ pretty index.

Definition index_of (t : TxStore) (store : Configs) (tx_seq : Z) : res (option Z) :=
  get_config_decoded (key_seq_to_index t tx_seq) store.
Definition at_index (t : TxStore) (store : Configs) (index : Z) : res (option Z) :=
  get_config_decoded (key_index_to_seq t index) store.
Definition has (t : TxStore) (store : Configs) (tx_seq : Z) : res bool :=
  let? idx := index_of t store tx_seq in
  Ok (if idx is Some _ then true else false).
Definition count (t : TxStore) (store : Configs) : res Z :=
  let? x := get_config_decoded (key_count t) store in
  Ok (default 0 x).

(** [db_tx.append(&mut tx)] when the caller passed a transaction, and
    [store.exec_configs(tx)] otherwise.  The state is the store and the
    caller's transaction. *)
Definition submit (tx : ConfigTx) : st (Configs * option ConfigTx) unit := λ '(store, db_tx),
  match db_tx with
  | Some db_tx => (Ok tt, (store, Some (db_tx ++ tx)))
  | None => (Ok tt, (exec_configs tx store, None))
  end.

Definition add (t : TxStore) (tx_seq : Z) : st (Configs * option ConfigTx) bool :=
  let! s := st_get in
  let store := s.1 in
  let! existing := st_lift (has t store tx_seq) in
  if existing : bool then st_ret false else
  let! n := st_lift (count t store) in
  let! n1 := st_lift (uadd 64 n 1) in
  let tx := tx_set_config (key_index_to_seq t n) tx_seq [] in
  let tx := tx_set_config (key_seq_to_index t tx_seq) n tx in
  let tx := tx_set_config (key_count t) n1 tx in
  submit tx ;;
  st_ret true.

(** [gen_range] draws the index: [rand::thread_rng().gen_range(0..count)]. *)
Definition random (gen_range : Z → Z) (t : TxStore) (store : Configs) : res (option Z) :=
  let? n := count t store in
  if n =? 0 then Ok None else
  let index := gen_range n in
  let? seq := at_index t store index in
  let? tx_seq := expect seq "data corruption" in
  Ok (Some tx_seq).

Definition remove (t : TxStore) (tx_seq : Z) : st (Configs * option ConfigTx) bool :=
  let! s := st_get in
  let store := s.1 in
  let! idx := st_lift (index_of t store tx_seq) in
  match idx with
  | None => st_ret false
  | Some index =>
      let! n := st_lift (count t store) in
      st_lift (assert (0 <? n) "data corruption") ;;
      let tx := tx_set_config (key_count t) (n - 1) [] in
      let tx := tx_remove_config (key_seq_to_index t tx_seq) tx in
      let! tx :=
        (if index =? n - 1 then
           st_ret (tx_remove_config (key_index_to_seq t index) tx)
         else
           let! last := st_lift (at_index t store (n - 1)) in
           let! last_tx := st_lift (expect last "data corruption") in
           let tx := tx_set_config (key_index_to_seq t index) last_tx tx in
           let tx := tx_remove_config (key_index_to_seq t (n - 1)) tx in
           st_ret (tx_set_config (key_seq_to_index t last_tx) index tx)) in
      submit tx ;;
      st_ret true
  end.

(** ** The pending and the ready queue *)

Definition KEY_NEXT_TX_SEQ : string := "sync.manager.next_tx_seq".
Definition KEY_MAX_TX_SEQ : string := "sync.manager.max_tx_seq".

(** The stores of [SyncStore::new]. *)
Definition pending_txs : TxStore := TxStore_new "pending".
Definition ready_txs : TxStore := TxStore_new "ready".

(** A [TxStore] operation called with [None] ... *)
Definition direct {A} (m : st (Configs * option ConfigTx) A) : st Configs A := λ db,
  let '(r, (db, _)) := m (db, None) in (r, db).

Definition get_tx_seq_range (db : Configs) : res (option Z * option Z) :=
  let? next_tx_seq := get_config_decoded KEY_NEXT_TX_SEQ db in
  let? max_tx_seq := get_config_decoded KEY_MAX_TX_SEQ db in
  Ok (next_tx_seq, max_tx_seq).

Definition set_next_tx_seq (tx_seq : Z) : st Configs unit :=
  st_modify (set_config_encoded KEY_NEXT_TX_SEQ tx_seq).
Definition set_max_tx_seq (tx_seq : Z) : st Configs unit :=
  st_modify (set_config_encoded KEY_MAX_TX_SEQ tx_seq).

Definition add_pending_tx (tx_seq : Z) : st Configs bool :=
  let! ready := st_reads (λ db, has ready_txs db tx_seq) in
  if ready : bool then st_ret false else
  direct (add pending_txs tx_seq).

(** ... and the two moves, which collect both changes in one transaction. *)
Definition move_tx (from to : TxStore) (tx_seq : Z) : st Configs bool := λ db,
  match remove from tx_seq (db, Some []) with
  | (Ok false, _) => (Ok false, db)
  | (Ok true, s) =>
      match add to tx_seq s with
      | (Ok added, (_, tx)) => (Ok added, exec_configs (default [] tx) db)
      | (Err e, _) => (Err e, db)
      | (Panic e, _) => (Panic e, db)
      end
  | (Err e, _) => (Err e, db)
  | (Panic e, _) => (Panic e, db)
  end.

Definition upgrade_tx_to_ready (tx_seq : Z) : st Configs bool :=
  move_tx pending_txs ready_txs tx_seq.
Definition downgrade_tx_to_pending (tx_seq : Z) : st Configs bool :=
  move_tx ready_txs pending_txs tx_seq.

Definition random_tx (gen_range : Z → Z) (db : Configs) : res (option Z) :=
  let? val := random gen_range ready_txs db in
  match val with
  | Some val => Ok (Some val)
  | None => random gen_range pending_txs db
  end.

Definition remove_tx (tx_seq : Z) : st Configs bool :=
  let! removed := direct (remove ready_txs tx_seq) in
  if removed : bool then st_ret true else
  direct (remove pending_txs tx_seq).
