(* ===== verification/SyncStoreProofs.v ===== *)
(** * The enumerable sets keep their contents

    A [TxStore] represents a duplicate-free list of transaction numbers: the
    keys of one name hold the list's length, its elements by index and the
    index of each element, and nothing else.  [add] appends, [remove] puts
    the last element in the removed slot, and neither touches the keys of
    another name. *)

From stdpp Require Import pretty.
From S2P Require Import Prelude Bytes SyncStore.
Local Open Scope Z_scope.

(** ** Lists *)

Lemma lookup_snoc_ne {A} (l : list A) x j : j ≠ length l → (l ++ [x]) !! j = l !! j.
Proof.
  intros Hj. destruct (decide (j < length l)%nat); [by apply lookup_app_l|].
  rewrite !lookup_ge_None_2; [done|lia|rewrite length_app; simpl; lia].
Qed.

(** ** Encoded values *)

Definition u64 (x : Z) : Prop := 0 ≤ x < 2 ^ 64.

Lemma get_encoded key x db :
  db !! key = Some (as_ssz_bytes x) → u64 x → get_config_decoded key db = Ok (Some x).
Proof.
  intros Hk Hx. unfold get_config_decoded, from_ssz_bytes, as_ssz_bytes in *.
  rewrite Hk, decide_True by apply length_le_bytes.
  rewrite le_bytes_roundtrip by (unfold u64 in Hx; lia). done.
Qed.

Lemma config_absent key db : db !! key = None → get_config_decoded key db = Ok None.
Proof. intros Hk. unfold get_config_decoded. by rewrite Hk. Qed.

Lemma exec_configs_app tx1 tx2 db :
  exec_configs (tx1 ++ tx2) db = exec_configs tx2 (exec_configs tx1 db).
Proof. apply foldl_app. Qed.

(** ** The keys of a name *)

(** The keys that the store called [nm] uses. *)
Definition owned (nm key : string) : Prop :=
  key = key_count (TxStore_new nm)
  ∨ (∃ s, key = key_seq_to_index (TxStore_new nm) s)
  ∨ (∃ i, key = key_index_to_seq (TxStore_new nm) i).

Lemma key_seq_inj t s s' : key_seq_to_index t s = key_seq_to_index t s' → s = s'.
Proof. unfold key_seq_to_index. intros Hk. by simplify_eq. Qed.
Lemma key_index_inj t i i' : key_index_to_seq t i = key_index_to_seq t i' → i = i'.
Proof. unfold key_index_to_seq. intros Hk. by simplify_eq. Qed.
Lemma key_count_seq nm s : key_count (TxStore_new nm) ≠ key_seq_to_index (TxStore_new nm) s.
Proof.
  unfold key_seq_to_index; simpl. intros Hk.
  apply (inj (String.append "sync.manager.txs.")) in Hk. by simplify_eq.
Qed.
Lemma key_count_index nm i : key_count (TxStore_new nm) ≠ key_index_to_seq (TxStore_new nm) i.
Proof.
  unfold key_index_to_seq; simpl. intros Hk.
  apply (inj (String.append "sync.manager.txs.")) in Hk. by simplify_eq.
Qed.
Lemma key_seq_index t s i : key_seq_to_index t s ≠ key_index_to_seq t i.
Proof.
  unfold key_seq_to_index, key_index_to_seq. intros Hk.
  apply (inj (String.append "sync.manager.txs.")) in Hk. by simplify_eq.
Qed.

Lemma owned_count nm : owned nm (key_count (TxStore_new nm)).
Proof. by left. Qed.
Lemma owned_seq nm s : owned nm (key_seq_to_index (TxStore_new nm) s).
Proof. right; left; eauto. Qed.
Lemma owned_index nm i : owned nm (key_index_to_seq (TxStore_new nm) i).
Proof. right; right; eauto. Qed.

Create HintDb keys discriminated.
#[export] Hint Resolve key_count_seq key_count_index key_seq_index not_eq_sym
  owned_count owned_seq owned_index : keys.

(** Lookups after insertions and deletions of keys of one name. *)
Ltac key_lookup :=
  repeat first
    [ rewrite lookup_insert_eq | rewrite lookup_delete_eq
    | rewrite lookup_insert_ne by eauto with keys
    | rewrite lookup_delete_ne by eauto with keys ].

(** ** Representation *)

Section queue.
Context (nm : string).
Notation t := (TxStore_new nm).

Record queue (l : list Z) (db : Configs) : Prop := {
  q_nodup : NoDup l;
  q_u64 : Forall u64 l;
  q_len : zlen l < 2 ^ 64;
  q_count : db !! key_count t = Some (as_ssz_bytes (zlen l))
            ∨ (db !! key_count t = None ∧ l = []);
  q_at : ∀ i : nat, db !! key_index_to_seq t (Z.of_nat i) = as_ssz_bytes <$> l !! i;
  q_index : ∀ (i : nat) s, l !! i = Some s →
    db !! key_seq_to_index t s = Some (as_ssz_bytes (Z.of_nat i));
  q_absent : ∀ s, s ∉ l → db !! key_seq_to_index t s = None }.

Lemma queue_empty db : (∀ key, owned nm key → db !! key = None) → queue [] db.
Proof.
  intros Hdb. split; try done.
  - constructor.
  - right. split; [apply Hdb; eauto with keys|done].
  - intros i. rewrite Hdb by eauto with keys. done.
  - intros s _. apply Hdb; eauto with keys.
Qed.

(** The representation depends on the keys of the name only. *)
Lemma queue_frame l db db' :
  queue l db → (∀ key, owned nm key → db' !! key = db !! key) → queue l db'.
Proof.
  intros Hq Hk. destruct Hq. split; try done; intros; rewrite Hk by eauto with keys; eauto.
Qed.

Section reads.
Context (l : list Z) (db : Configs) (Hq : queue l db).

Lemma count_run : count t db = Ok (zlen l).
Proof.
  unfold count. destruct (q_count _ _ Hq) as [Hc|[Hc ->]].
  - rewrite (get_encoded _ (zlen l)); [done..|].
    split; [apply zlen_nonneg|apply (q_len _ _ Hq)].
  - rewrite config_absent by done. done.
Qed.

Lemma at_index_run (i : nat) : at_index t db (Z.of_nat i) = Ok (l !! i).
Proof.
  unfold at_index. pose proof (q_at _ _ Hq i) as Hi. destruct (l !! i) as [s|] eqn:Hs; simpl in Hi.
  - apply get_encoded; [done|]. eapply (Forall_lookup_1 u64); [apply (q_u64 _ _ Hq)|done].
  - by apply config_absent.
Qed.

Lemma index_of_run (i : nat) s : l !! i = Some s → index_of t db s = Ok (Some (Z.of_nat i)).
Proof.
  intros Hs. apply get_encoded; [by apply (q_index _ _ Hq)|].
  apply lookup_lt_Some in Hs. pose proof (q_len _ _ Hq). unfold u64, zlen in *. lia.
Qed.

Lemma index_of_absent s : s ∉ l → index_of t db s = Ok None.
Proof. intros Hs. apply config_absent. by apply (q_absent _ _ Hq). Qed.

Lemma has_run s : has t db s = Ok (bool_decide (s ∈ l)).
Proof.
  unfold has. destruct (decide (s ∈ l)) as [Hs|Hs].
  - destruct (list_elem_of_lookup_1 _ _ Hs) as [i Hi].
    rewrite (index_of_run i), bool_decide_true by done. done.
  - rewrite index_of_absent, bool_decide_false by done. done.
Qed.

(** A random draw is a member, and there is one when the list is not empty. *)
Lemma random_run gen_range :
  (∀ n, 0 < n → 0 ≤ gen_range n < n) →
  random gen_range t db = Ok (l !! Z.to_nat (gen_range (zlen l))) ∧
  (l ≠ [] → is_Some (l !! Z.to_nat (gen_range (zlen l)))).
Proof.
  intros Hgen. unfold random. rewrite count_run. simpl. destruct (Z.eqb_spec (zlen l) 0) as [Hn|Hn].
  - apply zlen_0 in Hn as ->. done.
  - pose proof (zlen_nonneg l). pose proof (Hgen (zlen l) ltac:(lia)) as Hi.
    assert (is_Some (l !! Z.to_nat (gen_range (zlen l)))) as [s Hs].
    { apply lookup_lt_is_Some. unfold zlen in *. lia. }
    replace (gen_range (zlen l)) with (Z.of_nat (Z.to_nat (gen_range (zlen l)))) at 1 by lia.
    rewrite at_index_run, Hs. done.
Qed.

End reads.

(** ** Adding *)

Definition add_ops (l : list Z) (s : Z) : ConfigTx :=
  [Insert (key_index_to_seq t (zlen l)) (as_ssz_bytes s);
   Insert (key_seq_to_index t s) (as_ssz_bytes (zlen l));
   Insert (key_count t) (as_ssz_bytes (zlen l + 1))].

Lemma add_ops_frame l s db key :
  ¬ owned nm key → exec_configs (add_ops l s) db !! key = db !! key.
Proof.
  intros Hk. unfold add_ops, exec_configs. cbn [foldl exec_op].
  rewrite !lookup_insert_ne by (intros <-; apply Hk; eauto with keys). done.
Qed.

Lemma add_ops_queue l s db :
  queue l db → s ∉ l → u64 s → zlen l + 1 < 2 ^ 64 →
  queue (l ++ [s]) (exec_configs (add_ops l s) db).
Proof.
  intros Hq Hs Hu Hlen. assert (Hlen' : zlen (l ++ [s]) = zlen l + 1) by (by rewrite zlen_app).
  unfold add_ops, exec_configs. cbn [foldl exec_op]. split.
  - apply NoDup_app. split_and!; [apply (q_nodup _ _ Hq)| |apply NoDup_singleton].
    intros x Hx ->%list_elem_of_singleton. done.
  - apply Forall_app. split; [apply (q_u64 _ _ Hq)|by constructor].
  - lia.
  - left. key_lookup. by rewrite Hlen'.
  - intros i. key_lookup. destruct (decide (i = length l)) as [->|Hi].
    + unfold zlen. key_lookup. by rewrite list_lookup_middle.
    + rewrite lookup_insert_ne by (intros ?%key_index_inj; unfold zlen in *; lia).
      rewrite (q_at _ _ Hq). by rewrite lookup_snoc_ne.
  - intros i x Hx. key_lookup. apply lookup_snoc_Some in Hx as [[Hi Hx]|[-> <-]].
    + rewrite lookup_insert_ne by (intros ->%key_seq_inj; apply Hs; by eapply list_elem_of_lookup_2).
      key_lookup. by apply (q_index _ _ Hq).
    + unfold zlen. by key_lookup.
  - intros x Hx. key_lookup. apply not_elem_of_app in Hx as [Hx Hxs].
    rewrite lookup_insert_ne by (intros ->%key_seq_inj; apply Hxs; by constructor).
    key_lookup. by apply (q_absent _ _ Hq).
Qed.

Lemma add_run l s db tx :
  queue l db → s ∉ l → zlen l + 1 < 2 ^ 64 →
  add t s (db, tx) = (let! _ := submit (add_ops l s) in st_ret true) (db, tx).
Proof.
  intros Hq Hs Hlen. unfold add, st_get, st_lift, st_bind at 1 2 3 4. simpl.
  rewrite (has_run l), bool_decide_false by done. simpl.
  rewrite (count_run l) by done. unfold uadd. rewrite (proj2 (Z.ltb_lt _ _)) by lia. done.
Qed.

Lemma add_present l s db tx : queue l db → s ∈ l → add t s (db, tx) = (Ok false, (db, tx)).
Proof.
  intros Hq Hs. unfold add, st_get, st_lift, st_bind. simpl.
  rewrite (has_run l), bool_decide_true by done. done.
Qed.

(** ** Removing *)

(** The operations that remove [s], found at index [i] of [l ++ [x]]. *)
Definition remove_ops (l : list Z) (x : Z) (i : nat) (s : Z) : ConfigTx :=
  [Insert (key_count t) (as_ssz_bytes (zlen l)); Delete (key_seq_to_index t s)] ++
  if decide (i = length l) then [Delete (key_index_to_seq t (Z.of_nat i))]
  else [Insert (key_index_to_seq t (Z.of_nat i)) (as_ssz_bytes x);
        Delete (key_index_to_seq t (zlen l));
        Insert (key_seq_to_index t x) (as_ssz_bytes (Z.of_nat i))].

Lemma remove_ops_frame l x i s db key :
  ¬ owned nm key → exec_configs (remove_ops l x i s) db !! key = db !! key.
Proof.
  intros Hk. unfold remove_ops, exec_configs. destruct (decide _); cbn [foldl exec_op app];
  repeat first [rewrite lookup_insert_ne by (intros <-; apply Hk; eauto with keys)
               |rewrite lookup_delete_ne by (intros <-; apply Hk; eauto with keys)]; done.
Qed.

Lemma swap_permutation (l : list Z) x i s :
  (l ++ [x]) !! i = Some s → l ++ [x] ≡ₚ s :: <[i := x]> l.
Proof.
  intros Hi. apply lookup_snoc_Some in Hi as [[Hlt Hi]|[-> <-]].
  - destruct (list_elem_of_split_length _ _ _ Hi) as (l1 & l2 & -> & ->).
    rewrite insert_app_r_alt, Nat.sub_diag by lia. simpl. solve_Permutation.
  - rewrite list_insert_ge by lia. solve_Permutation.
Qed.

Lemma remove_ops_at l x i s db :
  queue (l ++ [x]) db → (l ++ [x]) !! i = Some s →
  ∀ j : nat, exec_configs (remove_ops l x i s) db !! key_index_to_seq t (Z.of_nat j)
             = as_ssz_bytes <$> <[i := x]> l !! j.
Proof.
  intros Hq Hi j. pose proof (q_at _ _ Hq j) as Hj.
  unfold remove_ops, exec_configs. destruct (decide (i = length l)) as [->|Hne]; cbn [foldl exec_op app].
  - rewrite list_insert_ge by lia. destruct (decide (j = length l)) as [->|Hjn].
    + key_lookup. by rewrite lookup_ge_None_2.
    + rewrite lookup_delete_ne by (intros ?%key_index_inj; lia). key_lookup. rewrite Hj.
      by rewrite lookup_snoc_ne.
  - assert (i < length l)%nat.
    { apply lookup_lt_Some in Hi. rewrite length_app in Hi. simpl in Hi. lia. }
    key_lookup. destruct (decide (j = length l)) as [->|Hjn].
    + unfold zlen. key_lookup. by rewrite lookup_ge_None_2 by (rewrite length_insert; lia).
    + rewrite lookup_delete_ne by (intros ?%key_index_inj; unfold zlen in *; lia).
      destruct (decide (i = j)) as [->|Hij].
      * key_lookup. by rewrite list_lookup_insert_eq.
      * rewrite lookup_insert_ne by (intros ?%key_index_inj; lia). key_lookup.
        rewrite Hj, list_lookup_insert_ne by done. by rewrite lookup_snoc_ne.
Qed.

Lemma remove_ops_index l x i s db :
  queue (l ++ [x]) db → (l ++ [x]) !! i = Some s →
  ∀ (j : nat) y, <[i := x]> l !! j = Some y →
    exec_configs (remove_ops l x i s) db !! key_seq_to_index t y = Some (as_ssz_bytes (Z.of_nat j)).
Proof.
  intros Hq Hi j y Hj.
  assert (Hys : y ≠ s).
  { intros ->. pose proof (swap_permutation _ _ _ _ Hi) as Hp.
    pose proof (q_nodup _ _ Hq) as Hnd. rewrite Hp in Hnd. apply NoDup_cons in Hnd as [Hs _].
    apply Hs. by eapply list_elem_of_lookup_2. }
  assert (Hds : key_seq_to_index t s ≠ key_seq_to_index t y) by (by intros ?%key_seq_inj).
  unfold remove_ops, exec_configs. destruct (decide (i = length l)) as [->|Hne]; cbn [foldl exec_op app].
  - rewrite list_insert_ge in Hj by lia. key_lookup.
    apply (q_index _ _ Hq). by apply lookup_app_l_Some.
  - destruct (decide (y = x)) as [->|Hyx].
    + key_lookup. do 2 f_equal. assert (<[i := x]> l !! i = Some x) as Hix.
      { apply list_lookup_insert_eq. apply lookup_lt_Some in Hi.
        rewrite length_app in Hi. simpl in Hi. lia. }
      pose proof (swap_permutation _ _ _ _ Hi) as Hp. pose proof (q_nodup _ _ Hq) as Hnd.
      rewrite Hp in Hnd. apply NoDup_cons in Hnd as [_ Hnd].
      by rewrite (NoDup_lookup _ _ _ _ Hnd Hix Hj).
    + rewrite lookup_insert_ne by (by intros <-%key_seq_inj). key_lookup. apply (q_index _ _ Hq).
      rewrite list_lookup_insert_ne in Hj; [by apply lookup_app_l_Some|].
      intros ->. apply list_lookup_insert_Some in Hj as [(_ & ? & _)|[? _]]; done.
Qed.

Lemma remove_ops_absent l x i s db :
  queue (l ++ [x]) db → (l ++ [x]) !! i = Some s →
  ∀ y, y ∉ <[i := x]> l → exec_configs (remove_ops l x i s) db !! key_seq_to_index t y = None.
Proof.
  intros Hq Hi y Hy. pose proof (swap_permutation _ _ _ _ Hi) as Hp.
  assert (Hdb : delete (key_seq_to_index t s) db !! key_seq_to_index t y = None).
  { destruct (decide (y = s)) as [->|Hys]; [apply lookup_delete_eq|].
    rewrite lookup_delete_ne by (by intros ?%key_seq_inj). apply (q_absent _ _ Hq).
    rewrite Hp. apply not_elem_of_cons. done. }
  assert (Hdb' : delete (key_seq_to_index t s) (<[key_count t := as_ssz_bytes (zlen l)]> db)
                 !! key_seq_to_index t y = None).
  { rewrite delete_insert_ne by eauto with keys. by key_lookup. }
  unfold remove_ops, exec_configs. destruct (decide (i = length l)) as [->|Hne]; cbn [foldl exec_op app].
  - by key_lookup.
  - rewrite lookup_insert_ne; [by key_lookup|]. intros ->%key_seq_inj. apply Hy.
    apply list_elem_of_lookup_2 with i. apply list_lookup_insert_eq.
    apply lookup_lt_Some in Hi. rewrite length_app in Hi. simpl in Hi. lia.
Qed.

Lemma remove_ops_queue l x i s db :
  queue (l ++ [x]) db → (l ++ [x]) !! i = Some s →
  queue (<[i := x]> l) (exec_configs (remove_ops l x i s) db).
Proof.
  intros Hq Hi. pose proof (swap_permutation _ _ _ _ Hi) as Hp.
  pose proof (q_nodup _ _ Hq) as Hnd. rewrite Hp in Hnd. apply NoDup_cons in Hnd as [Hs Hnd].
  pose proof (q_len _ _ Hq) as Hlen. rewrite zlen_app in Hlen.
  assert (Hlen' : zlen (<[i := x]> l) = zlen l) by (unfold zlen; by rewrite length_insert).
  split.
  - done.
  - pose proof (q_u64 _ _ Hq) as Hu. rewrite Hp in Hu. by apply Forall_cons in Hu as [_ ?].
  - change (zlen [x]) with 1 in Hlen. lia.
  - left. rewrite Hlen'. unfold remove_ops, exec_configs. destruct (decide _); cbn [foldl exec_op app]; by key_lookup.
  - by apply remove_ops_at.
  - by apply remove_ops_index.
  - by apply remove_ops_absent.
Qed.

Lemma remove_run l x i s db tx :
  queue (l ++ [x]) db → (l ++ [x]) !! i = Some s →
  remove t s (db, tx) = (let! _ := submit (remove_ops l x i s) in st_ret true) (db, tx).
Proof.
  intros Hq Hi. pose proof (zlen_nonneg l). unfold remove, st_get, st_lift, st_ret, st_bind at 1 2 3 4 5. simpl.
  rewrite (index_of_run _ _ Hq i) by done. simpl. rewrite (count_run _ _ Hq). simpl.
  rewrite zlen_app. change (zlen [x]) with 1. rewrite (proj2 (Z.ltb_lt _ _)) by lia. simpl.
  replace (zlen l + 1 - 1) with (zlen l) by lia. unfold remove_ops.
  destruct (decide (i = length l)) as [->|Hne].
  - unfold zlen. rewrite Z.eqb_refl. done.
  - rewrite (proj2 (Z.eqb_neq _ _)) by (unfold zlen; lia). unfold st_bind at 1 2, zlen.
    rewrite (at_index_run _ _ Hq), list_lookup_middle by done. done.
Qed.

Lemma remove_absent l s db tx : queue l db → s ∉ l → remove t s (db, tx) = (Ok false, (db, tx)).
Proof.
  intros Hq Hs. unfold remove, st_get, st_lift, st_ret, st_bind. simpl.
  rewrite (index_of_absent _ _ Hq) by done. done.
Qed.

End queue.

(** ** The operations run on their own *)

(** The list without [s]: the last element takes its place. *)
Definition swap_remove (s : Z) (l : list Z) : list Z :=
  match list_find (eq s) l, last l with
  | Some (i, _), Some x => <[i := x]> (take (length l - 1) l)
  | _, _ => l
  end.

Lemma swap_remove_snoc s l x i :
  NoDup (l ++ [x]) → (l ++ [x]) !! i = Some s → swap_remove s (l ++ [x]) = <[i := x]> l.
Proof.
  intros Hnd Hi. unfold swap_remove.
  assert (list_find (eq s) (l ++ [x]) = Some (i, s)) as ->.
  { apply list_find_Some. split_and!; [done..|]. intros j y Hy Hj <-.
    pose proof (NoDup_lookup _ _ _ _ Hnd Hi Hy). lia. }
  rewrite last_snoc, length_app. simpl. rewrite Nat.add_sub, take_app_length. done.
Qed.

Lemma swap_remove_absent s l : s ∉ l → swap_remove s l = l.
Proof.
  intros Hs. unfold swap_remove. rewrite (proj2 (list_find_None _ _)); [done|].
  apply Forall_forall. intros x Hx ->. done.
Qed.

Lemma elem_of_snoc s (l : list Z) :
  s ∈ l → ∃ l' x i, l = l' ++ [x] ∧ (l' ++ [x]) !! i = Some s.
Proof.
  intros Hs. destruct (exists_last_or_nil l) as [->|(l' & x & ->)]; [by apply not_elem_of_nil in Hs|].
  apply list_elem_of_lookup_1 in Hs as [i Hi]. eauto 10.
Qed.

Lemma swap_remove_permutation s l : NoDup l → s ∈ l → l ≡ₚ s :: swap_remove s l.
Proof.
  intros Hnd Hs. destruct (elem_of_snoc _ _ Hs) as (l' & x & i & -> & Hi).
  rewrite (swap_remove_snoc _ _ _ i) by done. by apply swap_permutation.
Qed.

(** The operations that add or remove one number, as a transaction, with what
    they do to the list. *)
Lemma add_spec nm l s db tx :
  queue nm l db → s ∉ l → u64 s → zlen l + 1 < 2 ^ 64 →
  ∃ ops, add (TxStore_new nm) s (db, tx) = (let! _ := submit ops in st_ret true) (db, tx) ∧
    (∀ db', queue nm l db' → queue nm (l ++ [s]) (exec_configs ops db')) ∧
    (∀ db' key, ¬ owned nm key → exec_configs ops db' !! key = db' !! key).
Proof.
  intros Hq Hs Hu Hlen. exists (add_ops nm l s). split_and!.
  - by apply add_run.
  - intros db' Hq'. by apply add_ops_queue.
  - intros db' key. apply add_ops_frame.
Qed.

Lemma remove_spec nm l s db tx :
  queue nm l db → s ∈ l →
  ∃ ops, remove (TxStore_new nm) s (db, tx) = (let! _ := submit ops in st_ret true) (db, tx) ∧
    (∀ db', queue nm l db' → queue nm (swap_remove s l) (exec_configs ops db')) ∧
    (∀ db' key, ¬ owned nm key → exec_configs ops db' !! key = db' !! key).
Proof.
  intros Hq Hs. destruct (elem_of_snoc _ _ Hs) as (l' & x & i & -> & Hi).
  exists (remove_ops nm l' x i s). split_and!.
  - by apply remove_run.
  - intros db' Hq'. rewrite (swap_remove_snoc _ _ _ i) by (done || apply (q_nodup _ _ _ Hq)).
    by apply remove_ops_queue.
  - intros db' key. apply remove_ops_frame.
Qed.

(** ** The two queues and the range *)

(** What the synchronisation stores: the two queues in order and the range. *)
Record sync_state := mk_sync {
  pending : list Z;
  ready : list Z;
  stored_next : option Z;
  stored_max : option Z }.

(** The database holds [a], its queues disjoint. *)
Record holds_sync (a : sync_state) (db : Configs) : Prop := {
  hs_pending : queue "pending" (pending a) db;
  hs_ready : queue "ready" (ready a) db;
  hs_disjoint : pending a ## ready a;
  hs_next : db !! KEY_NEXT_TX_SEQ = as_ssz_bytes <$> stored_next a;
  hs_max : db !! KEY_MAX_TX_SEQ = as_ssz_bytes <$> stored_max a;
  hs_range : (∀ x, stored_next a = Some x → u64 x) ∧ (∀ x, stored_max a = Some x → u64 x) }.

Ltac not_owned := intros [?|[[??]|[??]]]; discriminate.
Lemma next_not_pending : ¬ owned "pending" KEY_NEXT_TX_SEQ.
Proof. not_owned. Qed.
Lemma next_not_ready : ¬ owned "ready" KEY_NEXT_TX_SEQ.
Proof. not_owned. Qed.
Lemma max_not_pending : ¬ owned "pending" KEY_MAX_TX_SEQ.
Proof. not_owned. Qed.
Lemma max_not_ready : ¬ owned "ready" KEY_MAX_TX_SEQ.
Proof. not_owned. Qed.
Lemma pending_not_ready key : owned "pending" key → ¬ owned "ready" key.
Proof. intros [->|[[? ->]|[? ->]]]; not_owned. Qed.
Lemma ready_not_pending key : owned "ready" key → ¬ owned "pending" key.
Proof. intros Hr Hp. by apply (pending_not_ready key). Qed.
Lemma owned_not_next nm key : nm = "pending" ∨ nm = "ready" → owned nm key → KEY_NEXT_TX_SEQ ≠ key.
Proof. intros [->| ->] Ho <-; revert Ho; [apply next_not_pending|apply next_not_ready]. Qed.
Lemma owned_not_max nm key : nm = "pending" ∨ nm = "ready" → owned nm key → KEY_MAX_TX_SEQ ≠ key.
Proof. intros [->| ->] Ho <-; revert Ho; [apply max_not_pending|apply max_not_ready]. Qed.
#[export] Hint Resolve next_not_pending next_not_ready max_not_pending max_not_ready
  pending_not_ready ready_not_pending : keys.

(** The operations of [SyncStore], ... *)
Inductive sync_op :=
| AddPending (s : Z)
| Upgrade (s : Z)
| Downgrade (s : Z)
| RemoveTx (s : Z)
| SetNext (s : Z)
| SetMax (s : Z).

Definition exec_sync (op : sync_op) : st Configs bool :=
  match op with
  | AddPending s => add_pending_tx s
  | Upgrade s => upgrade_tx_to_ready s
  | Downgrade s => downgrade_tx_to_pending s
  | RemoveTx s => remove_tx s
  | SetNext s => set_next_tx_seq s ;; st_ret true
  | SetMax s => set_max_tx_seq s ;; st_ret true
  end.

(** ... what each of them does to the two queues, ... *)
Definition spec_sync (op : sync_op) (a : sync_state) : bool * sync_state :=
  let '(mk_sync p r n m) := a in
  match op with
  | AddPending s =>
      if decide (s ∈ r ∨ s ∈ p) then (false, a) else (true, mk_sync (p ++ [s]) r n m)
  | Upgrade s =>
      if decide (s ∈ p) then (true, mk_sync (swap_remove s p) (r ++ [s]) n m) else (false, a)
  | Downgrade s =>
      if decide (s ∈ r) then (true, mk_sync (p ++ [s]) (swap_remove s r) n m) else (false, a)
  | RemoveTx s =>
      if decide (s ∈ r) then (true, mk_sync p (swap_remove s r) n m)
      else if decide (s ∈ p) then (true, mk_sync (swap_remove s p) r n m) else (false, a)
  | SetNext s => (true, mk_sync p r (Some s) m)
  | SetMax s => (true, mk_sync p r n (Some s))
  end.

(** ... and when the operation is allowed: a [u64], and room to count it. *)
Definition sync_ok (op : sync_op) (a : sync_state) : Prop :=
  match op with
  | AddPending s | Upgrade s | Downgrade s | RemoveTx s =>
      u64 s ∧ zlen (pending a) + 1 < 2 ^ 64 ∧ zlen (ready a) + 1 < 2 ^ 64
  | SetNext s | SetMax s => u64 s
  end.

Lemma holds_sync_start : holds_sync (mk_sync [] [] None None) ∅.
Proof. split; simpl; try done; [by apply queue_empty..|set_solver]. Qed.

Section two_queues.
Context (p r : list Z) (n m : option Z) (db : Configs).
Context (Hh : holds_sync (mk_sync p r n m) db).

Lemma change_pending p' db' :
  queue "pending" p' db' → (∀ key, ¬ owned "pending" key → db' !! key = db !! key) → p' ## r →
  holds_sync (mk_sync p' r n m) db'.
Proof.
  intros Hq Hk Hd. destruct Hh as [_ Hr _ Hn Hm Hrng]. split; simpl in *; try done.
  - eapply queue_frame; [done|]. eauto with keys.
  - rewrite Hk by eauto with keys. done.
  - rewrite Hk by eauto with keys. done.
Qed.

Lemma change_ready r' db' :
  queue "ready" r' db' → (∀ key, ¬ owned "ready" key → db' !! key = db !! key) → p ## r' →
  holds_sync (mk_sync p r' n m) db'.
Proof.
  intros Hq Hk Hd. destruct Hh as [Hp _ _ Hn Hm Hrng]. split; simpl in *; try done.
  - eapply queue_frame; [done|]. eauto with keys.
  - rewrite Hk by eauto with keys. done.
  - rewrite Hk by eauto with keys. done.
Qed.

Lemma swap_remove_subset s l : NoDup l → swap_remove s l ⊆ l.
Proof.
  intros Hnd. destruct (decide (s ∈ l)) as [Hs|Hs].
  - intros x Hx. rewrite (swap_remove_permutation s l) by done. by right.
  - by rewrite swap_remove_absent.
Qed.

Lemma swap_remove_not_in s l : NoDup l → s ∉ swap_remove s l.
Proof.
  intros Hnd. destruct (decide (s ∈ l)) as [Hs|Hs].
  - rewrite (swap_remove_permutation s l) in Hnd by done. by apply NoDup_cons in Hnd as [? _].
  - by rewrite swap_remove_absent.
Qed.

Lemma add_pending_run s :
  sync_ok (AddPending s) (mk_sync p r n m) →
  let '(b, a) := spec_sync (AddPending s) (mk_sync p r n m) in
  ∃ db', exec_sync (AddPending s) db = (Ok b, db') ∧ holds_sync a db'.
Proof.
  intros (Hu & Hlp & _). destruct Hh as [Hp Hr Hd _ _ _]; simpl in *.
  unfold add_pending_tx, st_reads, st_bind, ready_txs, pending_txs, direct. rewrite (has_run _ r) by done.
  destruct (decide (s ∈ r)) as [Hsr|Hsr].
  { rewrite decide_True, bool_decide_true by auto. eauto. }
  rewrite bool_decide_false by done. destruct (decide (s ∈ p)) as [Hsp|Hsp].
  { rewrite decide_True by auto. rewrite (add_present _ p) by done. eauto. }
  rewrite decide_False by tauto.
  destruct (add_spec "pending" p s db None) as (ops & -> & Hops & Hk); [done..|].
  eexists. split; [done|]. apply change_pending; [auto..|]. set_solver.
Qed.

Lemma remove_tx_run s :
  let '(b, a) := spec_sync (RemoveTx s) (mk_sync p r n m) in
  ∃ db', exec_sync (RemoveTx s) db = (Ok b, db') ∧ holds_sync a db'.
Proof.
  destruct Hh as [Hp Hr Hd _ _ _]; simpl in *.
  unfold remove_tx, st_bind, ready_txs, pending_txs, direct. destruct (decide (s ∈ r)) as [Hsr|Hsr].
  { destruct (remove_spec "ready" r s db None) as (ops & -> & Hops & Hk); [done..|].
    eexists. split; [done|]. apply change_ready; [auto..|].
    pose proof (swap_remove_subset s r (q_nodup _ _ _ Hr)). set_solver. }
  rewrite (remove_absent _ r) by done. destruct (decide (s ∈ p)) as [Hsp|Hsp].
  - destruct (remove_spec "pending" p s db None) as (ops & -> & Hops & Hk); [done..|].
    eexists. split; [done|]. apply change_pending; [auto..|].
    pose proof (swap_remove_subset s p (q_nodup _ _ _ Hp)). set_solver.
  - rewrite (remove_absent _ p) by done. eauto.
Qed.

End two_queues.

(** One transaction takes a number out of a queue and puts it in the other. *)
Lemma move_tx_run nmf nmt lf lt s db :
  queue nmf lf db → queue nmt lt db → s ∈ lf → s ∉ lt → u64 s → zlen lt + 1 < 2 ^ 64 →
  (∀ key, owned nmf key → ¬ owned nmt key) →
  ∃ db', move_tx (TxStore_new nmf) (TxStore_new nmt) s db = (Ok true, db') ∧
    queue nmf (swap_remove s lf) db' ∧ queue nmt (lt ++ [s]) db' ∧
    (∀ key, ¬ owned nmf key → ¬ owned nmt key → db' !! key = db !! key).
Proof.
  intros Hf Ht Hsf Hst Hu Hlen Hown. unfold move_tx.
  destruct (remove_spec nmf lf s db (Some [])) as (ops1 & -> & Hq1 & Hk1); [done..|].
  unfold submit, st_bind, st_ret.
  destruct (add_spec nmt lt s db (Some ([] ++ ops1))) as (ops2 & -> & Hq2 & Hk2); [done..|].
  unfold submit, st_bind, st_ret. simpl. eexists. split; [done|]. rewrite exec_configs_app. split_and!.
  - apply queue_frame with (exec_configs ops1 db); [auto|]. intros key Ho. apply Hk2. auto.
  - apply Hq2. apply queue_frame with db; [done|]. intros key Ho. apply Hk1. intros Ho'.
    by apply (Hown key).
  - intros key H1 H2. by rewrite Hk2, Hk1.
Qed.

Lemma move_tx_absent nmf lf t s db :
  queue nmf lf db → s ∉ lf → move_tx (TxStore_new nmf) t s db = (Ok false, db).
Proof. intros Hf Hs. unfold move_tx. by rewrite (remove_absent _ lf). Qed.

Lemma holds_sync_moved p r n m db p' r' db' :
  holds_sync (mk_sync p r n m) db → queue "pending" p' db' → queue "ready" r' db' → p' ## r' →
  (∀ key, ¬ owned "pending" key → ¬ owned "ready" key → db' !! key = db !! key) →
  holds_sync (mk_sync p' r' n m) db'.
Proof.
  intros [_ _ _ Hn Hm Hrng] Hp Hr Hd Hk. split; simpl in *; try done;
  rewrite Hk by eauto with keys; done.
Qed.

Lemma move_run s a db op :
  op = Upgrade s ∨ op = Downgrade s → sync_ok op a → holds_sync a db →
  let '(b, a') := spec_sync op a in
  ∃ db', exec_sync op db = (Ok b, db') ∧ holds_sync a' db'.
Proof.
  intros Hop Hok Hh. destruct a as [p r n m]. pose proof Hh as [Hp Hr Hd _ _ _].
  pose proof (swap_remove_subset s p (q_nodup _ _ _ Hp)) as Hsp.
  pose proof (swap_remove_subset s r (q_nodup _ _ _ Hr)) as Hsr.
  pose proof (swap_remove_not_in s p (q_nodup _ _ _ Hp)) as Hnp.
  pose proof (swap_remove_not_in s r (q_nodup _ _ _ Hr)) as Hnr.
  destruct Hop as [->| ->]; destruct Hok as (Hu & Hlp & Hlr); simpl in *;
  unfold upgrade_tx_to_ready, downgrade_tx_to_pending, pending_txs, ready_txs; case_decide as Hs.
  - destruct (move_tx_run "pending" "ready" p r s db) as (db' & -> & Hp' & Hr' & Hk);
      [done|done|done|set_solver|done|done|eauto with keys|].
    exists db'. split; [done|]. apply (holds_sync_moved _ _ _ _ _ _ _ _ Hh); [done|done|set_solver|done].
  - rewrite (move_tx_absent _ p) by done. eauto.
  - destruct (move_tx_run "ready" "pending" r p s db) as (db' & -> & Hr' & Hp' & Hk);
      [done|done|done|set_solver|done|done|eauto with keys|].
    exists db'. split; [done|]. apply (holds_sync_moved _ _ _ _ _ _ _ _ Hh); [done|done|set_solver|auto].
  - rewrite (move_tx_absent _ r) by done. eauto.
Qed.

Lemma queue_set_range nm l key x db :
  nm = "pending" ∨ nm = "ready" → key = KEY_NEXT_TX_SEQ ∨ key = KEY_MAX_TX_SEQ →
  queue nm l db → queue nm l (set_config_encoded key x db).
Proof.
  intros Hnm Hkey Hq. eapply queue_frame; [exact Hq|]. intros k Ho. apply lookup_insert_ne.
  destruct Hkey as [->| ->]; [by apply (owned_not_next nm)|by apply (owned_not_max nm)].
Qed.

Lemma set_next_run s a db :
  u64 s → holds_sync a db →
  holds_sync (mk_sync (pending a) (ready a) (Some s) (stored_max a)) (set_config_encoded KEY_NEXT_TX_SEQ s db).
Proof.
  intros Hu [Hp Hr Hd Hn Hm [Hrn Hrm]]. split; simpl.
  - apply queue_set_range; auto.
  - apply queue_set_range; auto.
  - exact Hd.
  - apply lookup_insert_eq.
  - rewrite <- Hm. by apply lookup_insert_ne.
  - split; [by intros x [= <-]|exact Hrm].
Qed.

Lemma set_max_run s a db :
  u64 s → holds_sync a db →
  holds_sync (mk_sync (pending a) (ready a) (stored_next a) (Some s)) (set_config_encoded KEY_MAX_TX_SEQ s db).
Proof.
  intros Hu [Hp Hr Hd Hn Hm [Hrn Hrm]]. split; simpl.
  - apply queue_set_range; auto.
  - apply queue_set_range; auto.
  - exact Hd.
  - rewrite <- Hn. by apply lookup_insert_ne.
  - apply lookup_insert_eq.
  - split; [exact Hrn|by intros x [= <-]].
Qed.

(** Every operation of [SyncStore] does to the database what it means to. *)
Lemma exec_sync_run op a db :
  sync_ok op a → holds_sync a db →
  let '(b, a') := spec_sync op a in
  ∃ db', exec_sync op db = (Ok b, db') ∧ holds_sync a' db'.
Proof.
  intros Hok Hh. destruct op.
  - destruct a. by apply add_pending_run.
  - apply (move_run s); eauto.
  - apply (move_run s); eauto.
  - destruct a. by apply remove_tx_run.
  - destruct a as [p r n m]. eexists. split; [reflexivity|]. exact (set_next_run s _ db Hok Hh).
  - destruct a as [p r n m]. eexists. split; [reflexivity|]. exact (set_max_run s _ db Hok Hh).
Qed.

(** The number drawn is ready, or pending when none is ready. *)
Lemma random_tx_run gen_range a db :
  (∀ n, 0 < n → 0 ≤ gen_range n < n) → holds_sync a db →
  ∃ o, random_tx gen_range db = Ok o ∧
    match o with
    | Some s => s ∈ ready a ∨ (ready a = [] ∧ s ∈ pending a)
    | None => ready a = [] ∧ pending a = []
    end.
Proof.
  intros Hgen [Hp Hr _ _ _ _]. unfold random_tx, ready_txs, pending_txs.
  destruct (random_run _ _ _ Hr gen_range Hgen) as [-> Hsome]. simpl.
  destruct (ready a !! _) as [s|] eqn:Hs; simpl.
  { eexists. split; [done|]. left. by eapply list_elem_of_lookup_2. }
  assert (ready a = []) as Hra by (destruct (ready a); [done|destruct Hsome; [done|congruence]]).
  destruct (random_run _ _ _ Hp gen_range Hgen) as [-> Hsome']. eexists. split; [done|].
  destruct (pending a !! _) as [s|] eqn:Hs'; simpl.
  - right. split; [done|]. by eapply list_elem_of_lookup_2.
  - split; [done|]. destruct (pending a); [done|destruct Hsome'; [done|congruence]].
Qed.

(** ** Sequences of operations *)

Fixpoint exec_syncs (ops : list sync_op) : st Configs (list bool) :=
  match ops with
  | [] => st_ret []
  | op :: ops => let! b := exec_sync op in let! bs := exec_syncs ops in st_ret (b :: bs)
  end.

Fixpoint spec_syncs (ops : list sync_op) (a : sync_state) : list bool * sync_state :=
  match ops with
  | [] => ([], a)
  | op :: ops =>
      let '(b, a) := spec_sync op a in
      let '(bs, a) := spec_syncs ops a in (b :: bs, a)
  end.

Fixpoint sync_ops_ok (ops : list sync_op) (a : sync_state) : Prop :=
  match ops with
  | [] => True
  | op :: ops => sync_ok op a ∧ sync_ops_ok ops (spec_sync op a).2
  end.

Lemma exec_syncs_run ops a db :
  sync_ops_ok ops a → holds_sync a db →
  ∃ db', exec_syncs ops db = (Ok (spec_syncs ops a).1, db') ∧ holds_sync (spec_syncs ops a).2 db'.
Proof.
  revert a db. induction ops as [|op ops IH]; intros a db Hok Hh; [by exists db|].
  destruct Hok as [Hok Hoks]. pose proof (exec_sync_run op a db Hok Hh) as Hrun.
  cbn [spec_syncs exec_syncs]. destruct (spec_sync op a) as [b a1]. destruct Hrun as (db1 & Hex & Hh1).
  destruct (IH a1 db1 Hoks Hh1) as (db2 & Hex2 & Hh2). destruct (spec_syncs ops a1) as [bs a2].
  exists db2. split; [|exact Hh2]. unfold st_bind. by rewrite Hex, Hex2.
Qed.
