(* ===== verification/SyncController.v ===== *)
(** * Downloading one file from its peers

    Model of [node/sync/src/controllers/peers.rs] and [serial.rs], with the
    messages of [context.rs].

    A call reads the clock through [Instant::now()] and [elapsed()]; a handler
    runs in far less than the timeouts, so [now] (in milliseconds) is one
    argument of each call, as are the random choice among peers and the
    announcements that [file_location_cache] holds for the file.  Messages to
    the network are appended to [ctx].  Peer ids and addresses belong to
    [libp2p] and are parameters. *)

From S2P Require Import Prelude Bytes IonianSpec SharedTypes SegmentProof ChunkPool.
Local Open Scope Z_scope.

Definition MAX_CHUNKS_TO_REQUEST : Z := 2 * 1024.
Definition MAX_REQUEST_FAILURES : nat := 3.
Definition PEER_REQUEST_TIMEOUT : Z := 5000.
Definition DOWNLOAD_TIMEOUT : Z := 5000.
Definition WAIT_OUTGOING_CONNECTION_TIMEOUT : Z := 10000.
Definition PEER_CONNECT_TIMEOUT : Z := 5000.
Definition PEER_DISCONNECT_TIMEOUT : Z := 5000.

(** What the controller needs of the log store besides [LogStoreWrite]. *)
Class RangeProofStore (E S : Type) := {
  store_validate : S → Z → ChunkArrayWithProof E → res bool;
}.

Inductive PeerState := Found | Connecting | Connected | Disconnecting | Disconnected.
#[export] Instance PeerState_eq_dec : EqDecision PeerState.
Proof. solve_decision. Defined.

(** [libp2p::swarm::DialError], of which one case matters. *)
Inductive DialError := ConnectionLimit | OtherDialError.

Inductive PeerAction := Fatal | LowToleranceError.

Section Controller.
Context {E : Type} {P : Type} `{Countable P} {A : Type}.

(** ** Peers of a file *)

Record PeerInfo := MkPeerInfo { addr : A; peer_st : PeerState; peer_since : Z }.
Notation SyncPeers := (gmap P PeerInfo).
Implicit Types peers : SyncPeers.

(** [PeerInfo::update_state] *)
Definition info_update_state (now : Z) (new_state : PeerState) (info : PeerInfo) : PeerInfo :=
  MkPeerInfo (addr info) new_state now.

Definition add_new_peer (now : Z) (peer_id : P) (a : A) peers : bool * SyncPeers :=
  match peers !! peer_id with
  | Some _ => (false, peers)
  | None => (true, <[peer_id := MkPeerInfo a Found now]> peers)
  end.

Definition update_state (now : Z) (peer_id : P) (from to : PeerState) peers : option bool * SyncPeers :=
  match peers !! peer_id with
  | None => (None, peers)
  | Some info =>
      if decide (peer_st info = from)
      then (Some true, <[peer_id := info_update_state now to info]> peers)
      else (Some false, peers)
  end.

Definition update_state_force (peer_id : P) (state : PeerState) peers : option PeerState * SyncPeers :=
  match peers !! peer_id with
  | None => (None, peers)
  | Some info =>
      (Some (peer_st info), <[peer_id := MkPeerInfo (addr info) state (peer_since info)]> peers)
  end.

Definition peer_state (peer_id : P) peers : option PeerState := peer_st <$> peers !! peer_id.

(** The peers in [state], as the iterator that [choose] draws from. *)
Definition candidates (state : PeerState) peers : list (P * A) :=
  (λ x : P * PeerInfo, (x.1, addr x.2)) <$>
    filter (λ x : P * PeerInfo, peer_st x.2 = state) (map_to_list peers).

Definition random_peer (choose : list (P * A) → option (P * A)) (state : PeerState) peers
    : option (P * A) := choose (candidates state peers).

Definition count_peers (states : list PeerState) peers : nat :=
  length (filter (λ x : P * PeerInfo, peer_st x.2 ∈ states) (map_to_list peers)).

(** The peers that [SyncPeers::transition] removes. *)
Definition bad_peer (now : Z) (info : PeerInfo) : bool :=
  match peer_st info with
  | Found | Connected => false
  | Connecting => PEER_CONNECT_TIMEOUT <=? now - peer_since info
  | Disconnecting => PEER_DISCONNECT_TIMEOUT <=? now - peer_since info
  | Disconnected => true
  end.
Definition peers_transition (now : Z) peers : SyncPeers :=
  filter (λ x : P * PeerInfo, bad_peer now x.2 = false) peers.

(** ** The controller *)

Inductive FailureReason :=
| DBError (msg : string)
| TxReverted (id : TxID E).

Inductive SyncState :=
| Idle
| FindingPeers (since : Z)
| FoundPeers
| ConnectingPeers
| AwaitingOutgoingConnection (since : Z)
| AwaitingDownload
| Downloading (peer_id : P) (from_chunk to_chunk since : Z)
| Completed
| Failed (reason : FailureReason).

(** The messages the controller sends. *)
Inductive NetworkMessage :=
| PublishFindFile (tx_id : TxID E)
| DialPeer (address : A) (peer_id : P)
| SendGetChunks (peer_id : P) (tx_id : TxID E) (index_start index_end : Z)
| ReportPeer (peer_id : P) (action : PeerAction) (msg : string).

Record Controller := MkController {
  tx_id : TxID E;
  ctl_since : Z;
  num_chunks : Z;
  next_chunk : Z;
  failures : nat;
  state : SyncState;
  peers : SyncPeers;
  ctx : list NetworkMessage;
}.
Implicit Types c : Controller.

Definition Controller_new (now : Z) (id : TxID E) (num_chunks : Z) : Controller :=
  MkController id now num_chunks 0 0 Idle ∅ [].

Definition set_state (s : SyncState) c : Controller :=
  MkController (tx_id c) (ctl_since c) (num_chunks c) (next_chunk c) (failures c) s (peers c) (ctx c).
Definition set_peers (ps : SyncPeers) c : Controller :=
  MkController (tx_id c) (ctl_since c) (num_chunks c) (next_chunk c) (failures c) (state c) ps (ctx c).
Definition set_progress (n : Z) (f : nat) c : Controller :=
  MkController (tx_id c) (ctl_since c) (num_chunks c) n f (state c) (peers c) (ctx c).
Definition send (msg : NetworkMessage) c : Controller :=
  MkController (tx_id c) (ctl_since c) (num_chunks c) (next_chunk c) (failures c) (state c) (peers c)
    (ctx c ++ [msg]).

(** What a call reads from outside: the clock, the random choice, and the
    announcements of the file, each with the peer id pushed to its address. *)
Record Env := MkEnv {
  now : Z;
  choose : list (P * A) → option (P * A);
  announcements : list (P * A);
}.
Implicit Types e : Env.

Definition reset e c : Controller :=
  set_peers (peers_transition (now e) (peers c)) (set_state Idle (set_progress 0 0 c)).

Definition on_peer_found e (peer_id : P) (a : A) c : bool * Controller :=
  let '(added, ps) := add_new_peer (now e) peer_id a (peers c) in (added, set_peers ps c).

Definition try_find_peers e c : Controller :=
  let '(found_new_peer, c) :=
    foldl (λ acc x, let '(added, c) := on_peer_found e x.1 x.2 acc.2 in (added || acc.1, c))
      (false, c) (announcements e) in
  let c := if found_new_peer : bool then c else send (PublishFindFile (tx_id c)) c in
  match state c with
  | FindingPeers _ => c
  | _ => set_state (FindingPeers (now e)) c
  end.

Definition try_connect e c : Controller :=
  match random_peer (choose e) Found (peers c) with
  | None => set_state Idle c
  | Some (peer_id, address) =>
      let c := send (DialPeer address peer_id) c in
      let c := set_peers (update_state (now e) peer_id Found Connecting (peers c)).2 c in
      set_state ConnectingPeers c
  end.

(** [from_chunk + MAX_CHUNKS_TO_REQUEST] does not overflow: [num_chunks] is the
    size of a file in bytes over 256, and [next_chunk] is at most that. *)
Definition try_request_next e c : Controller :=
  match random_peer (choose e) Connected (peers c) with
  | None => set_state Idle c
  | Some (peer_id, _) =>
      let from_chunk := next_chunk c in
      let to_chunk := Z.min (from_chunk + MAX_CHUNKS_TO_REQUEST) (num_chunks c) in
      let c := send (SendGetChunks peer_id (tx_id c) from_chunk to_chunk) c in
      set_state (Downloading peer_id from_chunk to_chunk (now e)) c
  end.

Definition ban_peer e (peer_id : P) (reason : string) c : Controller :=
  let c := send (ReportPeer peer_id Fatal reason) c in
  set_peers (update_state (now e) peer_id Connected Disconnecting (peers c)).2 c.

Definition on_dail_failed e (peer_id : P) (err : DialError) c : Controller :=
  match err with
  | ConnectionLimit =>
      let '(r, ps) := update_state (now e) peer_id Connecting Found (peers c) in
      if decide (r = Some true)
      then set_state (AwaitingOutgoingConnection (now e)) (set_peers ps c)
      else set_peers ps c
  | OtherDialError =>
      let '(r, ps) := update_state (now e) peer_id Connecting Disconnected (peers c) in
      if decide (r = Some true) then set_state Idle (set_peers ps c) else set_peers ps c
  end.

Definition on_peer_connected e (peer_id : P) c : Controller :=
  set_peers (update_state (now e) peer_id Connecting Connected (peers c)).2 c.

Definition on_peer_disconnected (peer_id : P) c : Controller :=
  set_peers (update_state_force peer_id Disconnected (peers c)).2 c.

Definition handle_on_response_mismatch (from_peer_id : P) c : bool * Controller :=
  match state c with
  | Downloading peer_id _ _ _ =>
      if decide (from_peer_id = peer_id) then (false, c)
      else (true, send (ReportPeer from_peer_id LowToleranceError "Peer id mismatch") c)
  | _ => (true, send (ReportPeer from_peer_id LowToleranceError "Sync state mismatch") c)
  end.

Definition handle_response_failure e (peer_id : P) (reason : string) c : Controller :=
  let c := send (ReportPeer peer_id LowToleranceError reason) c in
  let c := set_progress (next_chunk c) (S (failures c)) c in
  if (failures c <=? MAX_REQUEST_FAILURES)%nat then set_state AwaitingDownload c
  else set_state Idle (ban_peer e peer_id reason c).

Definition on_request_failed e (peer_id : P) c : Controller :=
  let '(mismatch, c) := handle_on_response_mismatch peer_id c in
  if mismatch : bool then c else handle_response_failure e peer_id "RPC Error" c.

(** One turn of the loop of [transition]: whether it goes on, and the state
    it leaves. *)
Definition transition_step e c : bool * Controller :=
  match state c with
  | Idle =>
      if (0 <? count_peers [Found; Connecting; Connected] (peers c))%nat
      then (true, set_state (FindingPeers (now e)) c)
      else (true, try_find_peers e c)
  | FindingPeers since =>
      if (0 <? count_peers [Found; Connecting; Connected] (peers c))%nat
      then (true, set_state FoundPeers c)
      else if PEER_REQUEST_TIMEOUT <=? now e - since then (false, try_find_peers e c)
      else (false, c)
  | FoundPeers =>
      if (0 <? count_peers [Connecting; Connected] (peers c))%nat
      then (true, set_state ConnectingPeers c)
      else (true, try_connect e c)
  | ConnectingPeers =>
      if (0 <? count_peers [Connected] (peers c))%nat then (true, set_state AwaitingDownload c)
      else if (count_peers [Connecting] (peers c) =? 0)%nat then (true, set_state Idle c)
      else (false, c)
  | AwaitingOutgoingConnection since =>
      if now e - since <? WAIT_OUTGOING_CONNECTION_TIMEOUT then (false, c)
      else (true, set_state Idle c)
  | AwaitingDownload => (true, try_request_next e c)
  | Downloading peer_id _ _ since =>
      if decide (peer_state peer_id (peers c) ≠ Some Connected) then (true, set_state Idle c)
      else if DOWNLOAD_TIMEOUT <=? now e - since
      then (true, handle_response_failure e peer_id "RPC timeout" c)
      else (false, c)
  | Completed | Failed _ => (false, c)
  end.

Fixpoint transition_loop (fuel : nat) e c : option Controller :=
  match fuel with
  | O => None
  | S fuel =>
      match transition_step e c with
      | (true, c) => transition_loop fuel e c
      | (false, c) => Some c
      end
  end.

(** The loop runs at most [TRANSITION_FUEL] times, see [transition_total]. *)
Definition TRANSITION_FUEL : nat := 10.

Definition transition e c : res Controller :=
  let c := set_peers (peers_transition (now e) (peers c)) c in
  expect (transition_loop TRANSITION_FUEL e c) "transition does not return".

(** ** Responses *)

Section Responses.
Context {T : Type} `{LogStoreWrite E T} `{RangeProofStore E T}.

Definition modify_ctl (f : Controller → Controller) : st (Controller * T) unit :=
  st_modify (λ s, (f s.1, s.2)).
Definition call_store {X} (m : st T X) : st (Controller * T) X :=
  st_zoom snd (λ t s, (s.1, t)) m.

(** The tail of [on_response]: the chunks are valid. *)
Definition store_response (to_chunk : Z) (chunks : ChunkArray) : st (Controller * T) unit :=
  modify_ctl (λ c, set_progress (next_chunk c) 0 c) ;;
  let! s := st_get in
  let id := tx_id s.1 in
  let! put := call_store (spawned (store_put_chunks (id_seq id) (id_hash id) chunks)) in
  match put with
  | Ok true =>
      modify_ctl (λ c, set_progress to_chunk (failures c) c) ;;
      if to_chunk <? num_chunks s.1 then modify_ctl (set_state Idle) else
      let! fin := call_store (spawned (store_finalize (id_seq id) (id_hash id))) in
      match fin with
      | Ok true => modify_ctl (set_state Completed)
      | Ok false => modify_ctl (set_state (Failed (TxReverted id)))
      | Err msg | Panic msg => modify_ctl (set_state (Failed (DBError msg)))
      end
  | Ok false => modify_ctl (set_state (Failed (TxReverted id)))
  | Err msg | Panic msg => modify_ctl (set_state (Failed (DBError msg)))
  end.

Definition on_response e (from_peer_id : P) (response : ChunkArrayWithProof E)
    : st (Controller * T) unit :=
  let! s := st_get in
  let '(mismatch, c) := handle_on_response_mismatch from_peer_id s.1 in
  modify_ctl (λ _, c) ;;
  if mismatch : bool then st_ret tt else
  match state c with
  | Downloading _ from_chunk to_chunk _ =>
      st_lift (assert (from_chunk <? to_chunk) "Invalid chunk boundaries") ;;
      let data_len := zlen (ca_data (cp_chunks response)) in
      if (data_len =? 0) || (0 <? data_len mod CHUNK_SIZE) then
        modify_ctl (λ c, set_state Idle (ban_peer e from_peer_id "Invalid chunk response data length" c))
      else
      let start := start_index (cp_chunks response) in
      let! end_index := st_lift (uadd 64 start (data_len / CHUNK_SIZE)) in
      if negb (start =? from_chunk) || negb (end_index =? to_chunk) then
        modify_ctl (λ c, set_state Idle (ban_peer e from_peer_id "Invalid chunk response range" c))
      else
      let! valid := (λ s, match store_validate s.2 (id_seq (tx_id s.1)) response with
                          | Panic msg => (Panic msg, s)
                          | r => (Ok r, s)
                          end) in
      match valid with
      | Ok true => store_response to_chunk (cp_chunks response)
      | Ok false => modify_ctl (set_state AwaitingDownload)
      | _ => modify_ctl (λ c, set_state Idle (ban_peer e from_peer_id "Chunk array validation failed" c))
      end
  | _ => st_ret tt
  end.

End Responses.
End Controller.

Arguments PeerInfo A : clear implicits.
Notation SyncPeers P A := (gmap P (PeerInfo A)).
Arguments FailureReason E : clear implicits.
Arguments SyncState E P : clear implicits.
Arguments NetworkMessage E P A : clear implicits.
Arguments Controller E P {_ _} A.
Arguments Env P A : clear implicits.
