(* ===== verification/SyncControllerProofs.v ===== *)
(** * The download controller: termination, progress, safety

    [transition] returns after at most ten turns whatever the peers do; the
    chunks asked for always follow the chunks stored; the store is written
    only with a validated answer to the pending request. *)

From S2P Require Import Prelude Bytes IonianSpec SharedTypes SegmentProof ChunkPool SyncController.
Local Open Scope Z_scope.

Section Proofs.
Context {E : Type} {P : Type} `{Countable P} {A : Type}.
Implicit Types (c : Controller E P A) (e : Env P A) (ps : SyncPeers P A).

(** [IteratorRandom::choose]: an element of the iterator, [None] only when it
    is empty. *)
Definition chooses (ch : list (P * A) → option (P * A)) : Prop :=
  (∀ l x, ch l = Some x → x ∈ l) ∧ (∀ l, ch l = None → l = []).

(** ** Peers *)

Definition some_peer (states : list PeerState) ps : Prop :=
  ∃ p info, ps !! p = Some info ∧ peer_st info ∈ states.

Lemma count_peers_pos states ps : (0 < count_peers states ps)%nat ↔ some_peer states ps.
Proof.
  unfold count_peers, some_peer. split.
  - destruct (filter _ _) as [|[p info] l] eqn:Hl; simpl; [lia|]. intros _.
    assert ((p, info) ∈ filter (λ x : P * PeerInfo A, peer_st x.2 ∈ states) (map_to_list ps)) as Hin.
    { rewrite Hl. by left. }
    apply list_elem_of_filter in Hin as [Hs Hin]. apply elem_of_map_to_list in Hin. eauto.
  - intros (p & info & Hp & Hs).
    assert ((p, info) ∈ filter (λ x : P * PeerInfo A, peer_st x.2 ∈ states) (map_to_list ps)) as Hin.
    { apply list_elem_of_filter. split; [done|]. by apply elem_of_map_to_list. }
    destruct (filter _ _); [by apply not_elem_of_nil in Hin|simpl; lia].
Qed.

Lemma count_peers_zero states ps : count_peers states ps = 0%nat ↔ ¬ some_peer states ps.
Proof. rewrite <- count_peers_pos. lia. Qed.

(** Case analysis on a count of peers. *)
Lemma count_ltb states ps :
  (0 <? count_peers states ps)%nat = true ∧ some_peer states ps ∨
  (0 <? count_peers states ps)%nat = false ∧ ¬ some_peer states ps.
Proof.
  destruct (0 <? count_peers states ps)%nat eqn:Hc.
  - left. split; [done|]. apply count_peers_pos. by apply Nat.ltb_lt.
  - right. split; [done|]. rewrite <- count_peers_pos. apply Nat.ltb_ge in Hc. lia.
Qed.

Lemma some_peer_mono s s' ps : s ⊆ s' → some_peer s ps → some_peer s' ps.
Proof. intros Hs (p & info & Hp & Hin). exists p, info. auto. Qed.

Lemma elem_of_candidates p a s ps :
  (p, a) ∈ candidates s ps ↔ ∃ info, ps !! p = Some info ∧ peer_st info = s ∧ addr info = a.
Proof.
  unfold candidates. split.
  - intros ([q info] & [= -> ->] & Hin)%list_elem_of_fmap_1.
    apply list_elem_of_filter in Hin as [Hs Hin]. apply elem_of_map_to_list in Hin. eauto.
  - intros (info & Hp & Hs & <-).
    apply (list_elem_of_fmap_2 (λ x : P * PeerInfo A, (x.1, addr x.2)) _ (p, info)).
    apply list_elem_of_filter. split; [done|]. by apply elem_of_map_to_list.
Qed.

Lemma random_peer_some e s ps :
  chooses (choose e) → some_peer [s] ps →
  ∃ p a info, random_peer (choose e) s ps = Some (p, a) ∧ ps !! p = Some info ∧ peer_st info = s.
Proof.
  intros [Hin Hne] (p & info & Hp & Hs%list_elem_of_singleton). unfold random_peer.
  destruct (choose e (candidates s ps)) as [[q a]|] eqn:Hc.
  - destruct (proj1 (elem_of_candidates _ _ _ _) (Hin _ _ Hc)) as (info' & ? & ? & _). eauto 10.
  - exfalso. apply Hne in Hc.
    assert ((p, addr info) ∈ candidates s ps) as Hel by (apply elem_of_candidates; eauto).
    rewrite Hc in Hel. by apply not_elem_of_nil in Hel.
Qed.

Lemma random_peer_none e s ps :
  chooses (choose e) → ¬ some_peer [s] ps → random_peer (choose e) s ps = None.
Proof.
  intros [Hin _] Hno. unfold random_peer. destruct (choose e _) as [[q a]|] eqn:Hc; [|done].
  apply Hin, elem_of_candidates in Hc as (info & Hp & Hs & _). destruct Hno.
  exists q, info. split; [done|]. by apply list_elem_of_singleton.
Qed.

(** A random peer is one of the peers in the state. *)
Lemma random_peer_in e s ps p a :
  chooses (choose e) → random_peer (choose e) s ps = Some (p, a) → peer_state p ps = Some s.
Proof.
  intros [Hin _] Hr. apply Hin, elem_of_candidates in Hr as (info & Hp & Hs & _).
  unfold peer_state. rewrite Hp. simpl. by rewrite Hs.
Qed.

(** ** The loop of [transition] returns *)

Definition returns (n : nat) e c : Prop := is_Some (transition_loop n e c).

Lemma transition_loop_mono n m e c c' :
  (n ≤ m)%nat → transition_loop n e c = Some c' → transition_loop m e c = Some c'.
Proof.
  intros Hle. revert m c Hle. induction n as [|n IH]; intros m c Hle Hr; [done|].
  destruct m as [|m]; [lia|]. simpl in *. destruct (transition_step e c) as [[] c1]; [|done]. apply IH; [lia|done].
Qed.

Lemma returns_mono n m e c : (n ≤ m)%nat → returns n e c → returns m e c.
Proof. intros Hle [c' Hc]. exists c'. by eapply transition_loop_mono. Qed.

Lemma returns_step n e c c' :
  transition_step e c = (true, c') → returns n e c' → returns (S n) e c.
Proof. intros Hs Hr. unfold returns. simpl. by rewrite Hs. Qed.

Lemma returns_stop n e c c' : transition_step e c = (false, c') → returns (S n) e c.
Proof. intros Hs. unfold returns. simpl. by rewrite Hs. Qed.

Section Termination.
Context (e : Env P A) (Hch : chooses (choose e)).

Lemma downloading_returns c p f t :
  state c = Downloading p f t (now e) → peer_state p (peers c) = Some Connected → returns 1 e c.
Proof.
  intros Hs Hp. eapply returns_stop. unfold transition_step. rewrite Hs, decide_False by auto.
  by rewrite Z.sub_diag.
Qed.

Lemma awaiting_returns c :
  state c = AwaitingDownload → some_peer [Connected] (peers c) → returns 2 e c.
Proof.
  intros Hs Hp. destruct (random_peer_some e _ _ Hch Hp) as (p & a & info & Hr & Hi & Hst).
  eapply returns_step; [unfold transition_step; rewrite Hs; reflexivity|].
  unfold try_request_next. rewrite Hr. eapply downloading_returns; [reflexivity|].
  simpl. unfold peer_state. rewrite Hi. simpl. by rewrite Hst.
Qed.

Lemma connecting_returns c :
  state c = ConnectingPeers → some_peer [Connecting; Connected] (peers c) → returns 3 e c.
Proof.
  intros Hs Hp. destruct (count_ltb [Connected] (peers c)) as [[Hc Hsp]|[Hc Hsp]].
  - eapply returns_step; [unfold transition_step; rewrite Hs, Hc; reflexivity|].
    by apply awaiting_returns.
  - eapply returns_stop. unfold transition_step. rewrite Hs, Hc.
    rewrite (proj2 (Nat.eqb_neq _ _)); [reflexivity|]. intros Hz%count_peers_zero. apply Hz.
    destruct Hp as (p & info & Hp & Hin). exists p, info. split; [done|].
    apply elem_of_cons in Hin as [->|Hin]; [by left|]. destruct Hsp. by exists p, info.
Qed.

Lemma found_returns c :
  state c = FoundPeers → some_peer [Found; Connecting; Connected] (peers c) → returns 4 e c.
Proof.
  intros Hs Hp. destruct (count_ltb [Connecting; Connected] (peers c)) as [[Hc Hsp]|[Hc Hsp]].
  - eapply returns_step; [unfold transition_step; rewrite Hs, Hc; reflexivity|].
    by apply connecting_returns.
  - assert (some_peer [Found] (peers c)) as Hf.
    { destruct Hp as (p & info & Hp & Hin). exists p, info. split; [done|].
      apply elem_of_cons in Hin as [->|Hin]; [by left|]. destruct Hsp. by exists p, info. }
    destruct (random_peer_some e _ _ Hch Hf) as (p & a & info & Hr & Hi & Hst).
    eapply returns_step; [unfold transition_step; rewrite Hs, Hc; reflexivity|].
    unfold try_connect. rewrite Hr. apply connecting_returns; [done|].
    exists p, (info_update_state (now e) Connecting info). simpl. unfold update_state.
    rewrite Hi, decide_True by done. simpl. rewrite lookup_insert_eq. split; [done|by left].
Qed.

Lemma finding_returns c since : state c = FindingPeers since → returns 5 e c.
Proof.
  intros Hs. destruct (count_ltb [Found; Connecting; Connected] (peers c)) as [[Hc Hsp]|[Hc Hsp]].
  - eapply returns_step; [unfold transition_step; rewrite Hs, Hc; reflexivity|].
    by apply found_returns.
  - destruct (PEER_REQUEST_TIMEOUT <=? now e - since) eqn:Ht;
    (eapply returns_stop; unfold transition_step; rewrite Hs, Hc, Ht; reflexivity).
Qed.

Lemma try_find_peers_state c : ∃ since, state (try_find_peers e c) = FindingPeers since.
Proof.
  unfold try_find_peers. destruct (foldl _ _ _) as [found c']. destruct found; simpl;
  destruct (state c') eqn:Hs; simpl; eauto.
Qed.

Lemma idle_returns c : state c = Idle → returns 6 e c.
Proof.
  intros Hs. destruct (count_ltb [Found; Connecting; Connected] (peers c)) as [[Hc Hsp]|[Hc Hsp]].
  - eapply returns_step; [unfold transition_step; rewrite Hs, Hc; reflexivity|].
    by eapply finding_returns.
  - eapply returns_step; [unfold transition_step; rewrite Hs, Hc; reflexivity|].
    destruct (try_find_peers_state c) as [since Hsince]. by eapply finding_returns.
Qed.

Lemma any_awaiting_returns c : state c = AwaitingDownload → returns 7 e c.
Proof.
  intros Hs. destruct (count_ltb [Connected] (peers c)) as [[_ Hsp]|[_ Hsp]].
  - apply (returns_mono 2); [lia|]. by apply awaiting_returns.
  - eapply returns_step; [unfold transition_step; rewrite Hs; reflexivity|].
    unfold try_request_next. rewrite random_peer_none by done. by apply idle_returns.
Qed.

Lemma any_found_returns c : state c = FoundPeers → returns 7 e c.
Proof.
  intros Hs. destruct (count_ltb [Found; Connecting; Connected] (peers c)) as [[_ Hsp]|[_ Hsp]].
  - apply (returns_mono 4); [lia|]. by apply found_returns.
  - destruct (count_ltb [Connecting; Connected] (peers c)) as [[_ Hcc]|[Hc _]].
    { destruct Hsp. revert Hcc. apply some_peer_mono. set_solver. }
    eapply returns_step; [unfold transition_step; rewrite Hs, Hc; reflexivity|].
    unfold try_connect. rewrite random_peer_none; [by apply idle_returns|done|].
    intros Hf. apply Hsp. revert Hf. apply some_peer_mono. set_solver.
Qed.

Lemma any_connecting_returns c : state c = ConnectingPeers → returns 7 e c.
Proof.
  intros Hs. destruct (count_ltb [Connected] (peers c)) as [[Hc Hsp]|[Hc Hsp]].
  - apply (returns_mono 3); [lia|]. apply connecting_returns; [done|].
    revert Hsp. apply some_peer_mono. set_solver.
  - destruct (count_peers [Connecting] (peers c) =? 0)%nat eqn:Hz.
    + eapply returns_step; [unfold transition_step; rewrite Hs, Hc, Hz; reflexivity|].
      by apply idle_returns.
    + eapply returns_stop. unfold transition_step. rewrite Hs, Hc, Hz. reflexivity.
Qed.

Lemma failure_returns p reason c : returns 7 e (handle_response_failure e p reason c).
Proof.
  unfold handle_response_failure. destruct (_ <=? _)%nat; [by apply any_awaiting_returns|].
  apply (returns_mono 6); [lia|]. by apply idle_returns.
Qed.

Lemma transition_returns c : returns 8 e c.
Proof.
  destruct (state c) as [|since| | |since| |p f t since| |reason] eqn:Hs.
  - apply (returns_mono 6); [lia|]. by apply idle_returns.
  - apply (returns_mono 5); [lia|]. by eapply finding_returns.
  - apply (returns_mono 7); [lia|]. by apply any_found_returns.
  - apply (returns_mono 7); [lia|]. by apply any_connecting_returns.
  - destruct (now e - since <? WAIT_OUTGOING_CONNECTION_TIMEOUT) eqn:Ht.
    + eapply returns_stop. unfold transition_step. rewrite Hs, Ht. reflexivity.
    + eapply returns_step; [unfold transition_step; rewrite Hs, Ht; reflexivity|].
      apply (returns_mono 6); [lia|]. by apply idle_returns.
  - apply (returns_mono 7); [lia|]. by apply any_awaiting_returns.
  - destruct (decide (peer_state p (peers c) = Some Connected)) as [Hp|Hp].
    + destruct (DOWNLOAD_TIMEOUT <=? now e - since) eqn:Ht.
      * eapply returns_step; [unfold transition_step; rewrite Hs, decide_False, Ht by auto; reflexivity|].
        apply failure_returns.
      * eapply returns_stop. unfold transition_step. rewrite Hs, decide_False, Ht by auto. reflexivity.
    + eapply returns_step; [unfold transition_step; rewrite Hs, decide_True by done; reflexivity|].
      apply (returns_mono 6); [lia|]. by apply idle_returns.
  - eapply returns_stop. unfold transition_step. rewrite Hs. reflexivity.
  - eapply returns_stop. unfold transition_step. rewrite Hs. reflexivity.
Qed.

Lemma transition_run c :
  ∃ c', transition e c = Ok c' ∧
    transition_loop TRANSITION_FUEL e (set_peers (peers_transition (now e) (peers c)) c) = Some c'.
Proof.
  destruct (returns_mono 8 TRANSITION_FUEL _ _ ltac:(unfold TRANSITION_FUEL; lia)
              (transition_returns (set_peers (peers_transition (now e) (peers c)) c))) as [c' Hc'].
  exists c'. split; [|done]. unfold transition. by rewrite Hc'.
Qed.

End Termination.

(** ** Well-formed controllers *)

(** The chunks below [next_chunk] are stored; a download asks for the chunks
    that follow, at most 2048 of them; a file is complete when none follow. *)
Definition ctl_wf c : Prop :=
  0 ≤ next_chunk c ≤ num_chunks c ∧
  match state c with
  | Downloading _ from_chunk to_chunk _ =>
      from_chunk = next_chunk c ∧ to_chunk = Z.min (next_chunk c + MAX_CHUNKS_TO_REQUEST) (num_chunks c) ∧
      next_chunk c < num_chunks c
  | Completed => next_chunk c = num_chunks c
  | Failed _ => 0 < num_chunks c
  | _ => next_chunk c < num_chunks c
  end.

(** At most one peer is being connected to, and only while none is connected. *)
Definition peers_wf ps : Prop :=
  ∀ p q ip iq, ps !! p = Some ip → ps !! q = Some iq → peer_st ip = Connecting → q ≠ p →
    peer_st iq ≠ Connecting ∧ peer_st iq ≠ Connected.

Definition connecting ps : Prop := ∃ p info, ps !! p = Some info ∧ peer_st info = Connecting.

Record ctl_inv c : Prop := {
  ci_wf : ctl_wf c;
  ci_peers : peers_wf (peers c);
  ci_connecting : connecting (peers c) → state c = ConnectingPeers }.

(** Peers change without any of them starting to connect. *)
Definition no_new_connection ps ps' : Prop :=
  ∀ p info', ps' !! p = Some info' → (peer_st info' = Connecting ∨ peer_st info' = Connected) →
    ∃ info, ps !! p = Some info ∧ peer_st info = peer_st info'.

Lemma no_new_refl ps : no_new_connection ps ps.
Proof. intros p info Hp _. eauto. Qed.

Lemma no_new_trans ps1 ps2 ps3 :
  no_new_connection ps1 ps2 → no_new_connection ps2 ps3 → no_new_connection ps1 ps3.
Proof.
  intros H12 H23 p i3 Hp Hs. destruct (H23 p i3 Hp Hs) as (i2 & Hp2 & Hs2).
  rewrite <- Hs2 in Hs |- *. eauto.
Qed.

Lemma no_new_connecting ps ps' : no_new_connection ps ps' → connecting ps' → connecting ps.
Proof.
  intros Hn (p & info & Hp & Hs). destruct (Hn p info Hp (or_introl Hs)) as (i & Hi & His).
  exists p, i. split; [done|congruence].
Qed.

Lemma no_new_peers_wf ps ps' : no_new_connection ps ps' → peers_wf ps → peers_wf ps'.
Proof.
  intros Hn Hwf p q ip iq Hp Hq Hc Hne.
  destruct (Hn p ip Hp (or_introl Hc)) as (ip0 & Hp0 & Hs0).
  assert (∀ s, peer_st iq = s → s = Connecting ∨ s = Connected → False) as Hno.
  { intros s <- Hs. destruct (Hn q iq Hq Hs) as (iq0 & Hq0 & Hsq).
    destruct (Hwf p q ip0 iq0 Hp0 Hq0 ltac:(congruence) Hne) as [H1 H2].
    rewrite Hsq in H1, H2. tauto. }
  split; intros Hs; eapply Hno; eauto.
Qed.

Lemma no_new_insert ps p info :
  peer_st info ≠ Connecting → peer_st info ≠ Connected → no_new_connection ps (<[p := info]> ps).
Proof.
  intros H1 H2 q info' Hq Hs. apply lookup_insert_Some in Hq as [[-> <-]|[? Hq]]; [tauto|eauto].
Qed.

Lemma no_new_add now p a ps : no_new_connection ps (add_new_peer now p a ps).2.
Proof. unfold add_new_peer. destruct (ps !! p); [apply no_new_refl|by apply no_new_insert]. Qed.

Lemma no_new_update now p from to ps :
  to ≠ Connecting → to ≠ Connected → no_new_connection ps (update_state now p from to ps).2.
Proof.
  intros H1 H2. unfold update_state. destruct (ps !! p) as [info|]; [|apply no_new_refl].
  case_decide; [by apply no_new_insert|apply no_new_refl].
Qed.

Lemma no_new_force p ps : no_new_connection ps (update_state_force p Disconnected ps).2.
Proof.
  unfold update_state_force. destruct (ps !! p); [by apply no_new_insert|apply no_new_refl].
Qed.

Lemma no_new_transition now ps : no_new_connection ps (peers_transition now ps).
Proof. intros p info [Hp _]%map_lookup_filter_Some _. eauto. Qed.

#[local] Hint Resolve no_new_refl no_new_add no_new_update no_new_force no_new_transition : core.

(** A change of state and peers that starts no connection keeps the invariant
    when the new state fits and no connection is pending. *)
Lemma ctl_inv_change c c' :
  ctl_inv c → no_new_connection (peers c) (peers c') → ctl_wf c' →
  (connecting (peers c') → state c' = ConnectingPeers) → ctl_inv c'.
Proof. intros [Hwf Hp Hc] Hn Hwf' Hc'. split; [done| |done]. by eapply no_new_peers_wf. Qed.

(** When the state is not [ConnectingPeers], it may become any that fits. *)
Lemma ctl_inv_quiet c c' :
  ctl_inv c → state c ≠ ConnectingPeers → no_new_connection (peers c) (peers c') → ctl_wf c' → ctl_inv c'.
Proof.
  intros Hi Hs Hn Hwf. eapply ctl_inv_change; [done..|]. intros Hc%(no_new_connecting _ _ Hn).
  by apply Hi in Hc.
Qed.

(** Peers change, the rest stays. *)
Lemma ctl_inv_peers c ps : ctl_inv c → no_new_connection (peers c) ps → ctl_inv (set_peers ps c).
Proof.
  intros Hi Hn. eapply ctl_inv_change; [done|done|apply Hi|]. simpl.
  intros Hc%(no_new_connecting _ _ Hn). by apply Hi.
Qed.

Lemma ctl_inv_send c m : ctl_inv c → ctl_inv (send m c).
Proof. intros [? ? ?]. by split. Qed.

(** ** The handlers keep the invariant *)

(** Only peers and messages change, and no connection starts. *)
Record peers_only c c' : Prop := {
  po_id : tx_id c' = tx_id c;
  po_num : num_chunks c' = num_chunks c;
  po_next : next_chunk c' = next_chunk c;
  po_state : state c' = state c;
  po_peers : no_new_connection (peers c) (peers c') }.

Lemma peers_only_refl c : peers_only c c.
Proof. by split. Qed.
Lemma peers_only_trans c1 c2 c3 : peers_only c1 c2 → peers_only c2 c3 → peers_only c1 c3.
Proof. intros [] []. split; try congruence. by eapply no_new_trans. Qed.

Lemma announced_peers e l acc :
  peers_only acc.2
    (foldl (λ acc x, let '(added, c) := on_peer_found e x.1 x.2 acc.2 in (added || acc.1, c)) acc l).2.
Proof.
  revert acc. induction l as [|[p a] l IH]; intros [b c]; [apply peers_only_refl|]. simpl.
  eapply peers_only_trans; [|apply IH]. unfold on_peer_found.
  pose proof (no_new_add (now e) p a (peers c)) as Hn.
  destruct (add_new_peer _ _ _ _) as [added ps]. by split.
Qed.

(** Looking for peers moves to [FindingPeers]. *)
Lemma try_find_peers_run e c :
  ∃ c' since, try_find_peers e c = set_state (FindingPeers since) c' ∧ peers_only c c' ∧
    (since = now e ∨ state c = FindingPeers since).
Proof.
  unfold try_find_peers. pose proof (announced_peers e (announcements e) (false, c)) as Hp.
  destruct (foldl _ _ _) as [found c1]. simpl in *.
  set (c2 := if found then c1 else send (PublishFindFile (tx_id c1)) c1).
  assert (peers_only c c2) as Hp2 by (destruct found; destruct Hp; by split).
  clearbody c2.
  destruct (state c2) as [|since| | | | | | |] eqn:Hs; try (by exists c2, (now e); auto).
  exists c2, since. split_and!; [|done|right; by rewrite <- (po_state _ _ Hp2)].
  unfold set_state. rewrite <- Hs. by destruct c2.
Qed.

(** The states in which the next chunks are still to be asked for. *)
Definition searching (s : SyncState E P) : Prop :=
  match s with
  | Idle | FindingPeers _ | FoundPeers | ConnectingPeers | AwaitingOutgoingConnection _
  | AwaitingDownload => True
  | _ => False
  end.

Lemma wf_searching c s :
  0 ≤ next_chunk c < num_chunks c → searching s → ctl_wf (set_state s c).
Proof. intros Hn Hs. unfold ctl_wf. simpl. split; [lia|]. destruct s; simpl in *; try done; lia. Qed.

Lemma wf_next c : ctl_wf c → state c ≠ Completed → (∀ r, state c ≠ Failed r) → 0 ≤ next_chunk c < num_chunks c.
Proof.
  intros [Hn Hs] Hc Hf. destruct (state c); try lia; [by destruct Hc|by destruct (Hf reason)].
Qed.

Lemma try_find_peers_inv e c :
  ctl_inv c → state c = Idle ∨ (∃ since, state c = FindingPeers since) → ctl_inv (try_find_peers e c).
Proof.
  intros Hi Hs. destruct (try_find_peers_run e c) as (c' & since & -> & [Hid Hnum Hnext Hst Hp] & _).
  assert (0 ≤ next_chunk c < num_chunks c) as Hn.
  { apply wf_next; [apply Hi|..]; destruct Hs as [Hs|[? Hs]]; by rewrite Hs. }
  apply (ctl_inv_quiet c); [done|by destruct Hs as [->|[? ->]]|done|].
  apply wf_searching; [by rewrite Hnext, Hnum|done].
Qed.

Lemma try_connect_inv e c :
  chooses (choose e) → ctl_inv c → state c = FoundPeers → ¬ some_peer [Connecting; Connected] (peers c) →
  ctl_inv (try_connect e c).
Proof.
  intros Hch Hi Hs Hno. assert (0 ≤ next_chunk c < num_chunks c) as Hn.
  { apply wf_next; [apply Hi|..]; by rewrite Hs. }
  unfold try_connect. destruct (random_peer _ _ _) as [[p a]|] eqn:Hr.
  - apply random_peer_in in Hr; [|done]. split; [by apply wf_searching| |done].
    simpl. unfold update_state, peer_state in *.
    destruct (peers c !! p) as [info|] eqn:Hp; [|done]. simpl in Hr. injection Hr as Hst.
    rewrite decide_True by done. simpl.
    assert (∀ q iq, peers c !! q = Some iq → peer_st iq ≠ Connecting ∧ peer_st iq ≠ Connected) as Hq.
    { intros q iq Hq. split; intros Hsq; apply Hno; exists q, iq; (split; [done|]); rewrite Hsq; set_solver. }
    intros q q' iq iq' [[<- <-]|[? Hiq]]%lookup_insert_Some [[<- <-]|[? Hiq']]%lookup_insert_Some Hc Hne;
      [done|by eapply Hq| |by eapply Hq].
    by destruct (Hq _ _ Hiq) as [? _].
  - apply (ctl_inv_quiet c); [done|by rewrite Hs|done|by apply wf_searching].
Qed.

Lemma try_request_next_inv e c : ctl_inv c → state c = AwaitingDownload → ctl_inv (try_request_next e c).
Proof.
  intros Hi Hs. assert (0 ≤ next_chunk c < num_chunks c) as Hn.
  { apply wf_next; [apply Hi|..]; by rewrite Hs. }
  unfold try_request_next. destruct (random_peer _ _ _) as [[p a]|];
  (apply (ctl_inv_quiet c); [done|by rewrite Hs|done|]); [|by apply wf_searching].
  split; simpl; [lia|]. split_and!; [done|done|lia].
Qed.

Lemma handle_response_failure_inv e p reason c :
  ctl_inv c → state c ≠ ConnectingPeers → 0 ≤ next_chunk c < num_chunks c →
  ctl_inv (handle_response_failure e p reason c).
Proof.
  intros Hi Hs Hn. unfold handle_response_failure. destruct (_ <=? _)%nat;
  (apply (ctl_inv_quiet c); [done|done| |by apply wf_searching]); simpl; [done|].
  by apply no_new_update.
Qed.

Lemma transition_step_inv e c : chooses (choose e) → ctl_inv c → ctl_inv (transition_step e c).2.
Proof.
  intros Hch Hi. unfold transition_step. pose proof (ci_wf _ Hi) as Hwf.
  destruct (state c) as [|since| | |since| |p f t since| |reason] eqn:Hs;
    try (assert (0 ≤ next_chunk c < num_chunks c) as Hn by (apply wf_next; [done|by rewrite Hs..])).
  - destruct (_ <? _)%nat; simpl; [|apply try_find_peers_inv; auto].
    apply (ctl_inv_quiet c); [done|by rewrite Hs|done|by apply wf_searching].
  - destruct (_ <? _)%nat; simpl.
    + apply (ctl_inv_quiet c); [done|by rewrite Hs|done|by apply wf_searching].
    + destruct (_ <=? _); simpl; [apply try_find_peers_inv; eauto|done].
  - destruct (count_ltb [Connecting; Connected] (peers c)) as [[-> Hsp]|[-> Hsp]]; simpl.
    + apply (ctl_inv_change c); [done|done|by apply wf_searching|done].
    + by apply try_connect_inv.
  - destruct (count_ltb [Connected] (peers c)) as [[-> Hsp]|[-> Hsp]]; simpl.
    + apply (ctl_inv_change c); [done|done|by apply wf_searching|]. intros (p & info & Hp & Hc).
      destruct Hsp as (q & iq & Hq & Hsq%list_elem_of_singleton). exfalso. simpl in Hp.
      destruct (decide (q = p)) as [->|Hne]; [congruence|].
      by destruct (ci_peers _ Hi _ _ _ _ Hp Hq Hc Hne) as [_ ?].
    + destruct (_ =? _)%nat eqn:Hz; simpl; [|done].
      apply (ctl_inv_change c); [done|done|by apply wf_searching|]. intros (p & info & Hp & Hc).
      apply Nat.eqb_eq, count_peers_zero in Hz. destruct Hz. exists p, info. rewrite Hc. set_solver.
  - destruct (_ <? _); simpl; [done|].
    apply (ctl_inv_quiet c); [done|by rewrite Hs|done|by apply wf_searching].
  - by apply try_request_next_inv.
  - case_decide; simpl.
    + apply (ctl_inv_quiet c); [done|by rewrite Hs|done|by apply wf_searching].
    + destruct (_ <=? _); simpl; [|done]. apply handle_response_failure_inv; [done|by rewrite Hs|done].
  - done.
  - done.
Qed.

Lemma transition_loop_inv n e c c' :
  chooses (choose e) → ctl_inv c → transition_loop n e c = Some c' → ctl_inv c'.
Proof.
  intros Hch. revert c. induction n as [|n IH]; intros c Hi Hl; [done|]. simpl in Hl.
  pose proof (transition_step_inv e c Hch Hi) as Hi'.
  destruct (transition_step e c) as [[] c1]; [by eapply IH|by simplify_eq].
Qed.

Lemma transition_inv e c c' : chooses (choose e) → ctl_inv c → transition e c = Ok c' → ctl_inv c'.
Proof.
  intros Hch Hi Ht. destruct (transition_run e Hch c) as (c1 & Ht1 & Hl).
  rewrite Ht1 in Ht. injection Ht as <-. eapply transition_loop_inv; [done| |done].
  apply ctl_inv_peers; [done|]. apply no_new_transition.
Qed.

(** The peer being connected to is the only one, and the controller waits for it. *)
Lemma update_connecting c nw p to :
  ctl_inv c →
  (update_state nw p Connecting to (peers c)).1 = Some true →
  state c = ConnectingPeers ∧
  (to ≠ Connecting → ¬ connecting (update_state nw p Connecting to (peers c)).2).
Proof.
  intros Hi. unfold update_state. destruct (peers c !! p) as [info|] eqn:Hp; [|done].
  case_decide as Hst; [|done]. intros _. split; [apply Hi; by exists p, info|].
  intros Hto (q & iq & Hq & Hc). simpl in Hq.
  apply lookup_insert_Some in Hq as [[<- <-]|[Hne Hq]]; [done|].
  by destruct (ci_peers _ Hi _ _ _ _ Hp Hq Hst (not_eq_sym Hne)).
Qed.

Lemma update_other nw p from to ps :
  (update_state nw p from to ps).1 ≠ Some true → (update_state nw p from to ps).2 = ps.
Proof. unfold update_state. destruct (ps !! p); [case_decide|]; done. Qed.

Lemma not_connecting_wf ps : ¬ connecting ps → peers_wf ps.
Proof. intros Hno p q ip iq Hp _ Hc _. destruct Hno. by exists p, ip. Qed.

Lemma on_peer_connected_inv e p c : ctl_inv c → ctl_inv (on_peer_connected e p c).
Proof.
  intros Hi. unfold on_peer_connected.
  destruct (decide ((update_state (now e) p Connecting Connected (peers c)).1 = Some true)) as [Hu|Hu].
  - destruct (update_connecting c (now e) p Connected Hi Hu) as [Hs Hno]. specialize (Hno ltac:(done)).
    split; [apply Hi|by apply not_connecting_wf|done].
  - rewrite (update_other _ _ _ _ _ Hu). by apply ctl_inv_peers.
Qed.

Lemma on_dail_failed_inv e p err c : ctl_inv c → ctl_inv (on_dail_failed e p err c).
Proof.
  intros Hi. unfold on_dail_failed.
  assert (∀ to s, to ≠ Connecting → to ≠ Connected → searching s →
    ctl_inv (let '(r, ps) := update_state (now e) p Connecting to (peers c) in
             if decide (r = Some true) then set_state s (set_peers ps c) else set_peers ps c)) as Hgo.
  { intros to s Ht1 Ht2 Hsr. pose proof (update_connecting c (now e) p to Hi) as Hu.
    pose proof (no_new_update (now e) p Connecting to (peers c) Ht1 Ht2) as Hn.
    destruct (update_state _ _ _ _ _) as [r ps]. simpl in *. case_decide as Hr; [|by apply ctl_inv_peers].
    destruct (Hu Hr) as [Hs Hno]. specialize (Hno Ht1).
    split; [|by apply not_connecting_wf|done]. apply wf_searching; [|done].
    apply (wf_next c); [apply Hi|by rewrite Hs..]. }
  destruct err; by apply Hgo.
Qed.

Lemma mismatch_cases p c :
  (∃ f t since, state c = Downloading p f t since ∧ handle_on_response_mismatch p c = (false, c)) ∨
  (∃ msg, handle_on_response_mismatch p c = (true, send (ReportPeer p LowToleranceError msg) c)).
Proof.
  unfold handle_on_response_mismatch. destruct (state c) as [| | | | | |q f t since| |] eqn:Hs; eauto.
  case_decide; subst; eauto 10.
Qed.

Lemma on_request_failed_inv e p c : ctl_inv c → ctl_inv (on_request_failed e p c).
Proof.
  intros Hi. unfold on_request_failed. destruct (mismatch_cases p c) as [(f & t & since & Hs & ->)|[msg ->]].
  - apply handle_response_failure_inv; [done|by rewrite Hs|].
    apply wf_next; [apply Hi|by rewrite Hs..].
  - by apply ctl_inv_send.
Qed.

Lemma reset_inv e c r : ctl_inv c → state c = Failed r → ctl_inv (reset e c).
Proof.
  intros Hi Hs. pose proof (ci_wf _ Hi) as [_ Hwf]. rewrite Hs in Hwf.
  apply (ctl_inv_quiet c); [done|by rewrite Hs|apply no_new_transition|].
  split; simpl; lia.
Qed.

Lemma Controller_new_inv nw id num : 0 < num → ctl_inv (Controller_new nw id num).
Proof.
  intros Hn. split; simpl.
  - split; simpl; lia.
  - intros p q ip iq Hp. by rewrite lookup_empty in Hp.
  - intros (p & info & Hp & _). by rewrite lookup_empty in Hp.
Qed.

(** ** Responses *)

Section Store.
Context {T : Type} `{LogStoreWrite E T} `{RangeProofStore E T}.
Implicit Types (t : T) (resp : ChunkArrayWithProof E).

(** The response answers the pending request, and its proof is valid. *)
Definition accepted p resp c t (to_chunk : Z) : Prop :=
  ∃ from_chunk since,
    state c = Downloading p from_chunk to_chunk since ∧ from_chunk < to_chunk ∧
    start_index (cp_chunks resp) = from_chunk ∧
    from_chunk + ca_chunks (cp_chunks resp) = to_chunk ∧
    zlen (ca_data (cp_chunks resp)) mod CHUNK_SIZE = 0 ∧
    store_validate t (id_seq (tx_id c)) resp = Ok true.

(** Any other response leaves the store and the progress alone, ... *)
Definition refused c c' : Prop :=
  tx_id c' = tx_id c ∧
  (ctl_inv c → ctl_inv c' ∧ next_chunk c' = next_chunk c ∧ num_chunks c' = num_chunks c ∧
     (state c' = Completed → state c = Completed)).

(** ... unless it panics. *)
Inductive response_outcome p resp c t : res unit * (Controller E P A * T) → Prop :=
| out_refused c' : refused c c' → response_outcome p resp c t (Ok tt, (c', t))
| out_accepted to_chunk :
    accepted p resp c t to_chunk →
    response_outcome p resp c t (store_response to_chunk (cp_chunks resp) (c, t))
| out_panic msg :
    (∃ from_chunk to_chunk since, state c = Downloading p from_chunk to_chunk since ∧ to_chunk ≤ from_chunk) ∨
    2 ^ 64 ≤ start_index (cp_chunks resp) + ca_chunks (cp_chunks resp) ∨
    store_validate t (id_seq (tx_id c)) resp = Panic msg →
    response_outcome p resp c t (Panic msg, (c, t)).

Lemma on_response_cases e p resp c t : response_outcome p resp c t (on_response e p resp (c, t)).
Proof.
  unfold on_response, st_get, modify_ctl, st_modify, st_lift, st_ret, st_bind at 1 2. simpl.
  destruct (mismatch_cases p c) as [(f & to_chunk & since & Hs & ->)|[msg ->]]; simpl.
  2:{ apply out_refused. split; [done|]. intros Hi. split; [by apply ctl_inv_send|done]. }
  assert (∀ s ps, searching s → no_new_connection (peers c) ps →
    ∀ m, refused c (set_state s (set_peers ps (send m c)))) as Hban.
  { intros s ps Hsr Hn m. split; [done|]. intros Hi. assert (0 ≤ next_chunk c < num_chunks c) as Hnx.
    { apply wf_next; [apply Hi|by rewrite Hs..]. }
    split; [|split_and!; [done..|by destruct s]].
    apply (ctl_inv_quiet c); [done|by rewrite Hs|done|by apply wf_searching]. }
  assert (∀ msg, refused c (set_state Idle (ban_peer e p msg c))) as Hban'.
  { intros msg. apply Hban; [done|]. by apply no_new_update. }
  rewrite Hs. unfold assert, st_bind at 1. destruct (Z.ltb_spec f to_chunk) as [Hlt|Hge].
  2:{ apply out_panic. left. eauto 10. }
  destruct ((_ =? 0) || _) eqn:Hlen; [by apply out_refused|].
  apply orb_false_iff in Hlen as [Hne%Z.eqb_neq Hmod%Z.ltb_ge].
  unfold st_bind at 1, uadd. destruct (Z.ltb_spec (start_index (cp_chunks resp) + zlen (ca_data (cp_chunks resp)) / CHUNK_SIZE) (2 ^ 64)) as [Hov|Hov].
  2:{ apply out_panic. right; left. unfold ca_chunks. lia. }
  destruct (_ || _) eqn:Hrange; [by apply out_refused|].
  apply orb_false_iff in Hrange as [Hst%negb_false_iff%Z.eqb_eq Hend%negb_false_iff%Z.eqb_eq].
  unfold st_bind at 1. simpl. destruct (store_validate t _ resp) as [[]|msg|msg] eqn:Hv.
  - apply out_accepted. exists f, since. unfold ca_chunks.
    pose proof (Z.mod_pos_bound (zlen (ca_data (cp_chunks resp))) CHUNK_SIZE ltac:(done)).
    split_and!; [done|done|done|lia|lia|done].
  - apply out_refused. split; [done|]. intros Hi.
    assert (0 ≤ next_chunk c < num_chunks c) as Hnx by (apply wf_next; [apply Hi|by rewrite Hs..]).
    split; [|done]. apply (ctl_inv_quiet c); [done|by rewrite Hs|done|by apply wf_searching].
  - by apply out_refused.
  - apply out_panic. by right; right.
Qed.

(** Storing an accepted response returns. *)
Lemma store_response_ctl p resp c t to_chunk :
  ctl_inv c → accepted p resp c t to_chunk →
  ∃ c' t', store_response to_chunk (cp_chunks resp) (c, t) = (Ok tt, (c', t')) ∧ ctl_inv c' ∧ tx_id c' = tx_id c.
Proof.
  intros Hi (f & since & Hs & Hlt & Hst & Hend & _ & _).
  pose proof (ci_wf _ Hi) as [Hn Hwf]. rewrite Hs in Hwf. destruct Hwf as (-> & Hto & Hnn).
  assert (∀ st n f, ctl_wf (set_state st (set_progress n f c)) → ctl_inv (set_state st (set_progress n f c))) as Hquiet.
  { intros st n f Hwf. apply (ctl_inv_quiet c); [done|by rewrite Hs|done|done]. }
  unfold store_response, modify_ctl, call_store, st_zoom, st_modify, st_get, spawned, st_bind. simpl.
  destruct (store_put_chunks _ _ _ t) as [[[]|msg|msg] t1]; simpl.
  - destruct (to_chunk <? num_chunks c) eqn:Hmore; simpl.
    + apply Z.ltb_lt in Hmore. eexists _, _. split; [reflexivity|]. split; [|done].
      apply Hquiet. split; simpl; lia.
    + apply Z.ltb_ge in Hmore.
      destruct (store_finalize _ _ t1) as [[[]|msg|msg] t2]; simpl;
      (eexists _, _; split; [reflexivity|]; split; [apply Hquiet; split; simpl; lia|done]).
  - eexists _, _; split; [reflexivity|]; split; [apply Hquiet; split; simpl; lia|done].
  - eexists _, _; split; [reflexivity|]; split; [apply Hquiet; split; simpl; lia|done].
  - eexists _, _; split; [reflexivity|]; split; [apply Hquiet; split; simpl; lia|done].
Qed.

Lemma on_response_inv e p resp c t r c' t' :
  ctl_inv c → on_response e p resp (c, t) = (r, (c', t')) → ctl_inv c' ∧ tx_id c' = tx_id c.
Proof.
  intros Hi Hrun. pose proof (on_response_cases e p resp c t) as Hout. rewrite Hrun in Hout.
  inversion Hout as [c1 [Hid Href] Heq|to_chunk Hacc Heq|]; subst; [by destruct (Href Hi)| |done].
  destruct (store_response_ctl _ _ _ _ _ Hi Hacc) as (c1 & t1 & Hr & Hi1 & Hid1).
  rewrite Heq in Hr. by simplify_eq.
Qed.

End Store.

(** ** Histories of a controller

    The store is watched: [store_call]s lists the calls made since the last
    reset, with whether each returned [Ok(true)]. *)

Section Watched.
Context {T : Type} `{LogStoreWrite E T} `{RangeProofStore E T}.

Inductive store_call := PutCall (start count : Z) (ok : bool) | FinalizeCall (ok : bool).

Definition succeeded (r : res bool) : bool := match r with Ok true => true | _ => false end.

Definition watched_put (seq : Z) (hash : E) (chunks : ChunkArray) : st (T * list store_call) bool :=
  λ s, let '(r, t) := store_put_chunks seq hash chunks s.1 in
       (r, (t, s.2 ++ [PutCall (start_index chunks) (ca_chunks chunks) (succeeded r)])).
Definition watched_finalize (seq : Z) (hash : E) : st (T * list store_call) bool :=
  λ s, let '(r, t) := store_finalize seq hash s.1 in (r, (t, s.2 ++ [FinalizeCall (succeeded r)])).
#[local] Instance watched_write : LogStoreWrite E (T * list store_call) :=
  {| store_put_chunks := watched_put; store_finalize := watched_finalize |}.
#[local] Instance watched_proofs : RangeProofStore E (T * list store_call) :=
  {| store_validate := λ s, store_validate s.1 |}.

(** What happens to a controller: the calls that [SyncService] makes. *)
Inductive ctl_event :=
| EvPeerFound (p : P) (a : A)
| EvDialFailed (p : P) (err : DialError)
| EvConnected (p : P)
| EvDisconnected (p : P)
| EvResponse (p : P) (resp : ChunkArrayWithProof E)
| EvRequestFailed (p : P)
| EvTransition
| EvReset.

Notation watched := (Controller E P A * (T * list store_call))%type.

Definition exec_event e (ev : ctl_event) : st watched unit :=
  match ev with
  | EvPeerFound p a => modify_ctl (λ c, (on_peer_found e p a c).2)
  | EvDialFailed p err => modify_ctl (on_dail_failed e p err)
  | EvConnected p => modify_ctl (on_peer_connected e p)
  | EvDisconnected p => modify_ctl (on_peer_disconnected p)
  | EvResponse p resp => on_response e p resp
  | EvRequestFailed p => modify_ctl (on_request_failed e p)
  | EvTransition => λ s, match transition e s.1 with
                         | Ok c => (Ok tt, (c, s.2))
                         | Err msg => (Err msg, s)
                         | Panic msg => (Panic msg, s)
                         end
  | EvReset => st_modify (λ s, (reset e s.1, (s.2.1, [])))
  end.

(** The service resets failed controllers only. *)
Definition event_allowed (ev : ctl_event) c : Prop :=
  match ev with EvReset => ∃ r, state c = Failed r | _ => True end.

(** One event, or a change of the store by another part of the node. *)
Inductive ctl_step : watched → watched → Prop :=
| step_event e ev s s' :
    chooses (choose e) → event_allowed ev s.1 → exec_event e ev s = (Ok tt, s') → ctl_step s s'
| step_store c t t' calls : ctl_step (c, (t, calls)) (c, (t', calls)).

(** The ranges stored, in order, and that they follow each other from [a] to [b]. *)
Definition puts (calls : list store_call) : list (Z * Z) :=
  omap (λ x, match x with PutCall s n true => Some (s, n) | _ => None end) calls.
Fixpoint chain (a : Z) (l : list (Z * Z)) (b : Z) : Prop :=
  match l with
  | [] => a = b
  | (s, n) :: l => s = a ∧ 0 < n ≤ MAX_CHUNKS_TO_REQUEST ∧ chain (a + n) l b
  end.

Lemma chain_snoc a l b n : chain a l b → 0 < n ≤ MAX_CHUNKS_TO_REQUEST → chain a (l ++ [(b, n)]) (b + n).
Proof.
  revert a. induction l as [|[s k] l IH]; intros a; simpl; [by intros <- Hn|].
  intros (-> & Hk & Hc) Hn. split; [done|]. split; [done|]. by apply IH.
Qed.

Lemma puts_snoc calls x :
  puts (calls ++ [x]) = puts calls ++ match x with PutCall s n true => [(s, n)] | _ => [] end.
Proof. unfold puts. rewrite omap_app. simpl. by destruct x as [s n []|]. Qed.

Record watched_inv (s : watched) : Prop := {
  wi_inv : ctl_inv s.1;
  wi_chain : chain 0 (puts s.2.2) (next_chunk s.1);
  wi_complete : state s.1 = Completed → last s.2.2 = Some (FinalizeCall true) }.

(** Storing an accepted response. *)
Lemma store_response_inv p resp c t calls to_chunk :
  watched_inv (c, (t, calls)) → accepted p resp c (t, calls) to_chunk →
  ∃ s', store_response to_chunk (cp_chunks resp) (c, (t, calls)) = (Ok tt, s') ∧ watched_inv s'.
Proof.
  intros [Hi Hch _] (f & since & Hs & Hlt & Hst & Hend & _ & _). simpl in *.
  pose proof (ci_wf _ Hi) as [Hn Hwf]. rewrite Hs in Hwf. destruct Hwf as (-> & Hto & Hnn).
  assert (0 < ca_chunks (cp_chunks resp) ≤ MAX_CHUNKS_TO_REQUEST) as Hcount by lia.
  assert (∀ st n f, ctl_wf (set_state st (set_progress n f c)) → ctl_inv (set_state st (set_progress n f c))) as Hquiet.
  { intros st n f Hwf. apply (ctl_inv_quiet c); [done|by rewrite Hs|done|done]. }
  assert (chain 0 (puts (calls ++ [PutCall (start_index (cp_chunks resp)) (ca_chunks (cp_chunks resp)) true])) to_chunk) as Hput.
  { rewrite puts_snoc, Hst, <- Hend. by apply chain_snoc. }
  assert (chain 0 (puts (calls ++ [PutCall (start_index (cp_chunks resp)) (ca_chunks (cp_chunks resp)) false])) (next_chunk c)) as Hnop.
  { by rewrite puts_snoc, app_nil_r. }
  unfold store_response, modify_ctl, call_store, st_zoom, st_modify, st_get, spawned, st_bind. simpl.
  unfold watched_put. simpl. destruct (store_put_chunks _ _ _ t) as [[[]|msg|msg] t1]; simpl.
  - destruct (to_chunk <? num_chunks c) eqn:Hmore; simpl.
    + apply Z.ltb_lt in Hmore. eexists. split; [reflexivity|]. split; [|done|done].
      apply Hquiet. split; simpl; lia.
    + apply Z.ltb_ge in Hmore. unfold watched_finalize. simpl.
      destruct (store_finalize _ _ t1) as [[[]|msg|msg] t2]; simpl;
      (eexists; split; [reflexivity|]; split; [apply Hquiet; split; simpl; lia| |]; simpl;
       [by rewrite puts_snoc, app_nil_r|by rewrite ?last_snoc]).
  - eexists; split; [reflexivity|]; split; [apply Hquiet; split; simpl; lia|done|done].
  - eexists; split; [reflexivity|]; split; [apply Hquiet; split; simpl; lia|done|done].
  - eexists; split; [reflexivity|]; split; [apply Hquiet; split; simpl; lia|done|done].
Qed.

(** A response that cannot make the handler panic. *)
Definition harmless (ev : ctl_event) c (t : T) : Prop :=
  match ev with
  | EvResponse _ resp =>
      start_index (cp_chunks resp) + ca_chunks (cp_chunks resp) < 2 ^ 64 ∧
      ∀ msg, store_validate t (id_seq (tx_id c)) resp ≠ Panic msg
  | _ => True
  end.

Lemma watched_quiet c c' t calls :
  watched_inv (c, (t, calls)) → ctl_inv c' → next_chunk c' = next_chunk c →
  (state c' = Completed → state c = Completed) → watched_inv (c', (t, calls)).
Proof. intros [_ Hch Hco] Hi Hn Hs. split; simpl in *; [done|by rewrite Hn|auto]. Qed.

Lemma on_peer_found_only e p a c : peers_only c (on_peer_found e p a c).2.
Proof.
  unfold on_peer_found. pose proof (no_new_add (now e) p a (peers c)) as Hn.
  destruct (add_new_peer _ _ _ _). by split.
Qed.

Lemma on_request_failed_next e p c :
  next_chunk (on_request_failed e p c) = next_chunk c ∧
  (state (on_request_failed e p c) = Completed → state c = Completed).
Proof.
  unfold on_request_failed. destruct (mismatch_cases p c) as [(f & t & since & Hs & ->)|[msg ->]]; [|done].
  unfold handle_response_failure. by destruct (_ <=? _)%nat.
Qed.

Lemma on_dail_failed_next e p err c :
  next_chunk (on_dail_failed e p err c) = next_chunk c ∧
  (state (on_dail_failed e p err c) = Completed → state c = Completed).
Proof. unfold on_dail_failed. destruct err, (update_state _ _ _ _ _); by case_decide. Qed.

Lemma transition_step_next e c :
  next_chunk (transition_step e c).2 = next_chunk c ∧ tx_id (transition_step e c).2 = tx_id c ∧
  (state (transition_step e c).2 = Completed → state c = Completed).
Proof.
  assert (next_chunk (try_find_peers e c) = next_chunk c ∧ tx_id (try_find_peers e c) = tx_id c ∧
          state (try_find_peers e c) ≠ Completed) as (Hf1 & Hf2 & Hf3).
  { destruct (try_find_peers_run e c) as (c' & since & -> & [Hid _ Hn _ _] & _). done. }
  unfold transition_step, try_connect, try_request_next, handle_response_failure.
  destruct (state c) eqn:Hs; repeat case_match; simpl; try done; rewrite ?Hs; done.
Qed.

Lemma transition_next e c c' :
  chooses (choose e) → transition e c = Ok c' →
  next_chunk c' = next_chunk c ∧ (state c' = Completed → state c = Completed).
Proof.
  intros Hch Ht. destruct (transition_run e Hch c) as (c1 & Ht1 & Hl).
  rewrite Ht1 in Ht. injection Ht as <-. revert Hl.
  change (next_chunk c) with (next_chunk (set_peers (peers_transition (now e) (peers c)) c)).
  change (state c) with (state (set_peers (peers_transition (now e) (peers c)) c)).
  generalize (set_peers (peers_transition (now e) (peers c)) c). clear c Ht1.
  induction TRANSITION_FUEL as [|n IH]; intros c Hl; [done|]. simpl in Hl.
  destruct (transition_step_next e c) as (Hn & _ & Hc).
  destruct (transition_step e c) as [[] c2]; simpl in *; [|by simplify_eq].
  destruct (IH _ Hl) as [Hn' Hc']. split; [congruence|auto].
Qed.

(** Every event keeps the invariant and returns. *)
Lemma exec_event_inv e ev c t calls :
  chooses (choose e) → event_allowed ev c → harmless ev c t → watched_inv (c, (t, calls)) →
  ∃ s', exec_event e ev (c, (t, calls)) = (Ok tt, s') ∧ watched_inv s'.
Proof.
  intros Hch Hal Hh Hw. pose proof (wi_inv _ Hw) as Hi; simpl in Hi.
  destruct ev as [p a|p err|p|p|p resp|p| |]; simpl in *.
  - eexists. split; [reflexivity|]. destruct (on_peer_found_only e p a c) as [_ Hnum Hn Hs Hp].
    eapply watched_quiet; [done| |done|intros ?; simpl in *; congruence].
    unfold on_peer_found in *. destruct (add_new_peer _ _ _ _). by apply ctl_inv_peers.
  - eexists. split; [reflexivity|]. destruct (on_dail_failed_next e p err c) as [Hn Hs].
    eapply watched_quiet; [done|by apply on_dail_failed_inv|done|done].
  - eexists. split; [reflexivity|]. eapply watched_quiet; [done|by apply on_peer_connected_inv|done|done].
  - eexists. split; [reflexivity|]. eapply watched_quiet; [done| |done|done].
    apply ctl_inv_peers; [done|]. apply no_new_force.
  - pose proof (on_response_cases e p resp c (t, calls)) as Hout.
    remember (on_response e p resp (c, (t, calls))) as out eqn:Heq.
    destruct Hout as [c' Href|to_chunk Hacc|msg Hp].
    + eexists. split; [reflexivity|]. destruct (proj2 Href Hi) as (Hi' & Hn & _ & Hs). by eapply watched_quiet.
    + by apply (store_response_inv p).
    + exfalso. destruct Hh as [Hov Hv]. destruct Hp as [(f & to_chunk & since & Hs & Hle)|[Hp|Hp]].
      * pose proof (ci_wf _ Hi) as [Hn Hwf]. rewrite Hs in Hwf. unfold MAX_CHUNKS_TO_REQUEST in *. lia.
      * lia.
      * by apply (Hv msg).
  - eexists. split; [reflexivity|]. destruct (on_request_failed_next e p c) as [Hn Hs].
    eapply watched_quiet; [done|by apply on_request_failed_inv|done|done].
  - destruct (transition_run e Hch c) as (c' & Ht & _). rewrite Ht. eexists. split; [reflexivity|].
    destruct (transition_next e c c' Hch Ht) as [Hn Hs].
    eapply watched_quiet; [done|by eapply transition_inv|done|done].
  - destruct Hal as [r Hr]. eexists. split; [reflexivity|]. split; [by eapply reset_inv|done|done].
Qed.

Lemma exec_event_ok_inv e ev s s' :
  chooses (choose e) → event_allowed ev s.1 → exec_event e ev s = (Ok tt, s') → watched_inv s → watched_inv s'.
Proof.
  intros Hch Hal Hex Hw. destruct s as [c [t calls]].
  assert (harmless ev c t ∨ ∃ p resp, ev = EvResponse p resp) as [Hh|(p & resp & ->)]
    by (destruct ev; simpl; eauto).
  - destruct (exec_event_inv e ev c t calls Hch Hal Hh Hw) as (s1 & Hs1 & Hw1). congruence.
  - simpl in Hex. pose proof (on_response_cases e p resp c (t, calls)) as Hout. rewrite Hex in Hout.
    inversion Hout as [c' Href Heq|to_chunk Hacc Heq|]; subst.
    + destruct (proj2 Href (wi_inv _ Hw)) as (Hi' & Hn & _ & Hs). by eapply watched_quiet.
    + destruct (store_response_inv p resp c t calls to_chunk Hw Hacc) as (s1 & Hs1 & Hw1). congruence.
Qed.

Lemma ctl_reaches_inv s s' : rtc ctl_step s s' → watched_inv s → watched_inv s'.
Proof.
  induction 1 as [|s1 s2 s3 Hstep _ IH]; [done|]. intros Hw. apply IH.
  destruct Hstep as [e ev s1 s2 Hch Hal Hex|c t t' calls].
  - by eapply exec_event_ok_inv.
  - destruct Hw as [? ? ?]. by split.
Qed.

(** Runs of events are histories. *)
Lemma events_reach e evs s s' :
  chooses (choose e) → EvReset ∉ evs → st_for evs (exec_event e) s = (Ok tt, s') → rtc ctl_step s s'.
Proof.
  intros Hch. revert s. induction evs as [|ev evs IH]; intros s Hno Hrun; simpl in Hrun.
  - injection Hrun as <-. constructor.
  - unfold st_bind in Hrun. destruct (exec_event e ev s) as [[[]|msg|msg] s1] eqn:Hs; [|done..].
    apply not_elem_of_cons in Hno as [Hne Hno]. eapply rtc_l; [|by apply IH].
    eapply step_event; [done| |done]. by destruct ev.
Qed.

Lemma watched_start nw id num t : 0 < num → watched_inv (Controller_new nw id num, (t, [])).
Proof. intros Hn. split; simpl; [by apply Controller_new_inv|done|done]. Qed.

End Watched.
(** ** A download that meets no failure completes *)

Section Download.
Context {T : Type} `{LogStoreWrite E T} `{RangeProofStore E T}.
Context (serve : Z → Z → ChunkArrayWithProof E).

(** A heartbeat, then the answer of the peer that was asked. *)
Definition download_round e : st (Controller E P A * T) unit := λ s,
  match transition e s.1 with
  | Ok c =>
      match state c with
      | Downloading p from_chunk to_chunk _ => on_response e p (serve from_chunk to_chunk) (c, s.2)
      | _ => (Err "no request", (c, s.2))
      end
  | Err msg => (Err msg, s)
  | Panic msg => (Panic msg, s)
  end.

(** The store takes the file [id] of [num] chunks as [serve] gives it:
    [held t n] says that it has the first [n] chunks. *)
Record takes_file (id : TxID E) (num : Z) (held : T → Z → Prop) : Prop := {
  tf_put t n : held t n → 0 ≤ n < num → let to_chunk := Z.min (n + MAX_CHUNKS_TO_REQUEST) num in
    start_index (cp_chunks (serve n to_chunk)) = n ∧
    zlen (ca_data (cp_chunks (serve n to_chunk))) = (to_chunk - n) * CHUNK_SIZE ∧
    store_validate t (id_seq id) (serve n to_chunk) = Ok true ∧
    ∃ t', store_put_chunks (id_seq id) (id_hash id) (cp_chunks (serve n to_chunk)) t = (Ok true, t') ∧
      held t' to_chunk;
  tf_finalize t : held t num → ∃ t', store_finalize (id_seq id) (id_hash id) t = (Ok true, t') }.

(** With a connected peer, an idle controller asks it for the next chunks. *)
Lemma idle_requests e c :
  chooses (choose e) → state c = Idle → some_peer [Connected] (peers c) →
  ∃ c' p, transition e c = Ok c' ∧
    state c' = Downloading p (next_chunk c) (Z.min (next_chunk c + MAX_CHUNKS_TO_REQUEST) (num_chunks c)) (now e) ∧
    next_chunk c' = next_chunk c ∧ num_chunks c' = num_chunks c ∧ tx_id c' = tx_id c ∧
    some_peer [Connected] (peers c').
Proof.
  intros Hch Hs Hp. set (c0 := set_peers (peers_transition (now e) (peers c)) c).
  assert (some_peer [Connected] (peers c0)) as Hp0.
  { destruct Hp as (p & info & Hp & Hin). exists p, info. split; [|done].
    apply map_lookup_filter_Some. split; [done|]. apply list_elem_of_singleton in Hin.
    unfold bad_peer. simpl. by rewrite Hin. }
  assert (∀ states, Connected ∈ states → (0 <? count_peers states (peers c0))%nat = true) as Hc.
  { intros states Hin. apply Nat.ltb_lt, count_peers_pos. revert Hp0. apply some_peer_mono.
    intros x ->%list_elem_of_singleton. done. }
  destruct (random_peer_some e _ _ Hch Hp0) as (p & a & info & Hr & Hi & Hst).
  unfold transition, TRANSITION_FUEL. fold c0. simpl. unfold transition_step at 1. simpl. rewrite Hs.
  rewrite Hc by set_solver. unfold transition_step at 1. simpl. rewrite Hc by set_solver.
  unfold transition_step at 1. simpl. rewrite Hc by set_solver.
  unfold transition_step at 1. simpl. rewrite Hc by set_solver.
  unfold transition_step at 1. simpl. unfold try_request_next. simpl. simpl in Hr. rewrite Hr.
  unfold transition_step at 1. simpl. rewrite decide_False.
  2:{ intros Hne. apply Hne. unfold peer_state. simpl in Hi. rewrite Hi. simpl. by rewrite Hst. }
  rewrite Z.sub_diag. simpl. eexists _, p. split; [reflexivity|]. by split_and!.
Qed.

(** A valid answer goes to the store. *)
Lemma valid_response e p (resp : ChunkArrayWithProof E) c t from_chunk to_chunk since :
  state c = Downloading p from_chunk to_chunk since → 0 ≤ from_chunk < to_chunk → to_chunk < 2 ^ 64 →
  start_index (cp_chunks resp) = from_chunk →
  zlen (ca_data (cp_chunks resp)) = (to_chunk - from_chunk) * CHUNK_SIZE →
  store_validate t (id_seq (tx_id c)) resp = Ok true →
  on_response e p resp (c, t) = store_response to_chunk (cp_chunks resp) (c, t).
Proof.
  intros Hs Hft Hto Hstart Hlen Hv.
  unfold on_response, st_get, modify_ctl, st_modify, st_lift, st_ret, st_bind at 1 2. simpl.
  unfold handle_on_response_mismatch. rewrite Hs, decide_True by done. simpl. rewrite Hs.
  unfold assert, st_bind at 1. rewrite (proj2 (Z.ltb_lt _ _)) by lia.
  rewrite Hlen, Z_mod_mult, Z_div_mult by (unfold CHUNK_SIZE; lia).
  rewrite (proj2 (Z.eqb_neq _ _)) by (unfold CHUNK_SIZE; lia). simpl.
  unfold st_bind at 1, uadd. rewrite Hstart, (proj2 (Z.ltb_lt _ _)) by lia.
  replace (from_chunk + (to_chunk - from_chunk)) with to_chunk by lia. rewrite !Z.eqb_refl. simpl.
  unfold st_bind at 1. simpl. by rewrite Hv.
Qed.

(** The answer is stored. *)
Lemma good_response e p c t id num held :
  takes_file id num held → 0 < num < 2 ^ 56 → tx_id c = id → num_chunks c = num → 0 ≤ next_chunk c < num →
  held t (next_chunk c) →
  let to_chunk := Z.min (next_chunk c + MAX_CHUNKS_TO_REQUEST) num in
  state c = Downloading p (next_chunk c) to_chunk (now e) →
  ∃ c' t', on_response e p (serve (next_chunk c) to_chunk) (c, t) = (Ok tt, (c', t')) ∧
    peers c' = peers c ∧ tx_id c' = id ∧ num_chunks c' = num ∧ next_chunk c' = to_chunk ∧
    (if to_chunk <? num then state c' = Idle ∧ held t' to_chunk else state c' = Completed).
Proof.
  intros Htf Hnum Hid Hnc Hn Hheld to_chunk Hs.
  destruct (tf_put _ _ _ Htf t (next_chunk c) Hheld Hn) as (Hstart & Hlen & Hv & t' & Hput & Hheld').
  assert (0 < to_chunk - next_chunk c) as Hpos by (unfold to_chunk, MAX_CHUNKS_TO_REQUEST; lia).
  fold to_chunk in Hstart, Hlen, Hv, Hput, Hheld'.
  erewrite valid_response; [|exact Hs|lia|unfold to_chunk; lia|done|done|by rewrite Hid].
  unfold store_response, modify_ctl, call_store, st_zoom, st_modify, st_get, spawned, st_bind. simpl.
  rewrite Hid, Hput, Hnc. simpl. destruct (to_chunk <? num) eqn:Hmore.
  - eexists _, t'. split; [reflexivity|]. by split_and!.
  - apply Z.ltb_ge in Hmore. assert (to_chunk = num) as Heq by (unfold to_chunk in *; lia).
    rewrite Heq in Hheld'. destruct (tf_finalize _ _ _ Htf _ Hheld') as [t'' Hfin]. cbn [fst snd]. rewrite Hfin. simpl.
    eexists _, t''. split; [reflexivity|]. by split_and!.
Qed.

(** What the service does with a failed controller: reset it and try again. *)
Definition retry e : st (Controller E P A * T) unit := modify_ctl (reset e) ;; download_round e.

(** A store that refuses the first chunks makes every retry fail. *)
Lemma retries_fail es c t id num msg reason :
  let to_chunk := Z.min MAX_CHUNKS_TO_REQUEST num in
  0 < num < 2 ^ 56 → start_index (cp_chunks (serve 0 to_chunk)) = 0 →
  zlen (ca_data (cp_chunks (serve 0 to_chunk))) = to_chunk * CHUNK_SIZE →
  store_validate t (id_seq id) (serve 0 to_chunk) = Ok true →
  store_put_chunks (id_seq id) (id_hash id) (cp_chunks (serve 0 to_chunk)) t = (Err msg, t) →
  Forall (λ e, chooses (choose e)) es →
  tx_id c = id → num_chunks c = num → state c = Failed reason → some_peer [Connected] (peers c) →
  ∃ c' reason', st_for es retry (c, t) = (Ok tt, (c', t)) ∧ state c' = Failed reason'.
Proof.
  intros to_chunk Hnum Hstart Hlen Hv Hput Hes. revert c reason.
  induction Hes as [|e es Hch _ IH]; intros c reason Hid Hnc Hs Hp; [by exists c, reason|].
  cbn [st_for]. unfold st_bind at 1, retry at 1, modify_ctl at 1, st_modify at 1, st_bind at 1. cbn [fst snd].
  destruct (idle_requests e (reset e c) Hch) as (c1 & p & Ht & Hs1 & Hn1 & Hnc1 & Hid1 & Hp1); [done| |].
  { destruct Hp as (q & info & Hq & Hin). exists q, info. split; [|done].
    apply map_lookup_filter_Some. split; [done|]. apply list_elem_of_singleton in Hin.
    unfold bad_peer. simpl. by rewrite Hin. }
  change (tx_id (reset e c)) with (tx_id c) in Hid1. rewrite Hid in Hid1.
  unfold download_round at 1. cbn [fst snd]. rewrite Ht, Hs1. cbn [next_chunk num_chunks reset set_peers set_state set_progress] in *.
  rewrite Z.add_0_l in *. rewrite Hnc. fold to_chunk. rewrite Hnc in Hs1. fold to_chunk in Hs1.
  assert (0 < to_chunk) by (unfold to_chunk, MAX_CHUNKS_TO_REQUEST; lia).
  erewrite valid_response; [|exact Hs1|lia|unfold to_chunk; lia|done|lia|by rewrite Hid1].
  unfold store_response at 1, modify_ctl, call_store, st_zoom, st_modify, st_get, spawned, st_bind. simpl.
  rewrite Hid1, Hput. simpl.
  apply (IH _ (DBError msg)); simpl; [congruence|congruence|done|done].
Qed.

Lemma download_completes id num held es c t :
  takes_file id num held → 0 < num < 2 ^ 56 → Forall (λ e, chooses (choose e)) es →
  tx_id c = id → num_chunks c = num → state c = Idle → some_peer [Connected] (peers c) →
  0 ≤ next_chunk c < num → held t (next_chunk c) →
  (Z.of_nat (length es) - 1) * MAX_CHUNKS_TO_REQUEST < num - next_chunk c
    ≤ Z.of_nat (length es) * MAX_CHUNKS_TO_REQUEST →
  ∃ c' t', st_for es download_round (c, t) = (Ok tt, (c', t')) ∧ state c' = Completed ∧ next_chunk c' = num.
Proof.
  intros Htf Hnum Hes. revert c t. induction Hes as [|e es Hch _ IH];
    intros c t Hid Hnc Hs Hp Hn Hheld Hlen; simpl length in Hlen; [lia|].
  destruct (idle_requests e c Hch Hs Hp) as (c1 & p & Ht & Hs1 & Hn1 & Hnc1 & Hid1 & Hp1).
  rewrite <- Hn1, Hnc in Hs1.
  destruct (good_response e p c1 t id num held) as (c2 & t2 & Hr & Hp2 & Hid2 & Hnc2 & Hn2 & Hend);
    [done|done|congruence|congruence|congruence|congruence|done|].
  cbn [st_for]. unfold st_bind at 1, download_round at 1. simpl. rewrite Ht, Hs1, Hr.
  rewrite Hn1 in Hn2, Hend. unfold MAX_CHUNKS_TO_REQUEST in *.
  destruct (Z.ltb_spec (Z.min (next_chunk c + 2 * 1024) num) num) as [Hlt|Hge].
  - destruct Hend as [Hs2 Hh2]. apply IH; [done|done|done|by rewrite Hp2|lia|by rewrite Hn2|].
    rewrite Hn2. lia.
  - assert (es = []) as ->. { destruct es; [done|simpl length in *; lia]. }
    exists c2, t2. split; [reflexivity|]. split; [done|lia].
Qed.

End Download.
End Proofs.
