(* ===== verification/AutoSync.v ===== *)
(** * Synchronising all files: the sequence and the missed files

    Model of [node/sync/src/auto_sync/manager.rs].  [Manager] holds the three
    atomics and the configuration column that its [sync_store] works on.  Its
    tasks ask the log store for transactions and the sync service for the
    state of a download; both are behind the interface [FileSync]. *)

From S2P Require Import Prelude Bytes SyncStore ChunkPool SyncController.
Local Open Scope Z_scope.

Definition u64_MAX : Z := 2 ^ 64 - 1.
Definition FIND_PEERS_TIMEOUT : Z := 30000.

(** What the tasks need of the node: [get_tx_by_seq_number] (whether there is
    one) and [check_tx_completed] of the store, and the requests of the sync
    service. *)
Class FileSync (E P V : Type) := {
  tx_known : V → Z → res bool;
  tx_completed : V → Z → res bool;
  request_status : Z → st V (option (SyncState E P));
  request_sync_file : Z → st V unit;
  request_terminate : Z → st V unit;
}.

Record Manager := MkManager {
  next_tx_seq : Z;
  max_tx_seq : Z;
  reverted_tx_seq : Z;
  configs : Configs;
}.

Definition Manager_new (db : Configs) : res Manager :=
  let? range := get_tx_seq_range db in
  Ok (MkManager (default 0 range.1) (default u64_MAX range.2) u64_MAX db).

Definition set_reverted (tx_seq : Z) (m : Manager) : bool * Manager :=
  if reverted_tx_seq m <=? tx_seq then (false, m)
  else (true, MkManager (next_tx_seq m) (max_tx_seq m) tx_seq (configs m)).

(** [handle_on_reorg], after its first load returned [reverted]. *)
Definition handle_on_reorg_loaded (reverted : Z) (m : Manager) : option Z * Manager :=
  if reverted =? u64_MAX then (None, m) else
  let m := MkManager (next_tx_seq m) (max_tx_seq m) u64_MAX (configs m) in
  if next_tx_seq m <? reverted then (None, m) else
  (Some (next_tx_seq m), MkManager reverted (max_tx_seq m) (reverted_tx_seq m) (configs m)).
Definition handle_on_reorg (m : Manager) : option Z * Manager :=
  handle_on_reorg_loaded (reverted_tx_seq m) m.

(** A call of [sync_store]. *)
Definition on_configs {A} (op : st Configs A) : st Manager A :=
  st_zoom configs (λ db m, MkManager (next_tx_seq m) (max_tx_seq m) (reverted_tx_seq m) db) op.

(** [if let Err(e) = r { error!(..) }]: an error is logged. *)
Definition logged {S A} (m : st S A) : st S unit := λ s,
  match m s with
  | (Panic e, s') => (Panic e, s')
  | (_, s') => (Ok tt, s')
  end.

Definition update_on_announcement (announced : Z) : st Manager unit :=
  let! m := st_get in
  if (max_tx_seq m =? u64_MAX) || (max_tx_seq m <? announced) then
    on_configs (set_max_tx_seq announced) ;;
    st_modify (λ m, MkManager (next_tx_seq m) announced (reverted_tx_seq m) (configs m))
  else if next_tx_seq m <=? announced then st_ret tt
  else logged (on_configs (upgrade_tx_to_ready announced)).

Definition move_forward (pending : bool) : st Manager bool :=
  let! m := st_get in
  let tx_seq := next_tx_seq m in
  if max_tx_seq m <? tx_seq then st_ret false else
  (if pending then on_configs (add_pending_tx tx_seq) else st_ret false) ;;
  let! next := st_lift (uadd 64 tx_seq 1) in
  on_configs (set_next_tx_seq next) ;;
  st_modify (λ m, MkManager next (max_tx_seq m) (reverted_tx_seq m) (configs m)) ;;
  st_ret true.

(** [assert!(manager.move_forward(pending).await?)] *)
Definition advance (pending : bool) : st Manager unit :=
  let! moved := move_forward pending in
  st_lift (assert moved "assertion failed: manager.move_forward").

Section Tasks.
Context {E P V : Type} `{FileSync E P V}.

Definition sync_tx (now : Z) (tx_seq : Z) : st V bool :=
  let! known := st_reads (λ v, tx_known v tx_seq) in
  if negb known then st_ret false else
  let! s := request_status tx_seq in
  match s with
  | None | Some (Failed _) => request_sync_file tx_seq ;; st_ret false
  | Some (FindingPeers since) => st_ret (FIND_PEERS_TIMEOUT <? now - since)
  | Some _ => st_ret false
  end.

Definition in_manager {A} (op : st Manager A) : st (Manager * V) A :=
  st_zoom fst (λ m s, (m, s.2)) op.
Definition in_node {A} (op : st V A) : st (Manager * V) A :=
  st_zoom snd (λ v s, (s.1, v)) op.

Definition sync_once (now : Z) : st (Manager * V) bool :=
  let! s := st_get in
  let next := next_tx_seq s.1 in
  if max_tx_seq s.1 <? next then st_ret false else
  let! completed := in_node (st_reads (λ v, tx_completed v next)) in
  if completed : bool then in_manager (advance false) ;; st_ret true else
  let! no_peer_timeout := in_node (sync_tx now next) in
  (if no_peer_timeout : bool then in_manager (advance true) else st_ret tt) ;;
  st_ret no_peer_timeout.

(** One turn of the loop of [start_sync]. *)
Definition start_sync_turn (now : Z) : st (Manager * V) bool :=
  let! s := st_get in
  let '(reorg, m) := handle_on_reorg s.1 in
  in_manager (st_put m) ;;
  (match reorg with
   | Some tx_seq => logged (in_node (request_terminate tx_seq))
   | None => st_ret tt
   end) ;;
  sync_once now.

Definition sync_pending_tx (now : Z) (tx_seq : Z) : st (Manager * V) bool :=
  let! completed := in_node (st_reads (λ v, tx_completed v tx_seq)) in
  if completed : bool then in_manager (on_configs (remove_tx tx_seq)) ;; st_ret true else
  let! no_peer_timeout := in_node (sync_tx now tx_seq) in
  (if no_peer_timeout : bool then in_manager (on_configs (downgrade_tx_to_pending tx_seq)) else st_ret false) ;;
  st_ret no_peer_timeout.

(** One turn of the loop of [start_sync_pending_txs]. *)
Definition sync_pending_turn (gen_range : Z → Z) (now : Z) : st (Manager * V) bool :=
  let! picked := st_reads (λ s, random_tx gen_range (configs s.1)) in
  match picked with
  | Some tx_seq => sync_pending_tx now tx_seq
  | None => st_ret false
  end.

End Tasks.
