(* ===== verification/AutoSyncProofs.v ===== *)
(** * No file is forgotten

    The tasks of the synchronisation manager take turns in any order, with
    announcements, completed files and reverted transactions in between.  At
    every point each transaction below [next_tx_seq] is complete, or queued,
    or at or above a reverted transaction that is still to be handled. *)

From S2P Require Import Prelude Bytes SyncStore SyncStoreProofs ChunkPool SyncController AutoSync.
Local Open Scope Z_scope.

(** ** Queued transactions *)

Definition queued (a : sync_state) (s : Z) : Prop := s ∈ pending a ∨ s ∈ ready a.

Lemma swap_remove_elem s x l : NoDup l → s ∈ l → x ∈ swap_remove s l ↔ x ∈ l ∧ x ≠ s.
Proof.
  intros Hnd Hs. pose proof (swap_remove_not_in s l Hnd) as Hn.
  rewrite (swap_remove_permutation s l Hnd Hs) at 2. rewrite elem_of_cons.
  split; [intros Hx; split; [by right|by intros ->]|intros [[->|Hx] Hne]; done].
Qed.

(** What an operation does to the set of queued transactions. *)
Definition queue_effect (op : sync_op) (a : sync_state) (x : Z) : Prop :=
  match op with
  | AddPending s => queued a x ∨ x = s
  | RemoveTx s => queued a x ∧ x ≠ s
  | _ => queued a x
  end.

Lemma spec_sync_queued op a db x :
  holds_sync a db → queued (spec_sync op a).2 x ↔ queue_effect op a x.
Proof.
  intros [Hp Hr Hd _ _ _]. apply q_nodup in Hp, Hr. destruct a as [p r n m]. unfold queue_effect, queued.
  simpl in *. assert (∀ y, y ∈ p → y ∈ r → False) as Hd' by set_solver.
  destruct op as [s|s|s|s|s|s]; simpl; repeat case_decide; simpl;
    rewrite ?elem_of_app, ?list_elem_of_singleton, ?swap_remove_elem by done; try tauto;
    specialize (Hd' x); simpl; destruct (decide (x = s)) as [->|Hne]; tauto.
Qed.

(** Distinct transactions below a limit are not more than the limit. *)
Lemma nodup_bounded l limit : NoDup l → Forall (λ s, 0 ≤ s < limit) l → 0 ≤ limit → zlen l ≤ limit.
Proof.
  intros Hnd Hb Hl. unfold zlen.
  assert (length l ≤ length (seqZ 0 limit))%nat as Hle.
  { apply submseteq_length, NoDup_submseteq; [done|]. intros x Hx.
    rewrite Forall_forall in Hb. apply elem_of_seqZ. specialize (Hb x Hx). lia. }
  rewrite length_seqZ in Hle. lia.
Qed.

Section Auto.
Context {E P V : Type} `{FileSync E P V}.

(** The chain never has [limit] transactions, and what the tasks ask of the
    node completes no file less. *)
Context (limit : Z).
Record file_sync_laws : Prop := {
  fl_limit : 0 < limit < 2 ^ 64 - 1;
  fl_known v s : tx_known v s = Ok true → s < limit;
  fl_completed v s : tx_completed v s = Ok true → s < limit;
  fl_status v v' r x s : request_status x v = (r, v') → tx_completed v s = Ok true → tx_completed v' s = Ok true;
  fl_sync_file v v' r x s : request_sync_file x v = (r, v') → tx_completed v s = Ok true → tx_completed v' s = Ok true;
  fl_terminate v v' r x s : request_terminate x v = (r, v') → tx_completed v s = Ok true → tx_completed v' s = Ok true }.
Context (Hlaws : file_sync_laws).

(** The manager, the node, and the [Reverted] events not yet received. *)
Notation auto := (Manager * V * list Z)%type.

(** [Some] is known to be handled later: a reverted transaction at or below [s]. *)
Definition covered (a : sync_state) (m : Manager) (v : V) (events : list Z) (s : Z) : Prop :=
  tx_completed v s = Ok true ∨ queued a s ∨ ∃ r, r ∈ reverted_tx_seq m :: events ∧ r ≤ s.

Record mgr_inv (a : sync_state) (m : Manager) : Prop := {
  mi_holds : holds_sync a (configs m);
  mi_next : 0 ≤ next_tx_seq m ≤ limit;
  mi_max : u64 (max_tx_seq m);
  mi_reverted : u64 (reverted_tx_seq m);
  mi_queued : ∀ s, queued a s → 0 ≤ s < limit }.

Definition auto_inv (s : auto) : Prop :=
  let '(m, v, events) := s in
  ∃ a, mgr_inv a m ∧ Forall u64 events ∧ ∀ x, 0 ≤ x < next_tx_seq m → covered a m v events x.

(** ** Operations of [sync_store] inside the manager *)

Lemma sync_room a m : mgr_inv a m → zlen (pending a) + 1 < 2 ^ 64 ∧ zlen (ready a) + 1 < 2 ^ 64.
Proof.
  intros [[Hp Hr _ _ _ _] _ _ _ Hq]. pose proof (fl_limit Hlaws).
  assert (zlen (pending a) ≤ limit).
  { apply nodup_bounded; [by eapply q_nodup| |lia]. apply Forall_forall. intros x Hx. apply Hq. by left. }
  assert (zlen (ready a) ≤ limit).
  { apply nodup_bounded; [by eapply q_nodup| |lia]. apply Forall_forall. intros x Hx. apply Hq. by right. }
  lia.
Qed.

Lemma on_configs_run op a m :
  mgr_inv a m → sync_ok op a → (∀ x, queue_effect op a x → 0 ≤ x < limit) →
  ∃ db', on_configs (exec_sync op) m =
           (Ok (spec_sync op a).1, MkManager (next_tx_seq m) (max_tx_seq m) (reverted_tx_seq m) db') ∧
    mgr_inv (spec_sync op a).2 (MkManager (next_tx_seq m) (max_tx_seq m) (reverted_tx_seq m) db').
Proof.
  intros Hi Hok Heff. pose proof (exec_sync_run op a (configs m) Hok (mi_holds _ _ Hi)) as Hrun.
  pose proof (λ x, spec_sync_queued op a (configs m) x (mi_holds _ _ Hi)) as Hq.
  destruct (spec_sync op a) as [b a']. destruct Hrun as (db' & Hex & Hh). simpl in *.
  exists db'. split; [unfold on_configs, st_zoom; by rewrite Hex|].
  destruct Hi. split; simpl; try done. intros s Hs. apply Heff. by apply Hq.
Qed.

(** The transactions queued by an operation, stated on its result. *)
Lemma effect_queued op a m x : mgr_inv a m → queue_effect op a x → queued (spec_sync op a).2 x.
Proof. intros Hi He. by eapply spec_sync_queued; [apply Hi|]. Qed.

(** ** The handlers *)

Lemma advance_run pending a m :
  mgr_inv a m → next_tx_seq m ≤ max_tx_seq m → next_tx_seq m < limit →
  ∃ m' a', advance pending m = (Ok tt, m') ∧ mgr_inv a' m' ∧ next_tx_seq m' = next_tx_seq m + 1 ∧
    reverted_tx_seq m' = reverted_tx_seq m ∧ (∀ x, queued a x → queued a' x) ∧
    (pending = true → queued a' (next_tx_seq m)).
Proof.
  intros Hi Hmax Hlim. pose proof (mi_next _ _ Hi) as Hn. pose proof (fl_limit Hlaws) as Hl.
  assert (∃ b m1 a1, (if pending then on_configs (add_pending_tx (next_tx_seq m)) else st_ret false) m = (Ok b, m1) ∧
    mgr_inv a1 m1 ∧ next_tx_seq m1 = next_tx_seq m ∧ max_tx_seq m1 = max_tx_seq m ∧
    reverted_tx_seq m1 = reverted_tx_seq m ∧ (∀ x, queued a x → queued a1 x) ∧
    (pending = true → queued a1 (next_tx_seq m))) as (b & m1 & a1 & Hp & Hi1 & Hn1 & Hm1 & Hr1 & Hq1 & Hnew).
  { destruct pending.
    - destruct (on_configs_run (AddPending (next_tx_seq m)) a m Hi) as (db' & Hex & Hi').
      + destruct (sync_room _ _ Hi). split; [unfold u64; lia|done].
      + intros x [Hx| ->]; [by apply (mi_queued _ _ Hi)|lia].
      + eexists _, _, _. split; [exact Hex|]. split_and!; [exact Hi'|done|done|done|..].
        * intros x Hx. apply (effect_queued _ _ _ _ Hi). by left.
        * intros _. apply (effect_queued _ _ _ _ Hi). by right.
    - exists false, m, a. by split_and!. }
  destruct (on_configs_run (SetNext (next_tx_seq m + 1)) a1 m1 Hi1) as (db' & Hex & Hi').
  { unfold sync_ok, u64. lia. }
  { intros x Hx. by apply (mi_queued _ _ Hi1). }
  unfold advance, move_forward, st_get, st_bind. rewrite (proj2 (Z.ltb_ge _ _)) by lia.
  rewrite Hp. unfold st_lift, uadd. rewrite (proj2 (Z.ltb_lt _ _)) by lia.
  change (on_configs (set_next_tx_seq (next_tx_seq m + 1)) m1) with
    (st_zoom configs (λ db m, MkManager (next_tx_seq m) (max_tx_seq m) (reverted_tx_seq m) db)
       (set_next_tx_seq (next_tx_seq m + 1)) m1).
  unfold st_zoom, set_next_tx_seq, st_modify. simpl.
  unfold on_configs, st_zoom in Hex. simpl in Hex. injection Hex as _ Hdb.
  eexists _, _. split; [reflexivity|]. rewrite Hdb.
  split_and!; [|simpl; lia|done| |].
  - destruct Hi' as [Hh _ Hm Hr Hq]. split; simpl in *; [exact Hh|lia|done|done|done].
  - intros x Hx. apply (effect_queued (SetNext _) _ _ _ Hi1). by apply Hq1.
  - intros Hpe. apply (effect_queued (SetNext _) _ _ _ Hi1). by apply Hnew.
Qed.

Lemma update_on_announcement_run s a m :
  mgr_inv a m → u64 s →
  ∃ m' a', update_on_announcement s m = (Ok tt, m') ∧ mgr_inv a' m' ∧
    next_tx_seq m' = next_tx_seq m ∧ reverted_tx_seq m' = reverted_tx_seq m ∧ (∀ x, queued a x → queued a' x).
Proof.
  intros Hi Hs. unfold update_on_announcement, st_get, st_bind.
  destruct (_ || _).
  - destruct (on_configs_run (SetMax s) a m Hi Hs) as (db' & Hex & Hi').
    { intros x Hx. by apply (mi_queued _ _ Hi). }
    unfold on_configs, st_zoom in *. simpl in *. injection Hex as _ Hdb.
    eexists _, _. split; [reflexivity|]. simpl. rewrite Hdb. split_and!; [|done|done|].
    + destruct Hi' as [Hh Hn _ Hr Hq]. split; simpl in *; [exact Hh|done|done|done|done].
    + intros x Hx. by apply (effect_queued (SetMax s) _ _ _ Hi).
  - destruct (_ <=? _); [exists m, a; by split_and!|].
    destruct (on_configs_run (Upgrade s) a m Hi) as (db' & Hex & Hi').
    { destruct (sync_room _ _ Hi). split; [done|done]. }
    { intros x Hx. by apply (mi_queued _ _ Hi). }
    unfold logged. change (upgrade_tx_to_ready s) with (exec_sync (Upgrade s)). rewrite Hex.
    eexists _, _. split; [reflexivity|]. split_and!; [exact Hi'|done|done|].
    intros x Hx. by apply (effect_queued (Upgrade s) _ _ _ Hi).
Qed.

Lemma sync_tx_keeps nw x v r v' :
  sync_tx nw x v = (r, v') →
  (∀ s, tx_completed v s = Ok true → tx_completed v' s = Ok true) ∧ (r = Ok true → x < limit).
Proof.
  unfold sync_tx, st_reads, st_bind, st_ret. intros Hx.
  destruct (tx_known v x) as [[]|msg|msg] eqn:Hk; simpl in Hx; [|by simplify_eq..].
  pose proof (fl_known Hlaws _ _ Hk) as Hlim. split; [|done]. intros s Hs.
  destruct (request_status x v) as [o v1] eqn:Hr.
  pose proof (fl_status Hlaws _ _ _ _ _ Hr Hs) as Hs1.
  destruct o as [o| |]; [|by simplify_eq..].
  assert (∀ r v', (let (r, s') := request_sync_file x v1 in
                   match r with Ok _ => (Ok false, s') | Err e => (Err e, s') | Panic e => (Panic e, s') end)
                  = (r, v') → tx_completed v' s = Ok true) as Hf.
  { intros r0 v0 Hrun. destruct (request_sync_file x v1) as [o1 v2] eqn:Hsf.
    pose proof (fl_sync_file Hlaws _ _ _ _ _ Hsf Hs1). destruct o1; by simplify_eq. }
  destruct o as [[]|]; first [by eapply Hf|by simplify_eq].
Qed.

(** A change of the manager and the node that forgets nothing. *)
Lemma auto_inv_keep a a' m m' v v' events :
  mgr_inv a m → Forall u64 events → (∀ x, 0 ≤ x < next_tx_seq m → covered a m v events x) →
  mgr_inv a' m' → reverted_tx_seq m' = reverted_tx_seq m →
  (∀ x, queued a x → queued a' x) → (∀ x, tx_completed v x = Ok true → tx_completed v' x = Ok true) →
  (∀ x, next_tx_seq m ≤ x < next_tx_seq m' → tx_completed v' x = Ok true ∨ queued a' x) →
  auto_inv (m', v', events).
Proof.
  intros _ Hev Hcov Hi' Hr Hq Hv Hnew. exists a'. split_and!; [done..|]. intros x Hx. unfold covered.
  destruct (decide (x < next_tx_seq m)) as [Hlt|Hge].
  - rewrite Hr. destruct (Hcov x ltac:(lia)) as [Hc|[Hc|Hc]]; auto.
  - destruct (Hnew x ltac:(lia)); auto.
Qed.

Lemma sync_once_inv nw m v events r m' v' :
  auto_inv (m, v, events) → sync_once nw (m, v) = (r, (m', v')) → auto_inv (m', v', events).
Proof.
  intros (a & Hi & Hev & Hcov) Hrun. unfold sync_once, st_get, st_bind, in_node, in_manager, st_zoom, st_reads, st_ret in Hrun.
  simpl in Hrun. assert (auto_inv (m, v, events)) as Hsame by (by exists a).
  destruct (Z.ltb_spec (max_tx_seq m) (next_tx_seq m)) as [Hmax|Hmax]; [by simplify_eq|].
  cbn [fst snd] in Hrun. destruct (tx_completed v (next_tx_seq m)) as [[]|msg|msg] eqn:Hc; [| |by simplify_eq..].
  - destruct (advance_run false a m Hi Hmax (fl_completed Hlaws _ _ Hc)) as (m1 & a1 & Hadv & Hi1 & Hn1 & Hr1 & Hq1 & _).
    cbn [fst snd] in Hrun. rewrite Hadv in Hrun. simplify_eq. eapply (auto_inv_keep a a1); [done..|].
    intros x Hx. left. replace x with (next_tx_seq m) by lia. done.
  - simpl in Hrun. destruct (sync_tx nw (next_tx_seq m) v) as [o v1] eqn:Hst.
    destruct (sync_tx_keeps _ _ _ _ _ Hst) as [Hkeep Hlim].
    destruct o as [[]|msg|msg]; simpl in Hrun.
    + destruct (advance_run true a m Hi Hmax (Hlim eq_refl)) as (m1 & a1 & Hadv & Hi1 & Hn1 & Hr1 & Hq1 & Hnew).
      cbn [fst snd] in Hrun. rewrite Hadv in Hrun. simplify_eq. eapply (auto_inv_keep a a1); [done..|].
      intros x Hx. right. replace x with (next_tx_seq m) by lia. auto.
    + simplify_eq. eapply (auto_inv_keep a a); try done. intros; lia.
    + simplify_eq. eapply (auto_inv_keep a a); try done. intros; lia.
    + simplify_eq. eapply (auto_inv_keep a a); try done. intros; lia.
Qed.

Lemma set_reverted_inv r m v events : auto_inv (m, v, r :: events) → auto_inv ((set_reverted r m).2, v, events).
Proof.
  intros (a & Hi & Hev & Hcov). apply Forall_cons in Hev as [Hr Hev]. exists a. unfold set_reverted.
  destruct (Z.leb_spec (reverted_tx_seq m) r) as [Hle|Hgt]; simpl; split_and!; try done.
  - intros x Hx. destruct (Hcov x Hx) as [Hc|[Hc|(r' & Hin & Hle')]]; [by left|by right; left|].
    right; right. rewrite !elem_of_cons in Hin. destruct Hin as [->|[->|Hin]].
    + eexists. split; [by left|done].
    + exists (reverted_tx_seq m). split; [by left|lia].
    + exists r'. split; [by right|done].
  - destruct Hi. by split.
  - intros x Hx. destruct (Hcov x Hx) as [Hc|[Hc|(r' & Hin & Hle')]]; [by left|by right; left|].
    right; right. rewrite !elem_of_cons in Hin. simpl. destruct Hin as [->|[->|Hin]].
    + exists r. split; [by left|lia].
    + eexists. split; [by left|done].
    + exists r'. split; [by right|done].
Qed.

Lemma handle_on_reorg_inv m v events : auto_inv (m, v, events) → auto_inv ((handle_on_reorg m).2, v, events).
Proof.
  intros (a & Hi & Hev & Hcov). unfold handle_on_reorg, handle_on_reorg_loaded.
  pose proof (mi_next _ _ Hi) as Hn. pose proof (mi_reverted _ _ Hi) as Hr. pose proof (fl_limit Hlaws) as Hl.
  destruct (Z.eqb_spec (reverted_tx_seq m) u64_MAX) as [Heq|Hne]; [by exists a|]. simpl.
  assert (∀ x, 0 ≤ x < next_tx_seq m → x < reverted_tx_seq m →
    tx_completed v x = Ok true ∨ queued a x ∨ ∃ r, r ∈ u64_MAX :: events ∧ r ≤ x) as Hbelow.
  { intros x Hx Hlt. destruct (Hcov x Hx) as [Hc|[Hc|(r' & Hin & Hle')]]; [by left|by right; left|].
    right; right. apply elem_of_cons in Hin as [->|Hin]; [lia|]. exists r'. split; [by right|done]. }
  destruct (Z.ltb_spec (next_tx_seq m) (reverted_tx_seq m)) as [Hlt|Hge]; simpl;
    exists a; (split_and!; [|done|intros x Hx; simpl in *; apply Hbelow; lia]);
    destruct Hi; split; simpl; unfold u64, u64_MAX in *; try done; lia.
Qed.

Lemma sync_pending_tx_inv nw s m v events r m' v' :
  auto_inv (m, v, events) → u64 s → sync_pending_tx nw s (m, v) = (r, (m', v')) → auto_inv (m', v', events).
Proof.
  intros (a & Hi & Hev & Hcov) Hs Hrun.
  unfold sync_pending_tx, st_bind, in_node, in_manager, st_zoom, st_reads, st_ret in Hrun. simpl in Hrun.
  assert (auto_inv (m, v, events)) as Hsame by (by exists a).
  assert (sync_ok (Downgrade s) a) as Hroom by (destruct (sync_room _ _ Hi); by split).
  destruct (tx_completed v s) as [[]|msg|msg] eqn:Hc; [| |by simplify_eq..].
  - destruct (on_configs_run (RemoveTx s) a m Hi Hroom) as (db' & Hex & Hi').
    { intros x [Hx _]. by apply (mi_queued _ _ Hi). }
    simpl exec_sync in Hex. cbn [fst snd] in Hrun. rewrite Hex in Hrun. simplify_eq. eexists. split_and!; [exact Hi'|done|].
    intros x Hx. simpl in Hx. destruct (decide (x = s)) as [->|Hne]; [by left|].
    destruct (Hcov x Hx) as [Hcx|[Hcx|Hcx]]; [by left| |by right; right].
    right; left. by apply (effect_queued _ _ _ _ Hi).
  - simpl in Hrun. destruct (sync_tx nw s v) as [o v1] eqn:Hst.
    destruct (sync_tx_keeps _ _ _ _ _ Hst) as [Hkeep _].
    destruct o as [[]|msg|msg]; simpl in Hrun;
      try (simplify_eq; eapply (auto_inv_keep a a); try done; intros; lia).
    destruct (on_configs_run (Downgrade s) a m Hi Hroom) as (db' & Hex & Hi').
    { intros x Hx. by apply (mi_queued _ _ Hi). }
    simpl exec_sync in Hex. cbn [fst snd] in Hrun. rewrite Hex in Hrun. simplify_eq.
    eapply (auto_inv_keep a _ m); [done|done|done|exact Hi'|done| |done|simpl; intros; lia].
    intros x Hx. by apply (effect_queued (Downgrade s) _ _ _ Hi).
Qed.

(** ** Turns in any order *)

Inductive auto_step : auto → auto → Prop :=
| as_store m v v' events reverts :
    (* the store completes files and reverts transactions, each reverted
       sequence number being announced by an event *)
    (∀ s, tx_completed v s = Ok true → tx_completed v' s = Ok true ∨ ∃ r, r ∈ reverts ∧ r ≤ s) →
    Forall u64 reverts →
    auto_step (m, v, events) (m, v', events ++ reverts)
| as_event m v r events : auto_step (m, v, r :: events) ((set_reverted r m).2, v, events)
| as_announce m m' v events s :
    u64 s → update_on_announcement s m = (Ok tt, m') → auto_step (m, v, events) (m', v, events)
| as_sync m v m' v' events nw r :
    start_sync_turn nw (m, v) = (r, (m', v')) → auto_step (m, v, events) (m', v', events)
| as_pending m v m' v' events gen_range nw r :
    (∀ n, 0 < n → 0 ≤ gen_range n < n) →
    sync_pending_turn gen_range nw (m, v) = (r, (m', v')) → auto_step (m, v, events) (m', v', events).

Lemma start_sync_turn_inv nw m v events r m' v' :
  auto_inv (m, v, events) → start_sync_turn nw (m, v) = (r, (m', v')) → auto_inv (m', v', events).
Proof.
  intros Hi Hrun. apply handle_on_reorg_inv in Hi. unfold start_sync_turn, st_get, st_bind in Hrun. simpl in Hrun.
  destruct (handle_on_reorg m) as [reorg m1]. simpl in *.
  destruct reorg as [s|]; simpl in Hrun; [|by eapply sync_once_inv].
  unfold logged, in_node, st_zoom in Hrun. simpl in Hrun.
  destruct (request_terminate s v) as [o v1] eqn:Ht.
  assert (auto_inv (m1, v1, events)) as Hi1.
  { destruct Hi as (a & Hi & Hev & Hcov). eapply (auto_inv_keep a a); try done; [|intros; lia].
    intros x. by apply (fl_terminate Hlaws _ _ _ _ _ Ht). }
  destruct o as [[]|msg|msg]; [by eapply sync_once_inv|by eapply sync_once_inv|by simplify_eq].
Qed.

Lemma auto_step_inv s s' : auto_step s s' → auto_inv s → auto_inv s'.
Proof.
  intros [m v v' events reverts Hst Hrev|m v r events|m m' v events x Hu Han|m v m' v' events nw r Hrun
         |m v m' v' events gen_range nw r Hgen Hrun] Hi.
  - destruct Hi as (a & Hi & Hev & Hcov). exists a. split_and!; [done|by apply Forall_app|].
    intros x Hx. destruct (Hcov x Hx) as [Hc|[Hc|(r & Hin & Hle)]]; [|by right; left|].
    + destruct (Hst x Hc) as [|(r & Hin & Hle)]; [by left|]. right; right. exists r.
      split; [|done]. right. apply elem_of_app. by right.
    + right; right. exists r. split; [|done]. apply elem_of_cons in Hin as [->|Hin]; [by left|].
      right. apply elem_of_app. by left.
  - by apply set_reverted_inv.
  - destruct Hi as (a & Hi & Hev & Hcov).
    destruct (update_on_announcement_run x a m Hi Hu) as (m1 & a1 & Hr1 & Hi1 & Hn1 & Hrv1 & Hq1).
    rewrite Hr1 in Han. simplify_eq. eapply (auto_inv_keep a a1); try done. intros; lia.
  - by eapply start_sync_turn_inv.
  - unfold sync_pending_turn, st_reads, st_bind in Hrun. simpl in Hrun.
    destruct Hi as (a & Hi & Hev & Hcov). assert (auto_inv (m, v, events)) as Hsame by (by exists a).
    destruct (random_tx_run gen_range a (configs m) Hgen (mi_holds _ _ Hi)) as (o & Ho & Hin).
    rewrite Ho in Hrun. destruct o as [x|]; [|unfold st_ret in Hrun; by simplify_eq].
    eapply sync_pending_tx_inv; [done| |done]. pose proof (fl_limit Hlaws).
    assert (0 ≤ x < limit) by (apply (mi_queued _ _ Hi); unfold queued; tauto). unfold u64. lia.
Qed.

Lemma auto_reaches_inv s s' : rtc auto_step s s' → auto_inv s → auto_inv s'.
Proof. induction 1; [done|]. intros Hi. eauto using auto_step_inv. Qed.

Lemma auto_start v : auto_inv (MkManager 0 u64_MAX u64_MAX ∅, v, []).
Proof.
  exists (mk_sync [] [] None None). pose proof (fl_limit Hlaws). split_and!; [|done|simpl; intros; lia].
  split; simpl; [apply holds_sync_start|lia|by unfold u64, u64_MAX; lia|by unfold u64, u64_MAX; lia|].
  intros s [Hs|Hs]; by apply not_elem_of_nil in Hs.
Qed.

End Auto.
