(* ===== verification/SyncService.v ===== *)
(** * The sync service

    Model of [node/sync/src/service.rs]: one [Controller] per file in
    synchronisation, the handlers of network messages and of the requests of
    the manager, and the answers to other nodes.  [env_of] gives what a
    handler reads from outside for the file of a controller (clock, random
    choice, announcements).  Messages sent by the service are in [svc_sent],
    those of a controller in its [ctx]. *)

From S2P Require Import Prelude Bytes IonianSpec SharedTypes SegmentProof SyncStore ChunkPool SyncController AutoSync.
Local Open Scope Z_scope.

(** The reads of the log store. *)
Class LogStoreRead (E T : Type) := {
  read_tx : T → Z → res (option (Transaction E));
  read_completed : T → Z → res bool;
  read_chunks : T → Z → Z → Z → res (option (ChunkArrayWithProof E));
}.

Section Service.
Context {E : Type} `{EqDecision E} {P : Type} `{Countable P} {A R T : Type}.
Context `{LogStoreWrite E T} `{RangeProofStore E T} `{LogStoreRead E T}.
Context (tx_hash : Transaction E → E) (max_sync_files : nat).

(** Messages of the service; [R] is the id of a request of a peer. *)
Inductive ServiceMessage :=
| BanPeer (peer_id : P) (msg : string)
| ReportTolerance (peer_id : P) (msg : string)
| SendErrorResponse (peer_id : P) (id : R) (reason : string)
| SendChunks (peer_id : P) (id : R) (chunks : ChunkArrayWithProof E).

Record GetChunksRequest := MkGetChunks { req_tx : TxID E; index_start : Z; index_end : Z }.

Record Service := MkService {
  controllers : gmap Z (Controller E P A);
  svc_store : T;
  manager : Manager;
  svc_sent : list ServiceMessage;
}.

Definition set_controllers cs (s : Service) : Service := MkService cs (svc_store s) (manager s) (svc_sent s).
Definition set_store t (s : Service) : Service := MkService (controllers s) t (manager s) (svc_sent s).
Definition set_manager m (s : Service) : Service := MkService (controllers s) (svc_store s) m (svc_sent s).
Definition svc_send (msg : ServiceMessage) : st Service unit :=
  st_modify (λ s, MkService (controllers s) (svc_store s) (manager s) (svc_sent s ++ [msg])).
Definition put_controller (tx_seq : Z) c : st Service unit :=
  st_modify (λ s, set_controllers (<[tx_seq := c]> (controllers s)) s).

(** A call of the asynchronous store in a handler: a panic is an error. *)
Definition read_store {X} (f : T → res X) : st Service X := λ s,
  match f (svc_store s) with
  | Panic _ => (Err "Receiver error", s)
  | r => (r, s)
  end.

(** [tx.id()] *)
Definition tx_id_of (tx : Transaction E) : TxID E := MkTxID (tx_seq tx) (tx_hash tx).

(** ** Events for all controllers *)

Definition for_controllers (f : Controller E P A → res (Controller E P A)) : st Service unit :=
  let! s := st_get in
  st_for (map_to_list (controllers s)) (λ '(seq, c),
    let! c := st_lift (f c) in put_controller seq c).

Context (env_of : TxID E → Env P A).

Definition svc_transition (c : Controller E P A) : res (Controller E P A) := transition (env_of (tx_id c)) c.

Definition svc_on_dail_failed (peer_id : P) (err : DialError) : st Service unit :=
  for_controllers (λ c, svc_transition (on_dail_failed (env_of (tx_id c)) peer_id err c)).
Definition svc_on_peer_connected (peer_id : P) : st Service unit :=
  for_controllers (λ c, svc_transition (on_peer_connected (env_of (tx_id c)) peer_id c)).
Definition svc_on_peer_disconnected (peer_id : P) : st Service unit :=
  for_controllers (λ c, svc_transition (on_peer_disconnected peer_id c)).

(** ** Serving chunks *)

Definition handle_chunks_request_with_db_err (peer_id : P) (request_id : R) (request : GetChunksRequest)
    : st Service unit :=
  if index_end request <=? index_start request then svc_send (BanPeer peer_id "Invalid chunk indices") else
  let! tx := read_store (λ t, read_tx t (id_seq (req_tx request))) in
  match tx with
  | None => svc_send (BanPeer peer_id "Tx not found")
  | Some tx =>
      (if bool_decide (tx_id_of tx = req_tx request) then st_ret tt
       else svc_send (SendErrorResponse peer_id request_id "Tx not found (Reverted)")) ;;
      if bytes_to_chunks (tx_size tx) <? index_end request
      then svc_send (BanPeer peer_id "Chunk index out of bound") else
      let! finalized := read_store (λ t, read_completed t (id_seq (req_tx request))) in
      if negb finalized then
        svc_send (ReportTolerance peer_id "Tx not finalized") ;;
        svc_send (SendErrorResponse peer_id request_id "Tx not finalized")
      else
      let! result := read_store (λ t, read_chunks t (id_seq (req_tx request)) (index_start request) (index_end request)) in
      match result with
      | Some chunks => svc_send (SendChunks peer_id request_id chunks)
      | None => svc_send (SendErrorResponse peer_id request_id "Chunks not found")
      end
  end.

Definition on_get_chunks_request (peer_id : P) (request_id : R) (request : GetChunksRequest)
    : st Service unit := λ s,
  match handle_chunks_request_with_db_err peer_id request_id request s with
  | (Err _, s) => svc_send (SendErrorResponse peer_id request_id "DB error") s
  | r => r
  end.

(** ** Responses *)

(** A method of a controller that works on the store. *)
Definition with_controller (tx_seq : Z) (f : st (Controller E P A * T) unit) : st Service unit := λ s,
  match controllers s !! tx_seq with
  | None => (Ok tt, s)
  | Some c =>
      let '(r, (c, t)) := f (c, svc_store s) in
      (r, set_controllers (<[tx_seq := c]> (controllers s)) (set_store t s))
  end.

(** [controller.transition()] *)
Definition ctl_transition : st (Controller E P A * T) unit := λ s,
  match svc_transition s.1 with
  | Ok c => (Ok tt, (c, s.2))
  | Err msg => (Err msg, s)
  | Panic msg => (Panic msg, s)
  end.

Definition on_chunks_response (peer_id : P) (request_tx : TxID E) (response : ChunkArrayWithProof E)
    : st Service unit :=
  with_controller (id_seq request_tx)
    (let! s := st_get in
     on_response (env_of (tx_id s.1)) peer_id response ;; ctl_transition).

Definition on_rpc_error (peer_id : P) (request_tx : TxID E) : st Service unit :=
  with_controller (id_seq request_tx)
    (modify_ctl (λ c, on_request_failed (env_of (tx_id c)) peer_id c) ;; ctl_transition).

(** ** Starting and stopping *)

Definition on_start_sync_file (seq : Z) (maybe_peer : option (P * A)) : st Service unit :=
  let! s := st_get in
  (match controllers s !! seq with
   | Some c =>
       match state c with
       | Failed (TxReverted _) => st_modify (λ s, set_controllers (delete seq (controllers s)) s)
       | _ => st_ret tt
       end
   | None => st_ret tt
   end) ;;
  let! s := st_get in
  let! c :=
    match controllers s !! seq with
    | Some c => st_ret c
    | None =>
        let! tx := read_store (λ t, read_tx t seq) in
        let! tx := st_lift (ok_or tx "transaction not found") in
        let! completed := read_store (λ t, read_completed t seq) in
        st_lift (ensure (negb completed) "File already exists") ;;
        st_ret (Controller_new (now (env_of (tx_id_of tx))) (tx_id_of tx) (bytes_to_chunks (tx_size tx)))
    end in
  let c := match state c with Failed _ => reset (env_of (tx_id c)) c | _ => c end in
  let c := match maybe_peer with
           | Some (peer_id, a) => (on_peer_found (env_of (tx_id c)) peer_id a c).2
           | None => c
           end in
  put_controller seq c ;;
  let! c := st_lift (svc_transition c) in
  put_controller seq c.

Definition on_announce_file_gossip (id : TxID E) (peer_id : P) (a : A) : st Service unit :=
  st_zoom manager set_manager (update_on_announcement (id_seq id)) ;;
  let! s := st_get in
  match controllers s !! id_seq id with
  | Some c =>
      let c := (on_peer_found (env_of (tx_id c)) peer_id a c).2 in
      let! c := st_lift (svc_transition c) in
      put_controller (id_seq id) c
  | None => λ s,
      match read_store (λ t, read_completed t (id_seq id)) s with
      | (Ok true, s) | (Err _, s) => (Ok tt, s)
      | (Ok false, s) => logged (on_start_sync_file (id_seq id) (Some (peer_id, a))) s
      | (Panic msg, s) => (Panic msg, s)
      end
  end.

Definition on_terminate_file_sync (min_tx_seq : Z) : st Service nat := λ s,
  let reverted := filter (λ x : Z * Controller E P A, min_tx_seq ≤ x.1) (controllers s) in
  (Ok (size reverted), set_controllers (filter (λ x, ¬ min_tx_seq ≤ x.1) (controllers s)) s).

Definition on_heartbeat : st Service unit :=
  for_controllers svc_transition ;;
  st_modify (λ s, set_controllers
    (filter (λ x : Z * Controller E P A, match state x.2 with Completed => false | _ => true end = true)
       (controllers s)) s).

(** ** Requests of the manager *)

Definition sync_status (seq : Z) : st Service (option (SyncState E P)) :=
  st_reads (λ s, Ok (state <$> controllers s !! seq)).

(** The reply is the error message, empty when the synchronisation started. *)
Definition request_file (seq : Z) : st Service string := λ s,
  if bool_decide (controllers s !! seq = None) && (max_sync_files <=? size (controllers s))%nat
  then (Ok "max sync file limitation reached", s)
  else match on_start_sync_file seq None s with
       | (Ok _, s) => (Ok EmptyString, s)
       | (Err msg, s) => (Ok msg, s)
       | (Panic msg, s) => (Panic msg, s)
       end.

End Service.

Arguments ServiceMessage E P R : clear implicits.
Arguments GetChunksRequest E : clear implicits.
Arguments Service E P {_ _} A R T.
