(* ===== verification/SyncServiceProofs.v ===== *)
(** * The sync service keeps its controllers well-formed

    Every handler leaves each controller under the number of its transaction
    and in a well-formed state; the service implements the interface that the
    manager's tasks are proved against. *)

From S2P Require Import Prelude Bytes IonianSpec SharedTypes SegmentProof SyncStore SyncStoreProofs ChunkPool SyncController SyncControllerProofs AutoSync AutoSyncProofs SyncService.
Local Open Scope Z_scope.

Section Proofs.
Context {E : Type} `{EqDecision E} {P : Type} `{Countable P} {A R T : Type}.
Context `{LogStoreWrite E T} `{RangeProofStore E T} `{LogStoreRead E T}.
Context (tx_hash : Transaction E → E) (max_sync_files : nat) (env_of : TxID E → Env P A).
Implicit Types (s : Service E P A R T) (c : Controller E P A).

(** Random choices are choices; a transaction of the store has the number it
    was asked for and is not empty. *)
Context (Henv : ∀ id, chooses (choose (env_of id))).
Context (Htx : ∀ t seq tx, read_tx t seq = Ok (Some tx) → tx_seq tx = seq ∧ 0 < tx_size tx).

Definition svc_inv s : Prop :=
  ∀ seq c, controllers s !! seq = Some c → id_seq (tx_id c) = seq ∧ ctl_inv c.

Definition keeps {X} (h : st (Service E P A R T) X) : Prop :=
  ∀ s r s', svc_inv s → h s = (r, s') → svc_inv s'.

Lemma handler_bind {X Y} (h : st (Service E P A R T) X) (k : X → st (Service E P A R T) Y) :
  keeps h → (∀ x, keeps (k x)) → keeps (st_bind h k).
Proof.
  intros Hh Hk s r s' Hi Hrun. unfold st_bind in Hrun. destruct (h s) as [[x|e|e] s1] eqn:Hs.
  - eapply (Hk x); [by eapply Hh|done].
  - simplify_eq. by eapply Hh.
  - simplify_eq. by eapply Hh.
Qed.

Lemma handler_same {X} (h : st (Service E P A R T) X) :
  (∀ s r s', h s = (r, s') → controllers s' = controllers s) → keeps h.
Proof. intros Hh s r s' Hi Hrun seq c Hc. rewrite (Hh _ _ _ Hrun) in Hc. by apply Hi. Qed.

Lemma handler_ret {X} (x : X) : keeps (st_ret x).
Proof. apply handler_same. intros s r s' [= <- <-]. done. Qed.
Lemma handler_lift {X} (r : res X) : keeps (st_lift r).
Proof. apply handler_same. intros s r' s' [= <- <-]. done. Qed.
Lemma handler_send msg : keeps (svc_send msg).
Proof. apply handler_same. intros s r' s' [= <- <-]. done. Qed.
Lemma handler_read {X} (f : T → res X) : keeps (read_store f).
Proof. apply handler_same. intros s r' s'. unfold read_store. destruct (f _); intros Hr; by simplify_eq. Qed.

Lemma inv_insert s seq c :
  svc_inv s → id_seq (tx_id c) = seq → ctl_inv c → svc_inv (set_controllers (<[seq := c]> (controllers s)) s).
Proof.
  intros Hi Hid Hc q c' Hq. simpl in Hq. apply lookup_insert_Some in Hq as [[<- <-]|[_ Hq]]; [done|by apply Hi].
Qed.

(** Controllers only go away. *)
Lemma inv_subset s cs : svc_inv s → cs ⊆ controllers s → svc_inv (set_controllers cs s).
Proof. intros Hi Hsub seq c Hc. apply Hi. by eapply lookup_weaken. Qed.

(** ** Transactions of controllers do not change *)

Lemma transition_id e c c' : chooses (choose e) → transition e c = Ok c' → tx_id c' = tx_id c.
Proof.
  intros Hch Ht. destruct (transition_run e Hch c) as (c1 & Ht1 & Hl).
  rewrite Ht1 in Ht. injection Ht as <-. revert Hl.
  change (tx_id c) with (tx_id (set_peers (peers_transition (now e) (peers c)) c)).
  generalize (set_peers (peers_transition (now e) (peers c)) c). clear c Ht1.
  induction TRANSITION_FUEL as [|n IH]; intros c Hl; [done|]. simpl in Hl.
  destruct (transition_step_next e c) as (_ & Hid & _).
  destruct (transition_step e c) as [[] c2]; simpl in *; [|by simplify_eq]. rewrite <- Hid. by apply IH.
Qed.

(** What each event of a controller keeps. *)
Definition keeps_ctl (f : Controller E P A → Controller E P A) : Prop :=
  ∀ c, ctl_inv c → ctl_inv (f c) ∧ tx_id (f c) = tx_id c.

Lemma svc_transition_ok c : ctl_inv c → ∃ c', svc_transition env_of c = Ok c' ∧ ctl_inv c' ∧ tx_id c' = tx_id c.
Proof.
  intros Hi. destruct (transition_run (env_of (tx_id c)) (Henv _) c) as (c' & Ht & _).
  exists c'. split_and!; [done|by eapply transition_inv|by eapply transition_id].
Qed.

Lemma keeps_each (f : Controller E P A → res (Controller E P A)) :
  (∀ c c', ctl_inv c → f c = Ok c' → ctl_inv c' ∧ tx_id c' = tx_id c) → keeps (for_controllers f).
Proof.
  intros Hf s r s' Hi Hrun. unfold for_controllers, st_get, st_bind in Hrun.
  assert (Forall (λ x : Z * Controller E P A, id_seq (tx_id x.2) = x.1 ∧ ctl_inv x.2) (map_to_list (controllers s))) as Hall.
  { apply Forall_forall. intros [seq c] Hin%elem_of_map_to_list. by apply Hi. }
  revert s Hi Hrun Hall. intros s0. generalize (map_to_list (controllers s0)). intros l Hi Hrun Hall. revert s0 Hi Hrun.
  induction Hall as [|[seq c] l [Hid Hc] _ IH]; intros s0 Hi Hrun; simpl in Hrun; [by injection Hrun as _ <-|].
  unfold st_bind, st_lift, put_controller, st_modify in Hrun. simpl in *.
  destruct (f c) as [c'|e|e] eqn:Hfc; [|by simplify_eq..].
  eapply IH; [|done]. destruct (Hf c c' Hc Hfc) as [Hi' Hid']. apply inv_insert; [done|congruence|done].
Qed.

Lemma keeps_event (f : Controller E P A → Controller E P A) :
  keeps_ctl f → keeps (for_controllers (λ c, svc_transition env_of (f c))).
Proof.
  intros Hf. apply keeps_each. intros c c' Hi Ht. destruct (Hf c Hi) as [Hi' Hid].
  destruct (svc_transition_ok (f c) Hi') as (c1 & Ht1 & Hi1 & Hid1). rewrite Ht1 in Ht. simplify_eq.
  split; [done|congruence].
Qed.

(** ** The handlers *)

Lemma svc_on_dail_failed_keeps p err : keeps (svc_on_dail_failed env_of p err).
Proof.
  apply (keeps_event (λ c, on_dail_failed (env_of (tx_id c)) p err c)). intros c Hi.
  split; [by apply on_dail_failed_inv|]. unfold on_dail_failed.
  destruct err, (update_state _ _ _ _ _); by case_decide.
Qed.

Lemma svc_on_peer_connected_keeps p : keeps (svc_on_peer_connected env_of p).
Proof.
  apply (keeps_event (λ c, on_peer_connected (env_of (tx_id c)) p c)). intros c Hi.
  split; [by apply on_peer_connected_inv|done].
Qed.

Lemma svc_on_peer_disconnected_keeps p : keeps (svc_on_peer_disconnected env_of p).
Proof.
  apply (keeps_event (on_peer_disconnected p)). intros c Hi.
  split; [|done]. apply ctl_inv_peers; [done|]. apply no_new_force.
Qed.

Lemma on_get_chunks_request_keeps p id req : keeps (on_get_chunks_request tx_hash p id req).
Proof.
  assert (keeps (handle_chunks_request_with_db_err tx_hash p id req)) as Hk.
  { unfold handle_chunks_request_with_db_err. destruct (_ <=? _); [apply handler_send|].
    apply handler_bind; [apply handler_read|]. intros [tx|]; [|apply handler_send].
    apply handler_bind; [destruct (bool_decide _); [apply handler_ret|apply handler_send]|]. intros _.
    destruct (_ <? _); [apply handler_send|]. apply handler_bind; [apply handler_read|]. intros b.
    destruct (negb b); [apply handler_bind; [apply handler_send|intros _; apply handler_send]|].
    apply handler_bind; [apply handler_read|]. intros [ch|]; apply handler_send. }
  intros s r s' Hi Hrun. unfold on_get_chunks_request in Hrun.
  destruct (handle_chunks_request_with_db_err tx_hash p id req s) as [[x|e|e] s1] eqn:Hs;
    [simplify_eq; by eapply Hk| |simplify_eq; by eapply Hk].
  eapply (handler_send (SendErrorResponse p id "DB error")); [|exact Hrun]. by eapply Hk.
Qed.

Lemma with_controller_keeps seq (f : st (Controller E P A * T) unit) :
  (∀ c t r c' t', ctl_inv c → f (c, t) = (r, (c', t')) → ctl_inv c' ∧ tx_id c' = tx_id c) →
  keeps (with_controller seq f).
Proof.
  intros Hf s r s' Hi Hrun. unfold with_controller in Hrun.
  destruct (controllers s !! seq) as [c|] eqn:Hc; [|by simplify_eq].
  destruct (Hi seq c Hc) as [Hid Hci]. destruct (f (c, svc_store s)) as [r1 [c1 t1]] eqn:Hr. simplify_eq.
  destruct (Hf _ _ _ _ _ Hci Hr) as [Hi1 Hid1].
  apply (inv_insert (set_store t1 s)); [exact Hi|congruence|done].
Qed.

Lemma ctl_transition_inv c (t : T) r c' t' :
  ctl_inv c → ctl_transition env_of (c, t) = (r, (c', t')) → ctl_inv c' ∧ tx_id c' = tx_id c.
Proof.
  intros Hi Hrun. unfold ctl_transition in Hrun. simpl in Hrun.
  destruct (svc_transition_ok c Hi) as (c1 & Ht & Hi1 & Hid). rewrite Ht in Hrun. by simplify_eq.
Qed.

Lemma on_chunks_response_keeps p id resp : keeps (on_chunks_response env_of p id resp).
Proof.
  apply with_controller_keeps. intros c t r c' t' Hi Hrun. unfold st_get, st_bind in Hrun. simpl in Hrun.
  destruct (on_response _ p resp (c, t)) as [[[]|e|e] [c1 t1]] eqn:Hr;
    destruct (on_response_inv _ _ _ _ _ _ _ _ Hi Hr) as [Hi1 Hid1]; [|by simplify_eq..].
  destruct (ctl_transition_inv _ _ _ _ _ Hi1 Hrun) as [Hi2 Hid2]. split; [done|congruence].
Qed.

Lemma on_rpc_error_keeps p id : keeps (on_rpc_error env_of p id).
Proof.
  apply with_controller_keeps. intros c t r c' t' Hi Hrun. unfold modify_ctl, st_modify, st_bind in Hrun. simpl in Hrun.
  assert (tx_id (on_request_failed (env_of (tx_id c)) p c) = tx_id c) as Hid.
  { unfold on_request_failed. destruct (mismatch_cases p c) as [(f & tt & since & Hs & ->)|[msg ->]]; [|done].
    unfold handle_response_failure. by destruct (_ <=? _)%nat. }
  destruct (ctl_transition_inv _ _ _ _ _ (on_request_failed_inv (env_of (tx_id c)) p c Hi) Hrun) as [Hi2 Hid2].
  split; [done|congruence].
Qed.

Lemma on_terminate_keeps n : keeps (on_terminate_file_sync n).
Proof. intros s r s' Hi [= <- <-]. apply inv_subset; [done|]. apply map_filter_subseteq. Qed.

Lemma on_heartbeat_keeps : keeps (on_heartbeat env_of).
Proof.
  apply handler_bind; [apply (keeps_event (λ c, c)); by intros c Hi|]. intros _ s r s' Hi [= <- <-].
  apply inv_subset; [done|]. apply map_filter_subseteq.
Qed.

(** The controller that [on_start_sync_file] works on. *)
Lemma prepare_controller c seq peer :
  id_seq (tx_id c) = seq → ctl_inv c →
  let c1 := match state c with Failed _ => reset (env_of (tx_id c)) c | _ => c end in
  let c2 := match peer with Some (p, a) => (on_peer_found (env_of (tx_id c1)) p a c1).2 | None => c1 end in
  id_seq (tx_id c2) = seq ∧ ctl_inv c2.
Proof.
  intros Hid Hi. cbv zeta.
  set (c1 := match state c with Failed _ => reset (env_of (tx_id c)) c | _ => c end).
  assert (id_seq (tx_id c1) = seq ∧ ctl_inv c1) as [Hid1 Hi1].
  { unfold c1. destruct (state c) eqn:Hs; try done. split; [done|]. by eapply reset_inv. }
  destruct peer as [[p a]|]; [|done]. destruct (on_peer_found_only (env_of (tx_id c1)) p a c1) as [Hid2 _ _ _ Hp].
  rewrite Hid2. split; [done|]. unfold on_peer_found in *. destruct (add_new_peer _ _ _ _). by apply ctl_inv_peers.
Qed.

Lemma finish_start_keeps seq c :
  id_seq (tx_id c) = seq → ctl_inv c →
  keeps (put_controller seq c ;;
         let! c := st_lift (svc_transition env_of c) in put_controller seq c).
Proof.
  intros Hid Hi s r s' Hs Hrun. destruct (svc_transition_ok c Hi) as (c1 & Ht & Hi1 & Hid1).
  unfold put_controller, st_modify, st_bind, st_lift in Hrun. rewrite Ht in Hrun. simplify_eq.
  apply inv_insert; [by apply inv_insert|congruence|done].
Qed.

Lemma bytes_to_chunks_pos n : 0 < n → 0 < bytes_to_chunks n.
Proof. intros Hn. unfold bytes_to_chunks, CHUNK_SIZE. destruct (Z.eqb_spec (n mod 256) 0); dlia. Qed.

Lemma on_start_sync_file_keeps seq peer : keeps (on_start_sync_file tx_hash env_of seq peer).
Proof.
  intros s r s' Hi Hrun. unfold on_start_sync_file, st_get, st_bind at 1 2 in Hrun.
  match type of Hrun with context [match ?m s with _ => _ end] => destruct (m s) as [r0 s0] eqn:Hdel end.
  assert (r0 = Ok tt ∧ svc_inv s0) as [-> Hi0].
  { destruct (controllers s !! seq) as [c|]; [destruct (state c) as [| | | | | | | |[]]|];
      unfold st_ret, st_modify in Hdel; simplify_eq; try done.
    split; [done|]. apply inv_subset; [done|]. apply delete_subseteq. }
  unfold st_bind at 1 2 in Hrun.
  match type of Hrun with context [match ?m s0 with _ => _ end] => destruct (m s0) as [r1 s1] eqn:Hget end.
  assert (svc_inv s1 ∧ ∀ c, r1 = Ok c → id_seq (tx_id c) = seq ∧ ctl_inv c) as [Hi1 Hc].
  { destruct (controllers s0 !! seq) as [c0|] eqn:Hc0.
    - unfold st_ret in Hget. simplify_eq. split; [done|]. intros c [= <-]. by apply Hi0.
    - unfold read_store, st_bind, st_lift, ok_or, ensure in Hget.
      destruct (read_tx (svc_store s0) seq) as [[tx|]|e|e] eqn:Hrt; simpl in Hget; [|by simplify_eq..].
      destruct (read_completed (svc_store s0) seq) as [b|e|e]; simpl in Hget; [|by simplify_eq..].
      destruct (negb b); [|by simplify_eq]. unfold st_ret in Hget. simplify_eq. split; [done|].
      intros c [= <-]. destruct (Htx _ _ _ Hrt) as [Hseq Hsz]. split; [done|].
      apply Controller_new_inv. by apply bytes_to_chunks_pos. }
  destruct r1 as [c|e|e]; [|by simplify_eq..]. destruct (Hc c eq_refl) as [Hid Hci].
  destruct (prepare_controller c seq peer Hid Hci) as [Hid2 Hi2]. by eapply finish_start_keeps.
Qed.

Lemma on_announce_file_gossip_keeps id p a : keeps (on_announce_file_gossip tx_hash env_of id p a).
Proof.
  apply handler_bind.
  { apply handler_same. intros s r s'. unfold st_zoom. destruct (update_on_announcement _ _).
    intros [= <- <-]. done. }
  intros _ s r s' Hi Hrun. unfold st_get, st_bind at 1 in Hrun.
  destruct (controllers s !! id_seq id) as [c|] eqn:Hc.
  - destruct (Hi _ _ Hc) as [Hid Hci]. destruct (on_peer_found_only (env_of (tx_id c)) p a c) as [Hid1 _ _ _ Hp].
    assert (ctl_inv (on_peer_found (env_of (tx_id c)) p a c).2) as Hi1.
    { unfold on_peer_found in *. destruct (add_new_peer _ _ _ _). by apply ctl_inv_peers. }
    destruct (svc_transition_ok _ Hi1) as (c2 & Ht & Hi2 & Hid2).
    unfold st_bind, st_lift, put_controller, st_modify in Hrun. rewrite Ht in Hrun. simplify_eq.
    apply inv_insert; [done|congruence|done].
  - pose proof (handler_read (λ t, read_completed t (id_seq id)) s) as Hrd.
    destruct (read_store _ s) as [[[]|e|e] s1]; try (simplify_eq; by eapply Hrd).
    unfold logged in Hrun. destruct (on_start_sync_file _ _ _ _ s1) as [r2 s2] eqn:Hst.
    assert (svc_inv s2) by (eapply on_start_sync_file_keeps; [by eapply Hrd|done]).
    destruct r2; by simplify_eq.
Qed.

Lemma request_file_keeps seq : keeps (request_file tx_hash max_sync_files env_of seq).
Proof.
  intros s r s' Hi Hrun. unfold request_file in Hrun. destruct (_ && _); [by simplify_eq|].
  destruct (on_start_sync_file tx_hash env_of seq None s) as [r2 s2] eqn:Hst.
  assert (svc_inv s2) by (by eapply on_start_sync_file_keeps). destruct r2; by simplify_eq.
Qed.

(** ** Messages in any order *)

Inductive svc_event :=
| SvcDialFailed (p : P) (err : DialError)
| SvcConnected (p : P)
| SvcDisconnected (p : P)
| SvcGetChunks (p : P) (id : R) (req : GetChunksRequest E)
| SvcChunks (p : P) (id : TxID E) (resp : ChunkArrayWithProof E)
| SvcRpcError (p : P) (id : TxID E)
| SvcAnnounce (id : TxID E) (p : P) (a : A)
| SvcSyncFile (seq : Z)
| SvcTerminate (seq : Z)
| SvcHeartbeat.

Definition exec_svc (ev : svc_event) : st (Service E P A R T) unit :=
  match ev with
  | SvcDialFailed p err => svc_on_dail_failed env_of p err
  | SvcConnected p => svc_on_peer_connected env_of p
  | SvcDisconnected p => svc_on_peer_disconnected env_of p
  | SvcGetChunks p id req => on_get_chunks_request tx_hash p id req
  | SvcChunks p id resp => on_chunks_response env_of p id resp
  | SvcRpcError p id => on_rpc_error env_of p id
  | SvcAnnounce id p a => on_announce_file_gossip tx_hash env_of id p a
  | SvcSyncFile seq => request_file tx_hash max_sync_files env_of seq ;; st_ret tt
  | SvcTerminate seq => on_terminate_file_sync seq ;; st_ret tt
  | SvcHeartbeat => on_heartbeat env_of
  end.

Lemma exec_svc_keeps ev : keeps (exec_svc ev).
Proof.
  destruct ev; cbn [exec_svc].
  - apply svc_on_dail_failed_keeps.
  - apply svc_on_peer_connected_keeps.
  - apply svc_on_peer_disconnected_keeps.
  - apply on_get_chunks_request_keeps.
  - apply on_chunks_response_keeps.
  - apply on_rpc_error_keeps.
  - apply on_announce_file_gossip_keeps.
  - apply handler_bind; [apply request_file_keeps|intros ?; apply handler_ret].
  - apply handler_bind; [apply on_terminate_keeps|intros ?; apply handler_ret].
  - apply on_heartbeat_keeps.
Qed.

(** Events and changes of the store by other parts of the node. *)
Inductive svc_step : Service E P A R T → Service E P A R T → Prop :=
| svc_handles ev s r s' : exec_svc ev s = (r, s') → svc_step s s'
| svc_store_changes s t : svc_step s (set_store t s).

Lemma svc_reaches_inv s s' : rtc svc_step s s' → svc_inv s → svc_inv s'.
Proof.
  induction 1 as [|s1 s2 s3 Hstep _ IH]; [done|]. intros Hi. apply IH.
  destruct Hstep as [ev s1 r s2 Hex|s1 t]; [by eapply exec_svc_keeps|exact Hi].
Qed.

(** ** The service behind the manager *)

Definition svc_read {X} (f : T → res X) (s : Service E P A R T) : res X := (read_store f s).1.

#[export] Instance service_file_sync : FileSync E P (Service E P A R T) := {|
  tx_known s seq := let? tx := svc_read (λ t, read_tx t seq) s in Ok (bool_decide (is_Some tx));
  tx_completed s seq := svc_read (λ t, read_completed t seq) s;
  request_status := sync_status;
  request_sync_file seq := request_file tx_hash max_sync_files env_of seq ;; st_ret tt;
  request_terminate seq := on_terminate_file_sync seq ;; st_ret tt;
|}.

Lemma on_start_sync_file_store seq peer s r s' :
  on_start_sync_file tx_hash env_of seq peer s = (r, s') → svc_store s' = svc_store s.
Proof.
  intros Hrun. unfold on_start_sync_file, st_get, st_bind at 1 2 in Hrun.
  match type of Hrun with context [match ?m s with _ => _ end] => destruct (m s) as [r0 s0] eqn:Hdel end.
  assert (r0 = Ok tt ∧ svc_store s0 = svc_store s) as [-> <-].
  { destruct (controllers s !! seq) as [c|]; [destruct (state c) as [| | | | | | | |[]]|];
      unfold st_ret, st_modify in Hdel; by simplify_eq. }
  unfold st_bind at 1 2 in Hrun.
  match type of Hrun with context [match ?m s0 with _ => _ end] => destruct (m s0) as [r1 s1] eqn:Hget end.
  assert (svc_store s1 = svc_store s0) as <-.
  { destruct (controllers s0 !! seq) as [c0|]; [unfold st_ret in Hget; by simplify_eq|].
    unfold read_store, st_bind, st_lift, ok_or, ensure in Hget.
    destruct (read_tx (svc_store s0) seq) as [[tx|]|e|e]; simpl in Hget; [|by simplify_eq..].
    destruct (read_completed (svc_store s0) seq) as [b|e|e]; simpl in Hget; [|by simplify_eq..].
    destruct (negb b); [unfold st_ret in Hget|]; by simplify_eq. }
  destruct r1 as [c|e|e]; [|by simplify_eq..].
  unfold put_controller, st_modify, st_bind, st_lift in Hrun.
  destruct (svc_transition _ _); by simplify_eq.
Qed.

(** The requests of the manager leave the store alone, so they satisfy what
    the manager relies on. *)
Lemma service_laws limit :
  0 < limit < 2 ^ 64 - 1 →
  (∀ t seq tx, read_tx t seq = Ok (Some tx) → seq < limit) →
  (∀ t seq, read_completed t seq = Ok true → seq < limit) →
  file_sync_laws (V := Service E P A R T) limit.
Proof.
  intros Hl Hk Hc. split; [done|..].
  - intros s seq. cbn. unfold svc_read, read_store.
    destruct (read_tx (svc_store s) seq) as [[tx|]|e|e] eqn:Ht; simpl; [by eauto|..]; intros; by simplify_eq.
  - intros s seq. cbn. unfold svc_read, read_store.
    destruct (read_completed (svc_store s) seq) as [[]|e|e] eqn:Ht; simpl; try done; eauto.
  - intros s s' r x seq [= <- <-]. done.
  - intros s s' r x seq. cbn. unfold request_file, st_bind. intros Hrun.
    assert (svc_store s' = svc_store s) as Hst.
    { destruct (_ && _); [unfold st_ret in Hrun; by simplify_eq|].
      destruct (on_start_sync_file tx_hash env_of x None s) as [r2 s2] eqn:Hs2.
      rewrite <- (on_start_sync_file_store _ _ _ _ _ Hs2). destruct r2; unfold st_ret in Hrun; by simplify_eq. }
    unfold svc_read, read_store. rewrite Hst. by destruct (read_completed _ _).
  - intros s s' r x seq. cbn. intros [= <- <-]. unfold svc_read, read_store. simpl.
    by destruct (read_completed _ _).
Qed.

End Proofs.
