(* ===== verification/SyncTheorems.v ===== *)
(** * File synchronisation: main theorems

    The queues of the manager, the download of one file, the service and the
    manager together, the transfer between two nodes, and runs that show where
    retries, reorganisations and announcements go wrong. *)

From stdpp Require Import gmap.
From S2P Require Import Prelude Bytes IonianSpec Hashing MerkleProof MerkleRead AppendMerkle MerkleSpec SharedTypes SegmentProof SealCodec SealInfo ChunkData ChunkRuns FlowStore FlowWrites TxStore LogManager FlowTree LogPadding LogTx LogProofs LogRefinement LogTheorems ChunkPool ChunkPoolTheorems SyncStore SyncStoreProofs SyncController SyncControllerProofs AutoSync AutoSyncProofs SyncService SyncServiceProofs.
Local Open Scope Z_scope.

(** ** The queues *)

(** C3: the operations of [SyncStore], in any order, keep in the configuration
    column exactly the pending and the ready transactions of the reference
    lists, without duplicates and disjoint, and return what the reference
    returns; a random transaction is a ready one, or a pending one when none is
    ready, and there is one unless both queues are empty. *)
Theorem sync_store_refines ops gen_range :
  let start := mk_sync [] [] None None in
  sync_ops_ok ops start → (∀ n, 0 < n → 0 ≤ gen_range n < n) →
  ∃ db, exec_syncs ops ∅ = (Ok (spec_syncs ops start).1, db) ∧
    let a := (spec_syncs ops start).2 in
    holds_sync a db ∧ NoDup (pending a) ∧ NoDup (ready a) ∧
    ∃ o, random_tx gen_range db = Ok o ∧
      match o with
      | Some s => s ∈ ready a ∨ (ready a = [] ∧ s ∈ pending a)
      | None => ready a = [] ∧ pending a = []
      end.
Proof.
  intros start Hok Hgen. destruct (exec_syncs_run ops start ∅ Hok holds_sync_start) as (db & Hrun & Hh).
  exists db. split; [done|]. split_and!; [done|eapply q_nodup, Hh|eapply q_nodup, Hh|by apply random_tx_run].
Qed.

Definition sample_sync_ops : list sync_op :=
  [AddPending 4; AddPending 7; AddPending 9; Upgrade 4; AddPending 4; RemoveTx 7; Downgrade 4; Upgrade 9].

Lemma sync_store_refines_witness :
  ∃ db, exec_syncs sample_sync_ops ∅ = (Ok [true; true; true; true; false; true; true; true], db) ∧
    holds_sync (mk_sync [4] [9] None None) db.
Proof.
  destruct (sync_store_refines sample_sync_ops (λ n, n - 1)) as (db & Hrun & Hh & _).
  - repeat split; vm_compute; congruence.
  - lia.
  - exists db. split; [exact Hrun|exact Hh].
Defined.

(** ** The download of one file *)

Section Download.
Context {E : Type} {P : Type} `{Countable P} {A T : Type} `{LogStoreWrite E T} `{RangeProofStore E T}.
Implicit Types (c : Controller E P A) (e : Env P A).

(** C31: the loop of [transition] returns, from any state of the controller
    and of its peers, after at most [TRANSITION_FUEL] turns. *)
Theorem transition_total e c :
  chooses (choose e) →
  ∃ c', transition e c = Ok c' ∧
    ∀ n, (TRANSITION_FUEL ≤ n)%nat →
      transition_loop n e (set_peers (peers_transition (now e) (peers c)) c) = Some c'.
Proof.
  intros Hch. destruct (transition_run e Hch c) as (c' & Ht & Hl). exists c'. split; [done|].
  intros n Hn. by eapply transition_loop_mono.
Qed.

(** C18: in every state that a controller reaches, a pending request asks for
    the chunks that follow the stored ones, at most 2048 of them and none past
    the end of the file, a completed file has no chunks left, and at most one
    peer is being connected to, only while none is connected. *)
Theorem controller_wellformed nw id num t s :
  0 < num → rtc ctl_step (Controller_new (P := P) (A := A) nw id num, (t : T, [])) s →
  ctl_wf s.1 ∧ peers_wf (peers s.1).
Proof.
  intros Hn Hr. pose proof (ctl_reaches_inv _ _ Hr (watched_start nw id num t Hn)) as [[Hwf Hp _] _ _]. done.
Qed.

(** C6: since the last reset the store was given consecutive ranges, from the
    first chunk to [next_chunk]; when the controller is [Completed] they reach
    the end of the file and the last call was a successful finalisation. *)
Theorem download_in_order nw id num t s :
  0 < num → rtc ctl_step (Controller_new (P := P) (A := A) nw id num, (t : T, [])) s →
  chain 0 (puts s.2.2) (next_chunk s.1) ∧
  (state s.1 = Completed → next_chunk s.1 = num_chunks s.1 ∧ last s.2.2 = Some (FinalizeCall true)).
Proof.
  intros Hn Hr. pose proof (ctl_reaches_inv _ _ Hr (watched_start nw id num t Hn)) as [Hi Hch Hco].
  split; [done|]. intros Hs. split; [|auto]. pose proof (ci_wf _ Hi) as [_ Hwf]. by rewrite Hs in Hwf.
Qed.

(** C11: a response changes the store only when it comes from the peer that was
    asked, carries exactly the requested range and its proof is valid. *)
Theorem response_guards_store e p resp c (t : T) r c' t' :
  on_response e p resp (c, t) = (r, (c', t')) → t' ≠ t →
  ∃ from_chunk to_chunk since, state c = Downloading p from_chunk to_chunk since ∧
    start_index (cp_chunks resp) = from_chunk ∧
    from_chunk + ca_chunks (cp_chunks resp) = to_chunk ∧
    store_validate t (id_seq (tx_id c)) resp = Ok true.
Proof.
  intros Hrun Hne. pose proof (on_response_cases e p resp c t) as Hout. rewrite Hrun in Hout.
  inversion Hout as [c1 Href Heq|to_chunk (f & since & Hs & _ & Hst & Hend & _ & Hv) Heq|]; subst; [done| |done].
  eauto 10.
Qed.

(** In every reachable state each event returns, a response being harmless
    when its range does not overflow and its validation does not panic. *)
Theorem controller_never_panics nw id num t c t' calls e ev :
  0 < num → rtc ctl_step (Controller_new (P := P) (A := A) nw id num, (t : T, [])) (c, (t', calls)) →
  chooses (choose e) → event_allowed ev c → harmless ev c t' →
  ∃ s, exec_event e ev (c, (t', calls)) = (Ok tt, s).
Proof.
  intros Hn Hr Hch Hal Hh. pose proof (ctl_reaches_inv _ _ Hr (watched_start nw id num t Hn)) as Hw.
  destruct (exec_event_inv e ev c t' calls Hch Hal Hh Hw) as (s & Hs & _). eauto.
Qed.

(** C10: with a connected peer that answers, and a store that takes what the
    peer serves, an idle controller completes the file: one heartbeat and one
    answer for each 2048 chunks. *)
Theorem download_terminates serve id num held es c (t : T) :
  takes_file serve id num held → 0 < num < 2 ^ 56 → Forall (λ e, chooses (choose e)) es →
  tx_id c = id → num_chunks c = num → state c = Idle → some_peer [Connected] (peers c) →
  next_chunk c = 0 → held t 0 →
  Z.of_nat (length es) = (num + MAX_CHUNKS_TO_REQUEST - 1) / MAX_CHUNKS_TO_REQUEST →
  ∃ c' t', st_for es (download_round serve) (c, t) = (Ok tt, (c', t')) ∧ state c' = Completed ∧ next_chunk c' = num.
Proof.
  intros Htf Hnum Hes Hid Hnc Hs Hp Hn Hheld Hlen.
  apply (download_completes serve id num held); [done|done|done|done|done|done|done|lia|by rewrite Hn|].
  rewrite Hn. unfold MAX_CHUNKS_TO_REQUEST in *. dlia.
Qed.
End Download.

(** ** Samples *)

#[local] Existing Instance sample_log_store.
Definition sample_range_proofs : RangeProofStore term sample_log := {| store_validate := validate_range_proof |}.
#[local] Existing Instance sample_range_proofs.

Definition sample_env : Env nat unit := MkEnv 0 head [].
Lemma sample_chooses : chooses (choose sample_env).
Proof.
  split; simpl; [|by intros []].
  intros [|y l] x Hx; [done|]. injection Hx as <-. by left.
Qed.

(** What a node with the data of [sample_ops] serves for its one chunk. *)
Definition sample_served : ChunkArrayWithProof term :=
  match get_chunks_with_proof_by_tx_and_index_range sample_zero toy_keccak sample_manager 0 0 1 with
  | Ok (Some c) => c
  | _ => MkChunkArrayWithProof (MkChunkArray [] 0) (MkRangeProof (MkProof [] []) (MkProof [] []))
  end.
Definition sample_serve (from to : Z) : ChunkArrayWithProof term := sample_served.
Definition sample_tx_id : TxID term := MkTxID 0 (TLeaf [0]).

Definition new_controller : Controller term nat unit := Controller_new 0 sample_tx_id 1.

(** A peer is found and connects, and answers the request. *)
Definition sample_events : list (ctl_event (E := term) (P := nat) (A := unit)) :=
  [EvPeerFound 1%nat tt; EvTransition; EvConnected 1%nat; EvTransition; EvResponse 1%nat sample_served].
Definition sample_history : Controller term nat unit * (sample_log * list store_call) :=
  (st_for sample_events (exec_event sample_env) (new_controller, (tx_manager, []))).2.

Lemma sample_history_reached : rtc ctl_step (new_controller, (tx_manager, [])) sample_history.
Proof.
  apply (events_reach sample_env sample_events); [apply sample_chooses| |].
  - intros Hin. repeat (apply elem_of_cons in Hin as [Hin|Hin]; [discriminate|]). by apply not_elem_of_nil in Hin.
  - unfold sample_history. rewrite (surjective_pairing (st_for _ _ _)) at 1.
    apply (f_equal2 pair); [by vm_compute|done].
Qed.

Lemma transition_total_witness :
  ∃ c', transition sample_env new_controller = Ok c'.
Proof. destruct (transition_total sample_env new_controller sample_chooses) as (c' & Ht & _). by exists c'. Defined.

Lemma controller_wellformed_witness :
  ctl_wf sample_history.1 ∧ peers_wf (peers sample_history.1).
Proof.
  apply (controller_wellformed 0 sample_tx_id 1 tx_manager sample_history ltac:(done) sample_history_reached).
Defined.

Lemma download_in_order_witness :
  state sample_history.1 = Completed ∧ chain 0 (puts sample_history.2.2) 1 ∧
  last sample_history.2.2 = Some (FinalizeCall true).
Proof.
  destruct (download_in_order 0 sample_tx_id 1 tx_manager sample_history ltac:(done) sample_history_reached) as [Hc Hd].
  assert (state sample_history.1 = Completed) as Hs by (by vm_compute).
  assert (next_chunk sample_history.1 = 1) as Hn by (by vm_compute).
  rewrite Hn in Hc. split_and!; [exact Hs|exact Hc|by apply Hd].
Defined.

(** The controller of [sample_history] before the response. *)
Definition asking : Controller term nat unit :=
  (st_for (take 4 sample_events) (exec_event sample_env) (new_controller, (tx_manager, []))).2.1.

Lemma response_guards_store_witness :
  ∃ from_chunk to_chunk since, state asking = Downloading 1%nat from_chunk to_chunk since ∧
    start_index (cp_chunks sample_served) = from_chunk ∧
    from_chunk + ca_chunks (cp_chunks sample_served) = to_chunk ∧
    store_validate tx_manager (id_seq (tx_id asking)) sample_served = Ok true.
Proof.
  set (out := on_response sample_env 1%nat sample_served (asking, tx_manager)).
  apply (response_guards_store sample_env 1%nat sample_served asking tx_manager out.1 out.2.1 out.2.2).
  - unfold out. by destruct (on_response _ _ _ _) as [? [? ?]].
  - intros Heq. apply (f_equal (λ m, get_entries toy_keccak (flow_store m) 1 2)) in Heq.
    vm_compute in Heq. discriminate.
Defined.

(** The peer of [asking] is connected; the log after the put of its chunk. *)
Definition idle_controller : Controller term nat unit := set_state Idle asking.
Definition filled_manager : sample_log :=
  (store_put_chunks 0 (TLeaf [0]) (cp_chunks sample_served) tx_manager).2.
Definition sample_held (m : sample_log) (n : Z) : Prop :=
  (n = 0 ∧ m = tx_manager) ∨ (n = 1 ∧ m = filled_manager).

Lemma idle_connected : some_peer [Connected] (peers idle_controller).
Proof. exists 1%nat, (MkPeerInfo tt Connected 0). split; [by vm_compute|by left]. Qed.

Lemma sample_takes : takes_file sample_serve sample_tx_id 1 sample_held.
Proof.
  split.
  - intros t n [[-> ->]|[-> _]] Hn; [|lia]. cbv zeta. split_and!; [by vm_compute|by vm_compute|by vm_compute|].
    exists filled_manager. split; [|by right]. unfold filled_manager.
    rewrite (surjective_pairing (store_put_chunks _ _ _ _)) at 1. apply (f_equal2 pair); [by vm_compute|done].
  - intros t [[? _]|[_ ->]]; [done|]. exists (store_finalize 0 (TLeaf [0]) filled_manager).2.
    rewrite (surjective_pairing (store_finalize _ _ _)) at 1. apply (f_equal2 pair); [by vm_compute|done].
Qed.

Lemma download_terminates_witness :
  ∃ c' t', st_for [sample_env] (download_round sample_serve) (idle_controller, tx_manager) = (Ok tt, (c', t')) ∧
    state c' = Completed ∧ next_chunk c' = 1.
Proof.
  apply (download_terminates sample_serve sample_tx_id 1 sample_held [sample_env] idle_controller tx_manager sample_takes).
  - lia.
  - constructor; [apply sample_chooses|constructor].
  - by vm_compute.
  - by vm_compute.
  - by vm_compute.
  - apply idle_connected.
  - by vm_compute.
  - by left.
  - by vm_compute.
Defined.

(** ** Retries *)

(** A file whose chunks are stored but which is not finalised, as when the
    node stops between the two, is never completed: each download starts from
    the first chunk again, the log refuses the overlapping data, and every
    retry fails the same way. *)
Theorem resync_never_completes es :
  Forall (λ e : Env nat unit, chooses (choose e)) es →
  ∀ (c : Controller term nat unit) reason, tx_id c = sample_tx_id → num_chunks c = 1 → state c = Failed reason →
  some_peer [Connected] (peers c) →
  ∃ c' reason', st_for es (retry sample_serve) (c, filled_manager) = (Ok tt, (c', filled_manager)) ∧
    state c' = Failed reason'.
Proof.
  intros Hes c reason Hid Hnc Hs Hp.
  apply (retries_fail sample_serve es c filled_manager sample_tx_id 1
           "start position overlapped with existing batch" reason);
    [lia|by vm_compute|by vm_compute|by vm_compute| |done|done|done|done|done].
  reflexivity.
Qed.

(** The first of these failures: a new controller with a connected peer. *)
Definition failed_controller : Controller term nat unit :=
  (download_round sample_serve sample_env (idle_controller, filled_manager)).2.1.

Lemma resync_never_completes_witness :
  ∃ c' reason', st_for (replicate 5 sample_env) (retry sample_serve) (failed_controller, filled_manager)
      = (Ok tt, (c', filled_manager)) ∧ state c' = Failed reason'.
Proof.
  apply (resync_never_completes (replicate 5 sample_env)
           ltac:(apply Forall_replicate, sample_chooses) failed_controller
           (DBError "start position overlapped with existing batch")).
  - by vm_compute.
  - by vm_compute.
  - by vm_compute.
  - exists 1%nat, (MkPeerInfo tt Connected 0). split; [by vm_compute|by left].
Defined.

(** ** From one node to another *)

Section Nodes.
Context {E : Type} `{HashElement E} `{!Algorithm E} `{!NeverNull E} (zero : E) `{!FlowHashes E zero}.
Context (keccak : list Z → list Z) (keccak_len : ∀ x, length (keccak x) = 32%nat).
Context {B : Type} `{BitmapOps B} `{!BitmapLaws B}.
Context `{FinMap Z M} {N : Type → Type} `{FinMap E N}.
Context (tx_hash : Transaction E → E).
Implicit Types (m : LogManager E B M N) (a : log_spec (E := E) (M := M) (N := N)).

End Nodes.


(** ** The service and the manager *)

Section Service.
Context {E : Type} `{EqDecision E} {P : Type} `{Countable P} {A R T : Type}.
Context `{LogStoreWrite E T} `{RangeProofStore E T} `{LogStoreRead E T}.
Context (tx_hash : Transaction E → E) (max_sync_files : nat) (env_of : TxID E → Env P A).
Implicit Types s : Service E P A R T.

(** C25: whatever messages, requests and heartbeats the service handles, every
    controller stays under the number of its transaction and well-formed. *)
Theorem service_controllers_ok s s' :
  (∀ id, chooses (choose (env_of id))) →
  (∀ (t : T) seq tx, read_tx t seq = Ok (Some tx) → tx_seq tx = seq ∧ 0 < tx_size tx) →
  controllers s = ∅ → rtc (svc_step tx_hash max_sync_files env_of) s s' →
  ∀ seq c, controllers s' !! seq = Some c → id_seq (tx_id c) = seq ∧ ctl_wf c ∧ peers_wf (peers c).
Proof.
  intros Henv Htx Hs Hr seq c Hc.
  destruct (svc_reaches_inv tx_hash max_sync_files env_of Henv Htx s s' Hr) with (seq := seq) (c := c) as [Hid [Hwf Hp _]];
    [|done|done].
  intros q c' Hq. by rewrite Hs, lookup_empty in Hq.
Qed.

(** C9: the manager works on the requests of the service: in any order of its
    turns, of announcements and of changes of the store, no transaction below
    [next_tx_seq] is forgotten: it is complete, or queued, or at or above a
    reverted transaction that is still to be handled. *)
Theorem auto_sync_forgets_nothing limit s m s' events :
  0 < limit < 2 ^ 64 - 1 →
  (∀ (t : T) seq tx, read_tx t seq = Ok (Some tx) → seq < limit) →
  (∀ (t : T) seq, read_completed t seq = Ok true → seq < limit) →
  rtc (auto_step (H := service_file_sync tx_hash max_sync_files env_of))
    (MkManager 0 u64_MAX u64_MAX ∅, s, []) (m, s', events) →
  ∃ a, holds_sync a (configs m) ∧ ∀ x, 0 ≤ x < next_tx_seq m →
    svc_read (λ t, read_completed t x) s' = Ok true ∨ x ∈ pending a ∨ x ∈ ready a ∨
    ∃ r, r ∈ reverted_tx_seq m :: events ∧ r ≤ x.
Proof.
  intros Hl Hk Hc Hr. pose proof (service_laws (R := R) tx_hash max_sync_files env_of limit Hl Hk Hc) as Hlaws.
  destruct (auto_reaches_inv limit Hlaws _ _ Hr (auto_start limit Hlaws s)) as (a & Hi & _ & Hcov).
  exists a. split; [apply Hi|]. intros x Hx. destruct (Hcov x Hx) as [Hd|[[Hq|Hq]|Hq]]; auto.
Qed.

(** A valid request for chunks of a finalised file is answered with the
    chunks and their proof, and with nothing else. *)
Theorem chunks_request_answered p id (req : GetChunksRequest E) tx chunks s :
  read_tx (svc_store s) (id_seq (req_tx req)) = Ok (Some tx) → tx_id_of tx_hash tx = req_tx req →
  index_start req < index_end req ≤ bytes_to_chunks (tx_size tx) →
  read_completed (svc_store s) (id_seq (req_tx req)) = Ok true →
  read_chunks (svc_store s) (id_seq (req_tx req)) (index_start req) (index_end req) = Ok (Some chunks) →
  ∃ s', on_get_chunks_request tx_hash p id req s = (Ok tt, s') ∧ svc_sent s' = svc_sent s ++ [SendChunks p id chunks] ∧
    controllers s' = controllers s ∧ svc_store s' = svc_store s.
Proof.
  intros Htx Hid Hr Hc Hch. unfold on_get_chunks_request, handle_chunks_request_with_db_err.
  rewrite (proj2 (Z.leb_gt _ _)) by lia. unfold read_store, st_bind. rewrite Htx, bool_decide_true by done.
  unfold st_ret. rewrite (proj2 (Z.ltb_ge _ _)) by lia. rewrite Hc. simpl. rewrite Hch. simpl. eauto.
Qed.

(** The answer to a request for a reverted transaction is not the only
    one: after the error response the handler goes on and also sends the
    chunks of the transaction that took its place. *)
Theorem reverted_request_answered_twice p id (req : GetChunksRequest E) tx chunks s :
  read_tx (svc_store s) (id_seq (req_tx req)) = Ok (Some tx) → tx_id_of tx_hash tx ≠ req_tx req →
  index_start req < index_end req ≤ bytes_to_chunks (tx_size tx) →
  read_completed (svc_store s) (id_seq (req_tx req)) = Ok true →
  read_chunks (svc_store s) (id_seq (req_tx req)) (index_start req) (index_end req) = Ok (Some chunks) →
  svc_sent (on_get_chunks_request tx_hash p id req s).2 =
    svc_sent s ++ [SendErrorResponse p id "Tx not found (Reverted)"; SendChunks p id chunks].
Proof.
  intros Htx Hid Hr Hc Hch. unfold on_get_chunks_request, handle_chunks_request_with_db_err.
  rewrite (proj2 (Z.leb_gt _ _)) by lia. unfold read_store, st_bind. rewrite Htx, bool_decide_false by done.
  unfold svc_send, st_modify. rewrite (proj2 (Z.ltb_ge _ _)) by lia. simpl. rewrite Hc. simpl. rewrite Hch. simpl.
  by rewrite <- (assoc_L (++)).
Qed.

(** The limit on files in synchronisation holds for requests only: an
    announcement starts one file more however many there are. *)
Theorem announcement_ignores_limit s id p a tx :
  (∀ id, chooses (choose (env_of id))) →
  controllers s !! id_seq id = None → (max_sync_files ≤ size (controllers s))%nat →
  max_tx_seq (manager s) ≠ u64_MAX → next_tx_seq (manager s) ≤ id_seq id ≤ max_tx_seq (manager s) →
  read_completed (svc_store s) (id_seq id) = Ok false → read_tx (svc_store s) (id_seq id) = Ok (Some tx) →
  (request_file tx_hash max_sync_files env_of (id_seq id) s).2 = s ∧
  size (controllers (on_announce_file_gossip tx_hash env_of id p a s).2) = S (size (controllers s)).
Proof.
  intros Henv Hnone Hmax Hu Hn Hc Htx. split.
  { unfold request_file. rewrite bool_decide_true, (proj2 (Nat.leb_le _ _)) by done. done. }
  unfold on_announce_file_gossip, st_zoom, update_on_announcement, st_get, st_bind at 1 2.
  rewrite (proj2 (Z.eqb_neq _ _) Hu), (proj2 (Z.ltb_ge _ _)) by lia. cbn [orb].
  rewrite (proj2 (Z.leb_le _ _)) by lia. unfold st_ret at 1, st_bind at 1. cbn [controllers set_manager]. rewrite Hnone.
  unfold read_store at 1. cbn [svc_store set_manager]. rewrite Hc.
  unfold logged, on_start_sync_file, st_get, st_bind at 1 2. cbn [controllers set_manager]. rewrite Hnone.
  unfold st_ret at 1, st_bind at 1 2. cbn [controllers set_manager]. rewrite Hnone.
  unfold read_store, st_bind at 1 2 3, st_lift. cbn [svc_store set_manager]. rewrite Htx. cbn [ok_or].
  unfold st_bind at 1 2. cbn [svc_store set_manager]. rewrite Hc. cbn [negb ensure]. unfold st_ret, st_bind at 1.
  unfold put_controller, st_modify, st_bind. cbn [state Controller_new].
  match goal with |- context [svc_transition env_of ?c] => 
    destruct (transition_run (env_of (tx_id c)) (Henv _) c) as (c' & Ht & _); unfold svc_transition; rewrite Ht end.
  cbn. rewrite insert_insert_eq. by rewrite map_size_insert_None.
Qed.
End Service.

(** A store with a hundred files of one chunk, given by the completed ones. *)
Definition toy_tx (seq : Z) : Transaction term :=
  MkTransaction [] [] (TLeaf [seq]) [(1%nat, TLeaf [seq])] 1 256 seq.
Definition toy_known (seq : Z) : bool := (0 <=? seq) && (seq <? 100).
Definition toy_write : LogStoreWrite term (list Z) := {|
  store_put_chunks _ _ _ t := (Ok true, t);
  store_finalize seq _ t := (Ok true, seq :: t);
|}.
Definition toy_proofs : RangeProofStore term (list Z) := {| store_validate _ _ _ := Ok true |}.
Definition toy_read : LogStoreRead term (list Z) := {|
  read_tx _ seq := Ok (if toy_known seq then Some (toy_tx seq) else None);
  read_completed t seq := Ok (toy_known seq && bool_decide (seq ∈ t));
  read_chunks _ _ _ _ := Ok (Some sample_served);
|}.
#[local] Existing Instances toy_write toy_proofs toy_read.

Definition toy_service : Service term nat unit nat (list Z) := MkService ∅ [] (MkManager 0 u64_MAX u64_MAX ∅) [].
Definition toy_env (id : TxID term) : Env nat unit := sample_env.

(** The service after a request to synchronise file 3. *)
Definition toy_started : Service term nat unit nat (list Z) :=
  (exec_svc sample_hash 8 toy_env (SvcSyncFile 3) toy_service).2.

Lemma service_controllers_ok_witness :
  match controllers toy_started !! 3 with
  | Some c => id_seq (tx_id c) = 3 ∧ ctl_wf c ∧ peers_wf (peers c)
  | None => False
  end.
Proof.
  destruct (controllers toy_started !! 3) as [c|] eqn:Hc; [|vm_compute in Hc; discriminate].
  apply (service_controllers_ok sample_hash 8 toy_env toy_service toy_started); [| |done| |exact Hc].
  - intros id. apply sample_chooses.
  - intros t seq tx. simpl. destruct (toy_known seq); [|done]. by intros [= <-].
  - eapply rtc_once, (svc_handles sample_hash 8 toy_env (SvcSyncFile 3)). apply surjective_pairing.
Defined.

(** The store completes file 0, and the manager moves on. *)
Definition toy_turn : Manager * Service term nat unit nat (list Z) :=
  (start_sync_turn (H := service_file_sync sample_hash 8 toy_env) 0
     (MkManager 0 u64_MAX u64_MAX ∅, set_store [0] toy_service)).2.

Lemma auto_sync_forgets_nothing_witness :
  next_tx_seq toy_turn.1 = 1 ∧
  ∃ a, holds_sync a (configs toy_turn.1) ∧
    (svc_read (λ t, read_completed t 0) toy_turn.2 = Ok true ∨ 0 ∈ pending a ∨ 0 ∈ ready a ∨
     ∃ r, r ∈ [reverted_tx_seq toy_turn.1] ∧ r ≤ 0).
Proof.
  assert (next_tx_seq toy_turn.1 = 1) as Hn by (by vm_compute). split; [exact Hn|].
  destruct (auto_sync_forgets_nothing sample_hash 8 toy_env 100 toy_service toy_turn.1 toy_turn.2 [])
    as (a & Hh & Hcov).
  - lia.
  - intros t seq tx. simpl. unfold toy_known. destruct (Z.leb_spec 0 seq), (Z.ltb_spec seq 100); done || lia.
  - intros t seq. simpl. unfold toy_known. destruct (Z.leb_spec 0 seq), (Z.ltb_spec seq 100); done || lia.
  - eapply rtc_l; [apply (as_store _ toy_service (set_store [0] toy_service) [] [])|eapply rtc_once].
    + intros x Hx. change (Ok (toy_known x && false) = Ok true) in Hx. by rewrite andb_false_r in Hx.
    + done.
    + apply (as_sync _ _ _ _ _ 0 (start_sync_turn (H := service_file_sync sample_hash 8 toy_env) 0
        (MkManager 0 u64_MAX u64_MAX ∅, set_store [0] toy_service)).1).
      unfold toy_turn. by destruct (start_sync_turn _ _) as [? [? ?]].
  - exists a. split; [exact Hh|]. apply Hcov. rewrite Hn. lia.
Defined.

Definition toy_request (hash : Z) : GetChunksRequest term := MkGetChunks (MkTxID 3 (TLeaf [hash])) 0 1.

Lemma chunks_request_answered_witness :
  ∃ s', on_get_chunks_request sample_hash 1%nat 5%nat (toy_request 3) (set_store [3] toy_service) = (Ok tt, s') ∧
    svc_sent s' = [SendChunks 1%nat 5%nat sample_served] ∧
    controllers s' = ∅ ∧ svc_store s' = [3].
Proof.
  apply (chunks_request_answered sample_hash 1%nat 5%nat (toy_request 3) (toy_tx 3) sample_served (set_store [3] toy_service));
    [done|done| |done|done]. by vm_compute.
Defined.

Lemma reverted_request_answered_twice_witness :
  svc_sent (on_get_chunks_request sample_hash 1%nat 5%nat (toy_request 4) (set_store [3] toy_service)).2 =
    [SendErrorResponse 1%nat 5%nat "Tx not found (Reverted)"; SendChunks 1%nat 5%nat sample_served].
Proof.
  apply (reverted_request_answered_twice sample_hash 1%nat 5%nat (toy_request 4) (toy_tx 3) sample_served (set_store [3] toy_service));
    [done|done| |done|done]. by vm_compute.
Defined.

(** ** Races and restarts of the manager *)

(** [sync_once] checks [next_tx_seq] against [max_tx_seq] and moves forward
    later; the first announcement, when it is for an earlier file, lowers
    [max_tx_seq] in between, and the assertion of [sync_once] panics. *)
Theorem announcement_race_panics m announced :
  max_tx_seq m = u64_MAX → announced < next_tx_seq m →
  ∃ m', update_on_announcement announced m = (Ok tt, m') ∧ max_tx_seq m' = announced ∧
    advance false m' = (Panic "assertion failed: manager.move_forward", m').
Proof.
  intros Hm Ha. unfold update_on_announcement, st_get, st_bind at 1. rewrite Hm. simpl.
  eexists. split; [reflexivity|]. split; [done|].
  unfold advance, move_forward, st_get, st_bind, st_lift. simpl. rewrite (proj2 (Z.ltb_lt _ _)) by done. done.
Qed.

Lemma announcement_race_panics_witness :
  ∃ m', update_on_announcement 3 (MkManager 10 u64_MAX u64_MAX ∅) = (Ok tt, m') ∧ max_tx_seq m' = 3 ∧
    advance false m' = (Panic "assertion failed: manager.move_forward", m').
Proof. apply (announcement_race_panics (MkManager 10 u64_MAX u64_MAX ∅) 3); done. Defined.

(** [handle_on_reorg] loads and clears [reverted_tx_seq] in two steps; an
    earlier revert that is reported in between is lost. *)
Theorem reorg_event_lost m r :
  r < reverted_tx_seq m ≤ next_tx_seq m → reverted_tx_seq m < u64_MAX →
  let m1 := (set_reverted r m).2 in
  let m2 := (handle_on_reorg_loaded (reverted_tx_seq m) m1).2 in
  reverted_tx_seq m1 = r ∧ next_tx_seq m2 = reverted_tx_seq m ∧ reverted_tx_seq m2 = u64_MAX.
Proof.
  intros Hr Hu. unfold set_reverted. rewrite (proj2 (Z.leb_gt _ _)) by lia. simpl.
  unfold handle_on_reorg_loaded. rewrite (proj2 (Z.eqb_neq _ _)) by lia. simpl.
  rewrite (proj2 (Z.ltb_ge _ _)) by lia. done.
Qed.

(** A reorganisation sets [next_tx_seq] back in memory only: a node that
    restarts continues after the reverted transactions. *)
Theorem restart_forgets_reorg a m :
  holds_sync a (configs m) → stored_next a = Some (next_tx_seq m) →
  reverted_tx_seq m < u64_MAX → reverted_tx_seq m < next_tx_seq m →
  let m' := (handle_on_reorg m).2 in
  next_tx_seq m' = reverted_tx_seq m ∧
  ∃ m2, Manager_new (configs m') = Ok m2 ∧ next_tx_seq m2 = next_tx_seq m.
Proof.
  intros [_ _ _ Hn Hmx [Hun Hum]] Hs Hu Hlt. unfold handle_on_reorg, handle_on_reorg_loaded.
  rewrite (proj2 (Z.eqb_neq _ _)) by lia. simpl. rewrite (proj2 (Z.ltb_ge _ _)) by lia. simpl. split; [done|].
  rewrite Hs in Hn. unfold Manager_new, get_tx_seq_range.
  rewrite (get_encoded _ (next_tx_seq m)) by (done || by apply Hun).
  destruct (stored_max a) as [x|]; simpl in Hmx.
  - rewrite (get_encoded _ x) by (done || by apply Hum). simpl. eauto.
  - rewrite config_absent by done. simpl. eauto.
Qed.

Lemma restart_forgets_reorg_witness :
  let m := MkManager 7 u64_MAX 4 (set_config_encoded KEY_NEXT_TX_SEQ 7 ∅) in
  next_tx_seq (handle_on_reorg m).2 = 4 ∧
  ∃ m2, Manager_new (configs (handle_on_reorg m).2) = Ok m2 ∧ next_tx_seq m2 = 7.
Proof.
  intros m. apply (restart_forgets_reorg (mk_sync [] [] (Some 7) None) m).
  - apply (set_next_run 7 (mk_sync [] [] None None) ∅); [unfold u64; lia|apply holds_sync_start].
  - done.
  - by vm_compute.
  - by vm_compute.
Defined.
