(* ===== verification/KBucket.v ===== *)
(** * One bucket of the routing table

    Model of [version-meld/discv5/src/kbucket/bucket.rs], with the keys of
    [key.rs] and the filters of [filter.rs].

    The hash of a key is the 256-bit number that [U256::from] reads from its
    32 bytes.  [Instant::now()] is the argument [now] of the operations that
    read the clock.  The nodes are an [ArrayVec] of the crate [arrayvec], an
    interface with the documented behaviour as laws. *)

From S2P Require Import Prelude.

(** ** Keys *)

Record Key (T : Type) := MkKey { preimage : T; hash : Z }.
Arguments MkKey {T}.
Arguments preimage {T}.
Arguments hash {T}.

(** [PartialEq for Key] compares the hashes. *)
Definition key_eqb {T} (a b : Key T) : bool := (hash a =? hash b)%Z.

Definition key_distance {T U} (a : Key T) (b : Key U) : Z := Z.lxor (hash a) (hash b).

(** [U256::leading_zeros] *)
Definition leading_zeros (d : Z) : Z := if (d =? 0)%Z then 256 else (255 - Z.log2 d)%Z.

Definition log2_distance {T U} (a : Key T) (b : Key U) : option Z :=
  let log_dist := (256 - leading_zeros (key_distance a b))%Z in
  if (log_dist =? 0)%Z then None else Some log_dist.

(** ** [ArrayVec<_, MAX_NODES_PER_BUCKET>] *)

Definition MAX_NODES_PER_BUCKET : nat := 16.

Class ArrayVec (AV : Type → Type) := {
  av_new : ∀ {A}, AV A;
  av_elems : ∀ {A}, AV A → list A;
  av_is_full : ∀ {A}, AV A → bool;
  av_push : ∀ {A}, AV A → A → res (AV A);
  av_insert : ∀ {A}, AV A → nat → A → res (AV A);
  av_remove : ∀ {A}, AV A → nat → res (A * AV A);
}.

(** The operations are those of [Vec] while there is room and the index is in
    range. *)
Class ArrayVecLaws (AV : Type → Type) `{!ArrayVec AV} := {
  av_new_elems {A} : av_elems (av_new (A:=A)) = [];
  av_is_full_spec {A} (v : AV A) : av_is_full v = (MAX_NODES_PER_BUCKET <=? length (av_elems v));
  av_push_spec {A} (v : AV A) x : length (av_elems v) < MAX_NODES_PER_BUCKET →
    ∃ v', av_push v x = Ok v' ∧ av_elems v' = av_elems v ++ [x];
  av_insert_spec {A} (v : AV A) i x : length (av_elems v) < MAX_NODES_PER_BUCKET → i ≤ length (av_elems v) →
    ∃ v', av_insert v i x = Ok v' ∧ av_elems v' = take i (av_elems v) ++ x :: drop i (av_elems v);
  av_remove_spec {A} (v : AV A) i x : av_elems v !! i = Some x →
    ∃ v', av_remove v i = Ok (x, v') ∧ av_elems v' = delete i (av_elems v);
}.

(** ** Nodes *)

(** [handler::ConnectionDirection] *)
Inductive ConnectionDirection := Incoming | Outgoing.

Inductive ConnectionState := Connected | Disconnected.

Record NodeStatus := MkNodeStatus { direction : ConnectionDirection; state : ConnectionState }.

#[global] Instance ConnectionDirection_eq_dec : EqDecision ConnectionDirection.
Proof. solve_decision. Defined.
#[global] Instance ConnectionState_eq_dec : EqDecision ConnectionState.
Proof. solve_decision. Defined.
#[global] Instance NodeStatus_eq_dec : EqDecision NodeStatus.
Proof. solve_decision. Defined.

Definition is_connected (s : NodeStatus) : bool :=
  match state s with Connected => true | Disconnected => false end.
Definition is_incoming (s : NodeStatus) : bool :=
  match direction s with Outgoing => false | Incoming => true end.

(** [node.status.state = state; if let Some(direction) = direction {...}] *)
Definition change_status (st : ConnectionState) (dir : option ConnectionDirection) (s : NodeStatus) : NodeStatus :=
  MkNodeStatus (default (direction s) dir) st.

Record Node (T V : Type) := MkNode { key : Key T; value : V; status : NodeStatus }.
Arguments MkNode {T V}.
Arguments key {T V}.
Arguments value {T V}.
Arguments status {T V}.

Definition set_status {T V} (s : NodeStatus) (n : Node T V) : Node T V := MkNode (key n) (value n) s.
Definition set_value {T V} (v : V) (n : Node T V) : Node T V := MkNode (key n) v (status n).

Record PendingNode (T V : Type) := MkPending { node : Node T V; replace : Z }.
Arguments MkPending {T V}.
Arguments node {T V}.
Arguments replace {T V}.

(** ** Results *)

Inductive FailureReason :=
| TooManyIncomingNodes | BucketFilter | TableFilter | KeyNonExistant | BucketFull | InvalidSelfUpdate.

Inductive BucketInsertResult (T : Type) :=
| Inserted
| Pending (disconnected : Key T)
| FailedFilter
| TooManyIncoming
| Full
| NodeExists.
Arguments Inserted {T}.
Arguments Pending {T}.
Arguments FailedFilter {T}.
Arguments TooManyIncoming {T}.
Arguments Full {T}.
Arguments NodeExists {T}.

Inductive UpdateResult :=
| Updated | UpdatedAndPromoted | UpdatedPending | Failed (reason : FailureReason) | NotModified.

Definition failed (r : UpdateResult) : bool := match r with Failed _ => true | _ => false end.

Record AppliedPending (T V : Type) := MkApplied { inserted : Key T; evicted : option (Node T V) }.
Arguments MkApplied {T V}.
Arguments inserted {T V}.
Arguments evicted {T V}.

(** ** The bucket *)

(** [dyn Filter<TVal>]: the value to be inserted and the values present. *)
Definition Filter (V : Type) : Type := V → list V → bool.

Record KBucket (AV : Type → Type) (T V : Type) := MkKBucket {
  nodes : AV (Node T V);
  first_connected_pos : option nat;
  pending : option (PendingNode T V);
  pending_timeout : Z;
  bucket_filter : option (Filter V);
  max_incoming : nat;
}.
Arguments MkKBucket {AV T V}.
Arguments nodes {AV T V}.
Arguments first_connected_pos {AV T V}.
Arguments pending {AV T V}.
Arguments pending_timeout {AV T V}.
Arguments bucket_filter {AV T V}.
Arguments max_incoming {AV T V}.

Section Bucket.
Context {AV : Type → Type} `{ArrayVec AV} {T V : Type} `{EqDecision V}.
Notation KBucket := (KBucket AV T V).
Notation Node := (Node T V).

Definition set_nodes ns (b : KBucket) : KBucket :=
  MkKBucket ns (first_connected_pos b) (pending b) (pending_timeout b) (bucket_filter b) (max_incoming b).
Definition set_first p (b : KBucket) : KBucket :=
  MkKBucket (nodes b) p (pending b) (pending_timeout b) (bucket_filter b) (max_incoming b).
Definition set_pending p (b : KBucket) : KBucket :=
  MkKBucket (nodes b) (first_connected_pos b) p (pending_timeout b) (bucket_filter b) (max_incoming b).

Definition KBucket_new (pending_timeout : Z) (max_incoming : nat) (filter : option (Filter V)) : KBucket :=
  MkKBucket av_new None None pending_timeout filter max_incoming.

(** [iter()] *)
Definition kb_iter (b : KBucket) : list Node := av_elems (nodes b).

Definition as_pending (k : Key T) (b : KBucket) : option (PendingNode T V) :=
  match pending b with
  | Some p => if key_eqb (key (node p)) k then Some p else None
  | None => None
  end.

(** [iter().position(|p| &p.key == key)] and [iter().find(..)] *)
Fixpoint position_in (k : Key T) (ns : list Node) : option nat :=
  match ns with
  | [] => None
  | n :: ns => if key_eqb (key n) k then Some 0 else S <$> position_in k ns
  end.
Definition kb_position (k : Key T) (b : KBucket) : option nat := position_in k (kb_iter b).
Definition kb_get (k : Key T) (b : KBucket) : option Node := List.find (λ n, key_eqb (key n) k) (kb_iter b).

Definition kb_status (pos : nat) (b : KBucket) : NodeStatus :=
  match kb_iter b !! pos with
  | Some n => status n
  | None => MkNodeStatus Incoming Disconnected
  end.

Definition connected_incoming (n : Node) : bool := is_connected (status n) && is_incoming (status n).

Definition is_max_incoming (b : KBucket) : bool :=
  max_incoming b <=? length (List.filter connected_incoming (kb_iter b)).

Definition num_entries (b : KBucket) : nat := length (kb_iter b).
Definition num_connected (b : KBucket) : nat :=
  match first_connected_pos b with None => 0 | Some i => length (kb_iter b) - i end.
Definition num_disconnected (b : KBucket) : nat := num_entries b - num_connected b.

Definition passes_filter (v : V) (b : KBucket) : bool :=
  match bucket_filter b with
  | Some f => f v (value <$> kb_iter b)
  | None => true
  end.

(** [self.nodes.push(node)] and the like *)
Definition nodes_push (n : Node) : st KBucket unit :=
  let! b := st_get in
  let! ns := st_lift (av_push (nodes b) n) in
  st_put (set_nodes ns b).
Definition nodes_insert (i : nat) (n : Node) : st KBucket unit :=
  let! b := st_get in
  let! ns := st_lift (av_insert (nodes b) i n) in
  st_put (set_nodes ns b).
Definition nodes_remove (i : nat) : st KBucket Node :=
  let! b := st_get in
  let! r := st_lift (av_remove (nodes b) i) in
  st_put (set_nodes r.2 b) ;;
  st_ret r.1.

Definition update_first_connected_pos_for_removal (removed_pos : nat) (b : KBucket) : KBucket :=
  set_first
    (match first_connected_pos b with
     | Some fcp =>
         if removed_pos <? fcp then Some (fcp - 1)
         else if fcp <? length (kb_iter b) then Some fcp else None
     | None => None
     end) b.

(** [p.checked_sub(1)] *)
Definition pred_pos (p : nat) : option nat := match p with 0 => None | S p => Some p end.

(** ** Inserting *)

(** The bucket has room, or the connected node waits as pending. *)
Definition insert_connected (now : Z) (n : Node) : st KBucket (BucketInsertResult T) :=
  let! b := st_get in
  if is_incoming (status n) && is_max_incoming b then st_ret TooManyIncoming else
  if av_is_full (nodes b) then
    if bool_decide (first_connected_pos b = Some 0) || bool_decide (is_Some (pending b)) then st_ret Full
    else
      st_modify (set_pending (Some (MkPending n (now + pending_timeout b)))) ;;
      let! first := st_lift (index (kb_iter b) 0) in
      st_ret (Pending (key first))
  else
    let pos := length (kb_iter b) in
    st_modify (set_first (match first_connected_pos b with Some p => Some p | None => Some pos end)) ;;
    nodes_push n ;;
    st_ret Inserted.

Definition insert_disconnected (n : Node) : st KBucket (BucketInsertResult T) :=
  let! b := st_get in
  if av_is_full (nodes b) then st_ret Full else
  (match first_connected_pos b with
   | Some p => nodes_insert p n ;; st_modify (set_first (Some (S p)))
   | None => nodes_push n
   end) ;;
  st_ret Inserted.

Definition kb_insert (now : Z) (n : Node) : st KBucket (BucketInsertResult T) :=
  let! b := st_get in
  match kb_position (key n) b with
  | Some _ => st_ret NodeExists
  | None =>
      if negb (passes_filter (value n) b) then st_ret FailedFilter else
      let inserting_pending := match pending b with
                               | Some p => key_eqb (key (node p)) (key n)
                               | None => false
                               end in
      let! insert_result :=
        (match state (status n) with
         | Connected => insert_connected now n
         | Disconnected => insert_disconnected n
         end) in
      (match insert_result with
       | Inserted => if inserting_pending then st_modify (set_pending None) else st_ret tt
       | _ => st_ret tt
       end) ;;
      st_ret insert_result
  end.

(** ** The pending node *)

(** The pending node takes the place of the first node of a full bucket. *)
Definition replace_first (n : Node) : st KBucket (option (AppliedPending T V)) :=
  let! b := st_get in
  let inserted := key n in
  if is_connected (status n) then
    let! old := nodes_remove 0 in
    st_modify (λ b, set_first (match first_connected_pos b with
                               | None => Some (length (kb_iter b))
                               | Some p => pred_pos p
                               end) b) ;;
    nodes_push n ;;
    st_ret (Some (MkApplied inserted (Some old)))
  else
    match first_connected_pos b with
    | Some p =>
        match pred_pos p with
        | Some insert_pos =>
            let! old := nodes_remove 0 in
            nodes_insert insert_pos n ;;
            st_ret (Some (MkApplied inserted (Some old)))
        | None => st_ret None
        end
    | None =>
        let! old := nodes_remove 0 in
        nodes_push n ;;
        st_ret (Some (MkApplied inserted (Some old)))
    end.

Definition apply_pending (now : Z) : st KBucket (option (AppliedPending T V)) :=
  let! b := st_get in
  match pending b with
  | None => st_ret None
  | Some p =>
      st_modify (set_pending None) ;;
      if (replace p <=? now)%Z then
        if av_is_full (nodes b) then
          let! first := st_lift (index (kb_iter b) 0) in
          if is_connected (status first) then st_ret None else
          if negb (passes_filter (value (node p)) b) then st_ret None else
          if connected_incoming (node p) && is_max_incoming b then st_ret None else
          replace_first (node p)
        else
          let! r := kb_insert now (node p) in
          match r with
          | Inserted => st_ret (Some (MkApplied (key (node p)) None))
          | Full => st_lift (Panic "Bucket cannot be full")
          | _ => st_ret None
          end
      else st_modify (set_pending (Some p)) ;; st_ret None
  end.

Definition update_pending (s : NodeStatus) : st KBucket unit :=
  st_modify (λ b, set_pending ((λ p, MkPending (set_status s (node p)) (replace p)) <$> pending b) b).

(** ** Updating and removing *)

Definition first_after_update (old : ConnectionState) (pos : nat) (b : KBucket) : option nat :=
  match old with
  | Connected =>
      if bool_decide (first_connected_pos b = Some pos) && (pos =? length (kb_iter b)) then None
      else first_connected_pos b
  | Disconnected => match first_connected_pos b with Some p => pred_pos p | None => None end
  end.

Definition update_status (now : Z) (k : Key T) (st' : ConnectionState) (dir : option ConnectionDirection)
    : st KBucket UpdateResult :=
  let! b := st_get in
  match kb_position k b with
  | Some pos =>
      let! n := nodes_remove pos in
      let old_status := status n in
      let n := set_status (change_status st' dir old_status) n in
      let not_modified := bool_decide (old_status = status n) in
      let is_conn := match st' with Connected => true | Disconnected => false end in
      st_modify (λ b, set_first (first_after_update (state old_status) pos b) b) ;;
      (if (pos =? 0) && is_conn then st_modify (set_pending None) else st_ret tt) ;;
      let! r := kb_insert now n in
      match r with
      | Inserted => st_ret (if not_modified then NotModified
                            else if negb (is_connected old_status) && is_conn then UpdatedAndPromoted
                            else Updated)
      | TooManyIncoming => st_ret (Failed TooManyIncomingNodes)
      | FailedFilter => st_ret (Failed BucketFilter)
      | NodeExists => st_lift (Panic "The node was removed and shouldn't already exist")
      | Full => st_lift (Panic "The node was removed so the bucket cannot be full")
      | Pending _ => st_lift (Panic "The node was removed so can't be added as pending")
      end
  | None =>
      match pending b with
      | Some p =>
          if key_eqb (key (node p)) k then
            st_modify (set_pending (Some (MkPending
              (set_status (change_status st' dir (status (node p))) (node p)) (replace p)))) ;;
            st_ret UpdatedPending
          else st_ret (Failed KeyNonExistant)
      | None => st_ret (Failed KeyNonExistant)
      end
  end.

Definition update_value (k : Key T) (v : V) : st KBucket UpdateResult :=
  let! b := st_get in
  match kb_position k b with
  | Some pos =>
      let! n := nodes_remove pos in
      if decide (value n = v) then nodes_insert pos n ;; st_ret NotModified else
      let! b := st_get in
      if negb (passes_filter v b) then
        st_modify (update_first_connected_pos_for_removal pos) ;;
        st_ret (Failed BucketFilter)
      else nodes_insert pos (set_value v n) ;; st_ret Updated
  | None =>
      match pending b with
      | Some p =>
          if key_eqb (key (node p)) k then
            st_modify (set_pending (Some (MkPending (set_value v (node p)) (replace p)))) ;;
            st_ret UpdatedPending
          else st_ret (Failed KeyNonExistant)
      | None => st_ret (Failed KeyNonExistant)
      end
  end.

Definition kb_remove (now : Z) (k : Key T) : st KBucket bool :=
  let! b := st_get in
  match kb_position k b with
  | Some pos =>
      nodes_remove pos ;;
      st_modify (update_first_connected_pos_for_removal pos) ;;
      apply_pending now ;;
      st_ret true
  | None => st_ret false
  end.

End Bucket.

(** ** The IP filters *)

Section IpFilter.
Context {Enr : Type} `{EqDecision Enr} (ip : Enr → option (Z * Z * Z * Z)).

Definition MAX_NODES_PER_SUBNET_TABLE : nat := 10.
Definition MAX_NODES_PER_SUBNET_BUCKET : nat := 2.

(** [other_ip.octets()[0..3] == ip.octets()[0..3]] *)
Definition same_subnet (a b : Z * Z * Z * Z) : bool :=
  let '(a1, a2, a3, _) := a in
  let '(b1, b2, b3, _) := b in
  (a1 =? b1)%Z && (a2 =? b2)%Z && (a3 =? b3)%Z.

Fixpoint ip_filter_loop (v : Enr) (addr : Z * Z * Z * Z) (limit count : nat) (others : list Enr) : bool :=
  match others with
  | [] => true
  | enr :: others =>
      if decide (enr = v) then ip_filter_loop v addr limit count others else
      let count := match ip enr with
                   | Some other_ip => if same_subnet other_ip addr then S count else count
                   | None => count
                   end in
      if limit <=? count then false else ip_filter_loop v addr limit count others
  end.

Definition ip_filter (limit : nat) : Filter Enr := λ v others,
  match ip v with
  | Some addr => ip_filter_loop v addr limit 0 others
  | None => true
  end.

Definition IpTableFilter : Filter Enr := ip_filter MAX_NODES_PER_SUBNET_TABLE.
Definition IpBucketFilter : Filter Enr := ip_filter MAX_NODES_PER_SUBNET_BUCKET.

End IpFilter.
