(* ===== verification/KBucketProofs.v ===== *)
(** * The bucket keeps two queues

    A bucket represents the queue of its disconnected and the queue of its
    connected nodes, each ordered by the time of the last change of status,
    and the node that waits for a place.  The operations of [KBucket], which
    work on one vector and the position of the first connected node, compute
    the operations on the queues below; none of their [unreachable!] and index
    panics is reached. *)

From S2P Require Import Prelude KBucket.

(** ** Positions and keys *)

Section Keys.
Context {T V : Type}.
Notation Node := (Node T V).
Implicit Types (ns : list Node) (k : Key T).

Definition keys ns : list Z := (λ n, hash (key n)) <$> ns.

Definition drop_key k ns : list Node := List.filter (λ n, negb (key_eqb (key n) k)) ns.

Lemma drop_key_fresh k ns : hash k ∉ keys ns → drop_key k ns = ns.
Proof.
  induction ns as [|n ns IH]; simpl; [done|]. rewrite not_elem_of_cons. intros [Hn Hns].
  unfold key_eqb. destruct (Z.eqb_spec (hash (key n)) (hash k)); [congruence|].
  simpl. by f_equal; apply IH.
Qed.

Lemma drop_key_app k ns1 ns2 : drop_key k (ns1 ++ ns2) = drop_key k ns1 ++ drop_key k ns2.
Proof. apply List.filter_app. Qed.

Lemma drop_key_sublist k ns : drop_key k ns `sublist_of` ns.
Proof. induction ns as [|n ns IH]; simpl; [done|]. destruct (key_eqb _ _); by constructor. Qed.

Lemma drop_key_gone k ns : hash k ∉ keys (drop_key k ns).
Proof.
  induction ns as [|n ns IH]; simpl; [apply not_elem_of_nil|].
  unfold key_eqb. destruct (Z.eqb_spec (hash (key n)) (hash k)); simpl; [done|].
  rewrite not_elem_of_cons. by split.
Qed.

Lemma keys_app ns1 ns2 : keys (ns1 ++ ns2) = keys ns1 ++ keys ns2.
Proof. apply fmap_app. Qed.

Lemma keys_sublist ns1 ns2 : ns1 `sublist_of` ns2 → keys ns1 `sublist_of` keys ns2.
Proof. induction 1; simpl; by constructor. Qed.

Lemma position_none k ns : position_in k ns = None ↔ hash k ∉ keys ns.
Proof.
  induction ns as [|n ns IH]; simpl; [split; [intros _; apply not_elem_of_nil|done]|].
  rewrite not_elem_of_cons. unfold key_eqb.
  destruct (Z.eqb_spec (hash (key n)) (hash k)) as [e|e]; [split; [done|intros [? _]; congruence]|].
  rewrite fmap_None, IH. split; [intros ?; split; [congruence|done]|by intros []].
Qed.

Lemma position_some k ns i : position_in k ns = Some i →
  ∃ n, ns !! i = Some n ∧ hash (key n) = hash k.
Proof.
  revert i. induction ns as [|n ns IH]; simpl; [done|]. intros i. unfold key_eqb.
  destruct (Z.eqb_spec (hash (key n)) (hash k)) as [e|e].
  - intros [= <-]. by exists n.
  - rewrite fmap_Some. intros (j & Hj & ->). by apply IH.
Qed.

Lemma delete_position k ns i :
  NoDup (keys ns) → position_in k ns = Some i → delete i ns = drop_key k ns.
Proof.
  revert i. induction ns as [|n ns IH]; simpl; [done|]. intros i [Hn Hnd]%NoDup_cons. unfold key_eqb.
  destruct (Z.eqb_spec (hash (key n)) (hash k)) as [e|e]; simpl.
  - intros [= <-]. simpl. rewrite drop_key_fresh; [done|]. by rewrite <- e.
  - rewrite fmap_Some. intros (j & Hj & ->). simpl. f_equal. by apply IH.
Qed.

Lemma position_app k ns1 ns2 : position_in k (ns1 ++ ns2) =
  match position_in k ns1 with
  | Some i => Some i
  | None => (λ i, length ns1 + i) <$> position_in k ns2
  end.
Proof.
  induction ns1 as [|n ns1 IH]; simpl; [by destruct (position_in k ns2)|].
  destruct (key_eqb _ _); [done|]. rewrite IH. destruct (position_in k ns1); [done|].
  by destruct (position_in k ns2).
Qed.

Lemma find_position k ns : List.find (λ n, key_eqb (key n) k) ns =
  match position_in k ns with Some i => ns !! i | None => None end.
Proof.
  induction ns as [|n ns IH]; simpl; [done|]. destruct (key_eqb _ _); [done|].
  rewrite IH. by destruct (position_in k ns).
Qed.

End Keys.

Lemma sublist_all {A} (P : A → Prop) l1 l2 : l1 `sublist_of` l2 → Forall P l2 → Forall P l1.
Proof. induction 1; intros Hf; [done|inversion Hf; constructor; auto|inversion Hf; auto]. Qed.

Lemma filter_length_perm {A} (f : A → bool) l1 l2 :
  Permutation l1 l2 → length (List.filter f l1) = length (List.filter f l2).
Proof. induction 1; simpl; repeat case_goal; simpl; congruence. Qed.

Lemma filter_length_sublist {A} (f : A → bool) l1 l2 :
  l1 `sublist_of` l2 → length (List.filter f l1) ≤ length (List.filter f l2).
Proof. induction 1; simpl; [done|case_goal; simpl; lia|case_goal; simpl; lia]. Qed.

(** ** The queues *)

Record Queues (T V : Type) := MkQueues {
  disc : list (Node T V);
  conn : list (Node T V);
  pend : option (PendingNode T V);
}.
Arguments MkQueues {T V}.
Arguments disc {T V}.
Arguments conn {T V}.
Arguments pend {T V}.

Section Spec.
Context {T V : Type} `{EqDecision V} (timeout : Z) (flt : option (Filter V)) (limit : nat).
Notation Node := (Node T V).
Notation Queues := (Queues T V).
Implicit Types (q : Queues) (n : Node) (k : Key T).

Definition all q : list Node := disc q ++ conn q.

Definition allowed (v : V) (ns : list Node) : bool :=
  match flt with Some f => f v (value <$> ns) | None => true end.
Definition too_many (ns : list Node) : bool := limit <=? length (List.filter connected_incoming ns).

(** The node joins the end of the queue of its status. *)
Definition enqueue n q : Queues :=
  match state (status n) with
  | Connected => MkQueues (disc q) (conn q ++ [n]) (pend q)
  | Disconnected => MkQueues (disc q ++ [n]) (conn q) (pend q)
  end.

Definition clear_pending k q : Queues :=
  match pend q with
  | Some p => if key_eqb (key (node p)) k then MkQueues (disc q) (conn q) None else q
  | None => q
  end.

Definition spec_insert (now : Z) n q : BucketInsertResult T * Queues :=
  if bool_decide (hash (key n) ∈ keys (all q)) then (NodeExists, q)
  else if negb (allowed (value n) (all q)) then (FailedFilter, q)
  else if connected_incoming n && too_many (all q) then (TooManyIncoming, q)
  else if length (all q) <? MAX_NODES_PER_BUCKET then (Inserted, clear_pending (key n) (enqueue n q))
  else match state (status n), pend q, disc q with
       | Connected, None, old :: _ =>
           (Pending (key old), MkQueues (disc q) (conn q) (Some (MkPending n (now + timeout))))
       | _, _, _ => (Full, q)
       end.

Definition spec_apply_pending (now : Z) q : option (AppliedPending T V) * Queues :=
  match pend q with
  | None => (None, q)
  | Some p =>
      if (replace p <=? now)%Z then
        let q := MkQueues (disc q) (conn q) None in
        if length (all q) <? MAX_NODES_PER_BUCKET then
          let '(r, q) := spec_insert now (node p) q in
          (match r with Inserted => Some (MkApplied (key (node p)) None) | _ => None end, q)
        else match disc q with
             | [] => (None, q)
             | old :: ds =>
                 if allowed (value (node p)) (all q) && negb (connected_incoming (node p) && too_many (all q))
                 then (Some (MkApplied (key (node p)) (Some old)), enqueue (node p) (MkQueues ds (conn q) None))
                 else (None, q)
             end
      else (None, q)
  end.

Definition lookup_key k q : option Node := List.find (λ n, key_eqb (key n) k) (all q).
Definition dequeue k q : Queues := MkQueues (drop_key k (disc q)) (drop_key k (conn q)) (pend q).

(** An update of the pending node [k]. *)
Definition on_pending k (f : Node → Node) q : UpdateResult * Queues :=
  match pend q with
  | Some p => if key_eqb (key (node p)) k
              then (UpdatedPending, MkQueues (disc q) (conn q) (Some (MkPending (f (node p)) (replace p))))
              else (Failed KeyNonExistant, q)
  | None => (Failed KeyNonExistant, q)
  end.

Definition spec_update_status (now : Z) k (s : ConnectionState) (dir : option ConnectionDirection) q
    : UpdateResult * Queues :=
  match lookup_key k q with
  | Some n =>
      let n' := set_status (change_status s dir (status n)) n in
      let first := match all q with m :: _ => key_eqb (key m) k | [] => false end in
      let q' := dequeue k q in
      let q' := if first && bool_decide (s = Connected) then MkQueues (disc q') (conn q') None else q' in
      let '(r, q') := spec_insert now n' q' in
      (match r with
       | Inserted => if bool_decide (status n = status n') then NotModified
                     else if negb (is_connected (status n)) && bool_decide (s = Connected) then UpdatedAndPromoted
                     else Updated
       | TooManyIncoming => Failed TooManyIncomingNodes
       | _ => Failed BucketFilter
       end, q')
  | None => on_pending k (λ n, set_status (change_status s dir (status n)) n) q
  end.

Definition set_at k (v : V) (ns : list Node) : list Node :=
  (λ n, if key_eqb (key n) k then set_value v n else n) <$> ns.

Definition spec_update_value k (v : V) q : UpdateResult * Queues :=
  match lookup_key k q with
  | Some n =>
      if decide (value n = v) then (NotModified, q)
      else if allowed v (all (dequeue k q)) then
        (Updated, MkQueues (set_at k v (disc q)) (set_at k v (conn q)) (pend q))
      else (Failed BucketFilter, dequeue k q)
  | None => on_pending k (set_value v) q
  end.

Definition spec_remove (now : Z) k q : bool * Queues :=
  match lookup_key k q with
  | Some _ => (true, (spec_apply_pending now (dequeue k q)).2)
  | None => (false, q)
  end.

(** ** Invariant of the queues *)

Record queues_wf q : Prop := {
  wf_room : length (all q) ≤ MAX_NODES_PER_BUCKET;
  wf_keys : NoDup (keys (all q));
  wf_disc : Forall (λ n, state (status n) = Disconnected) (disc q);
  wf_conn : Forall (λ n, state (status n) = Connected) (conn q);
  wf_incoming : length (List.filter connected_incoming (all q)) ≤ limit;
  wf_pend : ∀ p, pend q = Some p → hash (key (node p)) ∉ keys (all q);
}.

Ltac qwf H := destruct H as [Hroom Hkeys Hdisc Hconn Hinc Hpend].

(** Part of the nodes, no new pending node. *)
Lemma wf_part q q' : queues_wf q → disc q' `sublist_of` disc q → conn q' `sublist_of` conn q →
  (pend q' = None ∨ pend q' = pend q) → queues_wf q'.
Proof.
  intros H Hd Hc Hp. assert (all q' `sublist_of` all q) as Ha by by apply sublist_app.
  qwf H. split.
  - apply sublist_length in Ha. lia.
  - eapply sublist_NoDup; [done|by apply keys_sublist].
  - by eapply sublist_all.
  - by eapply sublist_all.
  - pose proof (filter_length_sublist connected_incoming _ _ Ha). lia.
  - intros p Hq'. destruct Hp as [Hp|Hp]; [congruence|]. rewrite Hp in Hq'.
    intros Hin. apply (Hpend p Hq'). eapply elem_of_sublist; [done|by apply keys_sublist].
Qed.

(** A new node at the end of its queue. *)
Lemma wf_enqueue n q : queues_wf q → length (all q) < MAX_NODES_PER_BUCKET → hash (key n) ∉ keys (all q) →
  connected_incoming n && too_many (all q) = false →
  (∀ p, pend q = Some p → hash (key (node p)) ≠ hash (key n)) → queues_wf (enqueue n q).
Proof.
  intros H Hlt Hnew Hmany Hp. qwf H.
  assert (Permutation (all (enqueue n q)) (n :: all q)) as Hall.
  { unfold enqueue, all. case_goal; simpl; [rewrite app_assoc|]; solve_Permutation. }
  assert (pend (enqueue n q) = pend q) as Hpq by (unfold enqueue; by case_goal).
  split.
  - rewrite Hall. simpl. lia.
  - unfold keys. rewrite Hall. simpl. by apply NoDup_cons.
  - unfold enqueue. case_goal; simpl; [done|]. by apply Forall_app; split; [|constructor].
  - unfold enqueue. case_goal; simpl; [|done]. by apply Forall_app; split; [|constructor].
  - rewrite (filter_length_perm _ _ _ Hall). simpl. unfold too_many in Hmany. destruct (connected_incoming n); simpl in *; [|done].
    apply Nat.leb_gt in Hmany. lia.
  - rewrite Hpq. intros p Hpp. unfold keys. rewrite Hall. simpl. rewrite not_elem_of_cons.
    split; [by apply Hp|by apply Hpend].
Qed.

Lemma wf_set_pending q p : queues_wf q → hash (key (node p)) ∉ keys (all q) →
  queues_wf (MkQueues (disc q) (conn q) (Some p)).
Proof. intros H Hp. qwf H. split; [done..|]. by intros ? [= <-]. Qed.

Lemma clear_pending_wf k q : queues_wf q → queues_wf (clear_pending k q).
Proof.
  intros H. apply (wf_part q); [done|..]; unfold clear_pending; repeat case_goal; simpl; auto.
Qed.

Lemma clear_enqueue n q : clear_pending (key n) (enqueue n q) = enqueue n (clear_pending (key n) q).
Proof.
  unfold clear_pending, enqueue.
  destruct (state (status n)) eqn:?, (pend q) as [p|] eqn:?; simpl; try destruct (key_eqb _ _); simpl; congruence.
Qed.

Lemma clear_pending_fresh k q p : pend (clear_pending k q) = Some p → hash (key (node p)) ≠ hash k.
Proof.
  unfold clear_pending, key_eqb. destruct (pend q) as [p'|] eqn:Hp; [|congruence].
  destruct (Z.eqb_spec (hash (key (node p'))) (hash k)); [done|]. rewrite Hp. congruence.
Qed.

Lemma all_clear_pending k q : all (clear_pending k q) = all q.
Proof. unfold clear_pending. by repeat case_goal. Qed.

Lemma spec_insert_wf now n q : queues_wf q → queues_wf (spec_insert now n q).2.
Proof.
  intros H. unfold spec_insert. case_bool_decide as Hin; [done|].
  destruct (allowed _ _); simpl; [|done].
  destruct (connected_incoming n && too_many (all q)) eqn:Hm; simpl; [done|].
  destruct (Nat.ltb_spec (length (all q)) MAX_NODES_PER_BUCKET); simpl.
  - rewrite clear_enqueue. apply wf_enqueue; rewrite ?all_clear_pending; try done.
    + by apply clear_pending_wf.
    + apply clear_pending_fresh.
  - destruct (state (status n)), (pend q) eqn:?; try done.
    destruct (disc q) eqn:Hd; [done|]. rewrite <- Hd. by apply wf_set_pending.
Qed.

Lemma spec_apply_pending_wf now q : queues_wf q → queues_wf (spec_apply_pending now q).2.
Proof.
  intros H. unfold spec_apply_pending. destruct (pend q) as [p|] eqn:Hp; [|done].
  destruct (_ <=? _)%Z; [|done].
  assert (queues_wf (MkQueues (disc q) (conn q) None)) as H0 by (apply (wf_part q); auto).
  destruct (Nat.ltb_spec (length (all (MkQueues (disc q) (conn q) None))) MAX_NODES_PER_BUCKET).
  - pose proof (spec_insert_wf now (node p) _ H0) as Hi. by destruct (spec_insert _ _ _).
  - simpl. destruct (disc q) as [|old ds] eqn:Hd; [done|].
    destruct (allowed _ _ && _) eqn:Ha; simpl; [|done].
    apply andb_prop in Ha as [_ Ha%negb_true_iff].
    assert (all (MkQueues (old :: ds) (conn q) None) = all q) as Hall by (unfold all; by rewrite Hd).
    pose proof (wf_pend _ H p Hp) as Hnew. rewrite <- Hall in Hnew. apply not_elem_of_cons in Hnew as [_ Hnew].
    apply wf_enqueue.
    + apply (wf_part q); simpl; [done| |done|auto]. rewrite Hd. by constructor.
    + pose proof (wf_room _ H) as Hr. rewrite <- Hall in Hr. unfold all in *. simpl in *. lia.
    + done.
    + destruct (connected_incoming (node p)) eqn:Hc; simpl in *; [|done].
      unfold too_many in *. simpl in Ha.
      assert (connected_incoming old = false) as Ho.
      { pose proof (wf_disc _ H) as Hf. rewrite Hd in Hf. inversion Hf as [|? ? Hs]; subst.
        unfold connected_incoming, is_connected. by rewrite Hs. }
      unfold all in *. simpl in *. by rewrite Ho in Ha.
    + done.
Qed.

Lemma dequeue_wf k q : queues_wf q → queues_wf (dequeue k q).
Proof. intros H. apply (wf_part q); simpl; auto using drop_key_sublist. Qed.

Lemma on_pending_wf k f q : (∀ n, key (f n) = key n) → queues_wf q → queues_wf (on_pending k f q).2.
Proof.
  intros Hf H. unfold on_pending. destruct (pend q) as [p|] eqn:Hp; [|done].
  case_goal; simpl; [|done]. apply wf_set_pending; [done|]. simpl. rewrite Hf. by apply (wf_pend q).
Qed.

Lemma spec_update_status_wf now k s dir q : queues_wf q → queues_wf (spec_update_status now k s dir q).2.
Proof.
  intros H. unfold spec_update_status. destruct (lookup_key k q) as [n|]; [|by apply on_pending_wf].
  match goal with |- context [spec_insert now ?n ?q'] =>
    assert (queues_wf q') as Hq'; [|pose proof (spec_insert_wf now n q' Hq') as Hi; by destruct (spec_insert now n q')]
  end.
  pose proof (dequeue_wf k q H) as Hd. destruct (_ && _); [|done]. by apply (wf_part (dequeue k q)); auto.
Qed.

Lemma set_at_keys k v ns : keys (set_at k v ns) = keys ns.
Proof. unfold keys, set_at. rewrite <- list_fmap_compose. apply list_fmap_ext. intros i n _. simpl. by case_goal. Qed.

Lemma set_at_forall k v (P : NodeStatus → Prop) ns :
  Forall (λ n, P (status n)) ns → Forall (λ n, P (status n)) (set_at k v ns).
Proof. intros Hf. apply Forall_fmap. eapply Forall_impl; [done|]. intros n Hn. simpl. by case_goal. Qed.

Lemma set_at_incoming k v ns :
  length (List.filter connected_incoming (set_at k v ns)) = length (List.filter connected_incoming ns).
Proof.
  induction ns as [|n ns IH]; simpl; [done|].
  assert (connected_incoming (if key_eqb (key n) k then set_value v n else n) = connected_incoming n) as ->
    by (by case_goal).
  case_goal; simpl; by rewrite ?IH.
Qed.

Lemma spec_update_value_wf k v q : queues_wf q → queues_wf (spec_update_value k v q).2.
Proof.
  intros H. unfold spec_update_value. destruct (lookup_key k q) as [n|]; [|by apply on_pending_wf].
  case_decide; [done|]. destruct (allowed _ _); simpl; [|by apply dequeue_wf].
  assert (all (MkQueues (set_at k v (disc q)) (set_at k v (conn q)) (pend q)) = set_at k v (all q)) as Hall
    by by unfold all, set_at; rewrite fmap_app.
  qwf H. split; rewrite ?Hall, ?set_at_keys, ?set_at_incoming; try done.
  - unfold set_at. by rewrite length_fmap.
  - by apply (set_at_forall k v (λ s, state s = Disconnected)).
  - by apply (set_at_forall k v (λ s, state s = Connected)).
Qed.

Lemma spec_remove_wf now k q : queues_wf q → queues_wf (spec_remove now k q).2.
Proof.
  intros H. unfold spec_remove. case_goal; simpl; [|done]. by apply spec_apply_pending_wf, dequeue_wf.
Qed.

End Spec.

(** ** Refinement *)

Section Refinement.
Context {AV : Type → Type} `{ArrayVecLaws AV} {T V : Type} `{EqDecision V}.
Context (timeout : Z) (flt : option (Filter V)) (limit : nat).
Notation KBucket := (KBucket AV T V).
Notation Queues := (Queues T V).
Notation spec_insert := (spec_insert timeout flt limit).
Notation spec_apply_pending := (spec_apply_pending timeout flt limit).
Implicit Types (b : KBucket) (q : Queues) (n : Node T V) (k : Key T).

Definition first_of q : option nat := match conn q with [] => None | _ => Some (length (disc q)) end.

Record kb_rep b q : Prop := {
  rep_nodes : kb_iter b = all q;
  rep_first : first_connected_pos b = first_of q;
  rep_pending : pending b = pend q;
  rep_timeout : pending_timeout b = timeout;
  rep_filter : bucket_filter b = flt;
  rep_limit : max_incoming b = limit;
}.

(** The operation returns [r] and leaves a bucket that represents [q']. *)
Definition gives {A} (m : st KBucket A) b (r : A) q' : Prop := ∃ b', m b = (Ok r, b') ∧ kb_rep b' q'.

Lemma gives_bind {A B} (m : st KBucket A) (f : A → st KBucket B) b r1 q1 r q' :
  gives m b r1 q1 → (∀ b1, kb_rep b1 q1 → gives (f r1) b1 r q') → gives (st_bind m f) b r q'.
Proof. intros (b1 & Hm & H1) Hf. destruct (Hf b1 H1) as (b' & He & H'). exists b'. unfold st_bind. by rewrite Hm. Qed.

Lemma gives_get {A} (m : KBucket → st KBucket A) b r q' : gives (m b) b r q' → gives (st_bind st_get m) b r q'.
Proof. done. Qed.

Lemma gives_modify {A} (m : st KBucket A) f b r q' : gives m (f b) r q' → gives (st_modify f ;; m) b r q'.
Proof. done. Qed.

Lemma gives_ret {A} b q (r : A) : kb_rep b q → gives (st_ret r) b r q.
Proof. by exists b. Qed.

Lemma rep_filter_eq b q v : kb_rep b q → passes_filter v b = allowed flt v (all q).
Proof. intros Hb. unfold passes_filter, allowed. by rewrite (rep_filter _ _ Hb), (rep_nodes _ _ Hb). Qed.

Lemma rep_max_eq b q : kb_rep b q → is_max_incoming b = too_many limit (all q).
Proof. intros Hb. unfold is_max_incoming, too_many. by rewrite (rep_limit _ _ Hb), (rep_nodes _ _ Hb). Qed.

Lemma rep_full_eq b q : kb_rep b q → av_is_full (nodes b) = negb (length (all q) <? MAX_NODES_PER_BUCKET).
Proof.
  intros Hb. rewrite av_is_full_spec. change (av_elems (nodes b)) with (kb_iter b). rewrite (rep_nodes _ _ Hb).
  by rewrite Nat.ltb_antisym, negb_involutive.
Qed.

Lemma rep_set_pending b q p : kb_rep b q → kb_rep (set_pending p b) (MkQueues (disc q) (conn q) p).
Proof. intros []. by split. Qed.

Lemma rep_clear_pending b q k : kb_rep b q →
  kb_rep (if match pending b with Some p => key_eqb (key (node p)) k | None => false end
          then set_pending None b else b) (clear_pending k q).
Proof.
  intros Hb. unfold clear_pending. rewrite (rep_pending _ _ Hb). destruct (pend q) as [p|]; [|done].
  case_goal; [|done]. by apply rep_set_pending.
Qed.

Lemma enqueue_connected n q : state (status n) = Connected → enqueue n q = MkQueues (disc q) (conn q ++ [n]) (pend q).
Proof. unfold enqueue. by intros ->. Qed.
Lemma enqueue_disconnected n q : state (status n) = Disconnected → enqueue n q = MkQueues (disc q ++ [n]) (conn q) (pend q).
Proof. unfold enqueue. by intros ->. Qed.

(** [push] at the end, the position of the first connected node set before. *)
Lemma push_gives b n q : kb_iter b = all q → length (all q) < MAX_NODES_PER_BUCKET →
  pending b = pend q → pending_timeout b = timeout → bucket_filter b = flt → max_incoming b = limit →
  first_connected_pos b = first_of (enqueue n q) →
  (conn q = [] ∨ state (status n) = Connected) → gives (nodes_push n) b tt (enqueue n q).
Proof.
  intros Hn Hlt Hp Ht Hf Hl Hfirst Hend.
  destruct (av_push_spec (nodes b) n) as (v & Hv & He).
  { change (av_elems (nodes b)) with (kb_iter b). by rewrite Hn. }
  exists (set_nodes v b). split; [unfold nodes_push, st_bind, st_get, st_lift; by rewrite Hv|].
  change (av_elems (nodes b)) with (kb_iter b) in He.
  split; simpl; try done; [|unfold enqueue; by case_goal].
  unfold kb_iter. simpl. rewrite He, Hn. unfold enqueue, all. destruct Hend as [Hc|Hc].
  - rewrite Hc. case_goal; simpl; by rewrite ?app_nil_r.
  - rewrite Hc. simpl. by rewrite app_assoc.
Qed.

(** [insert] at the position of the first connected node. *)
Lemma insert_gives b n q : kb_iter b = all q → length (all q) < MAX_NODES_PER_BUCKET →
  pending b = pend q → pending_timeout b = timeout → bucket_filter b = flt → max_incoming b = limit →
  state (status n) = Disconnected →
  ∃ b', nodes_insert (length (disc q)) n b = (Ok tt, b') ∧ kb_iter b' = all (enqueue n q) ∧
    b' = set_nodes (nodes b') b.
Proof.
  intros Hn Hlt Hp Ht Hf Hl Hs.
  destruct (av_insert_spec (nodes b) (length (disc q)) n) as (v & Hv & He);
    change (av_elems (nodes b)) with (kb_iter b) in *.
  { by rewrite Hn. }
  { rewrite Hn. unfold all. rewrite length_app. lia. }
  exists (set_nodes v b). split; [unfold nodes_insert, st_bind, st_get, st_lift; by rewrite Hv|].
  split; [|done]. unfold kb_iter. simpl. rewrite He, Hn, (enqueue_disconnected n q Hs). unfold all. simpl.
  by rewrite take_app_length, drop_app_length, <- app_assoc.
Qed.

(** [remove] of the node [n] at a position. *)
Lemma remove_gives b i n : kb_iter b !! i = Some n →
  ∃ b', nodes_remove i b = (Ok n, b') ∧ kb_iter b' = delete i (kb_iter b) ∧ b' = set_nodes (nodes b') b.
Proof.
  intros Hi. destruct (av_remove_spec (nodes b) i n Hi) as (v & Hv & He).
  exists (set_nodes v b). split; [|done]. unfold nodes_remove, st_bind, st_get, st_lift. by rewrite Hv.
Qed.

(** *** [insert] *)

Lemma insert_connected_gives now n b q : kb_rep b q → state (status n) = Connected →
  connected_incoming n && too_many limit (all q) = false →
  gives (insert_connected now n) b
    (if length (all q) <? MAX_NODES_PER_BUCKET then Inserted
     else match pend q, disc q with None, old :: _ => Pending (key old) | _, _ => Full end)
    (if length (all q) <? MAX_NODES_PER_BUCKET then enqueue n q
     else match pend q, disc q with
          | None, _ :: _ => MkQueues (disc q) (conn q) (Some (MkPending n (now + timeout)))
          | _, _ => q
          end).
Proof.
  intros Hb Hs Hm. apply gives_get. simpl. unfold connected_incoming in Hm. rewrite (rep_max_eq b q Hb), (rep_full_eq b q Hb).
  assert (is_connected (status n) = true) as Hc by (unfold is_connected; by rewrite Hs).
  rewrite Hc in Hm. simpl in Hm. rewrite Hm.
  destruct (Nat.ltb_spec (length (all q)) MAX_NODES_PER_BUCKET) as [Hlt|Hge]; simpl.
  - apply gives_modify. eapply gives_bind; [|intros b1 H1; by apply gives_ret].
    destruct Hb as [Hn Hf Hp Ht Hfl Hl].
    apply push_gives; try done; [|by right]. simpl. rewrite Hf, (enqueue_connected n q Hs).
    unfold first_of. simpl. destruct (conn q) eqn:Hcq; simpl; [|done].
    rewrite Hn. unfold all. by rewrite Hcq, app_nil_r.
  - rewrite (rep_first _ _ Hb), (rep_pending _ _ Hb). unfold first_of.
    destruct (pend q) as [p|]; simpl.
    { exists b. split; [|done]. rewrite orb_true_r. done. }
    destruct (disc q) as [|old ds] eqn:Hd.
    + destruct (conn q) eqn:Hcq; [|by exists b].
      unfold all in Hge. rewrite Hd, Hcq in Hge. unfold MAX_NODES_PER_BUCKET in Hge. simpl in Hge. lia.
    + exists (set_pending (Some (MkPending n (now + timeout))) b). split.
      * assert (bool_decide (match conn q with [] => None | _ => Some (length (old :: ds)) end = Some 0) = false) as ->
          by (apply bool_decide_eq_false; by destruct (conn q)).
        simpl. unfold st_bind, st_modify, st_lift, index.
        rewrite (rep_nodes _ _ Hb), (rep_timeout _ _ Hb). unfold all. by rewrite Hd.
      * rewrite <- Hd. by apply rep_set_pending.
Qed.

Lemma insert_disconnected_gives n b q : kb_rep b q → state (status n) = Disconnected →
  gives (insert_disconnected n) b
    (if length (all q) <? MAX_NODES_PER_BUCKET then Inserted else Full)
    (if length (all q) <? MAX_NODES_PER_BUCKET then enqueue n q else q).
Proof.
  intros Hb Hs. apply gives_get. simpl. rewrite (rep_full_eq b q Hb).
  destruct (Nat.ltb_spec (length (all q)) MAX_NODES_PER_BUCKET) as [Hlt|Hge]; simpl; [|by apply gives_ret].
  eapply gives_bind; [|intros b1 H1; by apply gives_ret].
  destruct Hb as [Hn Hf Hp Ht Hfl Hl]. rewrite Hf. unfold first_of. destruct (conn q) eqn:Hc.
  - apply push_gives; try done; [|by left]. rewrite Hf, (enqueue_disconnected n q Hs). unfold first_of. simpl. by rewrite Hc.
  - destruct (insert_gives b n q) as (b' & He & Hi & Hb'); try done.
    exists (set_first (Some (S (length (disc q)))) b'). split; [unfold st_bind; by rewrite He|].
    rewrite Hb'. rewrite (enqueue_disconnected n q Hs) in *. split; try done.
    simpl. unfold first_of. simpl. rewrite Hc, length_app. simpl. f_equal. lia.
Qed.

Lemma insert_finish b0 b n q (r : BucketInsertResult T) :
  kb_rep b q → (r = Inserted → pending b0 = pending b) →
  gives (match r with
         | Inserted => if match pending b0 with Some p => key_eqb (key (node p)) (key n) | None => false end
                       then st_modify (set_pending None) else st_ret tt
         | _ => st_ret tt
         end) b tt (match r with Inserted => clear_pending (key n) q | _ => q end).
Proof.
  intros Hb Hp. destruct r; try by apply gives_ret. rewrite Hp by done.
  pose proof (rep_clear_pending b q (key n) Hb) as Hc. destruct (match pending b with Some _ => _ | None => _ end).
  - by eexists.
  - by apply gives_ret.
Qed.

Lemma insert_refines now n b q : kb_rep b q →
  gives (kb_insert now n) b (spec_insert now n q).1 (spec_insert now n q).2.
Proof.
  intros Hb. apply gives_get. unfold kb_position, KBucketProofs.spec_insert.
  rewrite (rep_nodes _ _ Hb). case_bool_decide as Hin.
  { destruct (position_in _ _) eqn:Hpos; [by apply gives_ret|]. by apply position_none in Hpos. }
  apply position_none in Hin. rewrite Hin, (rep_filter_eq b q _ Hb).
  destruct (allowed _ _ _); simpl; [|by apply gives_ret].
  assert (∀ (m : st KBucket (BucketInsertResult T)) r q1, gives m b r q1 → (r = Inserted → pend q1 = pend q) →
    gives (let! insert_result := m in
           (match insert_result with
            | Inserted => if match pending b with Some p => key_eqb (key (node p)) (key n) | None => false end
                          then st_modify (set_pending None) else st_ret tt
            | _ => st_ret tt
            end) ;; st_ret insert_result) b r (match r with Inserted => clear_pending (key n) q1 | _ => q1 end))
    as Hfin.
  { intros m r q1 Hm Hr. eapply gives_bind; [done|]. intros b1 H1.
    eapply gives_bind; [apply (insert_finish b b1 n q1 r H1)|intros; by apply gives_ret].
    intros Hi. by rewrite (rep_pending _ _ Hb), (rep_pending _ _ H1), Hr. }
  assert (pend (enqueue n q) = pend q) as Hpe by (unfold enqueue; by case_goal).
  destruct (state (status n)) eqn:Hs.
  - destruct (connected_incoming n && too_many limit (all q)) eqn:Hm; simpl.
    + apply andb_prop in Hm as [Hc Hm]. apply andb_prop in Hc as [_ Hi].
      eapply (Hfin _ TooManyIncoming q); [|done]. apply gives_get. rewrite Hi, (rep_max_eq b q Hb), Hm.
      by apply gives_ret.
    + pose proof (insert_connected_gives now n b q Hb Hs Hm) as Hg.
      destruct (_ <? _); [by apply (Hfin _ Inserted)|].
      destruct (pend q), (disc q); simpl; by apply (Hfin _ _ _ Hg).
  - assert (connected_incoming n = false) as -> by (unfold connected_incoming, is_connected; by rewrite Hs).
    pose proof (insert_disconnected_gives n b q Hb Hs) as Hg. simpl.
    destruct (_ <? _); [by apply (Hfin _ Inserted)|]. simpl. by apply (Hfin _ _ _ Hg).
Qed.

(** *** [apply_pending] *)

Lemma replace_first_gives n b q old ds : kb_rep b q → disc q = old :: ds → length (all q) = MAX_NODES_PER_BUCKET →
  gives (replace_first n) b (Some (MkApplied (key n) (Some old))) (enqueue n (MkQueues ds (conn q) (pend q))).
Proof.
  intros [Hn Hf Hp Ht Hfl Hl] Hd Hlen.
  destruct (remove_gives b 0 old) as (b1 & Hr & Hi & Hb1); [rewrite Hn; unfold all; by rewrite Hd|].
  set (q1 := MkQueues ds (conn q) (pend q)).
  assert (kb_iter b1 = all q1) as Hn1 by (rewrite Hi, Hn; unfold all; by rewrite Hd).
  assert (length (all q1) < MAX_NODES_PER_BUCKET) as Hlt
    by (unfold all in *; rewrite Hd in Hlen; simpl in *; lia).
  assert (pending b1 = pend q1 ∧ pending_timeout b1 = timeout ∧ bucket_filter b1 = flt ∧ max_incoming b1 = limit)
    as (Hp1 & Ht1 & Hf1 & Hl1) by (by rewrite Hb1).
  assert (first_connected_pos b1 = first_of q) as Hfirst by (rewrite Hb1; done).
  unfold first_of in Hfirst, Hf. rewrite Hd in Hfirst, Hf. simpl in Hfirst, Hf.
  apply gives_get. unfold is_connected. destruct (state (status n)) eqn:Hs.
  - unfold gives, st_bind at 1. rewrite Hr. apply gives_modify.
    eapply gives_bind; [|intros; by apply gives_ret]. apply push_gives; try done; [|by right].
    rewrite (enqueue_connected n q1 Hs). simpl. rewrite Hfirst, Hn1. unfold first_of, all. simpl.
    destruct (conn q); simpl; by rewrite ?app_nil_r.
  - rewrite Hf. unfold gives. destruct (conn q) eqn:Hc; simpl; unfold st_bind at 1; rewrite Hr.
    + eapply gives_bind; [|intros; by apply gives_ret]. apply push_gives; try done; [|by left].
      rewrite Hfirst, (enqueue_disconnected n q1 Hs). done.
    + destruct (insert_gives b1 n q1) as (b' & He & Hi' & Hb'); try done.
      exists b'. split; [unfold st_bind; simpl in He; by rewrite He|].
      rewrite (enqueue_disconnected n q1 Hs) in *. rewrite Hb'. split; try done.
      simpl. rewrite Hfirst. unfold first_of. simpl. rewrite length_app. simpl. f_equal. lia.
Qed.

Lemma apply_pending_refines now b q : kb_rep b q → queues_wf limit q →
  gives (apply_pending now) b (spec_apply_pending now q).1 (spec_apply_pending now q).2.
Proof.
  intros Hb Hwf. apply gives_get. unfold KBucketProofs.spec_apply_pending. rewrite (rep_pending _ _ Hb).
  destruct (pend q) as [p|] eqn:Hp; [|by apply gives_ret].
  apply gives_modify. pose proof (rep_set_pending b q None Hb) as Hb0.
  destruct (_ <=? _)%Z.
  2:{ apply gives_modify. apply gives_ret. destruct Hb. by split. }
  set (q0 := MkQueues (disc q) (conn q) None) in *.
  change (av_is_full (nodes b)) with (av_is_full (nodes (set_pending None b))).
  rewrite (rep_full_eq _ _ Hb0). destruct (Nat.ltb_spec (length (all q0)) MAX_NODES_PER_BUCKET) as [Hlt|Hge]; simpl.
  - eapply gives_bind; [by apply insert_refines|]. intros b1 H1.
    pose proof (Nat.ltb_lt (length (all q0)) MAX_NODES_PER_BUCKET) as [_ Hlt']. specialize (Hlt' Hlt).
    destruct (spec_insert now (node p) q0) as [r q1] eqn:Hs. destruct r; try by apply gives_ret.
    exfalso. revert Hs. unfold KBucketProofs.spec_insert. rewrite Hlt'. repeat case_goal; congruence.
  - rewrite (rep_nodes _ _ Hb). assert (length (all q) = MAX_NODES_PER_BUCKET) as Hlen
      by (pose proof (wf_room _ _ Hwf); unfold all, q0 in *; simpl in *; lia).
    destruct (disc q) as [|old ds] eqn:Hd.
    + unfold all. rewrite Hd. destruct (conn q) as [|c cs] eqn:Hc.
      { unfold all, MAX_NODES_PER_BUCKET in Hlen. by rewrite Hd, Hc in Hlen. }
      pose proof (wf_conn _ _ Hwf) as Hf. rewrite Hc in Hf. inversion Hf as [|? ? Hs]; subst.
      exists (set_pending None b). simpl. unfold st_bind, st_lift, index, is_connected. simpl. by rewrite Hs.
    + pose proof (wf_disc _ _ Hwf) as Hf. rewrite Hd in Hf. inversion Hf as [|? ? Hs]; subst.
      assert (all q = all q0) as -> by (unfold all, q0; by rewrite Hd).
      unfold gives, st_bind at 1, st_lift, index. unfold all at 1, q0 at 1. simpl.
      unfold is_connected. rewrite Hs. rewrite (rep_filter_eq b q _ Hb), (rep_max_eq b q Hb).
      assert (all q = all q0) as -> by (unfold all, q0; by rewrite Hd).
      destruct (allowed _ _ _); simpl; [|by apply gives_ret].
      destruct (_ && _); simpl; [by apply gives_ret|].
      apply (replace_first_gives (node p) (set_pending None b) q0 old ds); try done.
      unfold q0, all in *. simpl. by rewrite Hd in Hlen.
Qed.

(** *** [update_status] *)

Lemma locate k q i : queues_wf limit q → position_in k (all q) = Some i →
  ∃ n, all q !! i = Some n ∧ lookup_key k q = Some n ∧ hash (key n) = hash k ∧
    delete i (all q) = all (dequeue k q) ∧
    ((state (status n) = Disconnected ∧ i < length (disc q) ∧ drop_key k (conn q) = conn q
        ∧ length (disc q) = S (length (drop_key k (disc q)))) ∨
     (state (status n) = Connected ∧ length (disc q) ≤ i ∧ drop_key k (disc q) = disc q
        ∧ length (conn q) = S (length (drop_key k (conn q))))).
Proof.
  intros Hwf Hpos. destruct (position_some k _ _ Hpos) as (n & Hi & Hk). exists n.
  pose proof (wf_keys _ _ Hwf) as Hnd.
  assert (delete i (all q) = all (dequeue k q)) as Hdel
    by (rewrite (delete_position k _ _ Hnd Hpos); apply drop_key_app).
  split; [done|]. split; [unfold lookup_key; by rewrite find_position, Hpos|]. split; [done|]. split; [done|].
  unfold all in Hnd. rewrite keys_app in Hnd. apply NoDup_app in Hnd as (Hd & Hdis & Hc).
  unfold all in Hpos, Hi. rewrite position_app in Hpos. destruct (position_in k (disc q)) as [j|] eqn:Hj.
  - simplify_eq. left. pose proof (position_some k _ _ Hj) as (n' & Hn' & Hk').
    rewrite lookup_app_l in Hi by (by eapply lookup_lt_Some).
    assert (n' = n) as -> by congruence. pose proof (lookup_lt_Some _ _ _ Hi).
    split; [apply (Forall_lookup_1 _ _ _ _ (wf_disc _ _ Hwf) Hi)|].
    split; [done|]. split.
    + apply drop_key_fresh. apply Hdis. rewrite <- Hk. apply list_elem_of_fmap. exists n. split; [done|].
      by eapply list_elem_of_lookup_2.
    + rewrite <- (delete_position k _ _ Hd Hj), length_delete by done. lia.
  - right. apply position_none in Hj. rewrite fmap_Some in Hpos. destruct Hpos as (j & Hjc & ->).
    pose proof (position_some k _ _ Hjc) as (n' & Hn' & Hk').
    rewrite lookup_app_r in Hi by lia. replace (length (disc q) + j - length (disc q)) with j in * by lia.
    assert (n' = n) as -> by congruence. pose proof (lookup_lt_Some _ _ _ Hi).
    split; [apply (Forall_lookup_1 _ _ _ _ (wf_conn _ _ Hwf) Hi)|].
    split; [lia|]. split; [by apply drop_key_fresh|].
    rewrite <- (delete_position k _ _ Hc Hjc), length_delete by done. lia.
Qed.

(** After the removal of [k] and the correction of the first connected position. *)
Lemma dequeue_gives b q k i n : kb_rep b q → queues_wf limit q → position_in k (all q) = Some i → all q !! i = Some n →
  ∃ b1, nodes_remove i b = (Ok n, b1) ∧ kb_iter b1 = all (dequeue k q) ∧ b1 = set_nodes (nodes b1) b ∧
    first_after_update (state (status n)) i b1 = first_of (dequeue k q) ∧
    first_connected_pos (update_first_connected_pos_for_removal i b1) = first_of (dequeue k q).
Proof.
  intros Hb Hwf Hpos Hin. destruct (locate k q i Hwf Hpos) as (n' & Hi & _ & _ & Hdel & Hcase).
  assert (n' = n) as -> by congruence.
  destruct (remove_gives b i n) as (b1 & Hr & Hi1 & Hb1); [by rewrite (rep_nodes _ _ Hb)|].
  rewrite (rep_nodes _ _ Hb), Hdel in Hi1.
  exists b1. split; [done|]. split; [done|]. split; [done|].
  assert (first_connected_pos b1 = first_of q) as Hf by (rewrite Hb1; apply (rep_first _ _ Hb)).
  unfold first_after_update, update_first_connected_pos_for_removal. simpl. rewrite Hf, Hi1.
  unfold first_of, all. simpl. rewrite length_app. apply lookup_lt_Some in Hi. unfold all in Hi. rewrite length_app in Hi.
  destruct Hcase as [(Hs & Hlt & -> & Hlen)|(Hs & Hge & -> & Hlen)]; rewrite Hs.
  - destruct (conn q); [done|]. rewrite (proj2 (Nat.ltb_lt _ _) Hlt), Hlen. simpl.
    split; [done|]. f_equal. lia.
  - destruct (conn q) as [|c cs]; [done|].
    rewrite (proj2 (Nat.ltb_ge i (length (disc q))) Hge).
    destruct (drop_key k (c :: cs)) as [|c' cs'] eqn:Hdc; simpl in Hlen, Hi |- *.
    + rewrite bool_decide_eq_true_2 by (f_equal; lia). rewrite (proj2 (Nat.eqb_eq _ _)) by lia.
      by rewrite (proj2 (Nat.ltb_ge _ _)) by lia.
    + rewrite (proj2 (Nat.ltb_lt _ _)) by lia. split; [|done].
      case_bool_decide; simplify_eq; [|done]. by rewrite (proj2 (Nat.eqb_neq _ _)) by lia.
Qed.

Lemma pending_gives b q k f : kb_rep b q →
  gives (match pending b with
         | Some p => if key_eqb (key (node p)) k
                     then st_modify (set_pending (Some (MkPending (f (node p)) (replace p)))) ;; st_ret UpdatedPending
                     else st_ret (Failed KeyNonExistant)
         | None => st_ret (Failed KeyNonExistant)
         end) b (on_pending k f q).1 (on_pending k f q).2.
Proof.
  intros Hb. unfold on_pending. rewrite (rep_pending _ _ Hb). destruct (pend q) as [p|]; [|by apply gives_ret].
  destruct (key_eqb _ _); [|by apply gives_ret]. apply gives_modify, gives_ret, rep_set_pending, Hb.
Qed.

Lemma first_position k (ns : list (Node T V)) i : position_in k ns = Some i →
  (i =? 0) = match ns with m :: _ => key_eqb (key m) k | [] => false end.
Proof.
  destruct ns as [|m ns]; simpl; [done|]. destruct (key_eqb _ _); [by intros [= <-]|].
  rewrite fmap_Some. by intros (j & _ & ->).
Qed.

(** A node whose key is gone goes into a bucket that has room. *)
Lemma spec_insert_room now n q : hash (key n) ∉ keys (all q) → length (all q) < MAX_NODES_PER_BUCKET →
  match (spec_insert now n q).1 with
  | Inserted | FailedFilter | TooManyIncoming => True
  | _ => False
  end.
Proof.
  intros Hk Hlt. unfold KBucketProofs.spec_insert. rewrite bool_decide_eq_false_2 by done.
  destruct (negb _); [done|]. destruct (_ && _); [done|]. by rewrite (proj2 (Nat.ltb_lt _ _)).
Qed.

Lemma dequeue_room q k i : queues_wf limit q → position_in k (all q) = Some i →
  hash k ∉ keys (all (dequeue k q)) ∧ length (all (dequeue k q)) < MAX_NODES_PER_BUCKET.
Proof.
  intros Hwf Hpos. destruct (locate k q i Hwf Hpos) as (n & Hi & _ & _ & Hdel & _). split.
  - unfold all, dequeue. simpl. rewrite <- drop_key_app. apply drop_key_gone.
  - rewrite <- Hdel, length_delete by done. apply lookup_lt_Some in Hi. pose proof (wf_room _ _ Hwf). lia.
Qed.

Lemma update_status_refines now k s dir b q : kb_rep b q → queues_wf limit q →
  gives (update_status now k s dir) b (spec_update_status timeout flt limit now k s dir q).1
    (spec_update_status timeout flt limit now k s dir q).2.
Proof.
  intros Hb Hwf. apply gives_get. unfold kb_position, spec_update_status. rewrite (rep_nodes _ _ Hb).
  destruct (position_in k (all q)) as [i|] eqn:Hpos.
  2:{ assert (lookup_key k q = None) as -> by (unfold lookup_key; by rewrite find_position, Hpos).
      by apply (pending_gives b q k (λ n, set_status (change_status s dir (status n)) n)). }
  destruct (locate k q i Hwf Hpos) as (n & Hi & Hl & Hk & _ & _). rewrite Hl.
  destruct (dequeue_gives b q k i n Hb Hwf Hpos Hi) as (b1 & Hr & Hi1 & Hb1 & Hf & _).
  destruct (dequeue_room q k i Hwf Hpos) as [Hgone Hroom].
  rewrite (first_position k _ _ Hpos).
  unfold gives, st_bind at 1. rewrite Hr. apply gives_modify.
  set (b2 := set_first _ b1).
  assert (kb_rep b2 (dequeue k q)) as H2.
  { destruct Hb as [Hn Hf' Hp Ht Hfl Hlim]. split; subst b2; simpl; try done; rewrite Hb1; done. }
  assert ((match s with Connected => true | Disconnected => false end) = bool_decide (s = Connected)) as -> by by destruct s.
  set (first := _ && bool_decide (s = Connected)).
  set (q' := if first then MkQueues _ _ None else dequeue k q).
  assert (∀ c : bool, gives (if c then st_modify (set_pending None) else st_ret tt) b2 tt
    (if c then MkQueues (disc (dequeue k q)) (conn (dequeue k q)) None else dequeue k q)) as Hpd.
  { intros []; [|by apply gives_ret]. eexists. split; [done|]. by apply rep_set_pending. }
  eapply gives_bind; [apply (Hpd first)|]. intros b3 H3. change (kb_rep b3 q') in H3.
  set (n' := set_status _ n). eapply gives_bind; [by apply insert_refines|]. intros b4 H4.
  assert (all q' = all (dequeue k q)) as Hall by (subst q'; by destruct first).
  pose proof (spec_insert_room now n' q') as Hres. rewrite Hall in Hres.
  simpl in Hres. rewrite Hk in Hres. specialize (Hres Hgone Hroom).
  destruct (spec_insert now n' q') as [[] q4]; simpl in *; try done; by apply gives_ret.
Qed.

(** *** [update_value] and [remove] *)

(** Writing a node back at its position. *)
Lemma insert_back b b1 i (n : Node T V) (ns : list (Node T V)) :
  kb_iter b1 = delete i ns → ns !! i = Some n → length ns ≤ MAX_NODES_PER_BUCKET → b1 = set_nodes (nodes b1) b →
  ∀ n', ∃ b', nodes_insert i n' b1 = (Ok tt, b') ∧ kb_iter b' = <[i := n']> ns ∧ b' = set_nodes (nodes b') b.
Proof.
  intros Hi Hn Hlen Hb1 n'. pose proof (lookup_lt_Some _ _ _ Hn) as Hlt.
  destruct (av_insert_spec (nodes b1) i n') as (v & Hv & He);
    change (av_elems (nodes b1)) with (kb_iter b1) in *; rewrite Hi in *.
  { rewrite length_delete by done. lia. }
  { rewrite length_delete by done. lia. }
  exists (set_nodes v b1). split; [unfold nodes_insert, st_bind, st_get, st_lift; by rewrite Hv|].
  split; [|by rewrite Hb1]. unfold kb_iter. simpl. rewrite He, delete_take_drop, insert_take_drop by done.
  rewrite take_app_le, take_take, Nat.min_id by (rewrite length_take; lia).
  rewrite drop_app_ge by (rewrite length_take; lia). rewrite length_take, Nat.min_l by lia.
  by rewrite Nat.sub_diag, drop_0.
Qed.

Lemma set_at_fresh k v (ns : list (Node T V)) : hash k ∉ keys ns → set_at k v ns = ns.
Proof.
  induction ns as [|n ns IH]; simpl; [done|]. rewrite not_elem_of_cons. intros [Hn Hns].
  unfold set_at in *. simpl. unfold key_eqb at 1. destruct (Z.eqb_spec (hash (key n)) (hash k)); [congruence|].
  by rewrite IH.
Qed.

Lemma set_at_position k v (ns : list (Node T V)) i n : NoDup (keys ns) → position_in k ns = Some i → ns !! i = Some n →
  <[i := set_value v n]> ns = set_at k v ns.
Proof.
  revert i. induction ns as [|m ns IH]; simpl; [done|]. intros i [Hm Hnd]%NoDup_cons.
  unfold set_at. simpl. unfold key_eqb at 1 2. destruct (Z.eqb_spec (hash (key m)) (hash k)) as [e|e].
  - intros [= <-] [= <-]. simpl. f_equal. symmetry. apply set_at_fresh. by rewrite <- e.
  - rewrite fmap_Some. intros (j & Hj & ->) Hn. simpl. f_equal. by apply IH.
Qed.

Lemma update_value_refines k v b q : kb_rep b q → queues_wf limit q →
  gives (update_value k v) b (spec_update_value flt k v q).1 (spec_update_value flt k v q).2.
Proof.
  intros Hb Hwf. apply gives_get. unfold kb_position, spec_update_value. rewrite (rep_nodes _ _ Hb).
  destruct (position_in k (all q)) as [i|] eqn:Hpos.
  2:{ assert (lookup_key k q = None) as -> by (unfold lookup_key; by rewrite find_position, Hpos).
      by apply (pending_gives b q k (set_value v)). }
  destruct (locate k q i Hwf Hpos) as (n & Hi & Hl & Hk & Hdel & _). rewrite Hl.
  destruct (dequeue_gives b q k i n Hb Hwf Hpos Hi) as (b1 & Hr & Hi1 & Hb1 & _ & Hf).
  unfold gives, st_bind at 1. rewrite Hr. rewrite <- Hdel in Hi1.
  pose proof (insert_back b b1 i n (all q) Hi1 Hi (wf_room _ _ Hwf) Hb1) as Hback.
  destruct Hb as [Hn Hf' Hp Ht Hfl Hlim]. destruct (decide (value n = v)).
  - destruct (Hback n) as (b' & He & Hi' & Hb'). exists b'. split; [unfold st_bind; by rewrite He|].
    rewrite list_insert_id in Hi' by done. rewrite Hb'. by split.
  - apply gives_get. assert (passes_filter v b1 = allowed flt v (all (dequeue k q))) as ->.
    { unfold passes_filter, allowed. rewrite Hi1, Hdel, Hb1. simpl. by rewrite Hfl. }
    destruct (allowed _ _ _); simpl.
    + destruct (Hback (set_value v n)) as (b' & He & Hi' & Hb'). exists b'. split; [unfold st_bind; by rewrite He|].
      rewrite (set_at_position k v _ _ _ (wf_keys _ _ Hwf) Hpos Hi) in Hi'.
      unfold all, set_at in Hi'. rewrite fmap_app in Hi'. rewrite Hb'. split; try done. simpl. rewrite Hf'.
      unfold first_of. simpl. unfold set_at. rewrite length_fmap. by destruct (conn q).
    + apply gives_modify, gives_ret. rewrite Hdel in Hi1. split; try done; simpl; by rewrite Hb1.
Qed.

Lemma remove_refines now k b q : kb_rep b q → queues_wf limit q →
  gives (kb_remove now k) b (spec_remove timeout flt limit now k q).1 (spec_remove timeout flt limit now k q).2.
Proof.
  intros Hb Hwf. apply gives_get. unfold kb_position, spec_remove. rewrite (rep_nodes _ _ Hb).
  destruct (position_in k (all q)) as [i|] eqn:Hpos.
  2:{ assert (lookup_key k q = None) as -> by (unfold lookup_key; by rewrite find_position, Hpos).
      by apply gives_ret. }
  destruct (locate k q i Hwf Hpos) as (n & Hi & Hl & Hk & Hdel & _). rewrite Hl.
  destruct (dequeue_gives b q k i n Hb Hwf Hpos Hi) as (b1 & Hr & Hi1 & Hb1 & _ & Hf).
  unfold gives, st_bind at 1. rewrite Hr. apply gives_modify.
  eapply gives_bind; [apply (apply_pending_refines now _ (dequeue k q))|intros; by apply gives_ret].
  - destruct Hb as [Hn Hf' Hp Ht Hfl Hlim]. split; try done; simpl; by rewrite Hb1.
  - by apply dequeue_wf.
Qed.

Lemma update_pending_refines s b q : kb_rep b q →
  gives (update_pending s) b tt
    (MkQueues (disc q) (conn q) ((λ p, MkPending (set_status s (node p)) (replace p)) <$> pend q)).
Proof. intros Hb. eexists. split; [done|]. rewrite (rep_pending _ _ Hb). by apply rep_set_pending. Qed.

End Refinement.
