(* ===== verification/KBuckets.v ===== *)
(** * The routing table

    Model of [version-meld/discv5/src/kbucket.rs] and of the entries of
    [kbucket/entry.rs].  Bucket [i] of the table holds the nodes whose distance
    to the local key has its highest bit at [i]. *)

From S2P Require Import Prelude KBucket.

Definition NUM_BUCKETS : nat := 256.

(** [BucketIndex::new]: none for the local key itself. *)
Definition BucketIndex_new (d : Z) : option nat := pred_pos (NUM_BUCKETS - Z.to_nat (leading_zeros d)).

Record KBucketsTable (AV : Type → Type) (T V : Type) := MkTable {
  local_key : Key T;
  buckets : list (KBucket AV T V);
  applied_pending : list (AppliedPending T V);
  table_filter : option (Filter V);
}.
Arguments MkTable {AV T V}.
Arguments local_key {AV T V}.
Arguments buckets {AV T V}.
Arguments applied_pending {AV T V}.
Arguments table_filter {AV T V}.

Inductive InsertResult (T : Type) :=
| TInserted
| TPending (disconnected : Key T)
| StatusUpdated (promoted_to_connected : bool)
| ValueUpdated
| TUpdated (promoted_to_connected : bool)
| TUpdatedPending
| TFailed (reason : FailureReason).
Arguments TInserted {T}.
Arguments TPending {T}.
Arguments StatusUpdated {T}.
Arguments ValueUpdated {T}.
Arguments TUpdated {T}.
Arguments TUpdatedPending {T}.
Arguments TFailed {T}.

(** What [Entry::new] finds for a key. *)
Inductive Entry :=
| EntryPresent (s : NodeStatus)
| EntryPending (s : NodeStatus)
| EntryAbsent
| SelfEntry.

Section Table.
Context {AV : Type → Type} `{ArrayVec AV} {T V : Type} `{EqDecision V}.
Notation KBucket := (KBucket AV T V).
Notation Table := (KBucketsTable AV T V).
Notation Node := (Node T V).

Definition KBucketsTable_new (local_key : Key T) (pending_timeout : Z) (max_incoming_per_bucket : nat)
    (tf bf : option (Filter V)) : Table :=
  MkTable local_key (replicate NUM_BUCKETS (KBucket_new pending_timeout max_incoming_per_bucket bf)) [] tf.

Definition index_of_key {U} (t : Table) (k : Key U) : option nat := BucketIndex_new (key_distance (local_key t) k).

(** A method of [self.buckets[i]]. *)
Definition on_bucket {A} (i : nat) (m : st KBucket A) : st Table A := λ t,
  match buckets t !! i with
  | None => (Panic "index out of bounds", t)
  | Some b =>
      let '(r, b) := m b in
      (r, MkTable (local_key t) (<[i := b]> (buckets t)) (applied_pending t) (table_filter t))
  end.

(** [if let Some(applied) = bucket.apply_pending() { applied_pending.push_back(applied) }] *)
Definition table_apply_pending (now : Z) (i : nat) : st Table unit :=
  let! applied := on_bucket i (apply_pending now) in
  match applied with
  | Some a => st_modify (λ t, MkTable (local_key t) (buckets t) (applied_pending t ++ [a]) (table_filter t))
  | None => st_ret tt
  end.

Definition table_iter (t : Table) : list V := flat_map (λ b, value <$> kb_iter b) (buckets t).

Definition iter_ref (t : Table) : list Node := flat_map kb_iter (buckets t).

(** [iter()] applies the pending nodes bucket by bucket while it goes on. *)
Definition table_iter_mut (now : Z) : st Table (list Node) :=
  st_for (seq 0 NUM_BUCKETS) (table_apply_pending now) ;;
  st_reads (λ t, Ok (iter_ref t)).

Definition take_applied_pending : st Table (option (AppliedPending T V)) := λ t,
  match applied_pending t with
  | [] => (Ok None, t)
  | a :: l => (Ok (Some a), MkTable (local_key t) (buckets t) l (table_filter t))
  end.

Definition get_bucket (k : Key T) (t : Table) : res (option KBucket) :=
  match index_of_key t k with
  | Some i => let? b := index (buckets t) i in Ok (Some b)
  | None => Ok None
  end.

Definition update_node_status (now : Z) (k : Key T) (s : ConnectionState) (dir : option ConnectionDirection)
    : st Table UpdateResult :=
  let! t := st_get in
  match index_of_key t k with
  | Some i => table_apply_pending now i ;; on_bucket i (update_status now k s dir)
  | None => st_ret NotModified
  end.

(** The value is new and does not pass the table filter. *)
Definition fails_table_filter (k : Key T) (v : V) (t : Table) : res bool :=
  match table_filter t with
  | None => Ok false
  | Some f =>
      let? duplicate :=
        match index_of_key t k with
        | Some i =>
            let? b := index (buckets t) i in
            Ok (match kb_get k b with Some n => bool_decide (value n = v) | None => false end)
        | None => Ok false
        end in
      Ok (negb duplicate && negb (f v (table_iter t)))
  end.

Definition update_node (now : Z) (k : Key T) (v : V) (s : option ConnectionState) : st Table UpdateResult :=
  let! failed_table_filter := st_reads (fails_table_filter k v) in
  let! t := st_get in
  match index_of_key t k with
  | None => st_ret NotModified
  | Some i =>
      table_apply_pending now i ;;
      if failed_table_filter : bool then on_bucket i (kb_remove now k) ;; st_ret (Failed TableFilter) else
      let! update_result := on_bucket i (update_value k v) in
      if failed update_result then st_ret update_result else
      let! status_result := match s with
                            | Some s => on_bucket i (update_status now k s None)
                            | None => st_ret NotModified
                            end in
      st_ret match update_result, status_result with
             | _, Failed _ => status_result
             | Failed _, _ => update_result
             | _, UpdatedAndPromoted => UpdatedAndPromoted
             | UpdatedPending, _ => UpdatedPending
             | _, UpdatedPending => UpdatedPending
             | NotModified, NotModified => NotModified
             | _, _ => Updated
             end
  end.

(** The result of [insert_or_update] for a node that was present. *)
Definition combine_updates (update_value update_status : UpdateResult) : res (InsertResult T) :=
  match update_value, update_status with
  | Updated, Updated => Ok (TUpdated false)
  | Updated, UpdatedAndPromoted => Ok (TUpdated true)
  | Updated, (NotModified | UpdatedPending) => Ok ValueUpdated
  | NotModified, Updated => Ok (StatusUpdated false)
  | NotModified, UpdatedAndPromoted => Ok (StatusUpdated true)
  | NotModified, NotModified => Ok (TUpdated false)
  | UpdatedPending, _ | _, UpdatedPending => Ok TUpdatedPending
  | Failed reason, _ => Ok (TFailed reason)
  | _, Failed _ => Panic "Status failure handled earlier."
  | UpdatedAndPromoted, _ => Panic "Value update cannot promote a connection."
  end.

Definition insert_or_update (now : Z) (k : Key T) (v : V) (s : NodeStatus) : st Table (InsertResult T) :=
  let! failed_table_filter := st_reads (fails_table_filter k v) in
  let! t := st_get in
  match index_of_key t k with
  | None => st_ret (TFailed InvalidSelfUpdate)
  | Some i =>
      table_apply_pending now i ;;
      if failed_table_filter : bool then on_bucket i (kb_remove now k) ;; st_ret (TFailed TableFilter) else
      let! position := on_bucket i (st_reads (λ b, Ok (kb_position k b))) in
      match position with
      | None =>
          let! r := on_bucket i (kb_insert now (MkNode k v s)) in
          match r with
          | NodeExists => st_lift (Panic "Node must exist")
          | Full => st_ret (TFailed BucketFull)
          | TooManyIncoming => st_ret (TFailed TooManyIncomingNodes)
          | FailedFilter => st_ret (TFailed BucketFilter)
          | Pending disconnected => st_ret (TPending disconnected)
          | Inserted => st_ret TInserted
          end
      | Some _ =>
          let! us := on_bucket i (update_status now k (state s) (Some (direction s))) in
          if failed us then st_ret (TFailed TooManyIncomingNodes) else
          let! uv := on_bucket i (update_value k v) in
          st_lift (combine_updates uv us)
      end
  end.

Definition table_remove (now : Z) (k : Key T) : st Table bool :=
  let! t := st_get in
  match index_of_key t k with
  | Some i => table_apply_pending now i ;; on_bucket i (kb_remove now k)
  | None => st_ret false
  end.

(** ** Entries *)

Definition entry (now : Z) (k : Key T) : st Table Entry :=
  let! t := st_get in
  match index_of_key t k with
  | Some i =>
      table_apply_pending now i ;;
      on_bucket i (st_reads (λ b, Ok
        (match kb_position k b with
         | Some pos => EntryPresent (kb_status pos b)
         | None => match as_pending k b with
                   | Some p => EntryPending (status (node p))
                   | None => EntryAbsent
                   end
         end)))
  | None => st_ret SelfEntry
  end.

(** The methods of an entry work on the bucket it refers to. *)
Definition present_update (now : Z) (i : nat) (k : Key T) (s : ConnectionState) (dir : option ConnectionDirection)
    : st Table unit :=
  on_bucket i (update_status now k s dir) ;; st_ret tt.
Definition entry_remove (now : Z) (i : nat) (k : Key T) : st Table unit :=
  on_bucket i (kb_remove now k) ;; st_ret tt.
Definition pending_update (i : nat) (s : NodeStatus) : st Table unit := on_bucket i (update_pending s).
Definition absent_insert (now : Z) (i : nat) (k : Key T) (v : V) (s : NodeStatus)
    : st Table (BucketInsertResult T) :=
  on_bucket i (kb_insert now (MkNode k v s)).

(** ** Nodes by distance *)

(** [for node in nodes { matching.push(node); if matching.len() >= max { return } }] *)
Fixpoint push_until (max_nodes : nat) (matching ns : list Node) : bool * list Node :=
  match ns with
  | [] => (false, matching)
  | n :: ns =>
      let matching := matching ++ [n] in
      if max_nodes <=? length matching then (true, matching) else push_until max_nodes matching ns
  end.

Fixpoint matching_nodes (max_nodes : nat) (matching : list Node) (distances : list Z) (t : Table) : res (list Node) :=
  match distances with
  | [] => Ok matching
  | d :: distances =>
      let? b := index (buckets t) (Z.to_nat (d - 1)) in
      let '(enough, matching) := push_until max_nodes matching (kb_iter b) in
      if enough : bool then Ok matching else matching_nodes max_nodes matching distances t
  end.

Definition nodes_by_distances (now : Z) (log2_distances : list Z) (max_nodes : nat) : st Table (list Node) :=
  let distances := List.filter (λ d, (0 <? d)%Z && (d <=? 256)%Z) log2_distances in
  st_for distances (λ d, table_apply_pending now (Z.to_nat (d - 1))) ;;
  st_reads (matching_nodes max_nodes [] distances).

End Table.

(** ** Buckets in the order of their distance to a target *)

Inductive ClosestBucketsIterState :=
| Start (i : nat) | ZoomIn (i : nat) | ZoomOut (i : nat) | Done.

Record ClosestBucketsIter := MkBucketsIter { distance : Z; iter_state : ClosestBucketsIterState }.

Definition ClosestBucketsIter_new (d : Z) : ClosestBucketsIter :=
  MkBucketsIter d (match BucketIndex_new d with Some i => Start i | None => Done end).

(** [(0..i).rev().find(|i| distance.bit(i))] *)
Definition next_in (d : Z) (i : nat) : option nat :=
  List.find (λ j, Z.testbit d (Z.of_nat j)) (rev (seq 0 i)).

(** [(i + 1..NUM_BUCKETS).find(|i| !distance.bit(i))] *)
Definition next_out (d : Z) (i : nat) : option nat :=
  List.find (λ j, negb (Z.testbit d (Z.of_nat j))) (seq (S i) (NUM_BUCKETS - S i)).

Definition buckets_next (it : ClosestBucketsIter) : option nat * ClosestBucketsIter :=
  let d := distance it in
  match iter_state it with
  | Start i => (Some i, MkBucketsIter d (ZoomIn i))
  | ZoomIn i =>
      match next_in d i with
      | Some i => (Some i, MkBucketsIter d (ZoomIn i))
      | None => (Some 0, MkBucketsIter d (ZoomOut 0))
      end
  | ZoomOut i =>
      match next_out d i with
      | Some i => (Some i, MkBucketsIter d (ZoomOut i))
      | None => (None, MkBucketsIter d Done)
      end
  | Done => (None, it)
  end.

Section Closest.
Context {AV : Type → Type} `{ArrayVec AV} {T V U Out : Type} `{EqDecision V}.
Context (target : Key U) (fmap_node : Node T V → Out) (as_key : Out → Key T).
Notation Table := (KBucketsTable AV T V).

Record ClosestIter := MkClosest { table : Table; buckets_iter : ClosestBucketsIter; iter : option (list Out) }.

(** [v.sort_by(|a, b| target.distance(a).cmp(&target.distance(b)))], stable *)
Fixpoint insert_sorted (x : Out) (l : list Out) : list Out :=
  match l with
  | [] => [x]
  | y :: l => if (key_distance target (as_key x) <=? key_distance target (as_key y))%Z then x :: y :: l
              else y :: insert_sorted x l
  end.
Definition sort_by (l : list Out) : list Out := foldr insert_sorted [] l.

Definition set_table (t : Table) (c : ClosestIter) : ClosestIter := MkClosest t (buckets_iter c) (iter c).

(** [ClosestIter::next]; [fuel] bounds the turns of its loop. *)
Fixpoint closest_next (now : Z) (fuel : nat) : st ClosestIter (option Out) := λ c,
  match fuel with
  | O => (Panic "out of fuel", c)
  | S fuel =>
      match iter c with
      | Some (k :: l) => (Ok (Some k), MkClosest (table c) (buckets_iter c) (Some l))
      | Some [] => closest_next now fuel (MkClosest (table c) (buckets_iter c) None)
      | None =>
          match buckets_next (buckets_iter c) with
          | (Some i, bi) =>
              (st_zoom table set_table (table_apply_pending now i) ;;
               let! b := st_reads (λ c, index (buckets (table c)) i) in
               st_modify (λ c, MkClosest (table c) (buckets_iter c) (Some (sort_by (fmap_node <$> kb_iter b)))) ;;
               closest_next now fuel) (MkClosest (table c) bi None)
          | (None, bi) => (Ok None, MkClosest (table c) bi None)
          end
      end
  end.

(** The iterator of [closest_keys], [closest_values] and
    [closest_values_predicate], for their three projections. *)
Definition closest (t : Table) : ClosestIter :=
  MkClosest t (ClosestBucketsIter_new (key_distance (local_key t) target)) None.

(** Consuming the iterator.  A bucket takes two turns of the loop, and fewer
    than [2 * NUM_BUCKETS] buckets are visited in all. *)
Definition CLOSEST_FUEL : nat := 4 * NUM_BUCKETS + 4.

Fixpoint closest_collect (now : Z) (n : nat) : st ClosestIter (list Out) :=
  match n with
  | O => st_lift (Panic "out of fuel")
  | S n =>
      let! x := closest_next now CLOSEST_FUEL in
      match x with
      | None => st_ret []
      | Some x => let! l := closest_collect now n in st_ret (x :: l)
      end
  end.

End Closest.
