(* ===== verification/KBucketsProofs.v ===== *)
(** * The routing table: placement and search

    Every node is in the bucket of its distance to the local key, and only
    once.  The iterator over the closest nodes visits the buckets in an order
    in which each bucket is farther from the target than the one before. *)

From Stdlib Require Import Sorting.Sorted.
From S2P Require Import Prelude KBucket KBucketProofs KBuckets.

(** ** Distances *)

Definition hash_ok {T} (k : Key T) : Prop := (0 ≤ hash k < 2 ^ 256)%Z.

Lemma lxor_bound n a b : (0 ≤ n → 0 ≤ a < 2 ^ n → 0 ≤ b < 2 ^ n → 0 ≤ Z.lxor a b < 2 ^ n)%Z.
Proof.
  intros Hn [Ha Ha'] [Hb Hb']. assert (0 ≤ Z.lxor a b)%Z as Hx by (by apply Z.lxor_nonneg).
  split; [done|]. destruct (Z.eq_dec n 0%Z) as [->|Hn0].
  { simpl in *. replace a with 0%Z by lia. by replace b with 0%Z by lia. }
  destruct (Z.eq_dec (Z.lxor a b) 0%Z) as [->|Hne]; [by apply Z.pow_pos_nonneg|].
  apply Z.log2_lt_pow2; [lia|]. eapply Z.le_lt_trans; [by apply Z.log2_lxor|].
  assert (∀ x, 0 ≤ x < 2 ^ n → Z.log2 x < n)%Z as Hlog.
  { intros x Hxr. destruct (Z.eq_dec x 0%Z) as [->|]; [simpl; lia|]. apply Z.log2_lt_pow2; lia. }
  by apply Z.max_lub_lt; apply Hlog.
Qed.

Lemma distance_bound {T U} (a : Key T) (b : Key U) : hash_ok a → hash_ok b → (0 ≤ key_distance a b < 2 ^ 256)%Z.
Proof. by apply lxor_bound. Qed.

Lemma distance_zero {T U} (a : Key T) (b : Key U) : key_distance a b = 0%Z ↔ hash a = hash b.
Proof. unfold key_distance. apply Z.lxor_eq_0_iff. Qed.

(** The distance between two keys through a third one. *)
Lemma distance_via {T U W} (a : Key T) (b : Key U) (c : Key W) :
  key_distance a c = Z.lxor (key_distance b a) (key_distance b c).
Proof.
  unfold key_distance. rewrite <- Z.lxor_assoc, (Z.lxor_comm _ (hash b)), <- Z.lxor_assoc, Z.lxor_assoc.
  rewrite <- Z.lxor_assoc, Z.lxor_nilpotent. by rewrite Z.lxor_0_l.
Qed.

Lemma bucket_index_zero : BucketIndex_new 0 = None.
Proof. done. Qed.

Lemma log2_small d : (0 < d < 2 ^ 256 → 0 ≤ Z.log2 d < 256)%Z.
Proof. intros [H1 H2]. split; [apply Z.log2_nonneg|]. by apply Z.log2_lt_pow2. Qed.

Lemma bucket_index_spec d : (0 < d < 2 ^ 256)%Z → BucketIndex_new d = Some (Z.to_nat (Z.log2 d)).
Proof.
  intros Hd. pose proof (log2_small d Hd). unfold BucketIndex_new, leading_zeros, NUM_BUCKETS.
  destruct (Z.eqb_spec d 0%Z); [lia|].
  replace (256 - Z.to_nat (255 - Z.log2 d)) with (S (Z.to_nat (Z.log2 d))) by lia. done.
Qed.

Lemma log2_distance_index {T U} (a : Key T) (b : Key U) : hash_ok a → hash_ok b →
  log2_distance a b = (λ i, Z.of_nat i + 1)%Z <$> BucketIndex_new (key_distance a b).
Proof.
  intros Ha Hb. pose proof (distance_bound a b Ha Hb) as Hd. unfold log2_distance.
  destruct (Z.eq_dec (key_distance a b) 0%Z) as [->|Hne]; [done|].
  rewrite bucket_index_spec by lia. pose proof (log2_small (key_distance a b) ltac:(lia)).
  unfold leading_zeros. destruct (Z.eqb_spec (key_distance a b) 0%Z); [done|]. simpl.
  destruct (Z.eqb_spec (256 - (255 - Z.log2 (key_distance a b)))%Z 0%Z); [lia|]. f_equal. lia.
Qed.

Lemma bucket_index_lt d i : (0 ≤ d < 2 ^ 256)%Z → BucketIndex_new d = Some i → i < NUM_BUCKETS ∧ Z.log2 d = Z.of_nat i.
Proof.
  intros Hd. destruct (Z.eq_dec d 0%Z) as [->|]; [done|]. rewrite bucket_index_spec by lia.
  pose proof (log2_small d ltac:(lia)). intros [= <-]. unfold NUM_BUCKETS. lia.
Qed.

(** ** The order of the buckets *)

(** Two numbers that agree above bit [k], where they are 0 and 1. *)
Lemma lt_at_bit k a b : (0 ≤ k → 0 ≤ a → 0 ≤ b → (∀ m, k < m → Z.testbit a m = Z.testbit b m) →
  Z.testbit a k = false → Z.testbit b k = true → a < b)%Z.
Proof.
  intros Hk Ha Hb Hsame H0 H1.
  assert (a / 2 ^ k < b / 2 ^ k)%Z as Hlt.
  { rewrite <- !Z.shiftr_div_pow2 by done.
    assert (Z.shiftr a k = 2 * Z.shiftr a (k + 1))%Z as ->.
    { apply Z.bits_inj'. intros m Hm. rewrite Z.shiftr_spec by done.
      destruct (Z.eq_dec m 0%Z) as [->|]; [rewrite Z.testbit_even_0; done|].
      replace m with (Z.succ (m - 1)) at 2 by lia. rewrite Z.testbit_even_succ, Z.shiftr_spec by lia. f_equal; lia. }
    assert (Z.shiftr b k = 2 * Z.shiftr b (k + 1) + 1)%Z as ->.
    { apply Z.bits_inj'. intros m Hm. rewrite Z.shiftr_spec by done.
      destruct (Z.eq_dec m 0%Z) as [->|]; [rewrite Z.testbit_odd_0; done|].
      replace m with (Z.succ (m - 1)) at 2 by lia. rewrite Z.testbit_odd_succ, Z.shiftr_spec by lia. f_equal; lia. }
    assert (Z.shiftr a (k + 1) = Z.shiftr b (k + 1))%Z; [|lia].
    apply Z.bits_inj'. intros m Hm. rewrite !Z.shiftr_spec by done. apply Hsame. lia. }
  destruct (Z.lt_ge_cases a b); [done|]. exfalso.
  pose proof (Z.div_le_mono b a (2 ^ k) ltac:(by apply Z.pow_pos_nonneg) ltac:(done)). lia.
Qed.

(** [x] is in bucket [i]: its highest bit is [i]. *)
Definition top_bit (i : nat) (x : Z) : Prop := (0 < x)%Z ∧ Z.log2 x = Z.of_nat i.

Lemma top_bit_set i x : top_bit i x → Z.testbit x (Z.of_nat i) = true.
Proof. intros [H1 <-]. by apply Z.bit_log2. Qed.
Lemma top_bit_above i x m : top_bit i x → (Z.of_nat i < m)%Z → Z.testbit x m = false.
Proof. intros [H1 H2] Hm. apply Z.bits_above_log2; lia. Qed.

(** Bucket [i] comes before bucket [j] in the search at distance [d]. *)
Definition before (d : Z) (i j : nat) : Prop :=
  let bi := Z.testbit d (Z.of_nat i) in
  let bj := Z.testbit d (Z.of_nat j) in
  (bi = true ∧ bj = true ∧ j < i) ∨ (bi = true ∧ bj = false) ∨ (bi = false ∧ bj = false ∧ i < j).

Lemma before_distance d i j x y : (0 ≤ d)%Z → before d i j → top_bit i x → top_bit j y →
  (Z.lxor d x < Z.lxor d y)%Z.
Proof.
  intros Hd Hb Hx Hy.
  pose proof (top_bit_set _ _ Hx) as Hxi. pose proof (top_bit_set _ _ Hy) as Hyj.
  assert (i ≠ j) as Hne by (intros ->; destruct Hb as [(?&?&?)|[(?&?)|(?&?&?)]]; congruence || lia).
  assert (0 ≤ Z.lxor d x ∧ 0 ≤ Z.lxor d y)%Z as [Hpx Hpy]
    by (rewrite !Z.lxor_nonneg; destruct Hx as [? _], Hy as [? _]; lia).
  apply (lt_at_bit (Z.of_nat (i `max` j))); [lia|done..| | |].
  - intros m Hm. rewrite !Z.lxor_spec, (top_bit_above i x), (top_bit_above j y) by (done || lia). done.
  - rewrite Z.lxor_spec. destruct (Nat.lt_ge_cases i j).
    + rewrite Nat.max_r by lia. rewrite (top_bit_above i x) by (done || lia).
      destruct Hb as [(?&?&?)|[(?&->)|(?&->&?)]]; [lia|done..].
    + rewrite Nat.max_l by lia. rewrite Hxi. destruct Hb as [(->&?&?)|[(->&?)|(?&?&?)]]; [done|done|lia].
  - rewrite Z.lxor_spec. destruct (Nat.lt_ge_cases i j).
    + rewrite Nat.max_r by lia. rewrite Hyj. destruct Hb as [(?&?&?)|[(?&->)|(?&->&?)]]; [lia|done..].
    + rewrite Nat.max_l by lia. rewrite (top_bit_above j y) by (done || lia).
      destruct Hb as [(->&?&?)|[(->&?)|(?&?&?)]]; [done|done|lia].
Qed.

(** The buckets that [buckets_next] returns, one after the other. *)
Definition zoom_in (d : Z) (i : nat) : list nat := List.filter (λ j, Z.testbit d (Z.of_nat j)) (rev (seq 0 i)).
Definition zoom_out (d : Z) (i : nat) : list nat :=
  List.filter (λ j, negb (Z.testbit d (Z.of_nat j))) (seq (S i) (NUM_BUCKETS - S i)).

Lemma zoom_in_cons d i : zoom_in d i = match next_in d i with Some j => j :: zoom_in d j | None => [] end.
Proof.
  unfold zoom_in, next_in. induction i as [|i IH]; [done|].
  rewrite seq_S, rev_app_distr. simpl. by destruct (Z.testbit d (Z.of_nat i)).
Qed.

Lemma zoom_out_cons d i : zoom_out d i = match next_out d i with Some j => j :: zoom_out d j | None => [] end.
Proof.
  unfold zoom_out, next_out. remember (NUM_BUCKETS - S i) as n eqn:Hn. revert i Hn.
  induction n as [|n IH]; intros i Hn; cbn [seq List.filter List.find]; [done|].
  destruct (negb (Z.testbit d (Z.of_nat (S i)))).
  - by replace (NUM_BUCKETS - S (S i)) with n by lia.
  - apply (IH (S i)). lia.
Qed.

Lemma elem_zoom_in d i j : j ∈ zoom_in d i ↔ j < i ∧ Z.testbit d (Z.of_nat j) = true.
Proof. unfold zoom_in. rewrite !list_elem_of_In, List.filter_In, <- in_rev, in_seq. split; intros []; split; lia || done. Qed.

Lemma elem_zoom_out d i j : j ∈ zoom_out d i ↔ i < j < NUM_BUCKETS ∧ Z.testbit d (Z.of_nat j) = false.
Proof.
  unfold zoom_out. rewrite !list_elem_of_In, List.filter_In, in_seq, negb_true_iff.
  split; intros []; split; lia || done.
Qed.

Lemma sorted_filter {A} (R : A → A → Prop) (f : A → bool) l : StronglySorted R l → StronglySorted R (List.filter f l).
Proof.
  induction 1 as [|x l Hs IH Hf]; simpl; [constructor|]. destruct (f x); [|done]. constructor; [done|].
  rewrite Forall_forall in *. intros y Hy. apply Hf. rewrite list_elem_of_In in *. by apply List.filter_In in Hy as [].
Qed.

Lemma sorted_app {A} (R : A → A → Prop) l1 l2 : StronglySorted R l1 → StronglySorted R l2 →
  (∀ x y, x ∈ l1 → y ∈ l2 → R x y) → StronglySorted R (l1 ++ l2).
Proof.
  intros H1 H2. induction H1 as [|x l1 Hs IH Hf]; intros Hx; simpl; [done|]. constructor.
  - apply IH. intros y z Hy Hz. apply Hx; [by right|done].
  - apply Forall_app. split; [done|]. apply Forall_forall. intros y Hy. apply Hx; [by left|done].
Qed.

Lemma sorted_impl {A} (R R' : A → A → Prop) l : (∀ x y, x ∈ l → y ∈ l → R x y → R' x y) →
  StronglySorted R l → StronglySorted R' l.
Proof.
  intros HR Hs. induction Hs as [|x l Hs IH Hf]; constructor.
  - apply IH. intros y z Hy Hz. apply HR; by right.
  - rewrite Forall_forall in *. intros y Hy. apply HR; [by left|by right|]. by apply Hf.
Qed.

Lemma seq_sorted a n : StronglySorted lt (seq a n).
Proof.
  revert a. induction n as [|n IH]; intros a; simpl; constructor; [apply IH|].
  apply Forall_forall. intros x Hx. apply elem_of_seq in Hx. lia.
Qed.

Lemma rev_seq_sorted n : StronglySorted gt (rev (seq 0 n)).
Proof.
  induction n as [|n IH]; [constructor|]. rewrite seq_S, rev_app_distr. simpl. constructor; [done|].
  apply Forall_forall. intros x Hx. rewrite list_elem_of_In, <- in_rev, in_seq in Hx. lia.
Qed.

Lemma zoom_in_sorted d i : StronglySorted (before d) (zoom_in d i).
Proof.
  eapply sorted_impl; [|apply sorted_filter, rev_seq_sorted]. intros x y Hx Hy Hgt. left.
  apply elem_zoom_in in Hx as [_ Hx], Hy as [_ Hy]. done.
Qed.

Lemma zoom_out_sorted d i : StronglySorted (before d) (zoom_out d i).
Proof.
  eapply sorted_impl; [|apply sorted_filter, seq_sorted]. intros x y Hx Hy Hlt. right. right.
  apply elem_zoom_out in Hx as [_ Hx], Hy as [_ Hy]. done.
Qed.

Lemma zoom_in_length d i : length (zoom_in d i) ≤ i.
Proof. unfold zoom_in. etrans; [apply List.filter_length_le|]. by rewrite length_rev, length_seq. Qed.

Lemma zoom_out_length d i : length (zoom_out d i) ≤ NUM_BUCKETS - S i.
Proof. unfold zoom_out. etrans; [apply List.filter_length_le|]. by rewrite length_seq. Qed.

#[local] Opaque zoom_in zoom_out.

Definition remaining (it : ClosestBucketsIter) : list nat :=
  let d := distance it in
  match iter_state it with
  | Start i => i :: zoom_in d i ++ 0 :: zoom_out d 0
  | ZoomIn i => zoom_in d i ++ 0 :: zoom_out d 0
  | ZoomOut i => zoom_out d i
  | Done => []
  end.

Lemma buckets_next_remaining it :
  match buckets_next it with
  | (Some i, it') => remaining it = i :: remaining it'
  | (None, it') => remaining it = [] ∧ remaining it' = []
  end.
Proof.
  destruct it as [d s]. unfold buckets_next, remaining. destruct s as [i|i|i|]; simpl; [done|..|done].
  - rewrite (zoom_in_cons d i). destruct (next_in d i); reflexivity.
  - rewrite (zoom_out_cons d i). destruct (next_out d i); [reflexivity|split; reflexivity].
Qed.

(** The buckets of a search at distance [d] from the local key. *)
Definition visits (d : Z) : list nat := remaining (ClosestBucketsIter_new d).

Lemma visits_spec d : (0 < d < 2 ^ 256)%Z →
  visits d = Z.to_nat (Z.log2 d) :: zoom_in d (Z.to_nat (Z.log2 d)) ++ 0 :: zoom_out d 0.
Proof. intros Hd. unfold visits, ClosestBucketsIter_new. rewrite (bucket_index_spec d Hd). reflexivity. Qed.

(** Every bucket is visited. *)
Lemma visits_all d i : (0 < d < 2 ^ 256)%Z → i < NUM_BUCKETS → i ∈ visits d.
Proof.
  intros Hd Hi. rewrite visits_spec by done. pose proof (log2_small d Hd).
  rewrite elem_of_cons, elem_of_app, elem_of_cons, elem_zoom_in, elem_zoom_out.
  destruct (Z.testbit d (Z.of_nat i)) eqn:Hb.
  - destruct (Nat.lt_ge_cases i (Z.to_nat (Z.log2 d))); [by right; left|]. left.
    destruct (Nat.eq_dec i (Z.to_nat (Z.log2 d))); [done|].
    rewrite Z.bits_above_log2 in Hb by lia. done.
  - destruct i as [|i]; [by right; right; left|]. right. right. right. split; [|done]. lia.
Qed.

Lemma visits_lt d i : (0 ≤ d < 2 ^ 256)%Z → i ∈ visits d → i < NUM_BUCKETS.
Proof.
  intros Hd. destruct (Z.eq_dec d 0%Z) as [->|]; [change (visits 0) with (@nil nat); by intros ?%elem_of_nil|].
  rewrite visits_spec by lia. pose proof (log2_small d ltac:(lia)).
  rewrite elem_of_cons, elem_of_app, elem_of_cons, elem_zoom_in, elem_zoom_out. unfold NUM_BUCKETS.
  intros [->|[[? _]|[->|[? _]]]]; lia.
Qed.

Lemma visits_length d : (0 < d < 2 ^ 256)%Z → length (visits d) ≤ 2 * NUM_BUCKETS.
Proof.
  intros Hd. rewrite visits_spec by done. cbn [length]. rewrite length_app. cbn [length].
  pose proof (bucket_index_lt d (Z.to_nat (Z.log2 d)) ltac:(lia) (bucket_index_spec d Hd)) as [Hi _].
  pose proof (zoom_in_length d (Z.to_nat (Z.log2 d))). pose proof (zoom_out_length d 0). lia.
Qed.

(** The order of the visits: bucket 0 may come twice. *)
Definition before_eq (d : Z) (i j : nat) : Prop := (i = 0 ∧ j = 0) ∨ before d i j.

Lemma top_visit d : (0 < d < 2 ^ 256)%Z → Z.testbit d (Z.of_nat (Z.to_nat (Z.log2 d))) = true.
Proof. intros Hd. pose proof (log2_small d Hd). rewrite Z2Nat.id by lia. apply Z.bit_log2. lia. Qed.

Lemma visits_sorted d : (0 < d < 2 ^ 256)%Z → StronglySorted (before_eq d) (visits d).
Proof.
  intros Hd. rewrite visits_spec by done. set (i := Z.to_nat (Z.log2 d)).
  pose proof (top_visit d Hd : Z.testbit d (Z.of_nat i) = true) as Hi.
  assert (∀ j, j ∈ i :: zoom_in d i → j ≤ i ∧ Z.testbit d (Z.of_nat j) = true) as Hin.
  { intros j [->|Hj]%elem_of_cons; [done|]. apply elem_zoom_in in Hj as [? ?]. split; [lia|done]. }
  assert (∀ j, j ∈ 0 :: zoom_out d 0 → j = 0 ∨ Z.testbit d (Z.of_nat j) = false ∧ 0 < j) as Hout.
  { intros j [->|Hj]%elem_of_cons; [by left|]. apply elem_zoom_out in Hj as [? ?]. right. split; [done|lia]. }
  change (i :: zoom_in d i ++ 0 :: zoom_out d 0) with ((i :: zoom_in d i) ++ (0 :: zoom_out d 0)).
  apply sorted_app.
  - apply (sorted_impl (before d)); [by right|]. constructor; [apply zoom_in_sorted|].
    apply Forall_forall. intros j Hj. apply elem_zoom_in in Hj as [? ?]. by left.
  - constructor; [apply (sorted_impl (before d)); [by right|apply zoom_out_sorted]|].
    apply Forall_forall. intros j Hj. apply elem_zoom_out in Hj as [? ?]. right.
    destruct (Z.testbit d (Z.of_nat 0)) eqn:Hb0; [by right; left|]. right. right. split; [done|]. split; [done|lia].
  - intros x y Hx Hy. apply Hin in Hx as [Hx1 Hx2]. apply Hout in Hy as [->|[Hy1 Hy2]].
    + destruct (Nat.eq_dec x 0) as [->|]; [by left|]. right.
      destruct (Z.testbit d (Z.of_nat 0)) eqn:Hb0; [left; split; [done|]; split; [done|lia]|by right; left].
    + right. right. by left.
Qed.

(** Without bit 0 no bucket is visited twice. *)
Lemma visits_once d : (0 < d < 2 ^ 256)%Z → Z.testbit d 0 = false → Permutation (visits d) (seq 0 NUM_BUCKETS).
Proof.
  intros Hd H0. apply NoDup_Permutation.
  - assert (StronglySorted (before d) (visits d)) as Hs.
    { rewrite visits_spec by done. set (i := Z.to_nat (Z.log2 d)).
      pose proof (top_visit d Hd : Z.testbit d (Z.of_nat i) = true) as Hi.
      change (i :: zoom_in d i ++ 0 :: zoom_out d 0) with ((i :: zoom_in d i) ++ (0 :: zoom_out d 0)).
      apply sorted_app.
      - constructor; [apply zoom_in_sorted|]. apply Forall_forall. intros j [? ?]%elem_zoom_in. by left.
      - constructor; [apply zoom_out_sorted|]. apply Forall_forall. intros j [? ?]%elem_zoom_out.
        right. right. split; [done|]. split; [done|lia].
      - intros x y Hx Hy. right. left. split.
        + apply elem_of_cons in Hx as [->|[? ?]%elem_zoom_in]; done.
        + apply elem_of_cons in Hy as [->|[? ?]%elem_zoom_out]; done. }
    clear -Hs. induction Hs as [|x l Hs IH Hf]; [constructor|]. apply NoDup_cons. split; [|done].
    intros Hx. rewrite Forall_forall in Hf. specialize (Hf x Hx). unfold before in Hf.
    destruct Hf as [(?&?&?)|[(?&?)|(?&?&?)]]; [lia|congruence|lia].
  - apply NoDup_seq.
  - intros i. rewrite elem_of_seq. split; [intros Hi%visits_lt; lia|]. intros [_ Hi]. by apply visits_all.
Qed.
