(* ===== verification/KBucketsInvariant.v ===== *)
(** * The invariant of the routing table

    What a predicate on keys and a predicate on the values of a bucket need to
    hold for every node of a bucket; the table is one instance, with the
    bucket index as the predicate on keys. *)

From S2P Require Import Prelude KBucket KBucketProofs KBuckets KBucketsProofs.

(** ** Predicates kept by a bucket *)

(** A predicate on the values of a bucket that a filter maintains. *)
Class FilterKeeps {V : Type} (flt : option (Filter V)) (I : list V → Prop) := {
  keeps_nil : I [];
  keeps_sub l l' : l' ⊆+ l → I l → I l';
  keeps_add v l : match flt with Some f => f v l | None => true end = true → I l → I (v :: l);
}.

Section Kept.
Context {T V : Type} `{EqDecision V} (timeout : Z) (flt : option (Filter V)) (limit : nat).
Context (P : Z → Prop) (I : list V → Prop) `{!FilterKeeps flt I}.
Notation Queues := (Queues T V).
Implicit Types (q : Queues) (n : Node T V) (k : Key T).

Record holds q : Prop := {
  holds_keys : Forall P (keys (all q));
  holds_pend p : pend q = Some p → P (hash (key (node p)));
  holds_values : I (value <$> all q);
}.

Lemma holds_part q q' : holds q → disc q' `sublist_of` disc q → conn q' `sublist_of` conn q →
  (pend q' = None ∨ pend q' = pend q) → holds q'.
Proof.
  intros [Hk Hp Hv] Hd Hc Hpd. assert (all q' `sublist_of` all q) as Ha by by apply sublist_app. split.
  - eapply sublist_all; [by apply keys_sublist|done].
  - intros p Hq. destruct Hpd as [Hpd|Hpd]; [congruence|]. apply Hp. congruence.
  - eapply keeps_sub; [|done]. apply fmap_submseteq. by apply sublist_submseteq.
Qed.

Lemma holds_enqueue n q : holds q → P (hash (key n)) → allowed flt (value n) (all q) = true → holds (enqueue n q).
Proof.
  intros [Hk Hp Hv] Hn Ha.
  assert (Permutation (all (enqueue n q)) (n :: all q)) as Hall.
  { unfold enqueue, all. case_goal; simpl; [rewrite app_assoc|]; solve_Permutation. }
  split.
  - unfold keys. rewrite Hall. by constructor.
  - intros p. unfold enqueue. case_goal; apply Hp.
  - eapply (keeps_sub (value n :: (value <$> all q))); [by rewrite Hall|]. by apply keeps_add.
Qed.

Lemma holds_set_pending q p : holds q → P (hash (key (node p))) → holds (MkQueues (disc q) (conn q) (Some p)).
Proof. intros [Hk Hp Hv] Hn. split; [done| |done]. by intros ? [= <-]. Qed.

Lemma holds_clear k q : holds q → holds (clear_pending k q).
Proof. intros Hq. apply (holds_part q); [done|..]; unfold clear_pending; repeat case_goal; simpl; auto. Qed.

Lemma spec_insert_holds now n q : holds q → P (hash (key n)) → holds (spec_insert timeout flt limit now n q).2.
Proof.
  intros Hq Hn. unfold spec_insert. case_bool_decide; [done|].
  destruct (allowed _ _ _) eqn:Ha; simpl; [|done]. destruct (_ && _); [done|]. destruct (_ <? _); simpl.
  - rewrite clear_enqueue. apply holds_enqueue; [by apply holds_clear|done|by rewrite all_clear_pending].
  - destruct (state (status n)), (pend q) eqn:?; try done.
    destruct (disc q) eqn:Hd; [done|]. rewrite <- Hd. by apply holds_set_pending.
Qed.

Lemma spec_apply_pending_holds now q : holds q → holds (spec_apply_pending timeout flt limit now q).2.
Proof.
  intros Hq. unfold spec_apply_pending. destruct (pend q) as [p|] eqn:Hp; [|done]. destruct (_ <=? _)%Z; [|done].
  pose proof (holds_pend q Hq p Hp) as Hn.
  assert (holds (MkQueues (disc q) (conn q) None)) as Hq0 by (apply (holds_part q); auto).
  destruct (_ <? _).
  - pose proof (spec_insert_holds now (node p) _ Hq0 Hn) as Hi. by destruct (spec_insert _ _ _ _ _).
  - simpl. destruct (disc q) as [|old ds] eqn:Hd; [done|].
    destruct (allowed _ _ _ && _) eqn:Ha; simpl; [|done]. apply andb_prop in Ha as [Ha _].
    assert (holds (MkQueues ds (conn q) None)) as Hq1
      by (apply (holds_part _ _ Hq0); simpl; [by constructor|done|auto]).
    assert (holds (enqueue (node p) (MkQueues (old :: ds) (conn q) None))) as Hq2 by by apply holds_enqueue.
    apply (holds_part _ _ Hq2); unfold enqueue; case_goal; simpl; auto; by constructor.
Qed.

Lemma dequeue_holds k q : holds q → holds (dequeue k q).
Proof. intros Hq. apply (holds_part q); simpl; auto using drop_key_sublist. Qed.

Lemma on_pending_holds k f q : (∀ n, key (f n) = key n) → holds q → holds (on_pending k f q).2.
Proof.
  intros Hf Hq. unfold on_pending. destruct (pend q) as [p|] eqn:Hp; [|done].
  case_goal; simpl; [|done]. apply holds_set_pending; [done|]. simpl. rewrite Hf. by apply (holds_pend q).
Qed.

Lemma lookup_key_holds k q n : holds q → lookup_key k q = Some n → P (hash (key n)).
Proof.
  intros Hq Hl. unfold lookup_key in Hl. apply find_some in Hl as [Hin _].
  eapply Forall_forall; [apply (holds_keys q Hq)|]. apply list_elem_of_fmap. exists n.
  split; [done|]. by apply list_elem_of_In.
Qed.

Lemma spec_update_status_holds now k s dir q : holds q → holds (spec_update_status timeout flt limit now k s dir q).2.
Proof.
  intros Hq. unfold spec_update_status. destruct (lookup_key k q) as [n|] eqn:Hl; [|by apply on_pending_holds].
  match goal with |- context [spec_insert _ _ _ now ?n ?q'] =>
    assert (holds q') as Hq'; [|pose proof (spec_insert_holds now n q' Hq' (lookup_key_holds k q _ Hq Hl)) as Hi;
                               by destruct (spec_insert _ _ _ now n q')]
  end.
  pose proof (dequeue_holds k q Hq) as Hd. destruct (_ && _); [|done]. by apply (holds_part (dequeue k q)); auto.
Qed.

(** The changed value and the others. *)
Lemma set_at_values k (v : V) (ns : list (Node T V)) : NoDup (keys ns) → value <$> set_at k v ns ⊆+ v :: (value <$> drop_key k ns).
Proof.
  induction ns as [|m ns IH]; simpl; [intros _; apply submseteq_nil_l|].
  intros [Hm Hnd]%NoDup_cons. unfold key_eqb. destruct (Z.eqb_spec (hash (key m)) (hash k)) as [e|e]; simpl.
  - apply submseteq_skip. fold (set_at k v ns).
    assert (hash k ∉ keys ns) as Hk by by rewrite <- e.
    by rewrite set_at_fresh, drop_key_fresh.
  - etrans; [|apply submseteq_swap]. apply submseteq_skip. by apply IH.
Qed.

Lemma spec_update_value_holds k v q : queues_wf limit q → holds q → holds (spec_update_value flt k v q).2.
Proof.
  intros Hwf Hq. unfold spec_update_value. destruct (lookup_key k q) as [n|] eqn:Hl; [|by apply on_pending_holds].
  case_decide; [done|]. destruct (allowed _ _ _) eqn:Ha; simpl; [|by apply dequeue_holds].
  assert (all (MkQueues (set_at k v (disc q)) (set_at k v (conn q)) (pend q)) = set_at k v (all q)) as Hall
    by by unfold all, set_at; rewrite fmap_app.
  split; rewrite ?Hall, ?set_at_keys; [apply Hq|apply (holds_pend q Hq)|].
  eapply keeps_sub; [apply (set_at_values k v _ (wf_keys _ _ Hwf))|].
  apply keeps_add; [by unfold all, dequeue in Ha; simpl in Ha; rewrite <- drop_key_app in Ha|].
  pose proof (holds_values _ (dequeue_holds k q Hq)) as Hv. unfold all, dequeue in Hv. simpl in Hv.
  by rewrite <- drop_key_app in Hv.
Qed.

Lemma spec_remove_holds now k q : holds q → holds (spec_remove timeout flt limit now k q).2.
Proof.
  intros Hq. unfold spec_remove. case_goal; simpl; [|done]. by apply spec_apply_pending_holds, dequeue_holds.
Qed.

Lemma holds_empty : holds (MkQueues [] [] None).
Proof. split; [constructor|done|]. apply keeps_nil. Qed.

End Kept.

(** ** Buckets *)

Section Buckets.
Context {AV : Type → Type} `{ArrayVecLaws AV} {T V : Type} `{EqDecision V}.
Context (timeout : Z) (flt : option (Filter V)) (limit : nat) (I : list V → Prop) `{!FilterKeeps flt I}.
Notation KBucket := (KBucket AV T V).
Implicit Types (b : KBucket) (q : Queues T V) (n : Node T V) (k : Key T).

Definition bucket_ok (P : Z → Prop) b : Prop :=
  ∃ q, kb_rep timeout flt limit b q ∧ queues_wf limit q ∧ holds P I q.

(** An operation that returns, with a result in [R], and keeps the invariant. *)
Definition keeps (P : Z → Prop) {A} (m : st KBucket A) (R : A → Prop) : Prop :=
  ∀ b, bucket_ok P b → ∃ r b', m b = (Ok r, b') ∧ bucket_ok P b' ∧ R r.

Lemma apply_pending_keeps P now : keeps P (apply_pending now) (λ _, True).
Proof.
  intros b (q & Hb & Hwf & Hq). destruct (apply_pending_refines timeout flt limit now b q Hb Hwf) as (b' & He & Hb').
  exists (spec_apply_pending timeout flt limit now q).1, b'. split; [done|]. split; [|done]. exists (spec_apply_pending timeout flt limit now q).2.
  split; [done|]. split; [by apply spec_apply_pending_wf|by apply spec_apply_pending_holds].
Qed.

Lemma update_status_keeps P now k s dir : keeps P (update_status now k s dir) (λ _, True).
Proof.
  intros b (q & Hb & Hwf & Hq).
  destruct (update_status_refines timeout flt limit now k s dir b q Hb Hwf) as (b' & He & Hb').
  do 2 eexists. split; [exact He|]. split; [|done]. eexists. split; [exact Hb'|].
  split; [by apply spec_update_status_wf|by apply spec_update_status_holds].
Qed.

Lemma update_value_keeps P k v : keeps P (update_value k v) (λ r, r ≠ UpdatedAndPromoted).
Proof.
  intros b (q & Hb & Hwf & Hq). destruct (update_value_refines timeout flt limit k v b q Hb Hwf) as (b' & He & Hb').
  do 2 eexists. split; [exact He|]. split.
  - eexists. split; [exact Hb'|].
    split; [by apply spec_update_value_wf|by apply (spec_update_value_holds flt limit)].
  - unfold spec_update_value, on_pending. repeat case_goal; simpl; congruence.
Qed.

Lemma remove_keeps P now k : keeps P (kb_remove now k) (λ _, True).
Proof.
  intros b (q & Hb & Hwf & Hq). destruct (remove_refines timeout flt limit now k b q Hb Hwf) as (b' & He & Hb').
  do 2 eexists. split; [exact He|]. split; [|done]. eexists. split; [exact Hb'|].
  split; [by apply spec_remove_wf|by apply spec_remove_holds].
Qed.

Lemma insert_keeps (P : Z → Prop) now n : P (hash (key n)) → keeps P (kb_insert now n) (λ _, True).
Proof.
  intros Hn b (q & Hb & Hwf & Hq). destruct (insert_refines timeout flt limit now n b q Hb) as (b' & He & Hb').
  do 2 eexists. split; [exact He|]. split; [|done]. eexists. split; [exact Hb'|].
  split; [by apply spec_insert_wf|by apply spec_insert_holds].
Qed.

(** A node without an entry is not reported as existing. *)
Lemma insert_absent now n b q : kb_rep timeout flt limit b q → kb_position (key n) b = None →
  ∀ r b', kb_insert now n b = (r, b') → r ≠ Ok NodeExists.
Proof.
  intros Hb Hpos r b' He. destruct (insert_refines timeout flt limit now n b q Hb) as (b1 & He1 & _).
  rewrite He in He1. simplify_eq. unfold kb_position in Hpos. rewrite (rep_nodes _ _ _ _ _ Hb) in Hpos.
  apply position_none in Hpos. unfold spec_insert. rewrite bool_decide_eq_false_2 by done.
  repeat case_goal; simpl; congruence.
Qed.

Lemma update_pending_keeps P s : keeps P (update_pending s) (λ _, True).
Proof.
  intros b (q & Hb & Hwf & Hq). destruct (update_pending_refines timeout flt limit s b q Hb) as (b' & He & Hb').
  do 2 eexists. split; [exact He|]. split; [|done]. eexists. split; [exact Hb'|].
  destruct (pend q) as [p|] eqn:Hp; simpl.
  - split; [apply wf_set_pending|apply holds_set_pending]; try done; simpl; [by apply (wf_pend limit)|by eapply (holds_pend P I)].
  - split; [apply (wf_part limit q)|apply (holds_part flt P I q)]; simpl; auto.
Qed.

Lemma new_ok P : bucket_ok P (KBucket_new timeout limit flt).
Proof.
  exists (MkQueues [] [] None). split; [|split; [|by apply (holds_empty flt)]].
  - split; try done. apply av_new_elems.
  - split; simpl; try done; try constructor; unfold MAX_NODES_PER_BUCKET; lia.
Qed.

End Buckets.

(** ** The table *)

Section Table.
Context {AV : Type → Type} `{ArrayVecLaws AV} {T V : Type} `{EqDecision V}.
Context (timeout : Z) (flt : option (Filter V)) (limit : nat) (I : list V → Prop) `{!FilterKeeps flt I}.
Context (lk : Key T) (Hlk : hash_ok lk).
Notation Table := (KBucketsTable AV T V).
Notation bucket_ok := (bucket_ok timeout flt limit I).
Implicit Types (t : Table) (k : Key T).

(** A key of bucket [i]. *)
Definition placed (i : nat) (h : Z) : Prop :=
  (0 ≤ h < 2 ^ 256)%Z ∧ BucketIndex_new (Z.lxor (hash lk) h) = Some i.

Record table_ok t : Prop := {
  ok_local : local_key t = lk;
  ok_buckets : length (buckets t) = NUM_BUCKETS;
  ok_bucket i b : buckets t !! i = Some b → bucket_ok (placed i) b;
}.

Definition safe {A} (m : st Table A) (R : A → Prop) : Prop :=
  ∀ t, table_ok t → ∃ r t', m t = (Ok r, t') ∧ table_ok t' ∧ R r.

Lemma safe_ret {A} (a : A) (R : A → Prop) : R a → safe (st_ret a) R.
Proof. intros Ha t Ht. by exists a, t. Qed.

Lemma safe_bind {A B} (m : st Table A) (f : A → st Table B) R Q :
  safe m R → (∀ a, R a → safe (f a) Q) → safe (st_bind m f) Q.
Proof.
  intros Hm Hf t Ht. destruct (Hm t Ht) as (a & t1 & He & H1 & Ha).
  destruct (Hf a Ha t1 H1) as (r & t2 & He2 & H2 & Hr). exists r, t2. unfold st_bind. by rewrite He.
Qed.

Lemma safe_weaken {A} (m : st Table A) (R Q : A → Prop) : (∀ a, R a → Q a) → safe m R → safe m Q.
Proof. intros HRQ Hm t Ht. destruct (Hm t Ht) as (r & t' & ? & ? & ?). exists r, t'. auto. Qed.

Lemma safe_get {A} (f : Table → st Table A) R : (∀ t, local_key t = lk → safe (f t) R) → safe (st_bind st_get f) R.
Proof. intros Hf t Ht. apply (Hf t (ok_local t Ht) t Ht). Qed.

Lemma safe_on_bucket {A} i (m : st (KBucket AV T V) A) R : i < NUM_BUCKETS →
  keeps timeout flt limit I (placed i) m R → safe (on_bucket i m) R.
Proof.
  intros Hi Hm t Ht. destruct (lookup_lt_is_Some_2 (buckets t) i) as [b Hb]; [by rewrite (ok_buckets t Ht)|].
  destruct (Hm b (ok_bucket t Ht i b Hb)) as (r & b' & He & Hb' & Hr).
  unfold on_bucket. rewrite Hb, He. do 2 eexists. split; [done|]. split; [|done].
  split; simpl; [apply Ht|by rewrite length_insert; apply Ht|].
  intros j c Hj. apply list_lookup_insert_Some in Hj as [(-> & <- & _)|[_ Hj]]; [done|by apply (ok_bucket t Ht)].
Qed.

Lemma safe_apply_pending now i : i < NUM_BUCKETS → safe (table_apply_pending now i) (λ _, True).
Proof.
  intros Hi. eapply safe_bind; [by apply safe_on_bucket; [|apply apply_pending_keeps]|].
  intros [a|] _; [|by apply safe_ret]. intros t Ht. do 2 eexists. split; [done|]. split; [|done]. destruct Ht. by split.
Qed.

Lemma placed_index k i t : local_key t = lk → hash_ok k → index_of_key t k = Some i →
  i < NUM_BUCKETS ∧ placed i (hash k).
Proof.
  intros Ht Hk Hi. unfold index_of_key in Hi. rewrite Ht in Hi. split; [|done].
  by apply (bucket_index_lt _ i (distance_bound lk k Hlk Hk)).
Qed.

Lemma safe_filter k v : hash_ok k → safe (st_reads (fails_table_filter k v)) (λ _, True).
Proof.
  intros Hk t Ht. unfold st_reads.
  assert (∃ b, fails_table_filter k v t = Ok b) as [b Hb]; [|by exists b, t; rewrite Hb].
  unfold fails_table_filter. destruct (table_filter t); [|by exists false].
  destruct (index_of_key t k) as [i|] eqn:Hi; [|by eexists].
  destruct (placed_index k i t (ok_local t Ht) Hk Hi) as [Hlt _].
  destruct (lookup_lt_is_Some_2 (buckets t) i) as [b Hb]; [by rewrite (ok_buckets t Ht)|].
  unfold index. rewrite Hb. by eexists.
Qed.

(** An operation on the bucket of [k], after its pending node is applied. *)
Lemma safe_at_key {A} now k (f : nat → st Table A) (x : A) (R : A → Prop) : hash_ok k → R x →
  (∀ i, i < NUM_BUCKETS → placed i (hash k) → safe (f i) R) →
  safe (let! t := st_get in
        match index_of_key t k with
        | Some i => table_apply_pending now i ;; f i
        | None => st_ret x
        end) R.
Proof.
  intros Hk Hx Hf. apply safe_get. intros t Ht. destruct (index_of_key t k) as [i|] eqn:Hi; [|by apply safe_ret].
  destruct (placed_index k i t Ht Hk Hi) as [Hlt Hp].
  eapply safe_bind; [by apply safe_apply_pending|]. intros _ _. by apply Hf.
Qed.

Lemma update_node_status_safe now k s dir : hash_ok k → safe (update_node_status now k s dir) (λ _, True).
Proof.
  intros Hk. apply safe_at_key; [done..|]. intros i Hi _. apply safe_on_bucket; [done|]. by apply update_status_keeps.
Qed.

Lemma update_node_safe now k v s : hash_ok k → safe (update_node now k v s) (λ _, True).
Proof.
  intros Hk. eapply safe_bind; [by apply safe_filter|]. intros bad _.
  apply (safe_at_key now k (λ i, if bad then _ else _)); [done..|]. intros i Hi _.
  destruct bad.
  { eapply safe_bind; [by apply safe_on_bucket; [|apply remove_keeps]|]. intros _ _. by apply safe_ret. }
  eapply safe_bind; [by apply safe_on_bucket; [|apply update_value_keeps]|]. intros uv _.
  destruct (failed uv); [by apply safe_ret|]. destruct s as [s|].
  - eapply safe_bind; [by apply safe_on_bucket; [|apply update_status_keeps]|]. intros ? _. by apply safe_ret.
  - eapply (safe_bind _ _ (λ _, True)); [by apply safe_ret|]. intros ? _. by apply safe_ret.
Qed.

(** A new node of the bucket of its key. *)
Lemma insert_new_safe now k v s i : i < NUM_BUCKETS → placed i (hash k) →
  ∀ t b, table_ok t → buckets t !! i = Some b → kb_position k b = None →
  ∃ r t', on_bucket i (kb_insert now (MkNode k v s)) t = (Ok r, t') ∧ table_ok t' ∧ r ≠ NodeExists.
Proof.
  intros Hi Hp t b Ht Hb Hpos.
  destruct (safe_on_bucket i (kb_insert now (MkNode k v s)) (λ _, True) Hi
              (insert_keeps timeout flt limit I _ now (MkNode k v s) Hp) t Ht) as (r & t' & He & Ht' & _).
  exists r, t'. split; [done|]. split; [done|]. intros ->.
  destruct (ok_bucket t Ht i b Hb) as (q & Hq & _). unfold on_bucket in He. rewrite Hb in He.
  destruct (kb_insert now (MkNode k v s) b) as [r b'] eqn:Hi'. simplify_eq.
  by apply (insert_absent timeout flt limit now (MkNode k v s) b q Hq Hpos _ _ Hi').
Qed.

Lemma insert_or_update_safe now k v s : hash_ok k → safe (insert_or_update now k v s) (λ _, True).
Proof.
  intros Hk. eapply safe_bind; [by apply safe_filter|]. intros bad _.
  apply (safe_at_key now k (λ i, if bad then _ else _)); [done..|]. intros i Hi Hp.
  destruct bad.
  { eapply safe_bind; [by apply safe_on_bucket; [|apply remove_keeps]|]. intros _ _. by apply safe_ret. }
  intros t Ht. destruct (lookup_lt_is_Some_2 (buckets t) i) as [b Hb]; [by rewrite (ok_buckets t Ht)|].
  unfold st_bind at 1. unfold on_bucket at 1. rewrite Hb. simpl.
  assert (MkTable (local_key t) (<[i:=b]> (buckets t)) (applied_pending t) (table_filter t) = t) as ->
    by (destruct t; simpl in *; by rewrite list_insert_id).
  destruct (kb_position k b) as [pos|] eqn:Hpos.
  - revert t Ht Hb. cut (safe (let! us := on_bucket i (update_status now k (state s) (Some (direction s))) in
      if failed us then st_ret (TFailed TooManyIncomingNodes) else
      let! uv := on_bucket i (update_value k v) in st_lift (combine_updates uv us)) (λ _ : InsertResult T, True)).
    { intros Hs t Ht _. by apply Hs. }
    eapply safe_bind; [by apply safe_on_bucket; [|apply update_status_keeps]|]. intros us _.
    destruct (failed us) eqn:Hus; [by apply safe_ret|].
    eapply safe_bind; [by apply safe_on_bucket; [|apply update_value_keeps]|]. intros uv Huv t Ht.
    destruct uv, us; simpl in *; try done; do 2 eexists; done.
  - destruct (insert_new_safe now k v s i Hi Hp t b Ht Hb Hpos) as (r & t' & He & Ht' & Hr).
    unfold st_bind. rewrite He. destruct r; try done; do 2 eexists; done.
Qed.

Lemma table_remove_safe now k : hash_ok k → safe (table_remove now k) (λ _, True).
Proof. intros Hk. apply safe_at_key; [done..|]. intros i Hi _. apply safe_on_bucket; [done|]. by apply remove_keeps. Qed.

Lemma entry_safe now k : hash_ok k → safe (entry now k) (λ _, True).
Proof. intros Hk. apply safe_at_key; [done..|]. intros i Hi _. apply safe_on_bucket; [done|]. intros b Hb. by do 2 eexists. Qed.

Lemma for_apply_safe now l f : (∀ x : Z, x ∈ l → f x < NUM_BUCKETS) →
  safe (st_for l (λ d, table_apply_pending now (f d))) (λ _, True).
Proof.
  induction l as [|x l IH]; intros Hl; simpl; [by apply safe_ret|].
  eapply safe_bind; [apply safe_apply_pending, Hl; by left|]. intros _ _. apply IH. intros y Hy. apply Hl. by right.
Qed.

Lemma nodes_by_distances_safe now ds max : safe (nodes_by_distances now ds max) (λ _, True).
Proof.
  assert (∀ x, x ∈ List.filter (λ d, (0 <? d)%Z && (d <=? 256)%Z) ds → Z.to_nat (x - 1) < NUM_BUCKETS) as Hd.
  { intros x. rewrite list_elem_of_In, List.filter_In. unfold NUM_BUCKETS. intros [_ [? ?]%andb_prop]. lia. }
  eapply safe_bind; [apply (for_apply_safe now _ (λ d, Z.to_nat (d - 1)) Hd)|]. intros _ _ t Ht. unfold st_reads.
  assert (∀ l m, (∀ x, x ∈ l → Z.to_nat (x - 1) < NUM_BUCKETS) → ∃ r, matching_nodes max m l t = Ok r) as Hm.
  { induction l as [|d l IH]; intros m Hl; simpl; [by eexists|].
    destruct (lookup_lt_is_Some_2 (buckets t) (Z.to_nat (d - 1))) as [b Hb].
    { rewrite (ok_buckets t Ht). apply Hl. by left. }
    unfold index. rewrite Hb. simpl. destruct (push_until _ _ _) as [[] m']; [by eexists|].
    apply IH. intros x Hx. apply Hl. by right. }
  destruct (Hm _ [] Hd) as [r Hr]. exists r, t. by rewrite Hr.
Qed.

Lemma table_new_ok tf : table_ok (KBucketsTable_new lk timeout limit tf flt).
Proof.
  split; [done|apply length_replicate|]. unfold KBucketsTable_new. cbn [buckets]. intros i b Hb.
  apply lookup_replicate in Hb as [-> _]. by apply new_ok.
Qed.

(** ** Runs *)

(** The public operations; those of an entry go through its key. *)
Inductive table_op :=
| UpdateNodeStatus (now : Z) (k : Key T) (s : ConnectionState) (dir : option ConnectionDirection)
| UpdateNode (now : Z) (k : Key T) (v : V) (s : option ConnectionState)
| InsertOrUpdate (now : Z) (k : Key T) (v : V) (s : NodeStatus)
| Remove (now : Z) (k : Key T)
| LookUp (now : Z) (k : Key T)
| EntryUpdate (now : Z) (k : Key T) (s : ConnectionState) (dir : option ConnectionDirection)
| EntryUpdatePending (now : Z) (k : Key T) (s : NodeStatus)
| EntryRemove (now : Z) (k : Key T)
| EntryInsert (now : Z) (k : Key T) (v : V) (s : NodeStatus)
| ByDistances (now : Z) (ds : list Z) (max_nodes : nat)
| TakeApplied.

Definition op_keys (o : table_op) : list (Key T) :=
  match o with
  | UpdateNodeStatus _ k _ _ | UpdateNode _ k _ _ | InsertOrUpdate _ k _ _ | Remove _ k | LookUp _ k
  | EntryUpdate _ k _ _ | EntryUpdatePending _ k _ | EntryRemove _ k | EntryInsert _ k _ _ => [k]
  | _ => []
  end.

(** [table.entry(key)], then a method of the entry it returns. *)
Definition via_entry (now : Z) (k : Key T) (m : nat → st Table unit) : st Table unit :=
  entry now k ;;
  let! t := st_get in
  match index_of_key t k with Some i => m i | None => st_ret tt end.

Definition exec_table_op (o : table_op) : st Table unit :=
  match o with
  | UpdateNodeStatus now k s dir => update_node_status now k s dir ;; st_ret tt
  | UpdateNode now k v s => update_node now k v s ;; st_ret tt
  | InsertOrUpdate now k v s => insert_or_update now k v s ;; st_ret tt
  | Remove now k => table_remove now k ;; st_ret tt
  | LookUp now k => entry now k ;; st_ret tt
  | EntryUpdate now k s dir => via_entry now k (λ i, present_update now i k s dir)
  | EntryUpdatePending now k s => via_entry now k (λ i, pending_update i s)
  | EntryRemove now k => via_entry now k (λ i, entry_remove now i k)
  | EntryInsert now k v s => via_entry now k (λ i, absent_insert now i k v s ;; st_ret tt)
  | ByDistances now ds max => nodes_by_distances now ds max ;; st_ret tt
  | TakeApplied => take_applied_pending ;; st_ret tt
  end.

Lemma safe_unit {A} (m : st Table A) : safe m (λ _, True) → safe (m ;; st_ret tt) (λ _, True).
Proof. intros Hm. eapply safe_bind; [done|]. intros _ _. by apply safe_ret. Qed.

Lemma via_entry_safe now k m : hash_ok k →
  (∀ i, i < NUM_BUCKETS → placed i (hash k) → safe (m i) (λ _, True)) → safe (via_entry now k m) (λ _, True).
Proof.
  intros Hk Hm. eapply safe_bind; [by apply entry_safe|]. intros _ _. apply safe_get. intros t Ht.
  destruct (index_of_key t k) as [i|] eqn:Hi; [|by apply safe_ret].
  destruct (placed_index k i t Ht Hk Hi). by apply Hm.
Qed.

Lemma exec_table_op_safe o : Forall hash_ok (op_keys o) → safe (exec_table_op o) (λ _, True).
Proof.
  destruct o; simpl; intros Hk; try (pose proof (Forall_inv Hk) as Hk1; simpl in Hk1).
  - by apply safe_unit, update_node_status_safe.
  - by apply safe_unit, update_node_safe.
  - by apply safe_unit, insert_or_update_safe.
  - by apply safe_unit, table_remove_safe.
  - by apply safe_unit, entry_safe.
  - apply via_entry_safe; [done|]. intros i Hi _. apply safe_unit, safe_on_bucket; [done|]. by apply update_status_keeps.
  - apply via_entry_safe; [done|]. intros i Hi _. apply safe_on_bucket; [done|]. by apply update_pending_keeps.
  - apply via_entry_safe; [done|]. intros i Hi _. apply safe_unit, safe_on_bucket; [done|]. by apply remove_keeps.
  - apply via_entry_safe; [done|]. intros i Hi Hp. apply safe_unit, safe_on_bucket; [done|]. by apply insert_keeps.
  - apply safe_unit, nodes_by_distances_safe.
  - apply safe_unit. intros t Ht. unfold take_applied_pending.
    destruct (applied_pending t); do 2 eexists; (split; [done|]); (split; [|done]); destruct Ht; by split.
Qed.

Lemma exec_table_ops_safe ops : Forall (λ o, Forall hash_ok (op_keys o)) ops →
  safe (st_for ops exec_table_op) (λ _, True).
Proof.
  induction 1 as [|o ops Ho _ IH]; simpl; [by apply safe_ret|].
  eapply safe_bind; [by apply exec_table_op_safe|]. by intros _ _.
Qed.

(** ** No key twice *)

Lemma table_keys t i b n : table_ok t → buckets t !! i = Some b → n ∈ kb_iter b → placed i (hash (key n)).
Proof.
  intros Ht Hb Hn. destruct (ok_bucket t Ht i b Hb) as (q & Hq & _ & Hh).
  rewrite (rep_nodes _ _ _ _ _ Hq) in Hn. eapply (Forall_forall (placed i)); [apply (holds_keys _ _ _ Hh)|].
  apply list_elem_of_fmap. by exists n.
Qed.

Lemma concat_keys_nodup (bs : list (KBucket AV T V)) (j : nat) :
  (∀ i b, bs !! i = Some b → bucket_ok (placed (j + i)) b) → NoDup (keys (flat_map kb_iter bs)) ∧
  (∀ h, h ∈ keys (flat_map kb_iter bs) → ∃ i, j ≤ i ∧ placed i h).
Proof.
  revert j. induction bs as [|b bs IH]; intros j Hok; simpl; [split; [constructor|by intros ? ?%elem_of_nil]|].
  destruct (IH (S j)) as [Hnd Hin].
  { intros i c Hc. replace (S j + i) with (j + S i) by lia. by apply Hok. }
  destruct (Hok 0 b) as (q & Hq & Hwf & Hh); [done|]. rewrite Nat.add_0_r in Hh.
  rewrite keys_app, (rep_nodes _ _ _ _ _ Hq). pose proof (holds_keys _ _ _ Hh) as Hk. rewrite Forall_forall in Hk. split.
  - apply NoDup_app. split; [by apply (wf_keys _ _ Hwf)|]. split; [|done].
    intros h H1 H2. destruct (Hin h H2) as (i & Hi & [_ Hp]). destruct (Hk h H1) as [_ Hp']. rewrite Hp in Hp'. simplify_eq. lia.
  - intros h [H1|H2]%elem_of_app; [exists j; split; [lia|by apply Hk]|]. destruct (Hin h H2) as (i & ? & ?). exists i. split; [lia|done].
Qed.

End Table.
