(* ===== verification/KBucketsSearch.v ===== *)
(** * Searching the closest nodes

    The iterator of [closest_keys] and its variants returns, for every table
    and target, the nodes of the buckets in the order of the visits, each
    bucket sorted; altogether they are in the order of their distance to the
    target. *)

From Stdlib Require Import Sorting.Sorted.
From S2P Require Import Prelude KBucket KBucketProofs KBuckets KBucketsProofs KBucketsInvariant.

#[local] Opaque NUM_BUCKETS zoom_in zoom_out.

(** ** Sorting *)

Section Sorting.
Context {T U Out : Type} (target : Key U) (as_key : Out → Key T).

Definition closer (x y : Out) : Prop := (key_distance target (as_key x) ≤ key_distance target (as_key y))%Z.

Lemma insert_sorted_perm x l : Permutation (insert_sorted target as_key x l) (x :: l).
Proof.
  induction l as [|y l IH]; simpl; [done|]. destruct (_ <=? _)%Z; [done|]. rewrite IH. constructor.
Qed.

Lemma insert_sorted_sorted x l : StronglySorted closer l → StronglySorted closer (insert_sorted target as_key x l).
Proof.
  induction 1 as [|y l Hs IH Hf]; simpl; [repeat constructor|].
  destruct (Z.leb_spec (key_distance target (as_key x)) (key_distance target (as_key y))) as [Hle|Hlt].
  - constructor; [by constructor|]. constructor; [done|]. eapply Forall_impl; [done|]. unfold closer. intros z Hz. lia.
  - constructor; [done|]. rewrite insert_sorted_perm. constructor; [unfold closer; lia|done].
Qed.

Lemma sort_by_perm l : Permutation (sort_by target as_key l) l.
Proof. induction l as [|x l IH]; simpl; [done|]. by rewrite insert_sorted_perm, IH. Qed.

Lemma sort_by_sorted l : StronglySorted closer (sort_by target as_key l).
Proof. induction l as [|x l IH]; simpl; [constructor|]. by apply insert_sorted_sorted. Qed.

End Sorting.

(** ** Applying the pending node twice *)

Section Settled.
Context {AV : Type → Type} `{ArrayVecLaws AV} {T V : Type} `{EqDecision V}.
Context (timeout : Z) (flt : option (Filter V)) (limit : nat).
Notation KBucket := (KBucket AV T V).
Implicit Types (b : KBucket) (q : Queues T V).

Lemma spec_insert_pend now n q : pend q = None → length (all q) < MAX_NODES_PER_BUCKET →
  pend (spec_insert timeout flt limit now n q).2 = None.
Proof.
  intros Hp Hlt. unfold spec_insert. destruct (bool_decide _); [done|]. destruct (negb _); [done|].
  destruct (_ && _); [done|]. rewrite (proj2 (Nat.ltb_lt _ _) Hlt). simpl. rewrite clear_enqueue.
  unfold clear_pending. rewrite Hp. unfold enqueue. case_goal; done.
Qed.

Lemma spec_apply_pending_pend now q :
  pend (spec_apply_pending timeout flt limit now q).2 = None ∨
  ∃ p, pend q = Some p ∧ (replace p <=? now)%Z = false.
Proof.
  unfold spec_apply_pending. destruct (pend q) as [p|] eqn:Hp; [|by left].
  destruct (replace p <=? now)%Z eqn:Hr; [|right; by exists p]. left.
  destruct (Nat.ltb_spec (length (all (MkQueues (disc q) (conn q) None))) MAX_NODES_PER_BUCKET) as [Hlt|Hge].
  - pose proof (spec_insert_pend now (node p) (MkQueues (disc q) (conn q) None) eq_refl Hlt) as Hn.
    by destruct (spec_insert _ _ _ _ _ _).
  - simpl. destruct (disc q); [done|]. destruct (_ && _); [|done]. simpl. unfold enqueue. by case_goal.
Qed.

Definition settled (now : Z) b : KBucket := (apply_pending now b).2.

Lemma apply_none now b : pending b = None → apply_pending now b = (Ok None, b).
Proof. intros Hp. unfold apply_pending, st_bind, st_get. by rewrite Hp. Qed.

Lemma apply_early now b p : pending b = Some p → (replace p <=? now)%Z = false →
  apply_pending now b = (Ok None, b).
Proof.
  intros Hp Hr. unfold apply_pending, st_bind, st_get, st_modify. rewrite Hp, Hr. unfold st_ret. f_equal.
  destruct b; simpl in *. by rewrite Hp.
Qed.

Lemma settled_again now b q : kb_rep timeout flt limit b q → queues_wf limit q →
  settled now (settled now b) = settled now b.
Proof.
  intros Hb Hwf. destruct (apply_pending_refines timeout flt limit now b q Hb Hwf) as (b' & He & Hb').
  unfold settled. rewrite He. simpl. destruct (spec_apply_pending_pend now q) as [Hn|(p & Hp & Hr)].
  - by rewrite apply_none by by rewrite (rep_pending _ _ _ _ _ Hb').
  - rewrite (apply_early now b p) in He; [|by rewrite (rep_pending _ _ _ _ _ Hb)|done]. simplify_eq.
    rewrite (apply_early now b' p); [done|by rewrite (rep_pending _ _ _ _ _ Hb)|done].
Qed.

End Settled.

(** ** The iterator *)

Section Search.
Context {AV : Type → Type} `{ArrayVecLaws AV} {T V U Out : Type} `{EqDecision V}.
Context (timeout : Z) (flt : option (Filter V)) (limit : nat) (I : list V → Prop) `{!FilterKeeps flt I}.
Context (lk : Key T) (Hlk : hash_ok lk) (target : Key U) (f : Node T V → Out) (as_key : Out → Key T) (now : Z).
Notation Table := (KBucketsTable AV T V).
Notation table_ok := (table_ok timeout flt limit I lk).
Notation next := (closest_next target f as_key now).
Implicit Types (t : Table) (c : ClosestIter (AV:=AV) (T:=T) (V:=V) (Out:=Out)).

(** The nodes of bucket [i] once its pending node is applied. *)
Definition nodes_at t (i : nat) : list (Node T V) :=
  match buckets t !! i with Some b => kb_iter (settled now b) | None => [] end.

Definition out_at t (i : nat) : list Out := sort_by target as_key (f <$> nodes_at t i).

(** The same buckets up to pending nodes that were applied. *)
Definition same_nodes t t' : Prop := ∀ i, settled now <$> buckets t !! i = settled now <$> buckets t' !! i.

Lemma same_out t t' i : same_nodes t t' → out_at t i = out_at t' i.
Proof.
  intros Hs. unfold out_at, nodes_at. specialize (Hs i).
  destruct (buckets t !! i), (buckets t' !! i); simplify_eq/=; by f_equal; congruence.
Qed.

Lemma bucket_settled P (b : KBucket AV T V) : bucket_ok timeout flt limit I P b → ∃ r, apply_pending now b = (Ok r, settled now b) ∧
  settled now (settled now b) = settled now b.
Proof.
  intros (q & Hb & Hwf & _). destruct (apply_pending_refines timeout flt limit now b q Hb Hwf) as (b' & He & Hb').
  eexists. unfold settled at 1. rewrite He. split; [done|]. by eapply settled_again.
Qed.

(** One visit. *)
Lemma visit_bucket t i : table_ok t → i < NUM_BUCKETS →
  ∃ t' b, table_apply_pending now i t = (Ok tt, t') ∧ table_ok t' ∧ same_nodes t t' ∧
    buckets t' !! i = Some b ∧ kb_iter b = nodes_at t i ∧ settled now b = b ∧ buckets t' = <[i := b]> (buckets t).
Proof.
  intros Ht Hi. destruct (lookup_lt_is_Some_2 (buckets t) i) as [b Hb]; [by rewrite (ok_buckets _ _ _ _ _ t Ht)|].
  destruct (bucket_settled _ b (ok_bucket _ _ _ _ _ t Ht i b Hb)) as (r & He & Hss).
  destruct (safe_apply_pending timeout flt limit I lk now i Hi t Ht) as (x & t' & Ht' & Hok & _). destruct x.
  assert (buckets t' = <[i := settled now b]> (buckets t)) as Hbs.
  { revert Ht'. unfold table_apply_pending, st_bind, on_bucket. rewrite Hb, He.
    destruct r; unfold st_modify, st_ret; intros [= <-]; done. }
  assert (i < length (buckets t)) as Hlen by by apply lookup_lt_Some in Hb.
  exists t', (settled now b). split; [done|]. split; [done|]. split; [|split; [|split; [|by split]]].
  - intros j. rewrite Hbs. destruct (Nat.eq_dec i j) as [<-|Hne].
    + rewrite list_lookup_insert_eq by done. rewrite Hb. simpl. by rewrite Hss.
    + by rewrite list_lookup_insert_ne.
  - rewrite Hbs. by rewrite list_lookup_insert_eq.
  - unfold nodes_at. by rewrite Hb.
Qed.

(** [iter()] lists the nodes of all buckets, pending ones applied. *)
Lemma apply_all_spec l t : table_ok t → Forall (λ i, i < NUM_BUCKETS) l →
  ∃ t', st_for l (table_apply_pending now) t = (Ok tt, t') ∧ table_ok t' ∧ same_nodes t t' ∧
    (∀ i b, buckets t' !! i = Some b → i ∈ l ∨ (∃ b0, buckets t !! i = Some b0 ∧ settled now b0 = b0) → settled now b = b).
Proof.
  revert t. induction l as [|i l IH]; intros t Ht Hl; simpl.
  { exists t. split; [done|]. split; [done|]. split; [by intros i|].
    intros i b Hb [Hi|(b0 & Hb0 & Hs)]; [by apply elem_of_nil in Hi|congruence]. }
  apply Forall_cons in Hl as [Hi Hl].
  destruct (visit_bucket t i Ht Hi) as (t1 & b1 & He & Ht1 & Hs1 & Hb1 & _ & Hset & Hbs).
  destruct (IH t1 Ht1 Hl) as (t2 & He2 & Ht2 & Hs2 & Hset2).
  exists t2. split; [unfold st_bind; by rewrite He|]. split; [done|]. split.
  { intros j. by rewrite (Hs1 j), (Hs2 j). }
  intros j b Hb Hj. apply (Hset2 j b Hb). destruct (Nat.eq_dec i j) as [->|Hne]; [right; by exists b1|].
  destruct Hj as [[?|Hj]%elem_of_cons|(b0 & Hb0 & Hs)]; [congruence|by left|].
  right. exists b0. by rewrite Hbs, list_lookup_insert_ne.
Qed.

(** All nodes, pending ones applied. *)
Definition all_nodes t : list (Node T V) := flat_map (nodes_at t) (seq 0 NUM_BUCKETS).

Lemma flat_map_seq {A B} (g : A → list B) (h : nat → list B) l j :
  (∀ i x, l !! i = Some x → g x = h (j + i)) → flat_map g l = flat_map h (seq j (length l)).
Proof.
  revert j. induction l as [|x l IH]; intros j Hl; simpl; [done|]. f_equal.
  - rewrite (Hl 0 x) by done. by rewrite Nat.add_0_r.
  - apply IH. intros i y Hy. replace (S j + i) with (j + S i) by lia. by apply Hl.
Qed.

Lemma iter_mut_nodes t : table_ok t → ∃ t', table_iter_mut now t = (Ok (all_nodes t), t') ∧ table_ok t'.
Proof.
  intros Ht. destruct (apply_all_spec (seq 0 NUM_BUCKETS) t Ht) as (t' & He & Ht' & Hs & Hset).
  { apply Forall_forall. intros i Hi. apply elem_of_seq in Hi. lia. }
  exists t'. split; [|done]. unfold table_iter_mut, st_bind. rewrite He. unfold st_reads. do 2 f_equal.
  unfold iter_ref, all_nodes. rewrite (flat_map_seq kb_iter (nodes_at t) _ 0).
  - by rewrite (ok_buckets _ _ _ _ _ t' Ht').
  - intros i b Hb. simpl. specialize (Hs i). rewrite Hb in Hs. simpl in Hs. unfold nodes_at.
    destruct (buckets t !! i) as [b0|]; [|done]. simpl in Hs. simplify_eq. rewrite Hs.
    rewrite (Hset i b Hb); [done|]. left. apply elem_of_seq. apply lookup_lt_Some in Hb.
    rewrite (ok_buckets _ _ _ _ _ t' Ht') in Hb. lia.
Qed.

(** What the iterator has still to return. *)
Definition to_return t c : list Out := default [] (iter c) ++ flat_map (out_at t) (remaining (buckets_iter c)).

Definition turns c : nat :=
  2 * length (remaining (buckets_iter c)) + match iter c with Some [] => 2 | _ => 1 end.

Record iter_ok t c : Prop := {
  it_table : table_ok (table c);
  it_same : same_nodes t (table c);
  it_range : Forall (λ i, i < NUM_BUCKETS) (remaining (buckets_iter c));
}.

Lemma closest_next_spec t c fuel : iter_ok t c → turns c ≤ fuel →
  ∃ c', next fuel c = (Ok (head (to_return t c)), c') ∧ iter_ok t c' ∧ to_return t c' = tail (to_return t c) ∧
    length (remaining (buckets_iter c')) ≤ length (remaining (buckets_iter c)).
Proof.
  revert c. induction fuel as [|fuel IH]; intros c Hc Hfuel.
  { unfold turns in Hfuel. destruct (iter c) as [[]|]; lia. }
  simpl. destruct Hc as [Ht Hs Hr]. destruct (iter c) as [[|k l]|] eqn:Hi.
  - destruct (IH (MkClosest (table c) (buckets_iter c) None)) as (c' & He & Hc' & Hl & Hlen).
    { by split. }
    { unfold turns in *. simpl. rewrite Hi in Hfuel. lia. }
    exists c'. unfold to_return in *. rewrite Hi. simpl in *. done.
  - exists (MkClosest (table c) (buckets_iter c) (Some l)). unfold to_return. rewrite Hi. simpl. done.
  - pose proof (buckets_next_remaining (buckets_iter c)) as Hn.
    destruct (buckets_next (buckets_iter c)) as [[i|] bi].
    + rewrite Hn in Hr. apply Forall_cons in Hr as [Hi' Hr].
      destruct (visit_bucket (table c) i Ht Hi') as (t' & b & He & Ht' & Hs' & Hb & Hnodes & _ & _).
      unfold st_bind at 1, st_zoom. cbn [table set_table buckets_iter iter]. rewrite He.
      unfold st_bind, st_reads, st_modify, index, set_table. cbn [table buckets_iter iter]. rewrite Hb. simpl.
      set (c1 := MkClosest _ bi _).
      destruct (IH c1) as (c' & He' & Hc' & Hl & Hlen).
      { split; [done| |done]. intros j. rewrite (Hs j). apply Hs'. }
      { unfold turns in *. rewrite Hi, Hn in Hfuel. subst c1. simpl in *. destruct (sort_by _ _ _); simpl; lia. }
      assert (to_return t c1 = to_return t c) as Hsame.
      { unfold to_return. rewrite Hi, Hn. subst c1. simpl. f_equal. rewrite (same_out t (table c) i Hs).
        unfold out_at. by rewrite Hnodes. }
      rewrite Hsame in *. exists c'. split; [done|]. split; [done|]. split; [done|].
      rewrite Hn. subst c1. simpl in *. lia.
    + destruct Hn as [Hn Hn']. exists (MkClosest (table c) bi None).
      unfold to_return. rewrite Hi, Hn. cbn [iter buckets_iter]. rewrite Hn'. simpl.
      split; [done|]. split; [|done]. split; [done|done|]. cbn [buckets_iter]. rewrite Hn'. constructor.
Qed.

Lemma closest_collect_spec t c n : iter_ok t c → 2 * length (remaining (buckets_iter c)) + 2 ≤ CLOSEST_FUEL →
  length (to_return t c) < n →
  ∃ c', closest_collect target f as_key now n c = (Ok (to_return t c), c') ∧ iter_ok t c'.
Proof.
  revert c. induction n as [|n IH]; intros c Hc Hfuel Hn; [lia|].
  destruct (closest_next_spec t c CLOSEST_FUEL Hc) as (c1 & He & Hc1 & Hl & Hlen).
  { unfold turns. destruct (iter c) as [[]|]; lia. }
  cbn [closest_collect]. unfold st_bind at 1. rewrite He. destruct (to_return t c) as [|x l] eqn:Hr; simpl.
  - by exists c1.
  - simpl in Hl. destruct (IH c1 Hc1) as (c2 & He2 & Hc2); [lia|rewrite Hl; simpl in Hn; lia|].
    exists c2. split; [|done]. unfold st_bind. by rewrite He2, Hl.
Qed.

(** ** Distances *)

Hypothesis as_key_f : ∀ n, hash (as_key (f n)) = hash (key n).

Lemma nodes_at_placed t i n : table_ok t → n ∈ nodes_at t i → placed lk i (hash (key n)).
Proof.
  intros Ht Hn. unfold nodes_at in Hn. destruct (buckets t !! i) as [b|] eqn:Hb; [|by apply elem_of_nil in Hn].
  destruct (apply_pending_keeps timeout flt limit I (placed lk i) now b (ok_bucket _ _ _ _ _ t Ht i b Hb))
    as (r & b' & He & (q & Hq & _ & Hh) & _).
  unfold settled in Hn. rewrite He in Hn. simpl in Hn. rewrite (rep_nodes _ _ _ _ _ Hq) in Hn.
  eapply (Forall_forall (placed lk i)); [apply (holds_keys _ _ _ Hh)|]. apply list_elem_of_fmap. by exists n.
Qed.

Lemma out_at_elem t i x : x ∈ out_at t i ↔ ∃ n, x = f n ∧ n ∈ nodes_at t i.
Proof. unfold out_at. rewrite sort_by_perm. apply list_elem_of_fmap. Qed.

Lemma placed_top_bit i h : placed lk i h → top_bit i (Z.lxor (hash lk) h).
Proof.
  intros [Hh Hi]. pose proof (lxor_bound 256 (hash lk) h ltac:(lia) Hlk Hh) as Hr.
  destruct (bucket_index_lt _ _ Hr Hi) as [_ Hl]. split; [|done].
  destruct (Z.eq_dec (Z.lxor (hash lk) h) 0%Z) as [He|]; [rewrite He in Hi; done|lia].
Qed.

Lemma out_at_closer t i j x y : table_ok t → hash_ok target → before_eq (key_distance lk target) i j →
  x ∈ out_at t i → y ∈ out_at t j → closer target as_key x y.
Proof.
  intros Ht Htg Hb (n & -> & Hn)%out_at_elem (m & -> & Hm)%out_at_elem. unfold closer.
  pose proof (placed_top_bit _ _ (nodes_at_placed t i n Ht Hn)) as Hx.
  pose proof (placed_top_bit _ _ (nodes_at_placed t j m Ht Hm)) as Hy.
  rewrite !(distance_via target lk). unfold key_distance at 2 4. rewrite !as_key_f.
  pose proof (distance_bound lk target Hlk Htg) as [Hd _].
  destruct Hb as [[-> ->]|Hb]; [|by apply Z.lt_le_incl, (before_distance _ i j)].
  assert (∀ z, top_bit 0 z → z = 1%Z) as H1.
  { intros z [Hz Hl]. destruct (Z.log2_spec z Hz) as [_ Hlt]. rewrite Hl in Hlt. simpl in Hlt. lia. }
  by rewrite (H1 _ Hx), (H1 _ Hy).
Qed.

Lemma flat_map_sorted {A} (R : A → A → Prop) (S : nat → nat → Prop) (g : nat → list A) l :
  StronglySorted S l → (∀ i, StronglySorted R (g i)) → (∀ i j x y, S i j → x ∈ g i → y ∈ g j → R x y) →
  StronglySorted R (flat_map g l).
Proof.
  intros Hs Hg HR. induction Hs as [|i l Hs IH Hf]; simpl; [constructor|]. apply sorted_app; [done|done|].
  intros x y Hx Hy. apply list_elem_of_In, in_flat_map in Hy as (j & Hj & Hy).
  rewrite Forall_forall in Hf. apply (HR i j); [by apply Hf, list_elem_of_In|done|by apply list_elem_of_In].
Qed.

(** ** The whole search *)

Definition search t : list Out := flat_map (out_at t) (visits (key_distance lk target)).

Lemma search_sorted t : table_ok t → hash_ok target → hash target ≠ hash lk →
  StronglySorted (closer target as_key) (search t).
Proof.
  intros Ht Htg Hne. pose proof (distance_bound lk target Hlk Htg) as Hd.
  assert (key_distance lk target ≠ 0%Z) by (rewrite distance_zero; congruence).
  eapply flat_map_sorted; [apply visits_sorted; lia|intros; apply sort_by_sorted|].
  intros i j x y Hij Hx Hy. by apply (out_at_closer t i j).
Qed.

Lemma search_complete t n : hash_ok target → hash target ≠ hash lk → n ∈ all_nodes t → f n ∈ search t.
Proof.
  intros Htg Hne Hn. apply list_elem_of_In, in_flat_map in Hn as (i & Hi & Hn).
  apply list_elem_of_In, in_flat_map. exists i. split.
  - apply list_elem_of_In, visits_all; [|apply in_seq in Hi; lia].
    pose proof (distance_bound lk target Hlk Htg). assert (key_distance lk target ≠ 0%Z) by (rewrite distance_zero; congruence). lia.
  - apply list_elem_of_In, out_at_elem. exists n. split; [done|]. by apply list_elem_of_In.
Qed.

Lemma search_sound t x : x ∈ search t → ∃ n, x = f n ∧ ∃ i, n ∈ nodes_at t i.
Proof.
  intros Hx. apply list_elem_of_In, in_flat_map in Hx as (i & _ & Hx).
  apply list_elem_of_In, out_at_elem in Hx as (n & -> & Hn). eauto.
Qed.

Lemma flat_map_perm {A B} (g h : A → list B) l l' : Permutation l l' → (∀ i, Permutation (g i) (h i)) →
  Permutation (flat_map g l) (flat_map h l').
Proof.
  intros Hl Hg. transitivity (flat_map g l').
  - induction Hl; simpl; [done|by f_equiv|solve_Permutation|by etrans].
  - clear Hl. induction l'; simpl; [done|]. by f_equiv.
Qed.

Lemma search_perm t : hash_ok target → hash target ≠ hash lk → Z.testbit (key_distance lk target) 0 = false →
  Permutation (search t) (f <$> all_nodes t).
Proof.
  intros Htg Hne H0. pose proof (distance_bound lk target Hlk Htg).
  assert (key_distance lk target ≠ 0%Z) by (rewrite distance_zero; congruence).
  unfold search, all_nodes. rewrite (flat_map_perm _ (λ i, f <$> nodes_at t i) _ (seq 0 NUM_BUCKETS)).
  - generalize (seq 0 NUM_BUCKETS). intros l. induction l; simpl; [done|]. rewrite fmap_app. by f_equiv.
  - apply visits_once; [lia|done].
  - intros i. apply sort_by_perm.
Qed.

Lemma search_length t : table_ok t → hash_ok target → hash target ≠ hash lk →
  length (search t) ≤ 2 * NUM_BUCKETS * MAX_NODES_PER_BUCKET.
Proof.
  intros Ht Htg Hne. pose proof (distance_bound lk target Hlk Htg).
  assert (key_distance lk target ≠ 0%Z) by (rewrite distance_zero; congruence).
  pose proof (visits_length (key_distance lk target) ltac:(lia)) as Hv.
  assert (∀ l, length (flat_map (out_at t) l) ≤ length l * MAX_NODES_PER_BUCKET) as Hl; [|unfold search; etrans; [apply Hl|by apply Nat.mul_le_mono_r]].
  induction l as [|i l IH]; cbn [flat_map length]; [lia|]. rewrite length_app.
  assert (length (out_at t i) ≤ MAX_NODES_PER_BUCKET); [|lia].
  unfold out_at. rewrite sort_by_perm, length_fmap. unfold nodes_at.
  destruct (buckets t !! i) as [b|] eqn:Hb; [|simpl; lia].
  destruct (apply_pending_keeps timeout flt limit I (placed lk i) now b (ok_bucket _ _ _ _ _ t Ht i b Hb))
    as (r & b' & He & (q & Hq & Hwf & _) & _).
  unfold settled. rewrite He. cbn [snd]. rewrite (rep_nodes _ _ _ _ _ Hq). apply (wf_room _ _ Hwf).
Qed.

Lemma closest_search t n : table_ok t → hash_ok target → hash target ≠ hash lk → length (search t) < n →
  ∃ c, closest_collect target f as_key now n (closest (Out:=Out) target t) = (Ok (search t), c) ∧ iter_ok t c.
Proof.
  intros Ht Htg Hne Hn. pose proof (distance_bound lk target Hlk Htg) as Hd.
  assert (key_distance lk target ≠ 0%Z) by (rewrite distance_zero; congruence).
  assert (remaining (buckets_iter (closest (Out:=Out) target t)) = visits (key_distance lk target)) as Hrem
    by (unfold closest; simpl; by rewrite (ok_local _ _ _ _ _ t Ht)).
  assert (to_return t (closest (Out:=Out) target t) = search t) as Hto by (unfold to_return; by rewrite Hrem).
  destruct (closest_collect_spec t (closest (Out:=Out) target t) n) as (c & He & Hc).
  - split; [done|by intros i|]. rewrite Hrem. apply Forall_forall. intros i Hi. by apply (visits_lt _ i Hd).
  - rewrite Hrem. pose proof (visits_length (key_distance lk target) ltac:(lia)). unfold CLOSEST_FUEL. lia.
  - by rewrite Hto.
  - exists c. by rewrite He, Hto.
Qed.

End Search.
