(* ===== verification/KBucketTheorems.v ===== *)
(** * The routing table: main theorems

    A bucket as two queues, the placement of the nodes in the table, the order
    of a search, and the limit on nodes of one subnet. *)

From Stdlib Require Import Sorting.Sorted.
From S2P Require Import Prelude KBucket KBucketProofs KBuckets KBucketsProofs KBucketsInvariant KBucketsSearch.

(** ** A vector with a capacity, as a list *)

#[global] Instance list_av : ArrayVec list := {
  av_new A := [];
  av_elems A v := v;
  av_is_full A v := MAX_NODES_PER_BUCKET <=? length v;
  av_push A v x := if length v <? MAX_NODES_PER_BUCKET then Ok (v ++ [x]) else Panic "CapacityError";
  av_insert A v i x :=
    if (length v <? MAX_NODES_PER_BUCKET) && (i <=? length v) then Ok (take i v ++ x :: drop i v)
    else Panic "CapacityError";
  av_remove A v i := match v !! i with Some x => Ok (x, delete i v) | None => Panic "index out of bounds" end;
}.

#[global] Instance list_av_laws : ArrayVecLaws list.
Proof.
  split; simpl; try done.
  - intros A v x Hlt. rewrite (proj2 (Nat.ltb_lt _ _) Hlt). by eexists.
  - intros A v i x Hlt Hi. rewrite (proj2 (Nat.ltb_lt _ _) Hlt), (proj2 (Nat.leb_le _ _) Hi). by eexists.
  - intros A v i x ->. by eexists.
Qed.

(** ** Runs of a bucket *)

Section BucketRuns.
Context {AV : Type → Type} `{ArrayVec AV} {T V : Type} `{EqDecision V}.
Context (timeout : Z) (flt : option (Filter V)) (limit : nat).

Inductive bucket_op :=
| BInsert (now : Z) (n : Node T V)
| BApplyPending (now : Z)
| BUpdateStatus (now : Z) (k : Key T) (s : ConnectionState) (dir : option ConnectionDirection)
| BUpdateValue (k : Key T) (v : V)
| BUpdatePending (s : NodeStatus)
| BRemove (now : Z) (k : Key T).

Inductive bucket_result :=
| RInsert (r : BucketInsertResult T)
| RApplied (r : option (AppliedPending T V))
| RUpdate (r : UpdateResult)
| RUnit
| RRemoved (r : bool).

Definition exec_bucket_op (o : bucket_op) : st (KBucket AV T V) bucket_result :=
  match o with
  | BInsert now n => let! r := kb_insert now n in st_ret (RInsert r)
  | BApplyPending now => let! r := apply_pending now in st_ret (RApplied r)
  | BUpdateStatus now k s dir => let! r := update_status now k s dir in st_ret (RUpdate r)
  | BUpdateValue k v => let! r := update_value k v in st_ret (RUpdate r)
  | BUpdatePending s => update_pending s ;; st_ret RUnit
  | BRemove now k => let! r := kb_remove now k in st_ret (RRemoved r)
  end.

Fixpoint exec_bucket_ops (os : list bucket_op) : st (KBucket AV T V) (list bucket_result) :=
  match os with
  | [] => st_ret []
  | o :: os => let! r := exec_bucket_op o in let! rs := exec_bucket_ops os in st_ret (r :: rs)
  end.

Definition spec_bucket_op (o : bucket_op) (q : Queues T V) : bucket_result * Queues T V :=
  match o with
  | BInsert now n => let '(r, q) := spec_insert timeout flt limit now n q in (RInsert r, q)
  | BApplyPending now => let '(r, q) := spec_apply_pending timeout flt limit now q in (RApplied r, q)
  | BUpdateStatus now k s dir => let '(r, q) := spec_update_status timeout flt limit now k s dir q in (RUpdate r, q)
  | BUpdateValue k v => let '(r, q) := spec_update_value flt k v q in (RUpdate r, q)
  | BUpdatePending s =>
      (RUnit, MkQueues (disc q) (conn q) ((λ p, MkPending (set_status s (node p)) (replace p)) <$> pend q))
  | BRemove now k => let '(r, q) := spec_remove timeout flt limit now k q in (RRemoved r, q)
  end.

Fixpoint spec_bucket_ops (os : list bucket_op) (q : Queues T V) : list bucket_result * Queues T V :=
  match os with
  | [] => ([], q)
  | o :: os =>
      let '(r, q) := spec_bucket_op o q in
      let '(rs, q) := spec_bucket_ops os q in
      (r :: rs, q)
  end.

End BucketRuns.

Section BucketTheorems.
Context {AV : Type → Type} `{ArrayVecLaws AV} {T V : Type} `{EqDecision V}.
Context (timeout : Z) (flt : option (Filter V)) (limit : nat).
Notation spec_op := (spec_bucket_op timeout flt limit).
Implicit Types (b : KBucket AV T V) (q : Queues T V).

Lemma gives_map {A B} (m : st (KBucket AV T V) A) (g : A → B) b p :
  gives timeout flt limit m b p.1 p.2 →
  gives timeout flt limit (let! r := m in st_ret (g r)) b (let '(r, _) := p in g r)
    (let '(_, q) := p : A * Queues T V in q).
Proof. destruct p as [r q]. intros Hm. eapply gives_bind; [done|]. intros. by apply gives_ret. Qed.

Lemma spec_pair {A B C} (p : A * C) (g : A → B) :
  (let '(r, q) := p in (g r, q)) = (let '(r, _) := p in g r, let '(_, q) := p in q).
Proof. by destruct p. Qed.

Lemma bucket_op_refines o b q : kb_rep timeout flt limit b q → queues_wf limit q →
  gives timeout flt limit (exec_bucket_op o) b (spec_op o q).1 (spec_op o q).2 ∧ queues_wf limit (spec_op o q).2.
Proof.
  intros Hb Hwf. destruct o; simpl; rewrite ?spec_pair; simpl.
  - split; [by apply gives_map, insert_refines|].
    pose proof (spec_insert_wf timeout flt limit now n q Hwf). by destruct (spec_insert _ _ _ _ _ _).
  - split; [by apply gives_map, apply_pending_refines|].
    pose proof (spec_apply_pending_wf timeout flt limit now q Hwf). by destruct (spec_apply_pending _ _ _ _ _).
  - split; [by apply gives_map, update_status_refines|].
    pose proof (spec_update_status_wf timeout flt limit now k s dir q Hwf). by destruct (spec_update_status _ _ _ _ _ _ _ _).
  - split; [by apply gives_map, update_value_refines|].
    pose proof (spec_update_value_wf flt limit k v q Hwf). by destruct (spec_update_value _ _ _ _).
  - split; [eapply gives_bind; [by apply update_pending_refines|]; intros; by apply gives_ret|].
    destruct (pend q) as [p|] eqn:Hp; simpl; [apply wf_set_pending; [done|]; simpl; by apply (wf_pend limit)|].
    apply (wf_part limit q); simpl; auto.
  - split; [by apply gives_map, remove_refines|].
    pose proof (spec_remove_wf timeout flt limit now k q Hwf). by destruct (spec_remove _ _ _ _ _ _).
Qed.

Lemma bucket_ops_refine os b q : kb_rep timeout flt limit b q → queues_wf limit q →
  gives timeout flt limit (exec_bucket_ops os) b (spec_bucket_ops timeout flt limit os q).1
    (spec_bucket_ops timeout flt limit os q).2 ∧ queues_wf limit (spec_bucket_ops timeout flt limit os q).2.
Proof.
  revert b q. induction os as [|o os IH]; intros b q Hb Hwf; simpl; [split; [by apply gives_ret|done]|].
  destruct (bucket_op_refines o b q Hb Hwf) as [Hg Hwf1]. destruct (spec_op o q) as [r q1]; simpl in *.
  pose proof Hg as (b1 & _ & Hb1). destruct (IH b1 q1 Hb1 Hwf1) as [_ Hwf2].
  destruct (spec_bucket_ops timeout flt limit os q1) as [rs q2] eqn:Hq2. simpl in *. split; [|done].
  eapply gives_bind; [done|]. intros b2 Hb2. destruct (IH b2 q1 Hb2 Hwf1) as [Hg2 _]. rewrite Hq2 in Hg2. simpl in Hg2.
  eapply gives_bind; [done|]. intros b3 Hb3. by apply gives_ret.
Qed.

(** C12: a bucket behaves as two queues, the disconnected and the connected nodes
    in the order of their last change of status, with one node that waits:
    for every sequence of operations on a new bucket no panic is reached, the
    results are those of the operations on the queues, and the bucket stores
    the disconnected queue followed by the connected one. Keys are unique, at
    most 16 nodes are stored, at most [limit] of them connected from outside,
    and the waiting node is not stored. *)
Theorem kbucket_refines (os : list (bucket_op (T:=T) (V:=V))) :
  let q := spec_bucket_ops timeout flt limit os (MkQueues [] [] None) in
  ∃ b : KBucket AV T V,
    exec_bucket_ops os (KBucket_new timeout limit flt) = (Ok q.1, b) ∧
    kb_iter b = disc q.2 ++ conn q.2 ∧
    Forall (λ n, state (status n) = Disconnected) (disc q.2) ∧
    Forall (λ n, state (status n) = Connected) (conn q.2) ∧
    num_connected b = length (conn q.2) ∧ pending b = pend q.2 ∧
    NoDup ((λ n, hash (key n)) <$> kb_iter b) ∧
    num_entries b ≤ MAX_NODES_PER_BUCKET ∧
    length (List.filter connected_incoming (kb_iter b)) ≤ limit ∧
    (∀ p, pending b = Some p → ¬ ∃ n, n ∈ kb_iter b ∧ hash (key n) = hash (key (node p))).
Proof.
  intros q. destruct (bucket_ops_refine os (KBucket_new timeout limit flt) (MkQueues [] [] None)) as [(b & He & Hb) Hwf].
  { split; try done. apply av_new_elems. }
  { split; simpl; try done; try constructor; unfold MAX_NODES_PER_BUCKET; lia. }
  exists b. fold q in He, Hb, Hwf. pose proof (rep_nodes _ _ _ _ _ Hb) as Hn.
  split; [done|]. split; [done|]. split; [apply Hwf|]. split; [apply Hwf|]. split.
  { unfold num_connected. rewrite (rep_first _ _ _ _ _ Hb), Hn. unfold first_of, all.
    destruct (conn q.2) as [|c cs]; [done|]. rewrite length_app. lia. }
  split; [apply Hb|]. unfold num_entries. rewrite Hn.
  split; [apply (wf_keys _ _ Hwf)|]. split; [apply (wf_room _ _ Hwf)|]. split; [apply (wf_incoming _ _ Hwf)|].
  intros p Hp. rewrite (rep_pending _ _ _ _ _ Hb) in Hp. intros (n & Hin & Hk). apply (wf_pend _ _ Hwf p Hp).
  rewrite <- Hk. apply list_elem_of_fmap. by exists n.
Qed.

End BucketTheorems.

Definition sample_key (h : Z) : Key unit := MkKey tt h.
Definition sample_node (h : Z) (s : ConnectionState) : Node unit nat :=
  MkNode (sample_key h) 0 (MkNodeStatus Outgoing s).
Definition sample_bucket_ops : list (bucket_op (T:=unit) (V:=nat)) :=
  [BInsert 0 (sample_node 5 Disconnected); BInsert 0 (sample_node 6 Connected);
   BUpdateStatus 1 (sample_key 5) Connected None; BRemove 2 (sample_key 6)].

Lemma kbucket_refines_witness :
  ∃ b : KBucket list unit nat,
    exec_bucket_ops sample_bucket_ops (KBucket_new 10 16 None) =
      (Ok [RInsert Inserted; RInsert Inserted; RUpdate UpdatedAndPromoted; RRemoved true], b) ∧
    kb_iter b = [sample_node 5 Connected].
Proof.
  destruct (kbucket_refines (AV:=list) 10 None 16 sample_bucket_ops) as (b & He & Hn & _).
  exists b. split; [exact He|exact Hn].
Defined.

(** ** The table *)

#[local] Opaque NUM_BUCKETS.

#[global] Instance no_filter_keeps {V} (flt : option (Filter V)) : FilterKeeps flt (λ _, True).
Proof. by split. Qed.

(** A search for the local key itself returns nothing, whatever the table holds:
    the iterator over the buckets starts in its last state. *)
Lemma closest_to_self {AV : Type → Type} `{ArrayVec AV} {T V U : Type} (target : Key U) (t : KBucketsTable AV T V) (now : Z) n :
  hash target = hash (local_key t) →
  ∃ c, closest_collect target key id now (S n) (closest target t) = (Ok [], c).
Proof.
  intros Heq. unfold closest. assert (key_distance (local_key t) target = 0%Z) as -> by by apply distance_zero.
  by eexists.
Qed.

Section TableTheorems.
Context {AV : Type → Type} `{ArrayVecLaws AV} {T V : Type} `{EqDecision V}.

(** C26: every sequence of operations on a new routing table runs without a panic
    and leaves a table in which each node is in the bucket of its distance to
    the local key (bucket [i] holds the keys at logarithmic distance [i + 1]),
    no key occurs twice, no bucket has more than 16 nodes or more than [limit]
    connected incoming ones. *)
Theorem kbuckets_placement (local : Key T) timeout limit tf bf (ops : list (table_op (T:=T) (V:=V))) :
  hash_ok local → Forall (λ o, Forall hash_ok (op_keys o)) ops →
  ∃ t : KBucketsTable AV T V,
    st_for ops exec_table_op (KBucketsTable_new local timeout limit tf bf) = (Ok tt, t) ∧
    NoDup ((λ n, hash (key n)) <$> iter_ref t) ∧
    ∀ i b, buckets t !! i = Some b →
      num_entries b ≤ MAX_NODES_PER_BUCKET ∧
      length (List.filter connected_incoming (kb_iter b)) ≤ limit ∧
      ∀ n, n ∈ kb_iter b → log2_distance local (key n) = Some (Z.of_nat i + 1)%Z.
Proof.
  intros Hl Hops.
  destruct (exec_table_ops_safe timeout bf limit (λ _, True) local Hl ops Hops _
              (table_new_ok timeout bf limit (λ _, True) local tf)) as ([] & t & He & Ht & _).
  exists t. split; [done|]. split.
  - apply (concat_keys_nodup timeout bf limit (λ _, True) local (buckets t) 0).
    intros i b Hb. by apply (ok_bucket _ _ _ _ _ t Ht).
  - intros i b Hb. destruct (ok_bucket _ _ _ _ _ t Ht i b Hb) as (q & Hq & Hwf & _).
    unfold num_entries. split; [rewrite (rep_nodes _ _ _ _ _ Hq); apply (wf_room _ _ Hwf)|].
    split; [rewrite (rep_nodes _ _ _ _ _ Hq); apply (wf_incoming _ _ Hwf)|].
    intros n Hn. destruct (table_keys _ _ _ _ _ t i b n Ht Hb Hn) as [Hh Hi].
    rewrite log2_distance_index by done. unfold key_distance. by rewrite Hi.
Qed.

(** C22: the search for the nodes closest to a target returns, on every table
    reached by operations, and lists the keys by increasing distance to the
    target. For a target other than the local key these are the keys of the
    nodes that [iter()] lists, each exactly once when the last bits of the target
    and the local key agree; a search for the local key lists nothing. *)
Theorem closest_keys_ordered (local : Key T) timeout limit tf bf (ops : list (table_op (T:=T) (V:=V)))
    {U} (target : Key U) (now : Z) (fuel : nat) :
  hash_ok local → Forall (λ o, Forall hash_ok (op_keys o)) ops →
  hash_ok target → 2 * NUM_BUCKETS * MAX_NODES_PER_BUCKET < fuel →
  ∃ (t : KBucketsTable AV T V) t' ks ns c,
    st_for ops exec_table_op (KBucketsTable_new local timeout limit tf bf) = (Ok tt, t) ∧
    table_iter_mut now t = (Ok ns, t') ∧
    closest_collect target key id now fuel (closest target t) = (Ok ks, c) ∧
    StronglySorted (λ a b, key_distance target a ≤ key_distance target b)%Z ks ∧
    if decide (hash target = hash local) then ks = []
    else (∀ n, n ∈ ns → key n ∈ ks) ∧ (∀ k, k ∈ ks → ∃ n, n ∈ ns ∧ k = key n) ∧
         (Z.testbit (key_distance local target) 0 = false → Permutation ks (key <$> ns)).
Proof.
  intros Hl Hops Htg Hfuel.
  destruct (exec_table_ops_safe timeout bf limit (λ _, True) local Hl ops Hops _
              (table_new_ok timeout bf limit (λ _, True) local tf)) as ([] & t & He & Ht & _).
  destruct (iter_mut_nodes timeout bf limit (λ _, True) local now t Ht) as (t' & Hit & _).
  destruct (decide (hash target = hash local)) as [Heq|Hne].
  { destruct (closest_to_self target t now (pred fuel)) as [c Hc].
    { by rewrite Heq, (ok_local _ _ _ _ _ t Ht). }
    exists t, t', [], (all_nodes now t), c. replace (S (pred fuel)) with fuel in Hc by lia. split_and!; [done..|constructor|done]. }
  pose proof (search_length timeout bf limit (λ _, True) local Hl target key id now t Ht Htg Hne) as Hlen.
  destruct (closest_search timeout bf limit (λ _, True) local Hl target key id now t fuel Ht Htg Hne ltac:(lia))
    as (c & Hc & _).
  exists t, t', (search local target key id now t), (all_nodes now t), c.
  split; [done|]. split; [done|]. split; [done|]. split.
  { by apply (search_sorted timeout bf limit (λ _, True) local Hl target key id now). }
  split; [intros n Hn; by apply (search_complete local Hl target key id now t n)|]. split.
  - intros k Hk. apply search_sound in Hk as (n & -> & i & Hn). exists n. split; [|done].
    apply list_elem_of_In, in_flat_map. exists i. split; [|by apply list_elem_of_In]. apply in_seq.
    unfold nodes_at in Hn. destruct (buckets t !! i) eqn:Hb; [|by apply elem_of_nil in Hn].
    apply lookup_lt_Some in Hb. rewrite (ok_buckets _ _ _ _ _ t Ht) in Hb. lia.
  - intros H0. by apply (search_perm local Hl target key id now).
Qed.

End TableTheorems.

#[local] Transparent NUM_BUCKETS.

Definition sample_local : Key unit := sample_key 0.
Definition sample_table_ops : list (table_op (T:=unit) (V:=nat)) :=
  [InsertOrUpdate 0 (sample_key 5) 1 (MkNodeStatus Outgoing Connected);
   InsertOrUpdate 0 (sample_key 1) 2 (MkNodeStatus Incoming Disconnected);
   InsertOrUpdate 0 (sample_key 6) 3 (MkNodeStatus Outgoing Connected);
   UpdateNodeStatus 1 (sample_key 1) Connected None].

Lemma sample_table_ops_ok : Forall (λ o, Forall hash_ok (op_keys o)) sample_table_ops.
Proof. repeat constructor; unfold hash_ok; simpl; lia. Qed.

Lemma kbuckets_placement_witness :
  ∃ t : KBucketsTable list unit nat,
    st_for sample_table_ops exec_table_op (KBucketsTable_new sample_local 10 16 None None) = (Ok tt, t) ∧
    NoDup ((λ n, hash (key n)) <$> iter_ref t).
Proof.
  destruct (kbuckets_placement (AV:=list) sample_local 10 16 None None sample_table_ops) as (t & He & Hn & _).
  - unfold hash_ok. simpl. lia.
  - apply sample_table_ops_ok.
  - exists t. split; [exact He|exact Hn].
Defined.

Lemma closest_keys_ordered_witness :
  ∃ (t : KBucketsTable list unit nat) t' ks ns c,
    st_for sample_table_ops exec_table_op (KBucketsTable_new sample_local 10 16 None None) = (Ok tt, t) ∧
    table_iter_mut 2 t = (Ok ns, t') ∧
    closest_collect (sample_key 4) key id 2 (2 * NUM_BUCKETS * MAX_NODES_PER_BUCKET + 1) (closest (sample_key 4) t) = (Ok ks, c) ∧
    Permutation ks (key <$> ns).
Proof.
  destruct (closest_keys_ordered (AV:=list) sample_local 10 16 None None sample_table_ops (sample_key 4) 2
              (2 * NUM_BUCKETS * MAX_NODES_PER_BUCKET + 1)) as (t & t' & ks & ns & c & He & Hi & Hc & _ & Hp).
  - unfold hash_ok. simpl. lia.
  - apply sample_table_ops_ok.
  - unfold hash_ok. simpl. lia.
  - lia.
  - rewrite decide_False in Hp by done. destruct Hp as (_ & _ & Hp). exists t, t', ks, ns, c. split; [exact He|]. split; [exact Hi|]. split; [exact Hc|]. apply Hp. reflexivity.
Defined.

(** When the lowest bit of the distance is set bucket 0 is visited twice, so the
    search of a target with an odd distance lists the key of bucket 0 twice. *)
Theorem bucket_zero_listed_twice :
  ∃ (t : KBucketsTable list unit nat) c,
    st_for sample_table_ops exec_table_op (KBucketsTable_new sample_local 10 16 None None) = (Ok tt, t) ∧
    closest_collect (sample_key 5) key id 2 10 (closest (sample_key 5) t) =
      (Ok [sample_key 5; sample_key 6; sample_key 1; sample_key 1], c).
Proof.
  eexists _, _. split; [vm_compute; reflexivity|vm_compute; reflexivity].
Qed.

(** ** Subnets *)

Section Subnets.
Context {Enr : Type} `{EqDecision Enr} (ip : Enr → option (Z * Z * Z * Z)).

(** [v] has an address in the /24 subnet of [s]. *)
Definition in_subnet (s : Z * Z * Z * Z) (v : Enr) : Prop := ∃ a, ip v = Some a ∧ same_subnet a s = true.

(** At most [limit] different values in each subnet. *)
Definition subnet_limit (limit : nat) (l : list Enr) : Prop :=
  ∀ s vs, NoDup vs → (∀ v, v ∈ vs → v ∈ l ∧ in_subnet s v) → length vs ≤ limit.

Lemma same_subnet_sym a b : same_subnet a b = true → same_subnet b a = true.
Proof. destruct a as [[[a1 a2] a3] a4], b as [[[b1 b2] b3] b4]. simpl. rewrite !andb_true_iff, !Z.eqb_eq. naive_solver. Qed.
Lemma same_subnet_trans a b c : same_subnet a b = true → same_subnet b c = true → same_subnet a c = true.
Proof.
  destruct a as [[[a1 a2] a3] a4], b as [[[b1 b2] b3] b4], c as [[[c1 c2] c3] c4]. simpl.
  rewrite !andb_true_iff, !Z.eqb_eq. naive_solver.
Qed.

(** The other values in the subnet of [addr], as the filter counts them. *)
Definition counted (v : Enr) (addr : Z * Z * Z * Z) (x : Enr) : bool :=
  bool_decide (x ≠ v) && match ip x with Some a => same_subnet a addr | None => false end.

Lemma ip_filter_loop_count v addr limit count l : count < limit → ip_filter_loop ip v addr limit count l = true →
  count + length (List.filter (counted v addr) l) < limit.
Proof.
  revert count. induction l as [|x l IH]; intros count Hc; simpl; [lia|]. unfold counted at 1.
  destruct (decide (x = v)) as [->|Hne].
  - rewrite bool_decide_eq_false_2 by naive_solver. simpl. by apply IH.
  - rewrite bool_decide_eq_true_2 by done. simpl.
    destruct (ip x) as [a|]; [destruct (same_subnet a addr)|]; simpl.
    + destruct (limit <=? S count) eqn:Hle; [done|]. apply Nat.leb_gt in Hle. intros Hl. specialize (IH _ Hle Hl). lia.
    + destruct (limit <=? count) eqn:Hle; [done|]. by apply IH.
    + destruct (limit <=? count) eqn:Hle; [done|]. by apply IH.
Qed.

Lemma ip_filter_keeps limit : 0 < limit → FilterKeeps (Some (ip_filter ip limit)) (subnet_limit limit).
Proof.
  intros Hlim. split.
  - intros s vs _ Hvs. destruct vs as [|v vs]; [simpl; lia|]. destruct (Hvs v) as [Hv _]; [by left|]. by apply elem_of_nil in Hv.
  - intros l l' Hsub Hl s vs Hnd Hvs. apply (Hl s vs Hnd). intros v Hv. destruct (Hvs v Hv) as [? ?]. split; [|done].
    eapply elem_of_submseteq; done.
  - intros v l Hf Hl s vs Hnd Hvs. destruct (decide (v ∈ vs)) as [Hv|Hv].
    2:{ apply (Hl s vs Hnd). intros x Hx. destruct (Hvs x Hx) as [[->|?]%elem_of_cons ?]; done. }
    apply list_elem_of_split in Hv as (l1 & l2 & ->).
    assert (Permutation (l1 ++ v :: l2) (v :: l1 ++ l2)) as Hp by solve_Permutation.
    rewrite Hp in *. apply NoDup_cons in Hnd as [Hnv Hnd].
    assert (∀ x, x ∈ v :: l1 ++ l2 → x ∈ v :: l ∧ in_subnet s x) as Hvs' by (intros x Hx; apply Hvs; by rewrite Hp).
    destruct (Hvs' v) as [_ (addr & Hip & Hs)]; [by left|]. unfold ip_filter in Hf. rewrite Hip in Hf.
    apply ip_filter_loop_count in Hf; [|done]. simpl in *. cut (length (l1 ++ l2) ≤ length (List.filter (counted v addr) l)); [lia|].
    apply submseteq_length, NoDup_submseteq; [done|]. intros x Hx. apply list_elem_of_In, List.filter_In.
    destruct (Hvs' x) as [[->|Hxl]%elem_of_cons (a & Hia & Ha)]; [by right|done|]. split; [by apply list_elem_of_In|].
    unfold counted. rewrite bool_decide_eq_true_2 by (intros ->; done). rewrite Hia. simpl.
    eapply same_subnet_trans; [done|]. by apply same_subnet_sym.
Qed.

Context {AV : Type → Type} `{ArrayVecLaws AV} {T : Type}.

(** In a routing table whose buckets use the filter on IP addresses, no
    sequence of operations puts more than two different records with an
    address in one /24 subnet into one bucket, pending nodes and changed
    records included. *)
Theorem subnet_limit_per_bucket (local : Key T) timeout limit tf (ops : list (table_op (T:=T) (V:=Enr))) :
  hash_ok local → Forall (λ o, Forall hash_ok (op_keys o)) ops →
  ∃ t : KBucketsTable AV T Enr,
    st_for ops exec_table_op (KBucketsTable_new local timeout limit tf (Some (IpBucketFilter ip))) = (Ok tt, t) ∧
    ∀ i b s vs, buckets t !! i = Some b → NoDup vs →
      (∀ v, v ∈ vs → v ∈ value <$> kb_iter b ∧ in_subnet s v) → length vs ≤ MAX_NODES_PER_SUBNET_BUCKET.
Proof.
  intros Hl Hops. assert (FilterKeeps (Some (IpBucketFilter ip)) (subnet_limit MAX_NODES_PER_SUBNET_BUCKET)) as Hf
    by (apply ip_filter_keeps; unfold MAX_NODES_PER_SUBNET_BUCKET; lia).
  destruct (exec_table_ops_safe timeout (Some (IpBucketFilter ip)) limit _ local Hl ops Hops _
              (table_new_ok timeout (Some (IpBucketFilter ip)) limit _ local tf)) as ([] & t & He & Ht & _).
  exists t. split; [done|]. intros i b s vs Hb Hnd Hvs.
  destruct (ok_bucket _ _ _ _ _ t Ht i b Hb) as (q & Hq & _ & Hh). rewrite (rep_nodes _ _ _ _ _ Hq) in Hvs.
  by apply (holds_values _ _ _ Hh s vs).
Qed.

End Subnets.

Definition sample_ip (v : Z) : option (Z * Z * Z * Z) := Some (10, 0, 0, v)%Z.
Definition sample_subnet_ops : list (table_op (T:=unit) (V:=Z)) :=
  (λ i, InsertOrUpdate 0 (sample_key (16 + i)) i (MkNodeStatus Outgoing Connected)) <$> [0; 1; 2; 3]%Z.

Lemma subnet_limit_per_bucket_witness :
  ∃ t : KBucketsTable list unit Z,
    st_for sample_subnet_ops exec_table_op
      (KBucketsTable_new sample_local 10 16 None (Some (IpBucketFilter sample_ip))) = (Ok tt, t) ∧
    num_entries <$> buckets t !! 4 = Some 2 ∧
    ∀ b s vs, buckets t !! 4 = Some b → NoDup vs →
      (∀ v, v ∈ vs → v ∈ value <$> kb_iter b ∧ in_subnet sample_ip s v) → length vs ≤ 2.
Proof.
  destruct (subnet_limit_per_bucket (AV:=list) sample_ip sample_local 10 16 None sample_subnet_ops) as (t & He & Ht).
  - unfold hash_ok. simpl. lia.
  - repeat constructor; unfold hash_ok; simpl; lia.
  - exists t. split; [exact He|]. split; [|intros b s vs; apply Ht].
    assert (num_entries <$> buckets (st_for sample_subnet_ops exec_table_op
      (KBucketsTable_new (AV:=list) sample_local 10 16 None (Some (IpBucketFilter sample_ip)))).2 !! 4 = Some 2) as Hn
      by (vm_compute; reflexivity).
    rewrite He in Hn. exact Hn.
Defined.
