(* ===== verification/PeerScore.v ===== *)
(** * Scores of peers

    Model of [node/network/src/peer_manager/peerdb/score.rs].  An [f64] is the
    IEEE 754 number of [SpecFloat] with a 53 bit mantissa, an [f32] one with 24
    bits, operations rounding to nearest.  [f64::exp] is a parameter.  An
    [Instant] is a number of nanoseconds. *)

From Stdlib Require Import SpecFloat.
From S2P Require Import Prelude.
#[local] Open Scope Z_scope.

(** ** Floating point numbers *)

Notation f64 := spec_float.
Definition f64_add : f64 → f64 → f64 := SFadd 53 1024.
Definition f64_mul : f64 → f64 → f64 := SFmul 53 1024.
Definition f64_div : f64 → f64 → f64 := SFdiv 53 1024.
Definition f64_of (z : Z) : f64 := binary_normalize 53 1024 z 0 false.

Notation f32 := spec_float.
Definition f32_add : f32 → f32 → f32 := SFadd 24 128.
Definition f32_mul : f32 → f32 → f32 := SFmul 24 128.
Definition f32_div : f32 → f32 → f32 := SFdiv 24 128.
Definition f32_of (z : Z) : f32 := binary_normalize 24 128 z 0 false.

(** [x.ceil() as usize]: saturating, NaN gives 0. *)
Definition ceil_as_usize (x : f32) : Z :=
  match x with
  | S754_finite false m e =>
      Z.min (2 ^ 64 - 1) (if 0 <=? e then Z.pos m * 2 ^ e else - ((- Z.pos m) / 2 ^ (- e)))
  | S754_infinity false => 2 ^ 64 - 1
  | _ => 0
  end.

(** The decimal constants of the sources. *)
Definition f32_tenths (n : Z) : f32 := f32_div (f32_of n) (f32_of 10).

(** ** Scores *)

Definition DEFAULT_SCORE : f64 := f64_of 0.
Definition MIN_SCORE_BEFORE_DISCONNECT : f64 := f64_of (-20).
Definition MIN_SCORE_BEFORE_BAN : f64 := f64_of (-50).
Definition MIN_LIGHTHOUSE_SCORE_BEFORE_BAN : f64 := f64_of (-60).
Definition MAX_SCORE : f64 := f64_of 100.
Definition MIN_SCORE : f64 := f64_of (-100).
Definition as_secs (d : Z) : Z := d / 1000000000.
Definition from_secs (n : Z) : Z := n * 1000000000.

Definition BANNED_BEFORE_DECAY : Z := from_secs (12 * 3600).
Definition GOSSIPSUB_GREYLIST_THRESHOLD : f64 := f64_of (-16000).
Definition GOSSIPSUB_NEGATIVE_SCORE_WEIGHT : f64 :=
  f64_div (f64_add MIN_SCORE_BEFORE_DISCONNECT (f64_of 1)) GOSSIPSUB_GREYLIST_THRESHOLD.
Definition GOSSIPSUB_POSITIVE_SCORE_WEIGHT : f64 := GOSSIPSUB_NEGATIVE_SCORE_WEIGHT.

Inductive PeerAction := Fatal | LowToleranceError | MidToleranceError | HighToleranceError.

Inductive ScoreState := SHealthy | SDisconnected | SBanned.

#[global] Instance ScoreState_eq_dec : EqDecision ScoreState.
Proof. solve_decision. Defined.

Record RealScore := MkRealScore {
  lighthouse_score : f64;
  gossipsub_score : f64;
  ignore_negative_gossipsub_score : bool;
  real_score : f64;
  last_updated : Z;
}.

Definition RealScore_default (now : Z) : RealScore := MkRealScore DEFAULT_SCORE DEFAULT_SCORE false DEFAULT_SCORE now.

Definition set_last_updated t s :=
  MkRealScore (lighthouse_score s) (gossipsub_score s) (ignore_negative_gossipsub_score s) (real_score s) t.

Definition recompute_score (s : RealScore) : RealScore :=
  let score := lighthouse_score s in
  let score :=
    if SFleb (lighthouse_score s) MIN_LIGHTHOUSE_SCORE_BEFORE_BAN then score
    else if SFleb (f64_of 0) (gossipsub_score s)
    then f64_add score (f64_mul (gossipsub_score s) GOSSIPSUB_POSITIVE_SCORE_WEIGHT)
    else if negb (ignore_negative_gossipsub_score s)
    then f64_add score (f64_mul (gossipsub_score s) GOSSIPSUB_NEGATIVE_SCORE_WEIGHT)
    else score in
  MkRealScore (lighthouse_score s) (gossipsub_score s) (ignore_negative_gossipsub_score s) score (last_updated s).

(** [RealScore::update_state] *)
Definition score_update_state (s : RealScore) : RealScore :=
  let was_not_banned := SFltb MIN_SCORE_BEFORE_BAN (real_score s) in
  let s := recompute_score s in
  if was_not_banned && SFleb (real_score s) MIN_SCORE_BEFORE_BAN
  then set_last_updated (last_updated s + BANNED_BEFORE_DECAY) s else s.

Definition set_lighthouse_score (new_score : f64) (s : RealScore) : RealScore :=
  score_update_state (MkRealScore new_score (gossipsub_score s) (ignore_negative_gossipsub_score s)
                        (real_score s) (last_updated s)).

Definition score_add (x : f64) (s : RealScore) : RealScore :=
  let new_score := f64_add (lighthouse_score s) x in
  let new_score := if SFltb MAX_SCORE new_score then MAX_SCORE else new_score in
  let new_score := if SFltb new_score MIN_SCORE then MIN_SCORE else new_score in
  set_lighthouse_score new_score s.

Definition real_apply_peer_action (a : PeerAction) (s : RealScore) : RealScore :=
  match a with
  | Fatal => set_lighthouse_score MIN_SCORE s
  | LowToleranceError => score_add (f64_of (-10)) s
  | MidToleranceError => score_add (f64_of (-5)) s
  | HighToleranceError => score_add (f64_of (-1)) s
  end.

Section Decay.
(** [f64::exp], and the constant [HALFLIFE_DECAY], [-ln 2 / 600]. *)
Context (exp : f64 → f64) (HALFLIFE_DECAY : f64).

Definition update_at (now : Z) (s : RealScore) : RealScore :=
  if last_updated s <=? now then
    let decay_factor := exp (f64_mul HALFLIFE_DECAY (f64_of (as_secs (now - last_updated s)))) in
    score_update_state (MkRealScore (f64_mul (lighthouse_score s) decay_factor) (gossipsub_score s)
                          (ignore_negative_gossipsub_score s) (real_score s) now)
  else s.

End Decay.

Definition real_update_gossipsub_score (now : Z) (new_score : f64) (ignore : bool) (s : RealScore) : RealScore :=
  if last_updated s <=? now
  then score_update_state (MkRealScore (lighthouse_score s) new_score ignore (real_score s) (last_updated s))
  else s.

Inductive Score := Max | Real (s : RealScore).

Definition Score_default (now : Z) : Score := Real (RealScore_default now).

Definition score_value (s : Score) : f64 := match s with Max => S754_infinity false | Real s => real_score s end.

(** The macro [apply!]: trusted peers keep the maximal score. *)
Definition on_real (f : RealScore → RealScore) (s : Score) : Score :=
  match s with Max => Max | Real s => Real (f s) end.

(** [Score::state] *)
Definition score_state_of (s : Score) : ScoreState :=
  let x := score_value s in
  if SFleb x MIN_SCORE_BEFORE_BAN then SBanned
  else if SFleb x MIN_SCORE_BEFORE_DISCONNECT then SDisconnected
  else SHealthy.

(** ** Facts *)

(** The worst score bans, whatever the other parts of the score are. *)
Lemma fatal_bans s : score_state_of (Real (real_apply_peer_action Fatal s)) = SBanned.
Proof.
  unfold real_apply_peer_action, set_lighthouse_score, score_update_state, recompute_score.
  unfold score_state_of, score_value. cbn [lighthouse_score gossipsub_score ignore_negative_gossipsub_score real_score].
  assert (SFleb MIN_SCORE MIN_LIGHTHOUSE_SCORE_BEFORE_BAN = true) as -> by reflexivity.
  destruct (_ && _); reflexivity.
Qed.

Lemma max_healthy : score_state_of Max = SHealthy.
Proof. reflexivity. Qed.

(** Five errors of low tolerance ban a new peer, four do not. *)
Lemma low_tolerance_bans now :
  let s n := Nat.iter n (real_apply_peer_action LowToleranceError) (RealScore_default now) in
  score_state_of (Real (s 4%nat)) = SDisconnected ∧ score_state_of (Real (s 5%nat)) = SBanned.
Proof. split; reflexivity. Qed.

(** A number above another is not at or below it. *)
Lemma above_not_below x y : SFltb x y = true → SFleb y x = false.
Proof.
  unfold SFltb, SFleb. destruct x as [[]|[]| |[] m e], y as [[]|[]| |[] m' e']; cbn; try done;
    rewrite (Z.compare_antisym e e'); destruct (e ?= e'); cbn; try done;
    pose proof (Pos.compare_antisym m m') as Hm; unfold Pos.compare in Hm; rewrite Hm;
    by destruct (Pos.compare_cont Eq m m').
Qed.
