(* ===== verification/PeerDB.v ===== *)
(** * The database of peers

    Model of [node/network/src/peer_manager/peerdb.rs], with the connection
    states of [peerdb/peer_info.rs] and the synchronisation status of
    [peerdb/sync_status.rs].

    The map of peers is a [gmap], iterated in the order of [map_to_list]; the
    order of a [HashMap] is not specified.  [now] is the clock.  Counters are
    natural numbers: each is bounded by the number of entries of a map.  The
    client and the listening addresses of a peer, which nothing reads here, are
    left out of [PeerInfo]. *)

From Stdlib Require Import SpecFloat.
From S2P Require Import Prelude PeerScore.

Definition MAX_DC_PEERS : nat := 500.
Definition MAX_BANNED_PEERS : nat := 1000.
Definition BANNED_PEERS_PER_IP_THRESHOLD : nat := 5.
Definition DIAL_TIMEOUT : Z := 15.

(** ** Data *)

Inductive ConnectionDirection := Incoming | Outgoing.

Inductive PeerConnectionStatus :=
| Connected (n_in n_out : Z)
| Disconnecting (to_ban : bool)
| Disconnected (since : Z)
| Banned (since : Z)
| Dialing (since : Z)
| Unknown.

Inductive SyncStatus (H : Type) :=
| Synced (head_root finalized_root : H)
| Advanced (head_root finalized_root : H)
| Behind (head_root finalized_root : H)
| IrrelevantPeer
| SyncUnknown.
Arguments Synced {H}.
Arguments Advanced {H}.
Arguments Behind {H}.
Arguments IrrelevantPeer {H}.
Arguments SyncUnknown {H}.

(** [PartialEq for SyncStatus] ignores the roots. *)
Definition sync_status_eqb {H} (a b : SyncStatus H) : bool :=
  match a, b with
  | Synced _ _, Synced _ _ | Advanced _ _, Advanced _ _ | Behind _ _, Behind _ _
  | IrrelevantPeer, IrrelevantPeer | SyncUnknown, SyncUnknown => true
  | _, _ => false
  end.

(** The protocols of a [Multiaddr] that are read. *)
Inductive Protocol (Ip : Type) := PIp4 (ip : Ip) | PIp6 (ip : Ip) | PTcp (port : Z) | POther.
Arguments PIp4 {Ip}.
Arguments PIp6 {Ip}.
Arguments PTcp {Ip}.
Arguments POther {Ip}.

Record PeerInfo (Ip H Enr : Type) `{Countable Ip} := MkPeerInfo {
  info_score : Score;
  connection_status : PeerConnectionStatus;
  seen_addresses : gset (Ip * Z);
  sync_status : SyncStatus H;
  min_ttl : option Z;
  is_trusted : bool;
  connection_direction : option ConnectionDirection;
  enr : option Enr;
}.
Arguments MkPeerInfo {Ip H Enr _ _}.
Arguments info_score {Ip H Enr _ _}.
Arguments connection_status {Ip H Enr _ _}.
Arguments seen_addresses {Ip H Enr _ _}.
Arguments sync_status {Ip H Enr _ _}.
Arguments min_ttl {Ip H Enr _ _}.
Arguments is_trusted {Ip H Enr _ _}.
Arguments connection_direction {Ip H Enr _ _}.
Arguments enr {Ip H Enr _ _}.

Inductive NewConnectionState (Ip Enr : Type) :=
| NewConnected (enr : option Enr) (seen_address : list (Protocol Ip)) (dir : ConnectionDirection)
| NewDisconnecting (to_ban : bool)
| NewDialing (enr : option Enr)
| NewDisconnected
| NewBanned
| NewUnbanned.
Arguments NewConnected {Ip Enr}.
Arguments NewDisconnecting {Ip Enr}.
Arguments NewDialing {Ip Enr}.
Arguments NewDisconnected {Ip Enr}.
Arguments NewBanned {Ip Enr}.
Arguments NewUnbanned {Ip Enr}.

Inductive ScoreTransitionResult := STDisconnected | STBanned | STUnbanned | STNoAction.

Inductive BanOperation (Ip : Type) := DisconnectThePeer | ReadyToBan (ips : list Ip) | PeerDisconnecting.
Arguments DisconnectThePeer {Ip}.
Arguments ReadyToBan {Ip}.
Arguments PeerDisconnecting {Ip}.

Inductive ScoreUpdateResult (Ip : Type) :=
| UBan (op : BanOperation Ip) | UDisconnect | UUnbanned (ips : list Ip) | UNoAction.
Arguments UBan {Ip}.
Arguments UDisconnect {Ip}.
Arguments UUnbanned {Ip}.
Arguments UNoAction {Ip}.

Inductive BanResult (Ip : Type) := BadScore | BannedIp (ip : Ip) | NotBanned.
Arguments BadScore {Ip}.
Arguments BannedIp {Ip}.
Arguments NotBanned {Ip}.

Record BannedPeersCount (Ip : Type) `{Countable Ip} := MkBannedCount {
  banned_peers : nat;
  banned_peers_per_ip : gmap Ip nat;
}.
Arguments MkBannedCount {Ip _ _}.
Arguments banned_peers {Ip _ _}.
Arguments banned_peers_per_ip {Ip _ _}.

Record PeerDB (P Ip H Enr : Type) `{Countable P} `{Countable Ip} := MkPeerDB {
  peers : gmap P (PeerInfo Ip H Enr);
  disconnected_peers : nat;
  banned_peers_count : BannedPeersCount Ip;
}.
Arguments MkPeerDB {P Ip H Enr _ _ _ _}.
Arguments peers {P Ip H Enr _ _ _ _}.
Arguments disconnected_peers {P Ip H Enr _ _ _ _}.
Arguments banned_peers_count {P Ip H Enr _ _ _ _}.

Section PeerDB.
Context {P Ip H Enr : Type} `{Countable P} `{Countable Ip}.
Context (exp : f64 → f64) (HALFLIFE_DECAY : f64).
Notation PeerInfo := (PeerInfo Ip H Enr).
Notation PeerDB := (PeerDB P Ip H Enr).
Notation BannedPeersCount := (BannedPeersCount Ip).

(** ** [PeerInfo] *)

Definition PeerInfo_default (now : Z) : PeerInfo :=
  MkPeerInfo (Score_default now) Unknown ∅ SyncUnknown None false None None.
Definition trusted_peer_info : PeerInfo := MkPeerInfo Max Unknown ∅ SyncUnknown None true None None.

Definition set_score s (i : PeerInfo) : PeerInfo :=
  MkPeerInfo s (connection_status i) (seen_addresses i) (sync_status i) (min_ttl i) (is_trusted i)
    (connection_direction i) (enr i).
Definition set_connection_status c (i : PeerInfo) : PeerInfo :=
  MkPeerInfo (info_score i) c (seen_addresses i) (sync_status i) (min_ttl i) (is_trusted i)
    (connection_direction i) (enr i).
Definition set_sync_status s (i : PeerInfo) : PeerInfo :=
  MkPeerInfo (info_score i) (connection_status i) (seen_addresses i) s (min_ttl i) (is_trusted i)
    (connection_direction i) (enr i).
Definition set_min_ttl t (i : PeerInfo) : PeerInfo :=
  MkPeerInfo (info_score i) (connection_status i) (seen_addresses i) (sync_status i) (Some t) (is_trusted i)
    (connection_direction i) (enr i).
Definition set_enr e (i : PeerInfo) : PeerInfo :=
  MkPeerInfo (info_score i) (connection_status i) (seen_addresses i) (sync_status i) (min_ttl i) (is_trusted i)
    (connection_direction i) (Some e).
Definition set_enr_if (e : option Enr) (i : PeerInfo) : PeerInfo :=
  match e with Some e => set_enr e i | None => i end.

(** [seen_ip_addresses()]: one address for each socket address. *)
Definition seen_ip_addresses (i : PeerInfo) : list Ip := fst <$> elements (seen_addresses i).

Definition info_score_state (i : PeerInfo) : ScoreState := score_state_of (info_score i).

Definition info_is_connected (i : PeerInfo) : bool :=
  match connection_status i with Connected _ _ => true | _ => false end.
Definition info_is_dialing (i : PeerInfo) : bool :=
  match connection_status i with Dialing _ => true | _ => false end.
Definition info_is_banned (i : PeerInfo) : bool :=
  match connection_status i with Banned _ => true | _ => false end.
Definition info_is_disconnected (i : PeerInfo) : bool :=
  match connection_status i with Disconnected _ => true | _ => false end.
Definition info_is_outbound_only (i : PeerInfo) : bool :=
  match connection_status i with Connected n_in n_out => (n_in =? 0)%Z && (0 <? n_out)%Z | _ => false end.
Definition has_future_duty (now : Z) (i : PeerInfo) : bool :=
  match min_ttl i with Some t => (now <=? t)%Z | None => false end.

Definition update_sync_status (s : SyncStatus H) (i : PeerInfo) : bool * PeerInfo :=
  (negb (sync_status_eqb (sync_status i) s), set_sync_status s i).

Definition score_update (now : Z) (i : PeerInfo) : PeerInfo :=
  if is_trusted i then i else set_score (on_real (update_at exp HALFLIFE_DECAY now) (info_score i)) i.
Definition apply_peer_action_to_score (a : PeerAction) (i : PeerInfo) : PeerInfo :=
  if is_trusted i then i else set_score (on_real (real_apply_peer_action a) (info_score i)) i.
Definition info_update_gossipsub_score (now : Z) (x : f64) (ignore : bool) (i : PeerInfo) : PeerInfo :=
  set_score (on_real (real_update_gossipsub_score now x ignore) (info_score i)) i.

(** The error of [set_dialing_peer] is only logged. *)
Definition set_dialing_peer (now : Z) (i : PeerInfo) : PeerInfo :=
  match connection_status i with
  | Connected _ _ | Dialing _ | Disconnecting _ => i
  | Disconnected _ | Banned _ | Unknown => set_connection_status (Dialing now) i
  end.

Definition add_seen (a : option (Ip * Z)) (i : PeerInfo) : PeerInfo :=
  match a with
  | Some a => MkPeerInfo (info_score i) (connection_status i) ({[a]} ∪ seen_addresses i) (sync_status i)
                (min_ttl i) (is_trusted i) (connection_direction i) (enr i)
  | None => i
  end.
Definition set_direction d (i : PeerInfo) : PeerInfo :=
  MkPeerInfo (info_score i) (connection_status i) (seen_addresses i) (sync_status i) (min_ttl i) (is_trusted i)
    (Some d) (enr i).

(** The number of connections is a [u8]. *)
Definition u8_succ (n : Z) : res Z :=
  if (n <? 255)%Z then Ok (n + 1)%Z else Panic "attempt to add with overflow".

Definition info_connect_ingoing (seen_address : option (Ip * Z)) (i : PeerInfo) : res PeerInfo :=
  let? i := match connection_status i with
            | Connected n_in n_out => let? n := u8_succ n_in in Ok (set_connection_status (Connected n n_out) i)
            | _ => Ok (set_direction Incoming (set_connection_status (Connected 1 0) i))
            end in
  Ok (add_seen seen_address i).
Definition info_connect_outgoing (seen_address : option (Ip * Z)) (i : PeerInfo) : res PeerInfo :=
  let? i := match connection_status i with
            | Connected n_in n_out => let? n := u8_succ n_out in Ok (set_connection_status (Connected n_in n) i)
            | _ => Ok (set_direction Outgoing (set_connection_status (Connected 0 1) i))
            end in
  Ok (add_seen seen_address i).

(** ** [BannedPeersCount] *)

Definition add_banned_peer (ips : list Ip) (c : BannedPeersCount) : BannedPeersCount :=
  MkBannedCount (S (banned_peers c))
    (foldl (λ m ip, <[ip := S (default 0 (m !! ip))]> m) (banned_peers_per_ip c) ips).
Definition remove_banned_peer (ips : list Ip) (c : BannedPeersCount) : BannedPeersCount :=
  MkBannedCount (banned_peers c - 1)
    (foldl (λ m ip, match m !! ip with Some n => <[ip := n - 1]> m | None => m end) (banned_peers_per_ip c) ips).
Definition count_ip_is_banned (ip : Ip) (c : BannedPeersCount) : bool :=
  match banned_peers_per_ip c !! ip with Some n => BANNED_PEERS_PER_IP_THRESHOLD <? n | None => false end.
(** [banned_ips().contains(ip)] is [ip_is_banned(ip)]. *)
Definition seen_banned_ips (i : PeerInfo) (c : BannedPeersCount) : list Ip :=
  List.filter (λ ip, count_ip_is_banned ip c) (seen_ip_addresses i).

(** ** [PeerDB] *)

Definition PeerDB_new (trusted_peers : list P) : PeerDB :=
  MkPeerDB (list_to_map ((λ p, (p, trusted_peer_info)) <$> trusted_peers)) 0 (MkBannedCount 0 ∅).

Definition set_info (peer_id : P) (i : PeerInfo) (db : PeerDB) : PeerDB :=
  MkPeerDB (<[peer_id := i]> (peers db)) (disconnected_peers db) (banned_peers_count db).
Definition set_disconnected n (db : PeerDB) : PeerDB := MkPeerDB (peers db) n (banned_peers_count db).
Definition set_banned_count c (db : PeerDB) : PeerDB := MkPeerDB (peers db) (disconnected_peers db) c.
Definition drop_peer (peer_id : P) (db : PeerDB) : PeerDB :=
  MkPeerDB (delete peer_id (peers db)) (disconnected_peers db) (banned_peers_count db).

Definition status_of (peer_id : P) (db : PeerDB) : option PeerConnectionStatus :=
  connection_status <$> peers db !! peer_id.
Definition db_is_connected (peer_id : P) (db : PeerDB) : bool :=
  match status_of peer_id db with Some (Connected _ _) => true | _ => false end.
Definition is_connected_or_disconnecting (peer_id : P) (db : PeerDB) : bool :=
  match status_of peer_id db with Some (Connected _ _ | Disconnecting _) => true | _ => false end.

Definition ip_is_banned (i : PeerInfo) (db : PeerDB) : option Ip :=
  List.find (λ ip, count_ip_is_banned ip (banned_peers_count db)) (seen_ip_addresses i).

Definition ban_status (peer_id : P) (db : PeerDB) : BanResult Ip :=
  match peers db !! peer_id with
  | Some i =>
      match info_score_state i with
      | SBanned => BadScore
      | _ => match ip_is_banned i db with Some ip => BannedIp ip | None => NotBanned end
      end
  | None => NotBanned
  end.

Definition score_state_banned_or_disconnected (peer_id : P) (db : PeerDB) : bool :=
  match peers db !! peer_id with
  | Some i => match info_score_state i with
              | SBanned | SDisconnected => true
              | _ => bool_decide (is_Some (ip_is_banned i db))
              end
  | None => false
  end.

Definition should_dial (peer_id : P) (db : PeerDB) : bool :=
  match status_of peer_id db with
  | Some (Disconnected _ | Unknown) | None => negb (score_state_banned_or_disconnected peer_id db)
  | _ => false
  end.

Definition count_peers (f : PeerInfo → bool) (db : PeerDB) : nat :=
  length (List.filter (λ x, f x.2) (map_to_list (peers db))).

(** The IP and the TCP port of a [Multiaddr]. *)
Definition socket_addr (seen_address : list (Protocol Ip)) : option (Ip * Z) :=
  match foldl (λ '(found_ip, found_port) protocol,
           match protocol with
           | PIp4 ip | PIp6 ip => (Some ip, found_port)
           | PTcp port => (found_ip, Some port)
           | POther => (found_ip, found_port)
           end) (None, None) seen_address with
  | (Some ip, Some port) => Some (ip, port)
  | _ => None
  end.

(** *** [update_connection_state], one definition for each new state *)

Definition to_connected (peer_id : P) (e : option Enr) (seen : list (Protocol Ip)) (dir : ConnectionDirection)
    (i : PeerInfo) : st PeerDB (option (BanOperation Ip)) :=
  let i := set_enr_if e i in
  (match connection_status i with
   | Disconnected _ => st_modify (λ db, set_disconnected (disconnected_peers db - 1) db)
   | Banned _ =>
       st_modify (λ db, set_banned_count (remove_banned_peer (seen_ip_addresses i) (banned_peers_count db)) db)
   | _ => st_ret tt
   end) ;;
  let! i := st_lift (match dir with
                     | Incoming => info_connect_ingoing (socket_addr seen) i
                     | Outgoing => info_connect_outgoing (socket_addr seen) i
                     end) in
  st_modify (set_info peer_id i) ;;
  st_ret None.

Definition to_dialing (now : Z) (peer_id : P) (e : option Enr) (i : PeerInfo) : st PeerDB (option (BanOperation Ip)) :=
  (match connection_status i with
   | Banned _ =>
       st_modify (λ db, set_banned_count (remove_banned_peer (seen_ip_addresses i) (banned_peers_count db)) db)
   | Disconnected _ => st_modify (λ db, set_disconnected (disconnected_peers db - 1) db)
   | _ => st_ret tt
   end) ;;
  st_modify (set_info peer_id (set_dialing_peer now (set_enr_if e i))) ;;
  st_ret None.

(** The peer is stored as banned and counted. *)
Definition ban_now (now : Z) (peer_id : P) (i : PeerInfo) : st PeerDB unit :=
  st_modify (set_info peer_id (set_connection_status (Banned now) i)) ;;
  st_modify (λ db, set_banned_count (add_banned_peer (seen_ip_addresses i) (banned_peers_count db)) db).

(** [return Some(BanOperation::ReadyToBan(banned_ips))] *)
Definition ready_to_ban (i : PeerInfo) : st PeerDB (option (BanOperation Ip)) :=
  let! db := st_get in
  st_ret (Some (ReadyToBan (seen_banned_ips i (banned_peers_count db)))).

Definition to_disconnected (now : Z) (peer_id : P) (i : PeerInfo) : st PeerDB (option (BanOperation Ip)) :=
  match connection_status i with
  | Banned _ | Disconnected _ => st_ret None
  | Disconnecting true => ban_now now peer_id i ;; ready_to_ban i
  | _ =>
      st_modify (λ db, set_disconnected (S (disconnected_peers db)) db) ;;
      st_modify (set_info peer_id (set_connection_status (Disconnected now) i)) ;;
      st_ret None
  end.

Definition to_disconnecting (peer_id : P) (to_ban : bool) (i : PeerInfo) : st PeerDB (option (BanOperation Ip)) :=
  (match connection_status i with
   | Disconnected _ => st_modify (λ db, set_disconnected (disconnected_peers db - 1) db)
   | _ => st_ret tt
   end) ;;
  st_modify (set_info peer_id (set_connection_status (Disconnecting to_ban) i)) ;;
  st_ret None.

Definition to_banned (now : Z) (peer_id : P) (i : PeerInfo) : st PeerDB (option (BanOperation Ip)) :=
  match connection_status i with
  | Disconnected _ =>
      ban_now now peer_id i ;;
      st_modify (λ db, set_disconnected (disconnected_peers db - 1) db) ;;
      ready_to_ban i
  | Disconnecting _ =>
      st_modify (set_info peer_id (set_connection_status (Disconnecting true) i)) ;;
      st_ret (Some PeerDisconnecting)
  | Banned _ => ready_to_ban i
  | Connected _ _ | Dialing _ =>
      st_modify (set_info peer_id (set_connection_status (Disconnecting true) i)) ;;
      st_ret (Some DisconnectThePeer)
  | Unknown => ban_now now peer_id i ;; ready_to_ban i
  end.

Definition to_unbanned (peer_id : P) (i : PeerInfo) : st PeerDB (option (BanOperation Ip)) :=
  match connection_status i with
  | Banned since =>
      st_modify (set_info peer_id (set_connection_status (Disconnected since) i)) ;;
      st_modify (λ db, set_banned_count (remove_banned_peer (seen_ip_addresses i) (banned_peers_count db)) db) ;;
      st_modify (λ db, set_disconnected (S (disconnected_peers db)) db) ;;
      st_ret None
  | _ => st_ret None
  end.

(** A peer that is banned gets the score of a banned peer. *)
Definition ban_score (new_state : NewConnectionState Ip Enr) (i : PeerInfo) : PeerInfo :=
  match new_state with
  | NewBanned => match info_score_state i with
                 | SBanned => i
                 | _ => apply_peer_action_to_score Fatal i
                 end
  | _ => i
  end.

Definition update_connection_state (now : Z) (peer_id : P) (new_state : NewConnectionState Ip Enr)
    : st PeerDB (option (BanOperation Ip)) :=
  let! db := st_get in
  let i := ban_score new_state (default (PeerInfo_default now) (peers db !! peer_id)) in
  st_modify (set_info peer_id i) ;;
  match new_state with
  | NewConnected e seen dir => to_connected peer_id e seen dir i
  | NewDialing e => to_dialing now peer_id e i
  | NewDisconnected => to_disconnected now peer_id i
  | NewDisconnecting to_ban => to_disconnecting peer_id to_ban i
  | NewBanned => to_banned now peer_id i
  | NewUnbanned => to_unbanned peer_id i
  end.

Definition dialing_peer now peer_id e := update_connection_state now peer_id (NewDialing e).
Definition connect_ingoing now peer_id seen e := update_connection_state now peer_id (NewConnected e seen Incoming).
Definition connect_outgoing now peer_id seen e := update_connection_state now peer_id (NewConnected e seen Outgoing).
Definition notify_disconnecting now peer_id to_ban := update_connection_state now peer_id (NewDisconnecting to_ban).

(** *** [shrink_to_fit] *)

(** [iter().filter_map(f).min_by_key(..)]: the first minimum. *)
Fixpoint oldest (f : PeerInfo → option Z) (l : list (P * PeerInfo)) : option (P * PeerInfo * Z) :=
  match l with
  | [] => None
  | (p, i) :: l =>
      match f i, oldest f l with
      | Some t, Some (p', i', t') => if (t <=? t')%Z then Some (p, i, t) else Some (p', i', t')
      | Some t, None => Some (p, i, t)
      | None, o => o
      end
  end.

Definition banned_since (i : PeerInfo) : option Z := match connection_status i with Banned t => Some t | _ => None end.
Definition disconnected_since (i : PeerInfo) : option Z :=
  match connection_status i with Disconnected t => Some t | _ => None end.

(** [while banned_peers() > MAX_BANNED_PEERS]: a turn lowers the count, which
    is the fuel. *)
Fixpoint shrink_banned (fuel : nat) (unbanned : list (P * list Ip)) (db : PeerDB) : list (P * list Ip) * PeerDB :=
  match fuel with
  | O => (unbanned, db)
  | S fuel =>
      if MAX_BANNED_PEERS <? banned_peers (banned_peers_count db) then
        match oldest banned_since (map_to_list (peers db)) with
        | Some (to_drop, i, _) =>
            let c := remove_banned_peer (seen_ip_addresses i) (banned_peers_count db) in
            let unbanned_ips := List.filter (λ ip, negb (count_ip_is_banned ip c)) (seen_ip_addresses i) in
            shrink_banned fuel (unbanned ++ [(to_drop, unbanned_ips)]) (drop_peer to_drop (set_banned_count c db))
        | None => shrink_banned fuel unbanned (set_banned_count (MkBannedCount 0 ∅) db)
        end
      else (unbanned, db)
  end.

Fixpoint shrink_disconnected (fuel : nat) (db : PeerDB) : PeerDB :=
  match fuel with
  | O => db
  | S fuel =>
      if MAX_DC_PEERS <? disconnected_peers db then
        let db := match oldest disconnected_since (map_to_list (peers db)) with
                  | Some (to_drop, _, _) => drop_peer to_drop db
                  | None => db
                  end in
        shrink_disconnected fuel (set_disconnected (disconnected_peers db - 1) db)
      else db
  end.

Definition shrink_to_fit (db : PeerDB) : list (P * list Ip) * PeerDB :=
  let '(unbanned, db) := shrink_banned (banned_peers (banned_peers_count db)) [] db in
  (unbanned, shrink_disconnected (disconnected_peers db) db).

Definition inject_disconnect (now : Z) (peer_id : P)
    : st PeerDB (option (BanOperation Ip) * list (P * list Ip)) :=
  let! maybe_ban_op := update_connection_state now peer_id NewDisconnected in
  let! purged_peers := (λ db, let '(l, db) := shrink_to_fit db in (Ok l, db)) in
  st_ret (maybe_ban_op, purged_peers).

(** *** Scores *)

Definition handle_score_transition (previous_state : ScoreState) (i : PeerInfo) : ScoreTransitionResult :=
  match info_score_state i, previous_state with
  | SBanned, (SHealthy | SDisconnected) => STBanned
  | SDisconnected, (SBanned | SHealthy) =>
      if info_is_connected i || info_is_dialing i then STDisconnected
      else if decide (previous_state = SBanned) then STUnbanned
      else STNoAction
  | SHealthy, SDisconnected => STNoAction
  | SHealthy, SBanned => STUnbanned
  | SHealthy, SHealthy | SDisconnected, SDisconnected | SBanned, SBanned => STNoAction
  end.

(** The addresses of an unbanned peer that are not banned themselves. *)
Definition unbanned_ips (peer_id : P) (db : PeerDB) : list Ip :=
  match peers db !! peer_id with
  | Some i => List.filter (λ ip, negb (count_ip_is_banned ip (banned_peers_count db))) (seen_ip_addresses i)
  | None => []
  end.

Definition unban (now : Z) (peer_id : P) : st PeerDB (ScoreUpdateResult Ip) :=
  update_connection_state now peer_id NewUnbanned ;;
  let! db := st_get in
  st_ret (UUnbanned (unbanned_ips peer_id db)).

Definition report_peer (now : Z) (peer_id : P) (action : PeerAction) : st PeerDB (ScoreUpdateResult Ip) :=
  let! db := st_get in
  match peers db !! peer_id with
  | None => st_ret UNoAction
  | Some i =>
      let previous_state := info_score_state i in
      let i := apply_peer_action_to_score action i in
      st_modify (set_info peer_id i) ;;
      match handle_score_transition previous_state i with
      | STBanned =>
          let! op := update_connection_state now peer_id NewBanned in
          st_ret (match op with Some op => UBan op | None => UNoAction end)
      | STDisconnected => update_connection_state now peer_id (NewDisconnecting false) ;; st_ret UDisconnect
      | STNoAction | STUnbanned => st_ret UNoAction
      end
  end.

(** [for x in l { results.push(f(x)) }] *)
Fixpoint st_collect {S A B} (l : list A) (f : A → st S B) : st S (list B) :=
  match l with
  | [] => st_ret []
  | x :: l => let! y := f x in let! ys := st_collect l f in st_ret (y :: ys)
  end.

Definition update_scores (now : Z) : st PeerDB (list (P * ScoreUpdateResult Ip)) :=
  let! db := st_get in
  let to_unban := (fst ∘ fst) <$>
    List.filter (λ '(_, old, i), match handle_score_transition (info_score_state old) i with
                                 | STUnbanned => true | _ => false end)
      ((λ '(p, i), (p, i, score_update now i)) <$> map_to_list (peers db)) in
  st_modify (λ db, MkPeerDB (score_update now <$> peers db) (disconnected_peers db) (banned_peers_count db)) ;;
  st_collect to_unban (λ p, let! r := unban now p in st_ret (p, r)).

(** [sort_unstable_by(|s1, s2| s2.partial_cmp(s1).unwrap_or(Equal))] *)
Fixpoint insert_desc (x : P * f64) (l : list (P * f64)) : list (P * f64) :=
  match l with
  | [] => [x]
  | y :: l => if SFltb x.2 y.2 then y :: insert_desc x l else x :: y :: l
  end.

Definition ALLOWED_NEGATIVE_GOSSIPSUB_FACTOR : f32 := f32_tenths 1.

(** One peer of [update_gossipsub_scores]: the new score and the transition. *)
Definition gossip_one (now : Z) (p : P) (score : f64) (to_ignore : nat) (db : PeerDB)
    : option (P * ScoreTransitionResult) * nat * PeerDB :=
  match peers db !! p with
  | None => (None, to_ignore, db)
  | Some i =>
      let ignore := SFltb score (f64_of 0) && (0 <? to_ignore) in
      let i' := info_update_gossipsub_score now score ignore i in
      (Some (p, handle_score_transition (info_score_state i) i'),
       if ignore then to_ignore - 1 else to_ignore, set_info p i' db)
  end.

Fixpoint gossip_all (now : Z) (l : list (P * f64)) (to_ignore : nat) (db : PeerDB)
    : list (P * ScoreTransitionResult) * PeerDB :=
  match l with
  | [] => ([], db)
  | (p, score) :: l =>
      let '(a, to_ignore, db) := gossip_one now p score to_ignore db in
      let '(actions, db) := gossip_all now l to_ignore db in
      (match a with Some a => a :: actions | None => actions end, db)
  end.

Definition handle_action (now : Z) (p : P) (a : ScoreTransitionResult) : st PeerDB (ScoreUpdateResult Ip) :=
  match a with
  | STBanned =>
      let! op := update_connection_state now p NewBanned in
      st_ret (match op with Some op => UBan op | None => UNoAction end)
  | STDisconnected => update_connection_state now p (NewDisconnecting false) ;; st_ret UDisconnect
  | STNoAction => st_ret UNoAction
  | STUnbanned => unban now p
  end.

(** [peer_score] is the score that gossipsub keeps of a peer. *)
Definition update_gossipsub_scores (now : Z) (target_peers : Z) (peer_score : P → option f64)
    : st PeerDB (list (P * ScoreUpdateResult Ip)) :=
  let! db := st_get in
  let scored := omap (λ '(p, i), if info_is_connected i then pair p <$> peer_score p else None)
                  (map_to_list (peers db)) in
  let sorted := foldr insert_desc [] scored in
  let to_ignore := Z.to_nat (ceil_as_usize (f32_mul (f32_of target_peers) ALLOWED_NEGATIVE_GOSSIPSUB_FACTOR)) in
  let! actions := (λ db, let '(l, db) := gossip_all now sorted to_ignore db in (Ok l, db)) in
  let! results := st_collect actions (λ '(p, a), let! r := handle_action now p a in st_ret (p, r)) in
  st_ret (List.filter (λ r, match r.2 with UNoAction => false | _ => true end) results).

(** *** Other updates *)

Definition update_min_ttl (now : Z) (peer_id : P) (ttl : Z) : st PeerDB unit :=
  st_modify (λ db,
    let i := default (PeerInfo_default now) (peers db !! peer_id) in
    set_info peer_id
      (match min_ttl i with
       | Some t => if (t <? ttl)%Z then set_min_ttl ttl i else i
       | None => set_min_ttl ttl i
       end) db).

Definition db_update_sync_status (peer_id : P) (s : SyncStatus H) : st PeerDB (option bool) := λ db,
  match peers db !! peer_id with
  | None => (Ok None, db)
  | Some i => let '(changed, i) := update_sync_status s i in (Ok (Some changed), set_info peer_id i db)
  end.

Definition cleanup_dialing_peers (now : Z) : st PeerDB unit :=
  let! db := st_get in
  let to_disconnect :=
    omap (λ '(p, i), match connection_status i with
                     | Dialing since => if (since + from_secs DIAL_TIMEOUT <? now)%Z then Some p else None
                     | _ => None
                     end) (map_to_list (peers db)) in
  st_for to_disconnect (λ p, update_connection_state now p NewDisconnected ;; st_ret tt).

End PeerDB.
