(* ===== verification/PeerDBProofs.v ===== *)
(** * The counters of the database of peers

    [db_ok] relates the counters of [PeerDB] to the peers it holds: the number
    of disconnected peers is exact, the number of banned peers and the number
    of banned peers of an address are at least the true ones.  Every operation
    keeps it, and [shrink_to_fit] then bounds the peers that are kept. *)

From Stdlib Require Import SpecFloat.
From S2P Require Import Prelude PeerScore PeerDB.

(** ** Automation *)

Lemma maintains_collect {S} (I : S → Prop) {A B} (l : list A) (f : A → st S B) :
  (∀ a, a ∈ l → maintains I (f a)) → maintains I (st_collect l f).
Proof.
  induction l; intros Hf; cbn [st_collect]; [apply maintains_ret|].
  apply maintains_bind; [apply Hf; left|]. intros b. apply maintains_bind; [|intros; apply maintains_ret].
  apply IHl. intros. apply Hf. by right.
Qed.

Create HintDb peers.
#[export] Hint Resolve maintains_ret maintains_lift : peers.

(** ** Weighted sums over a map *)

Section Tally.
Context {K V : Type} `{Countable K}.
Implicit Types (m : gmap K V) (w : V → nat).

Definition tally w m : nat := map_fold (λ _ v n, w v + n) 0 m.

Lemma tally_insert_new w m k v : m !! k = None → tally w (<[k := v]> m) = w v + tally w m.
Proof. intros. unfold tally. rewrite map_fold_insert_L; [done| |done]. intros; lia. Qed.

Lemma tally_delete w m k v : m !! k = Some v → tally w m = w v + tally w (delete k m).
Proof.
  intros Hk. rewrite <- (insert_delete_id m k v Hk) at 1. rewrite tally_insert_new; [done|].
  by rewrite lookup_delete_eq.
Qed.

Lemma tally_update w m k v v' : m !! k = Some v → tally w (<[k := v']> m) + w v = tally w m + w v'.
Proof.
  intros Hk. rewrite (tally_delete w m k v Hk), (tally_delete w (<[k := v']> m) k v') by apply lookup_insert_eq.
  rewrite delete_insert_eq. lia.
Qed.

Lemma tally_fmap w (f : V → V) m : (∀ v, w (f v) = w v) → tally w (f <$> m) = tally w m.
Proof.
  intros Hf. induction m as [|k v m Hk IH] using map_ind; [by rewrite fmap_empty|].
  rewrite fmap_insert, !tally_insert_new by (try rewrite lookup_fmap, Hk; done). by rewrite IH, Hf.
Qed.

Lemma tally_pos w m : 0 < tally w m → ∃ k v, m !! k = Some v ∧ 0 < w v.
Proof.
  induction m as [|k v m Hk IH] using map_ind;
    [unfold tally; rewrite map_fold_empty; lia|].
  rewrite tally_insert_new by done. intros Hpos. destruct (decide (0 < w v)).
  - exists k, v. by rewrite lookup_insert_eq.
  - destruct IH as (k' & v' & Hk' & Hv'); [lia|]. exists k', v'.
    rewrite lookup_insert_ne by congruence. done.
Qed.

Lemma tally_filter (f : V → bool) m :
  tally (λ v, if f v then 1 else 0) m = length (List.filter (λ x, f x.2) (map_to_list m)).
Proof.
  unfold tally. rewrite map_fold_foldr.
  induction (map_to_list m) as [|[k v] l IH]; [done|]. cbn. rewrite IH. by destruct (f v).
Qed.

End Tally.

(** ** Counters *)

Section Counts.
Context {P Ip H Enr : Type} `{Countable P} `{Countable Ip}.
Notation PeerInfo := (PeerInfo Ip H Enr).
Notation PeerDB := (PeerDB P Ip H Enr).
Implicit Types (i : PeerInfo) (db : PeerDB) (c : BannedPeersCount Ip) (p : P).

Definition occ (ip : Ip) (l : list Ip) : nat := count_occ (decide_rel (=)) l ip.
Definition per_ip (ip : Ip) c : nat := default 0 (banned_peers_per_ip c !! ip).

Definition w_disconnected i : nat := if info_is_disconnected i then 1 else 0.
Definition w_banned i : nat := if info_is_banned i then 1 else 0.
Definition w_banned_ip (ip : Ip) i : nat := if info_is_banned i then occ ip (seen_ip_addresses i) else 0.

Record db_ok db : Prop := {
  ok_disconnected : disconnected_peers db = tally w_disconnected (peers db);
  ok_banned : tally w_banned (peers db) ≤ banned_peers (banned_peers_count db);
  ok_banned_ip ip : tally (w_banned_ip ip) (peers db) ≤ per_ip ip (banned_peers_count db);
}.

Lemma per_ip_add ip ips c : per_ip ip (add_banned_peer ips c) = per_ip ip c + occ ip ips.
Proof.
  unfold per_ip, add_banned_peer. cbn [banned_peers_per_ip].
  generalize (banned_peers_per_ip c). induction ips as [|ip' ips IH]; intros m; cbn; [lia|].
  rewrite IH. unfold occ. cbn. destruct (decide_rel (=) ip' ip) as [->|Hne].
  - rewrite lookup_insert_eq. cbn. lia.
  - by rewrite lookup_insert_ne.
Qed.

Lemma per_ip_remove ip ips c : per_ip ip (remove_banned_peer ips c) = per_ip ip c - occ ip ips.
Proof.
  unfold per_ip, remove_banned_peer. cbn [banned_peers_per_ip].
  generalize (banned_peers_per_ip c). induction ips as [|ip' ips IH]; intros m; cbn; [lia|].
  rewrite IH. unfold occ. cbn. destruct (decide_rel (=) ip' ip) as [->|Hne].
  - destruct (m !! ip) as [n|] eqn:E; rewrite ?lookup_insert_eq, ?E; cbn; lia.
  - destruct (m !! ip') eqn:E; [by rewrite lookup_insert_ne|done].
Qed.

(** The change of the counters that a change of one peer asks for. *)
Lemma ok_update db p i i' d' c' :
  db_ok db → peers db !! p = Some i →
  d' + w_disconnected i = disconnected_peers db + w_disconnected i' →
  banned_peers (banned_peers_count db) + w_banned i' ≤ banned_peers c' + w_banned i →
  (∀ ip, per_ip ip (banned_peers_count db) + w_banned_ip ip i' ≤ per_ip ip c' + w_banned_ip ip i) →
  db_ok (MkPeerDB (<[p := i']> (peers db)) d' c').
Proof.
  intros [Hd Hb Hip] Hp Hd' Hb' Hip'. split; cbn.
  - pose proof (tally_update w_disconnected _ _ _ i' Hp). lia.
  - pose proof (tally_update w_banned _ _ _ i' Hp). lia.
  - intros ip. pose proof (tally_update (w_banned_ip ip) _ _ _ i' Hp). specialize (Hip ip). specialize (Hip' ip). lia.
Qed.

Lemma ok_drop db p i d' c' :
  db_ok db → peers db !! p = Some i →
  d' + w_disconnected i = disconnected_peers db →
  banned_peers (banned_peers_count db) ≤ banned_peers c' + w_banned i →
  (∀ ip, per_ip ip (banned_peers_count db) ≤ per_ip ip c' + w_banned_ip ip i) →
  db_ok (MkPeerDB (delete p (peers db)) d' c').
Proof.
  intros [Hd Hb Hip] Hp Hd' Hb' Hip'. split; cbn.
  - pose proof (tally_delete w_disconnected _ _ _ Hp). lia.
  - pose proof (tally_delete w_banned _ _ _ Hp). lia.
  - intros ip. pose proof (tally_delete (w_banned_ip ip) _ _ _ Hp). specialize (Hip ip). specialize (Hip' ip). lia.
Qed.

(** An update that leaves the connection and the addresses alone. *)
Definition same_status i i' : Prop :=
  connection_status i' = connection_status i ∧ seen_addresses i' = seen_addresses i.

Lemma same_status_weights i i' : same_status i i' →
  w_disconnected i' = w_disconnected i ∧ w_banned i' = w_banned i ∧ ∀ ip, w_banned_ip ip i' = w_banned_ip ip i.
Proof.
  intros [Hs Ha]. unfold w_disconnected, w_banned, w_banned_ip, info_is_disconnected, info_is_banned, seen_ip_addresses.
  by rewrite Hs, Ha.
Qed.

Lemma ok_same db p i i' : db_ok db → peers db !! p = Some i → same_status i i' → db_ok (set_info p i' db).
Proof.
  intros Hok Hp (Hd & Hb & Hip)%same_status_weights. destruct db.
  eapply ok_update; [done..| | |]; cbn; intros; rewrite ?Hd, ?Hb, ?Hip; lia.
Qed.

Lemma ok_new db p i' : db_ok db → peers db !! p = None → connection_status i' = Unknown → db_ok (set_info p i' db).
Proof.
  intros [Hd Hb Hip] Hp Hs.
  assert (Hw : w_disconnected i' = 0 ∧ w_banned i' = 0 ∧ ∀ ip, w_banned_ip ip i' = 0).
  { unfold w_disconnected, w_banned, w_banned_ip, info_is_disconnected, info_is_banned. by rewrite Hs. }
  destruct Hw as (Hwd & Hwb & Hwip).
  split; cbn; intros; rewrite tally_insert_new by done; rewrite ?Hwd, ?Hwb, ?Hwip; cbn; auto.
Qed.

Lemma ok_init trusted : db_ok (PeerDB_new trusted).
Proof.
  assert (Hall : ∀ (w : PeerInfo → nat), w trusted_peer_info = 0 → tally w (peers (PeerDB_new trusted)) = 0).
  { intros w Hw. cbn. destruct (decide (0 < tally w (peers (PeerDB_new trusted)))) as [Hpos|]; [|cbn in *; lia].
    apply tally_pos in Hpos as (k & v & Hk & Hv). cbn in Hk. apply elem_of_list_to_map_2 in Hk.
    apply list_elem_of_fmap in Hk as (? & [= -> ->] & _). lia. }
  split; [by rewrite Hall|by rewrite Hall|intros; by rewrite Hall].
Qed.

(** ** The operations *)

Lemma seen_ip_set_status x i : seen_ip_addresses (set_connection_status x i) = seen_ip_addresses i.
Proof. done. Qed.

(** Evaluates a branch of [update_connection_state] on the counters. *)
Ltac solve_counts :=
  cbn in *; intros;
  unfold w_disconnected, w_banned, w_banned_ip, info_is_disconnected, info_is_banned in *;
  cbn [connection_status set_connection_status set_direction add_seen set_enr seen_addresses banned_peers
       add_banned_peer remove_banned_peer] in *;
  rewrite ?seen_ip_set_status, ?per_ip_add, ?per_ip_remove;
  repeat match goal with E : connection_status _ = _ |- _ => rewrite E in *; clear E end;
  cbn in *; try lia.

(** The new database of a branch, against the old one. *)
Ltac count_step :=
  unfold ban_now, ready_to_ban, st_bind, st_modify, st_ret, st_get, set_info, set_disconnected, set_banned_count;
  cbn [fst snd peers disconnected_peers banned_peers_count];
  (eapply ok_update; [eassumption|eassumption|..]); solve_counts.

Lemma connect_spec (dir : ConnectionDirection) a i :
  let r := match dir with Incoming => info_connect_ingoing a i | Outgoing => info_connect_outgoing a i end in
  (∃ i' n m, r = Ok i' ∧ connection_status i' = Connected n m) ∨
  (∃ n m s, connection_status i = Connected n m ∧ r = Panic s).
Proof.
  assert (Hadd : ∀ i, connection_status (add_seen a i) = connection_status i) by by destruct a.
  destruct dir; cbn zeta; unfold info_connect_ingoing, info_connect_outgoing, u8_succ;
    destruct (connection_status i) as [n m| | | | |]; try case_match; cbn [res_bind];
    try (left; do 3 eexists; split; [done|]; by rewrite Hadd).
  all: right; by do 3 eexists.
Qed.

Lemma set_enr_if_same e i : same_status i (set_enr_if e i).
Proof. by destruct e. Qed.

Lemma disconnected_pos db p i :
  db_ok db → peers db !! p = Some i → w_disconnected i ≤ disconnected_peers db.
Proof. intros Hok Hp. rewrite (ok_disconnected _ Hok), (tally_delete _ _ _ _ Hp). lia. Qed.

Lemma banned_pos db p i :
  db_ok db → peers db !! p = Some i → w_banned i ≤ banned_peers (banned_peers_count db).
Proof. intros Hok Hp. pose proof (ok_banned _ Hok) as Hb. rewrite (tally_delete _ _ _ _ Hp) in Hb. lia. Qed.

Lemma to_connected_ok p e seen dir i db :
  db_ok db → peers db !! p = Some i → db_ok (to_connected p e seen dir i db).2.
Proof.
  intros Hok Hp. unfold to_connected.
  pose proof (disconnected_pos _ _ _ Hok Hp) as Hdp. pose proof (banned_pos _ _ _ Hok Hp) as Hbp.
  destruct (set_enr_if_same e i) as [Hs Ha]. set (i1 := set_enr_if e i) in *.
  assert (Hips : seen_ip_addresses i1 = seen_ip_addresses i) by (unfold seen_ip_addresses; by rewrite Ha).
  destruct (connect_spec dir (socket_addr seen) i1) as [(i' & n & m & Ei' & E')|(n & m & s & E & Ei')].
  - destruct (connection_status i1) eqn:E; symmetry in Hs; unfold st_bind, st_modify, st_lift, st_ret;
      rewrite Ei', ?Hips; count_step.
  - rewrite E. unfold st_bind, st_modify, st_lift, st_ret. by rewrite Ei'.
Qed.

Lemma to_dialing_ok now p e i db :
  db_ok db → peers db !! p = Some i → db_ok (to_dialing now p e i db).2.
Proof.
  intros Hok Hp. unfold to_dialing.
  pose proof (disconnected_pos _ _ _ Hok Hp) as Hdp. pose proof (banned_pos _ _ _ Hok Hp) as Hbp.
  destruct (set_enr_if_same e i) as [Hs Ha]. set (i1 := set_enr_if e i) in *.
  destruct (connection_status i) eqn:E; unfold set_dialing_peer; rewrite Hs;
    count_step.
  all: unfold seen_ip_addresses; rewrite ?Ha; lia.
Qed.

Lemma to_disconnected_ok now p i db :
  db_ok db → peers db !! p = Some i → db_ok (to_disconnected now p i db).2.
Proof.
  intros Hok Hp. unfold to_disconnected. destruct (connection_status i) as [| [|] | | | |] eqn:E; try done;
    count_step.
Qed.

Lemma to_disconnecting_ok p to_ban i db :
  db_ok db → peers db !! p = Some i → db_ok (to_disconnecting p to_ban i db).2.
Proof.
  intros Hok Hp. unfold to_disconnecting. pose proof (disconnected_pos _ _ _ Hok Hp) as Hdp.
  destruct (connection_status i) eqn:E; count_step.
Qed.

Lemma to_banned_ok now p i db :
  db_ok db → peers db !! p = Some i → db_ok (to_banned now p i db).2.
Proof.
  intros Hok Hp. unfold to_banned. pose proof (disconnected_pos _ _ _ Hok Hp) as Hdp.
  destruct (connection_status i) eqn:E; try done; count_step.
Qed.

Lemma to_unbanned_ok p i db :
  db_ok db → peers db !! p = Some i → db_ok (to_unbanned p i db).2.
Proof.
  intros Hok Hp. unfold to_unbanned. pose proof (banned_pos _ _ _ Hok Hp) as Hbp.
  destruct (connection_status i) eqn:E; try done; count_step.
Qed.

Lemma apply_action_same a i : same_status i (apply_peer_action_to_score a i).
Proof. unfold apply_peer_action_to_score. by destruct (is_trusted i). Qed.

Lemma ban_score_same ns i : same_status i (ban_score ns i).
Proof. destruct ns; try done. cbn. destruct (info_score_state i); try done; apply apply_action_same. Qed.

Lemma lookup_set_info p i db : peers (set_info p i db) !! p = Some i.
Proof. apply lookup_insert_eq. Qed.

(** The entry of a peer is created or updated without a change of its status. *)
Lemma ok_touch now p f db :
  (∀ i, same_status i (f i)) → db_ok db →
  db_ok (set_info p (f (default (PeerInfo_default now) (peers db !! p))) db).
Proof.
  intros Hf Hok. destruct (peers db !! p) as [i|] eqn:Hp; cbn [default].
  - by eapply ok_same.
  - apply ok_new; [done..|]. by destruct (Hf (PeerInfo_default now)) as [-> _].
Qed.

Lemma update_connection_state_ok now p ns : maintains db_ok (update_connection_state now p ns).
Proof.
  unfold update_connection_state. apply maintains_get. intros db Hok.
  pose proof (ok_touch now p (ban_score ns) db (ban_score_same ns) Hok) as Hok'.
  set (i' := ban_score ns _) in *. pose proof (lookup_set_info p i' db) as Hp'.
  unfold st_bind at 1, st_modify at 1.
  destruct ns; eauto using to_connected_ok, to_dialing_ok, to_disconnected_ok, to_disconnecting_ok,
    to_banned_ok, to_unbanned_ok.
Qed.
#[local] Hint Resolve update_connection_state_ok : peers.

(** ** Shrinking *)

Lemma oldest_spec (f : PeerInfo → option Z) l :
  match oldest f l with
  | Some (p, i, t) => (p, i) ∈ l ∧ f i = Some t ∧ ∀ p' i' t', (p', i') ∈ l → f i' = Some t' → (t <= t')%Z
  | None => ∀ p i, (p, i) ∈ l → f i = None
  end.
Proof.
  induction l as [|[p i] l IH]; cbn; [intros ?? []%not_elem_of_nil|].
  destruct (f i) as [t|] eqn:Hf; destruct (oldest f l) as [[[p' i'] t']|].
  - destruct IH as (Hin & Hf' & Hmin). destruct (Z.leb_spec t t').
    + split_and!; [left|done|]. intros p2 i2 t2 [[= -> ->]|Hin2]%elem_of_cons Hf2; [by simplify_eq|].
      specialize (Hmin _ _ _ Hin2 Hf2). lia.
    + split_and!; [by right|done|]. intros p2 i2 t2 [[= -> ->]|Hin2]%elem_of_cons Hf2;
        [simplify_eq; lia|by eapply Hmin].
  - split_and!; [left|done|]. intros p2 i2 t2 [[= -> ->]|Hin2]%elem_of_cons Hf2; [by simplify_eq|].
    by rewrite (IH _ _ Hin2) in Hf2.
  - destruct IH as (Hin & Hf' & Hmin). split_and!; [by right|done|].
    intros p2 i2 t2 [[= -> ->]|Hin2]%elem_of_cons Hf2; [congruence|by eapply Hmin].
  - intros p2 i2 [[= -> ->]|Hin2]%elem_of_cons; [done|by eapply IH].
Qed.

Lemma oldest_lookup f db p i t :
  oldest f (map_to_list (peers db)) = Some (p, i, t) → peers db !! p = Some i ∧ f i = Some t.
Proof.
  intros Ho. pose proof (oldest_spec f (map_to_list (peers db))) as Hs. rewrite Ho in Hs.
  destruct Hs as (Hin & Hf & _). by apply elem_of_map_to_list in Hin.
Qed.

Lemma oldest_none f db p i : oldest f (map_to_list (peers db)) = None → peers db !! p = Some i → f i = None.
Proof.
  intros Ho Hp. pose proof (oldest_spec f (map_to_list (peers db))) as Hs. rewrite Ho in Hs.
  eapply Hs. by apply elem_of_map_to_list.
Qed.

(** One turn of the first loop keeps the counters and lowers that of the
    banned peers. *)
Lemma drop_banned_ok db p i t :
  db_ok db → oldest banned_since (map_to_list (peers db)) = Some (p, i, t) →
  db_ok (drop_peer p (set_banned_count (remove_banned_peer (seen_ip_addresses i) (banned_peers_count db)) db)).
Proof.
  intros Hok (Hp & Hf)%oldest_lookup. unfold drop_peer, set_banned_count. cbn.
  pose proof (banned_pos _ _ _ Hok Hp) as Hbp. unfold banned_since in Hf.
  destruct (connection_status i) eqn:E; try done.
  eapply ok_drop; [eassumption|eassumption|..]; solve_counts.
Qed.

Lemma reset_banned_ok db :
  db_ok db → oldest banned_since (map_to_list (peers db)) = None → db_ok (set_banned_count (MkBannedCount 0 ∅) db).
Proof.
  intros [Hd Hb Hip] Ho.
  assert (Hzero : ∀ w : PeerInfo → nat, (∀ i, banned_since i = None → w i = 0) → tally w (peers db) = 0).
  { intros w Hw. destruct (decide (0 < tally w (peers db))) as [(p & i & Hp & Hi)%tally_pos|]; [|lia].
    rewrite (Hw _ (oldest_none _ _ _ _ Ho Hp)) in Hi. lia. }
  split; cbn; [done| |intros ip]; rewrite Hzero; try lia; intros i;
    unfold banned_since, w_banned, w_banned_ip, info_is_banned; by destruct (connection_status i).
Qed.

Lemma shrink_banned_ok fuel l db : db_ok db → db_ok (shrink_banned fuel l db).2.
Proof.
  revert l db. induction fuel as [|fuel IH]; intros l db Hok; cbn [shrink_banned]; [done|].
  destruct (MAX_BANNED_PEERS <? _); [|done].
  destruct (oldest _ _) as [[[p i] t]|] eqn:Ho; apply IH; [by eapply drop_banned_ok|by apply reset_banned_ok].
Qed.

Lemma shrink_banned_bound fuel l db :
  banned_peers (banned_peers_count db) ≤ fuel →
  banned_peers (banned_peers_count (shrink_banned fuel l db).2) ≤ MAX_BANNED_PEERS.
Proof.
  revert l db. induction fuel as [|fuel IH]; intros l db Hf; cbn [shrink_banned]; [cbn; lia|].
  destruct (Nat.ltb_spec MAX_BANNED_PEERS (banned_peers (banned_peers_count db))); [|done].
  destruct (oldest _ _) as [[[p i] t]|]; apply IH; cbn; lia.
Qed.

Lemma shrink_disconnected_ok fuel db :
  db_ok db → db_ok (shrink_disconnected fuel db) ∧
  banned_peers_count (shrink_disconnected fuel db) = banned_peers_count db.
Proof.
  revert db. induction fuel as [|fuel IH]; intros db Hok; cbn [shrink_disconnected]; [done|].
  destruct (Nat.ltb_spec MAX_DC_PEERS (disconnected_peers db)) as [Hlt|]; [|done].
  destruct (oldest _ _) as [[[p i] t]|] eqn:Ho.
  - apply oldest_lookup in Ho as [Hp Hf]. unfold disconnected_since in Hf.
    pose proof (disconnected_pos _ _ _ Hok Hp) as Hdp. destruct (connection_status i) eqn:E; try done.
    edestruct IH as [IH1 IH2]; [|split; [exact IH1|exact IH2]].
    unfold drop_peer, set_disconnected. cbn. eapply ok_drop; [eassumption|eassumption|..]; solve_counts.
  - exfalso. rewrite (ok_disconnected _ Hok) in Hlt.
    destruct (tally_pos w_disconnected (peers db)) as (p & i & Hp & Hi); [lia|].
    pose proof (oldest_none _ _ _ _ Ho Hp) as Hn. unfold disconnected_since, w_disconnected, info_is_disconnected in *.
    destruct (connection_status i); cbn in *; (done || lia).
Qed.

Lemma shrink_disconnected_bound fuel db :
  disconnected_peers db ≤ fuel → disconnected_peers (shrink_disconnected fuel db) ≤ MAX_DC_PEERS.
Proof.
  revert db. induction fuel as [|fuel IH]; intros db Hf; cbn [shrink_disconnected]; [lia|].
  destruct (Nat.ltb_spec MAX_DC_PEERS (disconnected_peers db)); [|done].
  apply IH. destruct (oldest _ _) as [[[p i] t]|]; cbn; lia.
Qed.

(** The numbers of peers that are kept. *)
Definition bounded db : Prop :=
  count_peers info_is_disconnected db ≤ MAX_DC_PEERS ∧ count_peers info_is_banned db ≤ MAX_BANNED_PEERS.

Lemma shrink_to_fit_ok db : db_ok db → db_ok (shrink_to_fit db).2 ∧ bounded (shrink_to_fit db).2.
Proof.
  intros Hok. unfold shrink_to_fit.
  pose proof (shrink_banned_ok (banned_peers (banned_peers_count db)) [] db Hok) as Hok1.
  pose proof (shrink_banned_bound (banned_peers (banned_peers_count db)) [] db ltac:(done)) as Hb.
  destruct (shrink_banned _ _ _) as [l db1]. cbn [snd] in *.
  destruct (shrink_disconnected_ok (disconnected_peers db1) db1 Hok1) as [Hok2 Hc].
  pose proof (shrink_disconnected_bound (disconnected_peers db1) db1 ltac:(done)) as Hd.
  split; [done|]. unfold bounded, count_peers. rewrite <- !tally_filter. split.
  - pose proof (ok_disconnected _ Hok2) as He. unfold w_disconnected in He. lia.
  - pose proof (ok_banned _ Hok2) as He. rewrite Hc in He. unfold w_banned in He. lia.
Qed.

Lemma inject_disconnect_ok now p : maintains db_ok (inject_disconnect now p).
Proof.
  apply maintains_bind; [auto with peers|]. intros op. apply maintains_bind; [|intros; apply maintains_ret].
  intros db Hok. pose proof (proj1 (shrink_to_fit_ok db Hok)) as Hs. by destruct (shrink_to_fit db).
Qed.

Lemma inject_disconnect_bounded now p db :
  db_ok db → ∀ r, (inject_disconnect now p db).1 = Ok r → bounded (inject_disconnect now p db).2.
Proof.
  intros Hok r. pose proof (update_connection_state_ok now p NewDisconnected db Hok) as Hok1.
  unfold inject_disconnect, st_bind. destruct (update_connection_state _ _ _ _) as [[op| |] db1]; cbn in *; [|done..].
  pose proof (proj2 (shrink_to_fit_ok db1 Hok1)) as Hs. destruct (shrink_to_fit db1). done.
Qed.

End Counts.
