(* ===== verification/PeerTrust.v ===== *)
(** * Invariants of the database of peers

    The remaining operations of [PeerDB] keep its counters, and no operation
    bans a trusted peer.  [db_inv] is both. *)

From Stdlib Require Import SpecFloat.
From S2P Require Import Prelude PeerScore PeerDB PeerDBProofs.

Section Trust.
Context {P Ip H Enr : Type} `{Countable P} `{Countable Ip}.
Context (exp : f64 → f64) (HALFLIFE_DECAY : f64).
Notation PeerInfo := (PeerInfo Ip H Enr).
Notation PeerDB := (PeerDB P Ip H Enr).
Implicit Types (i : PeerInfo) (db : PeerDB) (p : P).

#[local] Hint Resolve update_connection_state_ok inject_disconnect_ok : peers.

(** Banned, or to be banned once disconnected. *)
Definition banish i : bool :=
  match connection_status i with Banned _ | Disconnecting true => true | _ => false end.

Definition info_trust i : Prop := is_trusted i = true → info_score i = Max ∧ banish i = false.
Definition trust_ok db : Prop := map_Forall (λ _ i, info_trust i) (peers db).
Definition untrusted p db : Prop := ∀ i, peers db !! p = Some i → is_trusted i = false.

Record db_inv db : Prop := { inv_counts : db_ok db; inv_trust : trust_ok db }.

(** What [update_connection_state] may do to the entry of the peer. *)
Record entry_step (bans : bool) i i' : Prop := {
  step_trusted : is_trusted i' = is_trusted i;
  step_score : is_trusted i = true → info_score i' = info_score i;
  step_banish : bans = false → banish i = false → banish i' = false;
}.

Lemma entry_step_refl bans i : entry_step bans i i.
Proof. by split. Qed.

Lemma entry_step_trans bans i1 i2 i3 : entry_step bans i1 i2 → entry_step bans i2 i3 → entry_step bans i1 i3.
Proof. intros [? ? ?] [? ? ?]. split; [congruence|intros; rewrite step_score1; auto; congruence|auto]. Qed.

Definition bans_peer (ns : NewConnectionState Ip Enr) : bool :=
  match ns with NewBanned | NewDisconnecting true => true | _ => false end.

Lemma entry_step_ban_score ns bans i : entry_step bans i (ban_score ns i).
Proof.
  destruct ns; try apply entry_step_refl. cbn. unfold apply_peer_action_to_score.
  destruct (info_score_state i), (is_trusted i) eqn:E; try apply entry_step_refl; split; cbn; first [done|congruence].
Qed.

Lemma entry_step_enr e bans i : entry_step bans i (set_enr_if e i).
Proof. by destruct e. Qed.

Lemma entry_step_connect (dir : ConnectionDirection) a i i' :
  match dir with Incoming => info_connect_ingoing a i | Outgoing => info_connect_outgoing a i end = Ok i' →
  entry_step false i i'.
Proof.
  assert (Hseen : ∀ i, entry_step false i (add_seen a i)) by by destruct a.
  unfold info_connect_ingoing, info_connect_outgoing, u8_succ.
  destruct dir; destruct (connection_status i); try case_match; intros [= <-];
    (eapply entry_step_trans; [|apply Hseen]); by split.
Qed.

(** The result of a branch, on the map of peers. *)
Ltac entry_done := eexists; split; [cbn; by rewrite ?insert_insert_eq|].

Lemma update_connection_state_peers now p ns db :
  ∃ i', peers (update_connection_state now p ns db).2 = <[p := i']> (peers db) ∧
        entry_step (bans_peer ns) (default (PeerInfo_default now) (peers db !! p)) i'.
Proof.
  unfold update_connection_state, st_bind at 1 2, st_get, st_modify at 1.
  set (i0 := default _ _). set (i := ban_score ns i0).
  assert (Hi : entry_step (bans_peer ns) i0 i) by apply entry_step_ban_score. clearbody i.
  assert (Hsplit : ∀ i', entry_step (bans_peer ns) i i' → entry_step (bans_peer ns) i0 i').
  { intros. by eapply entry_step_trans. }
  destruct ns as [e seen dir|to_ban|e| | |].
  - unfold to_connected, st_bind, st_modify, st_lift, st_ret.
    pose proof (entry_step_connect dir (socket_addr seen) (set_enr_if e i)) as Hc.
    pose proof (entry_step_enr e false i) as He.
    destruct (match dir with Incoming => _ | Outgoing => _ end) as [i'| |];
      destruct (connection_status (set_enr_if e i)); entry_done;
      first [apply Hsplit; eapply entry_step_trans; [exact He|by apply Hc]|done].
  - unfold to_disconnecting, st_bind, st_modify, st_ret.
    destruct (connection_status i); entry_done; apply Hsplit; split; try done; by destruct to_ban.
  - unfold to_dialing, st_bind, st_modify, st_ret.
    assert (Hd : entry_step false (set_enr_if e i) (set_dialing_peer now (set_enr_if e i))).
    { unfold set_dialing_peer. by destruct (connection_status (set_enr_if e i)). }
    destruct (connection_status i); entry_done; apply Hsplit; (eapply entry_step_trans; [|exact Hd]);
      apply entry_step_enr.
  - unfold to_disconnected, ban_now, ready_to_ban, st_bind, st_modify, st_get, st_ret.
    destruct (connection_status i) as [|[]| | | |] eqn:E; entry_done; first [done|apply Hsplit; split; try done].
    unfold banish. by rewrite E.
  - unfold to_banned, ban_now, ready_to_ban, st_bind, st_modify, st_get, st_ret.
    destruct (connection_status i); entry_done; first [done|apply Hsplit; by split].
  - unfold to_unbanned, st_bind, st_modify, st_ret.
    destruct (connection_status i); entry_done; first [done|apply Hsplit; by split].
Qed.

Lemma update_connection_state_untrusted now p ns q db :
  untrusted q db → untrusted q (update_connection_state now p ns db).2.
Proof.
  intros Hq i. destruct (update_connection_state_peers now p ns db) as (i' & -> & [Ht _ _]).
  destruct (decide (p = q)) as [->|]; [|rewrite lookup_insert_ne by done; apply Hq].
  rewrite lookup_insert_eq. intros [= <-]. rewrite Ht.
  destruct (peers db !! q) eqn:E; [by apply Hq|done].
Qed.

Lemma update_connection_state_inv now p ns db :
  (bans_peer ns = true → untrusted p db) → db_inv db → db_inv (update_connection_state now p ns db).2.
Proof.
  intros Hb [Hok Ht]. split; [by apply update_connection_state_ok|]. unfold trust_ok.
  destruct (update_connection_state_peers now p ns db) as (i' & -> & [Hst Hss Hsb]).
  apply map_Forall_insert_2; [|done]. intros Htr. rewrite Hst in Htr.
  destruct (peers db !! p) as [i|] eqn:E; [|done]. change (is_trusted i = true) in Htr.
  destruct (Ht p i E Htr) as [Hmax Hban]. split; [by rewrite Hss|]. apply Hsb; [|done].
  destruct (bans_peer ns); [|done]. rewrite (Hb eq_refl i E) in Htr. done.
Qed.

Lemma update_connection_state_keeps now p ns :
  bans_peer ns = false → maintains db_inv (update_connection_state now p ns).
Proof. intros Hns db Hi. apply update_connection_state_inv; [congruence|done]. Qed.

(** ** The other operations *)

Lemma inv_init trusted : db_inv (PeerDB_new trusted).
Proof.
  split; [apply ok_init|]. intros p i Hp _. cbn in Hp. apply elem_of_list_to_map_2 in Hp.
  by apply list_elem_of_fmap in Hp as (? & [= -> ->] & _).
Qed.

(** An entry is touched: the status stays and a trusted peer keeps its score. *)
Definition mild i i' : Prop := same_status i i' ∧ entry_step false i i'.

Lemma mild_trust i i' : mild i i' → info_trust i → info_trust i'.
Proof. intros [_ [Ht Hs Hb]] Hi Htr. rewrite Ht in Htr. destruct (Hi Htr). rewrite Hs by done. auto. Qed.

Lemma inv_set_info p i i' db : db_inv db → peers db !! p = Some i → mild i i' → db_inv (set_info p i' db).
Proof.
  intros [Hok Ht] Hp Hm. split; [by eapply ok_same, Hm|].
  apply map_Forall_insert_2; [|done]. eapply mild_trust; [done|]. by eapply Ht.
Qed.

Lemma inv_touch now p f db :
  (∀ i, mild i (f i)) → db_inv db →
  db_inv (set_info p (f (default (PeerInfo_default now) (peers db !! p))) db).
Proof.
  intros Hf [Hok Ht]. split; [apply ok_touch; [intros; apply Hf|done]|].
  apply map_Forall_insert_2; [|done]. eapply mild_trust; [apply Hf|].
  destruct (peers db !! p) eqn:E; [by eapply Ht|done].
Qed.

Lemma mild_action a i : mild i (apply_peer_action_to_score a i).
Proof. unfold apply_peer_action_to_score. destruct (is_trusted i) eqn:E; split; try done; split; cbn; first [done|congruence]. Qed.

Lemma mild_update now i : mild i (score_update exp HALFLIFE_DECAY now i).
Proof. unfold score_update. destruct (is_trusted i) eqn:E; split; try done; split; cbn; first [done|congruence]. Qed.

(** A transition to a ban shows that the peer is not trusted. *)
Lemma transition_untrusted previous i :
  handle_score_transition previous i = STBanned → info_trust i → is_trusted i = false.
Proof.
  intros Hb Hi. destruct (is_trusted i) eqn:E; [|done]. destruct (Hi E) as [Hmax _].
  unfold handle_score_transition, info_score_state in Hb. rewrite Hmax, max_healthy in Hb. by destruct previous.
Qed.

Lemma shrink_banned_trust fuel l db : trust_ok db → trust_ok (shrink_banned fuel l db).2.
Proof.
  revert l db. induction fuel as [|fuel IH]; intros l db Ht; cbn [shrink_banned]; [done|].
  destruct (MAX_BANNED_PEERS <? _); [|done].
  destruct (oldest _ _) as [[[p i] t]|]; apply IH; [by apply map_Forall_delete|done].
Qed.

Lemma shrink_disconnected_trust fuel db : trust_ok db → trust_ok (shrink_disconnected fuel db).
Proof.
  revert db. induction fuel as [|fuel IH]; intros db Ht; cbn [shrink_disconnected]; [done|].
  destruct (MAX_DC_PEERS <? _); [|done].
  apply IH. destruct (oldest _ _) as [[[p i] t]|]; [by apply map_Forall_delete|done].
Qed.

Lemma shrink_to_fit_trust db : trust_ok db → trust_ok (shrink_to_fit db).2.
Proof.
  intros Ht. unfold shrink_to_fit. pose proof (shrink_banned_trust (banned_peers (banned_peers_count db)) [] db Ht).
  destruct (shrink_banned _ _ _). by apply shrink_disconnected_trust.
Qed.

Lemma inject_disconnect_inv now p : maintains db_inv (inject_disconnect now p).
Proof.
  apply maintains_bind; [by apply update_connection_state_keeps|].
  intros op. apply maintains_bind; [|intros; apply maintains_ret].
  intros db [Hok Ht]. pose proof (proj1 (shrink_to_fit_ok db Hok)). pose proof (shrink_to_fit_trust db Ht).
  by destruct (shrink_to_fit db).
Qed.

Lemma st_bind_snd {S A B} (m : st S A) (f : A → st S B) s (Q : S → Prop) :
  Q (m s).2 → (∀ a s', m s = (Ok a, s') → Q (f a s').2) → Q (st_bind m f s).2.
Proof. unfold st_bind. destruct (m s) as [[a| |] s']; cbn; auto. Qed.

Lemma report_peer_inv now p a : maintains db_inv (report_peer now p a).
Proof.
  apply maintains_get. intros db Hi. destruct (peers db !! p) as [i|] eqn:Hp; [|done].
  set (i' := apply_peer_action_to_score a i).
  assert (Hi' : db_inv (set_info p i' db)) by (eapply inv_set_info; [done..|apply mild_action]).
  unfold st_bind at 1, st_modify at 1.
  destruct (handle_score_transition (info_score_state i) i') eqn:Htr; try done.
  - apply (maintains_bind db_inv); [by apply update_connection_state_keeps|intros; apply maintains_ret|done].
  - assert (Hun : untrusted p (set_info p i' db)).
    { intros j. rewrite lookup_set_info. intros [= <-]. eapply transition_untrusted; [done|].
      eapply (inv_trust _ Hi'), lookup_set_info. }
    apply st_bind_snd; [by apply update_connection_state_inv|].
    intros op s' E. cbn. replace s' with (update_connection_state now p NewBanned (set_info p i' db)).2 by by rewrite E.
    by apply update_connection_state_inv.
Qed.

Lemma unban_inv now p : maintains db_inv (unban now p).
Proof. apply maintains_bind; [by apply update_connection_state_keeps|]. intros. by apply maintains_get. Qed.

Lemma update_scores_inv now : maintains db_inv (update_scores exp HALFLIFE_DECAY now).
Proof.
  apply maintains_get. intros db [Hok Ht]. unfold st_bind at 1, st_modify at 1.
  apply (maintains_collect db_inv).
  { intros p _. apply maintains_bind; [apply unban_inv|intros; apply maintains_ret]. }
  split.
  - destruct Hok as [Hd Hb Hip]. split; cbn; intros; rewrite tally_fmap; auto;
      intros i; by destruct (same_status_weights _ _ (proj1 (mild_update now i))) as (? & ? & ?).
  - intros p i. cbn. rewrite lookup_fmap. destruct (peers db !! p) as [j|] eqn:E; [|done]. intros [= <-].
    eapply mild_trust; [apply mild_update|by eapply Ht].
Qed.

Lemma update_min_ttl_inv now p ttl : maintains db_inv (update_min_ttl now p ttl).
Proof.
  apply maintains_modify. intros db Hi.
  apply (inv_touch now p (λ i, match min_ttl i with
                               | Some t => if (t <? ttl)%Z then set_min_ttl ttl i else i
                               | None => set_min_ttl ttl i
                               end)); [|done].
  intros i. destruct (min_ttl i) as [t|]; [destruct (t <? ttl)%Z|]; by split.
Qed.

Lemma db_update_sync_status_inv p s : maintains db_inv (db_update_sync_status p s).
Proof.
  intros db Hi. unfold db_update_sync_status. destruct (peers db !! p) as [i|] eqn:E; [|done]. cbn.
  by eapply inv_set_info.
Qed.

Lemma cleanup_dialing_peers_inv now : maintains db_inv (cleanup_dialing_peers now).
Proof.
  apply maintains_get. intros db Hi. apply (maintains_for db_inv); [|done].
  intros p. apply maintains_bind; [by apply update_connection_state_keeps|intros; apply maintains_ret].
Qed.

(** ** Scores of gossipsub *)

Lemma mild_gossip now x ignore i : info_trust i → mild i (info_update_gossipsub_score now x ignore i).
Proof.
  intros Hi. split; [done|]. split; try done. intros Ht. destruct (Hi Ht) as [Hmax _]. cbn. by rewrite Hmax.
Qed.

(** The trust in other peers stays, the peers to ban are not trusted. *)
Definition gossip_ok db (bans : P → Prop) db' : Prop :=
  db_inv db' ∧ (∀ q, bans q → untrusted q db') ∧ (∀ q, untrusted q db → untrusted q db').

Lemma gossip_one_ok now p x n db a n' db' :
  db_inv db → gossip_one now p x n db = (a, n', db') → gossip_ok db (λ q, a = Some (q, STBanned)) db'.
Proof.
  intros Hi. unfold gossip_one. destruct (peers db !! p) as [i|] eqn:Hp; intros [= <- <- <-]; [|by split_and!].
  pose proof (inv_trust _ Hi p i Hp) as Hti.
  set (i' := info_update_gossipsub_score _ _ _ _).
  assert (Hm : mild i i') by by apply mild_gossip. split_and!.
  - by eapply inv_set_info.
  - intros q [= -> Hb] j. rewrite lookup_set_info. intros [= <-].
    eapply transition_untrusted; [done|by eapply mild_trust].
  - intros q Hq j. cbn. destruct (decide (p = q)) as [->|]; [|rewrite lookup_insert_ne by done; apply Hq].
    rewrite lookup_insert_eq. intros [= <-]. apply (Hq i Hp).
Qed.

Lemma gossip_all_ok now l n db as_ db' :
  db_inv db → gossip_all now l n db = (as_, db') → gossip_ok db (λ q, (q, STBanned) ∈ as_) db'.
Proof.
  revert n db as_ db'. induction l as [|[p x] l IH]; intros n db as_ db' Hi; cbn [gossip_all].
  { intros [= <- <-]. split_and!; [done| |done]. by intros q ?%not_elem_of_nil. }
  destruct (gossip_one now p x n db) as [[a n1] db1] eqn:E1.
  destruct (gossip_one_ok _ _ _ _ _ _ _ _ Hi E1) as (Hi1 & Hb1 & Hu1).
  destruct (gossip_all now l n1 db1) as [as1 db2] eqn:E2.
  destruct (IH _ _ _ _ Hi1 E2) as (Hi2 & Hb2 & Hu2). intros [= <- <-].
  split_and!; [done| |auto]. intros q Hq. destruct a as [a|]; [|auto].
  apply elem_of_cons in Hq as [Ha|]; [|auto]. apply Hu2, Hb1. by rewrite Ha.
Qed.

Lemma handle_action_ok now p a (L : P → Prop) :
  (a = STBanned → L p) →
  maintains (λ db, db_inv db ∧ ∀ q, L q → untrusted q db) (handle_action now p a).
Proof.
  intros HL.
  assert (Hucs : ∀ ns, (bans_peer ns = true → L p) →
    maintains (λ db, db_inv db ∧ ∀ q, L q → untrusted q db) (update_connection_state now p ns)).
  { intros ns Hns db [Hi Hu]. split; [apply update_connection_state_inv; auto|].
    intros. by apply update_connection_state_untrusted, Hu. }
  destruct a; cbn [handle_action].
  - apply maintains_bind; [by apply Hucs|intros; apply maintains_ret].
  - apply maintains_bind; [apply Hucs; auto|intros; apply maintains_ret].
  - apply maintains_bind; [by apply Hucs|]. intros. by apply maintains_get.
  - apply maintains_ret.
Qed.

Lemma update_gossipsub_scores_inv now target score : maintains db_inv (update_gossipsub_scores now target score).
Proof.
  apply maintains_get. intros db Hi. unfold st_bind at 1.
  destruct (gossip_all now _ _ db) as [as_ db1] eqn:E.
  destruct (gossip_all_ok _ _ _ _ _ _ Hi E) as (Hi1 & Hb1 & _).
  refine (proj1 (maintains_bind (λ db, db_inv db ∧ ∀ q, (q, STBanned) ∈ as_ → untrusted q db) _ _ _ _ _ _));
    [|intros; apply maintains_ret|done].
  apply maintains_collect. intros [p a] Hin. apply maintains_bind; [|intros; apply maintains_ret].
  apply (handle_action_ok now p a (λ q, (q, STBanned) ∈ as_)). by intros ->.
Qed.

End Trust.
