(* ===== verification/PeerManager.v ===== *)
(** * The peer manager

    Model of [node/network/src/peer_manager/mod.rs] and of its handlers of
    connection events in [network_behaviour.rs].

    The manager owns the database of peers.  Its timers ([HashSetDelay]) are
    sets of the peers they hold; a timer that fires is an event.  [shuffle1] and
    [shuffle2] are the random orders that [rand] gives to the two passes of the
    pruning.  Metrics and logging are left out. *)

From Stdlib Require Import SpecFloat.
From S2P Require Import Prelude PeerScore PeerDB.

Inductive GoodbyeReason :=
| ClientShutdown | IrrelevantNetwork | Fault | UnableToVerifyNetwork | TooManyPeers
| GBadScore | GBanned | GBannedIP | GUnknown.

Inductive RPCResponseErrorCode := RateLimited | InvalidRequest | ServerError | ResourceUnavailable | RUnknown.

Inductive RPCError :=
| SSZDecodeError | IoError | ErrorResponse (code : RPCResponseErrorCode) | StreamTimeout | UnsupportedProtocol
| IncompleteStream | InvalidData | InternalError | NegotiationTimeout | HandlerRejected | RPCDisconnected.

(** [rpc::Protocol] *)
Inductive RPCProtocol := Status | Goodbye | Ping | DataByHash | GetChunks.

Definition PEER_EXCESS_FACTOR : f32 := f32_tenths 1.
Definition TARGET_OUTBOUND_ONLY_FACTOR : f32 := f32_tenths 3.
Definition MIN_OUTBOUND_ONLY_FACTOR : f32 := f32_tenths 2.
Definition PRIORITY_PEER_EXCESS : f32 := f32_tenths 2.

(** [(target_peers as f32 * factor).ceil() as usize] *)
Definition scaled (target_peers : nat) (factor : f32) : nat :=
  Z.to_nat (ceil_as_usize (f32_mul (f32_of (Z.of_nat target_peers)) factor)).

Definition max_peers (target_peers : nat) : nat := scaled target_peers (f32_add (f32_of 1) PEER_EXCESS_FACTOR).
Definition max_priority_peers (target_peers : nat) : nat :=
  scaled target_peers (f32_add (f32_add (f32_of 1) PEER_EXCESS_FACTOR) PRIORITY_PEER_EXCESS).
Definition min_outbound_only_peers (target_peers : nat) : nat := scaled target_peers MIN_OUTBOUND_ONLY_FACTOR.
Definition target_outbound_peers (target_peers : nat) : nat := scaled target_peers TARGET_OUTBOUND_ONLY_FACTOR.
Definition max_outbound_dialing_peers (target_peers : nat) : nat :=
  scaled target_peers
    (f32_add (f32_add (f32_of 1) PEER_EXCESS_FACTOR) (f32_div PRIORITY_PEER_EXCESS (f32_of 2))).

Inductive PeerManagerEvent (P Ip : Type) :=
| PeerConnectedIncoming (peer_id : P)
| PeerConnectedOutgoing (peer_id : P)
| PeerDisconnected (peer_id : P)
| EvStatus (peer_id : P)
| EvPing (peer_id : P)
| DisconnectPeer (peer_id : P) (reason : GoodbyeReason)
| EvBanned (peer_id : P) (ips : list Ip)
| UnBanned (peer_id : P) (ips : list Ip)
| DiscoverPeers (n : nat).
Arguments PeerConnectedIncoming {P Ip}.
Arguments PeerConnectedOutgoing {P Ip}.
Arguments PeerDisconnected {P Ip}.
Arguments EvStatus {P Ip}.
Arguments EvPing {P Ip}.
Arguments DisconnectPeer {P Ip}.
Arguments EvBanned {P Ip}.
Arguments UnBanned {P Ip}.
Arguments DiscoverPeers {P Ip}.

Record PeerManager (P Ip H Enr : Type) `{Countable P} `{Countable Ip} := MkPeerManager {
  pm_db : PeerDB P Ip H Enr;
  events : list (PeerManagerEvent P Ip);
  inbound_ping_peers : gset P;
  outbound_ping_peers : gset P;
  status_peers : gset P;
  target_peers : nat;
  discovery_enabled : bool;
}.
Arguments MkPeerManager {P Ip H Enr _ _ _ _}.
Arguments pm_db {P Ip H Enr _ _ _ _}.
Arguments events {P Ip H Enr _ _ _ _}.
Arguments inbound_ping_peers {P Ip H Enr _ _ _ _}.
Arguments outbound_ping_peers {P Ip H Enr _ _ _ _}.
Arguments status_peers {P Ip H Enr _ _ _ _}.
Arguments target_peers {P Ip H Enr _ _ _ _}.
Arguments discovery_enabled {P Ip H Enr _ _ _ _}.

Section Manager.
Context {P Ip H Enr : Type} `{Countable P} `{Countable Ip}.
Context (exp : f64 → f64) (HALFLIFE_DECAY : f64).
Context (shuffle1 shuffle2 : list (P * PeerInfo Ip H Enr) → list (P * PeerInfo Ip H Enr)).
Notation PeerInfo := (PeerInfo Ip H Enr).
Notation PeerManager := (PeerManager P Ip H Enr).

Definition PeerManager_new (db : PeerDB P Ip H Enr) (target : nat) (discovery : bool) : PeerManager :=
  MkPeerManager db [] ∅ ∅ ∅ target discovery.

Definition set_db db (m : PeerManager) : PeerManager :=
  MkPeerManager db (events m) (inbound_ping_peers m) (outbound_ping_peers m) (status_peers m)
    (target_peers m) (discovery_enabled m).
Definition set_timers i o s (m : PeerManager) : PeerManager :=
  MkPeerManager (pm_db m) (events m) i o s (target_peers m) (discovery_enabled m).
Definition push_event (e : PeerManagerEvent P Ip) : st PeerManager unit :=
  st_modify (λ m, MkPeerManager (pm_db m) (events m ++ [e]) (inbound_ping_peers m) (outbound_ping_peers m)
                    (status_peers m) (target_peers m) (discovery_enabled m)).

(** [self.network_globals.peers.write()] *)
Definition on_db {A} (f : st (PeerDB P Ip H Enr) A) : st PeerManager A := st_zoom pm_db set_db f.

(** ** Counts of [NetworkGlobals] *)

Definition connected_peers (m : PeerManager) : nat := count_peers info_is_connected (pm_db m).
Definition connected_outbound_only_peers (m : PeerManager) : nat := count_peers info_is_outbound_only (pm_db m).
Definition connected_or_dialing_peers (m : PeerManager) : nat :=
  count_peers (λ i, info_is_connected i || info_is_dialing i) (pm_db m).

(** ** Scores *)

Definition handle_ban_operation (peer_id : P) (op : BanOperation Ip) (reason : option GoodbyeReason)
    : st PeerManager unit :=
  match op with
  | DisconnectThePeer => push_event (DisconnectPeer peer_id (default GBadScore reason))
  | PeerDisconnecting => st_ret tt
  | ReadyToBan banned_ips => push_event (EvBanned peer_id banned_ips)
  end.

Definition handle_score_action (peer_id : P) (action : ScoreUpdateResult Ip) (reason : option GoodbyeReason)
    : st PeerManager unit :=
  match action with
  | UBan op => handle_ban_operation peer_id op reason
  | UDisconnect => push_event (DisconnectPeer peer_id GBadScore)
  | UNoAction => st_ret tt
  | UUnbanned ips => push_event (UnBanned peer_id ips)
  end.

Definition pm_report_peer (now : Z) (peer_id : P) (action : PeerAction) (reason : option GoodbyeReason)
    : st PeerManager unit :=
  let! action := on_db (report_peer now peer_id action) in
  handle_score_action peer_id action reason.

Definition goodbye_peer (now : Z) (peer_id : P) (reason : GoodbyeReason) : st PeerManager unit :=
  (match reason with
   | IrrelevantNetwork => on_db (db_update_sync_status peer_id IrrelevantPeer) ;; st_ret tt
   | _ => st_ret tt
   end) ;;
  pm_report_peer now peer_id Fatal (Some reason).

(** The action of an error of the RPC, if any. *)
Definition rpc_error_action (protocol : RPCProtocol) (err : RPCError) (dir : ConnectionDirection) : option PeerAction :=
  match err with
  | IncompleteStream => Some MidToleranceError
  | InternalError | HandlerRejected => None
  | InvalidData => Some Fatal
  | IoError => Some HighToleranceError
  | ErrorResponse code =>
      match code with
      | RUnknown => Some HighToleranceError
      | ResourceUnavailable => Some Fatal
      | ServerError => Some MidToleranceError
      | InvalidRequest => Some LowToleranceError
      | RateLimited =>
          match protocol with
          | Ping => Some MidToleranceError
          | Goodbye | Status => Some LowToleranceError
          | DataByHash | GetChunks => Some MidToleranceError
          end
      end
  | SSZDecodeError => Some Fatal
  | UnsupportedProtocol =>
      match protocol with
      | Ping => Some Fatal
      | Goodbye => None
      | Status => Some LowToleranceError
      | DataByHash | GetChunks => None
      end
  | StreamTimeout =>
      match dir with
      | Incoming => None
      | Outgoing =>
          match protocol with
          | Ping => Some LowToleranceError
          | Goodbye | Status => None
          | DataByHash | GetChunks => Some MidToleranceError
          end
      end
  | NegotiationTimeout => Some LowToleranceError
  | RPCDisconnected => None
  end.

Definition handle_rpc_error (now : Z) (peer_id : P) (protocol : RPCProtocol) (err : RPCError)
    (dir : ConnectionDirection) : st PeerManager unit :=
  match rpc_error_action protocol err dir with
  | Some action => pm_report_peer now peer_id action None
  | None => st_ret tt
  end.

Definition pm_update_gossipsub_scores (now : Z) (peer_score : P → option f64) : st PeerManager unit :=
  let! m := st_get in
  let! actions := on_db (update_gossipsub_scores now (Z.of_nat (target_peers m)) peer_score) in
  st_for actions (λ '(p, a), handle_score_action p a None).

(** ** Discovery *)

Definition maintain_peer_count (dialing_peers : nat) : st PeerManager unit :=
  let! m := st_get in
  if negb (discovery_enabled m) then st_ret tt else
  let peer_count := connected_or_dialing_peers m in
  let! wanted_peers :=
    (if peer_count <? target_peers m - dialing_peers then
       st_ret ((target_peers m - dialing_peers - peer_count) `min` 16)
     else if (connected_outbound_only_peers m <? min_outbound_only_peers (target_peers m))
             && (peer_count <? max_outbound_dialing_peers (target_peers m)) then
       let! n := st_lift (checked_sub (max_outbound_dialing_peers (target_peers m) - dialing_peers) peer_count) in
       st_ret (n `min` 16)
     else st_ret 0) in
  if wanted_peers =? 0 then st_ret tt else push_event (DiscoverPeers wanted_peers).

(** The loop of [peers_discovered]; [connected_or_dialing] is read before it. *)
Fixpoint select_to_dial (now : Z) (connected_or_dialing : nat) (results : list (P * option Z)) (to_dial : list P)
    : st PeerManager (list P) :=
  match results with
  | [] => st_ret to_dial
  | (peer_id, ttl) :: results =>
      let! m := st_get in
      let n := connected_or_dialing + length to_dial in
      if ((bool_decide (is_Some ttl) && (n <? max_priority_peers (target_peers m)))
          || (n <? max_peers (target_peers m)))
         && should_dial peer_id (pm_db m) then
        (match ttl with
         | Some ttl => on_db (update_min_ttl now peer_id ttl)
         | None => st_ret tt
         end) ;;
        select_to_dial now connected_or_dialing results (to_dial ++ [peer_id])
      else select_to_dial now connected_or_dialing results to_dial
  end.

Definition peers_discovered (now : Z) (results : list (P * option Z)) : st PeerManager (list P) :=
  let! m := st_get in
  let! to_dial_peers := select_to_dial now (connected_or_dialing_peers m) results [] in
  maintain_peer_count (length to_dial_peers) ;;
  st_ret to_dial_peers.

Definition peer_limit_reached (count_dialing : bool) (m : PeerManager) : bool :=
  if count_dialing then max_peers (target_peers m) <=? connected_or_dialing_peers m
  else max_outbound_dialing_peers (target_peers m) <=? connected_peers m.

(** ** Timers *)

Definition insert_timers (inbound outbound status : bool) (p : P) : st PeerManager unit :=
  st_modify (λ m, set_timers
    (if inbound then {[p]} ∪ inbound_ping_peers m else inbound_ping_peers m)
    (if outbound then {[p]} ∪ outbound_ping_peers m else outbound_ping_peers m)
    (if status then {[p]} ∪ status_peers m else status_peers m) m).

Definition peer_statusd (peer_id : P) : st PeerManager unit := insert_timers false false true peer_id.

Definition ping_request (peer_id : P) : st PeerManager unit :=
  let! m := st_get in
  match peers (pm_db m) !! peer_id ≫= connection_direction with
  | Some Incoming => insert_timers true false false peer_id
  | Some Outgoing => insert_timers false true false peer_id
  | None => st_ret tt
  end.

(** A timer of [poll] fires: it is started again. *)
Definition ping_timeout (inbound : bool) (peer_id : P) : st PeerManager unit :=
  insert_timers inbound (negb inbound) false peer_id ;; push_event (EvPing peer_id).
Definition status_timeout (peer_id : P) : st PeerManager unit :=
  insert_timers false false true peer_id ;; push_event (EvStatus peer_id).

(** ** Connections *)

Definition pm_inject_disconnect (now : Z) (peer_id : P) : st PeerManager unit :=
  let! r := on_db (inject_disconnect now peer_id) in
  (match r.1 with
   | Some op => handle_ban_operation peer_id op None
   | None => st_ret tt
   end) ;;
  st_modify (λ m, set_timers (inbound_ping_peers m ∖ {[peer_id]}) (outbound_ping_peers m ∖ {[peer_id]})
                    (status_peers m ∖ {[peer_id]}) m) ;;
  st_for r.2 (λ '(p, ips), push_event (UnBanned p ips)).

Definition inject_dialing (now : Z) (peer_id : P) (e : option Enr) : st PeerManager unit :=
  on_db (dialing_peer now peer_id e) ;; st_ret tt.
Definition inject_connect_ingoing (now : Z) (peer_id : P) (multiaddr : list (Protocol Ip)) (e : option Enr)
    : st PeerManager unit :=
  on_db (connect_ingoing now peer_id multiaddr e) ;; insert_timers true false true peer_id.
Definition inject_connect_outgoing (now : Z) (peer_id : P) (multiaddr : list (Protocol Ip)) (e : option Enr)
    : st PeerManager unit :=
  on_db (connect_outgoing now peer_id multiaddr e) ;; insert_timers false true true peer_id.

Definition disconnect_peer (now : Z) (peer_id : P) (reason : GoodbyeReason) : st PeerManager unit :=
  push_event (DisconnectPeer peer_id reason) ;;
  on_db (notify_disconnecting now peer_id false) ;; st_ret tt.

(** [endpoint] is the direction and the address of the connection. *)
Definition inject_connection_established (now : Z) (peer_id : P) (dir : ConnectionDirection)
    (address : list (Protocol Ip)) : st PeerManager unit :=
  let! m := st_get in
  match ban_status peer_id (pm_db m) with
  | BadScore => goodbye_peer now peer_id GBanned
  | BannedIp _ => goodbye_peer now peer_id GBannedIP
  | NotBanned =>
      let count_dialing := match dir with Incoming => true | Outgoing => false end in
      let no_duty := match peers (pm_db m) !! peer_id with
                     | Some i => negb (has_future_duty now i)
                     | None => true
                     end in
      if peer_limit_reached count_dialing m && no_duty then disconnect_peer now peer_id TooManyPeers
      else match dir with
           | Incoming =>
               inject_connect_ingoing now peer_id address None ;; push_event (PeerConnectedIncoming peer_id)
           | Outgoing =>
               inject_connect_outgoing now peer_id address None ;; push_event (PeerConnectedOutgoing peer_id)
           end
  end.

Definition inject_connection_closed (now : Z) (peer_id : P) (remaining_established : nat) : st PeerManager unit :=
  if 0 <? remaining_established then st_ret tt else
  let! m := st_get in
  (if is_connected_or_disconnecting peer_id (pm_db m) then push_event (PeerDisconnected peer_id) else st_ret tt) ;;
  pm_inject_disconnect now peer_id.

Definition inject_dial_failure (now : Z) (peer_id : option P) : st PeerManager unit :=
  match peer_id with
  | Some peer_id =>
      let! m := st_get in
      if db_is_connected peer_id (pm_db m) then st_ret tt else pm_inject_disconnect now peer_id
  | None => st_ret tt
  end.

(** ** Pruning *)

(** [sort_by_key(|(_, info)| info.score())], stable *)
Fixpoint insert_by_score (x : P * PeerInfo) (l : list (P * PeerInfo)) : list (P * PeerInfo) :=
  match l with
  | [] => [x]
  | y :: l => if SFltb (score_value (info_score y.2)) (score_value (info_score x.2))
              then y :: insert_by_score x l else x :: y :: l
  end.

Definition worst_connected_peers (shuffle : list (P * PeerInfo) → list (P * PeerInfo)) (m : PeerManager) : list (P * PeerInfo) :=
  foldr insert_by_score [] (shuffle (List.filter (λ x, info_is_connected x.2) (map_to_list (peers (pm_db m))))).

(** The peers to prune and the number of outbound ones among them. *)
Definition prune_state : Type := gset P * nat.

(** The body of the macro [prune_peers!] after its filter; [excess] peers are to
    be pruned. *)
Fixpoint prune_loop (excess target_outbound connected_outbound : nat) (s : prune_state)
    (l : list (P * PeerInfo)) : prune_state :=
  match l with
  | [] => s
  | (peer_id, info) :: l =>
      let '(to_prune, outbound_pruned) := s in
      if excess <=? size to_prune then s
      else if decide (peer_id ∈ to_prune) then prune_loop excess target_outbound connected_outbound s l
      else if info_is_outbound_only info then
        if target_outbound + outbound_pruned <? connected_outbound
        then prune_loop excess target_outbound connected_outbound ({[peer_id]} ∪ to_prune, S outbound_pruned) l
        else prune_loop excess target_outbound connected_outbound s l
      else prune_loop excess target_outbound connected_outbound ({[peer_id]} ∪ to_prune, outbound_pruned) l
  end.

Definition prune_peers shuffle (now : Z) (m : PeerManager) (f : PeerInfo → bool) (s : prune_state) : prune_state :=
  prune_loop (connected_peers m - target_peers m) (target_outbound_peers (target_peers m))
    (connected_outbound_only_peers m) s
    (List.filter (λ x, negb (has_future_duty now x.2) && f x.2) (worst_connected_peers shuffle m)).

(** The set [peers_to_prune] of [prune_excess_peers]. *)
Definition peers_to_prune (now : Z) (m : PeerManager) : gset P :=
  let s := prune_peers shuffle1 now m (λ i, SFltb (score_value (info_score i)) (f64_of 0)) (∅, 0) in
  let s := if size s.1 <? connected_peers m - target_peers m then prune_peers shuffle2 now m (λ _, true) s else s in
  s.1.

Definition prune_excess_peers (now : Z) : st PeerManager unit :=
  let! m := st_get in
  if connected_peers m <=? target_peers m then st_ret tt
  else st_for (elements (peers_to_prune now m)) (λ p, disconnect_peer now p TooManyPeers).

Definition heartbeat (now : Z) : st PeerManager unit :=
  maintain_peer_count 0 ;;
  on_db (cleanup_dialing_peers now) ;;
  let! actions := on_db (update_scores exp HALFLIFE_DECAY now) in
  st_for actions (λ '(p, a), handle_score_action p a None) ;;
  prune_excess_peers now.

End Manager.
