(* ===== verification/PeerManagerProofs.v ===== *)
(** * Proofs about the peer manager

    Every operation of the manager keeps the invariant of the database of
    peers, and the pruning of excess peers meets its specification. *)

From Stdlib Require Import SpecFloat.
From S2P Require Import Prelude PeerScore PeerDB PeerDBProofs PeerTrust PeerManager.

Create HintDb pm.

Section Invariant.
Context {P Ip H Enr : Type} `{Countable P} `{Countable Ip}.
Context (exp : f64 → f64) (HALFLIFE_DECAY : f64).
Context (shuffle1 shuffle2 : list (P * PeerInfo Ip H Enr) → list (P * PeerInfo Ip H Enr)).
Notation PeerInfo := (PeerInfo Ip H Enr).
Notation PeerManager := (PeerManager P Ip H Enr).
Implicit Types (m : PeerManager) (p : P).

(** ** The calls of the manager *)

Inductive pm_op :=
| OpReport (now : Z) (p : P) (a : PeerAction) (reason : option GoodbyeReason)
| OpGoodbye (now : Z) (p : P) (reason : GoodbyeReason)
| OpRpcError (now : Z) (p : P) (protocol : RPCProtocol) (err : RPCError) (dir : ConnectionDirection)
| OpGossip (now : Z) (peer_score : P → option f64)
| OpDiscovered (now : Z) (results : list (P * option Z))
| OpStatusd (p : P)
| OpPing (p : P)
| OpPingTimeout (inbound : bool) (p : P)
| OpStatusTimeout (p : P)
| OpDialing (now : Z) (p : P) (e : option Enr)
| OpEstablished (now : Z) (p : P) (dir : ConnectionDirection) (address : list (Protocol Ip))
| OpClosed (now : Z) (p : P) (remaining : nat)
| OpDialFailure (now : Z) (p : option P)
| OpSyncStatus (p : P) (s : SyncStatus H)
| OpHeartbeat (now : Z).

Definition exec_pm_op (op : pm_op) : st PeerManager unit :=
  match op with
  | OpReport now p a reason => pm_report_peer now p a reason
  | OpGoodbye now p reason => goodbye_peer now p reason
  | OpRpcError now p protocol err dir => handle_rpc_error now p protocol err dir
  | OpGossip now peer_score => pm_update_gossipsub_scores now peer_score
  | OpDiscovered now results => let! _ := peers_discovered now results in st_ret tt
  | OpStatusd p => peer_statusd p
  | OpPing p => ping_request p
  | OpPingTimeout inbound p => ping_timeout inbound p
  | OpStatusTimeout p => status_timeout p
  | OpDialing now p e => inject_dialing now p e
  | OpEstablished now p dir address => inject_connection_established now p dir address
  | OpClosed now p remaining => inject_connection_closed now p remaining
  | OpDialFailure now p => inject_dial_failure now p
  | OpSyncStatus p s => let! _ := on_db (db_update_sync_status p s) in st_ret tt
  | OpHeartbeat now => heartbeat exp HALFLIFE_DECAY shuffle1 shuffle2 now
  end.

(** The states of a manager that starts with the trusted peers. *)
Inductive reachable (trusted : list P) (target : nat) (discovery : bool) : PeerManager → Prop :=
| reach_init : reachable trusted target discovery (PeerManager_new (PeerDB_new trusted) target discovery)
| reach_step m op : reachable trusted target discovery m → reachable trusted target discovery (exec_pm_op op m).2.

(** ** The invariant *)

Definition pm_inv m : Prop := db_inv (pm_db m).

Lemma pm_on_db {A} (f : st (PeerDB P Ip H Enr) A) : maintains db_inv f → maintains pm_inv (on_db f).
Proof.
  intros Hf m Hm. unfold on_db, st_zoom. specialize (Hf (pm_db m) Hm).
  by destruct (f (pm_db m)).
Qed.

Lemma pm_push e : maintains pm_inv (push_event e).
Proof. by apply maintains_modify. Qed.

Lemma pm_timers a b c p : maintains pm_inv (insert_timers a b c p).
Proof. by apply maintains_modify. Qed.

Lemma pm_ucs now p ns :
  bans_peer ns = false → maintains pm_inv (on_db (update_connection_state now p ns)).
Proof. intros. by apply pm_on_db, update_connection_state_keeps. Qed.

#[local] Hint Resolve maintains_ret pm_push pm_timers pm_ucs : pm.

Ltac pm_step :=
  match goal with
  | |- maintains _ (st_bind st_get _) => apply maintains_get; intros ? ?
  | |- maintains _ (st_bind _ _) => apply maintains_bind; [|intros]
  | |- maintains _ (st_for _ _) => apply maintains_for; intros
  | |- maintains _ (match ?x with _ => _ end) => destruct x
  | |- pm_inv (match ?x with _ => _ end _).2 => destruct x
  | |- maintains _ (on_db _) => apply pm_on_db
  | |- pm_inv ((st_bind ?f ?g) ?m).2 => apply (maintains_bind pm_inv f g); [|intros|done]
  | |- pm_inv (st_for ?l ?f ?m).2 => apply (maintains_for pm_inv l f); [intros|done]
  end.
Ltac pm_solve := repeat (first [done | solve [eauto with pm] | pm_step]).

Lemma pm_ban_op p op reason : maintains pm_inv (handle_ban_operation p op reason).
Proof. destruct op; cbn [handle_ban_operation]; pm_solve. Qed.

Lemma pm_score_action p a reason : maintains pm_inv (handle_score_action p a reason).
Proof. destruct a; cbn [handle_score_action]; [apply pm_ban_op|pm_solve..]. Qed.
#[local] Hint Resolve pm_ban_op pm_score_action report_peer_inv db_update_sync_status_inv update_min_ttl_inv
  update_gossipsub_scores_inv inject_disconnect_inv cleanup_dialing_peers_inv update_scores_inv : pm.

Lemma pm_report now p a reason : maintains pm_inv (pm_report_peer now p a reason).
Proof. unfold pm_report_peer. pm_solve. Qed.
#[local] Hint Resolve pm_report : pm.

Lemma pm_goodbye now p reason : maintains pm_inv (goodbye_peer now p reason).
Proof. unfold goodbye_peer. pm_solve. Qed.

Lemma pm_maintain_count n : maintains pm_inv (maintain_peer_count n).
Proof.
  apply maintains_get. intros m Hm. destruct (negb _); [done|].
  apply (maintains_bind pm_inv); [|intros w|done].
  - destruct (_ <? _); [apply maintains_ret|]. destruct (_ && _); [|apply maintains_ret].
    apply maintains_bind; [apply maintains_lift|intros; apply maintains_ret].
  - destruct (w =? 0); pm_solve.
Qed.

Lemma pm_select now n results l : maintains pm_inv (select_to_dial now n results l).
Proof.
  revert l. induction results as [|[p ttl] results IH]; intros l; cbn [select_to_dial]; [pm_solve|].
  apply maintains_get. intros m Hm. destruct (_ && _); [|by apply IH].
  apply (maintains_bind pm_inv); [|intros; apply IH|done]. destruct ttl; pm_solve.
Qed.
#[local] Hint Resolve pm_goodbye pm_maintain_count pm_select : pm.

Lemma pm_disconnected now p : maintains pm_inv (pm_inject_disconnect now p).
Proof.
  unfold pm_inject_disconnect. pm_solve; by apply maintains_modify.
Qed.

Lemma pm_disconnect now p reason : maintains pm_inv (disconnect_peer now p reason).
Proof. unfold disconnect_peer, notify_disconnecting. pm_solve. Qed.
#[local] Hint Resolve pm_disconnected pm_disconnect : pm.

Lemma pm_connect_in now p a e : maintains pm_inv (inject_connect_ingoing now p a e).
Proof. unfold inject_connect_ingoing, connect_ingoing. apply maintains_bind; auto with pm. Qed.

Lemma pm_connect_out now p a e : maintains pm_inv (inject_connect_outgoing now p a e).
Proof. unfold inject_connect_outgoing, connect_outgoing. apply maintains_bind; auto with pm. Qed.
#[local] Hint Resolve pm_connect_in pm_connect_out : pm.

Lemma pm_established now p dir a : maintains pm_inv (inject_connection_established now p dir a).
Proof.
  apply maintains_get. intros m Hm. destruct (ban_status p (pm_db m)); [by apply pm_goodbye..|].
  cbn zeta. destruct (peer_limit_reached _ _ && _); [by apply pm_disconnect|]. destruct dir; pm_solve.
Qed.

Lemma pm_heartbeat now : maintains pm_inv (heartbeat exp HALFLIFE_DECAY shuffle1 shuffle2 now).
Proof.
  unfold heartbeat, prune_excess_peers. apply maintains_bind; [auto with pm|intros _].
  apply maintains_bind; [apply pm_on_db; auto with pm|intros _].
  apply maintains_bind; [apply pm_on_db; auto with pm|intros l].
  apply maintains_bind; [pm_solve|intros _]. pm_solve.
Qed.
#[local] Hint Resolve pm_established pm_heartbeat : pm.

Lemma exec_pm_op_inv op : maintains pm_inv (exec_pm_op op).
Proof.
  destruct op; cbn [exec_pm_op]; try solve [auto with pm].
  - unfold handle_rpc_error. pm_solve.
  - unfold pm_update_gossipsub_scores. pm_solve.
  - unfold peers_discovered. pm_solve.
  - unfold peer_statusd. auto with pm.
  - unfold ping_request. pm_solve.
  - unfold ping_timeout. pm_solve.
  - unfold status_timeout. pm_solve.
  - unfold inject_dialing, dialing_peer. apply maintains_bind; auto with pm.
  - unfold inject_connection_closed. pm_solve.
  - unfold inject_dial_failure. pm_solve. by apply pm_disconnected.
  - pm_solve.
Qed.

Lemma reachable_inv trusted target discovery m : reachable trusted target discovery m → pm_inv m.
Proof. induction 1; [apply inv_init|by apply exec_pm_op_inv]. Qed.

End Invariant.
