(* ===== verification/PeerPruning.v ===== *)
(** * Pruning of excess peers

    [prune_excess_peers] against the rules of its comment: peers with a duty
    stay, neither the number of connected peers nor that of outbound-only ones
    falls below its target, and when too many peers remain none of them could
    be pruned. *)

From Stdlib Require Import SpecFloat.
From S2P Require Import Prelude PeerScore PeerDB PeerDBProofs PeerManager.

Section Pruning.
Context {P Ip H Enr : Type} `{Countable P} `{Countable Ip}.
Notation PeerInfo := (PeerInfo Ip H Enr).
Notation PeerManager := (PeerManager P Ip H Enr).
Notation prune_state := (prune_state (P := P)).
Implicit Types (m : PeerManager) (p : P) (i : PeerInfo) (T : gset P) (l : list (P * PeerInfo)).

(** ** The loop *)

Section Loop.
Context (ps : gmap P PeerInfo) (excess target_outbound connected_outbound : nat).
Notation loop := (prune_loop excess target_outbound connected_outbound).

Definition outbound p : bool := match ps !! p with Some i => info_is_outbound_only i | None => false end.
Definition outbounds T : nat := length (List.filter outbound (elements T)).

Lemma outbounds_empty : outbounds ∅ = 0.
Proof. unfold outbounds. by rewrite elements_empty. Qed.

Lemma outbounds_insert p T : p ∉ T → outbounds ({[p]} ∪ T) = (if outbound p then 1 else 0) + outbounds T.
Proof.
  intros Hp. unfold outbounds.
  assert (Hperm : elements ({[p]} ∪ T) ≡ₚ p :: elements T) by by apply elements_union_singleton.
  assert (Hlen : ∀ l1 l2 : list P, l1 ≡ₚ l2 → length (List.filter outbound l1) = length (List.filter outbound l2)).
  { induction 1; cbn; repeat destruct (outbound _); cbn; lia. }
  rewrite (Hlen _ _ Hperm). cbn. by destruct (outbound p).
Qed.

Record prune_ok (s : prune_state) : Prop := {
  pok_size : size s.1 ≤ excess;
  pok_count : s.2 = outbounds s.1;
  pok_bound : s.2 ≤ connected_outbound - target_outbound;
}.

Lemma prune_ok_add s p :
  prune_ok s → size s.1 < excess → p ∉ s.1 →
  (outbound p = true → target_outbound + s.2 < connected_outbound) →
  prune_ok ({[p]} ∪ s.1, (if outbound p then 1 else 0) + s.2).
Proof.
  intros [Hs Hc Hb] Hlt Hp Ho. split; cbn.
  - rewrite size_union, size_singleton by set_solver. lia.
  - by rewrite outbounds_insert, Hc.
  - destruct (outbound p); [specialize (Ho eq_refl)|]; lia.
Qed.

(** A peer that the loop leaves has a reason to stay. *)
Definition stays (s : prune_state) p : Prop :=
  p ∈ s.1 ∨ (outbound p = true ∧ connected_outbound ≤ target_outbound + s.2).

Record loop_spec (l : list (P * PeerInfo)) (s s' : prune_state) : Prop := {
  ls_ok : prune_ok s';
  ls_grows : s.1 ⊆ s'.1 ∧ s.2 ≤ s'.2;
  ls_from p : p ∈ s'.1 → p ∈ s.1 ∨ p ∈ l.*1;
  ls_maximal : size s'.1 = excess ∨ ∀ p, p ∈ l.*1 → stays s' p;
}.

Lemma loop_spec_skip p i l s s' : stays s p → loop_spec l s s' → loop_spec ((p, i) :: l) s s'.
Proof.
  intros Hst [Hok [Hg1 Hg2] Hf Hm]. split; [done..| |].
  - intros q Hq. destruct (Hf q Hq); cbn; [by left|right; by right].
  - destruct Hm as [|Hm]; [by left|right]. intros q [->|Hq]%elem_of_cons; [|by apply Hm].
    destruct Hst as [|[Ho Hle]]; [left; set_solver|right; split; [done|cbn in *; lia]].
Qed.

Lemma loop_spec_add p i l s n s' :
  p ∉ s.1 → s.2 ≤ n → loop_spec l ({[p]} ∪ s.1, n) s' → loop_spec ((p, i) :: l) s s'.
Proof.
  intros Hp Hn [Hok [Hg1 Hg2] Hf Hm]. cbn in *. split; [done|split; [set_solver|lia]| |].
  - intros q Hq. destruct (Hf q Hq) as [[->%elem_of_singleton|]%elem_of_union|]; cbn; set_solver.
  - destruct Hm as [|Hm]; [by left|right]. intros q [->|Hq]%elem_of_cons; [|by apply Hm]. left. set_solver.
Qed.

Lemma prune_loop_spec l s :
  (∀ p i, (p, i) ∈ l → ps !! p = Some i) → prune_ok s → loop_spec l s (loop s l).
Proof.
  revert s. induction l as [|[p i] l IH]; intros s Hl Hok; cbn [prune_loop].
  { split; [done..|auto|]. right. by intros p ?%not_elem_of_nil. }
  assert (Hout : outbound p = info_is_outbound_only i) by (unfold outbound; by rewrite (Hl p i) by left).
  assert (Hl' : ∀ q j, (q, j) ∈ l → ps !! q = Some j) by (intros; apply Hl; by right).
  destruct s as [T n]. destruct (Nat.leb_spec excess (size T)) as [Hle|Hlt].
  { split; [done..|auto|]. left. destruct Hok as [Hs _ _]. cbn in *. lia. }
  destruct (decide (p ∈ T)) as [Hin|Hin]; [apply loop_spec_skip; [by left|auto]|].
  pose proof (prune_ok_add _ p Hok Hlt Hin) as Hadd. rewrite Hout in Hadd.
  destruct (info_is_outbound_only i).
  - destruct (Nat.ltb_spec (target_outbound + n) connected_outbound) as [Ho|Ho].
    + eapply (loop_spec_add _ _ _ _ (S n)); [done|cbn; lia|]. apply IH; [done|]. by apply Hadd.
    + apply loop_spec_skip; [right; split; [done|cbn; lia]|auto].
  - eapply (loop_spec_add _ _ _ _ n); [done|done|]. apply IH; [done|]. by apply Hadd.
Qed.

End Loop.

(** ** The peers to prune *)

Section Choice.
Context (shuffle1 shuffle2 : list (P * PeerInfo) → list (P * PeerInfo)).
Context (shuffle1_perm : ∀ l, shuffle1 l ≡ₚ l) (shuffle2_perm : ∀ l, shuffle2 l ≡ₚ l).

Lemma insert_by_score_perm x l : insert_by_score x l ≡ₚ x :: l.
Proof.
  induction l as [|y l IH]; cbn; [done|]. destruct (SFltb _ _); [|done]. rewrite IH. apply Permutation_swap.
Qed.

Lemma worst_connected_elem shuffle m p i :
  (∀ l, shuffle l ≡ₚ l) →
  (p, i) ∈ worst_connected_peers shuffle m ↔ peers (pm_db m) !! p = Some i ∧ info_is_connected i = true.
Proof.
  intros Hsh. unfold worst_connected_peers.
  assert (Hperm : ∀ l, foldr insert_by_score [] l ≡ₚ l).
  { induction l as [|x l IH]; cbn; [done|]. by rewrite insert_by_score_perm, IH. }
  rewrite Hperm, Hsh, list_elem_of_In, filter_In, <- list_elem_of_In, elem_of_map_to_list. done.
Qed.

(** The peers that a pass with the filter [f] goes through. *)
Lemma candidates_elem shuffle now m (f : PeerInfo → bool) p i :
  (∀ l, shuffle l ≡ₚ l) →
  (p, i) ∈ List.filter (λ x, negb (has_future_duty now x.2) && f x.2) (worst_connected_peers shuffle m) ↔
  peers (pm_db m) !! p = Some i ∧ info_is_connected i = true ∧ has_future_duty now i = false ∧ f i = true.
Proof.
  intros Hsh. rewrite list_elem_of_In, filter_In, <- list_elem_of_In, worst_connected_elem by done. cbn.
  rewrite andb_true_iff, negb_true_iff. tauto.
Qed.

Definition prunable now i : Prop := info_is_connected i = true ∧ has_future_duty now i = false.

Record prune_set now m (T : gset P) : Prop := {
  ps_size : size T ≤ connected_peers m - target_peers m;
  ps_outbound : outbounds (peers (pm_db m)) T
                ≤ connected_outbound_only_peers m - target_outbound_peers (target_peers m);
  ps_from p : p ∈ T → ∃ i, peers (pm_db m) !! p = Some i ∧ prunable now i;
  ps_maximal : size T = connected_peers m - target_peers m ∨
    ∀ p i, peers (pm_db m) !! p = Some i → prunable now i →
      p ∈ T ∨ (info_is_outbound_only i = true ∧
               connected_outbound_only_peers m
               ≤ target_outbound_peers (target_peers m) + outbounds (peers (pm_db m)) T);
}.

Lemma prune_peers_spec shuffle now m f s :
  (∀ l, shuffle l ≡ₚ l) →
  let ok := prune_ok (peers (pm_db m)) (connected_peers m - target_peers m)
              (target_outbound_peers (target_peers m)) (connected_outbound_only_peers m) in
  ok s →
  ok (prune_peers shuffle now m f s) ∧
  (∀ p, p ∈ (prune_peers shuffle now m f s).1 → p ∈ s.1 ∨ ∃ i, peers (pm_db m) !! p = Some i ∧ prunable now i) ∧
  (size (prune_peers shuffle now m f s).1 = connected_peers m - target_peers m ∨
   ∀ p i, peers (pm_db m) !! p = Some i → prunable now i → f i = true →
     stays (peers (pm_db m)) (target_outbound_peers (target_peers m)) (connected_outbound_only_peers m)
       (prune_peers shuffle now m f s) p).
Proof.
  intros Hsh ok Hok. unfold prune_peers. pose proof (λ p i, candidates_elem shuffle now m f p i Hsh) as Hl.
  set (l := List.filter _ _) in *.
  destruct (prune_loop_spec (peers (pm_db m)) (connected_peers m - target_peers m)
    (target_outbound_peers (target_peers m)) (connected_outbound_only_peers m) l s) as [Hok' _ Hf Hm];
    [by intros p i [Hp _]%Hl|done|].
  split_and!; [done| |].
  - intros p [|([q i] & -> & Hin)%list_elem_of_fmap]%Hf; [by left|right]. apply Hl in Hin as (? & ? & ? & _).
    by exists i.
  - destruct Hm as [|Hm]; [by left|right]. intros p i Hp [Hc Hd] Hfi. apply Hm.
    apply list_elem_of_fmap. exists (p, i). split; [done|]. by apply Hl.
Qed.

Lemma peers_to_prune_spec now m : prune_set now m (peers_to_prune shuffle1 shuffle2 now m).
Proof.
  unfold peers_to_prune. cbn zeta.
  destruct (prune_peers_spec shuffle1 now m (λ i, SFltb (score_value (info_score i)) (f64_of 0)) (∅, 0) shuffle1_perm)
    as (Hok1 & Hf1 & _).
  { split; cbn; rewrite ?size_empty, ?outbounds_empty; lia. }
  set (s1 := prune_peers shuffle1 _ _ _ _) in *.
  assert (Hf1' : ∀ p, p ∈ s1.1 → ∃ i, peers (pm_db m) !! p = Some i ∧ prunable now i).
  { intros p [?%not_elem_of_empty|]%Hf1; done. }
  destruct (Nat.ltb_spec (size s1.1) (connected_peers m - target_peers m)) as [Hlt|Hge].
  - destruct (prune_peers_spec shuffle2 now m (λ _, true) s1 shuffle2_perm Hok1) as ([Hs Hc Hb] & Hf2 & Hm2).
    set (s2 := prune_peers shuffle2 _ _ _ _) in *.
    split; [done|lia| |].
    + intros p [|]%Hf2; auto.
    + destruct Hm2 as [|Hm2]; [by left|right]. intros p i Hp Hpr.
      destruct (Hm2 p i Hp Hpr eq_refl) as [|[Ho Hle]]; [by left|right].
      unfold outbound in Ho. rewrite Hp in Ho. split; [done|lia].
  - destruct Hok1 as [Hs Hc Hb]. split; [done|lia|done|left; lia].
Qed.

End Choice.

(** ** Disconnecting them *)

Definition dropped i : PeerInfo := set_connection_status (Disconnecting false) i.

Record disconnected (reason : GoodbyeReason) m (l : list P) m' : Prop := {
  dc_other q : q ∉ l → peers (pm_db m') !! q = peers (pm_db m) !! q;
  dc_dropped q i : q ∈ l → peers (pm_db m) !! q = Some i → peers (pm_db m') !! q = Some (dropped i);
  dc_target : target_peers m' = target_peers m;
  dc_events : events m' = events m ++ ((λ p, DisconnectPeer p reason) <$> l);
  dc_connected : connected_peers m' + length l = connected_peers m;
  dc_outbound : connected_outbound_only_peers m' + length (List.filter (outbound (peers (pm_db m))) l)
                = connected_outbound_only_peers m;
}.

Lemma disconnect_peer_run now reason p i m :
  peers (pm_db m) !! p = Some i → info_is_connected i = true →
  ∃ m', disconnect_peer now p reason m = (Ok tt, m') ∧
    peers (pm_db m') = <[p := dropped i]> (peers (pm_db m)) ∧
    target_peers m' = target_peers m ∧ events m' = events m ++ [DisconnectPeer p reason].
Proof.
  intros Hp Hc. eexists. split; [|split; [|split]].
  - unfold disconnect_peer, notify_disconnecting, update_connection_state, to_disconnecting, on_db.
    unfold st_bind, st_zoom, st_get, st_modify, st_ret, push_event. cbn. rewrite Hp. cbn.
    unfold info_is_connected in Hc. destruct (connection_status i) eqn:E; try done.
  - cbn. by rewrite insert_insert_eq.
  - done.
  - done.
Qed.

Lemma count_dropped (f : PeerInfo → bool) m m' p i :
  peers (pm_db m) !! p = Some i → peers (pm_db m') = <[p := dropped i]> (peers (pm_db m)) → f (dropped i) = false →
  count_peers f (pm_db m') + (if f i then 1 else 0) = count_peers f (pm_db m).
Proof.
  intros Hp Hm' Hf. unfold count_peers. rewrite <- !tally_filter, Hm'.
  pose proof (tally_update (λ i, if f i then 1 else 0) _ _ _ (dropped i) Hp) as Ht. cbn beta in Ht.
  rewrite Hf in Ht. lia.
Qed.

Lemma disconnect_all now reason (l : list P) m :
  NoDup l → (∀ p, p ∈ l → ∃ i, peers (pm_db m) !! p = Some i ∧ info_is_connected i = true) →
  ∃ m', st_for l (λ p, disconnect_peer now p reason) m = (Ok tt, m') ∧ disconnected reason m l m'.
Proof.
  revert m. induction l as [|p l IH]; intros m Hnd Hl.
  { exists m. split; [done|]. split; cbn; try done; try lia; [by intros ?? ?%not_elem_of_nil|by rewrite app_nil_r]. }
  apply NoDup_cons in Hnd as [Hpl Hnd]. destruct (Hl p) as (i & Hp & Hc); [left|].
  destruct (disconnect_peer_run now reason p i m Hp Hc) as (m1 & Hrun & Hpeers & Htarget & Hev).
  assert (Hother : ∀ q, p ≠ q → peers (pm_db m1) !! q = peers (pm_db m) !! q)
    by (intros; rewrite Hpeers; by apply lookup_insert_ne).
  destruct (IH m1 Hnd) as (m' & Hrun' & [Ho Hd Ht He Hcc Hoo]).
  { intros q Hq. destruct (Hl q) as (j & Hj & ?); [by right|]. exists j. rewrite Hother by congruence. done. }
  exists m'. split.
  { cbn [st_for]. unfold st_bind. by rewrite Hrun. }
  pose proof (count_dropped info_is_connected m m1 p i Hp Hpeers eq_refl) as Hcd. rewrite Hc in Hcd.
  pose proof (count_dropped info_is_outbound_only m m1 p i Hp Hpeers eq_refl) as Hod.
  split; [| |congruence|by rewrite He, Hev, <- app_assoc|unfold connected_peers in *; cbn; lia|].
  - intros q [Hne Hq]%not_elem_of_cons. by rewrite Ho, Hother.
  - intros q j [->|Hq]%elem_of_cons Hj.
    + rewrite Ho, Hpeers, lookup_insert_eq by done. by simplify_eq.
    + apply Hd; [done|]. by rewrite Hother by congruence.
  - assert (Hsame : List.filter (outbound (peers (pm_db m1))) l = List.filter (outbound (peers (pm_db m))) l).
    { apply filter_ext_in. intros q Hq%list_elem_of_In. unfold outbound. by rewrite Hother by congruence. }
    rewrite Hsame in Hoo. cbn [List.filter]. unfold connected_outbound_only_peers in *.
    unfold outbound at 1. rewrite Hp. destruct (info_is_outbound_only i); cbn [length]; lia.
Qed.

End Pruning.
