(* ===== verification/PeerTheorems.v ===== *)
(** * Theorems about the management of peers

    The counters of the database and the bounds they enforce, bans of peers and
    of addresses, trusted peers, the pruning of excess peers and the dialing of
    discovered ones, for every reachable state of the manager. *)

From Stdlib Require Import SpecFloat.
From S2P Require Import Prelude PeerScore PeerDB PeerDBProofs PeerTrust PeerManager PeerManagerProofs PeerPruning.

Section Helpers.
Context {P Ip H Enr : Type} `{Countable P} `{Countable Ip}.
Notation PeerInfo := (PeerInfo Ip H Enr).
Notation PeerDB := (PeerDB P Ip H Enr).
Notation PeerManager := (PeerManager P Ip H Enr).
Implicit Types (m : PeerManager) (p : P) (i : PeerInfo) (db : PeerDB).

Lemma tally_ge {V} (w : V → nat) (ms : gmap P V) (ps : list P) :
  NoDup ps → (∀ p, p ∈ ps → ∃ v, ms !! p = Some v ∧ 0 < w v) → length ps ≤ tally w ms.
Proof.
  revert ms. induction ps as [|p ps IH]; intros ms Hnd Hps; cbn; [lia|].
  apply NoDup_cons in Hnd as [Hp Hnd]. destruct (Hps p) as (v & Hv & Hw); [left|].
  rewrite (tally_delete _ _ _ _ Hv). enough (length ps ≤ tally w (delete p ms)) by lia.
  apply IH; [done|]. intros q Hq. destruct (Hps q) as (v' & ? & ?); [by right|]. exists v'.
  rewrite lookup_delete_ne by congruence. done.
Qed.

Lemma occ_pos (ip : Ip) l : ip ∈ l → 0 < occ ip l.
Proof. intros ?%list_elem_of_In. by apply (count_occ_In (decide_rel (=))). Qed.

(** An address of more than the threshold of banned peers is banned. *)
Lemma ip_banned_of_peers db ip ps :
  db_ok db → NoDup ps → BANNED_PEERS_PER_IP_THRESHOLD < length ps →
  (∀ p, p ∈ ps → ∃ i, peers db !! p = Some i ∧ info_is_banned i = true ∧ ip ∈ seen_ip_addresses i) →
  count_ip_is_banned ip (banned_peers_count db) = true.
Proof.
  intros Hok Hnd Hlen Hps.
  assert (Hle : length ps ≤ per_ip ip (banned_peers_count db)).
  { etransitivity; [|apply (ok_banned_ip _ Hok)]. apply tally_ge; [done|]. intros p Hp.
    destruct (Hps p Hp) as (i & Hi & Hb & Hin). exists i. unfold w_banned_ip. rewrite Hb. auto using occ_pos. }
  unfold per_ip in Hle. unfold count_ip_is_banned. destruct (_ !! ip) as [n|]; cbn [default from_option id] in Hle;
    [apply Nat.ltb_lt|]; lia.
Qed.

Lemma ip_is_banned_some db i ip :
  count_ip_is_banned ip (banned_peers_count db) = true → ip ∈ seen_ip_addresses i →
  is_Some (ip_is_banned i db).
Proof.
  intros Hb Hin%list_elem_of_In. unfold ip_is_banned. destruct (List.find _ _) eqn:E; [done|].
  eapply List.find_none in E; [|done]. cbn in E. congruence.
Qed.

(** Shrinking keeps a banned peer while there is room. *)
Lemma shrink_to_fit_keeps db p i :
  banned_peers (banned_peers_count db) ≤ MAX_BANNED_PEERS → peers db !! p = Some i →
  disconnected_since i = None → peers (shrink_to_fit db).2 !! p = Some i.
Proof.
  intros Hb Hp Hd. unfold shrink_to_fit.
  assert (Hsb : ∀ fuel l, shrink_banned fuel l db = (l, db)).
  { intros [|fuel] l; cbn [shrink_banned]; [done|].
    by destruct (Nat.ltb_spec MAX_BANNED_PEERS (banned_peers (banned_peers_count db))); [lia|]. }
  rewrite Hsb. cbn [snd]. clear Hsb Hb. generalize (disconnected_peers db) as fuel. intros fuel. revert db Hp.
  induction fuel as [|fuel IH]; intros db Hp; cbn [shrink_disconnected]; [done|].
  destruct (MAX_DC_PEERS <? _); [|done]. apply IH.
  destruct (oldest _ _) as [[[q j] t]|] eqn:Ho; [|done]. apply oldest_lookup in Ho as [Hq Hj]. cbn.
  rewrite lookup_delete_ne; [done|]. congruence.
Qed.

Lemma report_fatal_state i :
  is_trusted i = false → info_score i ≠ Max → info_score_state (apply_peer_action_to_score Fatal i) = SBanned.
Proof.
  intros Ht Hs. unfold apply_peer_action_to_score, info_score_state. rewrite Ht. cbn.
  destruct (info_score i); [done|]. apply fatal_bans.
Qed.

(** A fatal report of a connected peer. *)
Lemma report_fatal_connected now p i n_in n_out db :
  peers db !! p = Some i → connection_status i = Connected n_in n_out → is_trusted i = false →
  info_score i ≠ Max → info_score_state i ≠ SBanned →
  ∃ db', report_peer now p Fatal db = (Ok (UBan DisconnectThePeer), db') ∧
    peers db' !! p = Some (set_connection_status (Disconnecting true) (apply_peer_action_to_score Fatal i)) ∧
    banned_peers_count db' = banned_peers_count db.
Proof.
  intros Hp Hs Ht Hm Hb. pose proof (report_fatal_state i Ht Hm) as Hf.
  destruct (apply_action_same Fatal i) as [Hs' _]. rewrite Hs in Hs'.
  unfold report_peer, st_bind at 1 2, st_get, st_modify at 1. rewrite Hp.
  set (i' := apply_peer_action_to_score Fatal i) in *.
  assert (handle_score_transition (info_score_state i) i' = STBanned) as ->.
  { unfold handle_score_transition. rewrite Hf. by destruct (info_score_state i). }
  unfold update_connection_state, st_bind, st_get, st_modify, st_ret. rewrite lookup_set_info. cbn. rewrite Hf.
  unfold to_banned. rewrite Hs'. eexists. split; [done|]. split; [apply lookup_insert_eq|done].
Qed.

(** The connection of a peer that awaits a ban is closed. *)
Lemma disconnect_banned now p i db :
  peers db !! p = Some i → connection_status i = Disconnecting true →
  banned_peers (banned_peers_count db) < MAX_BANNED_PEERS →
  ∃ ips l db', inject_disconnect now p db = (Ok (Some (ReadyToBan ips), l), db') ∧
    peers db' !! p = Some (set_connection_status (Banned now) i).
Proof.
  intros Hp Hs Hb. unfold inject_disconnect, st_bind at 1.
  unfold update_connection_state, st_bind at 1 2, st_get, st_modify at 1. rewrite Hp. cbn [ban_score default from_option].
  unfold to_disconnected, ban_now, ready_to_ban. cbn. rewrite Hs. unfold st_bind, st_get, st_modify, st_ret.
  set (db1 := set_banned_count _ _).
  pose proof (shrink_to_fit_keeps db1 p (set_connection_status (Banned now) i)) as Hk.
  destruct (shrink_to_fit db1) as [l db2]. do 3 eexists. split; [done|]. apply Hk; [cbn; lia|apply lookup_insert_eq|done].
Qed.

(** A ban outlasts the updates of the scores before the decay starts. *)

Lemma fatal_delays_decay s :
  SFltb MIN_SCORE_BEFORE_BAN (real_score s) = true →
  last_updated (real_apply_peer_action Fatal s) = (last_updated s + BANNED_BEFORE_DECAY)%Z.
Proof.
  intros Hs. unfold real_apply_peer_action, set_lighthouse_score, score_update_state. cbn [real_score].
  rewrite Hs. unfold recompute_score at 1. cbn [lighthouse_score gossipsub_score ignore_negative_gossipsub_score real_score].
  assert (SFleb MIN_SCORE MIN_LIGHTHOUSE_SCORE_BEFORE_BAN = true) as -> by reflexivity.
  assert (SFleb MIN_SCORE MIN_SCORE_BEFORE_BAN = true) as -> by reflexivity. done.
Qed.

Lemma unban_other now p q db : p ≠ q → ∃ r db', unban now q db = (Ok r, db') ∧ peers db' !! p = peers db !! p.
Proof.
  intros Hne. unfold unban, update_connection_state, to_unbanned, st_bind, st_get, st_modify, st_ret.
  destruct (connection_status _); cbn; (do 2 eexists; split; [done|]); cbn; by rewrite ?lookup_insert_ne by done.
Qed.

Lemma unban_others now p l db :
  p ∉ l → ∃ rs db', st_collect l (λ q, let! r := unban now q in st_ret (q, r)) db = (Ok rs, db') ∧
    peers db' !! p = peers db !! p.
Proof.
  revert db. induction l as [|q l IH]; intros db Hp; cbn [st_collect]; [by exists [], db|].
  apply not_elem_of_cons in Hp as [Hne Hp]. destruct (unban_other now p q db Hne) as (r & db1 & E1 & H1').
  destruct (IH db1 Hp) as (rs & db2 & E2 & H2'). rewrite (st_bind_ok _ _ db (q, r) db1) by (unfold st_bind; by rewrite E1).
  rewrite (st_bind_ok _ _ _ _ _ E2). do 2 eexists. split; [done|]. congruence.
Qed.

Lemma update_scores_keeps exp HALFLIFE_DECAY now p i db :
  peers db !! p = Some i → score_update exp HALFLIFE_DECAY now i = i →
  ∃ l db', update_scores exp HALFLIFE_DECAY now db = (Ok l, db') ∧ peers db' !! p = Some i.
Proof.
  intros Hp Hi. unfold update_scores. unfold st_bind at 1 2, st_get, st_modify.
  set (l := fmap _ _).
  match goal with |- context [st_collect _ _ ?d] =>
    destruct (unban_others now p l d) as (rs & db' & -> & Hl) end.
  - unfold l. intros ([[q old] j] & -> & [Hin Hf]%list_elem_of_In%filter_In)%list_elem_of_fmap. cbn in Hp, Hi.
    apply list_elem_of_In, list_elem_of_fmap in Hin as ([q' i'] & Heq & Hin). injection Heq as -> -> ->.
    apply elem_of_map_to_list in Hin. cbn in *. assert (i' = i) as -> by congruence. rewrite Hi in Hf.
    unfold handle_score_transition in Hf. by destruct (info_score_state i).
  - exists rs, db'. split; [done|]. rewrite Hl. cbn. rewrite lookup_fmap, Hp. cbn. by rewrite Hi.
Qed.

(** Runs of the manager. *)

Lemma st_for_push {A} (f : A → PeerManagerEvent P Ip) l m :
  st_for l (λ x, push_event (f x)) m =
  (Ok tt, MkPeerManager (pm_db m) (events m ++ (f <$> l)) (inbound_ping_peers m) (outbound_ping_peers m)
            (status_peers m) (target_peers m) (discovery_enabled m)).
Proof.
  revert m. induction l as [|x l IH]; intros m; cbn; [by rewrite app_nil_r; destruct m|].
  unfold st_bind, push_event at 1, st_modify. rewrite IH. cbn. by rewrite <- app_assoc.
Qed.

Lemma report_run now p a reason op m db' :
  report_peer now p a (pm_db m) = (Ok (UBan DisconnectThePeer), db') →
  op = DisconnectPeer p (default GBadScore reason) →
  pm_report_peer now p a reason m =
  (Ok tt, MkPeerManager db' (events m ++ [op]) (inbound_ping_peers m) (outbound_ping_peers m)
            (status_peers m) (target_peers m) (discovery_enabled m)).
Proof. intros Hr ->. unfold pm_report_peer, on_db, st_zoom, st_bind. by rewrite Hr. Qed.

(** The events of a closed connection. *)
Definition closed_events p (op : option (BanOperation Ip)) l : list (PeerManagerEvent P Ip) :=
  match op with
  | Some DisconnectThePeer => [DisconnectPeer p GBadScore]
  | Some (ReadyToBan ips) => [EvBanned p ips]
  | _ => []
  end ++ ((λ x, UnBanned x.1 x.2) <$> l).

Lemma disconnect_run now p op l m db' :
  inject_disconnect now p (pm_db m) = (Ok (op, l), db') →
  pm_inject_disconnect now p m =
  (Ok tt, MkPeerManager db' (events m ++ closed_events p op l) (inbound_ping_peers m ∖ {[p]})
            (outbound_ping_peers m ∖ {[p]}) (status_peers m ∖ {[p]}) (target_peers m) (discovery_enabled m)).
Proof.
  intros Hd. unfold pm_inject_disconnect, on_db, st_zoom. unfold st_bind at 1. rewrite Hd. cbn [fst snd].
  assert (Hfor : ∀ m, st_for l (λ '(p, ips), push_event (UnBanned p ips)) m =
                      st_for l (λ x, push_event (UnBanned x.1 x.2)) m).
  { clear Hd. induction l as [|[q ips] l' IHl]; intros m'; cbn; [done|]. unfold st_bind. cbn. apply IHl. }
  destruct op as [[|ips|]|]; unfold st_bind, st_modify, st_ret, handle_ban_operation, push_event;
    cbn; rewrite Hfor, st_for_push; cbn; by rewrite <- ?app_assoc.
Qed.

Lemma closed_run now p m op l db' :
  inject_disconnect now p (pm_db m) = (Ok (op, l), db') →
  inject_connection_closed now p 0 m =
  (Ok tt, MkPeerManager db'
            (events m ++ (if is_connected_or_disconnecting p (pm_db m) then [PeerDisconnected p] else []) ++
             closed_events p op l)
            (inbound_ping_peers m ∖ {[p]}) (outbound_ping_peers m ∖ {[p]}) (status_peers m ∖ {[p]})
            (target_peers m) (discovery_enabled m)).
Proof.
  intros Hd. unfold inject_connection_closed. cbn. unfold st_bind, st_get, st_ret, push_event, st_modify.
  destruct (is_connected_or_disconnecting p (pm_db m)); erewrite disconnect_run by done; cbn;
    by rewrite <- ?app_assoc.
Qed.

Lemma inject_disconnect_runs now p db : ∃ op l db', inject_disconnect now p db = (Ok (op, l), db').
Proof.
  unfold inject_disconnect, update_connection_state, to_disconnected, ban_now, ready_to_ban.
  unfold st_bind, st_get, st_modify, st_ret. destruct (connection_status _) as [|[]| | | |];
    match goal with |- context [shrink_to_fit ?d] => destruct (shrink_to_fit d) end; eauto.
Qed.

Lemma closed_bounded now p m :
  db_ok (pm_db m) → ∃ m', inject_connection_closed now p 0 m = (Ok tt, m') ∧ bounded (pm_db m').
Proof.
  intros Hok. destruct (inject_disconnect_runs now p (pm_db m)) as (op & l & db' & Hd).
  eexists. split; [by eapply closed_run|]. cbn.
  pose proof (inject_disconnect_bounded now p (pm_db m) Hok) as Hb. rewrite Hd in Hb. by eapply Hb.
Qed.

(** ** Discovery *)

(** The limits for the numbers of peers of practice, in [f32]. *)
Definition TARGET_LIMIT : nat := 1000.

Lemma max_peers_le target : target ≤ TARGET_LIMIT → max_peers target ≤ max_outbound_dialing_peers target.
Proof.
  intros Hle.
  assert (Hall : forallb (λ t, max_peers t <=? max_outbound_dialing_peers t) (seq 0 (S TARGET_LIMIT)) = true)
    by (vm_compute; reflexivity).
  rewrite forallb_forall in Hall. apply Nat.leb_le, Hall, in_seq. lia.
Qed.

Lemma select_without_ttl now n results l0 m :
  Forall (λ x : P * option Z, x.2 = None) results →
  ∃ l, select_to_dial now n results l0 m = (Ok (l0 ++ l), m) ∧
    (∀ p, p ∈ l → should_dial p (pm_db m) = true) ∧
    (l = [] ∨ n + length (l0 ++ l) ≤ max_peers (target_peers m)).
Proof.
  intros Hr. revert l0. induction Hr as [|[p ttl] results Hx Hr IH]; intros l0.
  { exists []. rewrite app_nil_r. split_and!; [done| |by left]. by intros p ?%not_elem_of_nil. }
  cbn in Hx. subst ttl. cbn [select_to_dial]. unfold st_bind at 1, st_get. cbn [is_Some].
  rewrite bool_decide_eq_false_2 by by intros [].
  cbn [andb orb]. destruct (Nat.ltb_spec (n + length l0) (max_peers (target_peers m))) as [Hlt|]; [|apply IH].
  destruct (should_dial p (pm_db m)) eqn:Hd; cbn [andb]; [|apply IH].
  unfold st_bind, st_ret. destruct (IH (l0 ++ [p])) as (l & -> & Hl & Hb).
  exists (p :: l). rewrite <- app_assoc. split_and!; [done| |right].
  - intros q [->|]%elem_of_cons; auto.
  - rewrite <- app_assoc in Hb. destruct Hb as [->|]; [rewrite length_app; cbn; lia|done].
Qed.

Lemma maintain_runs n m :
  n = 0 ∨ connected_or_dialing_peers m + n ≤ max_outbound_dialing_peers (target_peers m) →
  ∃ w, maintain_peer_count n m = (Ok tt, w) ∧ pm_db w = pm_db m ∧
    (events w = events m ∨ ∃ k, 0 < k ≤ 16 ∧ events w = events m ++ [DiscoverPeers k]).
Proof.
  intros Hn. unfold maintain_peer_count. unfold st_bind at 1, st_get. destruct (discovery_enabled m); cbn [negb]; [|eauto].
  assert (Hpush : ∀ k, k ≤ 16 → ∃ w,
    (if k =? 0 then st_ret tt else push_event (DiscoverPeers k)) m = (Ok tt, w) ∧ pm_db w = pm_db m ∧
    (events w = events m ∨ ∃ k, 0 < k ≤ 16 ∧ events w = events m ++ [DiscoverPeers k])).
  { intros k Hk. destruct (Nat.eqb_spec k 0); [by eauto|]. eexists. split; [done|]. split; [done|].
    right. exists k. split; [lia|done]. }
  destruct (Nat.ltb_spec (connected_or_dialing_peers m) (target_peers m - n)).
  { unfold st_bind, st_ret. apply Hpush. lia. }
  destruct (_ <? _); cbn [andb]; [|apply (Hpush 0); lia].
  destruct (Nat.ltb_spec (connected_or_dialing_peers m) (max_outbound_dialing_peers (target_peers m)));
    [|apply (Hpush 0); lia].
  unfold checked_sub. rewrite decide_True by lia. unfold st_bind, st_lift, st_ret. apply Hpush. lia.
Qed.

End Helpers.

Section Theorems.
Context {P Ip H Enr : Type} `{Countable P} `{Countable Ip}.
Context (exp : f64 → f64) (HALFLIFE_DECAY : f64).
Context (shuffle1 shuffle2 : list (P * PeerInfo Ip H Enr) → list (P * PeerInfo Ip H Enr)).
Notation PeerInfo := (PeerInfo Ip H Enr).
Notation PeerDB := (PeerDB P Ip H Enr).
Notation PeerManager := (PeerManager P Ip H Enr).
Notation reachable := (reachable exp HALFLIFE_DECAY shuffle1 shuffle2).
Implicit Types (m : PeerManager) (p : P) (i : PeerInfo).

(** C13: In every reachable state the counter of disconnected peers is exact and
    that of banned peers is not below the number of banned peers; and once a
    last connection is closed, the database holds at most [MAX_DC_PEERS]
    disconnected and [MAX_BANNED_PEERS] banned peers. *)
Theorem peer_counters trusted target discovery m now p :
  reachable trusted target discovery m →
  disconnected_peers (pm_db m) = count_peers info_is_disconnected (pm_db m) ∧
  count_peers info_is_banned (pm_db m) ≤ banned_peers (banned_peers_count (pm_db m)) ∧
  ∃ m', inject_connection_closed now p 0 m = (Ok tt, m') ∧
        count_peers info_is_disconnected (pm_db m') ≤ MAX_DC_PEERS ∧
        count_peers info_is_banned (pm_db m') ≤ MAX_BANNED_PEERS.
Proof.
  intros [Hok _]%reachable_inv. destruct (Hok) as [Hd Hb _]. unfold count_peers. rewrite <- !tally_filter.
  split; [done|]. split; [done|]. by apply closed_bounded.
Qed.

(** When more than [BANNED_PEERS_PER_IP_THRESHOLD] banned peers were seen at
    an address, every peer seen at it is refused and not dialed. *)
Theorem shared_address_banned trusted target discovery m ip ps p i :
  reachable trusted target discovery m →
  NoDup ps → BANNED_PEERS_PER_IP_THRESHOLD < length ps →
  (∀ q, q ∈ ps → ∃ j, peers (pm_db m) !! q = Some j ∧ info_is_banned j = true ∧ ip ∈ seen_ip_addresses j) →
  peers (pm_db m) !! p = Some i → ip ∈ seen_ip_addresses i →
  ban_status p (pm_db m) ≠ NotBanned ∧ should_dial p (pm_db m) = false.
Proof.
  intros [Hok _]%reachable_inv Hnd Hlen Hps Hp Hin.
  pose proof (ip_banned_of_peers _ _ _ Hok Hnd Hlen Hps) as Hb.
  destruct (ip_is_banned_some _ _ _ Hb Hin) as [ip' Hip'].
  unfold ban_status, should_dial, status_of, score_state_banned_or_disconnected. rewrite Hp, Hip'. cbn.
  destruct (info_score_state i), (connection_status i); done.
Qed.

(** C29: A peer that is marked as trusted keeps the maximal score, is neither
    banned nor awaiting a ban, and is refused only for its address. *)
Theorem trusted_never_banned trusted target discovery m p i :
  reachable trusted target discovery m →
  peers (pm_db m) !! p = Some i → is_trusted i = true →
  info_score i = Max ∧ info_is_banned i = false ∧ connection_status i ≠ Disconnecting true ∧
  ban_status p (pm_db m) ≠ BadScore.
Proof.
  intros [_ Ht]%reachable_inv Hp Htr. destruct (Ht p i Hp Htr) as [Hmax Hban].
  unfold ban_status, info_score_state, info_is_banned, banish in *. rewrite Hp, Hmax, max_healthy.
  destruct (connection_status i) as [|[]| | | |]; split_and!; try done; by destruct (ip_is_banned i _).
Qed.

End Theorems.

(** A peer that is banned for its score since [t]. *)
Definition refused {P Ip H Enr : Type} `{Countable P} `{Countable Ip} (p : P) (t : Z) (db : PeerDB P Ip H Enr) : Prop :=
  status_of p db = Some (Banned t) ∧ ban_status p db = BadScore ∧ should_dial p db = false.

Section Runs.
Context {P Ip H Enr : Type} `{Countable P} `{Countable Ip}.
Notation PeerInfo := (PeerInfo Ip H Enr).
Notation PeerManager := (PeerManager P Ip H Enr).
Implicit Types (m : PeerManager) (p : P) (i : PeerInfo).

Lemma banned_refused p t i db :
  peers db !! p = Some (set_connection_status (Banned t) i) → info_score_state i = SBanned → refused p t db.
Proof.
  intros Hp Hi. unfold refused, should_dial, status_of, ban_status. rewrite Hp.
  change (info_score_state (set_connection_status _ _)) with (info_score_state i). by rewrite Hi.
Qed.

(** C23: A fatal report of a connected peer that is not trusted and whose score
    is a number above the threshold of bans asks for its disconnection with the reason
    given. When its connection then closes, and fewer than [MAX_BANNED_PEERS]
    peers are banned, it is banned, which is announced, and it is refused and
    not dialed. This stays so under every update of the scores until
    [BANNED_BEFORE_DECAY] after the last update of its score before the report. *)
Theorem fatal_report_bans exp HALFLIFE_DECAY now1 now2 p i n_in n_out s reason m :
  peers (pm_db m) !! p = Some i → connection_status i = Connected n_in n_out → is_trusted i = false →
  info_score i = Real s → SFltb MIN_SCORE_BEFORE_BAN (real_score s) = true →
  banned_peers (banned_peers_count (pm_db m)) < MAX_BANNED_PEERS →
  ∃ m1 m2 ips l,
    pm_report_peer now1 p Fatal reason m = (Ok tt, m1) ∧
    inject_connection_closed now2 p 0 m1 = (Ok tt, m2) ∧
    events m2 = events m ++ [DisconnectPeer p (default GBadScore reason); PeerDisconnected p; EvBanned p ips] ++
                ((λ x, UnBanned x.1 x.2) <$> l) ∧
    p ∉ status_peers m2 ∪ inbound_ping_peers m2 ∪ outbound_ping_peers m2 ∧
    refused p now2 (pm_db m2) ∧
    ∀ now3, (now3 < last_updated s + BANNED_BEFORE_DECAY)%Z →
      ∃ updated db3, update_scores exp HALFLIFE_DECAY now3 (pm_db m2) = (Ok updated, db3) ∧ refused p now2 db3.
Proof.
  intros Hp Hc Ht Hs Hb Hmax.
  assert (info_score_state i ≠ SBanned) as Hnb.
  { unfold info_score_state, score_state_of, score_value. rewrite Hs, (above_not_below _ _ Hb). by destruct (SFleb _ _). }
  destruct (report_fatal_connected now1 p i n_in n_out (pm_db m) Hp Hc Ht) as (db1 & Hr & Hp1 & Hbc); [congruence|done|].
  set (i1 := apply_peer_action_to_score Fatal i) in *.
  assert (Hf : info_score_state i1 = SBanned) by (apply report_fatal_state; congruence).
  destruct (disconnect_banned now2 p _ db1 Hp1 eq_refl) as (ips & l & db2 & Hd & Hp2); [by rewrite Hbc|].
  eexists _, _, ips, l. split; [by eapply report_run|]. split; [by eapply closed_run|].
  cbn [events pm_db status_peers inbound_ping_peers outbound_ping_peers].
  split; [unfold is_connected_or_disconnecting, status_of; rewrite Hp1; cbn; by rewrite <- !app_assoc|].
  split; [set_solver|]. split; [by eapply banned_refused|].
  intros now3 Hnow. destruct (update_scores_keeps exp HALFLIFE_DECAY now3 p _ db2 Hp2) as (u & db3 & E & Hp3).
  - unfold score_update, i1, apply_peer_action_to_score. rewrite Ht. cbn [is_trusted set_connection_status set_score].
    rewrite Ht. cbn [info_score set_connection_status set_score]. rewrite Hs. cbn [on_real]. unfold update_at.
    rewrite fatal_delays_decay by done. by rewrite (proj2 (Z.leb_gt _ _)) by lia.
  - exists u, db3. split; [done|]. by eapply banned_refused.
Qed.

(** Handling the peers that a discovery query found, which come without a
    time to live, never fails for a target of up to [TARGET_LIMIT] peers: it
    dials peers that should be dialed, at most up to the maximal number of
    peers, and asks for at most 16 more. *)
Theorem discovery_dials_bounded now results m :
  Forall (λ x : P * option Z, x.2 = None) results → target_peers m ≤ TARGET_LIMIT →
  ∃ l m', peers_discovered now results m = (Ok l, m') ∧ pm_db m' = pm_db m ∧
    (∀ p, p ∈ l → should_dial p (pm_db m) = true) ∧
    (l = [] ∨ connected_or_dialing_peers m + length l ≤ max_peers (target_peers m)) ∧
    (events m' = events m ∨ ∃ k, 0 < k ≤ 16 ∧ events m' = events m ++ [DiscoverPeers k]).
Proof.
  intros Hr Hle. unfold peers_discovered. unfold st_bind at 1 2, st_get.
  destruct (select_without_ttl now (connected_or_dialing_peers m) results [] m Hr) as (l & -> & Hl & Hb).
  cbn [app] in *. pose proof (max_peers_le _ Hle).
  destruct (maintain_runs (length l) m) as (m' & Hm' & Hdb & Hev); [destruct Hb as [->|]; [by left|right; lia]|].
  exists l, m'. unfold st_bind, st_ret. by rewrite Hm'.
Qed.

End Runs.

Section Prune.
Context {P Ip H Enr : Type} `{Countable P} `{Countable Ip}.
Context (shuffle1 shuffle2 : list (P * PeerInfo Ip H Enr) → list (P * PeerInfo Ip H Enr)).
Notation PeerInfo := (PeerInfo Ip H Enr).
Notation PeerManager := (PeerManager P Ip H Enr).
Implicit Types (m : PeerManager) (p : P) (i : PeerInfo).

(** C14: Pruning never goes below the target number of peers, nor below the
    target of outbound-only peers (or their number when it is lower already),
    and keeps the peers with a future duty; when it ends above the target, each
    connected peer that is left has a duty or is one of the last outbound-only
    peers. *)
Theorem prune_meets_targets now m :
  (∀ l, shuffle1 l ≡ₚ l) → (∀ l, shuffle2 l ≡ₚ l) → target_peers m < connected_peers m →
  ∃ m', prune_excess_peers shuffle1 shuffle2 now m = (Ok tt, m') ∧
    target_peers m ≤ connected_peers m' ∧
    target_outbound_peers (target_peers m) `min` connected_outbound_only_peers m
      ≤ connected_outbound_only_peers m' ∧
    (∀ p i, peers (pm_db m) !! p = Some i → has_future_duty now i = true → peers (pm_db m') !! p = Some i) ∧
    (connected_peers m' = target_peers m ∨
     ∀ p i, peers (pm_db m') !! p = Some i → info_is_connected i = true →
       has_future_duty now i = true ∨
       (info_is_outbound_only i = true ∧
        connected_outbound_only_peers m' ≤ target_outbound_peers (target_peers m))).
Proof.
  intros Hsh1 Hsh2 Hlt. destruct (peers_to_prune_spec _ _ Hsh1 Hsh2 now m) as [Hs Ho Hf Hm].
  set (T := peers_to_prune _ _ _ _) in *.
  destruct (disconnect_all now TooManyPeers (elements T) m) as (m' & Hrun & [Hq Hd Ht He Hc Hout]);
    [apply NoDup_elements| |].
  { intros p (i & Hi & [? _])%elem_of_elements%Hf. eauto. }
  assert (Hlen : length (elements T) = size T) by done.
  change (length (List.filter _ _)) with (outbounds (peers (pm_db m)) T) in Hout.
  exists m'. split; [|split; [lia|split; [lia|split]]].
  - unfold prune_excess_peers, st_bind, st_get. destruct (Nat.leb_spec (connected_peers m) (target_peers m)); [lia|done].
  - intros p i Hp Hdu. rewrite Hq; [done|]. intros (j & Hj & [_ Hn])%elem_of_elements%Hf. congruence.
  - destruct Hm as [|Hm]; [left; lia|right]. intros p i Hp Hcon.
    destruct (decide (p ∈ T)) as [Hin|Hin].
    + destruct (Hf p Hin) as (j & Hj & _). rewrite (Hd p j) in Hp by (by rewrite ?elem_of_elements). by simplify_eq.
    + rewrite Hq in Hp by by rewrite elem_of_elements.
      destruct (has_future_duty now i) eqn:Hdu; [by left|right].
      destruct (Hm p i Hp (conj Hcon Hdu)) as [|[Hoi Hle]]; [done|]. split; [done|lia].
Qed.

End Prune.

(** ** Concrete managers *)

Module Sample.

(** Peers and addresses are numbers, an [exp] that decays nothing. *)
Notation Info := (PeerInfo nat unit unit).
Notation Manager := (PeerManager nat nat unit unit).
Definition no_decay (_ : f64) : f64 := f64_of 1.
Definition halflife : f64 := f64_of 0.
Definition in_order (l : list (nat * Info)) : list (nat * Info) := l.

Definition exec (m : Manager) op : Manager := (exec_pm_op no_decay halflife in_order in_order op m).2.
Definition start (target : nat) : Manager := PeerManager_new (PeerDB_new [0]) target true.
Definition run (target : nat) (ops : list pm_op) : Manager := foldl exec (start target) ops.

Lemma run_reachable target ops :
  PeerManagerProofs.reachable no_decay halflife in_order in_order [0] target true (run target ops).
Proof.
  induction ops as [|op ops IH] using rev_ind; [apply reach_init|].
  unfold run. rewrite foldl_app. cbn. by apply reach_step.
Qed.

Definition address : list (Protocol nat) := [PIp4 7; PTcp 30].
Definition connect (p : nat) : pm_op (H := unit) (Enr := unit) := OpEstablished 5 p Incoming address.
Definition dial (p : nat) : pm_op (H := unit) (Enr := unit) := OpEstablished 5 p Outgoing [PIp4 p; PTcp 30].
Definition ban (p : nat) : list (pm_op (H := unit) (Enr := unit)) := [connect p; OpReport 6 p Fatal None; OpClosed 7 p 0].

(** Six peers of one address are banned while another one is connected. *)
Definition banned_six : Manager := run 50 (connect 10 :: concat (ban <$> [1; 2; 3; 4; 5; 6])).

(** Four connected peers, one of them outbound, one needed for a duty. *)
Definition crowded : Manager :=
  run 2 [OpDiscovered 5 [(4, Some 100%Z)]; connect 1; dial 2; connect 3; connect 4; OpReport 6 3 MidToleranceError None].

Definition info (m : Manager) (p : nat) : Info := default (PeerInfo_default 0) (peers (pm_db m) !! p).

End Sample.

Lemma peer_counters_witness :
  ∃ m', inject_connection_closed 8 10 0 Sample.banned_six = (Ok tt, m') ∧
        count_peers info_is_disconnected (pm_db m') ≤ MAX_DC_PEERS ∧
        count_peers info_is_banned (pm_db m') ≤ MAX_BANNED_PEERS.
Proof.
  apply (peer_counters Sample.no_decay Sample.halflife Sample.in_order Sample.in_order [0] 50 true Sample.banned_six 8 10 (Sample.run_reachable 50 _)).
Defined.

Lemma shared_address_banned_witness :
  ban_status 10 (pm_db Sample.banned_six) ≠ NotBanned ∧ should_dial 10 (pm_db Sample.banned_six) = false.
Proof.
  apply (shared_address_banned Sample.no_decay Sample.halflife Sample.in_order Sample.in_order [0] 50 true Sample.banned_six 7 [1; 2; 3; 4; 5; 6] 10
           (Sample.info Sample.banned_six 10)).
  - apply Sample.run_reachable.
  - vm_compute. repeat (constructor; [set_solver|]). constructor.
  - vm_compute. lia.
  - intros q Hq. exists (Sample.info Sample.banned_six q).
    repeat (apply elem_of_cons in Hq as [->|Hq];
            [split; [vm_compute; reflexivity|split; [vm_compute; reflexivity|]]; vm_compute; left|]).
    by apply not_elem_of_nil in Hq.
  - vm_compute. reflexivity.
  - vm_compute. left.
Defined.

Lemma trusted_never_banned_witness :
  info_score (Sample.info (Sample.run 50 (Sample.ban 0)) 0) = Max ∧
  info_is_banned (Sample.info (Sample.run 50 (Sample.ban 0)) 0) = false ∧
  connection_status (Sample.info (Sample.run 50 (Sample.ban 0)) 0) ≠ Disconnecting true ∧
  ban_status 0 (pm_db (Sample.run 50 (Sample.ban 0))) ≠ BadScore.
Proof.
  apply (trusted_never_banned Sample.no_decay Sample.halflife Sample.in_order Sample.in_order [0] 50 true _ 0 _ (Sample.run_reachable 50 (Sample.ban 0)));
    vm_compute; reflexivity.
Defined.

Lemma fatal_report_bans_witness :
  let m := Sample.run 50 [Sample.connect 1] in
  ∃ m1 m2 ips l,
    pm_report_peer 6 1 Fatal (Some Fault) m = (Ok tt, m1) ∧
    inject_connection_closed 7 1 0 m1 = (Ok tt, m2) ∧
    events m2 = events m ++ [DisconnectPeer 1 Fault; PeerDisconnected 1; EvBanned 1 ips] ++
                ((λ x, UnBanned x.1 x.2) <$> l) ∧
    1 ∉ status_peers m2 ∪ inbound_ping_peers m2 ∪ outbound_ping_peers m2 ∧
    refused 1 7 (pm_db m2) ∧
    ∀ now3, (now3 < 5 + BANNED_BEFORE_DECAY)%Z →
      ∃ updated db3, update_scores Sample.no_decay Sample.halflife now3 (pm_db m2) = (Ok updated, db3) ∧ refused 1 7 db3.
Proof.
  apply (fatal_report_bans Sample.no_decay Sample.halflife 6 7 1 (Sample.info (Sample.run 50 [Sample.connect 1]) 1) 1 0 (RealScore_default 5));
    try (vm_compute; reflexivity).
  vm_compute. lia.
Defined.

(** Of the peers 1, 2, 3 and 4 the worst one and the other inbound one without a
    duty are dropped. *)
Lemma prune_meets_targets_witness :
  connected_peers Sample.crowded = 4 ∧
  ∃ m', prune_excess_peers Sample.in_order Sample.in_order 6 Sample.crowded = (Ok tt, m') ∧
    2 ≤ connected_peers m' ∧
    target_outbound_peers 2 `min` connected_outbound_only_peers Sample.crowded ≤ connected_outbound_only_peers m' ∧
    (∀ p i, peers (pm_db Sample.crowded) !! p = Some i → has_future_duty 6 i = true →
       peers (pm_db m') !! p = Some i) ∧
    (connected_peers m' = 2 ∨
     ∀ p i, peers (pm_db m') !! p = Some i → info_is_connected i = true →
       has_future_duty 6 i = true ∨
       (info_is_outbound_only i = true ∧ connected_outbound_only_peers m' ≤ target_outbound_peers 2)).
Proof.
  split; [vm_compute; reflexivity|].
  apply (prune_meets_targets Sample.in_order Sample.in_order 6 Sample.crowded); [done|done|].
  vm_compute. lia.
Defined.

Lemma discovery_dials_bounded_witness :
  ∃ l m', peers_discovered 6 [(8, None); (9, None)] Sample.crowded = (Ok l, m') ∧
    pm_db m' = pm_db Sample.crowded ∧
    (∀ p, p ∈ l → should_dial p (pm_db Sample.crowded) = true) ∧
    (l = [] ∨ connected_or_dialing_peers Sample.crowded + length l ≤ max_peers 2) ∧
    (events m' = events Sample.crowded ∨
     ∃ k, 0 < k ≤ 16 ∧ events m' = events Sample.crowded ++ [DiscoverPeers k]).
Proof.
  apply (discovery_dials_bounded 6 [(8, None); (9, None)] Sample.crowded).
  - by repeat constructor.
  - vm_compute. lia.
Defined.

(** ** Behaviour worth knowing *)

(** Peers with a time to live may be dialed beyond the limit of the outbound
    query: the subtraction of [maintain_peer_count] then overflows. *)
Lemma priority_discovery_panics :
  (peers_discovered 6 [(20, Some 100%Z); (21, Some 100%Z)] (Sample.run 10 (Sample.connect <$> seq 1 11))).1
  = Panic "attempt to subtract with overflow".
Proof. vm_compute. reflexivity. Qed.

(** [Banned] to [Disconnecting] leaves the count of banned peers: the peer is
    counted although no peer is banned. *)
Lemma disconnecting_banned_leaks :
  let db := pm_db (Sample.run 50 (Sample.ban 1)) in
  let db' := (notify_disconnecting 8 1 false db).2 in
  banned_peers (banned_peers_count db') = 1 ∧ count_peers info_is_banned db' = 0.
Proof. split; vm_compute; reflexivity. Qed.

(** A peer that is banned by its score and connects again is reported once
    more, which has no effect: no event asks for its disconnection. *)
Lemma reban_is_silent :
  let m := Sample.run 50 (Sample.ban 1) in
  events (Sample.exec m (Sample.connect 1)) = events m ∧
  status_of 1 (pm_db (Sample.exec m (Sample.connect 1))) = status_of 1 (pm_db m).
Proof. split; vm_compute; reflexivity. Qed.

(** A trusted peer that is disconnected is dropped when the database is full,
    and is not trusted when it comes back. *)
Definition full_db : PeerDB nat nat unit unit :=
  MkPeerDB (list_to_map ((0, set_connection_status (Disconnected 1) trusted_peer_info) ::
              ((λ p, (p, set_connection_status (Disconnected 2) (PeerInfo_default 2))) <$> seq 1 499)))
    500 (MkBannedCount 0 ∅).

Lemma evicted_peer_loses_trust :
  let db1 := (inject_disconnect 5 1000 full_db).2 in
  let db2 := (connect_ingoing 6 0 [] None db1).2 in
  is_trusted <$> peers full_db !! 0 = Some true ∧ is_trusted <$> peers db2 !! 0 = Some false.
Proof. split; vm_compute; reflexivity. Qed.
