(* ===== verification/Ssz.v ===== *)
(** * SSZ

    Model of [version-meld/eth2_ssz], the encoding of messages and of stored
    values: the offsets, the encoder and the decoder of containers, and the
    codecs of integers, booleans, byte arrays, lists and tuples.

    A codec is a record of the methods of [Encode] and [Decode].  A container
    is a heterogeneous list of fields, which stands for the tuples and for the
    structures with derived codecs: the derive macros append the fields in order
    with [SszEncoder] and register them in order with [SszDecoderBuilder], as
    the documentation of these two shows.  Bytes are integers from 0 to 255. *)

From S2P Require Import Prelude Bytes.

Notation bytes := (list Z).

Definition BYTES_PER_LENGTH_OFFSET : nat := 4.

Inductive DecodeError :=
| InvalidByteLength (len expected : nat)
| InvalidLengthPrefix (len expected : nat)
| OutOfBoundsByte (i : nat)
| OffsetIntoFixedPortion (offset : nat)
| OffsetSkipsVariableBytes (offset : nat)
| OffsetsAreDecreasing (offset : nat)
| OffsetOutOfBounds (offset : nat)
| InvalidListFixedBytesLen (offset : nat)
| ZeroLengthItem
| BytesInvalid (msg : string)
| UnionSelectorInvalid (selector : Z).

(** [Result<A, DecodeError>], or a panic. *)
Inductive dres (A : Type) := DOk (a : A) | DErr (e : DecodeError) | DPanic (msg : string).
Arguments DOk {A}.
Arguments DErr {A}.
Arguments DPanic {A}.

Definition dres_bind {A B} (m : dres A) (k : A → dres B) : dres B :=
  match m with
  | DOk a => k a
  | DErr e => DErr e
  | DPanic s => DPanic s
  end.
Notation "'let$' x := m 'in' k" := (dres_bind m (λ x, k))
  (at level 10, x binder, m at level 100, k at level 200,
   format "'[v' 'let$'  x  :=  m  'in' '/' k ']'") : rust_scope.

(** ** Offsets *)

(** [encode_length]; a length of 2{^32} or more, which a debug build asserts not
    to be there, loses its higher bytes. *)
Definition encode_length (len : nat) : bytes := le_bytes BYTES_PER_LENGTH_OFFSET (Z.of_nat len).

Definition decode_offset (bs : bytes) : dres nat :=
  let len := length bs in
  if len =? BYTES_PER_LENGTH_OFFSET then DOk (Z.to_nat (from_le_bytes bs))
  else DErr (InvalidLengthPrefix len BYTES_PER_LENGTH_OFFSET).

(** [bytes.get(i..j)] *)
Definition get_slice (bs : bytes) (i j : nat) : option bytes :=
  if decide (i ≤ j ∧ j ≤ length bs) then Some (take (j - i) (drop i bs)) else None.

Definition read_offset (bs : bytes) : dres nat :=
  match get_slice bs 0 BYTES_PER_LENGTH_OFFSET with
  | Some bs => decode_offset bs
  | None => DErr (InvalidLengthPrefix (length bs) BYTES_PER_LENGTH_OFFSET)
  end.

Definition sanitize_offset (offset : nat) (previous_offset : option nat) (num_bytes : nat)
    (num_fixed_bytes : option nat) : dres nat :=
  if match num_fixed_bytes with Some fixed_bytes => offset <? fixed_bytes | None => false end
  then DErr (OffsetIntoFixedPortion offset)
  else if match previous_offset with None => true | Some _ => false end
          && match num_fixed_bytes with Some fixed_bytes => negb (offset =? fixed_bytes) | None => false end
  then DErr (OffsetSkipsVariableBytes offset)
  else if num_bytes <? offset then DErr (OffsetOutOfBounds offset)
  else if match previous_offset with Some prev => offset <? prev | None => false end
  then DErr (OffsetsAreDecreasing offset)
  else DOk offset.

(** ** [SszEncoder] *)

Record SszEncoder := MkEncoder {
  enc_offset : nat;
  enc_buf : bytes;
  variable_bytes : bytes;
}.

Definition encoder_container (buf : bytes) (num_fixed_bytes : nat) : SszEncoder := MkEncoder num_fixed_bytes buf [].

Definition append_parameterized (is_ssz_fixed_len : bool) (ssz_append : bytes → bytes) (e : SszEncoder) : SszEncoder :=
  if is_ssz_fixed_len then MkEncoder (enc_offset e) (ssz_append (enc_buf e)) (variable_bytes e)
  else MkEncoder (enc_offset e)
         (enc_buf e ++ encode_length (enc_offset e + length (variable_bytes e)))
         (ssz_append (variable_bytes e)).

Definition encoder_finalize (e : SszEncoder) : bytes := enc_buf e ++ variable_bytes e.

(** ** [SszDecoderBuilder] and [SszDecoder] *)

Record Offset := MkOffset { position : nat; off_offset : nat }.

Record SszDecoderBuilder := MkDecoderBuilder {
  db_bytes : bytes;
  items : list bytes;
  offsets : list Offset;
  items_index : nat;
}.

Definition SszDecoderBuilder_new (bs : bytes) : SszDecoderBuilder := MkDecoderBuilder bs [] [] 0.

Definition register_type_parameterized (is_ssz_fixed_len : bool) (ssz_fixed_len : nat) (b : SszDecoderBuilder)
    : dres SszDecoderBuilder :=
  let start := items_index b in
  if is_ssz_fixed_len then
    let items_index := start + ssz_fixed_len in
    match get_slice (db_bytes b) start items_index with
    | Some slice => DOk (MkDecoderBuilder (db_bytes b) (items b ++ [slice]) (offsets b) items_index)
    | None => DErr (InvalidByteLength (length (db_bytes b)) items_index)
    end
  else if start <=? length (db_bytes b) then
    let$ o := read_offset (drop start (db_bytes b)) in
    let$ o := sanitize_offset o (off_offset <$> last (offsets b)) (length (db_bytes b)) None in
    DOk (MkDecoderBuilder (db_bytes b) (items b ++ [[]]) (offsets b ++ [MkOffset (length (items b)) o])
           (start + BYTES_PER_LENGTH_OFFSET))
  else DPanic "slice index out of range".

(** [&bytes[i..j]] *)
Definition slice_range (bs : bytes) (i j : nat) : dres bytes :=
  match get_slice bs i j with Some s => DOk s | None => DPanic "slice index out of range" end.

(** [items[i] = s] *)
Definition set_item (items : list bytes) (i : nat) (s : bytes) : dres (list bytes) :=
  if i <? length items then DOk (<[i := s]> items) else DPanic "index out of bounds".

(** The loop over [offsets.windows(2)], and the last offset. *)
Fixpoint fill_items (bs : bytes) (offsets : list Offset) (items : list bytes) : dres (list bytes) :=
  match offsets with
  | [] => DOk items
  | a :: rest =>
      let stop := match rest with b :: _ => off_offset b | [] => length bs end in
      let$ s := slice_range bs (off_offset a) stop in
      let$ items := set_item items (position a) s in
      fill_items bs rest items
  end.

(** [build]: [finalize], then the items. *)
Definition builder_build (b : SszDecoderBuilder) : dres (list bytes) :=
  match offsets b with
  | first :: _ =>
      if off_offset first <? items_index b then DErr (OffsetIntoFixedPortion (off_offset first))
      else if items_index b <? off_offset first then DErr (OffsetSkipsVariableBytes (off_offset first))
      else fill_items (db_bytes b) (offsets b) (items b)
  | [] =>
      if items_index b =? length (db_bytes b) then DOk (items b)
      else DErr (InvalidByteLength (length (db_bytes b)) (items_index b))
  end.

(** ** Codecs *)

Record Codec (A : Type) := MkCodec {
  is_ssz_fixed_len : bool;
  ssz_fixed_len : nat;
  ssz_append : A → bytes → bytes;
  ssz_bytes_len : A → nat;
  from_ssz : bytes → dres A;
}.
Arguments MkCodec {A}.
Arguments is_ssz_fixed_len {A}.
Arguments ssz_fixed_len {A}.
Arguments ssz_append {A}.
Arguments ssz_bytes_len {A}.
Arguments from_ssz {A}.

Definition ssz_encode {A} (c : Codec A) (a : A) : bytes := ssz_append c a [].

(** A value of exactly [n] bytes. *)
Definition from_exact {A} (n : nat) (f : bytes → dres A) (bs : bytes) : dres A :=
  if length bs =? n then f bs else DErr (InvalidByteLength (length bs) n).

(** [u8], [u16], [u32], [u64], [usize], [U128] and [U256], on [n] bytes *)
Definition uint_codec (n : nat) : Codec Z :=
  MkCodec true n (λ x buf, buf ++ le_bytes n x) (λ _, n) (from_exact n (λ bs, DOk (from_le_bytes bs))).

Definition bool_codec : Codec bool :=
  MkCodec true 1 (λ x buf, buf ++ [if x : bool then 1%Z else 0%Z]) (λ _, 1)
    (from_exact 1 (λ bs, match bs with
                         | [0%Z] => DOk false
                         | [1%Z] => DOk true
                         | _ => DErr (BytesInvalid "Out-of-range for boolean")
                         end)).

(** [H256], [[u8; 4]] and [[u8; 32]] *)
Definition array_codec (n : nat) : Codec bytes :=
  MkCodec true n (λ x buf, buf ++ x) (λ _, n) (from_exact n DOk).

(** [NonZeroUsize] *)
Definition nonzero_codec : Codec Z :=
  MkCodec true 8 (λ x buf, buf ++ le_bytes 8 x) (λ _, 8)
    (λ bs, let$ x := from_ssz (uint_codec 8) bs in
           if (x =? 0)%Z then DErr (BytesInvalid "NonZeroUsize cannot be zero.") else DOk x).

(** *** Lists *)

Section List.
Context {A : Type} (c : Codec A).

(** [map(from_ssz_bytes).collect()] *)
Fixpoint decode_all (l : list bytes) : dres (list A) :=
  match l with
  | [] => DOk []
  | bs :: l => let$ a := from_ssz c bs in let$ r := decode_all l in DOk (a :: r)
  end.

(** The loop of [decode_list_of_variable_length_items] from [i] on; [n] items
    are left. *)
Fixpoint decode_items (bs : bytes) (first_offset n i offset : nat) : dres (list A) :=
  match n with
  | O => DOk []
  | S n =>
      let$ '(slice_option, offset) :=
        (if n =? 0 then DOk (get_slice bs offset (length bs), offset)
         else if i * BYTES_PER_LENGTH_OFFSET <=? length bs then
           let start := offset in
           let$ next_offset := read_offset (drop (i * BYTES_PER_LENGTH_OFFSET) bs) in
           let$ offset := sanitize_offset next_offset (Some offset) (length bs) (Some first_offset) in
           DOk (get_slice bs start offset, offset)
         else DPanic "slice index out of range") in
      match slice_option with
      | Some slice =>
          let$ a := from_ssz c slice in
          let$ r := decode_items bs first_offset n (S i) offset in
          DOk (a :: r)
      | None => DErr (OutOfBoundsByte offset)
      end
  end.

Definition decode_list_of_variable_length_items (max_len : option nat) (bs : bytes) : dres (list A) :=
  if length bs =? 0 then DOk [] else
  let$ first_offset := read_offset bs in
  let$ _ := sanitize_offset first_offset None (length bs) (Some first_offset) in
  if negb (first_offset mod BYTES_PER_LENGTH_OFFSET =? 0) || (first_offset <? BYTES_PER_LENGTH_OFFSET)
  then DErr (InvalidListFixedBytesLen first_offset) else
  let num_items := first_offset / BYTES_PER_LENGTH_OFFSET in
  if match max_len with Some max => max <? num_items | None => false end
  then DErr (BytesInvalid "Variable length list exceeds maximum")
  else decode_items bs first_offset num_items 1 first_offset.

Definition list_append (l : list A) (buf : bytes) : bytes :=
  if is_ssz_fixed_len c then foldl (λ buf a, ssz_append c a buf) buf l
  else encoder_finalize
         (foldl (λ e a, append_parameterized (is_ssz_fixed_len c) (ssz_append c a) e)
            (encoder_container buf (length l * BYTES_PER_LENGTH_OFFSET)) l).

Definition list_bytes_len (l : list A) : nat :=
  if is_ssz_fixed_len c then ssz_fixed_len c * length l
  else sum_list (ssz_bytes_len c <$> l) + BYTES_PER_LENGTH_OFFSET * length l.

(** [chunks] panics on a size of 0. *)
Definition list_from_ssz (max_len : option nat) (bs : bytes) : dres (list A) :=
  if length bs =? 0 then DOk []
  else if is_ssz_fixed_len c then
    if ssz_fixed_len c =? 0 then DPanic "chunk size must be non-zero"
    else decode_all (chunks (ssz_fixed_len c) bs)
  else decode_list_of_variable_length_items max_len bs.

(** [Vec<T>] with no maximum, [SmallVec<[T; n]>] with one. *)
Definition list_codec (max_len : option nat) : Codec (list A) :=
  MkCodec false BYTES_PER_LENGTH_OFFSET list_append list_bytes_len (list_from_ssz max_len).

End List.

(** *** Containers *)

(** A field, and a value for each of the fields. *)
Definition field : Type := {A : Type & Codec A}.
Fixpoint values (fs : list field) : Type :=
  match fs with
  | [] => unit
  | f :: fs => projT1 f * values fs
  end.

Definition f_fixed (f : field) : bool := is_ssz_fixed_len (projT2 f).
Definition f_len (f : field) : nat := ssz_fixed_len (projT2 f).

Fixpoint append_fields (fs : list field) : values fs → SszEncoder → SszEncoder :=
  match fs with
  | [] => λ _ e, e
  | f :: fs => λ x e, append_fields fs x.2 (append_parameterized (f_fixed f) (ssz_append (projT2 f) x.1) e)
  end.

Fixpoint fields_bytes_len (fs : list field) : values fs → nat :=
  match fs with
  | [] => λ _, 0
  | f :: fs => λ x,
      (if f_fixed f then f_len f else BYTES_PER_LENGTH_OFFSET + ssz_bytes_len (projT2 f) x.1) + fields_bytes_len fs x.2
  end.

Fixpoint register_fields (fs : list field) (b : SszDecoderBuilder) : dres SszDecoderBuilder :=
  match fs with
  | [] => DOk b
  | f :: fs => let$ b := register_type_parameterized (f_fixed f) (f_len f) b in register_fields fs b
  end.

(** [decode_next] for each field *)
Fixpoint decode_fields (fs : list field) (items : list bytes) : dres (values fs) :=
  match fs with
  | [] => DOk tt
  | f :: fs =>
      match items with
      | [] => DPanic "removal index out of bounds"
      | bs :: items =>
          let$ a := from_ssz (projT2 f) bs in
          let$ r := decode_fields fs items in
          DOk (a, r)
      end
  end.

Definition fields_len (fs : list field) : nat := sum_list (f_len <$> fs).

Definition container_codec (fs : list field) : Codec (values fs) :=
  let fixed := forallb f_fixed fs in
  MkCodec fixed (if fixed then fields_len fs else BYTES_PER_LENGTH_OFFSET)
    (λ x buf, encoder_finalize (append_fields fs x (encoder_container buf (fields_len fs))))
    (λ x, if fixed then fields_len fs else fields_bytes_len fs x)
    (λ bs, let$ b := register_fields fs (SszDecoderBuilder_new bs) in
           let$ items := builder_build b in
           decode_fields fs items).

(** A structure is the container of its fields. *)
Definition struct_codec {A B} (f : A → B) (g : B → A) (c : Codec A) : Codec B :=
  MkCodec (is_ssz_fixed_len c) (ssz_fixed_len c) (λ b, ssz_append c (g b)) (λ b, ssz_bytes_len c (g b))
    (λ bs, let$ a := from_ssz c bs in DOk (f a)).
