(* ===== verification/SszProofs.v ===== *)
(** * SSZ: proofs

    The layout of containers and lists, and the laws of a codec: a decoded
    encoding is the value, a value that is decoded has these bytes as its only
    encoding, and decoding never panics. *)

From S2P Require Import Prelude Bytes Ssz.

Definition is_byte (b : Z) : Prop := (0 <= b < 256)%Z.

(** ** Little-endian integers *)

Lemma le_bytes_bytes n x : Forall is_byte (le_bytes n x).
Proof. revert x. induction n; intros x; constructor; [apply Z.mod_pos_bound; lia|auto]. Qed.

Lemma from_le_bound bs : Forall is_byte bs → (0 <= from_le_bytes bs < 256 ^ Z.of_nat (length bs))%Z.
Proof.
  induction 1 as [|b bs Hb Hbs IH]; [cbn; lia|]. cbn [from_le_bytes foldr length].
  change (foldr _ 0%Z ?l) with (from_le_bytes l). rewrite Nat2Z.inj_succ, Z.pow_succ_r by lia. unfold is_byte in Hb. lia.
Qed.

Lemma le_from_le bs : Forall is_byte bs → le_bytes (length bs) (from_le_bytes bs) = bs.
Proof.
  induction 1 as [|b bs Hb Hbs IH]; [done|]. cbn [le_bytes length from_le_bytes foldr].
  change (foldr _ 0%Z ?l) with (from_le_bytes l). unfold is_byte in Hb.
  rewrite Z.add_comm, Z.mul_comm, Z_div_plus_full_l, Z.div_small, Z.add_0_r by lia.
  rewrite Z.add_comm, Z_mod_plus_full, Z.mod_small by lia. by rewrite IH.
Qed.

(** ** Slices and offsets *)

Lemma get_slice_app (pre s post : bytes) :
  get_slice (pre ++ s ++ post) (length pre) (length pre + length s) = Some s.
Proof.
  unfold get_slice. rewrite decide_True by (rewrite !length_app; lia).
  rewrite drop_app_length. f_equal. replace (_ - _) with (length s) by lia. apply take_app_length.
Qed.

Lemma get_slice_inv bs i j s : get_slice bs i j = Some s →
  i ≤ j ≤ length bs ∧ length s = j - i ∧ take j bs = take i bs ++ s.
Proof.
  unfold get_slice. case_decide; [|done]. intros [= <-]. split; [lia|]. split.
  - rewrite length_take, length_drop. lia.
  - rewrite <- (take_drop i bs) at 1. rewrite take_app_ge by (rewrite length_take; lia).
    f_equal. f_equal. rewrite length_take. lia.
Qed.

Lemma encode_length_length o : length (encode_length o) = BYTES_PER_LENGTH_OFFSET.
Proof. apply length_le_bytes. Qed.

Lemma read_offset_encode o r : (Z.of_nat o < 2 ^ 32)%Z → read_offset (encode_length o ++ r) = DOk o.
Proof.
  intros Ho. unfold read_offset.
  pose proof (get_slice_app [] (encode_length o) r) as Hs. cbn [app length] in Hs.
  rewrite encode_length_length in Hs. rewrite Nat.add_0_l in Hs. rewrite Hs.
  unfold decode_offset. rewrite encode_length_length. cbn [Nat.eqb BYTES_PER_LENGTH_OFFSET].
  unfold encode_length. rewrite le_bytes_roundtrip; [f_equal; lia|].
  change (256 ^ Z.of_nat BYTES_PER_LENGTH_OFFSET)%Z with (2 ^ 32)%Z. lia.
Qed.

Lemma read_offset_inv bs o : Forall is_byte bs → read_offset bs = DOk o →
  (Z.of_nat o < 2 ^ 32)%Z ∧ BYTES_PER_LENGTH_OFFSET ≤ length bs ∧ take BYTES_PER_LENGTH_OFFSET bs = encode_length o.
Proof.
  intros Hbs. unfold read_offset. destruct (get_slice _ _ _) as [s|] eqn:Hs; [|done].
  apply get_slice_inv in Hs as (? & Hl & Ht). unfold decode_offset.
  destruct (Nat.eqb_spec (length s) BYTES_PER_LENGTH_OFFSET) as [Hlen|]; [|done]. intros [= <-].
  cbn [take app] in Ht. rewrite take_0 in Ht. cbn [app] in Ht.
  assert (Hs : Forall is_byte s) by (rewrite <- Ht; by apply Forall_take).
  pose proof (from_le_bound s Hs) as Hb. rewrite Hlen in Hb.
  change (256 ^ Z.of_nat BYTES_PER_LENGTH_OFFSET)%Z with (2 ^ 32)%Z in Hb. split; [lia|]. split; [lia|].
  rewrite Ht. unfold encode_length. rewrite Z2Nat.id by lia. rewrite <- Hlen. by rewrite le_from_le.
Qed.

Lemma read_offset_total bs s : read_offset bs ≠ DPanic s.
Proof. unfold read_offset, decode_offset. destruct (get_slice _ _ _); [destruct (_ =? _)|]; done. Qed.

Lemma sanitize_total o p n f s : sanitize_offset o p n f ≠ DPanic s.
Proof. unfold sanitize_offset. by repeat case_match. Qed.

(** Offsets of a builder: not beyond the end, not before the previous one. *)
Lemma sanitize_builder o p n o' :
  sanitize_offset o p n None = DOk o' ↔ o' = o ∧ o ≤ n ∧ (∀ p', p = Some p' → p' ≤ o).
Proof.
  unfold sanitize_offset. rewrite andb_false_r. cbn iota.
  destruct (Nat.ltb_spec n o) as [|Hle]; [split; [done|lia]|].
  destruct p as [p'|]; cbn iota.
  - destruct (Nat.ltb_spec o p') as [Hp|Hp]; split; [done| | |].
    + intros (_ & _ & Hp'). specialize (Hp' p' eq_refl). lia.
    + intros [= ->]. split_and!; [done..|]. by intros ? [= <-].
    + by intros [-> _].
  - split; [intros [= ->]; done|by intros [-> _]].
Qed.

(** ** The layout of a container *)

(** An entry of the fixed part: the bytes of a value of fixed length, or the
    offset of a variable one. *)
Notation entry := (bytes + nat)%type.

Definition entry_bytes (e : entry) : bytes := match e with inl s => s | inr o => encode_length o end.
Definition head_bytes (es : list entry) : bytes := concat (entry_bytes <$> es).
Definition blank (e : entry) : bytes := match e with inl s => s | inr _ => [] end.

Fixpoint offsets_from (k : nat) (es : list entry) : list Offset :=
  match es with
  | [] => []
  | inl _ :: es => offsets_from (S k) es
  | inr o :: es => MkOffset k o :: offsets_from (S k) es
  end.

Fixpoint entry_offsets (es : list entry) : list nat :=
  match es with
  | [] => []
  | inl _ :: es => entry_offsets es
  | inr o :: es => o :: entry_offsets es
  end.

Lemma head_bytes_app es es' : head_bytes (es ++ es') = head_bytes es ++ head_bytes es'.
Proof. unfold head_bytes. by rewrite fmap_app, concat_app. Qed.

Lemma head_bytes_single e : head_bytes [e] = entry_bytes e.
Proof. apply app_nil_r. Qed.

Lemma offsets_from_app k es es' : offsets_from k (es ++ es') = offsets_from k es ++ offsets_from (k + length es) es'.
Proof.
  revert k. induction es as [|[s|o] es IH]; intros k; cbn; [by rewrite Nat.add_0_r|..];
    rewrite IH; by replace (S k + length es) with (k + S (length es)) by lia.
Qed.

Lemma offsets_from_offsets k es : off_offset <$> offsets_from k es = entry_offsets es.
Proof. revert k. induction es as [|[s|o] es IH]; intros k; cbn; rewrite ?IH; done. Qed.

Lemma entry_offsets_app es es' : entry_offsets (es ++ es') = entry_offsets es ++ entry_offsets es'.
Proof. induction es as [|[s|o] es IH]; cbn; rewrite ?IH; done. Qed.

(** The builder after reading the entries. *)
Definition reading (bs : bytes) (es : list entry) : SszDecoderBuilder :=
  MkDecoderBuilder bs (blank <$> es) (offsets_from 0 es) (length (head_bytes es)).

(** The entries are those of [bs], with offsets in order and within [bs]. *)
Record entries_ok (bs : bytes) (es : list entry) : Prop := {
  eo_head : head_bytes es `prefix_of` bs;
  eo_bound : Forall (λ o, o ≤ length bs) (entry_offsets es);
  eo_sorted : ∀ os o o' os', entry_offsets es = os ++ o :: o' :: os' → o ≤ o';
}.

Definition shape_ok (fixed : bool) (n : nat) (e : entry) : Prop :=
  match e with inl s => fixed = true ∧ length s = n | inr o => fixed = false ∧ (Z.of_nat o < 2 ^ 32)%Z end.

Lemma entries_nil bs : entries_ok bs [].
Proof. split; cbn; [apply prefix_nil|constructor|]. by intros [] ????. Qed.

Lemma last_offset k es : off_offset <$> last (offsets_from k es) = last (entry_offsets es).
Proof. by rewrite <- (offsets_from_offsets k), fmap_last. Qed.

Lemma sorted_snoc (l : list nat) o :
  (∀ os o o' os', l = os ++ o :: o' :: os' → o ≤ o') → (∀ p, last l = Some p → p ≤ o) →
  ∀ os a a' os', l ++ [o] = os ++ a :: a' :: os' → a ≤ a'.
Proof.
  intros Hl Hp os a a' os' E. destruct os' as [|x os' _] using rev_ind.
  - assert (E' : l ++ [o] = (os ++ [a]) ++ [a']) by by rewrite <- app_assoc.
    apply app_inj_tail in E' as [-> ->]. apply Hp. by rewrite last_snoc.
  - assert (E' : l ++ [o] = (os ++ a :: a' :: os') ++ [x]) by by rewrite <- app_assoc.
    apply app_inj_tail in E' as [-> _]. by eapply Hl.
Qed.

Lemma sorted_prefix (l : list nat) o :
  (∀ os a a' os', l ++ [o] = os ++ a :: a' :: os' → a ≤ a') →
  (∀ os o o' os', l = os ++ o :: o' :: os' → o ≤ o') ∧ (∀ p, last l = Some p → p ≤ o).
Proof.
  intros Hl. split.
  - intros os a a' os' ->. eapply (Hl os a a' (os' ++ [o])). by rewrite <- app_assoc.
  - intros p Hp. apply last_Some in Hp as [l' ->]. eapply (Hl l' p o []). by rewrite <- app_assoc.
Qed.

Lemma reading_snoc bs es e :
  reading bs (es ++ [e]) =
  MkDecoderBuilder bs ((blank <$> es) ++ [blank e])
    (offsets_from 0 es ++ match e with inl _ => [] | inr o => [MkOffset (length es) o] end)
    (length (head_bytes es) + length (entry_bytes e)).
Proof.
  unfold reading. rewrite fmap_app, offsets_from_app, head_bytes_app, length_app, head_bytes_single.
  by destruct e.
Qed.

Lemma prefix_snoc (h e bs : bytes) :
  h `prefix_of` bs → take (length e) (drop (length h) bs) = e → h ++ e `prefix_of` bs.
Proof.
  intros [r ->] He. rewrite drop_app_length in He. apply prefix_app. exists (drop (length e) r).
  by rewrite <- He at 1; rewrite take_drop.
Qed.

(** One more entry is registered. *)
Lemma register_sound bs es fixed n b' :
  Forall is_byte bs → entries_ok bs es → register_type_parameterized fixed n (reading bs es) = DOk b' →
  ∃ e, b' = reading bs (es ++ [e]) ∧ shape_ok fixed n e ∧ entries_ok bs (es ++ [e]).
Proof.
  intros Hbs [Hh Hb Hs]. unfold register_type_parameterized. cbn [reading items_index db_bytes items offsets].
  destruct fixed.
  - destruct (get_slice _ _ _) as [s|] eqn:Hsl; [|done]. intros [= <-].
    pose proof Hsl as (Hle & Hlen & _)%get_slice_inv.
    exists (inl s). rewrite reading_snoc. cbn. rewrite app_nil_r. split; [f_equal; lia|]. split; [split; [done|lia]|].
    split; [|rewrite entry_offsets_app; cbn; by rewrite app_nil_r..].
    rewrite head_bytes_app, head_bytes_single. apply prefix_snoc; [done|]. cbn [entry_bytes].
    unfold get_slice in Hsl. rewrite decide_True in Hsl by done. injection Hsl as Hsl. by rewrite Hlen.
  - destruct (_ <=? _); [|done]. destruct (read_offset _) as [o| |] eqn:Ho; cbn [dres_bind]; try done.
    destruct (sanitize_offset _ _ _ _) as [o'| |] eqn:Hso; cbn [dres_bind]; try done. intros [= <-].
    apply sanitize_builder in Hso as (-> & Hle & Hprev). rewrite last_offset in Hprev.
    apply read_offset_inv in Ho as (Ho & Hlen & Htake); [|by apply Forall_drop].
    exists (inr o). rewrite reading_snoc. cbn [blank entry_bytes]. rewrite encode_length_length, length_fmap.
    split; [done|]. split; [done|]. split.
    + rewrite head_bytes_app, head_bytes_single. apply prefix_snoc; [done|]. cbn [entry_bytes].
      by rewrite encode_length_length.
    + rewrite entry_offsets_app. cbn. apply Forall_app. split; [done|]. by constructor.
    + rewrite entry_offsets_app. cbn. by apply sorted_snoc.
Qed.

Lemma register_total bs es fixed n s :
  entries_ok bs es → register_type_parameterized fixed n (reading bs es) ≠ DPanic s.
Proof.
  intros [Hh _ _]. apply prefix_length in Hh. unfold register_type_parameterized.
  cbn [reading items_index db_bytes items offsets].
  destruct fixed; [by destruct (get_slice _ _ _)|].
  destruct (Nat.leb_spec (length (head_bytes es)) (length bs)); [|lia].
  destruct (read_offset _) eqn:E; cbn [dres_bind]; [|done|by apply read_offset_total in E].
  destruct (sanitize_offset _ _ _ _) eqn:E'; cbn [dres_bind]; [done|done|by apply sanitize_total in E'].
Qed.

Lemma register_complete bs es e fixed n :
  entries_ok bs (es ++ [e]) → shape_ok fixed n e →
  register_type_parameterized fixed n (reading bs es) = DOk (reading bs (es ++ [e])).
Proof.
  intros [Hh Hb Hs] Hshape. rewrite head_bytes_app, head_bytes_single in Hh. destruct Hh as [r Hbs].
  rewrite <- app_assoc in Hbs.
  rewrite entry_offsets_app in Hb, Hs. rewrite reading_snoc.
  unfold register_type_parameterized. cbn [reading items_index db_bytes items offsets].
  destruct e as [s|o]; cbn [shape_ok entry_bytes blank] in *.
  - destruct Hshape as [-> <-]. rewrite Hbs at 1. rewrite get_slice_app. by rewrite app_nil_r.
  - destruct Hshape as [-> Ho]. cbn in Hb, Hs. apply sorted_prefix in Hs as [_ Hlast].
    apply Forall_app in Hb as [_ Hb]. apply Forall_inv in Hb.
    destruct (Nat.leb_spec (length (head_bytes es)) (length bs)) as [|Hlt]; [|rewrite Hbs, length_app in Hlt; lia].
    rewrite Hbs at 1. rewrite drop_app_length, read_offset_encode by done. cbn [dres_bind].
    rewrite (proj2 (sanitize_builder o _ _ o)); [|split_and!; [done..|by rewrite last_offset]].
    cbn [dres_bind]. by rewrite encode_length_length, length_fmap.
Qed.

(** ** All fields *)

Notation shapes_ok := (Forall2 (λ f e, shape_ok (f_fixed f) (f_len f) e)).

Lemma entries_ok_prefix bs es es' : entries_ok bs (es ++ es') → entries_ok bs es.
Proof.
  intros [Hh Hb Hs]. rewrite head_bytes_app in Hh. rewrite entry_offsets_app in Hb, Hs. split.
  - etransitivity; [|done]. by apply prefix_app_r.
  - by apply Forall_app in Hb as [? _].
  - intros os o o' os' E. eapply (Hs os o o' (os' ++ entry_offsets es')). rewrite E. by rewrite <- app_assoc.
Qed.

Lemma register_fields_sound bs es fs b' :
  Forall is_byte bs → entries_ok bs es → register_fields fs (reading bs es) = DOk b' →
  ∃ es', b' = reading bs (es ++ es') ∧ shapes_ok fs es' ∧ entries_ok bs (es ++ es').
Proof.
  intros Hbs. revert es. induction fs as [|f fs IH]; intros es Hok; cbn [register_fields].
  { intros [= <-]. exists []. by rewrite app_nil_r. }
  destruct (register_type_parameterized _ _ _) as [b1| |] eqn:E; cbn [dres_bind]; [|done..].
  apply register_sound in E as (e & -> & He & Hok1); [|done..]. intros Hreg.
  apply IH in Hreg as (es' & -> & Hes' & Hok2); [|done].
  exists (e :: es'). rewrite <- app_assoc in *. split_and!; [done|by constructor|done].
Qed.

Lemma register_fields_total bs es fs s :
  Forall is_byte bs → entries_ok bs es → register_fields fs (reading bs es) ≠ DPanic s.
Proof.
  intros Hbs. revert es. induction fs as [|f fs IH]; intros es Hok; cbn [register_fields]; [done|].
  destruct (register_type_parameterized _ _ _) as [b1| |] eqn:E; cbn [dres_bind]; [|done|by apply register_total in E].
  apply register_sound in E as (e & -> & He & Hok1); [|done..]. by apply IH.
Qed.

Lemma register_fields_complete bs es fs es' :
  entries_ok bs (es ++ es') → shapes_ok fs es' → register_fields fs (reading bs es) = DOk (reading bs (es ++ es')).
Proof.
  intros Hok Hsh. revert es Hok. induction Hsh as [|f e fs es' He Hsh IH]; intros es Hok; cbn [register_fields].
  { by rewrite app_nil_r. }
  rewrite cons_middle, app_assoc in Hok. erewrite register_complete by (try apply He; by eapply entries_ok_prefix).
  cbn [dres_bind]. rewrite IH by done. by rewrite <- app_assoc.
Qed.

(** ** Slices between the offsets *)

Fixpoint next_offset (d : nat) (es : list entry) : nat :=
  match es with
  | [] => d
  | inl _ :: es => next_offset d es
  | inr o :: _ => o
  end.

(** The items, each with the flag of a fixed length. *)
Fixpoint resolve (bs : bytes) (es : list entry) : list (bool * bytes) :=
  match es with
  | [] => []
  | inl s :: es => (true, s) :: resolve bs es
  | inr o :: es => (false, take (next_offset (length bs) es - o) (drop o bs)) :: resolve bs es
  end.

Record offsets_ok (n : nat) (es : list entry) : Prop := {
  oo_bound : Forall (λ o, o ≤ n) (entry_offsets es);
  oo_sorted : ∀ os o o' os', entry_offsets es = os ++ o :: o' :: os' → o ≤ o';
}.

Lemma offsets_ok_cons n e es : offsets_ok n (e :: es) → offsets_ok n es.
Proof.
  intros [Hb Hs]. destruct e as [s|o]; [done|]. cbn in *. apply Forall_cons in Hb as [_ Hb]. split; [done|].
  intros os o1 o2 os' E. eapply (Hs (o :: os)). by rewrite E.
Qed.

Lemma next_offset_cases d es :
  (entry_offsets es = [] ∧ next_offset d es = d) ∨
  (∃ os, entry_offsets es = next_offset d es :: os).
Proof. induction es as [|[s|o] es IH]; cbn; eauto. Qed.

Lemma next_offset_between n o es : offsets_ok n (inr o :: es) → o ≤ next_offset n es ≤ n.
Proof.
  intros [Hb Hs]. cbn in *. destruct (next_offset_cases n es) as [[E ->]|[os E]].
  - apply Forall_cons in Hb as [? _]. lia.
  - rewrite E in Hb, Hs. split; [by eapply (Hs [])|]. apply Forall_cons in Hb as [_ Hb]. by apply Forall_cons in Hb as [? _].
Qed.

Lemma stop_next (bs : bytes) k es :
  match offsets_from k es with b :: _ => off_offset b | [] => length bs end = next_offset (length bs) es.
Proof. revert k. induction es as [|[s|o] es IH]; intros k; cbn; auto. Qed.

Lemma fill_items_spec bs es pre :
  offsets_ok (length bs) es →
  fill_items bs (offsets_from (length pre) es) (pre ++ (blank <$> es)) = DOk (pre ++ (resolve bs es).*2).
Proof.
  revert pre. induction es as [|e es IH]; intros pre Hok; [done|].
  pose proof (offsets_ok_cons _ _ _ Hok) as Hok'.
  destruct e as [s|o]; cbn [offsets_from resolve fmap list_fmap blank].
  - specialize (IH (pre ++ [s]) Hok'). rewrite length_app, Nat.add_1_r, <- !app_assoc in IH. exact IH.
  - apply next_offset_between in Hok as Hn. cbn [fill_items off_offset position]. rewrite stop_next.
    unfold slice_range, get_slice. rewrite decide_True by lia. cbn [dres_bind].
    unfold set_item. rewrite (proj2 (Nat.ltb_lt _ _)) by (rewrite length_app; cbn; lia).
    cbn [dres_bind]. rewrite insert_app_r_alt, Nat.sub_diag by done. cbn [insert list_insert].
    set (s := take _ _). specialize (IH (pre ++ [s]) Hok').
    rewrite length_app, Nat.add_1_r, <- !app_assoc in IH. exact IH.
Qed.

Lemma resolve_no_offsets bs es : entry_offsets es = [] → (resolve bs es).*2 = blank <$> es.
Proof. induction es as [|[s|o] es IH]; cbn; [done| |done]. intros. by rewrite IH. Qed.

Lemma build_spec bs es its :
  offsets_ok (length bs) es →
  builder_build (reading bs es) = DOk its ↔
  next_offset (length bs) es = length (head_bytes es) ∧ its = (resolve bs es).*2.
Proof.
  intros Hok. unfold builder_build. cbn [reading offsets items_index db_bytes items].
  pose proof (stop_next bs 0 es) as Hstop. pose proof (fill_items_spec bs es [] Hok) as Hfill. cbn [length app] in Hfill.
  destruct (offsets_from 0 es) as [|first rest] eqn:E.
  - assert (En : entry_offsets es = []) by (rewrite <- (offsets_from_offsets 0), E; done).
    rewrite <- Hstop, resolve_no_offsets by done.
    destruct (Nat.eqb_spec (length (head_bytes es)) (length bs)); naive_solver.
  - rewrite <- Hstop, Hfill.
    destruct (Nat.ltb_spec (off_offset first) (length (head_bytes es))); [naive_solver lia|].
    destruct (Nat.ltb_spec (length (head_bytes es)) (off_offset first)); [naive_solver lia|].
    split; [intros [= <-]; split; [lia|done]|by intros [_ ->]].
Qed.

Lemma build_total bs es s : offsets_ok (length bs) es → builder_build (reading bs es) ≠ DPanic s.
Proof.
  intros Hok. unfold builder_build. cbn [reading offsets items_index db_bytes items].
  pose proof (fill_items_spec bs es [] Hok) as Hfill. cbn [length app] in Hfill.
  destruct (offsets_from 0 es); [by destruct (_ =? _)|]. destruct (_ <? _); [done|]. destruct (_ <? _); [done|].
  by rewrite Hfill.
Qed.

Lemma entries_offsets_ok bs es : entries_ok bs es → offsets_ok (length bs) es.
Proof. by intros [? ? ?]. Qed.
