(* ===== verification/SszLaws.v ===== *)
(** * SSZ: the laws of the codecs

    [CodecLaws] holds of the integers, booleans and byte arrays, and of lists,
    containers and structures when it holds of their parts. *)

From S2P Require Import Prelude Bytes Ssz SszProofs.

(** ** Packing items *)

(** The fixed part of the items when the variable bytes start at [o]. *)
Fixpoint entries_of (o : nat) (its : list (bool * bytes)) : list entry :=
  match its with
  | [] => []
  | (true, b) :: its => inl b :: entries_of o its
  | (false, b) :: its => inr o :: entries_of (o + length b) its
  end.

Fixpoint var_bytes (its : list (bool * bytes)) : bytes :=
  match its with
  | [] => []
  | (true, _) :: its => var_bytes its
  | (false, b) :: its => b ++ var_bytes its
  end.

Definition head_len (its : list (bool * bytes)) : nat :=
  sum_list ((λ x : bool * bytes, if x.1 then length x.2 else BYTES_PER_LENGTH_OFFSET) <$> its).

Definition pack (its : list (bool * bytes)) : bytes := head_bytes (entries_of (head_len its) its) ++ var_bytes its.

Lemma head_bytes_cons e es : head_bytes (e :: es) = entry_bytes e ++ head_bytes es.
Proof. done. Qed.

Lemma head_bytes_length o its : length (head_bytes (entries_of o its)) = head_len its.
Proof.
  revert o. induction its as [|[[] b] its IH]; intros o; [done|..]; cbn [entries_of]; rewrite head_bytes_cons, length_app, IH;
    cbn [entry_bytes]; rewrite ?encode_length_length; done.
Qed.

Lemma resolve_entries bs es :
  offsets_ok (length bs) es →
  entries_of (next_offset (length bs) es) (resolve bs es) = es ∧
  var_bytes (resolve bs es) = drop (next_offset (length bs) es) bs.
Proof.
  induction es as [|e es IH]; intros Hok; cbn; [by rewrite drop_all|].
  destruct (IH (offsets_ok_cons _ _ _ Hok)) as [IH1 IH2]. destruct e as [s|o]; cbn.
  - by rewrite IH1, IH2.
  - apply next_offset_between in Hok. rewrite length_take, length_drop, IH2.
    replace (o + _) with (next_offset (length bs) es) by lia. rewrite IH1. split; [done|].
    rewrite <- (take_drop (next_offset (length bs) es - o) (drop o bs)) at 2. rewrite drop_drop.
    by replace (o + (next_offset (length bs) es - o)) with (next_offset (length bs) es) by lia.
Qed.

Lemma resolve_entries_of pre its o :
  length pre = o →
  resolve (pre ++ var_bytes its) (entries_of o its) = its ∧
  next_offset (length (pre ++ var_bytes its)) (entries_of o its) = o.
Proof.
  revert pre o. induction its as [|[[] b] its IH]; intros pre o Hpre; cbn.
  - rewrite app_nil_r. by split.
  - destruct (IH pre o Hpre) as [IH1 IH2]. by rewrite IH1, IH2.
  - destruct (IH (pre ++ b) (o + length b)) as [IH1 IH2]; [rewrite length_app; lia|].
    rewrite <- app_assoc in IH1, IH2. rewrite IH1, IH2. split; [|done]. do 2 f_equal.
    rewrite drop_app_length' by done. replace (o + length b - o) with (length b) by lia. by rewrite take_app_length.
Qed.

Lemma entry_offsets_of o its x :
  x ∈ entry_offsets (entries_of o its) → o ≤ x ≤ o + length (var_bytes its).
Proof.
  revert o. induction its as [|[[] b] its IH]; intros o; cbn; [by intros ?%not_elem_of_nil|apply IH|].
  rewrite length_app. intros [->|Hx]%elem_of_cons; [lia|]. apply IH in Hx. lia.
Qed.

Lemma entries_of_sorted o its os a a' os' :
  entry_offsets (entries_of o its) = os ++ a :: a' :: os' → a ≤ a'.
Proof.
  revert o os. induction its as [|[[] b] its IH]; intros o os; cbn; [by destruct os|apply IH|].
  destruct os as [|x os]; intros [= <- E]; [|by eapply IH].
  enough (o + length b ≤ a') by lia. eapply entry_offsets_of. rewrite E. left.
Qed.

Lemma pack_entries_ok its : entries_ok (pack its) (entries_of (head_len its) its).
Proof.
  split.
  - by exists (var_bytes its).
  - apply Forall_forall. intros x Hx%entry_offsets_of. unfold pack. rewrite length_app, head_bytes_length. lia.
  - intros os o o' os'. apply entries_of_sorted.
Qed.

(** ** The laws *)

Class CodecLaws {A} (c : Codec A) := {
  wf : A → Prop;
  law_append a buf : ssz_append c a buf = buf ++ ssz_encode c a;
  law_len a : wf a → length (ssz_encode c a) = ssz_bytes_len c a;
  law_fixed : if is_ssz_fixed_len c then 0 < ssz_fixed_len c ∧ ∀ a, wf a → length (ssz_encode c a) = ssz_fixed_len c
              else ssz_fixed_len c = BYTES_PER_LENGTH_OFFSET;
  law_roundtrip a : wf a → (Z.of_nat (length (ssz_encode c a)) < 2 ^ 32)%Z → from_ssz c (ssz_encode c a) = DOk a;
  law_canonical bs a : Forall is_byte bs → from_ssz c bs = DOk a → wf a ∧ ssz_encode c a = bs;
  law_total bs s : Forall is_byte bs → from_ssz c bs ≠ DPanic s;
}.

Lemma from_exact_inv {A} n (f : bytes → dres A) bs a : from_exact n f bs = DOk a → length bs = n ∧ f bs = DOk a.
Proof. unfold from_exact. destruct (Nat.eqb_spec (length bs) n); done. Qed.

Lemma from_exact_ok {A} n (f : bytes → dres A) bs : length bs = n → from_exact n f bs = f bs.
Proof. intros <-. unfold from_exact. by rewrite Nat.eqb_refl. Qed.

#[global] Instance uint_laws n : 0 < n → CodecLaws (uint_codec n).
Proof.
  intros Hn. refine {| wf x := (0 <= x < 256 ^ Z.of_nat n)%Z |}; unfold ssz_encode; cbn.
  - done.
  - intros. apply length_le_bytes.
  - split; [done|]. intros. apply length_le_bytes.
  - intros a Ha _. rewrite from_exact_ok by apply length_le_bytes. by rewrite le_bytes_roundtrip.
  - intros bs a Hbs [Hl [= <-]]%from_exact_inv. split; [rewrite <- Hl; by apply from_le_bound|].
    rewrite <- Hl. by apply le_from_le.
  - intros bs s _. unfold from_exact. by destruct (_ =? _).
Defined.

#[global] Instance bool_laws : CodecLaws bool_codec.
Proof.
  refine {| wf _ := True |}; unfold ssz_encode; cbn.
  - done.
  - done.
  - split; [lia|done].
  - by intros [] _ _.
  - intros bs a Hbs [Hl Ha]%from_exact_inv. split; [done|]. destruct bs as [|b [|]]; try done.
    destruct (decide (b = 0%Z)) as [->|]; [by simplify_eq|]. destruct (decide (b = 1%Z)) as [->|]; [by simplify_eq|].
    destruct b as [|[]|]; done.
  - intros bs s _. unfold from_exact. destruct (_ =? _); [|done]. by repeat case_match.
Defined.

#[global] Instance array_laws n : 0 < n → CodecLaws (array_codec n).
Proof.
  intros Hn. refine {| wf x := length x = n ∧ Forall is_byte x |}; unfold ssz_encode; cbn.
  - done.
  - by intros a [? _].
  - split; [done|]. by intros a [? _].
  - intros a [Ha _] _. by rewrite from_exact_ok.
  - by intros bs a Hbs [Hl [= <-]]%from_exact_inv.
  - intros bs s _. unfold from_exact. by destruct (_ =? _).
Defined.

#[global] Instance nonzero_laws : CodecLaws nonzero_codec.
Proof.
  refine {| wf x := (0 < x < 256 ^ 8)%Z |}; unfold ssz_encode; cbn [nonzero_codec ssz_append ssz_bytes_len ssz_fixed_len
    is_ssz_fixed_len from_ssz app].
  - done.
  - intros. apply length_le_bytes.
  - split; [lia|]. intros. apply length_le_bytes.
  - intros a Ha _. cbn [uint_codec from_ssz]. rewrite from_exact_ok by apply length_le_bytes.
    cbn [dres_bind]. rewrite le_bytes_roundtrip by (change (256 ^ Z.of_nat 8)%Z with (256 ^ 8)%Z; lia).
    by destruct (Z.eqb_spec a 0); [lia|].
  - intros bs a Hbs. destruct (from_ssz (uint_codec 8) bs) as [x| |] eqn:E; cbn [dres_bind]; [|done..].
    apply (law_canonical (CodecLaws := uint_laws 8 ltac:(lia))) in E as [Hx <-]; [|done]. cbn in Hx.
    destruct (Z.eqb_spec x 0); [done|]. intros [= <-]. split; [|done].
    change (256 ^ 8)%Z with (256 ^ Z.of_nat 8)%Z. lia.
  - intros bs s Hbs. destruct (from_ssz (uint_codec 8) bs) eqn:E; cbn [dres_bind]; [by destruct (_ =? _)%Z|done|].
    by apply (law_total (CodecLaws := uint_laws 8 ltac:(lia))) in E.
Defined.

(** ** Lists *)

Section ListLaws.
Context {A : Type} (c : Codec A) {L : CodecLaws c}.

Notation list_items l := (pair false <$> (ssz_encode c <$> l)).

Lemma append_list_fixed l buf :
  foldl (λ buf a, ssz_append c a buf) buf l = buf ++ concat (ssz_encode c <$> l).
Proof.
  revert buf. induction l as [|a l IH]; intros buf; cbn; [by rewrite app_nil_r|].
  by rewrite IH, law_append, <- app_assoc.
Qed.

Lemma append_list_variable l o buf var :
  foldl (λ e a, append_parameterized false (ssz_append c a) e) (MkEncoder o buf var) l =
  MkEncoder o (buf ++ head_bytes (entries_of (o + length var) (list_items l))) (var ++ var_bytes (list_items l)).
Proof.
  revert buf var. induction l as [|a l IH]; intros buf var.
  { cbn. by rewrite !app_nil_r. }
  cbn [foldl append_parameterized fmap list_fmap entries_of var_bytes enc_offset enc_buf variable_bytes].
  rewrite IH, law_append, length_app, head_bytes_cons, !app_assoc, Nat.add_assoc. done.
Qed.

Lemma vars_head_len (its : list bytes) : head_len (pair false <$> its) = length its * BYTES_PER_LENGTH_OFFSET.
Proof.
  induction its as [|a its IH]; [done|].
  change (head_len (pair false <$> a :: its)) with (BYTES_PER_LENGTH_OFFSET + head_len (pair false <$> its)).
  rewrite IH. cbn [length]. lia.
Qed.

Lemma list_append_spec l buf :
  list_append c l buf =
  buf ++ (if is_ssz_fixed_len c then concat (ssz_encode c <$> l) else pack (list_items l)).
Proof.
  unfold list_append. destruct (is_ssz_fixed_len c) eqn:Hf; [apply append_list_fixed|].
  unfold encoder_container. rewrite append_list_variable. unfold encoder_finalize, pack.
  cbn [enc_buf variable_bytes length app]. by rewrite vars_head_len, length_fmap, Nat.add_0_r, <- app_assoc.
Qed.

Lemma decode_all_ok l :
  Forall wf l → Forall (λ a, (Z.of_nat (length (ssz_encode c a)) < 2 ^ 32)%Z) l →
  decode_all c (ssz_encode c <$> l) = DOk l.
Proof.
  intros Hwf Hlen. induction l as [|a l IH]; [done|].
  apply Forall_cons in Hwf as [Ha Hwf]. apply Forall_cons in Hlen as [Hla Hlen].
  cbn. rewrite law_roundtrip by done. cbn. by rewrite IH.
Qed.

Lemma decode_all_canonical bss l :
  Forall (Forall is_byte) bss → decode_all c bss = DOk l → Forall wf l ∧ ssz_encode c <$> l = bss.
Proof.
  intros Hbs. revert l. induction Hbs as [|bs bss Hb Hbs IH]; intros l; cbn.
  { by intros [= <-]. }
  destruct (from_ssz c bs) as [a| |] eqn:E; cbn; [|done..].
  destruct (decode_all c bss) as [r| |]; cbn; [|done..]. intros [= <-].
  apply law_canonical in E as [Ha <-]; [|done]. destruct (IH r eq_refl) as [Hr <-]. split; [by constructor|done].
Qed.

Lemma decode_all_total bss s : Forall (Forall is_byte) bss → decode_all c bss ≠ DPanic s.
Proof.
  intros Hbs. induction Hbs as [|bs bss Hb Hbs IH]; cbn; [done|].
  destruct (from_ssz c bs) eqn:E; cbn; [|done|by apply law_total in E].
  destruct (decode_all c bss) eqn:E'; cbn; done.
Qed.

Lemma sanitize_next o p n F o' :
  sanitize_offset o (Some p) n (Some F) = DOk o' ↔ o' = o ∧ F ≤ o ∧ p ≤ o ≤ n.
Proof.
  unfold sanitize_offset. cbn [andb].
  destruct (Nat.ltb_spec o F); [split; [done|lia]|]. destruct (Nat.ltb_spec n o); [split; [done|lia]|].
  destruct (Nat.ltb_spec o p); [split; [done|lia]|]. split; [intros [= ->]; lia|by intros [-> _]].
Qed.

Lemma sanitize_first F n o : sanitize_offset F None n (Some F) = DOk o ↔ o = F ∧ F ≤ n.
Proof.
  unfold sanitize_offset. rewrite Nat.ltb_irrefl, Nat.eqb_refl. cbn [negb andb].
  destruct (Nat.ltb_spec n F); split; try done; try lia; [by intros [= ->]|by intros [-> _]].
Qed.

(** The loop reads the offsets of the fixed part, and decodes the items they
    delimit. *)
Lemma decode_items_ok bs F its i o pre r :
  F ≤ o → (Z.of_nat (length bs) < 2 ^ 32)%Z →
  bs = pre ++ concat its → length pre = o →
  drop (i * BYTES_PER_LENGTH_OFFSET) bs = head_bytes (tail (entries_of o (pair false <$> its))) ++ r →
  i * BYTES_PER_LENGTH_OFFSET ≤ length bs →
  decode_items c bs F (length its) i o = decode_all c its.
Proof.
  revert i o pre. induction its as [|s its IH]; intros i o pre HF Hbs Hpre Hlpre Hdrop Hi; [done|].
  cbn [length decode_items decode_all fmap list_fmap entries_of tail concat] in *.
  assert (Ho : o + length s ≤ length bs) by (rewrite Hpre, !length_app; lia).
  destruct its as [|s' its]; cbn [length Nat.eqb].
  - pose proof (get_slice_app pre s []) as Hs. cbn [concat] in Hpre.
    replace (length bs) with (length pre + length s) by (rewrite Hpre, !length_app; cbn; lia).
    rewrite Hpre at 1. rewrite <- Hlpre, Hs. done.
  - destruct (Nat.leb_spec (i * BYTES_PER_LENGTH_OFFSET) (length bs)); [|lia].
    cbn [fmap list_fmap entries_of] in Hdrop. rewrite head_bytes_cons, <- app_assoc in Hdrop. cbn [entry_bytes] in Hdrop.
    rewrite Hdrop, read_offset_encode by lia. cbn [dres_bind].
    rewrite (proj2 (sanitize_next _ _ _ _ (o + length s))) by lia. cbn [dres_bind].
    rewrite Hpre at 1. rewrite <- Hlpre at 1 2. rewrite get_slice_app.
    destruct (from_ssz c s); cbn [dres_bind]; [|done..]. rewrite (IH _ _ (pre ++ s)); [done|lia|done|..].
    + by rewrite Hpre, <- app_assoc.
    + rewrite length_app. lia.
    + cbn [fmap list_fmap entries_of tail]. rewrite Nat.mul_succ_l, <- drop_drop, Hdrop.
      by rewrite drop_app_length' by apply (encode_length_length (o + length s)).
    + apply (f_equal length) in Hdrop. rewrite length_drop, !length_app, encode_length_length in Hdrop. lia.
Qed.

Lemma decode_items_inv bs F n i o l :
  Forall is_byte bs → F ≤ o ≤ length bs → decode_items c bs F (S n) i o = DOk l →
  ∃ its r, length its = S n ∧ drop o bs = concat its ∧ decode_all c its = DOk l ∧
    drop (i * BYTES_PER_LENGTH_OFFSET) bs = head_bytes (tail (entries_of o (pair false <$> its))) ++ r.
Proof.
  intros Hb. revert i o l. induction n as [|n IH]; intros i o l Ho.
  - cbn [decode_items Nat.eqb dres_bind]. destruct (get_slice bs o (length bs)) as [s|] eqn:Hs; [|done].
    apply get_slice_inv in Hs as (_ & _ & Hs). intros Hl.
    exists [s], (drop (i * BYTES_PER_LENGTH_OFFSET) bs). split_and!; [done| |done..].
    cbn [concat]. rewrite app_nil_r. rewrite firstn_all in Hs. rewrite Hs at 1. apply drop_app_length'.
    rewrite length_take. lia.
  - remember (S n) as n' eqn:Hn. cbn [decode_items]. replace (n' =? 0) with false by (by subst).
    destruct (Nat.leb_spec (i * BYTES_PER_LENGTH_OFFSET) (length bs)) as [Hi|]; [|done].
    destruct (read_offset _) as [o'| |] eqn:Hr; cbn [dres_bind]; [|done..].
    apply read_offset_inv in Hr as (Ho' & _ & Htake); [|by apply Forall_drop].
    destruct (sanitize_offset _ _ _ _) as [o''| |] eqn:Hso; cbn [dres_bind]; [|done..].
    apply sanitize_next in Hso as (-> & HF & Hle).
    destruct (get_slice bs o o') as [s|] eqn:Hs; [|done].
    apply get_slice_inv in Hs as (_ & Hls & Hs).
    destruct (from_ssz c s) as [a| |] eqn:Ha; cbn [dres_bind]; [|done..].
    destruct (decode_items _ _ _ _ _ _) as [l'| |] eqn:Hl'; cbn [dres_bind]; [|done..]. intros [= <-].
    subst n'. apply IH in Hl' as (its & r & Hn & Hc & Hd & Hdrop); [|lia].
    exists (s :: its), r. split_and!.
    + cbn. lia.
    + cbn. rewrite <- Hc. apply (app_inv_head (take o bs)). rewrite take_drop, app_assoc, <- Hs. by rewrite take_drop.
    + cbn. rewrite Ha. cbn. by rewrite Hd.
    + destruct its as [|s' its]; [done|]. cbn [fmap list_fmap entries_of tail] in *.
      rewrite head_bytes_cons, <- app_assoc. cbn [entry_bytes]. replace (o + length s) with o' by lia.
      rewrite <- Htake, <- Hdrop. rewrite Nat.mul_succ_l, <- drop_drop.
      by rewrite take_drop.
Qed.

Lemma decode_items_total bs F n i o s :
  Forall is_byte bs → (i + n - 1) * BYTES_PER_LENGTH_OFFSET ≤ length bs →
  decode_items c bs F n i o ≠ DPanic s.
Proof.
  intros Hb. revert i o. induction n as [|n IH]; intros i o Hi; [done|]. cbn [decode_items].
  assert (Hrec : ∀ sl o', Forall is_byte sl →
    (let$ a := from_ssz c sl in let$ r := decode_items c bs F n (S i) o' in DOk (a :: r)) ≠ DPanic s).
  { intros sl o' Hsl. destruct (from_ssz c sl) eqn:E; cbn; [|done|by apply law_total in E].
    specialize (IH (S i) o'). destruct (decode_items _ _ _ _ _ _); cbn; try done. intros [= ->].
    apply IH; [|done]. destruct n; cbn in *; lia. }
  assert (Hslice : ∀ x y sl, get_slice bs x y = Some sl → Forall is_byte sl).
  { unfold get_slice. intros x y sl. case_decide; [|done]. intros [= <-]. by apply Forall_take, Forall_drop. }
  destruct (Nat.eqb_spec n 0) as [->|Hn]; cbn [dres_bind].
  - destruct (get_slice bs o (length bs)) eqn:Hs; [|done]. eapply Hrec, Hslice, Hs.
  - destruct (Nat.leb_spec (i * BYTES_PER_LENGTH_OFFSET) (length bs)); [|cbn in *; nia].
    destruct (read_offset _) eqn:Hr; cbn [dres_bind]; [|done|by apply read_offset_total in Hr].
    destruct (sanitize_offset _ _ _ _) eqn:Hso; cbn [dres_bind]; [|done|by apply sanitize_total in Hso].
    destruct (get_slice bs o _) eqn:Hs; [|done]. eapply Hrec, Hslice, Hs.
Qed.

Lemma var_bytes_vars (its : list bytes) : var_bytes (pair false <$> its) = concat its.
Proof. induction its as [|s its IH]; [done|]. cbn. by f_equal. Qed.

Lemma pack_vars_length (its : list bytes) :
  length (pack (pair false <$> its)) = length its * BYTES_PER_LENGTH_OFFSET + length (concat its).
Proof. unfold pack. by rewrite length_app, head_bytes_length, vars_head_len, var_bytes_vars. Qed.

(** The bytes of a list of variable length items *)
Lemma decode_variable_ok max_len its :
  its ≠ [] → (∀ m, max_len = Some m → length its ≤ m) → (Z.of_nat (length (pack (pair false <$> its))) < 2 ^ 32)%Z →
  decode_list_of_variable_length_items c max_len (pack (pair false <$> its)) = decode_all c its.
Proof.
  intros Hne Hmax Hlen. pose proof (pack_vars_length its) as Hpl. destruct its as [|s its]; [done|].
  remember (s :: its) as all eqn:Hall. unfold decode_list_of_variable_length_items.
  assert (Hn : 1 ≤ length all) by (subst; cbn; lia).
  destruct (Nat.eqb_spec (length (pack (pair false <$> all))) 0) as [E|_]; [unfold BYTES_PER_LENGTH_OFFSET in *; lia|].
  set (F := length all * BYTES_PER_LENGTH_OFFSET) in *.
  assert (Hpack : pack (pair false <$> all) =
    encode_length F ++ head_bytes (tail (entries_of F (pair false <$> all))) ++ concat all).
  { unfold pack. rewrite vars_head_len, var_bytes_vars. fold F. subst all. cbn [fmap list_fmap entries_of tail].
    by rewrite head_bytes_cons, <- app_assoc. }
  rewrite Hpack at 1. rewrite read_offset_encode by lia. cbn [dres_bind].
  rewrite (proj2 (sanitize_first F _ F)) by lia.
  cbn [dres_bind]. replace (F mod BYTES_PER_LENGTH_OFFSET) with 0 by (unfold F; by rewrite Nat.Div0.mod_mul).
  replace (F / BYTES_PER_LENGTH_OFFSET) with (length all) by (unfold F; by rewrite Nat.div_mul).
  rewrite (proj2 (Nat.ltb_ge F _)) by (unfold F, BYTES_PER_LENGTH_OFFSET; lia). cbn [negb orb Nat.eqb].
  replace (match max_len with Some max => max <? length all | None => false end) with false.
  2: { destruct max_len as [m|]; [|done]. symmetry. apply Nat.ltb_ge. by apply Hmax. }
  eapply (decode_items_ok _ _ _ _ _ (head_bytes (entries_of F (pair false <$> all)))); [lia|lia|..].
  - unfold pack. by rewrite vars_head_len, var_bytes_vars.
  - by rewrite head_bytes_length, vars_head_len.
  - rewrite Hpack. by rewrite drop_app_length' by apply (encode_length_length F).
  - unfold F, BYTES_PER_LENGTH_OFFSET in *. lia.
Qed.

Lemma decode_variable_inv max_len bs l :
  Forall is_byte bs → length bs ≠ 0 → decode_list_of_variable_length_items c max_len bs = DOk l →
  ∃ its, bs = pack (pair false <$> its) ∧ decode_all c its = DOk l ∧ (∀ m, max_len = Some m → length its ≤ m).
Proof.
  intros Hb Hne. unfold decode_list_of_variable_length_items. rewrite (proj2 (Nat.eqb_neq _ 0)) by done.
  destruct (read_offset bs) as [F| |] eqn:Hr; cbn [dres_bind]; [|done..].
  apply read_offset_inv in Hr as (HF & Hl & Htake); [|done].
  destruct (sanitize_offset _ _ _ _) eqn:Hso; cbn [dres_bind]; [|done..].
  apply sanitize_first in Hso as [-> HFl].
  destruct (_ || _) eqn:Hmod; [done|]. apply orb_false_iff in Hmod as [Hmod HF4].
  apply negb_false_iff, Nat.eqb_eq in Hmod. apply Nat.ltb_ge in HF4.
  destruct (match max_len with Some _ => _ | None => _ end) eqn:Hm; [done|]. intros Hd.
  assert (HFn : F = F / BYTES_PER_LENGTH_OFFSET * BYTES_PER_LENGTH_OFFSET).
  { pose proof (Nat.div_mod_eq F BYTES_PER_LENGTH_OFFSET). lia. }
  destruct (F / BYTES_PER_LENGTH_OFFSET) as [|n] eqn:En; [unfold BYTES_PER_LENGTH_OFFSET in *; lia|].
  apply decode_items_inv in Hd as (its & r & Hn & Hc & Hd & Hdrop); [|done|lia].
  exists its. split_and!; [|done|].
  - unfold pack. rewrite vars_head_len, var_bytes_vars, Hn, <- HFn, <- Hc.
    assert (Hh : bs = head_bytes (entries_of F (pair false <$> its)) ++ r).
    { destruct its as [|s its]; [done|]. cbn [fmap list_fmap entries_of tail] in *.
      rewrite head_bytes_cons, <- app_assoc, <- Hdrop, Nat.mul_1_l. cbn [entry_bytes]. rewrite <- Htake. by rewrite take_drop. }
    rewrite Hh at 1. f_equal. rewrite Hh. symmetry. apply drop_app_length'.
    by rewrite head_bytes_length, vars_head_len, Hn.
  - intros m ->. apply Nat.ltb_ge in Hm. lia.
Qed.

Lemma decode_variable_total max_len bs s :
  Forall is_byte bs → decode_list_of_variable_length_items c max_len bs ≠ DPanic s.
Proof.
  intros Hb. unfold decode_list_of_variable_length_items. destruct (_ =? 0); [done|].
  destruct (read_offset bs) as [F| |] eqn:Hr; cbn [dres_bind]; [|done|by apply read_offset_total in Hr].
  destruct (sanitize_offset _ _ _ _) eqn:Hso; cbn [dres_bind]; [|done|by apply sanitize_total in Hso].
  destruct (_ || _) eqn:Hmod; [done|].
  destruct (match max_len with Some _ => _ | None => _ end); [done|]. apply decode_items_total; [done|].
  replace (1 + _ - 1) with (F / BYTES_PER_LENGTH_OFFSET) by lia.
  apply sanitize_first in Hso as [_ HFl].
  pose proof (Nat.Div0.mul_div_le F BYTES_PER_LENGTH_OFFSET). lia.
Qed.

Lemma Forall_concat_inv {B} (P : B → Prop) (ls : list (list B)) : Forall P (concat ls) → Forall (Forall P) ls.
Proof. induction ls as [|l ls IH]; [constructor|]. cbn. intros [? ?]%Forall_app. constructor; auto. Qed.

Lemma length_concat_le {B} (ls : list (list B)) l : l ∈ ls → length l ≤ length (concat ls).
Proof. induction 1; cbn; rewrite length_app; lia. Qed.

Lemma pack_vars_bytes its : Forall is_byte (pack (pair false <$> its)) → Forall (Forall is_byte) its.
Proof. unfold pack. rewrite var_bytes_vars. intros [_ ?]%Forall_app. by apply Forall_concat_inv. Qed.

Definition list_wf (max_len : option nat) (l : list A) : Prop :=
  Forall wf l ∧ (is_ssz_fixed_len c = false → ∀ m, max_len = Some m → length l ≤ m).

Lemma list_encode max_len l :
  ssz_encode (list_codec c max_len) l =
  if is_ssz_fixed_len c then concat (ssz_encode c <$> l) else pack (list_items l).
Proof. unfold ssz_encode at 1. cbn. by rewrite list_append_spec. Qed.

Lemma list_encode_length max_len l :
  Forall wf l → length (ssz_encode (list_codec c max_len) l) = list_bytes_len c l.
Proof.
  intros Hwf. rewrite list_encode. unfold list_bytes_len. pose proof (law_fixed (c := c)) as Hfix.
  destruct (is_ssz_fixed_len c) eqn:Hf.
  - destruct Hfix as [_ Hfix]. induction Hwf as [|a l Ha Hwf IH]; cbn; [lia|].
    rewrite length_app, IH, Hfix by done. lia.
  - rewrite pack_vars_length, length_fmap, Nat.add_comm. f_equal; [|lia].
    induction Hwf as [|a l Ha Hwf IH]; cbn; [done|]. rewrite length_app, IH, law_len by done. done.
Qed.

Lemma list_item_len max_len l a :
  a ∈ l → length (ssz_encode c a) ≤ length (ssz_encode (list_codec c max_len) l).
Proof.
  intros Ha. rewrite list_encode.
  assert (length (ssz_encode c a) ≤ length (concat (ssz_encode c <$> l))) by (by apply length_concat_le, list_elem_of_fmap_2).
  case_match; [done|]. rewrite pack_vars_length. lia.
Qed.

Lemma list_roundtrip max_len l :
  list_wf max_len l → (Z.of_nat (length (ssz_encode (list_codec c max_len) l)) < 2 ^ 32)%Z →
  list_from_ssz c max_len (ssz_encode (list_codec c max_len) l) = DOk l.
Proof.
  intros [Hwf Hmax] Hlen.
  assert (Hall : decode_all c (ssz_encode c <$> l) = DOk l).
  { apply decode_all_ok; [done|]. apply Forall_forall. intros a Ha%(list_item_len max_len). lia. }
  rewrite list_encode in *. unfold list_from_ssz. pose proof (law_fixed (c := c)) as Hfix.
  destruct l as [|a l]; [by destruct (is_ssz_fixed_len c)|]. destruct (is_ssz_fixed_len c) eqn:Hf.
  - destruct Hfix as [Hpos Hfix]. rewrite (proj2 (Nat.eqb_neq (ssz_fixed_len c) 0)) by lia.
    destruct (Nat.eqb_spec (length (concat (ssz_encode c <$> a :: l))) 0) as [E|_].
    { apply Forall_cons in Hwf as [Ha _]. cbn in E. rewrite length_app, Hfix in E by done. lia. }
    rewrite <- (app_nil_r (concat _)), chunks_concat, chunks_nil, app_nil_r; [done|lia|].
    apply Forall_fmap. eapply Forall_impl; [exact Hwf|]. exact Hfix.
  - rewrite decode_variable_ok; [|done| |done].
    + by destruct (_ =? 0) eqn:E; [|].
    + intros m Hm. rewrite length_fmap. by apply Hmax.
Qed.

Lemma list_canonical max_len bs l :
  Forall is_byte bs → list_from_ssz c max_len bs = DOk l →
  list_wf max_len l ∧ ssz_encode (list_codec c max_len) l = bs.
Proof.
  intros Hb. rewrite list_encode. unfold list_from_ssz, list_wf.
  destruct (Nat.eqb_spec (length bs) 0) as [E|E].
  { intros [= <-]. apply nil_length_inv in E as ->. split; [split; [constructor|cbn; lia]|by destruct (is_ssz_fixed_len c)]. }
  destruct (is_ssz_fixed_len c).
  - destruct (Nat.eqb_spec (ssz_fixed_len c) 0); [done|]. intros Hd%decode_all_canonical.
    + destruct Hd as [Hwf Henc]. split; [by split|]. rewrite Henc. apply concat_chunks. lia.
    + apply Forall_concat_inv. by rewrite concat_chunks by lia.
  - intros (its & -> & Hd & Hmax)%decode_variable_inv; [|done..].
    apply decode_all_canonical in Hd as [Hwf <-]; [|by apply pack_vars_bytes].
    rewrite length_fmap in Hmax. by split.
Qed.

Lemma list_total max_len bs s : Forall is_byte bs → list_from_ssz c max_len bs ≠ DPanic s.
Proof.
  intros Hb. unfold list_from_ssz. pose proof (law_fixed (c := c)) as Hfix. destruct (length bs =? 0); [done|].
  destruct (is_ssz_fixed_len c); [|by apply decode_variable_total]. destruct Hfix as [Hpos _].
  rewrite (proj2 (Nat.eqb_neq (ssz_fixed_len c) 0)) by lia. apply decode_all_total, Forall_concat_inv.
  by rewrite concat_chunks by lia.
Qed.

#[global] Instance list_laws max_len : CodecLaws (list_codec c max_len).
Proof.
  refine {| wf := list_wf max_len |}.
  - intros. rewrite list_encode. cbn. by rewrite list_append_spec.
  - intros a [Ha _]. by rewrite list_encode_length.
  - done.
  - apply list_roundtrip.
  - apply list_canonical.
  - apply list_total.
Defined.

End ListLaws.

(** ** Containers *)

Lemma pack_item_len its : Forall (λ s, length s ≤ length (pack its)) its.*2.
Proof.
  assert (H : Forall (λ s, length s ≤ head_len its + length (var_bytes its)) its.*2).
  { induction its as [|[[] b] its IH]; [constructor|..].
    - change (head_len ((true, b) :: its)) with (length b + head_len its). cbn. constructor; [lia|].
      eapply Forall_impl; [exact IH|]. cbn. lia.
    - change (head_len ((false, b) :: its)) with (BYTES_PER_LENGTH_OFFSET + head_len its). cbn [var_bytes].
      rewrite length_app. constructor; [cbn; lia|]. eapply Forall_impl; [exact IH|]. cbn. lia. }
  unfold pack. by rewrite length_app, head_bytes_length.
Qed.

Fixpoint fields_laws (fs : list field) : Type :=
  match fs with
  | [] => unit
  | f :: fs => CodecLaws (projT2 f) * fields_laws fs
  end.

Fixpoint fields_wf (fs : list field) : fields_laws fs → values fs → Prop :=
  match fs with
  | [] => λ _ _, True
  | f :: fs => λ L x, wf (CodecLaws := L.1) x.1 ∧ fields_wf fs L.2 x.2
  end.

Fixpoint field_items (fs : list field) : values fs → list (bool * bytes) :=
  match fs with
  | [] => λ _, []
  | f :: fs => λ x, (f_fixed f, ssz_encode (projT2 f) x.1) :: field_items fs x.2
  end.

Lemma append_fields_spec fs (L : fields_laws fs) x o buf var :
  append_fields fs x (MkEncoder o buf var) =
  MkEncoder o (buf ++ head_bytes (entries_of (o + length var) (field_items fs x))) (var ++ var_bytes (field_items fs x)).
Proof.
  revert L buf var. induction fs as [|f fs IH]; intros L buf var.
  { cbn. by rewrite !app_nil_r. }
  destruct L as [Lf L], x as [a x]. cbn [append_fields field_items fst snd]. unfold append_parameterized.
  destruct (f_fixed f); cbn [entries_of var_bytes enc_offset enc_buf variable_bytes];
    rewrite (IH x L), (law_append (CodecLaws := Lf)), ?length_app, head_bytes_cons, !app_assoc, ?Nat.add_assoc; done.
Qed.

Lemma container_append fs (L : fields_laws fs) x buf :
  ssz_append (container_codec fs) x buf =
  buf ++ head_bytes (entries_of (fields_len fs) (field_items fs x)) ++ var_bytes (field_items fs x).
Proof.
  cbn [container_codec ssz_append]. unfold encoder_container. rewrite append_fields_spec by done.
  unfold encoder_finalize. cbn [enc_buf variable_bytes length app]. by rewrite Nat.add_0_r, <- app_assoc.
Qed.

Lemma fields_head_len fs (L : fields_laws fs) x : fields_wf fs L x → head_len (field_items fs x) = fields_len fs.
Proof.
  induction fs as [|f fs IH]; [done|]. destruct L as [Lf L], x as [a x]. intros [Ha Hx]. cbn [fst snd] in *.
  change (fields_len (f :: fs)) with (f_len f + fields_len fs). rewrite <- (IH L x Hx).
  change (head_len (field_items (f :: fs) (a, x))) with
    ((if f_fixed f then length (ssz_encode (projT2 f) a) else BYTES_PER_LENGTH_OFFSET) + head_len (field_items fs x)).
  f_equal. pose proof (law_fixed (CodecLaws := Lf)) as Hfix. unfold f_fixed, f_len.
  destruct (is_ssz_fixed_len _); [by apply Hfix|done].
Qed.

Lemma container_encode fs (L : fields_laws fs) x :
  fields_wf fs L x → ssz_encode (container_codec fs) x = pack (field_items fs x).
Proof. intros Hx. unfold ssz_encode, pack. rewrite container_append by done. by rewrite (fields_head_len fs L). Qed.

Lemma fields_shapes fs (L : fields_laws fs) x o :
  fields_wf fs L x → (Z.of_nat (o + length (var_bytes (field_items fs x))) < 2 ^ 32)%Z →
  Forall2 (λ f e, shape_ok (f_fixed f) (f_len f) e) fs (entries_of o (field_items fs x)).
Proof.
  revert o. induction fs as [|f fs IH]; intros o; [constructor|]. destruct L as [Lf L], x as [a x].
  intros [Ha Hx]. cbn [fst snd field_items] in *. pose proof (law_fixed (CodecLaws := Lf)) as Hfix.
  unfold f_fixed, f_len. destruct (is_ssz_fixed_len (projT2 f)) eqn:E; cbn [entries_of var_bytes];
    rewrite ?length_app; intros Ho; constructor.
  - cbn. rewrite E. split; [done|]. by apply Hfix.
  - by apply (IH L).
  - cbn. split; [done|lia].
  - apply (IH L); [done|lia].
Qed.

Lemma decode_fields_ok fs (L : fields_laws fs) x :
  fields_wf fs L x → Forall (λ s, (Z.of_nat (length s) < 2 ^ 32)%Z) (field_items fs x).*2 →
  decode_fields fs (field_items fs x).*2 = DOk x.
Proof.
  induction fs as [|f fs IH]; [by destruct x|]. destruct L as [Lf L], x as [a x]. intros [Ha Hx] Hl.
  cbn [fst snd field_items fmap list_fmap decode_fields] in *. apply Forall_cons in Hl as [Hl Hls].
  rewrite (law_roundtrip (CodecLaws := Lf)) by done. cbn [dres_bind]. by rewrite (IH L).
Qed.

Lemma decode_fields_canonical fs (L : fields_laws fs) bss x :
  Forall (Forall is_byte) bss → length bss = length fs → decode_fields fs bss = DOk x →
  fields_wf fs L x ∧ field_items fs x = zip (f_fixed <$> fs) bss.
Proof.
  revert bss. induction fs as [|f fs IH]; intros bss Hb Hl; [by destruct bss|].
  destruct bss as [|bs bss]; [done|]. apply Forall_cons in Hb as [Hb Hbs]. destruct L as [Lf L].
  cbn [decode_fields]. destruct (from_ssz (projT2 f) bs) as [a| |] eqn:E; cbn [dres_bind]; [|done..].
  destruct (decode_fields fs bss) as [r| |] eqn:E'; cbn [dres_bind]; [|done..]. intros [= <-].
  apply (law_canonical (CodecLaws := Lf)) in E as [Ha <-]; [|done].
  destruct (IH L r bss) as [Hr Hit]; [done|by injection Hl|done|]. cbn. by rewrite Hit.
Qed.

Lemma decode_fields_total fs (L : fields_laws fs) bss s :
  Forall (Forall is_byte) bss → length bss = length fs → decode_fields fs bss ≠ DPanic s.
Proof.
  revert bss. induction fs as [|f fs IH]; intros bss Hb Hl; [done|].
  destruct bss as [|bs bss]; [done|]. apply Forall_cons in Hb as [Hb Hbs]. destruct L as [Lf L].
  cbn [decode_fields]. destruct (from_ssz (projT2 f) bs) as [a| |] eqn:E; cbn [dres_bind];
    [|done|by apply (law_total (CodecLaws := Lf)) in E].
  injection Hl as Hl. specialize (IH L bss Hbs Hl). destruct (decode_fields fs bss); cbn [dres_bind]; [done..|].
  intros [= ->]. by apply IH.
Qed.

Lemma resolve_flags bs fs es :
  Forall2 (λ f e, shape_ok (f_fixed f) (f_len f) e) fs es → (resolve bs es).*1 = f_fixed <$> fs.
Proof. induction 1 as [|f [b|o] fs es He _ IH]; cbn; [done|..]; rewrite IH; cbn in He; destruct He as [He _]; by rewrite He. Qed.

Lemma resolve_length bs es : length (resolve bs es) = length es.
Proof. induction es as [|[] es IH]; cbn; auto. Qed.

Lemma resolve_bytes bs es :
  Forall is_byte bs → Forall is_byte (head_bytes es) → Forall (Forall is_byte) (resolve bs es).*2.
Proof.
  intros Hb. induction es as [|[b|o] es IH]; [constructor|..]; rewrite head_bytes_cons; intros [He Hes]%Forall_app; cbn.
  - constructor; [done|by apply IH].
  - constructor; [|by apply IH]. by apply Forall_take, Forall_drop.
Qed.

Lemma shapes_head_len fs es :
  fields_laws fs → Forall2 (λ f e, shape_ok (f_fixed f) (f_len f) e) fs es → length (head_bytes es) = fields_len fs.
Proof.
  intros L H. revert L. induction H as [|f e fs es He _ IH]; intros L; [done|]. destruct L as [Lf L].
  rewrite head_bytes_cons, length_app, (IH L). change (fields_len (f :: fs)) with (f_len f + fields_len fs). f_equal.
  pose proof (law_fixed (CodecLaws := Lf)) as Hfix. unfold f_fixed, f_len in *.
  destruct e as [b|o]; cbn in He; destruct He as [Hf Hb]; rewrite Hf in Hfix; [done|]. by rewrite Hfix, <- (encode_length_length o).
Qed.

Lemma container_roundtrip fs (L : fields_laws fs) x :
  fields_wf fs L x → (Z.of_nat (length (ssz_encode (container_codec fs) x)) < 2 ^ 32)%Z →
  from_ssz (container_codec fs) (ssz_encode (container_codec fs) x) = DOk x.
Proof.
  intros Hx. rewrite (container_encode fs L) by done. intros Hlen. set (its := field_items fs x) in *.
  assert (Hl : length (pack its) = head_len its + length (var_bytes its)) by (unfold pack; by rewrite length_app, head_bytes_length).
  cbn [container_codec from_ssz].
  change (SszDecoderBuilder_new (pack its)) with (reading (pack its) []).
  rewrite (register_fields_complete _ [] _ (entries_of (head_len its) its));
    [|apply pack_entries_ok|apply (fields_shapes fs L); [done|fold its; lia]].
  cbn [dres_bind app]. destruct (resolve_entries_of (head_bytes (entries_of (head_len its) its)) its (head_len its)
    (head_bytes_length _ _)) as [Hres Hnext]. fold (pack its) in Hres, Hnext.
  rewrite (proj2 (build_spec _ _ its.*2 (entries_offsets_ok _ _ (pack_entries_ok its)))).
  2: by rewrite Hres, Hnext, head_bytes_length.
  cbn [dres_bind]. apply (decode_fields_ok fs L); [done|]. fold its.
  eapply Forall_impl; [apply pack_item_len|]. cbn. lia.
Qed.

(** Reading the fields splits the bytes into the fixed part and the items. *)
Lemma container_items fs (L : fields_laws fs) bs items :
  Forall is_byte bs →
  (let$ b := register_fields fs (SszDecoderBuilder_new bs) in builder_build b) = DOk items →
  Forall (Forall is_byte) items ∧ length items = length fs ∧
  head_bytes (entries_of (fields_len fs) (zip (f_fixed <$> fs) items)) ++ var_bytes (zip (f_fixed <$> fs) items) = bs.
Proof.
  intros Hb. change (SszDecoderBuilder_new bs) with (reading bs []).
  destruct (register_fields fs (reading bs [])) as [b| |] eqn:E; cbn [dres_bind]; [|done..].
  apply register_fields_sound in E as (es & -> & Hsh & Hok); [|done|apply entries_nil]. cbn [app] in *.
  pose proof (entries_offsets_ok _ _ Hok) as Hoff. rewrite build_spec by done. intros [Hnext ->].
  destruct (resolve_entries bs es Hoff) as [Hent Hvar]. destruct (eo_head _ _ Hok) as [r Hr].
  split_and!.
  - apply resolve_bytes; [done|]. rewrite Hr in Hb. by apply Forall_app in Hb as [? _].
  - rewrite length_fmap, resolve_length. symmetry. by eapply Forall2_length.
  - rewrite <- (resolve_flags bs fs es Hsh), zip_fst_snd, <- (shapes_head_len fs es L Hsh), <- Hnext, Hent, Hvar, Hnext.
    clear -Hr. subst bs. by rewrite drop_app_length.
Qed.

Lemma container_canonical fs (L : fields_laws fs) bs x :
  Forall is_byte bs → from_ssz (container_codec fs) bs = DOk x →
  fields_wf fs L x ∧ ssz_encode (container_codec fs) x = bs.
Proof.
  intros Hb. cbn [container_codec from_ssz]. pose proof (container_items fs L bs) as Hit.
  destruct (register_fields _ _) as [b| |]; cbn [dres_bind] in *; [|done..].
  destruct (builder_build b) as [items| |]; cbn [dres_bind] in *; [|done..]. intros Hd.
  destruct (Hit items Hb eq_refl) as (Hbs & Hl & Heq).
  apply (decode_fields_canonical fs L) in Hd as [Hx Hitems]; [|done..]. split; [done|].
  unfold ssz_encode. by rewrite container_append, Hitems.
Qed.

Lemma container_total fs (L : fields_laws fs) bs s :
  Forall is_byte bs → from_ssz (container_codec fs) bs ≠ DPanic s.
Proof.
  intros Hb. cbn [container_codec from_ssz]. pose proof (container_items fs L bs) as Hit.
  change (SszDecoderBuilder_new bs) with (reading bs []) in *.
  destruct (register_fields _ _) as [b| |] eqn:E; cbn [dres_bind] in *;
    [|done|by apply register_fields_total in E; [|done|apply entries_nil]].
  apply register_fields_sound in E as (es & -> & _ & Hok); [|done|apply entries_nil].
  destruct (builder_build _) as [items| |] eqn:E; cbn [dres_bind] in *;
    [|done|by apply build_total in E; [|by apply entries_offsets_ok]].
  destruct (Hit items Hb eq_refl) as (Hbs & Hl & _). by apply decode_fields_total.
Qed.

Lemma fields_var_len fs (L : fields_laws fs) x :
  fields_wf fs L x → fields_len fs + length (var_bytes (field_items fs x)) = fields_bytes_len fs x.
Proof.
  induction fs as [|f fs IH]; [done|]. destruct L as [Lf L], x as [a x]. intros [Ha Hx]. cbn [fst snd] in *.
  change (fields_len (f :: fs)) with (f_len f + fields_len fs). cbn [field_items fields_bytes_len fst snd].
  rewrite <- (IH L x Hx), <- (law_len (CodecLaws := Lf)) by done.
  pose proof (law_fixed (CodecLaws := Lf)) as Hfix. unfold f_fixed, f_len. destruct (is_ssz_fixed_len _); cbn [var_bytes].
  - lia.
  - rewrite length_app, Hfix. lia.
Qed.

Lemma fields_no_var fs x : forallb f_fixed fs = true → var_bytes (field_items fs x) = [].
Proof.
  induction fs as [|f fs IH]; [done|]. cbn. intros [-> Hfs]%andb_true_iff. by apply IH.
Qed.

Lemma container_length fs (L : fields_laws fs) x :
  fields_wf fs L x →
  length (ssz_encode (container_codec fs) x) = fields_len fs + length (var_bytes (field_items fs x)).
Proof.
  intros Hx. rewrite (container_encode fs L) by done. unfold pack.
  by rewrite length_app, head_bytes_length, (fields_head_len fs L).
Qed.

Definition container_laws (fs : list field) (L : fields_laws fs) : 0 < fields_len fs → CodecLaws (container_codec fs).
Proof.
  intros Hpos. refine {| wf := fields_wf fs L |}.
  - intros. unfold ssz_encode. by rewrite !container_append.
  - intros x Hx. rewrite (container_length fs L) by done. cbn [container_codec ssz_bytes_len].
    destruct (forallb f_fixed fs) eqn:E; [by rewrite fields_no_var, Nat.add_0_r|by rewrite (fields_var_len fs L)].
  - cbn [container_codec is_ssz_fixed_len ssz_fixed_len]. destruct (forallb f_fixed fs) eqn:E; [|done].
    split; [done|]. intros x Hx. rewrite (container_length fs L) by done. by rewrite fields_no_var, Nat.add_0_r.
  - intros. by apply (container_roundtrip fs L).
  - intros bs x. apply (container_canonical fs L).
  - intros bs s. apply (container_total fs L).
Defined.

Definition struct_laws {A B} (f : A → B) (g : B → A) (c : Codec A) (L : CodecLaws c) :
  (∀ a, wf a → g (f a) = a) → (∀ b, f (g b) = b) → CodecLaws (struct_codec f g c).
Proof.
  intros Hgf Hfg. refine {| wf b := wf (g b) |}; unfold ssz_encode; cbn.
  - intros. by rewrite law_append.
  - intros b Hb. apply (law_len (CodecLaws := L) _ Hb).
  - pose proof (law_fixed (CodecLaws := L)) as Hfix. destruct (is_ssz_fixed_len c); [|done].
    destruct Hfix as [? Hfix]. split; [done|]. intros b. apply Hfix.
  - intros b Hb Hl. pose proof (law_roundtrip (CodecLaws := L) _ Hb Hl) as E. unfold ssz_encode in E.
    rewrite E. cbn. by rewrite Hfg.
  - intros bs b Hbs. destruct (from_ssz c bs) as [a| |] eqn:E; cbn; [|done..]. intros [= <-].
    apply (law_canonical (CodecLaws := L)) in E as [Ha <-]; [|done]. by rewrite Hgf.
  - intros bs s Hbs. destruct (from_ssz c bs) eqn:E; cbn; [done..|]. by apply law_total in E.
Defined.
