(* ===== verification/SszTypes.v ===== *)
(** * SSZ: the types of the node

    The codecs of the structures that the node stores and sends: transactions,
    chunk arrays, Merkle proofs and the requests of the RPC.  The structures
    derive their codecs, which are those of the containers of their fields. *)

From S2P Require Import Prelude Bytes Hashing SharedTypes MerkleProof MerkleLight ChunkPool SegmentProof FlowStore SyncService PeerManager Ssz SszProofs SszLaws.

(** ** Building blocks *)

Definition u8_codec : Codec Z := uint_codec 1.
Definition u64_codec : Codec Z := uint_codec 8.
Definition u256_codec : Codec Z := uint_codec 32.
Definition usize_codec : Codec nat := struct_codec Z.to_nat Z.of_nat (uint_codec 8).
Definition h256_codec : Codec bytes := array_codec 32.
Definition vec_codec {A} (c : Codec A) : Codec (list A) := list_codec c None.

Definition fld {A} (c : Codec A) : field := existT A c.

(** [(A, B)] *)
Definition tuple2_codec {A B} (a : Codec A) (b : Codec B) : Codec (A * B) :=
  struct_codec (λ v, (v.1, v.2.1)) (λ x, (x.1, (x.2, tt))) (container_codec [fld a; fld b]).

Definition MAX_UNION_SELECTOR : Z := 127.
Definition UnionSelector_new (selector : Z) : dres Z :=
  if (selector <=? MAX_UNION_SELECTOR)%Z then DOk selector else DErr (UnionSelectorInvalid selector).

Definition split_union_bytes (bs : bytes) : dres (Z * bytes) :=
  match bs with
  | [] => DErr (OutOfBoundsByte 0)
  | b :: body => let$ selector := UnionSelector_new b in DOk (selector, body)
  end.

(** ** Structures *)

Definition TxID_codec : Codec (TxID bytes) :=
  struct_codec (λ v, MkTxID v.1 v.2.1) (λ x, (id_seq x, (id_hash x, tt)))
    (container_codec [fld u64_codec; fld h256_codec]).

Definition Transaction_codec : Codec (Transaction bytes) :=
  struct_codec
    (λ v, MkTransaction v.1 v.2.1 v.2.2.1 v.2.2.2.1 v.2.2.2.2.1 v.2.2.2.2.2.1 v.2.2.2.2.2.2.1)
    (λ x, (stream_ids x, (tx_data x, (data_merkle_root x, (merkle_nodes x,
           (start_entry_index x, (tx_size x, (tx_seq x, tt))))))))
    (container_codec [fld (vec_codec u256_codec); fld (vec_codec u8_codec); fld h256_codec;
       fld (vec_codec (tuple2_codec usize_codec h256_codec)); fld u64_codec; fld u64_codec; fld u64_codec]).

Definition ChunkArray_codec : Codec ChunkArray :=
  struct_codec (λ v, MkChunkArray v.1 v.2.1) (λ x, (ca_data x, (start_index x, tt)))
    (container_codec [fld (vec_codec u8_codec); fld u64_codec]).

Definition Proof_codec : Codec (MProof bytes) :=
  struct_codec (λ v, MkProof v.1 v.2.1) (λ x, (lemma x, (path x, tt)))
    (container_codec [fld (vec_codec h256_codec); fld (vec_codec bool_codec)]).

Definition RangeProof_codec : Codec (RangeProof bytes) :=
  struct_codec (λ v, MkRangeProof v.1 v.2.1) (λ x, (left_proof x, (right_proof x, tt)))
    (container_codec [fld Proof_codec; fld Proof_codec]).

Definition ChunkArrayWithProof_codec : Codec (ChunkArrayWithProof bytes) :=
  struct_codec (λ v, MkChunkArrayWithProof v.1 v.2.1) (λ x, (cp_chunks x, (cp_proof x, tt)))
    (container_codec [fld ChunkArray_codec; fld RangeProof_codec]).

Definition FileProof_codec : Codec (FileProof bytes) :=
  struct_codec (λ v, MkFileProof v.1 v.2.1) (λ x, (fp_lemma x, (fp_path x, tt)))
    (container_codec [fld (vec_codec h256_codec); fld (vec_codec bool_codec)]).

Definition GetChunksRequest_codec : Codec (GetChunksRequest bytes) :=
  struct_codec (λ v, MkGetChunks v.1 v.2.1 v.2.2.1) (λ x, (req_tx x, (index_start x, (index_end x, tt))))
    (container_codec [fld TxID_codec; fld u64_codec; fld u64_codec]).

(** [#[ssz(enum_behaviour = "union")]]: the number of the variant, and its
    contents. *)
Definition BatchRoot_codec : Codec (BatchRoot bytes) :=
  MkCodec false BYTES_PER_LENGTH_OFFSET
    (λ x buf, match x with
              | Single r => ssz_append h256_codec r (buf ++ [0%Z])
              | Multiple p => ssz_append (tuple2_codec usize_codec h256_codec) p (buf ++ [1%Z])
              end)
    (λ x, match x with
          | Single r => ssz_bytes_len h256_codec r + 1
          | Multiple p => ssz_bytes_len (tuple2_codec usize_codec h256_codec) p + 1
          end)
    (λ bs, let$ '(selector, body) := split_union_bytes bs in
           if (selector =? 0)%Z then let$ r := from_ssz h256_codec body in DOk (Single r)
           else if (selector =? 1)%Z
           then let$ p := from_ssz (tuple2_codec usize_codec h256_codec) body in DOk (Multiple p)
           else DErr (UnionSelectorInvalid selector)).

(** ** Their laws *)

Ltac solve_fields := repeat split; apply _.

#[global] Instance u8_laws : CodecLaws u8_codec := uint_laws 1 ltac:(lia).
#[global] Instance u64_laws : CodecLaws u64_codec := uint_laws 8 ltac:(lia).
#[global] Instance u256_laws : CodecLaws u256_codec := uint_laws 32 ltac:(lia).
#[global] Instance h256_laws : CodecLaws h256_codec := array_laws 32 ltac:(lia).
#[global] Instance vec_laws {A} (c : Codec A) `{!CodecLaws c} : CodecLaws (vec_codec c) := list_laws c None.

#[global] Instance usize_laws : CodecLaws usize_codec.
Proof. refine (struct_laws _ _ _ u64_laws _ _); [cbn; lia|intros; lia]. Defined.

Lemma codec_len_pos {A} (c : Codec A) `{!CodecLaws c} : 0 < ssz_fixed_len c.
Proof. pose proof (law_fixed (c := c)) as H. destruct (is_ssz_fixed_len c); [by destruct H|]. rewrite H. unfold BYTES_PER_LENGTH_OFFSET. lia. Qed.

Lemma fields_len_pos f fs (L : fields_laws (f :: fs)) : 0 < fields_len (f :: fs).
Proof.
  destruct L as [Lf _]. change (fields_len (f :: fs)) with (f_len f + fields_len fs). unfold f_len.
  pose proof (codec_len_pos (projT2 f)). lia.
Qed.

(** A structure with at least one field *)
Definition derive_laws {B} f fs (k : values (f :: fs) → B) (g : B → values (f :: fs)) (L : fields_laws (f :: fs)) :
  (∀ a, g (k a) = a) → (∀ b, k (g b) = b) → CodecLaws (struct_codec k g (container_codec (f :: fs))).
Proof.
  intros Hgk Hkg. refine (struct_laws k g _ (container_laws _ L (fields_len_pos _ _ L)) _ Hkg). auto.
Defined.

Ltac derive :=
  lazymatch goal with
  | |- CodecLaws (struct_codec ?k ?g (container_codec (?f :: ?fs))) => unshelve refine (derive_laws f fs k g _ _ _)
  end;
  [solve_fields
  |intros; cbn in *; by repeat match goal with x : _ * _ |- _ => destruct x | x : unit |- _ => destruct x end
  |by intros []].

#[global] Instance tuple2_laws {A B} (a : Codec A) (b : Codec B) `{!CodecLaws a, !CodecLaws b} :
  CodecLaws (tuple2_codec a b).
Proof. unfold tuple2_codec. derive. Defined.
#[global] Instance TxID_laws : CodecLaws TxID_codec.
Proof. unfold TxID_codec. derive. Defined.
#[global] Instance Transaction_laws : CodecLaws Transaction_codec.
Proof. unfold Transaction_codec. derive. Defined.
#[global] Instance ChunkArray_laws : CodecLaws ChunkArray_codec.
Proof. unfold ChunkArray_codec. derive. Defined.
#[global] Instance Proof_laws : CodecLaws Proof_codec.
Proof. unfold Proof_codec. derive. Defined.
#[global] Instance RangeProof_laws : CodecLaws RangeProof_codec.
Proof. unfold RangeProof_codec. derive. Defined.
#[global] Instance ChunkArrayWithProof_laws : CodecLaws ChunkArrayWithProof_codec.
Proof. unfold ChunkArrayWithProof_codec. derive. Defined.
#[global] Instance FileProof_laws : CodecLaws FileProof_codec.
Proof. unfold FileProof_codec. derive. Defined.
#[global] Instance GetChunksRequest_laws : CodecLaws GetChunksRequest_codec.
Proof. unfold GetChunksRequest_codec. derive. Defined.

#[global] Instance BatchRoot_laws : CodecLaws BatchRoot_codec.
Proof.
  refine {| wf x := match x with Single r => wf (c := h256_codec) r | Multiple p => wf (c := tuple2_codec usize_codec h256_codec) p end |};
    unfold ssz_encode; cbn [BatchRoot_codec ssz_append ssz_bytes_len is_ssz_fixed_len ssz_fixed_len from_ssz app].
  - intros [r|p] buf; rewrite !(law_append (c := _)), <- app_assoc; done.
  - intros [r|p] Hx; rewrite (law_append (c := _)), length_app, law_len by done; cbn [length]; lia.
  - done.
  - intros [r|p] Hx; rewrite (law_append (c := _)), length_app; cbn [app split_union_bytes]; intros Hl.
    + change (UnionSelector_new 0) with (DOk 0%Z). cbn [dres_bind Z.eqb]. by rewrite law_roundtrip by (done || lia).
    + change (UnionSelector_new 1) with (DOk 1%Z). cbn [dres_bind Z.eqb]. by rewrite law_roundtrip by (done || lia).
  - intros [|b bs] x Hb; cbn [split_union_bytes dres_bind]; [done|]. apply Forall_cons in Hb as [_ Hb].
    unfold UnionSelector_new. destruct (b <=? _)%Z; [|done]. cbn [dres_bind].
    destruct (Z.eqb_spec b 0) as [->|]; [|destruct (Z.eqb_spec b 1) as [->|]; [|done]].
    + destruct (from_ssz h256_codec bs) eqn:E; cbn [dres_bind]; [|done..]. intros [= <-].
      apply law_canonical in E as [? <-]; [|done]. split; [done|]. by rewrite law_append.
    + destruct (from_ssz (tuple2_codec _ _) bs) eqn:E; cbn [dres_bind]; [|done..]. intros [= <-].
      apply law_canonical in E as [? <-]; [|done]. split; [done|]. by rewrite law_append.
  - intros [|b bs] s Hb; cbn [split_union_bytes dres_bind]; [done|]. apply Forall_cons in Hb as [_ Hb].
    unfold UnionSelector_new. destruct (b <=? _)%Z; [|done]. cbn [dres_bind].
    destruct (b =? 0)%Z; [|destruct (b =? 1)%Z; [|done]].
    + destruct (from_ssz h256_codec bs) eqn:E; cbn [dres_bind]; [done..|]. by apply law_total in E.
    + destruct (from_ssz (tuple2_codec _ _) bs) eqn:E; cbn [dres_bind]; [done..|]. by apply law_total in E.
Defined.
