(* ===== verification/RpcTypes.v ===== *)
(** * RPC messages

    Model of the messages of [node/network/src/rpc]: [methods.rs], the requests
    of [protocol.rs] and [outbound.rs], and the names of the protocols. *)

From S2P Require Import Prelude Bytes Hashing ChunkPool SharedTypes SegmentProof SyncService PeerManager Ssz SszProofs SszLaws SszTypes.

(** ** Messages *)

Record StatusMessage := MkStatusMessage { status_data : Z }.
Record PingMessage := MkPing { ping_data : Z }.
Record IonianData := MkIonianData { data_hash : bytes }.
Record DataByHashRequest := MkDataByHash { hashes : list bytes }.

Definition StatusMessage_codec : Codec StatusMessage :=
  struct_codec (λ v, MkStatusMessage v.1) (λ x, (status_data x, tt)) (container_codec [fld u64_codec]).
Definition PingMessage_codec : Codec PingMessage :=
  struct_codec (λ v, MkPing v.1) (λ x, (ping_data x, tt)) (container_codec [fld u64_codec]).
Definition IonianData_codec : Codec IonianData :=
  struct_codec (λ v, MkIonianData v.1) (λ x, (data_hash x, tt)) (container_codec [fld h256_codec]).

Definition goodbye_from_u64 (id : Z) : GoodbyeReason :=
  match id with
  | 1 => ClientShutdown
  | 2 => IrrelevantNetwork
  | 3 => Fault
  | 128 => UnableToVerifyNetwork
  | 129 => TooManyPeers
  | 250 => GBadScore
  | 251 => GBanned
  | 252 => GBannedIP
  | _ => GUnknown
  end%Z.

(** [reason as u64] *)
Definition goodbye_as_u64 (reason : GoodbyeReason) : Z :=
  match reason with
  | ClientShutdown => 1
  | IrrelevantNetwork => 2
  | Fault => 3
  | UnableToVerifyNetwork => 128
  | TooManyPeers => 129
  | GBadScore => 250
  | GBanned => 251
  | GBannedIP => 252
  | GUnknown => 0
  end.

Definition GoodbyeReason_codec : Codec GoodbyeReason :=
  struct_codec goodbye_from_u64 goodbye_as_u64 u64_codec.

(** ** Requests *)

(** [rpc::protocol::InboundRequest] *)
Inductive InboundRequest :=
| ReqStatus (m : StatusMessage)
| ReqGoodbye (r : GoodbyeReason)
| ReqPing (p : PingMessage)
| ReqDataByHash (r : DataByHashRequest)
| ReqGetChunks (r : GetChunksRequest bytes).

(** [rpc::outbound::OutboundRequest] *)
Inductive OutboundRequest :=
| OutStatus (m : StatusMessage)
| OutGoodbye (r : GoodbyeReason)
| OutPing (p : PingMessage)
| OutDataByHash (r : DataByHashRequest)
| OutGetChunks (r : GetChunksRequest bytes).

Definition expected_responses (r : InboundRequest) : Z :=
  match r with
  | ReqStatus _ => 1
  | ReqGoodbye _ => 0
  | ReqDataByHash req => Z.of_nat (length (hashes req))
  | ReqPing _ => 1
  | ReqGetChunks _ => 1
  end.

Definition request_protocol (r : InboundRequest) : RPCProtocol :=
  match r with
  | ReqStatus _ => Status
  | ReqGoodbye _ => Goodbye
  | ReqPing _ => Ping
  | ReqDataByHash _ => DataByHash
  | ReqGetChunks _ => GetChunks
  end.

Definition out_expected_responses (r : OutboundRequest) : Z :=
  match r with
  | OutStatus _ => 1
  | OutGoodbye _ => 0
  | OutPing _ => 1
  | OutDataByHash req => Z.of_nat (length (hashes req))
  | OutGetChunks _ => 1
  end.

Definition out_protocol (r : OutboundRequest) : RPCProtocol :=
  match r with
  | OutStatus _ => Status
  | OutGoodbye _ => Goodbye
  | OutPing _ => Ping
  | OutDataByHash _ => DataByHash
  | OutGetChunks _ => GetChunks
  end.

(** ** Responses *)

Inductive RPCResponse :=
| ResStatus (m : StatusMessage)
| ResPong (p : PingMessage)
| ResDataByHash (d : IonianData)
| ResChunks (c : ChunkArrayWithProof bytes).

Inductive ResponseTermination := TermDataByHash.

(** An [ErrorType] is its bytes. *)
Inductive RPCCodedResponse :=
| Success (r : RPCResponse)
| CodedError (code : RPCResponseErrorCode) (err : bytes)
| StreamTermination (t : ResponseTermination).

Definition code_as_u8 (code : RPCResponseErrorCode) : Z :=
  match code with
  | InvalidRequest => 1
  | ServerError => 2
  | ResourceUnavailable => 3
  | RUnknown => 255
  | RateLimited => 139
  end.

Definition response_as_u8 (r : RPCCodedResponse) : option Z :=
  match r with
  | Success _ => Some 0%Z
  | CodedError code _ => Some (code_as_u8 code)
  | StreamTermination _ => None
  end.

Definition is_response (response_code : Z) : bool := (response_code =? 0)%Z.

Definition from_error (response_code : Z) (err : bytes) : RPCCodedResponse :=
  CodedError
    (match response_code with
     | 1 => InvalidRequest
     | 2 => ServerError
     | 3 => ResourceUnavailable
     | 139 => RateLimited
     | _ => RUnknown
     end)%Z err.

(** [RPCCodedResponse::multiple_responses] and [close_after] *)
Definition multiple_responses (r : RPCCodedResponse) : bool :=
  match r with
  | Success (ResDataByHash _) => true
  | Success _ => false
  | CodedError _ _ => true
  | StreamTermination _ => true
  end.

Definition close_after (r : RPCCodedResponse) : bool :=
  match r with Success _ => false | _ => true end.

(** ** Protocol identifiers *)

Inductive Version := V1.
Inductive Encoding := SSZSnappy.

Record ProtocolId := MkProtocolId {
  message_name : RPCProtocol;
  version : Version;
  encoding : Encoding;
  protocol_id : string;
}.

Definition PROTOCOL_PREFIX : string := "/ionian/req".
Definition protocol_display (p : RPCProtocol) : string :=
  match p with
  | Status => "status"
  | Goodbye => "goodbye"
  | Ping => "ping"
  | DataByHash => "data_by_hash"
  | GetChunks => "get_chunks"
  end.
Definition encoding_display (e : Encoding) : string := match e with SSZSnappy => "ssz_snappy" end.
Definition version_display (v : Version) : string := match v with V1 => "1" end.

Definition ProtocolId_new (message_name : RPCProtocol) (version : Version) (encoding : Encoding) : ProtocolId :=
  MkProtocolId message_name version encoding
    (PROTOCOL_PREFIX +:+ "/" +:+ protocol_display message_name +:+ "/" +:+ version_display version
       +:+ "/" +:+ encoding_display encoding).

(** [RPCProtocol::protocol_info] *)
Definition protocol_info : list ProtocolId :=
  [ProtocolId_new Status V1 SSZSnappy; ProtocolId_new Goodbye V1 SSZSnappy; ProtocolId_new Ping V1 SSZSnappy;
   ProtocolId_new DataByHash V1 SSZSnappy; ProtocolId_new GetChunks V1 SSZSnappy].

(** [OutboundRequest::supported_protocols] *)
Definition supported_protocols (r : OutboundRequest) : list ProtocolId :=
  match r with
  | OutStatus _ => [ProtocolId_new Status V1 SSZSnappy]
  | OutGoodbye _ => [ProtocolId_new Goodbye V1 SSZSnappy]
  | OutPing _ => [ProtocolId_new Ping V1 SSZSnappy]
  | OutDataByHash _ => [ProtocolId_new DataByHash V1 SSZSnappy]
  | OutGetChunks _ => [ProtocolId_new GetChunks V1 SSZSnappy]
  end.

(** ** Laws *)

#[global] Instance StatusMessage_laws : CodecLaws StatusMessage_codec.
Proof. unfold StatusMessage_codec. derive. Defined.
#[global] Instance PingMessage_laws : CodecLaws PingMessage_codec.
Proof. unfold PingMessage_codec. derive. Defined.
#[global] Instance IonianData_laws : CodecLaws IonianData_codec.
Proof. unfold IonianData_codec. derive. Defined.

Lemma goodbye_roundtrip r : goodbye_from_u64 (goodbye_as_u64 r) = r.
Proof. by destruct r. Qed.

Lemma from_error_code code err : from_error (code_as_u8 code) err = CodedError code err.
Proof. by destruct code. Qed.
