(* ===== verification/RateLimiter.v ===== *)
(** * Rate limiters

    Model of [node/network/src/rpc/rate_limiter.rs], the limiter of RPC
    requests, and of [version-meld/discv5/src/socket/filter/rate_limiter.rs],
    that of UDP packets.  Both files hold the same [Limiter], a token bucket for
    each key in the form of the generic cell rate algorithm.

    Times are nanoseconds since the creation of the limiter, an argument of the
    operations; [u64] arithmetic panics on overflow. *)

From S2P Require Import Prelude Bytes PeerManager RpcTypes.
#[local] Open Scope Z_scope.

Record Quota := MkQuota {
  replenish_all_every : Z;
  max_tokens : Z;
}.

Inductive RateLimitedErr := TooLarge | TooSoon (wait : Z).

Record Limiter (K : Type) `{Countable K} := MkLimiter {
  tau : Z;
  t : Z;
  tat_per_key : gmap K Z;
}.
Arguments MkLimiter {K _ _}.
Arguments tau {K _ _}.
Arguments t {K _ _}.
Arguments tat_per_key {K _ _}.

Section Limiter.
Context {K : Type} `{Countable K}.

(** [u64::try_from] *)
Definition try_into_u64 (x : Z) : res Z := if x <? 2 ^ 64 then Ok x else Err "total replenish time is too long".

Definition from_quota (quota : Quota) : res (Limiter K) :=
  if max_tokens quota =? 0 then Err "Max number of tokens should be positive" else
  let tau := replenish_all_every quota in
  if tau =? 0 then Err "Replenish time must be positive" else
  let? t := try_into_u64 (tau / max_tokens quota) in
  let? tau := try_into_u64 tau in
  Ok (MkLimiter tau t ∅).

Definition set_tat (key : K) (x : Z) (l : Limiter K) : Limiter K :=
  MkLimiter (tau l) (t l) (<[key := x]> (tat_per_key l)).

(** [a.saturating_sub(b)] *)
Definition saturating_sub (a b : Z) : Z := Z.max 0 (a - b).

Definition limiter_allows (time_since_start : Z) (key : K) (tokens : Z) : st (Limiter K) (RateLimitedErr + unit) :=
  let! l := st_get in
  let time_since_start := time_since_start mod 2 ^ 64 in
  let! additional_time := st_lift (umul 64 (t l) tokens) in
  if tau l <? additional_time then st_ret (inl TooLarge) else
  let tat := default time_since_start (tat_per_key l !! key) in
  st_modify (set_tat key tat) ;;
  let! full := st_lift (uadd 64 tat additional_time) in
  let earliest_time := saturating_sub full (tau l) in
  if time_since_start <? earliest_time then st_ret (inl (TooSoon (earliest_time - time_since_start)))
  else
    let! new_tat := st_lift (uadd 64 (Z.max time_since_start tat) additional_time) in
    st_modify (set_tat key new_tat) ;;
    st_ret (inr tt).

Definition limiter_prune (time_limit : Z) (l : Limiter K) : Limiter K :=
  let lim := time_limit mod 2 ^ 64 in
  MkLimiter (tau l) (t l) (filter (λ x, lim ≤ x.2) (tat_per_key l)).

End Limiter.

(** ** The limiter of the RPC *)

Record RPCRateLimiterBuilder := MkBuilder {
  goodbye_quota : option Quota;
  ping_quota : option Quota;
  status_quota : option Quota;
  data_by_hash_quota : option Quota;
  get_chunks_quota : option Quota;
}.

Definition RPCRateLimiterBuilder_new : RPCRateLimiterBuilder := MkBuilder None None None None None.

Definition set_quota (protocol : RPCProtocol) (quota : Quota) (b : RPCRateLimiterBuilder) : RPCRateLimiterBuilder :=
  let q := Some quota in
  match protocol with
  | Ping => MkBuilder (goodbye_quota b) q (status_quota b) (data_by_hash_quota b) (get_chunks_quota b)
  | Status => MkBuilder (goodbye_quota b) (ping_quota b) q (data_by_hash_quota b) (get_chunks_quota b)
  | Goodbye => MkBuilder q (ping_quota b) (status_quota b) (data_by_hash_quota b) (get_chunks_quota b)
  | DataByHash => MkBuilder (goodbye_quota b) (ping_quota b) (status_quota b) q (get_chunks_quota b)
  | GetChunks => MkBuilder (goodbye_quota b) (ping_quota b) (status_quota b) (data_by_hash_quota b) q
  end.

Definition one_every (protocol : RPCProtocol) (time_period : Z) : RPCRateLimiterBuilder → RPCRateLimiterBuilder :=
  set_quota protocol (MkQuota time_period 1).
Definition n_every (protocol : RPCProtocol) (n time_period : Z) : RPCRateLimiterBuilder → RPCRateLimiterBuilder :=
  set_quota protocol (MkQuota time_period n).

Record RPCRateLimiter (P : Type) `{Countable P} := MkRPCLimiter {
  goodbye_rl : Limiter P;
  ping_rl : Limiter P;
  status_rl : Limiter P;
  data_by_hash_rl : Limiter P;
  get_chunks_rl : Limiter P;
}.
Arguments MkRPCLimiter {P _ _}.
Arguments goodbye_rl {P _ _}.
Arguments ping_rl {P _ _}.
Arguments status_rl {P _ _}.
Arguments data_by_hash_rl {P _ _}.
Arguments get_chunks_rl {P _ _}.

Section RPC.
Context {P : Type} `{Countable P}.

Definition build (b : RPCRateLimiterBuilder) : res (RPCRateLimiter P) :=
  let? ping_quota := ok_or (ping_quota b) "Ping quota not specified" in
  let? status_quota := ok_or (status_quota b) "Status quota not specified" in
  let? goodbye_quota := ok_or (goodbye_quota b) "Goodbye quota not specified" in
  let? data_by_hash_quota := ok_or (data_by_hash_quota b) "DataByHash quota not specified" in
  let? get_chunks_quota := ok_or (get_chunks_quota b) "GetChunks quota not specified" in
  let? ping_rl := from_quota ping_quota in
  let? status_rl := from_quota status_quota in
  let? goodbye_rl := from_quota goodbye_quota in
  let? data_by_hash_rl := from_quota data_by_hash_quota in
  let? get_chunks_rl := from_quota get_chunks_quota in
  Ok (MkRPCLimiter goodbye_rl ping_rl status_rl data_by_hash_rl get_chunks_rl).

(** The field of a protocol. *)
Definition protocol_rl (protocol : RPCProtocol) (r : RPCRateLimiter P) : Limiter P :=
  match protocol with
  | Ping => ping_rl r
  | Status => status_rl r
  | Goodbye => goodbye_rl r
  | DataByHash => data_by_hash_rl r
  | GetChunks => get_chunks_rl r
  end.
Definition set_protocol_rl (protocol : RPCProtocol) (l : Limiter P) (r : RPCRateLimiter P) : RPCRateLimiter P :=
  match protocol with
  | Ping => MkRPCLimiter (goodbye_rl r) l (status_rl r) (data_by_hash_rl r) (get_chunks_rl r)
  | Status => MkRPCLimiter (goodbye_rl r) (ping_rl r) l (data_by_hash_rl r) (get_chunks_rl r)
  | Goodbye => MkRPCLimiter l (ping_rl r) (status_rl r) (data_by_hash_rl r) (get_chunks_rl r)
  | DataByHash => MkRPCLimiter (goodbye_rl r) (ping_rl r) (status_rl r) l (get_chunks_rl r)
  | GetChunks => MkRPCLimiter (goodbye_rl r) (ping_rl r) (status_rl r) (data_by_hash_rl r) l
  end.

Definition rpc_allows (now : Z) (peer_id : P) (request : InboundRequest)
    : st (RPCRateLimiter P) (RateLimitedErr + unit) :=
  let tokens := Z.max (expected_responses request) 1 in
  st_zoom (protocol_rl (request_protocol request)) (set_protocol_rl (request_protocol request))
    (limiter_allows now peer_id tokens).

Definition rpc_prune (now : Z) (r : RPCRateLimiter P) : RPCRateLimiter P :=
  MkRPCLimiter (limiter_prune now (goodbye_rl r)) (limiter_prune now (ping_rl r)) (limiter_prune now (status_rl r))
    (limiter_prune now (data_by_hash_rl r)) (limiter_prune now (get_chunks_rl r)).

(** [RPC::new] *)
Definition secs (n : Z) : Z := n * 1000000000.
Definition RPC_new_builder : RPCRateLimiterBuilder :=
  n_every GetChunks 128 (secs 10) (n_every DataByHash 128 (secs 10) (one_every Goodbye (secs 10)
    (n_every Status 5 (secs 15) (n_every Ping 2 (secs 10) RPCRateLimiterBuilder_new)))).
Definition RPC_new_limiter : res (RPCRateLimiter P) := build RPC_new_builder.

End RPC.

(** ** The limiter of packets *)

Inductive LimitKind (N Ip : Type) := Total | NodeId (node_id : N) | Ip_ (ip : Ip).
Arguments Total {N Ip}.
Arguments NodeId {N Ip}.
Arguments Ip_ {N Ip}.

Record RateLimiter (N Ip : Type) `{Countable N} `{Countable Ip} := MkRateLimiter {
  total_rl : Limiter unit;
  node_rl : option (Limiter N);
  ip_rl : option (Limiter Ip);
}.
Arguments MkRateLimiter {N Ip _ _ _ _}.
Arguments total_rl {N Ip _ _ _ _}.
Arguments node_rl {N Ip _ _ _ _}.
Arguments ip_rl {N Ip _ _ _ _}.

Section Packets.
Context {N Ip : Type} `{Countable N} `{Countable Ip}.

Definition from_quota_if {K} `{Countable K} (q : option Quota) : res (option (Limiter K)) :=
  match q with
  | Some q => let? l := from_quota q in Ok (Some l)
  | None => Ok None
  end.

(** [RateLimiterBuilder::build] *)
Definition RateLimiter_build (total_quota node_quota ip_quota : option Quota) : res (RateLimiter N Ip) :=
  let? total_quota := ok_or total_quota "Total quota not specified and must be set." in
  let? total_rl := from_quota total_quota in
  let? node_rl := from_quota_if node_quota in
  let? ip_rl := from_quota_if ip_quota in
  Ok (MkRateLimiter total_rl node_rl ip_rl).

Definition limit_allows (now : Z) (request : LimitKind N Ip) : st (RateLimiter N Ip) (RateLimitedErr + unit) :=
  let tokens := 1 in
  match request with
  | Total => st_zoom total_rl (λ l r, MkRateLimiter l (node_rl r) (ip_rl r)) (limiter_allows now tt tokens)
  | Ip_ ip_addr =>
      let! r := st_get in
      match ip_rl r with
      | Some l => st_zoom (λ _, l) (λ l r, MkRateLimiter (total_rl r) (node_rl r) (Some l)) (limiter_allows now ip_addr tokens)
      | None => st_ret (inr tt)
      end
  | NodeId node_id =>
      let! r := st_get in
      match node_rl r with
      | Some l => st_zoom (λ _, l) (λ l r, MkRateLimiter (total_rl r) (Some l) (ip_rl r)) (limiter_allows now node_id tokens)
      | None => st_ret (inr tt)
      end
  end.

Definition limit_prune (now : Z) (r : RateLimiter N Ip) : RateLimiter N Ip :=
  MkRateLimiter (limiter_prune now (total_rl r)) (limiter_prune now <$> node_rl r) (limiter_prune now <$> ip_rl r).

End Packets.
