(* ===== verification/RateLimiterProofs.v ===== *)
(** * Rate limiters: proofs and theorems

    The limiter against a bucket for each key that is never pruned, and the
    number of tokens that it grants within any period. *)

From Stdlib Require Import Sorted.
From S2P Require Import Prelude Bytes PeerDB PeerManager Ssz RpcTypes RateLimiter.
#[local] Open Scope Z_scope.

Section Spec.
Context {K : Type} `{Countable K}.
Implicit Types (s : gmap K Z) (l : Limiter K).

Inductive lim_op := Ask (now : Z) (key : K) (tokens : Z) | Prune (now : Z).

Definition op_time (o : lim_op) : Z := match o with Ask now _ _ | Prune now => now end.

Definition exec_lim_op (o : lim_op) : st (Limiter K) (option (RateLimitedErr + unit)) :=
  match o with
  | Ask now key tokens => let! r := limiter_allows now key tokens in st_ret (Some r)
  | Prune now => st_modify (limiter_prune now) ;; st_ret None
  end.

(** ** The specification: one bucket for each key *)

Context (tau t : Z).

(** The time at which the bucket of the key is full again. *)
Definition full_at s (key : K) : Z := default 0 (s !! key).

Definition spec_allows (now : Z) (key : K) (tokens : Z) s : (RateLimitedErr + unit) * gmap K Z :=
  let cost := t * tokens in
  let missing := Z.max 0 (full_at s key - now) in
  if tau <? cost then (inl TooLarge, s)
  else if tau <? missing + cost then (inl (TooSoon (missing + cost - tau)), s)
  else (inr tt, <[key := now + missing + cost]> s).

Definition spec_lim_op (o : lim_op) s : option (RateLimitedErr + unit) * gmap K Z :=
  match o with
  | Ask now key tokens => let '(r, s) := spec_allows now key tokens s in (Some r, s)
  | Prune _ => (None, s)
  end.

Fixpoint spec_run (os : list lim_op) s : list (option (RateLimitedErr + unit)) * gmap K Z :=
  match os with
  | [] => ([], s)
  | o :: os =>
      let '(r, s) := spec_lim_op o s in
      let '(rs, s) := spec_run os s in (r :: rs, s)
  end.

(** Times that do not decrease and fit in 64 bits, costs that fit in 64 bits. *)
Definition op_ok (o : lim_op) : Prop :=
  0 ≤ op_time o ∧ op_time o + 2 * tau < 2 ^ 64 ∧
  match o with Ask _ _ tokens => 0 ≤ tokens ∧ t * tokens < 2 ^ 64 | Prune _ => True end.
Definition ops_ok (os : list lim_op) : Prop := Forall op_ok os ∧ StronglySorted Z.le (op_time <$> os).

(** ** Refinement *)

(** The limiter [l] stands for the buckets [s] from the time [now] on. *)
Record rel (now : Z) l s : Prop := {
  rel_tau : RateLimiter.tau l = tau;
  rel_t : RateLimiter.t l = t;
  rel_key key : match tat_per_key l !! key with
                | Some x => 0 ≤ x ∧ Z.max now x = Z.max now (full_at s key)
                | None => full_at s key ≤ now
                end;
  rel_bound key : full_at s key ≤ now + tau;
}.

Context (tau_pos : 0 ≤ tau) (t_pos : 0 ≤ t).

Lemma rel_later now now' l s : now ≤ now' → rel now l s → rel now' l s.
Proof.
  intros Hle [Htau Ht Hk Hb]. split; [done..| |].
  - intros key. specialize (Hk key). destruct (_ !! key); lia.
  - intros key. specialize (Hb key). lia.
Qed.

Lemma rel_prune now l s : 0 ≤ now < 2 ^ 64 → rel now l s → rel now (limiter_prune now l) s.
Proof.
  intros Hnow [Htau Ht Hk Hb]. split; [done..| |done]. intros key. specialize (Hk key).
  unfold limiter_prune. cbn [tat_per_key]. rewrite Z.mod_small by done.
  rewrite map_lookup_filter. destruct (tat_per_key l !! key) as [x|]; cbn; [|done].
  case_guard; cbn in *; [done|lia].
Qed.

Lemma rel_set now l s key x y :
  rel now l s → 0 ≤ x → Z.max now x = Z.max now y → y ≤ now + tau →
  rel now (set_tat key x l) (<[key := y]> s).
Proof.
  intros [Htau Ht Hk Hb] Hx Hm Hy. split; [done..| |].
  - intros k. unfold full_at. cbn. destruct (decide (key = k)) as [->|]; [rewrite !lookup_insert_eq|].
    + done.
    + rewrite !lookup_insert_ne by done. apply Hk.
  - intros k. unfold full_at. destruct (decide (key = k)) as [->|]; [by rewrite lookup_insert_eq|].
    rewrite lookup_insert_ne by done. apply Hb.
Qed.

(** Storing a value that the bucket stands for already. *)
Lemma rel_touch now l s key x :
  rel now l s → 0 ≤ x → Z.max now x = Z.max now (full_at s key) → rel now (set_tat key x l) s.
Proof.
  intros [Htau Ht Hk Hb] Hx Hm. split; [done..| |done]. intros k. cbn.
  destruct (decide (key = k)) as [->|]; [by rewrite lookup_insert_eq|]. rewrite lookup_insert_ne by done. apply Hk.
Qed.

Lemma allows_refines now key tokens l s :
  rel now l s → 0 ≤ now → now + 2 * tau < 2 ^ 64 → 0 ≤ tokens → t * tokens < 2 ^ 64 →
  ∃ l', limiter_allows now key tokens l = (Ok (spec_allows now key tokens s).1, l') ∧
        rel now l' (spec_allows now key tokens s).2.
Proof.
  intros Hrel Hnow Hmax Hn Hc. destruct (Hrel) as [Htau Ht Hk Hb]. specialize (Hk key). specialize (Hb key).
  unfold limiter_allows, spec_allows. unfold st_bind at 1, st_get. rewrite Htau, Ht.
  rewrite Z.mod_small by lia. unfold umul. rewrite (proj2 (Z.ltb_lt _ _) Hc).
  unfold st_bind at 1, st_lift. destruct (Z.ltb_spec tau (t * tokens)); [by eexists|].
  set (x := default now (tat_per_key l !! key)).
  assert (Hx : 0 ≤ x ∧ Z.max now x = Z.max now (full_at s key)).
  { unfold x. destruct (tat_per_key l !! key); cbn; lia. }
  unfold st_bind at 1, st_modify at 1. unfold uadd.
  assert (Hsum : x + t * tokens < 2 ^ 64) by lia. rewrite (proj2 (Z.ltb_lt _ _) Hsum).
  unfold st_bind, st_lift. unfold saturating_sub.
  destruct (Z.ltb_spec now (Z.max 0 (x + t * tokens - tau))); destruct (Z.ltb_spec tau (Z.max 0 (full_at s key - now) + t * tokens));
    try lia.
  - assert (Z.max 0 (x + t * tokens - tau) - now = Z.max 0 (full_at s key - now) + t * tokens - tau) as -> by lia.
    eexists. split; [done|]. cbn [snd]. apply rel_touch; lia || done.
  - assert (Hsum' : Z.max now x + t * tokens < 2 ^ 64) by lia. rewrite (proj2 (Z.ltb_lt _ _) Hsum').
    eexists. split; [done|]. unfold set_tat at 2. cbn [snd].
    change (rel now (set_tat key (Z.max now x + t * tokens) (set_tat key x l)) 
      (<[key := now + Z.max 0 (full_at s key - now) + t * tokens]> s)).
    apply rel_set; try lia. apply rel_touch; lia || done.
Qed.

Lemma run_refines os now l s :
  ops_ok os → Forall (λ o, now ≤ op_time o) os → rel now l s →
  ∃ l', st_collect os exec_lim_op l = (Ok (spec_run os s).1, l').
Proof.
  intros [Hok Hsort]. revert now l s. induction os as [|o os IH]; intros now l s Hnow Hrel; [by eexists|].
  apply Forall_cons in Hok as [[Ho1 [Ho2 Ho3]] Hok]. apply Forall_cons in Hnow as [Hno _].
  cbn in Hsort. apply StronglySorted_inv in Hsort as [Hsort Hle]. rewrite Forall_fmap in Hle.
  apply (rel_later _ _ _ _ Hno) in Hrel. cbn [st_collect spec_run].
  destruct o as [t' key n|t']; cbn [op_time exec_lim_op spec_lim_op] in *.
  - destruct Ho3 as [Hn Hc]. destruct (allows_refines t' key n l s Hrel Ho1 Ho2 Hn Hc) as (l1 & Hrun & Hrel1).
    destruct (spec_allows t' key n s) as [r s1]. cbn [fst snd] in *.
    destruct (IH Hok Hsort t' l1 s1 Hle Hrel1) as (l2 & Hrun2).
    exists l2. unfold st_bind, st_ret. rewrite Hrun, Hrun2. by destruct (spec_run os s1).
  - apply rel_prune in Hrel; [|lia]. destruct (IH Hok Hsort t' _ s Hle Hrel) as (l2 & Hrun2).
    exists l2. unfold st_bind, st_modify, st_ret. rewrite Hrun2. by destruct (spec_run os s).
Qed.

End Spec.

(** ** The number of tokens granted within a period *)

Section Window.
Context {K : Type} `{Countable K} (tau t : Z) (t_pos : 0 ≤ t).
Implicit Types (s : gmap K Z).

(** The tokens granted to the key from the time [a] to the time [b]. *)
Fixpoint granted (a b : Z) (key : K) (os : list lim_op) (rs : list (option (RateLimitedErr + unit))) : Z :=
  match os, rs with
  | Ask now k n :: os, Some (inr _) :: rs =>
      (if decide (k = key ∧ a ≤ now ≤ b) then n else 0) + granted a b key os rs
  | _ :: os, _ :: rs => granted a b key os rs
  | _, _ => 0
  end.

Lemma granted_bound a b key os s :
  Forall (λ o, match o with Ask _ _ n => 0 ≤ n | Prune _ => True end) os →
  t * granted a b key os (spec_run tau t os s).1 ≤ Z.max 0 (b + tau - Z.max a (full_at s key)).
Proof.
  intros Hos. revert s. induction Hos as [|o os Ho Hos IH]; intros s; [cbn; lia|].
  cbn [spec_run]. destruct o as [now k n|now]; cbn [spec_lim_op].
  - unfold spec_allows. destruct (Z.ltb_spec tau (t * n)); [|destruct (Z.ltb_spec tau (Z.max 0 (full_at s k - now) + t * n))].
    + specialize (IH s). by destruct (spec_run tau t os s).
    + specialize (IH s). by destruct (spec_run tau t os s).
    + set (s' := <[k := _]> s). specialize (IH s').
      assert (Hother : k ≠ key → full_at s' key = full_at s key)
        by (intros; unfold full_at, s'; by rewrite lookup_insert_ne).
      assert (Hsame : full_at s' k = now + Z.max 0 (full_at s k - now) + t * n)
        by (unfold full_at at 1, s'; by rewrite lookup_insert_eq).
      destruct (spec_run tau t os s') as [rs s'']. cbn [fst granted] in *.
      assert (0 ≤ t * n) by lia. case_decide as Hin.
      * destruct Hin as [-> Hin]. rewrite Z.mul_add_distr_l. lia.
      * rewrite Z.add_0_l. etransitivity; [exact IH|]. destruct (decide (k = key)) as [->|Hne]; [lia|].
        by rewrite Hother.
  - specialize (IH s). by destruct (spec_run tau t os s).
Qed.

End Window.

(** ** The limiter of RPC requests *)

Section RPC.
Context {P : Type} `{Countable P}.
Notation RPCRateLimiter := (RPCRateLimiter P).
Implicit Types (r : RPCRateLimiter) (pr : RPCProtocol).

#[global] Instance RPCProtocol_eq_dec : EqDecision RPCProtocol.
Proof. solve_decision. Defined.

Inductive rpc_op := RAsk (now : Z) (peer : P) (request : InboundRequest) | RPrune (now : Z).

Definition exec_rpc_op (o : rpc_op) : st RPCRateLimiter (option (RateLimitedErr + unit)) :=
  match o with
  | RAsk now peer request => let! x := rpc_allows now peer request in st_ret (Some x)
  | RPrune now => st_modify (rpc_prune now) ;; st_ret None
  end.

Definition rpc_time (o : rpc_op) : Z := match o with RAsk now _ _ | RPrune now => now end.
Definition tokens_of (request : InboundRequest) : Z := Z.max (expected_responses request) 1.

(** What the limiter of one protocol sees of the requests. *)
Definition seen_by pr (o : rpc_op) : option (lim_op (K := P)) :=
  match o with
  | RAsk now peer request => if decide (request_protocol request = pr) then Some (Ask now peer (tokens_of request)) else None
  | RPrune now => Some (Prune now)
  end.

(** The tokens of a protocol granted to a peer from the time [a] to [b]. *)
Fixpoint rpc_granted (a b : Z) pr (peer : P) (os : list rpc_op) (rs : list (option (RateLimitedErr + unit))) : Z :=
  match os, rs with
  | RAsk now p request :: os, Some (inr _) :: rs =>
      (if decide (request_protocol request = pr ∧ p = peer ∧ a ≤ now ≤ b) then tokens_of request else 0) +
      rpc_granted a b pr peer os rs
  | _ :: os, _ :: rs => rpc_granted a b pr peer os rs
  | _, _ => 0
  end.

(** The answers to the requests that the protocol saw. *)
Fixpoint answers pr (os : list rpc_op) (rs : list (option (RateLimitedErr + unit))) : list (option (RateLimitedErr + unit)) :=
  match os, rs with
  | o :: os, x :: rs => match seen_by pr o with Some _ => x :: answers pr os rs | None => answers pr os rs end
  | _, _ => []
  end.

Lemma rpc_granted_seen a b pr peer os rs :
  length rs = length os → rpc_granted a b pr peer os rs = granted a b peer (omap (seen_by pr) os) (answers pr os rs).
Proof.
  revert rs. induction os as [|o os IH]; intros [|x rs] Hlen; try done. injection Hlen as Hlen.
  specialize (IH rs Hlen). destruct o as [now p request|now]; cbn [rpc_granted omap list_omap seen_by answers].
  - destruct (decide (request_protocol request = pr)) as [Hpr|Hpr]; destruct x as [[e|[]]|]; cbn [granted]; try done.
    + rewrite <- IH. f_equal. by repeat case_decide; naive_solver.
    + rewrite <- IH. rewrite decide_False by tauto. lia.
  - by destruct x as [[e|[]]|].
Qed.

Lemma protocol_set_eq pr l r : protocol_rl pr (set_protocol_rl pr l r) = l.
Proof. by destruct pr. Qed.
Lemma protocol_set_ne pr pr' l r : pr ≠ pr' → protocol_rl pr' (set_protocol_rl pr l r) = protocol_rl pr' r.
Proof. by destruct pr, pr'. Qed.
Lemma protocol_prune pr now r : protocol_rl pr (rpc_prune now r) = limiter_prune now (protocol_rl pr r).
Proof. by destruct pr. Qed.

Context (taus ts : RPCProtocol → Z) (taus_pos : ∀ pr, 0 ≤ taus pr) (ts_pos : ∀ pr, 0 ≤ ts pr).

Definition rpc_ops_ok (os : list rpc_op) : Prop :=
  Forall (λ o, 0 ≤ rpc_time o ∧ (∀ pr, rpc_time o + 2 * taus pr < 2 ^ 64) ∧
               match o with RAsk _ _ request => ts (request_protocol request) * tokens_of request < 2 ^ 64 | RPrune _ => True end) os ∧
  StronglySorted Z.le (rpc_time <$> os).

Definition all_rel now r (S : RPCProtocol → gmap P Z) : Prop :=
  ∀ pr, rel (taus pr) (ts pr) now (protocol_rl pr r) (S pr).

Lemma rpc_run os now r S :
  rpc_ops_ok os → Forall (λ o, now ≤ rpc_time o) os → all_rel now r S →
  ∃ rs r', st_collect os exec_rpc_op r = (Ok rs, r') ∧ length rs = length os ∧
    ∀ pr, answers pr os rs = (spec_run (taus pr) (ts pr) (omap (seen_by pr) os) (S pr)).1.
Proof.
  intros [Hok Hsort]. revert now r S. induction os as [|o os IH]; intros now r S Hnow Hrel; [by exists [], r|].
  apply Forall_cons in Hok as [(Ho1 & Ho2 & Ho3) Hok]. apply Forall_cons in Hnow as [Hno _].
  cbn in Hsort. apply StronglySorted_inv in Hsort as [Hsort Hle]. rewrite Forall_fmap in Hle.
  assert (Hrel1 : all_rel (rpc_time o) r S) by (intros pr; by eapply rel_later, Hrel). clear Hrel.
  destruct o as [time peer request|time]; cbn [rpc_time] in *.
  - set (pr := request_protocol request) in *.
    assert (Htok : 0 ≤ tokens_of request) by (unfold tokens_of; lia).
    destruct (allows_refines _ _ (taus_pos pr) (ts_pos pr) time peer (tokens_of request) (protocol_rl pr r) (S pr)
      (Hrel1 pr) Ho1 (Ho2 pr) Htok Ho3) as (l1 & Hrun & Hl1).
    set (S1 := λ pr', if decide (pr' = pr) then (spec_allows (taus pr) (ts pr) time peer (tokens_of request) (S pr)).2 else S pr').
    destruct (IH Hok Hsort time (set_protocol_rl pr l1 r) S1 Hle) as (rs & r' & Hrs & Hlen & Hans).
    { intros pr'. unfold S1. case_decide as E; [subst pr'; by rewrite protocol_set_eq|]. rewrite protocol_set_ne by done. apply Hrel1. }
    eexists _, _. split; [|split].
    + cbn [st_collect exec_rpc_op]. unfold rpc_allows, st_zoom, st_bind. fold (tokens_of request). fold pr. rewrite Hrun.
      unfold st_ret. by rewrite Hrs.
    + cbn. by rewrite Hlen.
    + intros pr'. cbn [answers omap list_omap seen_by]. fold pr. specialize (Hans pr'). unfold S1 in Hans.
      destruct (decide (pr = pr')) as [<-|Hne]; [|by rewrite decide_False in Hans by done].
      rewrite decide_True in Hans by done. cbn [spec_run spec_lim_op]. rewrite Hans.
      destruct (spec_allows _ _ _ _ _ _) as [x s1]. cbn [fst snd]. by destruct (spec_run _ _ _ s1).
  - destruct (IH Hok Hsort time (rpc_prune time r) S Hle) as (rs & r' & Hrs & Hlen & Hans).
    { intros pr. rewrite protocol_prune. apply rel_prune; [specialize (taus_pos pr); specialize (Ho2 pr); lia|apply Hrel1]. }
    eexists _, _. split; [|split].
    + cbn [st_collect exec_rpc_op]. unfold st_bind, st_modify, st_ret. by rewrite Hrs.
    + cbn. by rewrite Hlen.
    + intros pr. cbn [answers omap list_omap seen_by spec_run spec_lim_op]. rewrite Hans. by destruct (spec_run _ _ _ _).
Qed.

End RPC.

(** ** Theorems *)

Definition quota_ok (q : Quota) : Prop := 0 ≤ replenish_all_every q ∧ 0 ≤ max_tokens q.

(** How often a token is replenished. *)
Definition replenish_one (q : Quota) : Z := replenish_all_every q / max_tokens q.

Lemma from_quota_rel {K} `{Countable K} q (l : Limiter K) now :
  quota_ok q → 0 ≤ now → from_quota q = Ok l →
  rel (replenish_all_every q) (replenish_one q) now l ∅ ∧ 0 ≤ replenish_one q.
Proof.
  intros [Hr Hm] Hnow. unfold from_quota, try_into_u64, replenish_one.
  destruct (Z.eqb_spec (max_tokens q) 0); [done|]. destruct (Z.eqb_spec (replenish_all_every q) 0); [done|].
  destruct (_ <? _); [|done]. cbn. destruct (_ <? _); [|done]. cbn. intros [= <-].
  split; [|apply Z.div_pos; lia].
  split; cbn; [done..| |]; intros key; unfold full_at; rewrite ?lookup_empty; cbn; lia.
Qed.

(** C36: A limiter built from a quota answers every sequence of requests as one
    bucket for each key does, which fills at the rate of the quota and is never
    pruned: pruning cannot be observed. *)
Theorem limiter_is_bucket {K} `{Countable K} q (l : Limiter K) os :
  quota_ok q → from_quota q = Ok l → ops_ok (replenish_all_every q) (replenish_one q) os →
  ∃ l', st_collect os exec_lim_op l = (Ok (spec_run (replenish_all_every q) (replenish_one q) os ∅).1, l').
Proof.
  intros Hq Hl Hos. destruct (from_quota_rel q l 0 Hq (Z.le_refl 0) Hl) as [Hrel Ht].
  eapply run_refines; [apply Hq|done|done| |done].
  destruct Hos as [Hos _]. eapply Forall_impl; [done|]. by intros o [? _].
Qed.

(** The quota of a protocol. *)
Definition quota_of (b : RPCRateLimiterBuilder) (pr : RPCProtocol) : option Quota :=
  match pr with
  | Ping => ping_quota b
  | Status => status_quota b
  | Goodbye => goodbye_quota b
  | DataByHash => data_by_hash_quota b
  | GetChunks => get_chunks_quota b
  end.

Lemma build_quotas {P} `{Countable P} b (r : RPCRateLimiter P) pr :
  build b = Ok r → ∃ q, quota_of b pr = Some q ∧ from_quota q = Ok (protocol_rl pr r).
Proof.
  unfold build. intros Hb.
  repeat match type of Hb with
  | res_bind ?m _ = Ok _ => destruct m eqn:?; [cbn [res_bind] in Hb|done..]
  end.
  injection Hb as <-. unfold ok_or in *. repeat case_match; simplify_eq. destruct pr; eauto.
Qed.

Definition cost_ok {P} (q : RPCProtocol → Quota) (o : rpc_op (P := P)) : Prop :=
  match o with
  | RAsk _ _ request => replenish_one (q (request_protocol request)) * tokens_of request < 2 ^ 64
  | RPrune _ => True
  end.

(** C38: A limiter of the RPC with quotas for all protocols answers every sequence
    of requests and prunings without a panic, and grants a peer, within any
    period of time, at most the tokens of one full bucket of the protocol and
    those that are replenished during the period. *)
Theorem rpc_rate_bounded {P} `{Countable P} b (r : RPCRateLimiter P) (q : RPCProtocol → Quota)
    (os : list (rpc_op (P := P))) pr peer from until :
  build b = Ok r → (∀ pr, quota_of b pr = Some (q pr) ∧ quota_ok (q pr)) →
  Forall (λ o, 0 ≤ rpc_time o ∧ (∀ pr, rpc_time o + 2 * replenish_all_every (q pr) < 2 ^ 64) ∧ cost_ok q o) os →
  StronglySorted Z.le (rpc_time <$> os) → from ≤ until →
  ∃ rs r', st_collect os exec_rpc_op r = (Ok rs, r') ∧
    replenish_one (q pr) * rpc_granted from until pr peer os rs ≤ replenish_all_every (q pr) + (until - from).
Proof.
  intros Hb Hq Hos Hsort Hle.
  assert (Hrel : ∀ pr, rel (replenish_all_every (q pr)) (replenish_one (q pr)) 0 (protocol_rl pr r) ∅ ∧ 0 ≤ replenish_one (q pr)).
  { intros pr'. destruct (build_quotas b r pr' Hb) as (q' & Hq' & Hl). destruct (Hq pr') as [Hqq Hok].
    simplify_eq. by apply from_quota_rel. }
  destruct (rpc_run (λ pr, replenish_all_every (q pr)) (λ pr, replenish_one (q pr)) (λ pr, proj1 (proj2 (Hq pr)))
    (λ pr, proj2 (Hrel pr)) os 0 r (λ _, ∅)) as (rs & r' & Hrun & Hlen & Hans).
  - split; [|done]. eapply Forall_impl; [done|]. intros o (? & ? & ?). split_and!; [done..|]. by destruct o.
  - eapply Forall_impl; [done|]. by intros o [? _].
  - intros pr'. apply Hrel.
  - exists rs, r'. split; [done|]. rewrite rpc_granted_seen by done. rewrite Hans.
    assert (Hnn : Forall (λ o, match o with Ask _ _ n => 0 ≤ n | Prune _ => True end) (omap (seen_by pr) os)).
    { apply Forall_forall. intros o (x & _ & Hx)%list_elem_of_omap.
      destruct x; cbn in Hx; [case_decide|]; simplify_eq; [unfold tokens_of; lia|done]. }
    pose proof (granted_bound (replenish_all_every (q pr)) (replenish_one (q pr)) (proj2 (Hrel pr)) from until peer
      (omap (seen_by pr) os) ∅ Hnn) as Hbound.
    unfold full_at in Hbound. rewrite lookup_empty in Hbound. cbn [default from_option] in Hbound.
    destruct (Hq pr) as [_ [? _]]. unfold id in *. lia.
Qed.

(** ** Concrete limiters *)

(** Four tokens every two seconds. *)
Definition sample_quota : Quota := MkQuota (secs 2) 4.
Definition sample_asks : list (lim_op (K := nat)) :=
  [Ask 0 10%nat 4; Prune 100000000; Ask 100000000 10%nat 1; Ask 500000000 10%nat 1; Ask 2000000000 10%nat 2].

Lemma limiter_is_bucket_witness :
  ∃ l l', from_quota sample_quota = Ok l ∧
    st_collect sample_asks exec_lim_op l =
      (Ok [Some (inr tt); None; Some (inl (TooSoon 400000000)); Some (inr tt); Some (inr tt)], l').
Proof.
  destruct (limiter_is_bucket (K := nat) sample_quota (MkLimiter 2000000000 500000000 ∅) sample_asks) as (l' & Hl').
  - split; vm_compute; discriminate.
  - reflexivity.
  - split; [repeat constructor; cbn; lia|repeat constructor; cbn; lia].
  - eexists _, l'. split; [reflexivity|]. exact Hl'.
Defined.

Definition sample_rpc_quota (pr : RPCProtocol) : Quota := default (MkQuota 0 0) (quota_of RPC_new_builder pr).
Definition sample_requests : list (rpc_op (P := nat)) :=
  [RAsk 5 1%nat (ReqDataByHash (MkDataByHash [[]; []])); RAsk 6 1%nat (ReqPing (MkPing 1));
   RAsk 6 1%nat (ReqPing (MkPing 1)); RPrune 7; RAsk 8 1%nat (ReqPing (MkPing 1))].

(** The pings of a peer during ten seconds: at most four. *)
Lemma rpc_rate_bounded_witness :
  ∃ (r : RPCRateLimiter nat) rs r', RPC_new_limiter = Ok r ∧
    st_collect sample_requests exec_rpc_op r = (Ok rs, r') ∧
    secs 5 * rpc_granted 0 (secs 10) Ping 1%nat sample_requests rs ≤ secs 10 + (secs 10 - 0).
Proof.
  destruct (RPC_new_limiter (P := nat)) as [r| |] eqn:E; [|vm_compute in E; discriminate..].
  destruct (rpc_rate_bounded RPC_new_builder r sample_rpc_quota sample_requests Ping 1%nat 0 (secs 10)) as (rs & r' & Hrs & Hle).
  - exact E.
  - intros pr. destruct pr; (split; [reflexivity|]); split; vm_compute; discriminate.
  - repeat constructor; try (cbn; lia); intros pr; destruct pr; vm_compute; reflexivity.
  - repeat constructor; cbn; lia.
  - vm_compute. discriminate.
  - exists r, rs, r'. split; [done|]. split; [exact Hrs|exact Hle].
Defined.

(** A quota of more tokens than nanoseconds replenishes a token every 0
    nanoseconds: nothing is ever refused. *)
Lemma dense_quota_unlimited :
  ∃ l : Limiter nat, from_quota (MkQuota 1000 1001) = Ok l ∧
    (limiter_allows 0 1%nat (2 ^ 63) l).1 = Ok (inr tt) ∧
    (limiter_allows 0 1%nat (2 ^ 63) (limiter_allows 0 1%nat (2 ^ 63) l).2).1 = Ok (inr tt).
Proof. eexists. split; [reflexivity|]. split; reflexivity. Qed.
