(* ===== verification/RpcCodec.v ===== *)
(** * The wire format of the RPC

    Model of [node/network/src/rpc/codec] ([ssz_snappy.rs], [base.rs]) and of the
    limits of [protocol.rs].  A message is the length of its SSZ bytes as a
    varint, and the bytes in a Snappy frame; a response has a code in front.

    The varints ([unsigned_varint::codec::Uvi]), the Snappy frames ([snap]) and
    the bounded lists of [ssz_types] ([VariableList]) are parameters, with what
    the code relies on as the laws of [WireLaws]. *)

From S2P Require Import Prelude Bytes Hashing MerkleProof ChunkPool SharedTypes SegmentProof SyncService PeerManager Ssz SszProofs SszLaws SszTypes RpcTypes.

(** [Result<A, RPCError>], or a panic. *)
Inductive rres (A : Type) := ROk (a : A) | RErr (e : RPCError) | RPanic (msg : string).
Arguments ROk {A}.
Arguments RErr {A}.
Arguments RPanic {A}.

(** [map_err(RPCError::from)] on a decoding error *)
Definition from_decode {A B} (d : dres A) (f : A → B) : rres (option B) :=
  match d with
  | DOk a => ROk (Some (f a))
  | DErr _ => RErr SSZDecodeError
  | DPanic s => RPanic s
  end.

(** ** The libraries *)

Inductive UviResult := UviDone (n : Z) (rest : bytes) | UviMore | UviFailed.

(** [read_exact] of a [FrameDecoder]: the bytes read, or an error, with the
    position reached in the compressed bytes. *)
Inductive ReadResult := ReadDone (buf : bytes) (n : nat) | ReadEof (n : nat) | ReadFailed (n : nat).

Class Wire := {
  (** [Uvi::encode] and [Uvi::decode] *)
  uvi_encode : Z → bytes;
  uvi_decode : bytes → UviResult;
  (** what a [FrameEncoder] over a vector holds after [write_all] and [flush] *)
  frame_encode : bytes → bytes;
  (** [FrameDecoder::read_exact] over the bytes *)
  frame_read_exact : bytes → Z → ReadResult;
  (** [snap::raw::max_compress_len] *)
  max_compress_len : Z → Z;
  (** [VariableList<Hash256, MaxRequestBlocks>] and [VariableList<u8, MaxErrorLen>] *)
  hashes_codec : Codec (list bytes);
  error_codec : Codec bytes;
}.

Notation zlength l := (Z.of_nat (length l)).

(** ** Limits *)

Section Limits.
Context `{Wire}.
Open Scope Z_scope.

Definition MAX_REQUEST_BLOCKS : Z := 1024.
Definition MAX_ERROR_LEN : Z := 256.
Definition MAX_CHUNKS_LENGTH : Z := 10 * 1024 * 1024.
Definition MAX_RPC_SIZE : Z := 10 * 1048576.

Definition DATA_BY_HASH_REQUEST_MAX : Z :=
  zlength (ssz_encode hashes_codec (replicate (Z.to_nat MAX_REQUEST_BLOCKS) H256_zero)).
Definition ERROR_TYPE_MIN : Z := zlength (ssz_encode error_codec []).
Definition ERROR_TYPE_MAX : Z := zlength (ssz_encode error_codec (replicate (Z.to_nat MAX_ERROR_LEN) 0)).

(** The size of a chunks response of [n] bytes of data, with an empty proof *)
Definition chunks_response_size (n : Z) : Z :=
  zlength (ssz_encode ChunkArrayWithProof_codec
    (MkChunkArrayWithProof (MkChunkArray (replicate (Z.to_nat n) 0) 0) RangeProof_new_empty)).
Definition CHUNKS_RESPONSE_MIN : Z := chunks_response_size 0.
Definition CHUNKS_RESPONSE_MAX : Z := chunks_response_size MAX_CHUNKS_LENGTH.

Record RpcLimits := MkRpcLimits { limit_min : Z; limit_max : Z }.

Definition is_out_of_bounds (l : RpcLimits) (length max_rpc_size : Z) : bool :=
  (Z.min (limit_max l) max_rpc_size <? length) || (length <? limit_min l).

Definition fixed_limits {A} (c : Codec A) : RpcLimits :=
  MkRpcLimits (Z.of_nat (ssz_fixed_len c)) (Z.of_nat (ssz_fixed_len c)).

Definition rpc_request_limits (p : ProtocolId) : RpcLimits :=
  match message_name p with
  | Status => fixed_limits StatusMessage_codec
  | Goodbye => fixed_limits GoodbyeReason_codec
  | Ping => fixed_limits PingMessage_codec
  | DataByHash => MkRpcLimits 1 DATA_BY_HASH_REQUEST_MAX
  | GetChunks => fixed_limits GetChunksRequest_codec
  end.

Definition rpc_response_limits (p : ProtocolId) : RpcLimits :=
  match message_name p with
  | Status => fixed_limits StatusMessage_codec
  | Goodbye => MkRpcLimits 0 0
  | Ping => fixed_limits PingMessage_codec
  | DataByHash => fixed_limits IonianData_codec
  | GetChunks => MkRpcLimits CHUNKS_RESPONSE_MIN CHUNKS_RESPONSE_MAX
  end.

End Limits.

(** ** The decoders *)

(** [SSZSnappyInboundCodec] and [SSZSnappyOutboundCodec], which have the same
    fields *)
Record SSZSnappyCodec := MkSnappyCodec {
  codec_protocol : ProtocolId;
  codec_len : option Z;
  max_packet_size : Z;
}.
Definition SSZSnappyCodec_new (protocol : ProtocolId) (max : Z) : SSZSnappyCodec := MkSnappyCodec protocol None max.
Definition set_len (len : option Z) (c : SSZSnappyCodec) : SSZSnappyCodec :=
  MkSnappyCodec (codec_protocol c) len (max_packet_size c).

Section Codec.
Context `{Wire}.
Open Scope Z_scope.

(** [handle_length], on the codec's length and the buffer *)
Definition handle_length (c : SSZSnappyCodec) (src : bytes) : rres (option Z) * SSZSnappyCodec * bytes :=
  match codec_len c with
  | Some length => (ROk (Some length), c, src)
  | None =>
      match uvi_decode src with
      | UviDone n rest => (ROk (Some n), set_len (Some n) c, rest)
      | UviMore => (ROk None, c, src)
      | UviFailed => (RErr IoError, c, src)
      end
  end.

(** [handle_error] for an error of the kind [UnexpectedEof] *)
Definition handle_eof {A} (num_bytes max_compressed_len : Z) : rres (option A) :=
  if max_compressed_len <=? num_bytes then RErr InvalidData else ROk None.

(** Reading [length] bytes from the frames of [src], at most the worst case
    of the compressed length, and handling them *)
Definition read_payload {A} (handle : bytes → rres (option A)) (length : Z) (c : SSZSnappyCodec) (src : bytes) :
    rres (option A) * SSZSnappyCodec * bytes :=
  let max_compressed_len := max_compress_len length in
  let limit_reader := take (Z.to_nat max_compressed_len) src in
  match frame_read_exact limit_reader length with
  | ReadDone decoded_buffer n =>
      if (n <=? List.length src)%nat then (handle decoded_buffer, set_len None c, drop n src)
      else (RPanic "split_to out of bounds", set_len None c, src)
  | ReadEof n => (handle_eof (Z.of_nat n) max_compressed_len, c, src)
  | ReadFailed _ => (RErr IoError, c, src)
  end.

(** The decoders: the length, its bounds, and the bytes. *)
Definition decode_message {A} (out_of_bounds : Z → bool) (handle : bytes → rres (option A))
    (c : SSZSnappyCodec) (src : bytes) : rres (option A) * SSZSnappyCodec * bytes :=
  let '(r, c, src) := handle_length c src in
  match r with
  | ROk (Some length) =>
      if out_of_bounds length then (RErr InvalidData, c, src) else read_payload handle length c src
  | ROk None => (ROk None, c, src)
  | RErr e => (RErr e, c, src)
  | RPanic s => (RPanic s, c, src)
  end.

Definition handle_v1_request (protocol : RPCProtocol) (buf : bytes) : rres (option InboundRequest) :=
  match protocol with
  | Status => from_decode (from_ssz StatusMessage_codec buf) ReqStatus
  | Goodbye => from_decode (from_ssz GoodbyeReason_codec buf) ReqGoodbye
  | Ping => from_decode (from_ssz u64_codec buf) (λ d, ReqPing (MkPing d))
  | DataByHash => from_decode (from_ssz hashes_codec buf) (λ l, ReqDataByHash (MkDataByHash l))
  | GetChunks => from_decode (from_ssz GetChunksRequest_codec buf) ReqGetChunks
  end.

Definition handle_v1_response (protocol : RPCProtocol) (buf : bytes) : rres (option RPCResponse) :=
  match protocol with
  | Status => from_decode (from_ssz StatusMessage_codec buf) ResStatus
  | Goodbye => RErr InvalidData
  | Ping => from_decode (from_ssz u64_codec buf) (λ d, ResPong (MkPing d))
  | DataByHash => from_decode (from_ssz IonianData_codec buf) ResDataByHash
  | GetChunks => from_decode (from_ssz ChunkArrayWithProof_codec buf) ResChunks
  end.

(** [SSZSnappyInboundCodec::decode] *)
Definition inbound_decode (c : SSZSnappyCodec) : bytes → rres (option InboundRequest) * SSZSnappyCodec * bytes :=
  decode_message (λ length, is_out_of_bounds (rpc_request_limits (codec_protocol c)) length (max_packet_size c))
    (handle_v1_request (message_name (codec_protocol c))) c.

(** [SSZSnappyOutboundCodec::decode] *)
Definition outbound_decode (c : SSZSnappyCodec) : bytes → rres (option RPCResponse) * SSZSnappyCodec * bytes :=
  decode_message (λ length, is_out_of_bounds (rpc_response_limits (codec_protocol c)) length (max_packet_size c))
    (handle_v1_response (message_name (codec_protocol c))) c.

(** [SSZSnappyOutboundCodec::decode_error] *)
Definition decode_error (c : SSZSnappyCodec) : bytes → rres (option bytes) * SSZSnappyCodec * bytes :=
  decode_message (λ length, (max_packet_size c <? length) || (ERROR_TYPE_MAX <? length) || (length <? ERROR_TYPE_MIN))
    (λ buf, from_decode (from_ssz error_codec buf) (λ e, e)) c.

(** ** The encoders *)

(** The length, and the frames, after [dst] *)
Definition encode_message (bs : bytes) (c : SSZSnappyCodec) (dst : bytes) : rres bytes :=
  if max_packet_size c <? zlength bs then RErr InternalError
  else ROk (dst ++ uvi_encode (zlength bs) ++ frame_encode bs).

(** [SSZSnappyOutboundCodec::encode] *)
Definition outbound_encode (c : SSZSnappyCodec) (item : OutboundRequest) (dst : bytes) : rres bytes :=
  encode_message
    (match item with
     | OutStatus req => ssz_encode StatusMessage_codec req
     | OutGoodbye req => ssz_encode GoodbyeReason_codec req
     | OutPing req => ssz_encode PingMessage_codec req
     | OutDataByHash req => ssz_encode hashes_codec (hashes req)
     | OutGetChunks req => ssz_encode GetChunksRequest_codec req
     end) c dst.

Definition response_bytes (resp : RPCResponse) : bytes :=
  match resp with
  | ResStatus res => ssz_encode StatusMessage_codec res
  | ResPong res => ssz_encode u64_codec (ping_data res)
  | ResDataByHash res => ssz_encode IonianData_codec res
  | ResChunks res => ssz_encode ChunkArrayWithProof_codec res
  end.

(** [SSZSnappyInboundCodec::encode] *)
Definition inbound_encode (c : SSZSnappyCodec) (item : RPCCodedResponse) (dst : bytes) : rres bytes :=
  match item with
  | Success resp => encode_message (response_bytes resp) c dst
  | CodedError _ err => encode_message (ssz_encode error_codec err) c dst
  | StreamTermination _ => RPanic "Code error - attempting to encode a stream termination"
  end.

(** ** [base.rs] *)

(** [BaseInboundCodec::encode] clears the buffer and writes the code. *)
Definition base_inbound_encode (c : SSZSnappyCodec) (item : RPCCodedResponse) (dst : bytes) : rres bytes :=
  match response_as_u8 item with
  | Some code => inbound_encode c item [code]
  | None => RPanic "Should never encode a stream termination"
  end.

Record BaseOutboundCodec := MkBaseOutbound {
  base_inner : SSZSnappyCodec;
  current_response_code : option Z;
}.
Definition BaseOutboundCodec_new (codec : SSZSnappyCodec) : BaseOutboundCodec := MkBaseOutbound codec None.

Definition map_ok {A B} (f : A → B) (r : rres (option A)) : rres (option B) :=
  match r with
  | ROk o => ROk (f <$> o)
  | RErr e => RErr e
  | RPanic s => RPanic s
  end.

(** [BaseOutboundCodec::decode] *)
Definition base_outbound_decode (b : BaseOutboundCodec) (src : bytes) :
    rres (option RPCCodedResponse) * BaseOutboundCodec * bytes :=
  match src with
  | [] | [_] => (ROk None, b, src)
  | first :: rest =>
      let '(response_code, src) :=
        match current_response_code b with
        | Some code => (code, src)
        | None => (first, rest)
        end in
      let '(inner_result, inner, src) :=
        if is_response response_code
        then let '(r, inner, src) := outbound_decode (base_inner b) src in (map_ok Success r, inner, src)
        else let '(r, inner, src) := decode_error (base_inner b) src in (map_ok (from_error response_code) r, inner, src) in
      let code := match inner_result with ROk (Some _) => None | _ => Some response_code end in
      (inner_result, MkBaseOutbound inner code, src)
  end.

End Codec.
