(* ===== verification/RpcCodecProofs.v ===== *)
(** * The wire format of the RPC: proofs

    A message is delivered however its bytes are split, and nothing of what
    follows it is lost; a decoder that waits holds a bounded number of bytes. *)

From S2P Require Import Prelude Bytes Hashing MerkleProof ChunkPool SharedTypes SegmentProof SyncService PeerManager Ssz SszProofs SszLaws SszTypes RpcTypes RpcCodec.

(** ** The libraries *)

(** What the codecs rely on: a varint and a Snappy frame are read back, with
    what follows left in place; on a strict prefix the varint asks for more
    and the frame reader reaches the end; the worst case of the compressed
    length holds; a bounded list is encoded as a list. *)
Class WireLaws `{Wire} : Prop := {
  uvi_nonempty n : uvi_encode n ≠ [];
  uvi_roundtrip n r : (0 <= n < 2 ^ 64)%Z → uvi_decode (uvi_encode n ++ r) = UviDone n r;
  uvi_prefix n p q : (0 <= n < 2 ^ 64)%Z → q ≠ [] → uvi_encode n = p ++ q → uvi_decode p = UviMore;
  uvi_more src : uvi_decode src = UviMore → length src < 10;
  frame_roundtrip bs r :
    frame_read_exact (frame_encode bs ++ r) (zlength bs) = ReadDone bs (length (frame_encode bs));
  frame_prefix bs p q :
    q ≠ [] → frame_encode bs = p ++ q → frame_read_exact p (zlength bs) = ReadEof (length p);
  frame_len bs : (zlength (frame_encode bs) <= max_compress_len (zlength bs))%Z;
  frame_header bs : length (frame_encode bs) ≠ 1;
  frame_eof src n k : frame_read_exact src n = ReadEof k → k = length src;
  hashes_roundtrip l :
    Forall (λ h, length h = 32 ∧ Forall is_byte h) l → (zlength l <= MAX_REQUEST_BLOCKS)%Z →
    from_ssz hashes_codec (ssz_encode hashes_codec l) = DOk l;
  hashes_len l : Forall (λ h, length h = 32) l → (zlength l <= MAX_REQUEST_BLOCKS)%Z →
    zlength (ssz_encode hashes_codec l) = (32 * zlength l)%Z;
  error_roundtrip e :
    Forall is_byte e → (zlength e <= MAX_ERROR_LEN)%Z → from_ssz error_codec (ssz_encode error_codec e) = DOk e;
  error_len e : (zlength e <= MAX_ERROR_LEN)%Z → length (ssz_encode error_codec e) = length e;
}.

(** ** Receiving fragments *)

(** A framed stream: the bytes that arrive are appended to the buffer, and the
    decoder is asked until it has an item or an error. *)
Fixpoint receive {A S} (decode : S → bytes → rres (option A) * S * bytes) (s : S) (buf : bytes) (fragments : list bytes) :
    rres (option A) * S * bytes * list bytes :=
  match fragments with
  | [] => (ROk None, s, buf, [])
  | f :: fragments =>
      let '(r, s, buf) := decode s (buf ++ f) in
      match r with
      | ROk None => receive decode s buf fragments
      | _ => (r, s, buf, fragments)
      end
  end.

Lemma split_at (l w rest : bytes) a :
  l ++ a = w ++ rest → (∃ q, q ≠ [] ∧ w = l ++ q ∧ a = q ++ rest) ∨ (∃ r, l = w ++ r ∧ r ++ a = rest).
Proof.
  intros E. apply app_eq_app in E as [q [[-> ->]|[-> ->]]]; [right; by exists q|].
  destruct q as [|x q]; [right; exists []; by rewrite !app_nil_r|left; by exists (x :: q)].
Qed.

(** A decoder that keeps [I] on the strict prefixes of [w], and ends with [o] on
    [w] and what follows, ends with [o] however the bytes are split. *)
Lemma receive_outcome {A S} (decode : S → bytes → rres (option A) * S * bytes) (I : bytes → S → bytes → Prop) w o s1 :
  o ≠ ROk None →
  (∀ p f q s buf, I p s buf → q ≠ [] → w = (p ++ f) ++ q →
     ∃ s' buf', decode s (buf ++ f) = (ROk None, s', buf') ∧ I (p ++ f) s' buf') →
  (∀ p f q r s buf, I p s buf → q ≠ [] → w = p ++ q → p ++ f = w ++ r →
     decode s (buf ++ f) = (o, s1, r)) →
  ∀ fragments p s buf q rest, I p s buf → q ≠ [] → w = p ++ q → p ++ concat fragments = w ++ rest →
  ∃ buf' fragments', receive decode s buf fragments = (o, s1, buf', fragments') ∧
    buf' ++ concat fragments' = rest.
Proof.
  intros Ho Hpart Hwhole. induction fragments as [|f fs IH]; intros p s buf q rest HI Hq Hw Hcat.
  - exfalso. cbn in Hcat. apply (f_equal length) in Hcat. rewrite Hw, !length_app in Hcat.
    destruct q; [done|]. cbn in Hcat. lia.
  - cbn [concat receive] in *. rewrite app_assoc in Hcat.
    apply split_at in Hcat as [(q' & Hq' & Hw' & Hcat)|(r & Hpf & Hcat)].
    + destruct (Hpart p f q' s buf) as (s' & buf' & -> & HI'); [done..|].
      eapply IH; [done..|]. by rewrite Hw', Hcat, app_assoc.
    + rewrite (Hwhole p f q r s buf) by done. exists r, fs. split; [|done]. by destruct o as [[]| |].
Qed.

(** ** One message *)

Section Message.
Context `{WireLaws} {A : Type} (oob : Z → bool) (handle : bytes → rres (option A)) (bs : bytes).
Context (Hlen : (zlength bs < 2 ^ 64)%Z) (Hoob : oob (zlength bs) = false).

Definition message : bytes := uvi_encode (zlength bs) ++ frame_encode bs.

(** What has been received, for a codec that may have read the length. *)
Definition received (c : SSZSnappyCodec) (src : bytes) : bytes :=
  match codec_len c with None => src | Some _ => uvi_encode (zlength bs) ++ src end.
Definition at_message (c : SSZSnappyCodec) : Prop := codec_len c = None ∨ codec_len c = Some (zlength bs).

Lemma read_payload_whole c r :
  read_payload handle (zlength bs) c (frame_encode bs ++ r) = (handle bs, set_len None c, r).
Proof.
  unfold read_payload. pose proof (frame_len bs) as Hf.
  rewrite take_app_ge by lia. rewrite frame_roundtrip.
  rewrite (proj2 (Nat.leb_le _ _)) by (rewrite length_app; lia). by rewrite drop_app_length.
Qed.

Lemma read_payload_partial c p q :
  frame_encode bs = p ++ q → q ≠ [] → read_payload handle (zlength bs) c p = (ROk None, c, p).
Proof.
  intros E Hq. unfold read_payload. pose proof (frame_len bs) as Hf. rewrite E, length_app in Hf.
  assert (0 < length q) by (destruct q; [done|cbn; lia]).
  rewrite take_ge by lia. rewrite (frame_prefix bs p q) by done. unfold handle_eof.
  by rewrite (proj2 (Z.leb_gt _ _)) by lia.
Qed.

Lemma decode_message_whole c src r :
  at_message c → received c src = message ++ r → decode_message oob handle c src = (handle bs, set_len None c, r).
Proof.
  unfold received, message, decode_message, handle_length. intros [Hc|Hc]; rewrite Hc; intros E.
  - rewrite E, <- app_assoc, uvi_roundtrip by lia. rewrite Hoob, read_payload_whole. by destruct c.
  - rewrite <- app_assoc in E. apply app_inv_head in E as ->. by rewrite Hoob, read_payload_whole.
Qed.

Lemma decode_message_partial c src q :
  at_message c → q ≠ [] → message = received c src ++ q →
  ∃ c' src', decode_message oob handle c src = (ROk None, c', src') ∧
    at_message c' ∧ received c' src' = received c src ∧ set_len None c' = set_len None c.
Proof.
  unfold message, decode_message, handle_length. intros Hat Hq E. destruct Hat as [Hc|Hc]; rewrite Hc.
  - unfold received in *. rewrite Hc in *. symmetry in E.
    apply split_at in E as [(q' & Hq' & Hu & _)|(p & -> & E)].
    + rewrite (uvi_prefix (zlength bs) src q') by (done || lia). exists c, src. split_and!; [done|by left|by rewrite Hc|done].
    + rewrite uvi_roundtrip by lia. rewrite Hoob, (read_payload_partial _ p q) by done.
      eexists _, _. split_and!; [done|by right|done|done].
  - unfold received in *. rewrite Hc in *. rewrite <- app_assoc in E. apply app_inv_head in E.
    rewrite Hoob, (read_payload_partial _ src q) by done. exists c, src. split_and!; [done|by right|by rewrite Hc|done].
Qed.

End Message.

Lemma received_app `{Wire} bs c buf f : received bs c (buf ++ f) = received bs c buf ++ f.
Proof. unfold received. destruct (codec_len c); by rewrite ?app_assoc. Qed.

Lemma message_nonempty `{WireLaws} bs : message bs ≠ [].
Proof. unfold message. intros E. apply app_eq_nil in E as [E _]. by apply uvi_nonempty in E. Qed.

(** ** Requests *)

Section Request.
Context `{WireLaws} (c0 : SSZSnappyCodec) (bs : bytes) (a : InboundRequest).
Context (Hc0 : codec_len c0 = None) (Hlen : (zlength bs < 2 ^ 64)%Z).
Context (Hoob : is_out_of_bounds (rpc_request_limits (codec_protocol c0)) (zlength bs) (max_packet_size c0) = false).
Context (Ha : handle_v1_request (message_name (codec_protocol c0)) bs = ROk (Some a)).

Definition request_inv (p : bytes) (c : SSZSnappyCodec) (buf : bytes) : Prop :=
  at_message bs c ∧ received bs c buf = p ∧ set_len None c = c0.

Notation bounds := (λ length, is_out_of_bounds (rpc_request_limits (codec_protocol c0)) length (max_packet_size c0)).

Lemma inbound_decode_set c :
  inbound_decode c =
  decode_message (λ length, is_out_of_bounds (rpc_request_limits (codec_protocol (set_len None c))) length
                              (max_packet_size (set_len None c)))
    (handle_v1_request (message_name (codec_protocol (set_len None c)))) c.
Proof. done. Qed.

Lemma request_received fragments rest :
  concat fragments = message bs ++ rest →
  ∃ buf' fragments', receive inbound_decode c0 [] fragments = (ROk (Some a), c0, buf', fragments') ∧
    buf' ++ concat fragments' = rest.
Proof.
  apply (receive_outcome inbound_decode request_inv (message bs) (ROk (Some a)) c0) with (p := []) (q := message bs); [done| | | |apply message_nonempty|done].
  - intros p f q c buf (Hat & <- & Hc) Hq Hw. rewrite <- received_app in *.
    destruct (decode_message_partial bounds (handle_v1_request (message_name (codec_protocol c0))) bs Hlen Hoob c (buf ++ f) q)
      as (c' & src' & E & Hat' & Hr & Hs); [done..|]. exists c', src'. rewrite inbound_decode_set, Hc, E. split; [done|].
    split_and!; [done..|by rewrite Hs].
  - intros p f q r c buf (Hat & <- & Hc) Hq _ Hr. rewrite <- received_app in Hr.
    rewrite inbound_decode_set, Hc, (decode_message_whole bounds _ bs Hlen Hoob _ _ r) by done. by rewrite Ha, Hc.
  - split_and!; [by left|by unfold received; rewrite Hc0|]. by destruct c0; cbn in *; subst.
Qed.
End Request.

(** A request whose length is out of bounds is refused as soon as the length is
    there. *)
Lemma request_refused `{WireLaws} c0 n fragments rest :
  codec_len c0 = None → (0 <= n < 2 ^ 64)%Z →
  is_out_of_bounds (rpc_request_limits (codec_protocol c0)) n (max_packet_size c0) = true →
  concat fragments = uvi_encode n ++ rest →
  ∃ buf' fragments', receive inbound_decode c0 [] fragments = (RErr InvalidData, set_len (Some n) c0, buf', fragments') ∧
    buf' ++ concat fragments' = rest.
Proof.
  intros Hc0 Hn Hoob.
  apply (receive_outcome inbound_decode (λ p c buf, c = c0 ∧ p = buf) (uvi_encode n) (RErr InvalidData) (set_len (Some n) c0))
    with (p := []) (q := uvi_encode n); [done| | |done|apply uvi_nonempty|done].
  - intros p f q c buf [-> ->] Hq Hw. exists c0, (buf ++ f). split; [|done].
    unfold inbound_decode, decode_message, handle_length. by rewrite Hc0, (uvi_prefix n (buf ++ f) q).
  - intros p f q r c buf [-> ->] _ _ Hw. unfold inbound_decode, decode_message, handle_length.
    by rewrite Hc0, Hw, uvi_roundtrip, Hoob by done.
Qed.

(** ** Responses *)

Section Response.
Context `{WireLaws} (c0 : SSZSnappyCodec) (bs : bytes) (code : Z) (a : RPCCodedResponse).
Context (Hc0 : codec_len c0 = None).

(** The decoder that the code selects *)
Definition response_decode (c : SSZSnappyCodec) (src : bytes) : rres (option RPCCodedResponse) * SSZSnappyCodec * bytes :=
  if is_response code
  then let '(r, inner, src) := outbound_decode c src in (map_ok Success r, inner, src)
  else let '(r, inner, src) := decode_error c src in (map_ok (from_error code) r, inner, src).

Context (Hpartial : ∀ c src q, set_len None c = c0 → at_message bs c → q ≠ [] → message bs = received bs c src ++ q →
  ∃ c' src', response_decode c src = (ROk None, c', src') ∧
    at_message bs c' ∧ received bs c' src' = received bs c src ∧ set_len None c' = c0).
Context (Hwhole : ∀ c src r, set_len None c = c0 → at_message bs c → received bs c src = message bs ++ r →
  response_decode c src = (ROk (Some a), c0, r)).

(** The code may have been read; then so has been some of the message. *)
Definition response_inv (p : bytes) (b : BaseOutboundCodec) (buf : bytes) : Prop :=
  set_len None (base_inner b) = c0 ∧
  match current_response_code b with
  | None => codec_len (base_inner b) = None ∧ p = buf
  | Some code' => code' = code ∧ at_message bs (base_inner b) ∧ p = code :: received bs (base_inner b) buf ∧ 2 ≤ length p
  end.

Lemma base_decode_code b x y src :
  current_response_code b = Some code →
  base_outbound_decode b (x :: y :: src) =
  (let '(r, inner, src') := response_decode (base_inner b) (x :: y :: src) in
   (r, MkBaseOutbound inner (match r with ROk (Some _) => None | _ => Some code end), src')).
Proof.
  intros Hb. unfold base_outbound_decode, response_decode. rewrite Hb.
  destruct (is_response code); [destruct (outbound_decode _ _) as [[[[]| |] ?] ?]|destruct (decode_error _ _) as [[[[]| |] ?] ?]]; done.
Qed.

Lemma base_decode_fresh b y src :
  current_response_code b = None →
  base_outbound_decode b (code :: y :: src) =
  (let '(r, inner, src') := response_decode (base_inner b) (y :: src) in
   (r, MkBaseOutbound inner (match r with ROk (Some _) => None | _ => Some code end), src')).
Proof.
  intros Hb. unfold base_outbound_decode, response_decode. rewrite Hb.
  destruct (is_response code); [destruct (outbound_decode _ _) as [[[[]| |] ?] ?]|destruct (decode_error _ _) as [[[[]| |] ?] ?]]; done.
Qed.

Lemma response_partial p f q b buf :
  response_inv p b buf → q ≠ [] → code :: message bs = (p ++ f) ++ q →
  ∃ b' buf', base_outbound_decode b (buf ++ f) = (ROk None, b', buf') ∧ response_inv (p ++ f) b' buf'.
Proof.
  intros [Hs Hinv] Hq Hw. destruct (current_response_code b) as [code'|] eqn:Hb.
  - destruct Hinv as (-> & Hat & -> & Hp). cbn [app] in Hw. injection Hw as Hw. rewrite <- received_app in Hw.
    cbn [length app] in *. rewrite <- received_app.
    destruct (buf ++ f) as [|x [|y src]] eqn:Hsrc.
    1,2: exists b; eexists; split; [done|]; split; [done|]; rewrite Hb; split_and!; [done..|];
         rewrite <- Hsrc, received_app; cbn; rewrite length_app; lia.
    rewrite base_decode_code by done. destruct (Hpartial _ _ _ Hs Hat Hq Hw) as (c' & src' & -> & Hat' & Hr & Hs').
    eexists _, _. split; [done|]. split; [done|]. cbn [current_response_code base_inner]. split_and!; [done..| |].
    + by rewrite Hr.
    + rewrite <- Hsrc, received_app. cbn. rewrite length_app. lia.
  - destruct Hinv as [Hl ->]. destruct (buf ++ f) as [|x [|y src]] eqn:Hsrc.
    1,2: exists b; eexists; split; [done|]; split; [done|]; by rewrite Hb.
    cbn [app] in Hw. injection Hw as <- Hw. rewrite base_decode_fresh by done.
    destruct (Hpartial (base_inner b) (y :: src) q) as (c' & src' & -> & Hat' & Hr & Hs'); [done|by left|done|..].
    { unfold received. by rewrite Hl. }
    eexists _, _. split; [done|]. split; [done|]. cbn [current_response_code base_inner]. split_and!; [done..| |].
    + rewrite Hr. unfold received. by rewrite Hl.
    + cbn. lia.
Qed.

(** With the code read, a buffer of at most one byte holds no whole message. *)
Lemma short_buffer c buf f r q :
  at_message bs c → message bs = received bs c buf ++ q → q ≠ [] → 1 ≤ length (received bs c buf) →
  received bs c (buf ++ f) = message bs ++ r → 2 ≤ length (buf ++ f).
Proof.
  intros Hat Hq Hne Hlen E. pose proof (frame_header bs) as Hh. pose proof (uvi_nonempty (zlength bs)) as Hu.
  assert (0 < length q) by (destruct q; [done|cbn; lia]).
  assert (0 < length (uvi_encode (zlength bs))) by (destruct (uvi_encode (zlength bs)); [done|cbn; lia]).
  apply (f_equal length) in Hq, E. unfold message, received in *.
  destruct Hat as [Hc|Hc]; rewrite Hc in *; rewrite !length_app in *; lia.
Qed.

Lemma response_whole p f q r b buf :
  response_inv p b buf → q ≠ [] → code :: message bs = p ++ q → p ++ f = (code :: message bs) ++ r →
  base_outbound_decode b (buf ++ f) = (ROk (Some a), BaseOutboundCodec_new c0, r).
Proof.
  intros [Hs Hinv] Hq Hw Hr. destruct (current_response_code b) as [code'|] eqn:Hb.
  - destruct Hinv as (-> & Hat & -> & Hp). cbn [app length] in *. injection Hw as Hw. injection Hr as Hr.
    rewrite <- received_app in Hr.
    pose proof (short_buffer _ buf f r q Hat Hw Hq ltac:(lia) Hr) as Hsrc.
    destruct (buf ++ f) as [|x [|y src]]; [cbn in Hsrc; lia..|].
    by rewrite base_decode_code, (Hwhole _ _ _ Hs Hat Hr).
  - destruct Hinv as [Hl ->]. rewrite Hr. pose proof (message_nonempty bs) as Hm.
    destruct (message bs ++ r) as [|y src] eqn:E; [by apply app_eq_nil in E as [? _]|].
    cbn [app]. rewrite E, base_decode_fresh by done. rewrite (Hwhole (base_inner b) (y :: src) r); [done..|by left|].
    unfold received. by rewrite Hl.
Qed.

Lemma response_received fragments rest :
  concat fragments = (code :: message bs) ++ rest →
  ∃ buf' fragments', receive base_outbound_decode (BaseOutboundCodec_new c0) [] fragments =
    (ROk (Some a), BaseOutboundCodec_new c0, buf', fragments') ∧ buf' ++ concat fragments' = rest.
Proof.
  apply (receive_outcome base_outbound_decode response_inv (code :: message bs) (ROk (Some a)) (BaseOutboundCodec_new c0))
    with (p := []) (q := code :: message bs); [done| | | |done|done].
  - intros p f q b buf. apply response_partial.
  - intros p f q r b buf. apply response_whole.
  - split; [|done]. cbn. by destruct c0; cbn in *; subst.
Qed.
End Response.

(** The bounds of a decoder, and how it handles the bytes, do not depend on the
    length that it may have read. *)
Section Selected.
Context `{WireLaws} {A : Type} (decode : SSZSnappyCodec → bytes → rres (option A) * SSZSnappyCodec * bytes).
Context (oob : SSZSnappyCodec → Z → bool) (handle : SSZSnappyCodec → bytes → rres (option A)).
Context (Hdecode : ∀ c, decode c = decode_message (oob (set_len None c)) (handle (set_len None c)) c).
Context (f : A → RPCCodedResponse) (c0 : SSZSnappyCodec) (bs : bytes) (a : A) (code : Z).
Context (Hlen : (zlength bs < 2 ^ 64)%Z) (Hoob : oob c0 (zlength bs) = false) (Ha : handle c0 bs = ROk (Some a)).
Context (Hc0 : codec_len c0 = None).
Context (Hsel : ∀ c src, response_decode code c src = let '(r, inner, src) := decode c src in (map_ok f r, inner, src)).

Lemma selected_received fragments rest :
  concat fragments = (code :: message bs) ++ rest →
  ∃ buf' fragments', receive base_outbound_decode (BaseOutboundCodec_new c0) [] fragments =
    (ROk (Some (f a)), BaseOutboundCodec_new c0, buf', fragments') ∧ buf' ++ concat fragments' = rest.
Proof.
  apply response_received; [done|..].
  - intros c src q Hc Hat Hq Hw. rewrite Hsel, Hdecode, Hc.
    destruct (decode_message_partial (oob c0) (handle c0) bs Hlen Hoob c src q) as (c' & src' & -> & Hat' & Hr & Hs); [done..|].
    exists c', src'. split_and!; [done..|by rewrite Hs].
  - intros c src r Hc Hat Hr. rewrite Hsel, Hdecode, Hc, (decode_message_whole (oob c0) (handle c0) bs Hlen Hoob c src r) by done.
    by rewrite Ha, Hc.
Qed.
End Selected.

Lemma success_received `{WireLaws} c0 bs r fragments rest :
  codec_len c0 = None → (zlength bs < 2 ^ 64)%Z →
  is_out_of_bounds (rpc_response_limits (codec_protocol c0)) (zlength bs) (max_packet_size c0) = false →
  handle_v1_response (message_name (codec_protocol c0)) bs = ROk (Some r) →
  concat fragments = (0%Z :: message bs) ++ rest →
  ∃ buf' fragments', receive base_outbound_decode (BaseOutboundCodec_new c0) [] fragments =
    (ROk (Some (Success r)), BaseOutboundCodec_new c0, buf', fragments') ∧ buf' ++ concat fragments' = rest.
Proof.
  intros Hc0 Hlen Hoob Hr. eapply (selected_received outbound_decode
    (λ c length, is_out_of_bounds (rpc_response_limits (codec_protocol c)) length (max_packet_size c))
    (λ c, handle_v1_response (message_name (codec_protocol c)))); done.
Qed.

Lemma error_received `{WireLaws} c0 bs code e fragments rest :
  codec_len c0 = None → (zlength bs < 2 ^ 64)%Z → is_response code = false →
  (max_packet_size c0 <? zlength bs)%Z || (ERROR_TYPE_MAX <? zlength bs)%Z || (zlength bs <? ERROR_TYPE_MIN)%Z = false →
  from_ssz error_codec bs = DOk e →
  concat fragments = (code :: message bs) ++ rest →
  ∃ buf' fragments', receive base_outbound_decode (BaseOutboundCodec_new c0) [] fragments =
    (ROk (Some (from_error code e)), BaseOutboundCodec_new c0, buf', fragments') ∧ buf' ++ concat fragments' = rest.
Proof.
  intros Hc0 Hlen Hcode Hoob He. eapply (selected_received decode_error
    (λ c length, (max_packet_size c <? length)%Z || (ERROR_TYPE_MAX <? length)%Z || (length <? ERROR_TYPE_MIN)%Z)
    (λ _ buf, from_decode (from_ssz error_codec buf) (λ e, e))); [done..| |done|].
  - cbn. by rewrite He.
  - intros c src. unfold response_decode. by rewrite Hcode.
Qed.
