(* ===== verification/RpcTheorems.v ===== *)
(** * SSZ and the wire format: theorems

    What the codecs guarantee for transactions, requests and responses. *)

From S2P Require Import Prelude Bytes Hashing MerkleProof ChunkPool SharedTypes SegmentProof SyncService PeerManager Ssz SszProofs SszLaws SszTypes RpcTypes RpcCodec RpcCodecProofs.

Definition is_u64 (x : Z) : Prop := (0 <= x < 2 ^ 64)%Z.
Definition is_h256 (h : bytes) : Prop := length h = 32 ∧ Forall is_byte h.

(** ** Transactions *)

(** The fields have the widths of their types. *)
Definition Transaction_ok (tx : Transaction bytes) : Prop :=
  Forall (λ x, 0 <= x < 2 ^ 256)%Z (stream_ids tx) ∧ Forall is_byte (tx_data tx) ∧ is_h256 (data_merkle_root tx) ∧
  Forall (λ n, is_u64 (Z.of_nat n.1) ∧ is_h256 n.2) (merkle_nodes tx) ∧
  is_u64 (start_entry_index tx) ∧ is_u64 (tx_size tx) ∧ is_u64 (tx_seq tx).

Lemma u256_bound x : (0 <= x < 256 ^ Z.of_nat 32)%Z ↔ (0 <= x < 2 ^ 256)%Z.
Proof. by change (256 ^ Z.of_nat 32)%Z with (2 ^ 256)%Z. Qed.
Lemma u64_bound x : (0 <= x < 256 ^ Z.of_nat 8)%Z ↔ is_u64 x.
Proof. unfold is_u64. by change (256 ^ Z.of_nat 8)%Z with (2 ^ 64)%Z. Qed.
Lemma u8_bound x : (0 <= x < 256 ^ Z.of_nat 1)%Z ↔ is_byte x.
Proof. unfold is_byte. by change (256 ^ Z.of_nat 1)%Z with 256%Z. Qed.

Lemma vec_wf {A} (c : Codec A) `{!CodecLaws c} l : wf (c := vec_codec c) l ↔ Forall wf l.
Proof. split; [by intros [? _]|]. intros Hl. split; [done|by intros _ m]. Qed.

Lemma node_wf (n : nat * bytes) :
  wf (c := tuple2_codec usize_codec h256_codec) n ↔ is_u64 (Z.of_nat n.1) ∧ is_h256 n.2.
Proof.
  rewrite <- u64_bound. split.
  - intros (Hn & Hh & _). split; [exact Hn|exact Hh].
  - intros [Hn Hh]. split; [exact Hn|split; [exact Hh|done]].
Qed.

Lemma Transaction_wf tx : wf (c := Transaction_codec) tx ↔ Transaction_ok tx.
Proof.
  unfold Transaction_ok. rewrite <- !u64_bound.
  assert (Hs : wf (c := vec_codec u256_codec) (stream_ids tx) ↔ Forall (λ x, 0 <= x < 2 ^ 256)%Z (stream_ids tx)).
  { rewrite vec_wf. apply Forall_iff. intros x. apply u256_bound. }
  assert (Hd : wf (c := vec_codec u8_codec) (tx_data tx) ↔ Forall is_byte (tx_data tx)).
  { rewrite vec_wf. apply Forall_iff. intros x. apply u8_bound. }
  assert (Hn : wf (c := vec_codec (tuple2_codec usize_codec h256_codec)) (merkle_nodes tx) ↔
    Forall (λ n, is_u64 (Z.of_nat n.1) ∧ is_h256 n.2) (merkle_nodes tx)).
  { rewrite vec_wf. apply Forall_iff. intros x. apply node_wf. }
  rewrite <- Hs, <- Hd, <- Hn. split.
  - intros (a & b & c & d & e & f & g & _). exact (conj a (conj b (conj c (conj d (conj e (conj f g)))))).
  - intros (a & b & c & d & e & f & g). exact (conj a (conj b (conj c (conj d (conj e (conj f (conj g I))))))).
Qed.

(** C35: A transaction whose encoding is shorter than 2{^32} bytes is decoded
    from its SSZ bytes, and its bytes have the length that [ssz_bytes_len]
    computes. *)
Theorem transaction_roundtrip tx :
  Transaction_ok tx → (Z.of_nat (ssz_bytes_len Transaction_codec tx) < 2 ^ 32)%Z →
  from_ssz Transaction_codec (ssz_encode Transaction_codec tx) = DOk tx ∧
  length (ssz_encode Transaction_codec tx) = ssz_bytes_len Transaction_codec tx.
Proof.
  intros Hok%Transaction_wf Hlen. rewrite <- (law_len _ Hok) in Hlen. split; [by apply law_roundtrip|by apply law_len].
Qed.

Definition sample_tx : Transaction bytes :=
  MkTransaction [7%Z; (2 ^ 255)%Z] [1; 2; 3]%Z H256_zero [(3, H256_repeat_byte 1); (1, H256_zero)] 12 1024 5.

Lemma transaction_roundtrip_witness :
  from_ssz Transaction_codec (ssz_encode Transaction_codec sample_tx) = DOk sample_tx ∧
  length (ssz_encode Transaction_codec sample_tx) = ssz_bytes_len Transaction_codec sample_tx.
Proof.
  apply (transaction_roundtrip sample_tx); [|by vm_compute].
  unfold Transaction_ok, is_h256, is_u64, is_byte, sample_tx, H256_zero, H256_repeat_byte; cbn.
  repeat first [split | constructor]; cbn; lia.
Defined.

(** C40: Decoding any bytes as a transaction gives an error or a transaction
    whose encoding is these bytes, never a panic: two encodings of the same
    transaction do not exist. *)
Theorem transaction_decoding bs :
  Forall is_byte bs →
  match from_ssz Transaction_codec bs with
  | DOk tx => Transaction_ok tx ∧ ssz_encode Transaction_codec tx = bs
  | DErr _ => True
  | DPanic _ => False
  end.
Proof.
  intros Hb. destruct (from_ssz Transaction_codec bs) eqn:E; [|done|by apply law_total in E].
  rewrite <- Transaction_wf. by apply law_canonical.
Qed.

Lemma transaction_decoding_witness :
  ∃ tx, from_ssz Transaction_codec (ssz_encode Transaction_codec sample_tx) = DOk tx ∧
    ssz_encode Transaction_codec tx = ssz_encode Transaction_codec sample_tx.
Proof.
  assert (Hb : Forall is_byte (ssz_encode Transaction_codec sample_tx)).
  { apply Forall_forall. intros x Hx.
    assert (Hall : forallb (λ x, (0 <=? x)%Z && (x <? 256)%Z) (ssz_encode Transaction_codec sample_tx) = true) by by vm_compute.
    rewrite forallb_forall in Hall. apply list_elem_of_In in Hx. apply Hall in Hx. unfold is_byte. lia. }
  pose proof (transaction_decoding _ Hb) as H.
  assert (E : from_ssz Transaction_codec (ssz_encode Transaction_codec sample_tx) = DOk sample_tx) by by vm_compute.
  rewrite E in H. destruct H as [_ H]. exists sample_tx. by split.
Defined.

(** [Transaction::hash] and [Transaction::id] *)
Definition tx_hash (keccak : bytes → bytes) (tx : Transaction bytes) : bytes := keccak (ssz_encode Transaction_codec tx).
Definition tx_id (keccak : bytes → bytes) (tx : Transaction bytes) : TxID bytes := MkTxID (tx_seq tx) (tx_hash keccak tx).

(** Two transactions with the same hash are equal, or their encodings are a
    collision of Keccak. *)
Theorem transaction_hash_identifies keccak tx tx' :
  Transaction_ok tx → Transaction_ok tx' →
  (Z.of_nat (ssz_bytes_len Transaction_codec tx) < 2 ^ 32)%Z → (Z.of_nat (ssz_bytes_len Transaction_codec tx') < 2 ^ 32)%Z →
  tx_hash keccak tx = tx_hash keccak tx' →
  tx = tx' ∨ (ssz_encode Transaction_codec tx ≠ ssz_encode Transaction_codec tx' ∧
              keccak (ssz_encode Transaction_codec tx) = keccak (ssz_encode Transaction_codec tx')).
Proof.
  intros Hok%Transaction_wf Hok'%Transaction_wf Hl Hl' E.
  destruct (decide (ssz_encode Transaction_codec tx = ssz_encode Transaction_codec tx')) as [Ee|]; [left|by right].
  rewrite <- law_len in Hl, Hl' by done. apply law_roundtrip in Hok, Hok'; [|done..]. congruence.
Qed.

(** ** Requests *)

Definition request_ok (r : OutboundRequest) : Prop :=
  match r with
  | OutStatus m => is_u64 (status_data m)
  | OutGoodbye _ => True
  | OutPing p => is_u64 (ping_data p)
  | OutDataByHash req => (zlength (hashes req) <= MAX_REQUEST_BLOCKS)%Z ∧ Forall is_h256 (hashes req)
  | OutGetChunks req =>
      is_u64 (id_seq (req_tx req)) ∧ is_h256 (id_hash (req_tx req)) ∧ is_u64 (index_start req) ∧ is_u64 (index_end req)
  end.

(** A request for the data of no hashes *)
Definition no_hashes (r : OutboundRequest) : bool :=
  match r with
  | OutDataByHash req => match hashes req with [] => true | _ => false end
  | _ => false
  end.

(** The request that the other side receives *)
Definition as_inbound (r : OutboundRequest) : InboundRequest :=
  match r with
  | OutStatus m => ReqStatus m
  | OutGoodbye r => ReqGoodbye r
  | OutPing p => ReqPing p
  | OutDataByHash req => ReqDataByHash req
  | OutGetChunks req => ReqGetChunks req
  end.

Definition request_bytes `{Wire} (r : OutboundRequest) : bytes :=
  match r with
  | OutStatus req => ssz_encode StatusMessage_codec req
  | OutGoodbye req => ssz_encode GoodbyeReason_codec req
  | OutPing req => ssz_encode PingMessage_codec req
  | OutDataByHash req => ssz_encode hashes_codec (hashes req)
  | OutGetChunks req => ssz_encode GetChunksRequest_codec req
  end.

Notation protocol_of r := (ProtocolId_new (out_protocol r) V1 SSZSnappy).

Lemma is_out_of_bounds_false l n max :
  (limit_min l <= n <= limit_max l)%Z → (n <= max)%Z → is_out_of_bounds l n max = false.
Proof. intros. unfold is_out_of_bounds. apply orb_false_iff. lia. Qed.

Lemma fixed_codec_bounds {A} (c : Codec A) `{!CodecLaws c} a max :
  is_ssz_fixed_len c = true → wf a → (Z.of_nat (ssz_fixed_len c) <= max)%Z →
  zlength (ssz_encode c a) = Z.of_nat (ssz_fixed_len c) ∧
  is_out_of_bounds (fixed_limits c) (zlength (ssz_encode c a)) max = false.
Proof.
  intros Hf Ha Hmax. pose proof (law_fixed (c := c)) as Hfix. rewrite Hf in Hfix. destruct Hfix as [_ Hfix].
  rewrite (Hfix a Ha). split; [done|]. apply is_out_of_bounds_false; cbn; lia.
Qed.

Lemma u64_encode_length x : length (ssz_encode u64_codec x) = 8.
Proof. apply length_le_bytes. Qed.

Lemma data_by_hash_max `{WireLaws} : DATA_BY_HASH_REQUEST_MAX = 32768%Z.
Proof.
  unfold DATA_BY_HASH_REQUEST_MAX. rewrite hashes_len.
  - by rewrite length_replicate, Z2Nat.id by done.
  - apply Forall_replicate. done.
  - rewrite length_replicate. by rewrite Z2Nat.id.
Qed.

Lemma get_chunks_wf req :
  request_ok (OutGetChunks req) → wf (c := GetChunksRequest_codec) req.
Proof.
  intros (Hs & Hh & Hi & He).
  exact (conj (conj (proj2 (u64_bound _) Hs) (conj Hh I)) (conj (proj2 (u64_bound _) Hi) (conj (proj2 (u64_bound _) He) I))).
Qed.

Lemma fixed_handled {A B} (c : Codec A) `{!CodecLaws c} a max (f : A → B) :
  is_ssz_fixed_len c = true → wf a → ssz_fixed_len c ≤ 56 → (32768 <= max)%Z →
  (zlength (ssz_encode c a) <= 32768)%Z ∧
  is_out_of_bounds (fixed_limits c) (zlength (ssz_encode c a)) max = false ∧
  from_decode (from_ssz c (ssz_encode c a)) f = ROk (Some (f a)).
Proof.
  intros Hf Hwf Hlen Hmax. destruct (fixed_codec_bounds c a max) as [Hl Hb]; [done..|lia|].
  rewrite law_roundtrip; [|done|rewrite Hl; lia]. split_and!; [lia|done..].
Qed.

(** The bytes of a request are within the limits, and handled as the request,
    unless it asks for nothing. *)
Lemma request_handled `{WireLaws} r max :
  request_ok r → no_hashes r = false → (32768 <= max)%Z →
  (zlength (request_bytes r) <= 32768)%Z ∧
  is_out_of_bounds (rpc_request_limits (protocol_of r)) (zlength (request_bytes r)) max = false ∧
  handle_v1_request (out_protocol r) (request_bytes r) = ROk (Some (as_inbound r)).
Proof.
  intros Hok Hno Hmax. destruct r as [m|g|p|req|req]; cbn [request_bytes out_protocol as_inbound handle_v1_request];
    unfold rpc_request_limits; cbn [message_name ProtocolId_new].
  - apply (fixed_handled StatusMessage_codec m max ReqStatus); [done|split; [by apply u64_bound|done]|cbn; lia|done].
  - destruct (fixed_handled u64_codec (goodbye_as_u64 g) max (λ x, x)) as (Hl & Hb & Hh);
      [done|by apply u64_bound; destruct g|cbn; lia|done|].
    split_and!; [exact Hl|exact Hb|]. cbn [GoodbyeReason_codec struct_codec from_ssz].
    change (ssz_encode GoodbyeReason_codec g) with (ssz_encode u64_codec (goodbye_as_u64 g)).
    destruct (from_ssz u64_codec _); [|done..]. cbn in Hh. injection Hh as ->. cbn. by rewrite goodbye_roundtrip.
  - apply (fixed_handled u64_codec (ping_data p) max (λ d, ReqPing (MkPing d))) in Hmax as (Hl & Hb & Hh);
      [|done|by apply u64_bound|cbn; lia]. destruct p. by split_and!.
  - destruct Hok as [Hn Hall]. rewrite hashes_roundtrip, hashes_len by (try lia; try done; by eapply Forall_impl; [exact Hall|intros ? [? _]]).
    split_and!; [unfold MAX_REQUEST_BLOCKS in *; lia| |by destruct req].
    assert (1 <= zlength (hashes req))%Z by (cbn in Hno; destruct (hashes req); [done|cbn; lia]).
    apply is_out_of_bounds_false; cbn; rewrite ?data_by_hash_max; unfold MAX_REQUEST_BLOCKS in *; lia.
  - apply (fixed_handled GetChunksRequest_codec req max ReqGetChunks); [done|by apply get_chunks_wf|cbn; lia|done].
Qed.

(** C15: When packets may have 32768 bytes or more, every request with 64-bit
    numbers and at most [MAX_REQUEST_BLOCKS] hashes of 32 bytes is encoded, and it
    reaches the other side however its bytes are split: the decoder waits
    for the whole message, gives the request, and leaves what follows. Only a
    [DataByHash] request of no hashes does not: the decoder refuses it as
    invalid data, however its bytes are split. *)
Theorem rpc_request_delivered `{WireLaws} r max :
  request_ok r → (32768 <= max)%Z →
  ∃ wire, outbound_encode (SSZSnappyCodec_new (protocol_of r) max) r [] = ROk wire ∧
    ∀ fragments rest, concat fragments = wire ++ rest →
      if no_hashes r then
        ∃ c buf fragments', receive inbound_decode (SSZSnappyCodec_new (protocol_of r) max) [] fragments =
          (RErr InvalidData, c, buf, fragments')
      else
        ∃ buf fragments', receive inbound_decode (SSZSnappyCodec_new (protocol_of r) max) [] fragments =
          (ROk (Some (as_inbound r)), SSZSnappyCodec_new (protocol_of r) max, buf, fragments') ∧
          buf ++ concat fragments' = rest.
Proof.
  intros Hok Hmax. exists (message (request_bytes r)). destruct (no_hashes r) eqn:Hno.
  - destruct r as [| | |[[|h l]]|]; try done.
    assert (zlength (request_bytes (OutDataByHash (MkDataByHash []))) = 0%Z) as Hl by (cbn; by rewrite hashes_len).
    split.
    { change (encode_message (request_bytes (OutDataByHash (MkDataByHash [])))
        (SSZSnappyCodec_new (protocol_of (OutDataByHash (MkDataByHash []))) max) [] = ROk (message (request_bytes (OutDataByHash (MkDataByHash []))))).
      unfold encode_message, message. rewrite Hl. by rewrite (proj2 (Z.ltb_ge _ _)) by (cbn; lia). }
    intros fragments rest Hcat. unfold message in Hcat. rewrite Hl, <- app_assoc in Hcat.
    edestruct (request_refused (SSZSnappyCodec_new (protocol_of (OutDataByHash (MkDataByHash []))) max)) as (buf & fs & E & _);
      [done| | |exact Hcat|by eexists _, buf, fs]; [done|].
    unfold is_out_of_bounds. apply orb_true_iff. by right.
  - destruct (request_handled r max Hok Hno Hmax) as (Hl & Hb & Hh). split.
    + unfold outbound_encode, encode_message. fold (request_bytes r). cbn [max_packet_size SSZSnappyCodec_new].
      by rewrite (proj2 (Z.ltb_ge _ _)) by lia.
    + intros fragments rest. apply (request_received _ _ (as_inbound r)); [done|lia|done..].
Qed.

(** *** A wire format for the examples *)

(** Lengths on eight bytes, and frames of ten bytes and the data. *)
Definition sample_frame (bs : bytes) : bytes := match bs with [] => [] | _ => replicate 10 255%Z ++ bs end.
#[local] Instance sample_wire : Wire := {|
  uvi_encode := le_bytes 8;
  uvi_decode src := if length src <? 8 then UviMore else UviDone (from_le_bytes (take 8 src)) (drop 8 src);
  frame_encode := sample_frame;
  frame_read_exact src n :=
    if (n =? 0)%Z then ReadDone [] 0
    else if length src <? 10 + Z.to_nat n then ReadEof (length src)
    else ReadDone (take (Z.to_nat n) (drop 10 src)) (10 + Z.to_nat n);
  max_compress_len n := (32 + n + n / 6)%Z;
  hashes_codec := vec_codec h256_codec;
  error_codec := vec_codec u8_codec;
|}.

Lemma sample_hashes l : ssz_encode (vec_codec h256_codec) l = concat l.
Proof. unfold vec_codec. rewrite (list_encode h256_codec). cbn. f_equal. by rewrite list_fmap_id. Qed.

Lemma concat_length {A} n (ls : list (list A)) : Forall (λ l, length l = n) ls → length (concat ls) = n * length ls.
Proof. induction 1; cbn; [lia|]. rewrite length_app. lia. Qed.

Lemma sample_errors e : length (ssz_encode (vec_codec u8_codec) e) = length e.
Proof.
  unfold vec_codec. rewrite (list_encode u8_codec). cbn [u8_codec uint_codec is_ssz_fixed_len].
  induction e as [|x e IH]; [done|]. cbn [fmap list_fmap concat]. rewrite length_app. cbn in *. by rewrite IH.
Qed.

#[local] Instance sample_wire_laws : WireLaws.
Proof.
  split; cbn [sample_wire uvi_encode uvi_decode frame_encode frame_read_exact max_compress_len hashes_codec error_codec].
  - intros n E. pose proof (length_le_bytes 8 n) as Hl. by rewrite E in Hl.
  - intros n r Hn. rewrite (proj2 (Nat.ltb_ge _ _)) by (rewrite length_app, length_le_bytes; lia).
    rewrite take_app_length', drop_app_length' by by rewrite length_le_bytes. by rewrite le_bytes_roundtrip.
  - intros n p q _ Hq E. pose proof (length_le_bytes 8 n) as Hl. rewrite E, length_app in Hl.
    destruct q; [done|]. cbn in Hl. by rewrite (proj2 (Nat.ltb_lt _ _)) by lia.
  - intros src. destruct (Nat.ltb_spec (length src) 8); [lia|done].
  - intros [|x bs] r; [done|]. cbn [sample_frame]. remember (x :: bs) as l. assert (length l ≠ 0) by by subst.
    rewrite (proj2 (Z.eqb_neq _ _)) by lia. rewrite Nat2Z.id, !length_app, length_replicate.
    rewrite (proj2 (Nat.ltb_ge _ _)) by lia.
    rewrite <- app_assoc, drop_app_length', take_app_length' by done. done.
  - intros [|x bs] p q Hq E; cbn [sample_frame] in E; [by destruct p, q|]. remember (x :: bs) as l.
    assert (length l ≠ 0) by by subst. apply (f_equal length) in E. rewrite !length_app, length_replicate in E.
    assert (length q ≠ 0) by by destruct q. rewrite (proj2 (Z.eqb_neq _ _)) by lia.
    by rewrite (proj2 (Nat.ltb_lt _ _)) by lia.
  - intros bs. assert (length (sample_frame bs) ≤ 10 + length bs) by (destruct bs; cbn; lia).
    assert (0 <= zlength bs / 6)%Z by (apply Z.div_pos; lia). lia.
  - intros [|]; cbn; lia.
  - intros src n k. repeat case_match; congruence.
  - intros l Hl Hn. apply law_roundtrip; [by apply vec_wf|]. rewrite sample_hashes, (concat_length 32).
    + unfold MAX_REQUEST_BLOCKS in Hn. lia.
    + eapply Forall_impl; [exact Hl|]. by intros ? [? _].
  - intros l Hl _. rewrite sample_hashes, (concat_length 32) by done. lia.
  - intros e He Hn. apply law_roundtrip; [|rewrite sample_errors; unfold MAX_ERROR_LEN in Hn; lia].
    apply vec_wf. eapply Forall_impl; [exact He|]. intros x. apply u8_bound.
  - intros e _. apply sample_errors.
Qed.

Definition sample_get_chunks : OutboundRequest := OutGetChunks (MkGetChunks (MkTxID 7 H256_zero) 3 9).

(** A request that arrives byte by byte, with two bytes of the next one *)
Lemma rpc_request_delivered_witness :
  ∃ wire buf fragments, outbound_encode (SSZSnappyCodec_new (protocol_of sample_get_chunks) MAX_RPC_SIZE) sample_get_chunks [] = ROk wire ∧
    receive inbound_decode (SSZSnappyCodec_new (protocol_of sample_get_chunks) MAX_RPC_SIZE) [] ((λ x, [x]) <$> wire ++ [1; 2]%Z) =
      (ROk (Some (as_inbound sample_get_chunks)), SSZSnappyCodec_new (protocol_of sample_get_chunks) MAX_RPC_SIZE, buf, fragments) ∧
    buf ++ concat fragments = [1; 2]%Z.
Proof.
  destruct (rpc_request_delivered sample_get_chunks MAX_RPC_SIZE) as (wire & Hw & Hall).
  - unfold request_ok, is_u64, is_h256; cbn. split_and!; try done; by repeat constructor.
  - done.
  - destruct (Hall ((λ x, [x]) <$> wire ++ [1; 2]%Z) [1; 2]%Z) as (buf & fs & E & Hrest).
    { clear. induction (wire ++ [1; 2]%Z); cbn; congruence. }
    by exists wire, buf, fs.
Defined.

(** ** Responses *)

Definition Proof_ok (p : MProof bytes) : Prop := Forall is_h256 (lemma p).
Definition ChunkArrayWithProof_ok (c : ChunkArrayWithProof bytes) : Prop :=
  Forall is_byte (ca_data (cp_chunks c)) ∧ is_u64 (start_index (cp_chunks c)) ∧
  Proof_ok (left_proof (cp_proof c)) ∧ Proof_ok (right_proof (cp_proof c)).

Lemma Proof_wf p : Proof_ok p → wf (c := Proof_codec) p.
Proof.
  intros Hp. refine (conj _ (conj _ I)); apply vec_wf; [exact Hp|]. by apply Forall_forall.
Qed.

Lemma ChunkArrayWithProof_wf c : ChunkArrayWithProof_ok c → wf (c := ChunkArrayWithProof_codec) c.
Proof.
  intros (Hd & Hs & Hl%Proof_wf & Hr%Proof_wf).
  refine (conj (conj _ (conj (proj2 (u64_bound _) Hs) I)) (conj (conj Hl (conj Hr I)) I)).
  apply vec_wf. eapply Forall_impl; [exact Hd|]. intros x. apply u8_bound.
Qed.

Definition proof_size (p : MProof bytes) : nat := 32 * length (lemma p) + length (path p).

(** The size of a chunks response *)
Lemma chunks_response_bytes c :
  ChunkArrayWithProof_ok c →
  length (ssz_encode ChunkArrayWithProof_codec c) =
  44 + length (ca_data (cp_chunks c)) + proof_size (left_proof (cp_proof c)) + proof_size (right_proof (cp_proof c)).
Proof.
  intros Hok%ChunkArrayWithProof_wf. rewrite law_len by done. destruct c as [[d i] [[l p] [l' p']]].
  cbn -[Nat.mul]. unfold list_bytes_len. cbn -[Nat.mul]. unfold list_bytes_len, proof_size. cbn -[Nat.mul]. lia.
Qed.

Lemma chunks_response_size_spec n : (0 <= n)%Z → chunks_response_size n = (44 + n)%Z.
Proof.
  intros Hn. unfold chunks_response_size. rewrite chunks_response_bytes.
  - cbn [cp_chunks cp_proof ca_data RangeProof_new_empty left_proof right_proof]. rewrite length_replicate.
    change (proof_size Proof_new_empty) with 0. lia.
  - split_and!; [by apply Forall_replicate|done|by apply Forall_nil..].
Qed.

(** The size of the payload of a chunks response: its data and its proof *)
Definition chunks_payload (c : ChunkArrayWithProof bytes) : Z :=
  Z.of_nat (length (ca_data (cp_chunks c)) + proof_size (left_proof (cp_proof c)) + proof_size (right_proof (cp_proof c))).

(** The responses of a protocol that the limits allow *)
Definition response_ok (protocol : RPCProtocol) (max : Z) (item : RPCCodedResponse) : Prop :=
  match item with
  | Success (ResStatus m) => protocol = Status ∧ is_u64 (status_data m)
  | Success (ResPong p) => protocol = Ping ∧ is_u64 (ping_data p)
  | Success (ResDataByHash d) => protocol = DataByHash ∧ is_h256 (data_hash d)
  | Success (ResChunks c) =>
      protocol = GetChunks ∧ ChunkArrayWithProof_ok c ∧
      (chunks_payload c <= MAX_CHUNKS_LENGTH)%Z ∧ (44 + chunks_payload c <= max)%Z
  | CodedError _ err => Forall is_byte err ∧ (zlength err <= MAX_ERROR_LEN)%Z
  | StreamTermination _ => False
  end.

Lemma success_handled `{WireLaws} protocol max r :
  response_ok protocol max (Success r) → (32768 <= max)%Z →
  (zlength (response_bytes r) <= max ∧ zlength (response_bytes r) < 2 ^ 64)%Z ∧
  is_out_of_bounds (rpc_response_limits (ProtocolId_new protocol V1 SSZSnappy)) (zlength (response_bytes r)) max = false ∧
  handle_v1_response protocol (response_bytes r) = ROk (Some r).
Proof.
  intros Hok Hmax. unfold rpc_response_limits. cbn [message_name ProtocolId_new].
  destruct r as [m|p|d|c]; cbn [response_bytes response_ok] in *; destruct Hok as [-> Hok]; cbn [handle_v1_response].
  - destruct (fixed_handled StatusMessage_codec m max ResStatus) as (Hl & Hb & Hh);
      [done|split; [by apply u64_bound|done]|cbn; lia|done|]. split_and!; [lia..|done|done].
  - destruct (fixed_handled u64_codec (ping_data p) max (λ d, ResPong (MkPing d))) as (Hl & Hb & Hh);
      [done|by apply u64_bound|cbn; lia|done|]. destruct p. split_and!; [lia..|done|done].
  - destruct (fixed_handled IonianData_codec d max ResDataByHash) as (Hl & Hb & Hh);
      [done|exact (conj Hok I)|cbn; lia|done|]. split_and!; [lia..|done|done].
  - destruct Hok as (Hok & Hp & Hm). pose proof (chunks_response_bytes c Hok) as Hl. unfold chunks_payload in *.
    rewrite law_roundtrip by (try (by apply ChunkArrayWithProof_wf); unfold MAX_CHUNKS_LENGTH in *; lia).
    split_and!; [lia|unfold MAX_CHUNKS_LENGTH in *; lia| |done].
    unfold CHUNKS_RESPONSE_MIN, CHUNKS_RESPONSE_MAX. rewrite !chunks_response_size_spec by done.
    apply is_out_of_bounds_false; cbn [limit_min limit_max]; lia.
Qed.

(** C34: A response that is encoded, successful or an error, reaches the other
    side however its bytes are split: the decoder waits for the whole message,
    gives the response with its code, and leaves what follows; the encoder
    accepts every response within the limits. *)
Theorem rpc_response_delivered `{WireLaws} protocol item max dst :
  response_ok protocol max item → (32768 <= max)%Z →
  let c := SSZSnappyCodec_new (ProtocolId_new protocol V1 SSZSnappy) max in
  ∃ wire, base_inbound_encode c item dst = ROk wire ∧
    ∀ fragments rest, concat fragments = wire ++ rest →
      ∃ buf fragments', receive base_outbound_decode (BaseOutboundCodec_new c) [] fragments =
        (ROk (Some item), BaseOutboundCodec_new c, buf, fragments') ∧ buf ++ concat fragments' = rest.
Proof.
  intros Hok Hmax c. destruct item as [r|code err|t]; [| |done].
  - destruct (success_handled protocol max r Hok Hmax) as (Hl & Hb & Hh). exists (0%Z :: message (response_bytes r)).
    unfold base_inbound_encode, inbound_encode, encode_message. cbn [response_as_u8 max_packet_size c SSZSnappyCodec_new].
    rewrite (proj2 (Z.ltb_ge _ _)) by lia. split; [done|]. intros fragments rest.
    apply success_received; [done|lia|done..].
  - destruct Hok as [Hby He]. assert (Hl : zlength (ssz_encode error_codec err) = zlength err) by (by rewrite error_len).
    assert (Hmin : ERROR_TYPE_MIN = 0%Z) by (unfold ERROR_TYPE_MIN; by rewrite error_len).
    assert (Hemax : ERROR_TYPE_MAX = MAX_ERROR_LEN).
    { unfold ERROR_TYPE_MAX. rewrite error_len; rewrite length_replicate; by rewrite Z2Nat.id. }
    exists (code_as_u8 code :: message (ssz_encode error_codec err)).
    unfold base_inbound_encode, inbound_encode, encode_message. cbn [response_as_u8 max_packet_size c SSZSnappyCodec_new].
    unfold MAX_ERROR_LEN in *. rewrite (proj2 (Z.ltb_ge _ _)) by lia. split; [done|]. intros fragments rest.
    rewrite <- from_error_code. apply error_received; [done|lia|by destruct code| |by apply error_roundtrip].
    rewrite Hmin, Hemax. change (max_packet_size c) with max. apply orb_false_iff; split; [apply orb_false_iff; split|]; apply Z.ltb_ge; lia.
Qed.

Definition sample_error : RPCCodedResponse := CodedError RateLimited [119; 97; 105; 116]%Z.

(** An error that arrives byte by byte *)
Lemma rpc_response_delivered_witness :
  let c := SSZSnappyCodec_new (ProtocolId_new Ping V1 SSZSnappy) MAX_RPC_SIZE in
  ∃ wire buf fragments, base_inbound_encode c sample_error [1; 2]%Z = ROk wire ∧
    receive base_outbound_decode (BaseOutboundCodec_new c) [] ((λ x, [x]) <$> wire) =
      (ROk (Some sample_error), BaseOutboundCodec_new c, buf, fragments) ∧ buf ++ concat fragments = [].
Proof.
  intros c. destruct (rpc_response_delivered Ping sample_error MAX_RPC_SIZE [1; 2]%Z) as (wire & Hw & Hall).
  - split; [by repeat constructor|done].
  - done.
  - destruct (Hall ((λ x, [x]) <$> wire) []) as (buf & fs & E & Hrest).
    { rewrite app_nil_r. clear. induction wire; cbn; congruence. }
    by exists wire, buf, fs.
Defined.

(** ** Bounds *)

Lemma handle_v1_request_item `{Wire} p buf : handle_v1_request p buf ≠ ROk None.
Proof. by destruct p; cbn; unfold from_decode; case_match. Qed.

Lemma decode_message_waits `{WireLaws} {A} (oob : Z → bool) (handle : bytes → rres (option A)) c src c' src' :
  (∀ buf, handle buf ≠ ROk None) → decode_message oob handle c src = (ROk None, c', src') →
  match codec_len c' with
  | None => length src' < 10
  | Some n => oob n = false ∧ (zlength src' < max_compress_len n)%Z
  end.
Proof.
  intros Hh. unfold decode_message.
  destruct (handle_length c src) as [[[[n|]|e|s] c1] src1] eqn:E; [| |by intros [=]|by intros [=]].
  - assert (Hn : codec_len c1 = Some n).
    { revert E. unfold handle_length. repeat case_match; intros [=]; by subst. }
    destruct (oob n) eqn:Ho; [by intros [=]|]. unfold read_payload.
    destruct (frame_read_exact _ n) as [buf k|k|k] eqn:Er; [|apply frame_eof in Er|by intros [=]].
    + destruct (_ <=? _)%nat; intros [=]. by destruct (Hh buf).
    + unfold handle_eof. destruct (Z.leb_spec (max_compress_len n) (Z.of_nat k)); intros [=]; subst.
      rewrite Hn. split; [done|]. rewrite length_take in *. lia.
  - intros [= <- <-]. unfold handle_length in E. destruct (codec_len c) eqn:Hc; [done|].
    destruct (uvi_decode src) eqn:Hu; [done| |done]. injection E as <- <-. rewrite Hc. by apply uvi_more.
Qed.

(** C37: A decoder of requests that asks for more bytes holds fewer than ten, or
    has read a length within the limits of the protocol and of the packets and
    holds less than the worst case of a compressed message of this length: a
    peer cannot make it buffer more. *)
Theorem rpc_buffer_bounded `{WireLaws} c src c' src' :
  inbound_decode c src = (ROk None, c', src') →
  match codec_len c' with
  | None => length src' < 10
  | Some n =>
      (limit_min (rpc_request_limits (codec_protocol c)) <= n <= limit_max (rpc_request_limits (codec_protocol c)) ∧
       n <= max_packet_size c ∧ zlength src' < max_compress_len n)%Z
  end.
Proof.
  intros E%decode_message_waits; [|apply handle_v1_request_item]. destruct (codec_len c') as [n|]; [|done].
  destruct E as [Ho Hl]. unfold is_out_of_bounds in Ho. apply orb_false_iff in Ho as [H1 H2]. lia.
Qed.

(** Half of a request of the sample format *)
Lemma rpc_buffer_bounded_witness :
  ∃ src c', inbound_decode (SSZSnappyCodec_new (protocol_of sample_get_chunks) MAX_RPC_SIZE) (le_bytes 8 56 ++ replicate 30 0%Z) =
    (ROk None, c', src) ∧ codec_len c' = Some 56%Z ∧ (zlength src < 97)%Z.
Proof.
  set (c := SSZSnappyCodec_new (protocol_of sample_get_chunks) MAX_RPC_SIZE).
  assert (E : inbound_decode c (le_bytes 8 56 ++ replicate 30 0%Z) = (ROk None, set_len (Some 56%Z) c, replicate 30 0%Z)) by by vm_compute.
  exists (replicate 30 0%Z), (set_len (Some 56%Z) c). split; [done|]. split; [done|].
  pose proof (rpc_buffer_bounded _ _ _ _ E) as H. exact (proj2 (proj2 H)).
Defined.

(** ** Sizes that never fit *)

(** A response with [MAX_CHUNKS_LENGTH] bytes of data is larger than the
    packets, whose size is the same number. *)
Lemma full_chunks_response_refused `{WireLaws} c dst :
  ChunkArrayWithProof_ok c → zlength (ca_data (cp_chunks c)) = MAX_CHUNKS_LENGTH →
  base_inbound_encode (SSZSnappyCodec_new (ProtocolId_new GetChunks V1 SSZSnappy) MAX_RPC_SIZE) (Success (ResChunks c)) dst =
  RErr InternalError.
Proof.
  intros Hok Hl. pose proof (chunks_response_bytes c Hok) as Hs.
  unfold base_inbound_encode, inbound_encode, encode_message. cbn [response_as_u8 response_bytes max_packet_size SSZSnappyCodec_new].
  rewrite (proj2 (Z.ltb_lt _ _)); [done|]. change MAX_RPC_SIZE with MAX_CHUNKS_LENGTH. lia.
Qed.

(** A response may be encoded and then refused by the other side: the limit of
    its size leaves no room for the proof. *)
Lemma proof_exceeds_limit `{WireLaws} c max :
  ChunkArrayWithProof_ok c → (MAX_CHUNKS_LENGTH < chunks_payload c)%Z →
  is_out_of_bounds (rpc_response_limits (ProtocolId_new GetChunks V1 SSZSnappy))
    (zlength (response_bytes (ResChunks c))) max = true.
Proof.
  intros Hok Hp. unfold rpc_response_limits. cbn [message_name ProtocolId_new response_bytes].
  unfold CHUNKS_RESPONSE_MIN, CHUNKS_RESPONSE_MAX. rewrite !chunks_response_size_spec by done.
  pose proof (chunks_response_bytes c Hok) as Hs. unfold chunks_payload in Hp. unfold is_out_of_bounds. cbn [limit_min limit_max].
  apply orb_true_iff. left. apply Z.ltb_lt. lia.
Qed.

(** A request of no hashes is encoded, and refused by the other side. *)
Lemma empty_data_by_hash_refused `{WireLaws} max : (0 <= max)%Z →
  ∃ wire c' buf, outbound_encode (SSZSnappyCodec_new (ProtocolId_new DataByHash V1 SSZSnappy) max) (OutDataByHash (MkDataByHash [])) [] = ROk wire ∧
    inbound_decode (SSZSnappyCodec_new (ProtocolId_new DataByHash V1 SSZSnappy) max) wire = (RErr InvalidData, c', buf).
Proof.
  intros Hmax. unfold outbound_encode, encode_message. cbn [hashes max_packet_size SSZSnappyCodec_new app].
  rewrite hashes_len by (done || constructor). rewrite (proj2 (Z.ltb_ge _ _)) by done.
  eexists _, _, _. split; [done|]. unfold inbound_decode, decode_message, handle_length. cbn [codec_len SSZSnappyCodec_new].
  rewrite uvi_roundtrip by done. unfold is_out_of_bounds. change (32 * zlength [] <? _)%Z with true. by rewrite orb_true_r.
Qed.
