(* ===== verification/LogSync.v ===== *)
(** * Synchronisation of the log with the chain

    Model of [node/log_entry_sync/src/sync_manager]: the logs of the contract
    wait in a queue until they are confirmed ([log_entry_fetcher.rs]), the
    manager stores the transactions and reverts them when the chain is
    reorganised ([mod.rs]), and keeps the data of reverted transactions for a
    while ([data_cache.rs]).

    The provider of the blockchain gives the logs and the blocks, which are
    arguments; the decoding of a log, generated from the contract's interface,
    is a parameter.  The channel from the watcher to the manager is the list of
    the messages sent. *)

From S2P Require Import Prelude Bytes Hashing SharedTypes ChunkPool.
Open Scope Z_scope.

(** ** Logs of the contract *)

(** A log of [ethers] with the fields that the code reads, and the topics and
    data that [decode_log] takes. *)
Record Log (R : Type) := MkLog {
  log_raw : R;
  log_block_number : option Z;
  log_removed : option bool;
}.
Arguments MkLog {R}.
Arguments log_raw {R}.
Arguments log_block_number {R}.
Arguments log_removed {R}.

Record Block (E : Type) := MkBlock { block_number : option Z; block_hash : option E }.
Arguments MkBlock {E}.
Arguments block_number {E}.
Arguments block_hash {E}.

(** [SubmissionFilter]: the position, the size and the nodes of the submission,
    and its index *)
Record Submission (E : Type) := MkSubmission {
  start_pos : Z;
  submission_size : Z;
  submission_nodes : list (E * Z);
  submission_index : Z;
}.
Arguments MkSubmission {E}.
Arguments start_pos {E}.
Arguments submission_size {E}.
Arguments submission_nodes {E}.
Arguments submission_index {E}.

(** [U256::as_u64] and [as_usize] *)
Definition u256_as_u64 (x : Z) : res Z :=
  if x <? 2 ^ 64 then Ok x else Panic "Integer overflow when casting to u64".

Inductive LogFetchProgress (E : Type) :=
| SyncedBlock (number : Z) (hash : E)
| FetchedTransaction (tx : Transaction E)
| Reverted (tx_seq : Z).
Arguments SyncedBlock {E}.
Arguments FetchedTransaction {E}.
Arguments Reverted {E}.

Section Convert.
Context {E : Type} `{Algorithm E}.

Definition nodes_to_root (node_list : list (E * Z)) : res E :=
  let? l := expect (last node_list) "not empty" in
  Ok (foldl (λ root next_node, parent next_node.1 root) l.1 (reverse (take (length node_list - 1) node_list))).

Fixpoint convert_nodes (nodes : list (E * Z)) : res (list (nat * E)) :=
  match nodes with
  | [] => Ok []
  | (root, height) :: nodes =>
      let? h := u256_as_u64 height in
      let? h := uadd 64 h 1 in
      let? l := convert_nodes nodes in
      Ok ((Z.to_nat h, root) :: l)
  end.

Definition submission_event_to_transaction (e : Submission E) : res (Transaction E) :=
  let? root := nodes_to_root (submission_nodes e) in
  let? nodes := convert_nodes (submission_nodes e) in
  let? start := u256_as_u64 (start_pos e) in
  let? size := u256_as_u64 (submission_size e) in
  let? seq := u256_as_u64 (submission_index e) in
  Ok (MkTransaction [] [] root nodes start size seq).

End Convert.

(** ** [LogConfirmationQueue] *)

Section Queue.
Context {R E : Type} (decode_log : R → res (Submission E)).
Implicit Type log : Log R.

Record LogConfirmationQueue := MkQueue {
  queue : list (Z * list (Log R));
  latest_block_number : Z;
  confirmation_delay : Z;
}.
Definition LogConfirmationQueue_new (confirmation_delay : Z) : LogConfirmationQueue :=
  MkQueue [] 0 confirmation_delay.
Definition set_queue l (q : LogConfirmationQueue) : LogConfirmationQueue :=
  MkQueue l (latest_block_number q) (confirmation_delay q).

(** [map.entry(n).or_insert(Vec::new()).push(log)] on a [BTreeMap], as the list
    of its entries in the order of the keys *)
Fixpoint btree_push (n : Z) log (m : list (Z * list (Log R))) : list (Z * list (Log R)) :=
  match m with
  | [] => [(n, [log])]
  | (k, l) :: m' =>
      if n <? k then (n, [log]) :: m
      else if n =? k then (k, l ++ [log]) :: m'
      else (k, l) :: btree_push n log m'
  end.

(** The loop that merges the logs by block: the new ones, and the removed ones *)
Fixpoint merge_logs (logs : list (Log R)) (block_logs removed_block_logs : list (Z * list (Log R))) :
    res (list (Z * list (Log R)) * list (Z * list (Log R))) :=
  match logs with
  | [] => Ok (block_logs, removed_block_logs)
  | log :: logs =>
      let? n := ok_or (log_block_number log) "block number missing" in
      if default false (log_removed log) then merge_logs logs block_logs (btree_push n log removed_block_logs)
      else merge_logs logs (btree_push n log block_logs) removed_block_logs
  end.

(** [binary_search_by_key] on the queue, which is sorted: the position of the
    block, or where it would be inserted *)
Definition search_block (n : Z) (l : list (Z * list (Log R))) : nat := length (filter (λ e, e.1 < n) l).

(** The loop over the new logs *)
Fixpoint push_blocks (block_logs : list (Z * list (Log R))) : st LogConfirmationQueue unit :=
  match block_logs with
  | [] => st_ret tt
  | (n, new_logs) :: block_logs =>
      let! q := st_get in
      if n <=? from_option fst 0 (last (queue q)) then st_lift (Err "reverted without being notified")
      else st_put (set_queue (queue q ++ [(n, new_logs)]) q) ;; push_blocks block_logs
  end.

(** The loop over the removed logs stops after its first iteration. *)
Definition push (logs : list (Log R)) : st LogConfirmationQueue (option Z) :=
  let! '(block_logs, removed_block_logs) := st_lift (merge_logs logs [] []) in
  let! revert_to :=
    match removed_block_logs with
    | [] => st_ret None
    | (block_number, removed_logs) :: _ =>
        st_modify (λ q, set_queue (take (search_block block_number (queue q)) (queue q)) q) ;;
        let! first := st_lift (expect (head removed_logs) "not empty") in
        let! event := st_lift (decode_log (log_raw first)) in
        let! first_reverted_tx_seq := st_lift (u256_as_u64 (submission_index event)) in
        st_ret (Some first_reverted_tx_seq)
    end in
  push_blocks block_logs ;;
  st_ret revert_to.

(** The loop of [confirm_logs]: the confirmed logs, and the rest of the queue *)
Fixpoint take_confirmed (threshold : Z) (l : list (Z * list (Log R))) : list (Log R) * list (Z * list (Log R)) :=
  match l with
  | [] => ([], [])
  | (n, logs) :: l' =>
      if threshold <? n then ([], l)
      else let '(confirmed, rest) := take_confirmed threshold l' in (logs ++ confirmed, rest)
  end.

(** [wrapping_sub] *)
Definition confirm_logs (latest : Z) : st LogConfirmationQueue (list (Log R)) :=
  let! q := st_get in
  let '(confirmed, rest) := take_confirmed ((latest - confirmation_delay q) mod 2 ^ 64) (queue q) in
  st_put (MkQueue rest latest (confirmation_delay q)) ;;
  st_ret confirmed.

(** ** [LogEntryFetcher::watch_loop] *)

(** The queue, and the messages sent; sending fails when the receiver is gone. *)
Record Watcher := MkWatcher {
  watch_queue : LogConfirmationQueue;
  watch_sent : list (LogFetchProgress E);
  watch_open : bool;
}.
Definition on_queue {A} (m : st LogConfirmationQueue A) : st Watcher A :=
  st_zoom watch_queue (λ q w, MkWatcher q (watch_sent w) (watch_open w)) m.
Definition watch_send (p : LogFetchProgress E) : st Watcher unit :=
  let! w := st_get in
  if watch_open w then st_put (MkWatcher (watch_queue w) (watch_sent w ++ [p]) true)
  else st_lift (Err "channel closed").

Context `{Algorithm E}.

Definition send_log log : st Watcher unit :=
  let! _ := st_lift (assert (negb (default false (log_removed log))) "assertion failed: !log.removed.unwrap_or(false)") in
  let! e := st_lift (decode_log (log_raw log)) in
  let! tx := st_lift (submission_event_to_transaction e) in
  watch_send (FetchedTransaction tx).

Definition watch_loop (latest_block : Block E) (logs : list (Log R)) : st Watcher (option Z) :=
  let! reverted := on_queue (push logs) in
  match reverted with Some seq => watch_send (Reverted seq) | None => st_ret tt end ;;
  let! latest := st_lift (expect (block_number latest_block) "unwrap on None") in
  let! confirmed := on_queue (confirm_logs latest) in
  st_for confirmed send_log ;;
  match block_hash latest_block with
  | Some h => watch_send (SyncedBlock latest h) ;; st_ret (Some latest)
  | None => st_ret None
  end.

(** ** [LogEntryFetcher::start_recover] *)

(** One log of the stream, with the hash of its block: the transaction and the
    block are sent; a log that cannot be decoded is skipped. *)
Definition recover_log log (hash : option E) : res (list (LogFetchProgress E)) :=
  let sync_progress :=
    match log_block_number log, hash with
    | Some n, Some h => [SyncedBlock n h]
    | _, _ => []
    end in
  match decode_log (log_raw log) with
  | Ok event => let? tx := submission_event_to_transaction event in Ok (FetchedTransaction tx :: sync_progress)
  | Err _ => Ok []
  | Panic e => Panic e
  end.

End Queue.
Arguments LogConfirmationQueue R : clear implicits.
Arguments Watcher R E : clear implicits.

(** ** [DataCache] *)

Section Cache.
Context {E : Type} `{Countable E}.

Record CachedData := MkCachedData { last_seen_tx_seq : Z; cached_data : list Z }.
Record CacheConfig := MkCacheConfig { max_data_size : Z; tx_seq_ttl : Z }.
Record DataCache := MkDataCache { root_to_data : gmap E CachedData; cache_config : CacheConfig }.
Definition DataCache_new (config : CacheConfig) : DataCache := MkDataCache ∅ config.

Definition add_data (root : E) (tx_seq : Z) (data : list Z) (c : DataCache) : bool * DataCache :=
  if max_data_size (cache_config c) <? zlen data then (false, c)
  else
    let entry :=
      match root_to_data c !! root with
      | Some cached => MkCachedData (Z.max tx_seq (last_seen_tx_seq cached)) (cached_data cached)
      | None => MkCachedData tx_seq data
      end in
    (true, MkDataCache (<[root := entry]> (root_to_data c)) (cache_config c)).

Definition pop_data (root : E) (c : DataCache) : option (list Z) * DataCache :=
  (cached_data <$> root_to_data c !! root, MkDataCache (delete root (root_to_data c)) (cache_config c)).

(** The sum of a sequence number and the time to live does not overflow. *)
Definition garbage_collect (latest_tx_seq : Z) (c : DataCache) : DataCache :=
  MkDataCache (filter (λ x, latest_tx_seq ≤ last_seen_tx_seq x.2 + tx_seq_ttl (cache_config c)) (root_to_data c))
    (cache_config c).

End Cache.
Arguments DataCache E {_ _}.

(** ** [LogSyncManager] *)

(** What the manager needs of the store, besides writing chunks *)
Class LogSyncStore (E T : Type) := {
  sync_put_tx : Transaction E → st T unit;
  sync_revert_to : Z → st T unit;
  sync_check_tx_completed : T → Z → res bool;
  sync_get_tx : T → Z → res (option (Transaction E));
  sync_get_chunks : T → Z → Z → Z → res (option ChunkArray);
  sync_put_progress : Z → E → st T unit;
}.

Inductive LogSyncEvent := ReorgDetected (tx_seq : Z) | EventReverted (tx_seq : Z).

Section Manager.
Context {E T : Type} `{HashElement E} `{!LogSyncStore E T} `{!LogStoreWrite E T} (tx_hash : Transaction E → E).

Record LogSyncManager := MkLogSync {
  sync_store : T;
  data_cache : DataCache E;
  sync_next_tx_seq : Z;
  event_sent : list LogSyncEvent;
  confirmation_block_count : Z;
}.

Definition on_store {A} (m : st T A) : st LogSyncManager A :=
  st_zoom sync_store (λ t s, MkLogSync t (data_cache s) (sync_next_tx_seq s) (event_sent s) (confirmation_block_count s)) m.
Definition on_cache {A} (f : DataCache E → A * DataCache E) : st LogSyncManager A := λ s,
  let '(a, c) := f (data_cache s) in
  (Ok a, MkLogSync (sync_store s) c (sync_next_tx_seq s) (event_sent s) (confirmation_block_count s)).
Definition set_next (n : Z) (s : LogSyncManager) : LogSyncManager :=
  MkLogSync (sync_store s) (data_cache s) n (event_sent s) (confirmation_block_count s).
Definition send_event (e : LogSyncEvent) (s : LogSyncManager) : LogSyncManager :=
  MkLogSync (sync_store s) (data_cache s) (sync_next_tx_seq s) (event_sent s ++ [e]) (confirmation_block_count s).

(** [if let Err(e) = m]: whether the call returned normally; a panic
    propagates. *)
Definition succeeds {S A} (m : st S A) : st S bool := λ s,
  match m s with
  | (Ok _, s') => (Ok true, s')
  | (Err _, s') => (Ok false, s')
  | (Panic e, s') => (Panic e, s')
  end.

(** [if let Ok(Some(x)) = r] *)
Definition ok_some {A} (r : res (option A)) : res (option A) :=
  match r with Ok o => Ok o | Err _ => Ok None | Panic e => Panic e end.

(** One iteration of the loop of [process_reverted] *)
Definition cache_reverted (seq : Z) : st LogSyncManager unit :=
  let! t := st_reads (λ s, Ok (sync_store s)) in
  let! completed := st_lift (match sync_check_tx_completed t seq with Panic e => Panic e | Ok b => Ok b | Err _ => Ok false end) in
  if completed : bool then
    let! tx := st_lift (ok_some (sync_get_tx t seq)) in
    match tx with
    | Some tx =>
        let! n := st_lift (num_entries tx) in
        let! data := st_lift (ok_some (sync_get_chunks t seq 0 n)) in
        match data with
        | Some data => on_cache (add_data (data_merkle_root tx) seq (ca_data data)) ;; st_ret tt
        | None => st_ret tt
        end
    | None => st_ret tt
    end
  else st_ret tt.

(** [revert_to] gets [tx_seq.wrapping_sub(1)]. *)
Definition process_reverted (tx_seq : Z) : st LogSyncManager unit :=
  let! next := st_reads (λ s, Ok (sync_next_tx_seq s)) in
  st_for (seqZ tx_seq (next - tx_seq)) cache_reverted ;;
  st_modify (send_event (ReorgDetected tx_seq)) ;;
  let! ok := on_store (succeeds (sync_revert_to ((tx_seq - 1) mod 2 ^ 64))) in
  if ok : bool then
    st_modify (set_next tx_seq) ;;
    st_modify (send_event (EventReverted tx_seq))
  else st_ret tt.

Definition put_tx_inner (tx : Transaction E) : st LogSyncManager bool :=
  let! ok := on_store (succeeds (sync_put_tx tx)) in
  if negb ok then st_ret false
  else
    let! data := on_cache (pop_data (data_merkle_root tx)) in
    let! stored :=
      match data with
      | Some data =>
          on_store (succeeds (store_put_chunks (tx_seq tx) (tx_hash tx) (MkChunkArray data 0) ;;
                              store_finalize (tx_seq tx) (tx_hash tx)))
      | None => st_ret true
      end in
    if negb stored then st_ret false
    else
      let! next := st_reads (λ s, Ok (sync_next_tx_seq s)) in
      on_cache (λ c, (tt, garbage_collect next c)) ;;
      let! n := st_lift (uadd 64 next 1) in
      st_modify (set_next n) ;;
      st_ret true.

Definition sync_put (tx : Transaction E) : st LogSyncManager bool :=
  let! next := st_reads (λ s, Ok (sync_next_tx_seq s)) in
  match tx_seq tx ?= next with
  | Lt => st_ret true
  | Eq => put_tx_inner tx
  | Gt => st_ret false
  end.

(** One message of [handle_data]; [false] when the loop is left.  [get_block]
    is the provider. *)
Definition handle_progress (get_block : Z → res (option (Block E))) (p : LogFetchProgress E) : st LogSyncManager bool :=
  match p with
  | SyncedBlock number _ =>
      let! count := st_reads (λ s, Ok (confirmation_block_count s)) in
      match get_block (Z.max 0 (number - count)) with
      | Ok (Some b) =>
          match block_number b, block_hash b with
          | Some n, Some h => on_store (sync_put_progress n h) ;; st_ret true
          | _, _ => st_ret true
          end
      | Panic e => st_lift (Panic e)
      | _ => st_lift (Err "log sync update progress error")
      end
  | FetchedTransaction tx => sync_put tx
  | Reverted tx_seq => process_reverted tx_seq ;; st_ret true
  end.

Fixpoint handle_data (get_block : Z → res (option (Block E))) (rx : list (LogFetchProgress E)) : st LogSyncManager bool :=
  match rx with
  | [] => st_ret true
  | data :: rx =>
      let! continue := handle_progress get_block data in
      if continue : bool then handle_data get_block rx else st_ret false
  end.

(** The block where [spawn] starts to recover, from the stored progress *)
Definition recover_start (get_block : Z → res (option (Block E))) (progress : option (Z * E)) (start_block_number count : Z) : res Z :=
  match progress with
  | None => Ok start_block_number
  | Some (number, hash) =>
      match get_block number with
      | Ok (Some b) => if decide (block_hash b = Some hash) then Ok number else Ok (Z.max 0 (number - count))
      | Panic e => Panic e
      | _ => Err "log sync start error"
      end
  end.

End Manager.
Arguments LogSyncManager E T {_}.
