(* ===== verification/LogSyncProofs.v ===== *)
(** * Synchronisation of the log with the chain: proofs

    The confirmation queue and the store together hold the transactions of the
    chain, whatever blocks are added and removed. *)

From Stdlib Require Import Sorted.
From S2P Require Import Prelude Bytes Hashing SharedTypes ChunkPool LogSync.
Open Scope nat_scope.

Lemma filter_none {A} (P : A → Prop) `{∀ x, Decision (P x)} l : Forall (λ x, ¬ P x) l → filter P l = [].
Proof. induction 1 as [|x l Hx _ IH]; [done|]. by rewrite filter_cons, decide_False. Qed.

(** ** Association lists sorted by their keys *)

Definition keys_sorted {V} (m : list (Z * V)) : Prop := StronglySorted Z.lt m.*1.

Fixpoint assoc {V} (n : Z) (m : list (Z * list V)) : list V :=
  match m with
  | [] => []
  | (k, l) :: m => if decide (n = k) then l else assoc n m
  end.

Lemma keys_sorted_cons {V} k (v : V) m : keys_sorted ((k, v) :: m) ↔ keys_sorted m ∧ Forall (λ e, (k < e.1)%Z) m.
Proof.
  unfold keys_sorted. cbn. split.
  - intros H. inversion H as [|? ? ? Hf]; subst. split; [done|]. exact (proj1 (Forall_fmap _ _ _) Hf).
  - intros [Hs Hf]. constructor; [done|]. exact (proj2 (Forall_fmap _ _ _) Hf).
Qed.

Lemma keys_sorted_app {V} (m m' : list (Z * V)) :
  keys_sorted (m ++ m') ↔ keys_sorted m ∧ keys_sorted m' ∧ ∀ x y, x ∈ m → y ∈ m' → (x.1 < y.1)%Z.
Proof.
  induction m as [|[k v] m IH]; cbn [app].
  - split; [intros H; split_and!; [constructor|done|by intros x y ?%not_elem_of_nil]|by intros (_ & ? & _)].
  - rewrite !keys_sorted_cons, IH, Forall_app, !Forall_forall. split.
    + intros ((H1 & H2 & H3) & H4 & H5). split_and!; [done..|]. intros x y [->|Hx]%elem_of_cons Hy; cbn; auto.
    + intros ((H1 & H2) & H3 & H4). split_and!; [done..| | |].
      * intros x y Hx Hy. apply H4; [by right|done].
      * done.
      * intros y Hy. apply (H4 (k, v) y); [left|done].
Qed.

Lemma keys_sorted_drop {V} k (m : list (Z * V)) : keys_sorted m → keys_sorted (drop k m).
Proof. intros H. rewrite <- (take_drop k m) in H. by apply keys_sorted_app in H as (_ & ? & _). Qed.

Lemma assoc_above {V} n (m : list (Z * list V)) : Forall (λ e, (n < e.1)%Z) m → assoc n m = [].
Proof. induction 1 as [|[k l] m Hk _ IH]; [done|]. cbn in *. by rewrite decide_False by lia. Qed.

(** Two sorted lists with the same contents are equal. *)
Lemma sorted_assoc_ext {V} (m m' : list (Z * list V)) :
  keys_sorted m → keys_sorted m' → Forall (λ e, e.2 ≠ []) m → Forall (λ e, e.2 ≠ []) m' →
  (∀ n, assoc n m = assoc n m') → m = m'.
Proof.
  revert m'. induction m as [|[k l] m IH]; intros [|[k' l'] m'] Hs Hs' Hn Hn' E; [done|..].
  - specialize (E k'). cbn in E. rewrite decide_True in E by done. by apply Forall_inv in Hn'.
  - specialize (E k). cbn in E. rewrite decide_True in E by done. by apply Forall_inv in Hn.
  - apply keys_sorted_cons in Hs as [Hs Hk], Hs' as [Hs' Hk'].
    pose proof (Forall_inv Hn) as Hl. pose proof (Forall_inv Hn') as Hl'. cbn in Hl, Hl'.
    apply Forall_inv_tail in Hn, Hn'.
    assert (k = k') as <-.
    { destruct (Z.lt_trichotomy k k') as [Hlt|[?|Hlt]]; [|done|].
      - specialize (E k). cbn in E. rewrite decide_True, decide_False in E by lia.
        rewrite assoc_above in E; [done|]. eapply Forall_impl; [exact Hk'|]. cbn. lia.
      - specialize (E k'). cbn in E. rewrite (decide_True (P := k' = k')), decide_False in E by lia.
        rewrite assoc_above in E; [done|]. eapply Forall_impl; [exact Hk|]. cbn. lia. }
    f_equal; [f_equal|].
    + specialize (E k). cbn in E. by rewrite !decide_True in E.
    + apply IH; [done..|]. intros n. specialize (E n). cbn in E. destruct (decide (n = k)) as [->|]; [|done].
      by rewrite !assoc_above.
Qed.

Definition map_logs {V W} (f : V → W) (m : list (Z * list V)) : list (Z * list W) :=
  (λ e : Z * list V, (e.1, f <$> e.2)) <$> m.

Lemma assoc_map_logs {V W} (f : V → W) n m : assoc n (map_logs f m) = f <$> assoc n m.
Proof. induction m as [|[k l] m IH]; [done|]. cbn. by case_decide. Qed.

Lemma map_logs_keys {V W} (f : V → W) m : (map_logs f m).*1 = m.*1.
Proof. unfold map_logs. rewrite <- list_fmap_compose. by apply list_fmap_ext. Qed.

Lemma map_logs_app {V W} (f : V → W) m m' : map_logs f (m ++ m') = map_logs f m ++ map_logs f m'.
Proof. apply fmap_app. Qed.

Lemma map_logs_concat {V W} (f : V → W) m : concat (map_logs f m).*2 = f <$> concat m.*2.
Proof. induction m as [|[k l] m IH]; [done|]. cbn. by rewrite fmap_app, <- IH. Qed.

(** ** Merging the logs by block *)

Section Merge.
Context {R : Type}.
Implicit Type log : Log R.

Definition is_removed log : Prop := default false (log_removed log) = true.
#[global] Instance is_removed_dec log : Decision (is_removed log).
Proof. unfold is_removed. apply _. Defined.

Lemma btree_push_spec n log m :
  keys_sorted m →
  keys_sorted (btree_push n log m) ∧ (∀ k, (k < n)%Z → Forall (λ e, (k < e.1)%Z) m → Forall (λ e, (k < e.1)%Z) (btree_push n log m)) ∧
  (∀ k, assoc k (btree_push n log m) = if decide (k = n) then assoc k m ++ [log] else assoc k m).
Proof.
  induction m as [|[k l] m IH]; cbn [btree_push]; intros Hs.
  - split_and!; [apply keys_sorted_cons; by split|intros; by repeat constructor|]. intros k. cbn. by case_decide.
  - pose proof Hs as [Hs' Hk]%keys_sorted_cons. destruct (Z.ltb_spec n k) as [Hlt|Hge].
    + split_and!.
      * apply keys_sorted_cons. split; [done|]. constructor; [done|]. eapply Forall_impl; [exact Hk|]. cbn. lia.
      * intros k' Hk' Hall. by constructor.
      * intros k'. cbn. repeat case_decide; subst; try done; [lia|]. by rewrite assoc_above by
          (eapply Forall_impl; [exact Hk|]; cbn; lia).
    + destruct (Z.eqb_spec n k) as [->|Hne].
      * split_and!; [by apply keys_sorted_cons| |].
        -- intros k' Hk' Hall. apply Forall_cons in Hall as [? ?]. by constructor.
        -- intros k'. cbn. by repeat case_decide.
      * destruct (IH Hs') as (IH1 & IH2 & IH3). split_and!.
        -- apply keys_sorted_cons. split; [done|]. apply IH2; [lia|done].
        -- intros k' Hk' Hall. apply Forall_cons in Hall as [? ?]. constructor; [done|]. by apply IH2.
        -- intros k'. cbn. rewrite IH3. repeat case_decide; subst; done.
Qed.

Lemma btree_push_nonempty n log m : Forall (λ e, e.2 ≠ []) m → Forall (λ e, e.2 ≠ []) (btree_push n log m).
Proof.
  induction 1 as [|[k l] m Hl Hm IH]; cbn; [by repeat constructor|].
  destruct (_ <? _)%Z; [by repeat constructor|]. destruct (_ =? _)%Z; [|by constructor].
  constructor; [|done]. cbn. by destruct l.
Qed.

(** The logs of a block, in the order of the notification *)
Definition new_of (n : Z) (logs : list (Log R)) : list (Log R) :=
  filter (λ log, ¬ is_removed log ∧ log_block_number log = Some n) logs.
Definition removed_of (n : Z) (logs : list (Log R)) : list (Log R) :=
  filter (λ log, is_removed log ∧ log_block_number log = Some n) logs.

Definition by_block (m : list (Z * list (Log R))) (f : Z → list (Log R)) : Prop :=
  keys_sorted m ∧ Forall (λ e, e.2 ≠ []) m ∧ ∀ n, assoc n m = f n.

Lemma merge_logs_spec logs bl rl f g :
  Forall (λ log, is_Some (log_block_number log)) logs → by_block bl f → by_block rl g →
  ∃ bl' rl', merge_logs logs bl rl = Ok (bl', rl') ∧
    by_block bl' (λ n, f n ++ new_of n logs) ∧ by_block rl' (λ n, g n ++ removed_of n logs).
Proof.
  intros Hlogs. revert bl rl f g. induction Hlogs as [|log logs [n Hn] _ IH]; intros bl rl f g Hbl Hrl.
  - exists bl, rl. split; [done|]. destruct Hbl as (? & ? & Hb), Hrl as (? & ? & Hr).
    split; (split_and!; [done..|]; intros n; cbn; by rewrite app_nil_r).
  - cbn [merge_logs]. rewrite Hn. cbn [ok_or res_bind].
    assert (Hpush : ∀ m h, by_block m h → by_block (btree_push n log m) (λ k, if decide (k = n) then h k ++ [log] else h k)).
    { intros m h (Hs & Hne & Ha). destruct (btree_push_spec n log m Hs) as (H1 & _ & H3).
      split_and!; [done|by apply btree_push_nonempty|]. intros k. rewrite H3, Ha. done. }
    destruct (default false (log_removed log)) eqn:Hr.
    + assert (Hrem : is_removed log) by done. destruct (IH bl (btree_push n log rl) f _ Hbl (Hpush _ _ Hrl)) as (bl' & rl' & E & (B1 & B2 & B3) & C1 & C2 & C3).
      exists bl', rl'. split; [done|]. split; (split_and!; [done..|]); intros k.
      * rewrite B3. unfold new_of. by rewrite filter_cons_False by (by intros [? _]).
      * rewrite C3. unfold removed_of. rewrite filter_cons, Hn. destruct (decide (k = n)) as [->|Hk].
        -- by rewrite decide_True, <- app_assoc by done.
        -- by rewrite decide_False by (by intros [_ [= ->]]).
    + assert (Hrem : ¬ is_removed log) by (unfold is_removed; by rewrite Hr). destruct (IH (btree_push n log bl) rl _ g (Hpush _ _ Hbl) Hrl) as (bl' & rl' & E & (B1 & B2 & B3) & C1 & C2 & C3).
      exists bl', rl'. split; [done|]. split; (split_and!; [done..|]); intros k.
      * rewrite B3. unfold new_of. rewrite filter_cons, Hn. destruct (decide (k = n)) as [->|Hk].
        -- by rewrite decide_True, <- app_assoc by done.
        -- by rewrite decide_False by (by intros [_ [= ->]]).
      * rewrite C3. unfold removed_of. by rewrite filter_cons_False by (by intros [? _]).
Qed.

End Merge.

(** ** The chain *)

Section Chain.
Context {R E : Type} (decode_log : R → res (Submission E)) `{Algorithm E}.
Implicit Types (chain added : list (Z * list R)) (txs : list (Transaction E)).

Definition tx_of (r : R) : res (Transaction E) := let? e := decode_log r in submission_event_to_transaction e.

(** The blocks of the chain that have logs, with these transactions: they are
    numbered in order, from 0. *)
Record chain_ok chain txs : Prop := {
  co_sorted : keys_sorted chain;
  co_positive : Forall (λ b, (0 < b.1)%Z) chain;
  co_logs : Forall (λ b, b.2 ≠ []) chain;
  co_txs : Forall2 (λ r tx, tx_of r = Ok tx) (concat chain.*2) txs;
  co_seq : ∀ i tx, txs !! i = Some tx → tx_seq tx = Z.of_nat i;
  co_max : (Z.of_nat (length txs) < 2 ^ 64)%Z;
}.

(** The number of transactions in the first [k] blocks *)
Definition count (k : nat) chain : nat := length (concat (take k chain).*2).

(** A notification of the provider: the removed logs and the new logs, those of
    a block in order. *)
Record notifies (logs : list (Log R)) (removed added : list (Z * list R)) : Prop := {
  no_numbers : Forall (λ log, is_Some (log_block_number log)) logs;
  no_removed n : log_raw <$> removed_of n logs = assoc n removed;
  no_added n : log_raw <$> new_of n logs = assoc n added;
}.

Definition pending (l : list (Z * list (Log R))) : Prop := Forall (λ log, ¬ is_removed log) (concat l.*2).

Lemma by_block_map m f (blocks : list (Z * list R)) :
  by_block m f → keys_sorted blocks → Forall (λ b, b.2 ≠ []) blocks → (∀ n, log_raw <$> f n = assoc n blocks) →
  map_logs log_raw m = blocks.
Proof.
  intros (Hs & Hne & Ha) Hsb Hnb Hf. apply sorted_assoc_ext; [|done| |done|].
  - unfold keys_sorted. by rewrite map_logs_keys.
  - apply Forall_fmap. eapply Forall_impl; [exact Hne|]. intros [k l]. cbn. by destruct l.
  - intros n. by rewrite assoc_map_logs, Ha.
Qed.

Lemma search_block_keys n (l : list (Z * list (Log R))) :
  search_block n l = length (filter (λ x, (x < n)%Z) l.*1).
Proof.
  unfold search_block. induction l as [|[k v] l IH]; [done|]. cbn [fmap list_fmap]. rewrite !filter_cons. cbn [fst].
  case_decide; cbn; by rewrite IH.
Qed.

(** The search finds where the first removed block is in the queue. *)
Lemma search_removed chain k keep q b l post :
  keys_sorted chain → map_logs log_raw q = drop k chain → drop keep chain = (b, l) :: post → keep ≤ length chain →
  search_block b q = keep - k.
Proof.
  intros Hs Hq Hd Hk. rewrite search_block_keys, <- (map_logs_keys log_raw), Hq.
  rewrite <- (take_drop keep chain), Hd in Hs |- *. set (pre := take keep chain) in *.
  assert (Hl : length pre = keep) by (unfold pre; rewrite length_take; lia).
  apply keys_sorted_app in Hs as (Hs1 & Hs2 & Hlt). rewrite skipn_app, fmap_app, filter_app, length_app.
  rewrite filter_all by (apply Forall_fmap, Forall_drop, Forall_forall; intros x Hx; apply (Hlt x (b, l)); [done|left]).
  rewrite filter_none, length_fmap, length_drop; [cbn; lia|].
  apply Forall_fmap, Forall_drop. apply keys_sorted_cons in Hs2 as [_ Hb].
  constructor; [cbn; lia|]. eapply Forall_impl; [exact Hb|]. cbn. lia.
Qed.

Lemma push_blocks_spec bl (q : LogConfirmationQueue R) :
  keys_sorted (queue q ++ bl) → Forall (λ e, (0 < e.1)%Z) bl →
  push_blocks bl q = (Ok tt, set_queue (queue q ++ bl) q).
Proof.
  revert q. induction bl as [|[n l] bl IH]; intros q Hs Hpos; cbn [push_blocks].
  { rewrite app_nil_r. by destruct q. }
  apply Forall_cons in Hpos as [Hn Hpos]. cbn [fst] in Hn.
  unfold st_bind at 1, st_get. rewrite (proj2 (Z.leb_gt _ _)).
  - unfold st_bind at 1, st_put. rewrite IH; cbn [queue set_queue]; rewrite <- ?app_assoc; done.
  - destruct (last (queue q)) as [e|] eqn:El; [|done]. cbn.
    apply keys_sorted_app in Hs as (_ & _ & Hlt). apply (Hlt e (n, l)); [|left].
    apply last_Some in El as [l' ->]. apply elem_of_app. right. left.
Qed.

Lemma tx_of_seq r tx : tx_of r = Ok tx → ∃ e, decode_log r = Ok e ∧ u256_as_u64 (submission_index e) = Ok (tx_seq tx).
Proof.
  unfold tx_of. destruct (decode_log r) as [e| |]; cbn [res_bind]; [|done..]. intros Htx. exists e. split; [done|].
  unfold submission_event_to_transaction in Htx.
  destruct (nodes_to_root _); cbn [res_bind] in Htx; [|done..]. destruct (convert_nodes _); cbn [res_bind] in Htx; [|done..].
  destruct (u256_as_u64 (start_pos e)); cbn [res_bind] in Htx; [|done..].
  destruct (u256_as_u64 (submission_size e)); cbn [res_bind] in Htx; [|done..].
  destruct (u256_as_u64 (submission_index e)); cbn [res_bind] in Htx; [|done..]. by injection Htx as <-.
Qed.

(** The sequence number of the first removed log is the number of the
    transactions before it. *)
Lemma first_removed_seq chain txs keep b r rest post :
  chain_ok chain txs → drop keep chain = (b, r :: rest) :: post →
  ∃ e, decode_log r = Ok e ∧ u256_as_u64 (submission_index e) = Ok (Z.of_nat (count keep chain)).
Proof.
  intros Hok Hd. pose proof (co_txs _ _ Hok) as Htx. rewrite <- (take_drop keep chain), Hd in Htx.
  rewrite fmap_app, concat_app in Htx. apply Forall2_app_inv_l in Htx as (txs1 & txs2 & Htx1 & Htx2 & ->).
  cbn [fmap list_fmap concat snd app] in Htx2. inversion Htx2 as [|? tx ? txs3 Hr ? E1 E2]; subst.
  apply tx_of_seq in Hr as (e & He & Hseq). exists e. split; [done|]. rewrite Hseq.
  rewrite (co_seq _ _ Hok (length txs1) tx) by by rewrite lookup_app_r, Nat.sub_diag.
  unfold count. by rewrite (Forall2_length _ _ _ Htx1).
Qed.

Lemma drop_min (k keep : nat) (chain added : list (Z * list R)) :
  keep ≤ length chain → drop k (take keep chain) ++ added = drop (k `min` keep) (take keep chain ++ added).
Proof.
  intros Hk. rewrite skipn_app, length_take. replace (k `min` keep - keep `min` length chain) with 0 by lia.
  rewrite drop_0. f_equal. destruct (decide (k ≤ keep)); [by rewrite Nat.min_l|].
  rewrite Nat.min_r, !drop_ge by (rewrite ?length_take; lia). done.
Qed.

Lemma elem_of_assoc {V} (m : list (Z * list V)) x : keys_sorted m → x ∈ concat m.*2 → ∃ n, x ∈ assoc n m.
Proof.
  induction m as [|[k l] m IH]; cbn; [by intros _ ?%not_elem_of_nil|].
  intros [Hs Hk]%keys_sorted_cons [Hx|Hx]%elem_of_app.
  - exists k. by rewrite decide_True.
  - destruct (IH Hs Hx) as [n Hn]. exists n. rewrite decide_False; [done|]. intros ->.
    by rewrite assoc_above in Hn by done; apply not_elem_of_nil in Hn.
Qed.

Lemma merge_notified logs removed added :
  notifies logs removed added → keys_sorted removed → Forall (λ b, b.2 ≠ []) removed →
  keys_sorted added → Forall (λ b, b.2 ≠ []) added →
  ∃ bl rl, merge_logs logs [] [] = Ok (bl, rl) ∧ map_logs log_raw bl = added ∧ map_logs log_raw rl = removed ∧ pending bl.
Proof.
  intros Hno Hs1 Hl1 Hs2 Hl2.
  assert (Hempty : by_block (R := R) [] (λ _, [])) by (split_and!; [constructor|constructor|done]).
  destruct (merge_logs_spec logs [] [] _ _ (no_numbers _ _ _ Hno) Hempty Hempty) as (bl & rl & Em & Hbl & Hrl).
  exists bl, rl. split_and!; [done|by eapply by_block_map; [exact Hbl|..|exact (no_added _ _ _ Hno)]
                                  |by eapply by_block_map; [exact Hrl|..|exact (no_removed _ _ _ Hno)]|].
  destruct Hbl as (Hs & _ & Ha). apply Forall_forall. intros log [n Hn]%elem_of_assoc; [|done].
  rewrite Ha in Hn. by apply list_elem_of_filter in Hn as [[? _] _].
Qed.

Lemma kept_queue chain added k keep l bl :
  keep ≤ length chain → map_logs log_raw l = drop k chain → map_logs log_raw bl = added →
  map_logs log_raw (take (keep - k) l ++ bl) = drop (k `min` keep) (take keep chain ++ added).
Proof.
  intros Hk Hl <-. rewrite map_logs_app, <- drop_min by done. f_equal. unfold map_logs in *. rewrite fmap_take, Hl.
  destruct (decide (k ≤ keep)).
  - rewrite take_drop_commute. do 2 f_equal. lia.
  - replace (keep - k) with 0 by lia. rewrite take_0, drop_ge; [done|]. rewrite length_take. lia.
Qed.

Lemma push_spec chain txs txs' keep added logs k (q : LogConfirmationQueue R) :
  chain_ok chain txs → chain_ok (take keep chain ++ added) txs' → keep ≤ length chain →
  notifies logs (drop keep chain) added →
  map_logs log_raw (queue q) = drop k chain → pending (queue q) →
  ∃ l, push decode_log logs q =
      (Ok (if decide (keep < length chain) then Some (Z.of_nat (count keep chain)) else None), set_queue l q) ∧
    map_logs log_raw l = drop (k `min` keep) (take keep chain ++ added) ∧ pending l.
Proof.
  intros Hok Hok' Hk Hno Hq Hpend. pose proof (co_sorted _ _ Hok') as Hs.
  pose proof Hs as (_ & Hsa & _)%keys_sorted_app.
  pose proof (proj1 (Forall_app _ _ _) (co_positive _ _ Hok')) as [_ Hpa].
  pose proof (proj1 (Forall_app _ _ _) (co_logs _ _ Hok')) as [_ Hla].
  destruct (merge_notified logs (drop keep chain) added) as (bl & rl & Em & Hbl & Hrl & Hbp);
    [done|apply keys_sorted_drop, Hok|apply Forall_drop, Hok|done..|].
  set (q1 := set_queue (take (keep - k) (queue q)) q).
  assert (Hq1 : map_logs log_raw (queue q1 ++ bl) = drop (k `min` keep) (take keep chain ++ added)) by by apply kept_queue.
  exists (queue q1 ++ bl). split_and!; [|done|].
  - assert (Hpb : push_blocks bl q1 = (Ok tt, set_queue (queue q1 ++ bl) q1)).
    { apply push_blocks_spec.
      - unfold keys_sorted. rewrite <- (map_logs_keys log_raw), Hq1. by apply keys_sorted_drop.
      - rewrite <- Hbl in Hpa. exact (proj1 (Forall_fmap _ _ _) Hpa). }
    unfold push, st_bind at 1, st_lift at 1. rewrite Em. destruct rl as [|[b rlogs] rl].
    + assert (keep = length chain) as -> by (apply (f_equal length) in Hrl; rewrite length_drop in Hrl; cbn in Hrl; lia).
      rewrite decide_False by lia. unfold st_bind, st_ret.
      assert (Hqq : q = q1).
      { unfold q1. rewrite take_ge; [by destruct q|]. apply (f_equal length) in Hq. unfold map_logs in Hq.
        rewrite length_fmap, length_drop in Hq. lia. }
      rewrite Hqq at 1. by rewrite Hpb.
    + cbn in Hrl. symmetry in Hrl. rewrite decide_True by (apply (f_equal length) in Hrl; rewrite length_drop in Hrl; cbn in Hrl; lia).
      pose proof (search_removed _ _ _ _ _ _ _ (co_sorted _ _ Hok) Hq Hrl Hk) as Hsearch.
      assert (Hne : rlogs ≠ []).
      { pose proof (proj1 (Forall_forall _ _) (Forall_drop _ keep _ (co_logs _ _ Hok)) (b, log_raw <$> rlogs)) as Hx.
        rewrite Hrl in Hx. cbn in Hx. intros ->. by apply Hx; [left|]. }
      destruct rlogs as [|first rlogs]; [done|]. cbn [fmap list_fmap] in Hrl.
      destruct (first_removed_seq _ _ _ _ _ _ _ Hok Hrl) as (e & He & Hseq).
      unfold st_bind, st_modify, st_lift, st_ret. cbn [head expect]. rewrite Hsearch. fold q1. rewrite He, Hseq, Hpb. done.
  - unfold pending. rewrite fmap_app, concat_app. apply Forall_app. split; [|done].
    unfold q1. cbn [queue set_queue]. unfold pending in Hpend. rewrite <- (take_drop (keep - k) (queue q)), fmap_app, concat_app in Hpend.
    by apply Forall_app in Hpend as [? _].
Qed.

(** ** Confirmation *)

Lemma take_confirmed_spec thr (l : list (Z * list (Log R))) :
  keys_sorted l →
  ∃ j, take_confirmed thr l = (concat (take j l).*2, drop j l) ∧ j ≤ length l ∧
    Forall (λ e, (e.1 <= thr)%Z) (take j l) ∧ Forall (λ e, (thr < e.1)%Z) (drop j l).
Proof.
  induction l as [|[n logs] l IH]; intros Hs; cbn [take_confirmed].
  - exists 0. by split_and!.
  - apply keys_sorted_cons in Hs as [Hs Hn]. destruct (Z.ltb_spec thr n) as [Hlt|Hle].
    + exists 0. split_and!; [done|cbn; lia|constructor|]. constructor; [done|]. eapply Forall_impl; [exact Hn|]. cbn. lia.
    + destruct (IH Hs) as (j & -> & Hj & H1 & H2). exists (S j). split_and!; [done|cbn; lia|by constructor|done].
Qed.

Lemma send_logs_spec logs txs q sent :
  Forall (λ log, ¬ is_removed log) logs → Forall2 (λ r tx, tx_of r = Ok tx) (log_raw <$> logs) txs →
  st_for logs (send_log decode_log) (MkWatcher q sent true) =
  (Ok tt, MkWatcher q (sent ++ (FetchedTransaction <$> txs)) true).
Proof.
  intros Hr. revert txs sent. induction Hr as [|log logs Hlog _ IH]; intros txs sent Htx; cbn [fmap list_fmap] in Htx.
  - inversion Htx. subst. cbn. by rewrite app_nil_r.
  - inversion Htx as [|? tx ? txs' Ht Hts]; subst. cbn [st_for]. unfold st_bind at 1.
    assert (Hsend : send_log decode_log log (MkWatcher q sent true) =
      (Ok tt, MkWatcher q (sent ++ [FetchedTransaction tx]) true)).
    { unfold send_log, st_bind, st_lift, assert. unfold is_removed in Hlog. apply not_true_is_false in Hlog. rewrite Hlog. cbn [negb].
      unfold tx_of in Ht. destruct (decode_log (log_raw log)); cbn [res_bind] in Ht; [|done..]. by rewrite Ht. }
    rewrite Hsend, (IH txs') by done. by rewrite <- app_assoc.
Qed.

(** The transactions of the blocks from [k] to [k'] *)
Definition txs_between (k k' : nat) chain txs : list (Transaction E) :=
  take (count k' chain - count k chain) (drop (count k chain) txs).

Lemma count_add k j chain : count (k + j) chain = count k chain + length (concat (take j (drop k chain)).*2).
Proof.
  unfold count. rewrite <- length_app, <- concat_app, <- fmap_app. do 3 f_equal.
  by rewrite take_take_drop.
Qed.

Lemma txs_between_spec k j chain txs :
  chain_ok chain txs →
  Forall2 (λ r tx, tx_of r = Ok tx) (concat (take j (drop k chain)).*2) (txs_between k (k + j) chain txs).
Proof.
  intros Hok. pose proof (co_txs _ _ Hok) as Htx. unfold txs_between. rewrite count_add.
  replace (count k chain + _ - count k chain) with (length (concat (take j (drop k chain)).*2)) by lia.
  rewrite <- (take_drop k chain), fmap_app, concat_app in Htx.
  rewrite <- (take_drop j (drop k chain)), fmap_app, concat_app in Htx.
  apply Forall2_app_inv_l in Htx as (l1 & l2 & H1 & H2 & ->). apply Forall2_app_inv_l in H2 as (l2' & l3 & H2 & _ & ->).
  pose proof (Forall2_length _ _ _ H1) as L1. pose proof (Forall2_length _ _ _ H2) as L2. fold (count k chain) in L1.
  rewrite drop_app_length' by done. by rewrite take_app_length' by done.
Qed.

Lemma watch_run logs latest h q q1 q2 rev confirmed txs :
  push decode_log logs q = (Ok rev, q1) → confirm_logs latest q1 = (Ok confirmed, q2) →
  Forall (λ log, ¬ is_removed log) confirmed → Forall2 (λ r tx, tx_of r = Ok tx) (log_raw <$> confirmed) txs →
  watch_loop decode_log (MkBlock (Some latest) (Some h)) logs (MkWatcher q [] true) =
  (Ok (Some latest), MkWatcher q2
     (match rev with Some n => [Reverted n] | None => [] end ++ (FetchedTransaction <$> txs) ++ [SyncedBlock latest h]) true).
Proof.
  intros Hpush Hconf Hr Htx. unfold watch_loop, on_queue. unfold st_bind at 1, st_zoom at 1.
  cbn [watch_queue watch_sent watch_open]. rewrite Hpush.
  set (sent := match rev with Some n => [Reverted n] | None => [] end). unfold st_bind at 1.
  assert (Hrev : ∀ (m : st (Watcher R E) unit), m = match rev with Some seq => watch_send (Reverted seq) | None => st_ret tt end →
    m (MkWatcher q1 [] true) = (Ok tt, MkWatcher q1 sent true)) by (unfold sent; destruct rev; by intros ? ->).
  rewrite (Hrev _ eq_refl). unfold st_bind at 1, st_lift at 1. cbn [block_number expect].
  unfold st_bind at 1, st_zoom at 1. cbn [watch_queue watch_sent watch_open]. rewrite Hconf.
  unfold st_bind at 1. rewrite (send_logs_spec _ _ _ _ Hr Htx). cbn [block_hash].
  unfold watch_send, st_bind, st_get, st_put, st_ret. cbn [watch_queue watch_sent watch_open]. by rewrite app_assoc.
Qed.

(** One iteration of the watcher: it sends the revert, the transactions of the
    blocks that are confirmed, and the block. *)
Lemma watch_spec chain txs txs' keep added logs k (q : LogConfirmationQueue R) latest h :
  chain_ok chain txs → chain_ok (take keep chain ++ added) txs' → keep ≤ length chain →
  notifies logs (drop keep chain) added →
  map_logs log_raw (queue q) = drop k chain → pending (queue q) → k ≤ length chain →
  let chain' := take keep chain ++ added in
  let thr := ((latest - confirmation_delay q) mod 2 ^ 64)%Z in
  ∃ j l, k `min` keep + j ≤ length chain' ∧ map_logs log_raw l = drop (k `min` keep + j) chain' ∧ pending l ∧
    Forall (λ b, (b.1 <= thr)%Z) (take j (drop (k `min` keep) chain')) ∧ Forall (λ b, (thr < b.1)%Z) (drop (k `min` keep + j) chain') ∧
    watch_loop decode_log (MkBlock (Some latest) (Some h)) logs (MkWatcher q [] true) =
    (Ok (Some latest), MkWatcher (MkQueue l latest (confirmation_delay q))
       ((if decide (keep < length chain) then [Reverted (Z.of_nat (count keep chain))] else []) ++
        (FetchedTransaction <$> txs_between (k `min` keep) (k `min` keep + j) chain' txs') ++ [SyncedBlock latest h]) true).
Proof.
  intros Hok Hok' Hk Hno Hq Hpend Hkl chain' thr.
  destruct (push_spec _ _ _ _ _ _ _ _ Hok Hok' Hk Hno Hq Hpend) as (l1 & Hpush & Hl1 & Hp1). fold chain' in Hl1.
  assert (Hs1 : keys_sorted l1).
  { unfold keys_sorted. rewrite <- (map_logs_keys log_raw), Hl1. apply keys_sorted_drop, Hok'. }
  destruct (take_confirmed_spec thr l1 Hs1) as (j & Hconf & Hj & Hle & Hgt).
  assert (Htake : map_logs log_raw (take j l1) = take j (drop (k `min` keep) chain')) by (unfold map_logs; by rewrite fmap_take, <- Hl1).
  assert (Hdrop : map_logs log_raw (drop j l1) = drop (k `min` keep + j) chain').
  { unfold map_logs. rewrite fmap_drop. fold (map_logs log_raw l1). by rewrite Hl1, drop_drop. }
  pose proof Hp1 as Hp2. unfold pending in Hp2. rewrite <- (take_drop j l1), fmap_app, concat_app in Hp2.
  apply Forall_app in Hp2 as [Hpt Hpd].
  exists j, (drop j l1). split_and!; [|done|done| | |].
  - apply (f_equal length) in Hl1. unfold map_logs in Hl1. rewrite length_fmap, length_drop in Hl1.
    assert (k `min` keep ≤ length chain') by (unfold chain'; rewrite length_app, length_take; lia). lia.
  - rewrite <- Htake. unfold map_logs. apply Forall_fmap. exact Hle.
  - rewrite <- Hdrop. unfold map_logs. apply Forall_fmap. exact Hgt.
  - erewrite watch_run; [|exact Hpush| |exact Hpt|].
    + by destruct (decide (keep < length chain)).
    + unfold confirm_logs, st_bind, st_get. cbn [queue set_queue confirmation_delay]. fold thr. by rewrite Hconf.
    + rewrite <- map_logs_concat, Htake. by apply txs_between_spec.
Qed.
End Chain.
