(* ===== verification/LogSyncTheorems.v ===== *)
(** * Synchronisation of the log with the chain: theorems

    The messages of the watcher follow the chain through reorganisations, and the
    manager stores the transactions of a growing chain in the log manager. *)

From Stdlib Require Import Sorted.
From stdpp Require Import gmap.
From S2P Require Import Prelude Bytes IonianSpec Hashing MerkleProof MerkleRead AppendMerkle MerkleSpec SharedTypes SealCodec SealInfo ChunkData ChunkRuns EntryBatch EntryBatchProofs FlowStore FlowReads FlowWrites TxStore LogManager FlowTree LogInvariant LogPadding LogSteps LogTx LogProofs LogRefinement ChunkPool LogTheorems ChunkPoolTheorems LogSync LogSyncProofs.
Open Scope nat_scope.

(** ** Rounds of the watcher *)

(** Between two rounds the chain keeps its first [rd_keep] blocks and gets new
    ones; the provider tells so by logs. *)
Record Round (R E : Type) := MkRound {
  rd_keep : nat;
  rd_added : list (Z * list R);
  rd_logs : list (Log R);
  rd_latest : Z;
  rd_hash : E;
}.
Arguments MkRound {R E}.
Arguments rd_keep {R E}.
Arguments rd_added {R E}.
Arguments rd_logs {R E}.
Arguments rd_latest {R E}.
Arguments rd_hash {R E}.

Section Rounds.
Context {R E : Type} (decode_log : R → res (Submission E)) `{Algorithm E}.
Implicit Types (chain : list (Z * list R)) (rd : Round R E) (q : LogConfirmationQueue R) (l : list (Transaction E)).

(** One iteration of [watch_loop]: the messages that it sends, and the queue. *)
Definition watch_round rd q : res (list (LogFetchProgress E) * LogConfirmationQueue R) :=
  match watch_loop decode_log (MkBlock (Some (rd_latest rd)) (Some (rd_hash rd))) (rd_logs rd) (MkWatcher q [] true) with
  | (Ok _, w) => Ok (watch_sent w, watch_queue w)
  | (Err e, _) => Err e
  | (Panic e, _) => Panic e
  end.

Fixpoint watch_rounds (rounds : list (Round R E)) q : res (list (LogFetchProgress E) * LogConfirmationQueue R) :=
  match rounds with
  | [] => Ok ([], q)
  | rd :: rounds =>
      let? '(sent, q) := watch_round rd q in
      let? '(rest, q) := watch_rounds rounds q in
      Ok (sent ++ rest, q)
  end.

Definition chain_after chain rd : list (Z * list R) := take (rd_keep rd) chain ++ rd_added rd.

Fixpoint rounds_ok chain (rounds : list (Round R E)) : Prop :=
  match rounds with
  | [] => True
  | rd :: rounds =>
      rd_keep rd ≤ length chain ∧ notifies (rd_logs rd) (drop (rd_keep rd) chain) (rd_added rd) ∧
      (∃ txs, chain_ok decode_log (chain_after chain rd) txs) ∧ rounds_ok (chain_after chain rd) rounds
  end.

(** The transactions that a receiver of the messages has: the next one is
    appended, an earlier one is known already, a later one is a gap; a revert
    leaves the first ones. *)
Definition follow l (p : LogFetchProgress E) : option (list (Transaction E)) :=
  match p with
  | SyncedBlock _ _ => Some l
  | FetchedTransaction tx =>
      match (tx_seq tx ?= Z.of_nat (length l))%Z with Lt => Some l | Eq => Some (l ++ [tx]) | Gt => None end
  | Reverted n => Some (take (Z.to_nat n) l)
  end.

Fixpoint follow_all l (ps : list (LogFetchProgress E)) : option (list (Transaction E)) :=
  match ps with
  | [] => Some l
  | p :: ps => l ← follow l p; follow_all l ps
  end.

(** The receiver has the transactions of the first [k] blocks of the chain; the
    others wait in the queue, and are not confirmed. *)
Record watch_inv chain (txs : list (Transaction E)) (k : nat) q l : Prop := {
  wi_chain : chain_ok decode_log chain txs;
  wi_blocks : k ≤ length chain;
  wi_sent : l = take (count k chain) txs;
  wi_queue : map_logs log_raw (queue q) = drop k chain;
  wi_pending : pending (queue q);
  wi_unconfirmed :
    Forall (λ b, ((latest_block_number q - confirmation_delay q) mod 2 ^ 64 < b.1)%Z) (drop k chain);
}.

Lemma follow_all_app l ps ps' : follow_all l (ps ++ ps') = (l' ← follow_all l ps; follow_all l' ps').
Proof. revert l. induction ps as [|p ps IH]; intros l; cbn; [done|]. destruct (follow l p); cbn; [apply IH|done]. Qed.

Lemma prefix_txs chain txs txs' keep added k :
  chain_ok decode_log chain txs → chain_ok decode_log (take keep chain ++ added) txs' → k ≤ keep → keep ≤ length chain →
  count k (take keep chain ++ added) = count k chain ∧ take (count k chain) txs' = take (count k chain) txs ∧
  count k chain ≤ length txs'.
Proof.
  intros Hok Hok' Hk Hkl.
  assert (Htake : take k (take keep chain ++ added) = take k chain).
  { rewrite take_app_le by (rewrite length_take; lia). by rewrite take_take, Nat.min_l. }
  unfold count. rewrite Htake. split; [done|].
  assert (Hpre : ∀ c ts, chain_ok decode_log c ts → take k c = take k chain →
    Forall2 (λ r tx, tx_of decode_log r = Ok tx) (concat (take k chain).*2) (take (length (concat (take k chain).*2)) ts) ∧
    length (concat (take k chain).*2) ≤ length ts).
  { intros c ts Hc Et. pose proof (co_txs _ _ _ Hc) as Htx. rewrite <- (take_drop k c), Et, fmap_app, concat_app in Htx.
    apply Forall2_app_inv_l in Htx as (l1 & l2 & H1' & _ & ->). rewrite (Forall2_length _ _ _ H1').
    rewrite take_app_length, length_app. split; [done|lia]. }
  destruct (Hpre _ _ Hok eq_refl) as [P1 _]. destruct (Hpre _ _ Hok' Htake) as [P2 L2]. split; [|done].
  clear -P1 P2. revert P2. generalize (take (length (concat (take k chain).*2)) txs').
  induction P1 as [|r tx rs ts Hr _ IH]; intros l Hl; inversion Hl; subst; [done|]. f_equal; [congruence|by apply IH].
Qed.

Lemma count_mono k k' chain : k ≤ k' → count k chain ≤ count k' chain.
Proof. intros Hk. replace k' with (k + (k' - k)) by lia. rewrite count_add. lia. Qed.

Lemma count_min k k' chain : count k chain `min` count k' chain = count (k `min` k') chain.
Proof.
  destruct (decide (k ≤ k')).
  - rewrite (Nat.min_l k k') by lia. apply Nat.min_l, count_mono. lia.
  - rewrite (Nat.min_r k k') by lia. apply Nat.min_r, count_mono. lia.
Qed.

Lemma count_le k chain txs : chain_ok decode_log chain txs → count k chain ≤ length txs.
Proof.
  intros Hok. rewrite <- (Forall2_length _ _ _ (co_txs _ _ _ Hok)).
  unfold count. rewrite <- (take_drop k chain) at 2. rewrite fmap_app, concat_app, length_app. lia.
Qed.

(** The transactions from [n] on are appended one after the other. *)
Lemma follow_txs ts n txs :
  n ≤ length txs → ts = take (length ts) (drop n txs) → (∀ i tx, txs !! i = Some tx → tx_seq tx = Z.of_nat i) →
  follow_all (take n txs) (FetchedTransaction <$> ts) = Some (take (n + length ts) txs).
Proof.
  revert n. induction ts as [|tx ts IH]; intros n Hn Hts Hseq; cbn [fmap list_fmap follow_all length] in *.
  { by rewrite Nat.add_0_r. }
  destruct (drop n txs) as [|tx' rest] eqn:Hd; [done|]. injection Hts as <- Hts.
  assert (Htx : txs !! n = Some tx) by (rewrite <- (Nat.add_0_r n), <- lookup_drop, Hd; done).
  pose proof (lookup_lt_Some _ _ _ Htx). cbn [follow]. rewrite (Hseq _ _ Htx), length_take, Nat.min_l, Z.compare_refl by lia.
  cbn. rewrite <- (take_S_r _ _ tx) by done. rewrite IH; [by rewrite Nat.add_succ_r|lia| |done].
  replace (S n) with (n + 1) by lia. rewrite <- drop_drop, Hd. by cbn.
Qed.

Lemma follow_reverted chain txs k keep :
  keep ≤ length chain → k ≤ length chain →
  follow_all (take (count k chain) txs)
    (if decide (keep < length chain) then [Reverted (Z.of_nat (count keep chain))] else []) =
  Some (take (count (k `min` keep) chain) txs).
Proof.
  intros Hkeep Hk. case_decide; cbn.
  - by rewrite Nat2Z.id, take_take, Nat.min_comm, count_min.
  - by rewrite Nat.min_l by lia.
Qed.

Lemma watch_step chain txs k rd q l :
  watch_inv chain txs k q l → rounds_ok chain [rd] →
  ∃ sent q' l' txs' k', watch_round rd q = Ok (sent, q') ∧ follow_all l sent = Some l' ∧
    watch_inv (chain_after chain rd) txs' k' q' l' ∧
    confirmation_delay q' = confirmation_delay q ∧ latest_block_number q' = rd_latest rd.
Proof.
  intros [Hok Hkl -> Hq Hp _] (Hkeep & Hno & (txs' & Hok') & _). unfold chain_after in *.
  destruct (watch_spec _ _ _ _ _ _ _ _ q (rd_latest rd) (rd_hash rd) Hok Hok' Hkeep Hno Hq Hp Hkl)
    as (j & w & Hj & Hl & Hpl & _ & Hgt & E1).
  destruct (prefix_txs _ _ _ _ _ (k `min` rd_keep rd) Hok Hok' ltac:(lia) Hkeep) as (Hc & Ht & Hlt).
  pose proof (follow_reverted chain txs k (rd_keep rd) Hkeep Hkl) as E2. rewrite <- Ht, <- Hc in E2. rewrite <- Hc in Hlt.
  set (chain' := take (rd_keep rd) chain ++ rd_added rd) in *. set (k1 := k `min` rd_keep rd) in *.
  assert (Hlen : length (txs_between k1 (k1 + j) chain' txs') = count (k1 + j) chain' - count k1 chain').
  { unfold txs_between. rewrite length_take, length_drop. pose proof (count_le (k1 + j) chain' txs' Hok'). lia. }
  pose proof (follow_txs (txs_between k1 (k1 + j) chain' txs') (count k1 chain') txs' Hlt) as E3.
  rewrite Hlen in E3. replace (count k1 chain' + _) with (count (k1 + j) chain') in E3
    by (pose proof (count_mono k1 (k1 + j) chain'); lia).
  unfold watch_round. rewrite E1. cbn [watch_sent watch_queue].
  eexists _, _, _, txs', (k1 + j). split; [done|]. split; [|split_and!; [by split|done|done]].
  rewrite follow_all_app, E2. cbn. rewrite follow_all_app, E3; [done|done|apply Hok'].
Qed.

Lemma rounds_follow rounds chain txs k q l :
  watch_inv chain txs k q l → rounds_ok chain rounds →
  ∃ sent q' l' txs' k', watch_rounds rounds q = Ok (sent, q') ∧ follow_all l sent = Some l' ∧
    watch_inv (foldl chain_after chain rounds) txs' k' q' l' ∧
    confirmation_delay q' = confirmation_delay q ∧
    latest_block_number q' = default (latest_block_number q) (rd_latest <$> last rounds).
Proof.
  revert chain txs k q l. induction rounds as [|rd rounds IH]; intros chain txs k q l Hinv Hok; cbn [watch_rounds foldl].
  { exists [], q, l, txs, k. by split_and!. }
  destruct Hok as (H1' & H2' & H3' & H4').
  destruct (watch_step _ _ _ rd _ _ Hinv) as (sent1 & q1 & l1 & txs1 & k1 & E1 & F1 & Hinv1 & Hd1 & Hl1); [by split_and!|].
  destruct (IH _ _ _ _ _ Hinv1 H4') as (sent2 & q2 & l2 & txs2 & k2 & E2 & F2 & Hinv2 & Hd2 & Hl2).
  exists (sent1 ++ sent2), q2, l2, txs2, k2. rewrite E1. cbn [res_bind]. rewrite E2. cbn [res_bind].
  rewrite follow_all_app, F1. cbn. split_and!; [done|done|done|congruence|].
  rewrite Hl2, Hl1. destruct rounds as [|rd' rounds]; [done|]. cbn [last]. by destruct (last (rd' :: rounds)) eqn:El; [|apply last_None in El].
Qed.
End Rounds.

(** ** The manager over the log manager *)

Section Manager.
Context {E : Type} `{HashElement E} `{!Algorithm E} `{!NeverNull E} (zero : E) `{!FlowHashes E zero}.
Context (keccak : list Z → list Z) (keccak_len : ∀ x, length (keccak x) = 32).
Context {B : Type} `{BitmapOps B} `{!BitmapLaws B}.
Context `{FinMap Z M} {N : Type → Type} `{FinMap E N} (tx_hash : Transaction E → E).
Context (get_block : Z → res (option (Block E))) (digests : Transaction E → list (list E)).

(** [Store] of [log_entry_sync] over the log manager *)
Definition manager_sync_store : LogSyncStore E (LogManager E B M N) := {|
  sync_put_tx := put_tx zero keccak;
  sync_revert_to seq := lm_revert_to zero keccak seq;; st_ret tt;
  sync_check_tx_completed m seq := Ok (check_tx_completed (tx_store m) seq);
  sync_get_tx m seq := Ok (get_tx_by_seq_number (tx_store m) seq);
  sync_get_chunks := get_chunks_by_tx_and_index_range keccak;
  sync_put_progress n h := put_sync_progress (n, h);
|}.
#[local] Existing Instance manager_sync_store.
#[local] Instance manager_write_store : LogStoreWrite E (LogManager E B M N) := manager_store zero keccak tx_hash.
Implicit Types (a : log_spec (E := E) (M := M) (N := N)) (s : LogSyncManager E (LogManager E B M N)).
Implicit Types (l : list (Transaction E)) (p : option (Z * E)).

(** The log that holds the transactions [l], with the stored progress [p]. *)
Definition with_progress p a : log_spec :=
  MkLogSpec (ls_flow a) (ls_data a) (MkTransactionStore (col_tx (ls_txs a)) (col_tx_data_root_index (ls_txs a))
    (col_tx_completed (ls_txs a)) p).
Definition tx_ops_of l : list log_op := (λ tx, LPutTx tx (digests tx)) <$> l.
Definition log_of l : log_spec (M := M) (N := N) := log_after zero (tx_ops_of l).

(** The manager has stored [l], and no data are cached. *)
Definition has_stored l s : Prop :=
  (∃ p, holds_log zero keccak (with_progress p (log_of l)) (sync_store s)) ∧
  root_to_data (data_cache s) = ∅ ∧ sync_next_tx_seq s = Z.of_nat (length l).

Lemma put_tx_progress tx Gs p a :
  spec_log zero (LPutTx tx Gs) (with_progress p a) = with_progress p (spec_log zero (LPutTx tx Gs) a).
Proof.
  cbn [spec_log]. unfold with_progress at 2. cbn [ls_flow ls_data ls_txs]. f_equal.
  unfold ts_put_tx, st_bind, st_lift. destruct (with_data_root zero tx) as [tx'| |]; [|done..].
  unfold st_get. cbn. destruct (assert _ _); done.
Qed.

Lemma log_of_snoc l tx : log_of (l ++ [tx]) = spec_log zero (LPutTx tx (digests tx)) (log_of l).
Proof. unfold log_of, log_after, tx_ops_of. by rewrite fmap_app, foldl_app. Qed.

Lemma log_ops_ok_app os os' a :
  log_ops_ok zero (os ++ os') a ↔ log_ops_ok zero os a ∧ log_ops_ok zero os' (foldl (λ a o, spec_log zero o a) a os).
Proof.
  revert a. induction os as [|o os IH]; intros a; cbn [app log_ops_ok foldl]; [naive_solver|]. rewrite IH. naive_solver.
Qed.

Lemma put_inner_stores l tx s :
  has_stored l s → log_ops_ok zero (tx_ops_of (l ++ [tx])) (log_start zero (M := M) (N := N)) →
  (Z.of_nat (length l) + 1 < 2 ^ 64)%Z →
  ∃ s', put_tx_inner tx_hash tx s = (Ok true, s') ∧ has_stored (l ++ [tx]) s'.
Proof.
  intros ((p & Hh) & Hc & Hn) Hok Hmax. unfold tx_ops_of in Hok. rewrite fmap_app, log_ops_ok_app in Hok.
  destruct Hok as [_ [Hok _]].
  destruct (exec_log_refines zero keccak keccak_len (LPutTx tx (digests tx)) (with_progress p (log_of l)) (sync_store s) Hh Hok)
    as (m' & Hrun & Hm'). cbn [exec_log] in Hrun. rewrite put_tx_progress, <- log_of_snoc in Hm'.
  unfold put_tx_inner. unfold st_bind at 1, on_store at 1, st_zoom at 1, succeeds at 1.
  cbn [sync_put_tx manager_sync_store]. rewrite Hrun. cbn [negb].
  unfold st_bind at 1, on_cache at 1, pop_data. cbn [data_cache]. rewrite Hc, lookup_empty. cbn [fmap option_fmap option_map].
  unfold st_bind at 1, st_ret at 1. cbn [negb]. unfold st_bind at 1, st_reads at 1. cbn [sync_next_tx_seq].
  unfold st_bind at 1, on_cache at 1. unfold st_bind at 1, st_lift at 1, uadd. rewrite Hn, (proj2 (Z.ltb_lt _ _)) by lia.
  unfold st_bind, st_modify, st_ret. eexists. split; [done|]. split_and!; cbn.
  - by exists p.
  - by rewrite delete_empty, map_filter_empty.
  - rewrite length_app. cbn. lia.
Qed.

Lemma synced_stores n h l s :
  (∀ n, ∃ b, get_block n = Ok (Some b)) → has_stored l s →
  ∃ s', handle_progress tx_hash get_block (SyncedBlock n h) s = (Ok true, s') ∧ has_stored l s'.
Proof.
  intros Hget Hs. cbn [handle_progress]. unfold st_bind at 1, st_reads at 1.
  destruct (Hget (Z.max 0 (n - confirmation_block_count s))) as [b ->].
  destruct (block_number b) as [bn|]; [|by exists s]. destruct (block_hash b) as [bh|]; [|by exists s].
  destruct Hs as ((p & [Hi Ht]) & Hc & Hn). unfold st_bind, on_store, st_zoom, st_ret.
  cbn [sync_put_progress manager_sync_store put_sync_progress on_tx st_zoom put_progress st_modify].
  eexists. split; [done|]. split_and!; [|done|done]. exists (Some (bn, bh)). split.
  - by destruct Hi.
  - cbn. by rewrite Ht.
Qed.

Lemma follow_prefix ps l l' : (∀ n, Reverted n ∉ ps) → follow_all l ps = Some l' → l `prefix_of` l'.
Proof.
  revert l. induction ps as [|d ps IH]; intros l Hr Hf; cbn [follow_all] in Hf; [by injection Hf as ->|].
  assert (Hr' : ∀ n, Reverted n ∉ ps) by (intros n Hn; apply (Hr n); by right).
  destruct d as [n h|tx|n]; [by apply (IH l)| |destruct (Hr n); left]. cbn [follow] in Hf.
  destruct (tx_seq tx ?= Z.of_nat (length l))%Z; cbn in Hf; [|by apply (IH l)|done].
  transitivity (l ++ [tx]); [by apply prefix_app_r|by apply IH].
Qed.

(** The messages of a growing chain: the transactions that a receiver has are
    stored in the log manager, in order. *)
Lemma handle_stores ps l l' s :
  (∀ n, ∃ b, get_block n = Ok (Some b)) → (∀ n, Reverted n ∉ ps) → follow_all l ps = Some l' →
  log_ops_ok zero (tx_ops_of l') (log_start zero (M := M) (N := N)) → (Z.of_nat (length l') < 2 ^ 64)%Z → has_stored l s →
  ∃ s', handle_data tx_hash get_block ps s = (Ok true, s') ∧ has_stored l' s'.
Proof.
  intros Hget. revert l s. induction ps as [|d ps IH]; intros l s Hr Hf Hok Hmax Hs; cbn [follow_all handle_data] in *.
  { injection Hf as ->. by exists s. }
  assert (Hr' : ∀ n, Reverted n ∉ ps) by (intros n Hn; apply (Hr n); by right).
  destruct d as [n h|tx|n]; [| |destruct (Hr n); left].
  - destruct (synced_stores n h l s Hget Hs) as (s1 & E1 & Hs1). rewrite (st_bind_ok _ _ _ _ _ E1). by apply (IH l s1).
  - cbn [follow handle_progress] in *. unfold sync_put. destruct Hs as (Hh & Hc & Hn).
    unfold st_bind at 1, st_bind at 1, st_reads at 1. rewrite Hn.
    destruct (tx_seq tx ?= Z.of_nat (length l))%Z; [|by apply (IH l s)|done].
    cbn in Hf. destruct (follow_prefix ps (l ++ [tx]) l' Hr' Hf) as [rest Hl'].
    destruct (put_inner_stores l tx s) as (s1 & E1 & Hs1); [done| | |].
    + rewrite Hl' in Hok. unfold tx_ops_of in Hok |- *. rewrite fmap_app in Hok. by apply log_ops_ok_app in Hok as [? _].
    + rewrite Hl', !length_app in Hmax. cbn in Hmax. lia.
    + rewrite E1. by apply (IH (l ++ [tx]) s1).
Qed.
End Manager.

(** ** The store follows the chain *)

(** C16: however the provider reorganises the chain between the rounds, if it
    notifies the removed and the new logs, and the logs of each chain decode to
    transactions numbered in order, the watcher goes on without error. The
    messages that it sends have no gap, and after all of them a receiver has
    exactly the transactions of the first [k] blocks of the current chain, in order;
    the logs of the other blocks wait in the queue, and every block that is
    as old as the confirmation delay is among the first [k], once the chain is as
    long as the delay. While the chain only grows, so that no message is a revert,
    the provider finds the blocks it is asked for, no data of reverted transactions
    are cached, and the transactions are well formed for the log store, the manager
    handles all messages without error, and the log manager then holds exactly
    these transactions. What the log manager does on a revert is not part of this
    claim. *)
Theorem log_sync_follows_chain {R E : Type} (decode_log : R → res (Submission E))
    `{HashElement E} `{!Algorithm E} `{!NeverNull E} (zero : E) `{!FlowHashes E zero}
    (keccak : list Z → list Z) (keccak_len : ∀ x, length (keccak x) = 32)
    {B : Type} `{BitmapOps B} `{!BitmapLaws B} `{FinMap Z M} {N : Type → Type} `{FinMap E N}
    (tx_hash : Transaction E → E) (get_block : Z → res (option (Block E))) (digests : Transaction E → list (list E))
    (rounds : list (Round R E)) (chain : list (Z * list R)) (txs : list (Transaction E)) (delay : Z) :
  chain_ok decode_log chain txs → rounds_ok decode_log chain rounds →
  let chain' := foldl chain_after chain rounds in
  ∃ sent q' txs' k, watch_rounds decode_log rounds (LogConfirmationQueue_new delay) = Ok (sent, q') ∧
    chain_ok decode_log chain' txs' ∧
    follow_all txs sent = Some (take (count k chain') txs') ∧
    map_logs log_raw (queue q') = drop k chain' ∧
    (∀ rd, last rounds = Some rd → (0 <= delay <= rd_latest rd)%Z → (rd_latest rd < 2 ^ 64)%Z →
      Forall (λ b, (b.1 <= rd_latest rd - delay)%Z → b ∈ take k chain') chain') ∧
    ∀ s : LogSyncManager E (LogManager E B M N),
      (∀ n, ∃ b, get_block n = Ok (Some b)) → (∀ n, Reverted n ∉ sent) →
      log_ops_ok zero (tx_ops_of digests (take (count k chain') txs')) (log_start zero (M := M) (N := N)) →
      has_stored zero keccak digests txs s →
      ∃ s', @handle_data _ _ _ (manager_sync_store zero keccak) (manager_store zero keccak tx_hash) tx_hash get_block sent s =
          (Ok true, s') ∧
        has_stored zero keccak digests (take (count k chain') txs') s'.
Proof.
  intros Hok Hrounds chain'.
  assert (Hlen : count (length chain) chain = length txs).
  { unfold count. rewrite firstn_all. by apply Forall2_length with (1 := co_txs _ _ _ Hok). }
  assert (Hinv : watch_inv decode_log chain txs (length chain) (LogConfirmationQueue_new delay) txs).
  { split; [done|done| |by rewrite drop_all|constructor|by rewrite drop_all]. by rewrite Hlen, firstn_all. }
  destruct (rounds_follow decode_log rounds _ _ _ _ _ Hinv Hrounds)
    as (sent & q' & l' & txs' & k & E1 & F1 & [Hok' Hk -> Hq Hp Hun] & Hd & Hl). fold chain' in Hok', Hk, F1, Hq, Hun.
  exists sent, q', txs', k. split_and!; [done..| |].
  - intros rd Hrd Hdelay Hlat. rewrite Hrd in Hl. cbn in Hl, Hd. rewrite Hl, Hd, Z.mod_small in Hun by lia.
    assert (Hall : Forall (λ b, (b.1 <= rd_latest rd - delay)%Z → b ∈ take k chain') (take k chain' ++ drop k chain')).
    { apply Forall_app. split; [by apply Forall_forall|]. eapply Forall_impl; [exact Hun|]. cbn. lia. }
    by rewrite take_drop in Hall.
  - intros s Hget Hr Hops Hs. apply (handle_stores zero keccak keccak_len tx_hash get_block digests sent txs); [done..| |done].
    rewrite length_take. pose proof (co_max _ _ _ Hok'). lia.
Qed.

(** *** An example *)

(** The notification of a provider *)
Definition mark {R} (removed : bool) (blocks : list (Z * list R)) : list (Log R) :=
  concat ((λ b : Z * list R, (λ r, MkLog r (Some b.1) (Some removed)) <$> b.2) <$> blocks).

Lemma mark_none {R} (P : Log R → Prop) `{∀ l, Decision (P l)} b blocks :
  (∀ l, P l → log_removed l ≠ Some b) → filter P (mark b blocks) = [].
Proof.
  intros HP. apply filter_none. unfold mark. induction blocks as [|[n rs] blocks IH]; cbn; [constructor|].
  apply Forall_app. split; [|done]. apply Forall_fmap, Forall_forall. intros r _ HPr. by apply HP in HPr.
Qed.

Lemma mark_assoc {R} (P : Log R → Prop) `{∀ l, Decision (P l)} b n (blocks : list (Z * list R)) :
  keys_sorted blocks → (∀ r k, P (MkLog r (Some k) (Some b)) ↔ k = n) →
  log_raw <$> filter P (mark b blocks) = assoc n blocks.
Proof.
  intros Hs HP. unfold mark. induction blocks as [|[k rs] blocks IH]; [done|]. apply keys_sorted_cons in Hs as [Hs Hk].
  cbn [fmap list_fmap concat fst snd assoc]. rewrite filter_app, fmap_app, (IH Hs). case_decide as Hn.
  - subst k. rewrite assoc_above, app_nil_r by done. rewrite filter_all, <- list_fmap_compose.
    + unfold compose. cbn. by rewrite list_fmap_id.
    + apply Forall_fmap, Forall_forall. intros r _. cbn. by apply HP.
  - rewrite filter_none; [done|]. apply Forall_fmap, Forall_forall. intros r _. cbn. rewrite HP. congruence.
Qed.

Lemma mark_notifies {R} (removed added : list (Z * list R)) :
  keys_sorted removed → keys_sorted added → notifies (mark true removed ++ mark false added) removed added.
Proof.
  intros Hr Ha. split.
  - apply Forall_app. split; unfold mark; [clear Hr Ha; induction removed as [|[n rs] l IH]|clear Hr Ha; induction added as [|[n rs] l IH]];
      cbn; try constructor; (apply Forall_app; split; [|done]; apply Forall_fmap, Forall_forall; by eexists).
  - intros n. unfold removed_of. rewrite filter_app, (mark_none _ false), app_nil_r.
    + apply mark_assoc; [done|]. intros r k. cbn. unfold is_removed. cbn. naive_solver.
    + intros l [Hl _]. unfold is_removed in Hl. by destruct (log_removed l) as [[]|].
  - intros n. unfold new_of. rewrite filter_app, (mark_none _ true).
    + cbn. apply mark_assoc; [done|]. intros r k. cbn. unfold is_removed. cbn. naive_solver.
    + intros l [Hl _]. unfold is_removed in Hl. destruct (log_removed l) as [[]|]; naive_solver.
Qed.

(** Submissions of one entry *)
Definition sample_sub (x index : Z) : Submission term := MkSubmission (index + 1) 256 [(TLeaf [x], 0%Z)] index.
Definition sample_tx_of (x index : Z) : Transaction term := MkTransaction [] [] (TLeaf [x]) [(1, TLeaf [x])] (index + 1) 256 index.

(** Two blocks; then the second is replaced by two others; then all of them are. *)
Definition sample_chains : list (list (Z * list (Submission term))) :=
  [[(10, [sample_sub 1 0]); (11, [sample_sub 2 1])];
   [(10, [sample_sub 1 0]); (11, [sample_sub 3 1; sample_sub 4 2]); (13, [sample_sub 5 3])];
   [(12, [sample_sub 6 0; sample_sub 7 1]); (16, [sample_sub 8 2])]]%Z.

Definition sample_rounds : list (Round (Submission term) term) :=
  match sample_chains with
  | [c1; c2; c3] =>
      [MkRound 0 c1 (mark true [] ++ mark false c1) 12 TNull;
       MkRound 1 (drop 1 c2) (mark true (drop 1 c1) ++ mark false (drop 1 c2)) 14 TNull;
       MkRound 0 c3 (mark true c2 ++ mark false c3) 17 TNull]
  | _ => []
  end.

Lemma sample_chain_ok c (txs : list (Transaction term)) :
  StronglySorted Z.lt c.*1 → Forall (λ b, (0 < b.1)%Z) c → Forall (λ b, b.2 ≠ []) c →
  (tx_of (λ x, Ok x) <$> concat c.*2) = Ok <$> txs → tx_seq <$> txs = Z.of_nat <$> seq 0 (length txs) →
  (Z.of_nat (length txs) < 2 ^ 64)%Z → chain_ok (λ x : Submission term, Ok x) c txs.
Proof.
  intros Hs Hp Hl Ht Hseq Hm. split; [done..| | |done].
  - clear -Ht. revert txs Ht. induction (concat c.*2) as [|r l IH]; intros [|tx txs] Ht; try done.
    injection Ht as Hr Ht. constructor; [done|by apply IH].
  - intros j tx Hj. pose proof (lookup_lt_Some _ _ _ Hj) as Hlt. apply (f_equal (lookup j)) in Hseq.
    rewrite !list_lookup_fmap, Hj, lookup_seq_lt in Hseq by done. by injection Hseq.
Qed.

Ltac concrete_chain ts :=
  apply (sample_chain_ok _ ts);
  [repeat constructor | by repeat constructor | by repeat constructor | reflexivity | reflexivity | done].

(** Two blocks, then a third, and the delay is over for all of them. *)
Definition growing_chain : list (Z * list (Submission term)) :=
  [(10, [sample_sub 1 0]); (11, [sample_sub 2 1]); (12, [sample_sub 3 2])]%Z.
Definition growing_rounds : list (Round (Submission term) term) :=
  [MkRound 0 (take 2 growing_chain) (mark true [] ++ mark false (take 2 growing_chain)) 12 TNull;
   MkRound 2 (drop 2 growing_chain) (mark true [] ++ mark false (drop 2 growing_chain)) 14 TNull].
Definition growing_txs : list (Transaction term) := [sample_tx_of 1 0; sample_tx_of 2 1; sample_tx_of 3 2].

Definition some_block (n : Z) : res (option (Block term)) := Ok (Some (MkBlock (Some n) (Some TNull))).
Definition sample_digests (tx : Transaction term) : list (list term) := (λ n, [n.2]) <$> merkle_nodes tx.
Definition sample_sync : LogSyncManager term sample_log :=
  MkLogSync sample_fresh (DataCache_new (MkCacheConfig 1024 100)) 0 [] 2.

Lemma sample_rounds_ok : rounds_ok (λ x, Ok x) [] sample_rounds.
Proof.
  cbn [rounds_ok sample_rounds sample_chains chain_after rd_keep rd_added rd_logs take app drop].
  split_and!; try (cbn; lia); try done; try (apply mark_notifies; repeat constructor).
  - exists [sample_tx_of 1 0; sample_tx_of 2 1]. concrete_chain [sample_tx_of 1 0; sample_tx_of 2 1].
  - exists [sample_tx_of 1 0; sample_tx_of 3 1; sample_tx_of 4 2; sample_tx_of 5 3].
    concrete_chain [sample_tx_of 1 0; sample_tx_of 3 1; sample_tx_of 4 2; sample_tx_of 5 3].
  - exists [sample_tx_of 6 0; sample_tx_of 7 1; sample_tx_of 8 2].
    concrete_chain [sample_tx_of 6 0; sample_tx_of 7 1; sample_tx_of 8 2].
Qed.

Lemma growing_rounds_ok : rounds_ok (λ x, Ok x) [] growing_rounds.
Proof.
  cbn [rounds_ok growing_rounds growing_chain chain_after rd_keep rd_added rd_logs take app drop].
  split_and!; try (cbn; lia); try done; try (apply mark_notifies; repeat constructor).
  - exists (take 2 growing_txs). concrete_chain [sample_tx_of 1 0; sample_tx_of 2 1].
  - exists growing_txs. concrete_chain growing_txs.
Qed.

Lemma growing_ops_ok :
  log_ops_ok sample_zero (tx_ops_of sample_digests growing_txs) (log_start sample_zero (M := gmap Z) (N := gmap term)).
Proof.
  split_and!; try done; try (apply Forall2_cons; split; [apply sample_subtree|constructor]); try by repeat constructor.
Qed.

Lemma sample_sync_stored : has_stored sample_zero toy_keccak sample_digests [] sample_sync.
Proof.
  split_and!; [|done|done]. exists None.
  destruct (log_new_holds (B := Z) (M := gmap Z) (N := gmap term) sample_zero toy_keccak) as (m & Hm & Hh).
  unfold sample_sync, sample_fresh. cbn [sync_store]. rewrite Hm. exact Hh.
Qed.

Lemma empty_chain_ok : chain_ok (λ x : Submission term, Ok x) [] [].
Proof. concrete_chain (@nil (Transaction term)). Qed.

Lemma log_sync_follows_chain_witness :
  (∃ sent q', watch_rounds (λ x, Ok x) sample_rounds (LogConfirmationQueue_new 2) = Ok (sent, q') ∧
    follow_all [] sent = Some [sample_tx_of 6 0; sample_tx_of 7 1]) ∧
  (∃ sent q' s', watch_rounds (λ x, Ok x) growing_rounds (LogConfirmationQueue_new 2) = Ok (sent, q') ∧
    @handle_data _ _ _ (manager_sync_store sample_zero toy_keccak) (manager_store sample_zero toy_keccak sample_hash)
      sample_hash some_block sent sample_sync = (Ok true, s') ∧
    has_stored sample_zero toy_keccak sample_digests growing_txs s').
Proof.
  split.
  - destruct (log_sync_follows_chain (B := Z) (M := gmap Z) (N := gmap term) (λ x, Ok x) sample_zero toy_keccak toy_keccak_len
      sample_hash some_block sample_digests sample_rounds [] [] 2 empty_chain_ok sample_rounds_ok)
      as (sent & q' & txs' & k & E1 & _). exists sent, q'. split; [exact E1|].
    vm_compute in E1. injection E1 as <- <-. vm_compute. reflexivity.
  - destruct (log_sync_follows_chain (B := Z) (M := gmap Z) (N := gmap term) (λ x, Ok x) sample_zero toy_keccak toy_keccak_len
      sample_hash some_block sample_digests growing_rounds [] [] 2 empty_chain_ok growing_rounds_ok)
      as (sent & q' & txs' & k & E1 & _ & Hf & _ & _ & Hm).
    assert (follow_all [] sent = Some growing_txs ∧ ∀ n, Reverted n ∉ sent) as [Hf' Hr].
    { clear -E1. vm_compute in E1. injection E1 as <- <-. split; [vm_compute; reflexivity|].
      intros n Hn. repeat (apply elem_of_cons in Hn as [Hn|Hn]; [discriminate Hn|]). by apply not_elem_of_nil in Hn. }
    revert Hf Hm. generalize (take (count k (foldl chain_after [] growing_rounds)) txs'). intros l Hf Hm.
    assert (l = growing_txs) as -> by congruence.
    destruct (Hm sample_sync) as (s' & E2 & Hs'); [by eexists|exact Hr|apply growing_ops_ok|apply sample_sync_stored|].
    exists sent, q', s'. split; [exact E1|]. split; [exact E2|exact Hs'].
Defined.

(** ** A young chain *)

(** The delay is subtracted with wrap-around: while the chain has fewer blocks
    than the delay, logs are confirmed at once. *)
Lemma young_chain_confirms_all {R} latest (q : LogConfirmationQueue R) :
  (0 <= latest < confirmation_delay q)%Z → (confirmation_delay q < 2 ^ 63)%Z →
  keys_sorted (queue q) → Forall (λ b, (b.1 <= latest)%Z) (queue q) →
  confirm_logs latest q = (Ok (concat (queue q).*2), MkQueue [] latest (confirmation_delay q)).
Proof.
  intros Hl Hd Hs Hb. unfold confirm_logs, st_bind, st_get.
  assert (Hthr : ((latest - confirmation_delay q) mod 2 ^ 64 = latest - confirmation_delay q + 2 ^ 64)%Z).
  { rewrite <- (Z.mod_small (latest - confirmation_delay q + 2 ^ 64) (2 ^ 64)) by lia.
    rewrite <- Z.add_mod_idemp_r by done. by rewrite Z.mod_same, Z.add_0_r. }
  rewrite Hthr. destruct (take_confirmed_spec (latest - confirmation_delay q + 2 ^ 64) (queue q) Hs) as (j & -> & Hj & _ & Hgt).
  assert (Hnil : drop j (queue q) = []).
  { destruct (drop j (queue q)) as [|b l] eqn:Ed; [done|]. exfalso. apply Forall_inv in Hgt.
    pose proof (Forall_drop _ j _ Hb) as Hb'. rewrite Ed in Hb'. apply Forall_inv in Hb'. lia. }
  rewrite Hnil, take_ge; [done|]. apply (f_equal length) in Hnil. rewrite length_drop in Hnil. cbn in Hnil. lia.
Qed.
